(* ===== verification/_CoqProject ===== *)
-Q . S2P
Prelude.v
Rights.v
Forest.v
Mdb.v
Cdt.v
Kobject.v
Kcnode.v
KcnodeInv.v
KcnodeRevoke.v
KcnodeInstall.v
KcnodeMove.v
Cspace.v
IpcCap.v
KcnodeBoot.v
Kuntyped.v
PmmList.v
Pmm.v
PmmInv.v
PmmApi.v
PmmSafe.v
Ring.v
Kschedctx.v
SchedBandwidth.v
Runq.v
RunqInv.v
RunqSpec.v
Sched.v
SchedSpec.v
Wq.v
Ipc.v
IpcMsg.v
Knotification.v
KnotifSpec.v
KnotifWake.v
IrqDelivery.v
Endpoint.v
EndpointInv.v
EndpointQueue.v
EndpointSend.v
EndpointRecv.v
EndpointReply.v
EndpointCall.v
EndpointClose.v
EndpointCancel.v
EndpointResume.v
EndpointSpec.v
Slist.v
Paging.v
PagingInv.v
PagingSpec.v
Vspace.v
VspacePg.v
VspaceInv.v
VspaceMap.v
VspaceOps.v
VspaceUnmap.v
VspaceFinal.v
VspaceInval.v
VspaceCaps.v
VspaceCapsOk.v
VspaceDemo.v
VspaceSpec.v
SysCspace.v
SysPins.v
SysCalls.v
SysCspaceSpec.v
Asidpool.v
AsidInv.v
AsidSpec.v
