(* ===== verification/Prelude.v ===== *)
(** * IRIS kernel: a verification library

    IRIS is a capability microkernel for x86-64 in C.  Its core is a set of kernel
    objects (CNodes, Untyped regions, scheduling contexts, notifications, address
    spaces, ...) reached through capabilities, a physical memory manager and page
    tables below them and a scheduler beside them.  This library models those parts
    as executable functions over explicit state, one Rocq definition per C function,
    and proves the properties that make them correct.

    ** The parts, where they are modelled, and the code they translate

    - Rights, badges and error codes: [Rights] (kernel/new_core/include/iris/nc:
      rights.h, error.h).
    - Capabilities: [Mdb] is the derivation tree threaded through the slots of all
      CNodes, [Kobject] the reference counts of objects, [Kcnode] the CNode
      operations (kernel/new_core/src/kcnode.c, kobject.c).  The state is [kstate]:
      the slots with their content and five tree links ([mdb_state]), the objects
      with lifecycle and active counts, and the queue of the deletion cascade.
      [Forest] is the theory of the tree's pointer structure, [Cdt] the abstract
      derivation tree that it implements.  [KcnodeInv] has the invariant,
      [KcnodeRevoke], [KcnodeInstall] and [KcnodeMove] what each operation does to
      the abstract tree, [KcnodeBoot] construction and two concrete histories.
    - Addresses of capabilities: [Cspace] (cspace.c), the walk through CNodes with
      guards, over [Kcnode].
    - Capability system calls: [SysCspace] is syscall_cspace.c, syscall_cnode_ops.c
      and the restart of an unfinished call by syscall_dispatch.c (kernel/core/
      syscall).  [SysPins] follows the references a handler takes, [SysCalls] has the
      contract of each handler, [SysCspaceSpec] the theorems on histories.
    - Untyped memory: [Kuntyped] (kuntyped.c), the two-ended bump allocator objects
      are made from.
    - Physical pages: [PmmList] (the free lists), [Pmm] (every function of
      kernel/mm/pmm/pmm.c), [PmmInv] and [PmmApi] (the buddy invariant and what each
      function does to it), [PmmSafe] (theorems).
    - Page tables: [Paging] (kernel/arch/x86_64/paging.c: walks and edits of four
      levels of tables in physical memory), [PagingInv] (what an edit leaves alone),
      [PagingSpec].
    - Address spaces: [Vspace] (kvspace.c, kframe.c, kpagetable.c) over [Paging] and
      the singly linked lists of [Slist].  What a space needs of the capability layer
      is the class [VmCaps] with the laws [VmCapsOk]: [VspacePg], [VspaceInv],
      [VspaceMap], [VspaceOps], [VspaceUnmap], [VspaceFinal] and [VspaceInval] prove
      the space against the interface, [VspaceCaps] implements it with CNodes carved
      from Untypeds and [VspaceCapsOk] proves the laws.  [VspaceSpec] has the
      theorems, [VspaceDemo] a concrete system on that implementation.
    - Identifiers of address spaces: [Asidpool] (kasidpool.c, the identifier functions
      of kvspace.c, [sys_asid_pool_assign] of syscall_vm.c), [AsidInv] (the bitmap of a
      pool as a set, who holds what), [AsidSpec] (the machine in which the calls of
      several processors interleave, and the theorems).
    - Scheduling contexts: [Ring] (circular buffers), [Kschedctx] (kschedctx.c and
      two fragments of kernel/core/syscall/syscall_sched.c), [SchedBandwidth].
    - Run queues: [Runq] (the [rq_*] functions and the thread state changes of
      kernel/core/scheduler/task_lifecycle.c), [RunqInv] (representation),
      [RunqSpec] (abstract queues and refinement).
    - The tick and the dispatcher: [Sched] (kernel/core/scheduler/scheduler.c) over
      [Runq] and [Kschedctx], [SchedSpec].
    - Notifications and interrupts: [Wq] (intrusive queues of threads), [Ipc] (the
      state), [Knotification] (knotification.c, kernel/core/irq/irq_routing.c and the
      delivery to a bound thread of kernel/core/syscall/syscall_endpoint.c),
      [KnotifSpec], [KnotifWake], [IrqDelivery], over [Runq].
    - Messages: [IpcMsg] (the words of a message, MessageInfo, the IPC buffers:
      kernel/include/iris/ipc_msg.h and the first part of syscall_endpoint.c) and
      [IpcCap] (a capability that travels: staging at the sender, the receiver's
      declared slot, delivery), over [Cspace] and [Kcnode].
    - Endpoints and replies: [Endpoint] is kendpoint.c, kreply.c and the handlers of
      kernel/core/syscall/syscall_endpoint.c and syscall_reply.c.  Its state [ek]
      joins the capability layer, the threads and queues of [Ipc], the per-thread
      fields of a message in flight ([ep_task]), the reply objects and physical
      memory.  [EndpointInv] accounts for every reference: the counts of an object
      are what slots, threads and handlers in progress hold.  [EndpointQueue] has the
      queues as lists; [EndpointSend], [EndpointRecv], [EndpointCall],
      [EndpointReply], [EndpointClose], [EndpointCancel] and [EndpointResume] each
      give one handler's contract, [EndpointSpec] the theorems on concrete systems.

    This file has what they share: integers of fixed width, links and chains,
    loops, regions, and the result type.

    ** How C is modelled

    A [uintN_t] is a [Z] with its wrap-around written out ([u8] .. [u64]).  A pointer
    to an object is the object's name; an array or a field of all objects of a kind
    is a function, updated at a point by [upd_fn].  A function that can fail an
    assertion or that runs a loop over pointers has type [res]: [Ret] is a return,
    [Panic] a failed [IRIS_ASSERT] or [iris_panic], [NoFuel] the model's own bound.
    Locks are not modelled where a function holds its lock from the first access to
    the last; where it does not ([knotification_wait_step]) the sections are separate
    definitions and [KnotifWake] interleaves them, with the atomic accesses
    sequentially consistent.  A system call that parks is entered again with its
    arguments: [SysCspaceSpec] interleaves the entries of all threads.

    ** Fuel

    Loops over pointer structures take fuel computed from the state, and the
    theorems show it is never used up: the number of slots for the derivation tree
    and the cascade, the order of a block for the buddy loops, the number of threads
    for run queues and waiter queues, the number of mapping records of a space or a
    frame for the loops of [Vspace], one re-entry per sixteen capabilities for a
    revocation that is restarted.

    ** What the theorems show

    - Capabilities (C1, C16, C17): revocation is complete, and exact when it ends
      no object; deletion and its cascade are safe. Plain theorems of
      [KcnodeInstall], [KcnodeMove], [KcnodeRevoke] and [KcnodeBoot] cover
      derivation, installation, deletion as a tree operation, bounded revocation,
      moving, rotation, swap and construction.
    - Capability system calls (C2, C14, C15, C30): no history of calls by any
      threads amplifies authority or breaks a count; a restarted revocation
      completes and answers the number destroyed; mint and move are exact on every
      path. The conditions on a call, a root that is still referred to, room in
      the counts, and no move of a CNode's capability across that CNode's border,
      are part of the statements; plain theorems of [SysCspaceSpec] and
      [KcnodeBoot] show what the code does without the first and the last.
    - Addresses (C27, C29): resolving one is the reference walk, reads only, and
      no bit of an address that resolves is ignored.
    - IPC (C3, C4, C12, C13, C33, C34, C35): send, receive and call either
      rendezvous with the head of the queue, or park, or refuse, with every
      reference on objects accounted for on every path; a call whose receiver lost
      its reply object is refused after the receiver was served; a reply answers
      once and sends the lent time home; a closing endpoint wakes or kills every
      waiter; cancellation removes what it names; a parked call resumes with
      nothing left staged.
    - Messages (C9, C36, C37): a capability is delivered only where it was
      declared, with no more rights than it had and as a child of its source;
      payloads stay inside the two buffers; messages are well typed.
    - Memory (C10, C11, C38): allocations of an Untyped never overlap; the page
      allocator hands out no page twice, finds a free page when there is one and
      detects double frees.
    - Page tables (C8, C22, C23, C28): the walks are a reference translation, an
      edit changes exactly the pages it names, with their permission to execute
      ([executes], a walk of its own that follows bit 63), and no history of edits
      and destructions of one space reaches another or the kernel's half.
    - Address spaces (C5, C6, C7, C18, C19): mapping and unmapping do what they
      say on every path; over any history, every page mapped in a space belongs to
      a frame the space still holds a capability to.
    - Identifiers of address spaces (C20): under any interleaving no two spaces
      get the same hardware tag, and none is lost.
    - Scheduling (C24, C25, C26, C39): run queues are priority FIFOs, the
      dispatcher gets the best thread, the charging functions keep a context
      within its bandwidth, a budget ends on the tick, and an idle core sets the
      clock to the nearest deadline and wakes what is due.
    - Notifications (C21, C31, C32): without a bound thread they refine a word of
      bits and a FIFO, and no wake-up is lost under any interleaving in which no
      thread is killed; interrupts reach a bound thread.
    - C40 and the plain theorems under "Where the code falls short" state
      behaviour of the code that contradicts what it means to do, each on every
      state of a class or on a concrete history.

    ** Not modelled

    The fault record and its message; creation and teardown of threads, so that
    killing a thread is an event in [ek]; creation and settlement of address spaces,
    but for their identifiers, the kernel map built at boot and the inter-processor
    protocol of the TLB shootdown; the retype call, which joins Untypeds, CNodes and the
    constructor of each type of object; the system calls that only decode arguments for
    the parts above (frames, scheduling contexts, notifications, interrupts,
    diagnostics);
    I/O spaces, ports and the IOMMU; processor and device set-up; boot; the services
    and tests in user space.  They are hardware set-up, glue, or programs outside the
    kernel.  Statistics counters that nothing reads back are left out.

    In the capability layer the close and destroy hooks of objects other than CNodes
    are events ([EvClose], [EvDestroy] of [Kobject]).  In the kernel such a hook can act
    on capabilities in turn: settling a dying address space, [kvspace_settle], empties
    the CNodes with its map capabilities and its slots for the ASID and page-table
    pools; an endpoint, a reply object or a notification that closes wakes its
    waiters, which [Endpoint] and [Knotification] model on their own state; a dying
    thread is torn down.  So the theorems that say that nothing else changed
    (C16, and the number answered in C14) are
    stated for revocations after which every object named below the capability is still
    named elsewhere, where no hook runs. *)

From Stdlib Require Import ZArith Lia.
From stdpp Require Import base numbers gmap list.

Declare Scope iris_scope.
Delimit Scope iris_scope with iris.

(** ** Fixed-width unsigned integers

    A C [uintN_t] is a [Z] kept in [0, 2^N) by an explicit wrap. *)

Definition wrap (w : Z) (x : Z) : Z := (x mod 2 ^ w)%Z.
Abbreviation u8 := (wrap 8).
Abbreviation u16 := (wrap 16).
Abbreviation u32 := (wrap 32).
Abbreviation u64 := (wrap 64).

Notation "'U8MAX'" := 255%Z : iris_scope.
Notation "'U32MAX'" := 4294967295%Z : iris_scope.
Notation "'U64MAX'" := 18446744073709551615%Z : iris_scope.

Definition in_width (w x : Z) : Prop := (0 ≤ x < 2 ^ w)%Z.

#[global] Instance in_width_dec w x : Decision (in_width w x).
Proof. unfold in_width. apply _. Defined.

Lemma wrap_in_width w x : (0 ≤ w)%Z → in_width w (wrap w x).
Proof. intros Hw. apply Z.mod_pos_bound. lia. Qed.

Lemma wrap_id w x : in_width w x → wrap w x = x.
Proof. intros H. apply Z.mod_small, H. Qed.

Lemma u32_id x : (0 ≤ x < 2 ^ 32)%Z → u32 x = x.
Proof. intros. by apply wrap_id. Qed.

Lemma u64_id x : (0 ≤ x < 2 ^ 64)%Z → u64 x = x.
Proof. intros. by apply wrap_id. Qed.

(** Two words with no bit in common. *)
Lemma lor_disjoint a b k : (0 ≤ k → 0 ≤ b < 2 ^ k → Z.lor (a * 2 ^ k) b = a * 2 ^ k + b)%Z.
Proof.
  intros Hk Hb. rewrite <-Z.add_lor_land.
  assert (Z.land (a * 2 ^ k) b = 0)%Z as ->; [|lia].
  apply Z.bits_inj'. intros i Hi. rewrite Z.land_spec, Z.bits_0. destruct (Z.lt_ge_cases i k).
  - by rewrite Z.mul_pow2_bits_low.
  - destruct (decide (b = 0%Z)) as [->|]; [by rewrite Z.bits_0, andb_comm|].
    rewrite andb_comm, Z.bits_above_log2; [done|lia|].
    apply Z.log2_lt_pow2; [lia|]. apply Z.lt_le_trans with (2 ^ k)%Z; [lia|]. apply Z.pow_le_mono_r; lia.
Qed.

Lemma high_mask w k : (0 ≤ k ≤ w)%Z → (2 ^ w - 2 ^ k = Z.ldiff (Z.ones w) (Z.ones k))%Z.
Proof.
  intros H. rewrite Z.ldiff_ones_r by lia.
  rewrite !Z.ones_equiv, Z.shiftr_div_pow2, Z.shiftl_mul_pow2 by lia.
  replace (2 ^ w)%Z with (2 ^ (w - k) * 2 ^ k)%Z by (rewrite <-Z.pow_add_r by lia; f_equal; lia).
  replace (Z.pred (2 ^ (w - k) * 2 ^ k))%Z with ((2 ^ (w - k) - 1) * 2 ^ k + (2 ^ k - 1))%Z by lia.
  rewrite Z.div_add_l, (Z.div_small (2 ^ k - 1)) by lia. lia.
Qed.

(** [x & ~(2^k - 1)] clears the low [k] bits. *)
Lemma land_high_mask w k x :
  (0 ≤ k ≤ w)%Z → (0 ≤ x < 2 ^ w)%Z → (Z.land x (2 ^ w - 2 ^ k) = x - x mod 2 ^ k)%Z.
Proof.
  intros H Hx. rewrite high_mask by lia.
  replace (Z.land x (Z.ldiff (Z.ones w) (Z.ones k)))
    with (Z.ldiff (Z.land x (Z.ones w)) (Z.ones k)).
  - rewrite Z.land_ones, Z.mod_small, Z.ldiff_ones_r, Z.shiftr_div_pow2, Z.shiftl_mul_pow2 by lia.
    pose proof (Z.div_mod x (2 ^ k)). lia.
  - apply Z.bits_inj'. intros n Hn. rewrite !Z.ldiff_spec, !Z.land_spec, Z.ldiff_spec.
    by destruct (Z.testbit x n), (Z.testbit (Z.ones w) n).
Qed.

(** [(x + 2^k - 1) & ~(uint64_t)(2^k - 1)]: rounding up, with its wrap. *)
Definition align_up (k x : Z) : Z := Z.land (u64 (x + (2 ^ k - 1))) (2 ^ 64 - 2 ^ k).

Lemma align_up_spec k x :
  (0 ≤ k ≤ 64)%Z → (0 ≤ x)%Z → (x + (2 ^ k - 1) < 2 ^ 64)%Z →
  (x ≤ align_up k x < x + 2 ^ k)%Z ∧ (align_up k x mod 2 ^ k = 0)%Z ∧ (align_up k x < 2 ^ 64)%Z.
Proof.
  intros Hk Hx Hb. unfold align_up.
  assert (0 < 2 ^ k)%Z by lia.
  rewrite (wrap_id 64) by (unfold in_width; lia). rewrite land_high_mask by lia.
  pose proof (Z.mod_pos_bound (x + (2 ^ k - 1)) (2 ^ k)). split; [lia|]. split; [|lia].
  rewrite Zminus_mod_idemp_r, Z.sub_diag || rewrite Zminus_mod, Zmod_mod, Z.sub_diag.
  apply Zmod_0_l.
Qed.

(** Past the end of the address space the rounding wraps to 0. *)
Lemma align_up_wrap k x :
  (0 ≤ k ≤ 64)%Z → (x < 2 ^ 64)%Z → (2 ^ 64 ≤ x + (2 ^ k - 1))%Z → align_up k x = 0%Z.
Proof.
  intros Hk Hx Hb. unfold align_up. assert (0 < 2 ^ k)%Z by lia.
  assert (2 ^ k ≤ 2 ^ 64)%Z by (apply Z.pow_le_mono_r; lia).
  assert (u64 (x + (2 ^ k - 1)) = x + (2 ^ k - 1) - 2 ^ 64)%Z as ->.
  { unfold wrap. symmetry. apply (Z.mod_unique _ _ 1); lia. }
  rewrite land_high_mask by lia. rewrite Z.mod_small by lia. lia.
Qed.

(** ** Link functions

    An intrusive list or tree is a partial function from nodes to nodes (the
    value of one pointer field).  [walk f n o] is the list of nodes a C loop
    [for (p = o; p; p = f(p))] visits in at most [n] iterations. *)

Section link_functions.
Context {A : Type} `{EqDecision A}.
Implicit Types (f g : A → option A) (x y : A) (o : option A).

Fixpoint walk f (n : nat) o : list A :=
  match n, o with
  | S n', Some x => x :: walk f n' (f x)
  | _, _ => []
  end.

(** [upd_fn f x v] is the field after [x->field = v]; [upd_fn_opt f o v] the
    field after [if (o) o->field = v]. *)
Definition upd_fn {B : Type} (f : A → B) x (v : B) : A → B :=
  λ y, if decide (y = x) then v else f y.
Lemma upd_fn_same {B : Type} (f : A → B) x v : upd_fn f x v x = v.
Proof. unfold upd_fn. by rewrite decide_True. Qed.
Lemma upd_fn_other {B : Type} (f : A → B) x v y : y ≠ x → upd_fn f x v y = f y.
Proof. intros. unfold upd_fn. by rewrite decide_False. Qed.

Definition upd_fn_opt {B : Type} (f : A → B) o (v : B) : A → B :=
  match o with Some x => upd_fn f x v | None => f end.

(** The field after a loop stored [v] at every node of [l]. *)
Definition upd_list {B : Type} (f : A → B) (l : list A) (v : B) : A → B :=
  foldl (λ (g : A → B) x, upd_fn g x v) f l.

Lemma upd_list_spec {B : Type} (f : A → B) l v x :
  upd_list f l v x = if decide (x ∈ l) then v else f x.
Proof.
  revert f. induction l as [|y l IH]; intros f; simpl; [done|].
  change (upd_list (upd_fn f y v) l v x = if decide (x ∈ y :: l) then v else f x).
  rewrite IH. unfold upd_fn. repeat case_decide; set_solver.
Qed.

(** Every walk along [f] ends: no cycle, no infinite chain. *)
Definition wf_link f : Prop := ∀ x, Acc (λ y x, f x = Some y) x.

Lemma wf_link_ind f (P : A → Prop) :
  wf_link f → (∀ x, (∀ y, f x = Some y → P y) → P x) → ∀ x, P x.
Proof. intros Hwf HP x. induction (Hwf x) as [x _ IH]. by apply HP. Qed.

Lemma wf_link_irrefl f x : wf_link f → f x ≠ Some x.
Proof. intros Hwf. pattern x. revert x. apply (wf_link_ind f); [done|]. naive_solver. Qed.

Lemma wf_link_ext f g : (∀ x, f x = g x) → wf_link f → wf_link g.
Proof.
  intros Hext Hwf x. induction (Hwf x) as [x _ IH]. constructor.
  intros y Hy. apply IH. by rewrite Hext.
Qed.

(** A node reached after at least one step of [f]. *)
Definition reach f : A → A → Prop := tc (λ x y, f x = Some y).

Lemma wf_link_no_cycle f x : wf_link f → ¬ reach f x x.
Proof.
  intros Hwf.
  assert (∀ a, Acc (λ y x, reach f x y) a) as Hacc.
  { intros a. induction (Hwf a) as [a _ IH]. constructor. intros y Hy.
    destruct Hy as [a' y Hay|a' b y Hab Hby]; [by apply IH|].
    destruct (IH b Hab) as [Hb]. by apply Hb. }
  induction (Hacc x) as [x _ IH]. intros Hx. exact (IH x Hx Hx).
Qed.

(** [chain f o l]: the walk from [o] visits exactly [l] and then stops. *)
Inductive chain f : option A → list A → Prop :=
  | chain_nil : chain f None []
  | chain_cons x l : chain f (f x) l → chain f (Some x) (x :: l).

Lemma chain_exists f o : wf_link f → ∃ l, chain f o l.
Proof.
  intros Hwf. destruct o as [x|]; [|by exists []; constructor].
  induction (Hwf x) as [x _ IH].
  destruct (f x) as [y|] eqn:Hy; [destruct (IH y eq_refl) as [l Hl]|];
    eexists (x :: _); constructor; rewrite Hy; eauto using chain.
Qed.

Lemma chain_fun f o l l' : chain f o l → chain f o l' → l = l'.
Proof.
  intros H; revert l'; induction H as [|x l H IH]; intros l' H';
    inversion H'; subst; [done|]. f_equal. by apply IH.
Qed.

Lemma chain_walk f o l n : chain f o l → length l ≤ n → walk f n o = l.
Proof.
  intros H. revert n. induction H as [|x l H IH]; intros n Hn; [by destruct n|].
  destruct n as [|n]; simpl in *; [lia|]. f_equal. apply IH. lia.
Qed.

Lemma chain_ext f g o l :
  (∀ x, x ∈ l → f x = g x) → chain f o l → chain g o l.
Proof.
  intros Hext H. induction H as [|x l H IH]; [constructor|]. constructor.
  rewrite <-Hext by set_solver. apply IH. set_solver.
Qed.

Lemma chain_reach f x l y : chain f (f x) l → y ∈ l → reach f x y.
Proof.
  intros H. remember (f x) as o eqn:Ho. revert x Ho.
  induction H as [|z l H IH]; intros x Ho Hy; [set_solver|].
  apply elem_of_cons in Hy as [->|Hy]; [by constructor|].
  eapply tc_l; [by symmetry|]. by apply IH.
Qed.

Lemma chain_NoDup f o l : wf_link f → chain f o l → NoDup l.
Proof.
  intros Hwf H. induction H as [|x l H IH]; constructor; [|done].
  intros Hx. eapply wf_link_no_cycle, chain_reach; eauto.
Qed.

(** The invariant of a walk: what holds of the start and is carried along the
    links holds of every node visited. *)
Lemma chain_forall f (P : A → Prop) o l :
  chain f o l → (∀ x, o = Some x → P x) →
  (∀ x y, P x → f x = Some y → P y) → Forall P l.
Proof.
  intros H. induction H as [|x l H IH]; intros H0 Hstep; constructor; [by apply H0|].
  apply IH; [|done]. intros y Hy. eapply Hstep; [by apply H0|done].
Qed.

Lemma chain_last f o l x : chain f o l → last l = Some x → f x = None.
Proof.
  intros H. induction H as [|y l H IH]; [done|].
  destruct l as [|z l]; [|by rewrite last_cons_cons].
  simpl. intros [= ->]. by inversion H.
Qed.
End link_functions.

Arguments chain_nil {_ _}.
Arguments chain_cons {_ _} _ _ _.

(** Case analysis on every pointer comparison a surgery makes, then
    propositional reasoning with the link facts in the context. *)
Ltac link_cases :=
  simpl in *; unfold upd_fn in *; repeat case_decide; subst; simpl in *.
Ltac link_solve := link_cases; solve [intuition congruence].

(** ** Counting loops

    [for_up n f a] is [for (i = 0; i < n; i++) a = f(i, a);] and
    [for_range lo hi f a] the same loop from [lo] to [hi]. *)

Definition for_up {A : Type} (n : Z) (f : Z → A → A) (a : A) : A :=
  foldl (λ a i, f (Z.of_nat i) a) a (seq 0 (Z.to_nat n)).
Definition for_range {A : Type} (lo hi : Z) (f : Z → A → A) (a : A) : A :=
  for_up (hi - lo) (λ i, f (lo + i)%Z) a.

(** A loop invariant that holds at entry and that each iteration carries on
    holds at exit. *)
Lemma for_up_ind {A : Type} (P : Z → A → Prop) n f a :
  (0 ≤ n)%Z → P 0%Z a → (∀ i a, (0 ≤ i < n)%Z → P i a → P (i + 1)%Z (f i a)) → P n (for_up n f a).
Proof.
  intros Hn H0 Hs. unfold for_up.
  assert (∀ m, m ≤ Z.to_nat n →
    P (Z.of_nat m) (foldl (λ a i, f (Z.of_nat i) a) a (seq 0 m))) as Hm.
  { induction m as [|m IH]; [done|]. intros Hle. rewrite seq_S, foldl_app. simpl.
    replace (Z.of_nat (S m)) with (Z.of_nat m + 1)%Z by lia. apply Hs; [lia|]. apply IH. lia. }
  specialize (Hm (Z.to_nat n) (le_n _)). by rewrite Z2Nat.id in Hm.
Qed.

Lemma for_range_ind {A : Type} (P : Z → A → Prop) lo hi f a :
  (lo ≤ hi)%Z → P lo a → (∀ i a, (lo ≤ i < hi)%Z → P i a → P (i + 1)%Z (f i a)) →
  P hi (for_range lo hi f a).
Proof.
  intros Hle H0 Hs. unfold for_range.
  replace hi with (lo + (hi - lo))%Z at 1 by lia.
  apply (for_up_ind (λ i, P (lo + i)%Z)); [lia|by rewrite Z.add_0_r|].
  intros i b Hi Hb. rewrite Z.add_assoc. apply Hs; [lia|done].
Qed.

Lemma for_range_empty {A : Type} lo hi f (a : A) : (hi ≤ lo)%Z → for_range lo hi f a = a.
Proof. intros H. unfold for_range, for_up. by rewrite Z2Nat.nonpos by lia. Qed.

(** ** Regions

    A region is a base and a length. *)

Section regions.
Local Open Scope Z_scope.
Definition inside (lo hi : Z) (r : Z * Z) : Prop := lo ≤ r.1 ∧ r.1 + r.2 ≤ hi.
Definition disjoint (r q : Z * Z) : Prop := r.1 + r.2 ≤ q.1 ∨ q.1 + q.2 ≤ r.1.

Fixpoint all_disjoint (l : list (Z * Z)) : Prop :=
  match l with [] => True | r :: l => Forall (disjoint r) l ∧ all_disjoint l end.

Lemma all_disjoint_app l1 l2 :
  all_disjoint l1 → all_disjoint l2 → Forall (λ r, Forall (disjoint r) l2) l1 → all_disjoint (l1 ++ l2).
Proof.
  induction l1 as [|r l1 IH]; simpl; [done|]. intros [H1 H2] H3 H4.
  apply Forall_cons in H4 as [H4 H5]. split; [|by apply IH]. by apply Forall_app.
Qed.

Lemma disjoint_sym r q : disjoint r q → disjoint q r.
Proof. unfold disjoint. tauto. Qed.

Lemma all_disjoint_remove l1 r l2 :
  all_disjoint (l1 ++ r :: l2) →
  all_disjoint (l1 ++ l2) ∧ Forall (disjoint r) (l1 ++ l2).
Proof.
  induction l1 as [|q l1 IH]; simpl; [tauto|]. intros [H1 H2].
  destruct (IH H2) as [H3 H4]. rewrite Forall_app, Forall_cons in H1.
  split; [split; [rewrite Forall_app; tauto|done]|]. constructor; [|done].
  apply disjoint_sym. tauto.
Qed.
End regions.

(** ** Results of kernel code

    [Ret a] is a return; [Panic] is a failed [IRIS_ASSERT] (or [iris_panic], or
    an access to freed storage); [NoFuel] is the model's own bound on a loop or
    a recursion, which the termination theorems show is never met. *)

Inductive res (A : Type) := Ret (a : A) | Panic | NoFuel.
Arguments Ret {_} _.
Arguments Panic {_}.
Arguments NoFuel {_}.

#[global] Instance res_ret : MRet res := λ A a, Ret a.
#[global] Instance res_bind : MBind res := λ A B f m,
  match m with Ret a => f a | Panic => Panic | NoFuel => NoFuel end.

Lemma res_bind_Ret {A B} (f : A → res B) (m : res A) b :
  m ≫= f = Ret b ↔ ∃ a, m = Ret a ∧ f a = Ret b.
Proof. destruct m; simpl; naive_solver. Qed.

Lemma res_bind_NoFuel {A B} (f : A → res B) (m : res A) :
  m ≫= f = NoFuel → m = NoFuel ∨ ∃ a, m = Ret a ∧ f a = NoFuel.
Proof. destruct m; simpl; naive_solver. Qed.

(** [IRIS_ASSERT(b)]. *)
Definition iris_assert (b : bool) : res unit := if b then Ret tt else Panic.

(** An assertion inside a primitive of type [option]. *)
Definition of_assert {A} (o : option A) : res A :=
  match o with Some a => Ret a | None => Panic end.

(** Split a successful run into its steps. *)
Ltac res_inv :=
  repeat match goal with
  | H : (_ ≫= _) = Ret _ |- _ => apply res_bind_Ret in H as (? & ? & H)
  | H : Ret _ = Ret _ |- _ => injection H as H
  | H : Panic = Ret _ |- _ => discriminate H
  | H : NoFuel = Ret _ |- _ => discriminate H
  end.

(** ** Total specifications

    [returns m Q]: the code returns, with no assertion failed and no fuel
    exhausted, and [Q] holds of what it returns. *)

Definition returns {A} (m : res A) (Q : A → Prop) : Prop :=
  match m with Ret a => Q a | Panic => False | NoFuel => False end.

Lemma returns_bind {A B} (m : res A) (f : A → res B) Q :
  returns m (λ a, returns (f a) Q) → returns (m ≫= f) Q.
Proof. by destruct m. Qed.

Lemma returns_mono {A} (m : res A) (P Q : A → Prop) :
  returns m P → (∀ a, P a → Q a) → returns m Q.
Proof. destruct m; simpl; auto. Qed.

Lemma returns_Ret {A} (m : res A) Q : returns m Q ↔ ∃ a, m = Ret a ∧ Q a.
Proof. destruct m; naive_solver. Qed.
