(* ===== verification/Rights.v ===== *)
(** * Object types, error codes, rights and badges

    The vocabulary every other component shares:
    - [iris_error_t]    from nc/error.h;
    - [kobject_type_t]  from nc/kobject.h;
    - the rights mask and its two operations from nc/rights.h;
    - the badge-derivation rule [mdb_badge_derive] of kcnode.c. *)

From Stdlib Require Import ZArith Lia.
From stdpp Require Import base numbers gmap list.
From S2P Require Import Prelude.
Local Open Scope Z_scope.

Inductive iris_error_t :=
  | IRIS_OK | IRIS_ERR_INVALID_ARG | IRIS_ERR_NO_MEMORY | IRIS_ERR_NOT_FOUND
  | IRIS_ERR_BAD_HANDLE | IRIS_ERR_ACCESS_DENIED | IRIS_ERR_TABLE_FULL
  | IRIS_ERR_ALREADY_EXISTS | IRIS_ERR_BUSY | IRIS_ERR_WRONG_TYPE
  | IRIS_ERR_OVERFLOW | IRIS_ERR_NOT_SUPPORTED | IRIS_ERR_CLOSED
  | IRIS_ERR_WOULD_BLOCK | IRIS_ERR_INTERNAL | IRIS_ERR_TIMED_OUT
  | IRIS_ERR_MISSING_TABLE.

#[global] Instance iris_error_t_eq_dec : EqDecision iris_error_t.
Proof. solve_decision. Defined.

Inductive kobject_type_t :=
  | KOBJ_PROCESS | KOBJ_CHANNEL | KOBJ_NOTIFICATION | KOBJ_BOOTSTRAP_CAP
  | KOBJ_VMO | KOBJ_IRQ_CAP | KOBJ_IOPORT | KOBJ_INITRD_ENTRY | KOBJ_ENDPOINT
  | KOBJ_CNODE | KOBJ_SCHED_CONTEXT | KOBJ_UNTYPED | KOBJ_REPLY | KOBJ_TCB
  | KOBJ_VSPACE | KOBJ_FRAME | KOBJ_PAGE_TABLE | KOBJ_ASID_POOL
  | KOBJ_IOSPACE | KOBJ_IO_PAGE_TABLE.

#[global] Instance kobject_type_t_eq_dec : EqDecision kobject_type_t.
Proof. solve_decision. Defined.

(** ** Rights *)

Definition RIGHT_NONE        : Z := 0x00000000.
Definition RIGHT_READ        : Z := 0x00000001.
Definition RIGHT_WRITE       : Z := 0x00000002.
Definition RIGHT_DUPLICATE   : Z := 0x00000004.
Definition RIGHT_TRANSFER    : Z := 0x00000008.
Definition RIGHT_WAIT        : Z := 0x00000010.
Definition RIGHT_ROUTE       : Z := 0x00000020.
Definition RIGHT_MANAGE      : Z := 0x00000040.
Definition RIGHT_SAME_RIGHTS : Z := 0x80000000.

Definition rights_check (rights required : Z) : bool :=
  if required =? RIGHT_NONE then false
  else Z.land rights required =? required.

Definition rights_reduce (base requested : Z) : Z :=
  if negb (Z.land requested RIGHT_SAME_RIGHTS =? 0)
  then Z.ldiff base RIGHT_SAME_RIGHTS
  else Z.land base requested.

(** [rights_le a b]: every right in [a] is in [b]. *)
Definition rights_le (a b : Z) : Prop := ∀ i, 0 ≤ i → Z.testbit a i = true → Z.testbit b i = true.

#[global] Instance rights_le_preorder : PreOrder rights_le.
Proof. split; unfold rights_le; red; eauto. Qed.

Lemma same_rights_bit x : Z.land x RIGHT_SAME_RIGHTS = 0 ↔ Z.testbit x 31 = false.
Proof.
  change RIGHT_SAME_RIGHTS with (2 ^ 31). split; intros H.
  - apply (f_equal (λ z, Z.testbit z 31)) in H.
    by rewrite Z.land_spec, Z.pow2_bits_true, andb_true_r, Z.bits_0 in H by lia.
  - apply Z.bits_inj'. intros i Hi. rewrite Z.land_spec, Z.bits_0.
    destruct (decide (i = 31)) as [->|]; [by rewrite H|].
    rewrite Z.pow2_bits_false by lia. apply andb_false_r.
Qed.

(** What a duplication request can yield, bit by bit. *)
Lemma rights_reduce_spec base requested i : 0 ≤ i →
  Z.testbit (rights_reduce base requested) i =
  Z.testbit base i &&
    (if Z.testbit requested 31 then negb (i =? 31) else Z.testbit requested i).
Proof.
  intros Hi. unfold rights_reduce.
  destruct (Z.eqb_spec (Z.land requested RIGHT_SAME_RIGHTS) 0) as [H|H]; cbn [negb].
  - apply same_rights_bit in H. by rewrite H, Z.land_spec.
  - rewrite same_rights_bit in H. apply not_false_is_true in H. rewrite H.
    rewrite Z.ldiff_spec. change RIGHT_SAME_RIGHTS with (2 ^ 31).
    by rewrite Z.pow2_bits_eqb, Z.eqb_sym by lia.
Qed.

(** Rights are only ever reduced, and the operation flag
    [RIGHT_SAME_RIGHTS] is never stored: the two invariants rights.h states. *)
Lemma rights_reduce_le base requested : rights_le (rights_reduce base requested) base.
Proof.
  intros i Hi. rewrite rights_reduce_spec by done. intros [H _]%andb_true_iff. done.
Qed.

Lemma rights_reduce_no_flag base requested :
  Z.testbit (rights_reduce base requested) 31 = false.
Proof.
  rewrite rights_reduce_spec by lia. destruct (Z.testbit requested 31); simpl;
    apply andb_false_r.
Qed.

Lemma rights_check_true rights required :
  rights_check rights required = true ↔ required ≠ RIGHT_NONE ∧ rights_le required rights.
Proof.
  unfold rights_check. destruct (Z.eqb_spec required RIGHT_NONE); [naive_solver|].
  rewrite Z.eqb_eq. split.
  - intros H. split; [done|]. intros i Hi Hb.
    rewrite <-H, Z.land_spec in Hb. by apply andb_true_iff in Hb as [? _].
  - intros [_ H]. apply Z.bits_inj'. intros i Hi. rewrite Z.land_spec.
    destruct (Z.testbit required i) eqn:Hb; [by rewrite H|apply andb_false_r].
Qed.

(** A request that succeeds on the derived capability succeeds on its source. *)
Lemma rights_check_reduce base requested required :
  rights_check (rights_reduce base requested) required = true →
  rights_check base required = true.
Proof.
  rewrite !rights_check_true. intros [? H]. split; [done|].
  etransitivity; [exact H|apply rights_reduce_le].
Qed.

(** ** Badges

    [inl e] is an error return; [inr b] is [IRIS_OK] with [*out_badge = b]. *)

Definition mdb_badge_derive (src_badge requested : Z) (obj_type : kobject_type_t)
    : iris_error_t + Z :=
  if requested =? 0 then inr src_badge
  else if negb (src_badge =? 0) && negb (src_badge =? requested)
  then inl IRIS_ERR_ACCESS_DENIED
  else if (src_badge =? 0) && negb (bool_decide (obj_type = KOBJ_ENDPOINT))
          && negb (bool_decide (obj_type = KOBJ_NOTIFICATION))
  then inl IRIS_ERR_INVALID_ARG
  else inr requested.

Lemma mdb_badge_derive_ok src req ty b :
  mdb_badge_derive src req ty = inr b →
  (src ≠ 0 → b = src) ∧
  (src = 0 → b ≠ 0 → b = req ∧ (ty = KOBJ_ENDPOINT ∨ ty = KOBJ_NOTIFICATION)).
Proof.
  unfold mdb_badge_derive.
  destruct (Z.eqb_spec req 0), (Z.eqb_spec src 0), (Z.eqb_spec src req);
    repeat case_bool_decide; simpl; intros [= <-]; naive_solver.
Qed.

Lemma mdb_badge_derive_err src req ty e :
  mdb_badge_derive src req ty = inl e → e ≠ IRIS_OK.
Proof. unfold mdb_badge_derive. repeat case_match; intros [= <-]; done. Qed.
