(* ===== verification/Forest.v ===== *)
(** * Sibling-linked forests

    The derivation tree of kernel/new_core/src/kcnode.c is an intrusive
    structure: every node carries a parent, a first-child and two sibling
    pointers.  This file is the theory of that shape with the memory taken
    out of it: a forest is four partial functions on nodes (one per pointer
    field), [forest_ok] is the representation invariant, and each section
    shows that one kind of link surgery keeps it.  [Mdb.v] shows that the C
    code performs exactly these surgeries. *)

From stdpp Require Import base numbers gmap list.
From S2P Require Import Prelude.

Section forest.
Context {A : Type} `{EqDecision A}.
Implicit Types (x y s p c : A).

Record links := Links {
  par : A → option A;
  fc  : A → option A;
  nx  : A → option A;
  pv  : A → option A;
}.
Implicit Types L : links.

Record forest_ok L : Prop := ForestOk {
  fo_np     : ∀ x y, nx L x = Some y ↔ pv L y = Some x;
  fo_sib    : ∀ x y, nx L x = Some y → par L x = par L y;
  fo_fc     : ∀ p c, fc L p = Some c ↔ par L c = Some p ∧ pv L c = None;
  fo_wf_par : wf_link (par L);
  fo_wf_nx  : wf_link (nx L);
  fo_wf_pv  : wf_link (pv L);
}.

(** Two link structures with the same fields are the same forest. *)
Definition links_eq L L' : Prop :=
  (∀ x, par L x = par L' x) ∧ (∀ x, fc L x = fc L' x) ∧
  (∀ x, nx L x = nx L' x) ∧ (∀ x, pv L x = pv L' x).

#[global] Instance links_eq_equiv : Equivalence links_eq.
Proof. unfold links_eq. split; red; intros; destruct_and?; split_and!; intros; congruence. Qed.

#[global] Instance forest_ok_proper : Proper (links_eq ==> iff) forest_ok.
Proof.
  assert (∀ L L', links_eq L L' → forest_ok L → forest_ok L') as Hdir.
  { intros L L' (H1 & H2 & H3 & H4) [].
    constructor; intros;
      try (eapply wf_link_ext; eassumption); rewrite <-?H1, <-?H2, <-?H3, <-?H4;
      try rewrite <-H3 in *; eauto. }
  intros L L' H. split; apply Hdir; [done|by symmetry].
Qed.

(** A node outside the forest: no link of its own. *)
Definition isolated L x : Prop :=
  par L x = None ∧ fc L x = None ∧ nx L x = None ∧ pv L x = None.

Lemma isolated_not_target L x :
  forest_ok L → isolated L x → ∀ y, par L y ≠ Some x ∧ fc L y ≠ Some x ∧ nx L y ≠ Some x ∧ pv L y ≠ Some x.
Proof.
  intros HL (Hp & Hf & Hn & Hv) y. split_and!.
  - (* follow the sibling list back to its head, which is first child of [x] *)
    induction (fo_wf_pv _ HL y) as [y _ IH]. intros Hy.
    destruct (pv L y) as [z|] eqn:Hz.
    + apply (IH z eq_refl). apply (fo_np _ HL) in Hz. by rewrite (fo_sib _ HL _ _ Hz).
    + assert (fc L x = Some y) by (by apply (fo_fc _ HL)). congruence.
  - intros [Hx _]%(fo_fc _ HL). congruence.
  - intros Hx%(fo_np _ HL). congruence.
  - intros Hx%(fo_np _ HL). congruence.
Qed.

(** ** The child list of a node is exactly the nodes it is the parent of *)

Lemma kids_spec L s l x :
  forest_ok L → chain (nx L) (fc L s) l → x ∈ l ↔ par L x = Some s.
Proof.
  intros HL Hl. split.
  - assert (Forall (λ x, par L x = Some s) l) as Hall.
    { apply (chain_forall (nx L) _ (fc L s)); [done| |].
      + intros y Hy. by apply (fo_fc _ HL) in Hy as [? _].
      + simpl. intros y z Hy Hz. by rewrite <-(fo_sib _ HL _ _ Hz). }
    rewrite Forall_forall in Hall. auto.
  - induction (fo_wf_pv _ HL x) as [x _ IH]. intros Hx.
    destruct (pv L x) as [z|] eqn:Hz.
    + apply (fo_np _ HL) in Hz.
      assert (z ∈ l) as Hzl.
      { apply IH; [done|]. by rewrite (fo_sib _ HL _ _ Hz). }
      clear IH Hx. induction Hl as [|w l Hl IHl]; [set_solver|].
      apply elem_of_cons in Hzl as [->|Hzl]; [|set_solver].
      rewrite Hz in Hl. inversion Hl; subst. set_solver.
    + assert (fc L s = Some x) as Hf by (by apply (fo_fc _ HL)).
      rewrite Hf in Hl. inversion Hl; subst. set_solver.
Qed.

Lemma kids_nil L s : forest_ok L → fc L s = None → ∀ x, par L x ≠ Some s.
Proof.
  intros HL Hs x Hx. assert (chain (nx L) (fc L s) []) as Hc by (rewrite Hs; constructor).
  apply (kids_spec L s [] x HL Hc) in Hx. set_solver.
Qed.

(** The last node of a non-empty child list. *)
Lemma kids_last L s l c :
  forest_ok L → chain (nx L) (fc L s) l → last l = Some c →
  par L c = Some s ∧ nx L c = None.
Proof.
  intros HL Hl Hc. split; [|by eapply chain_last].
  eapply kids_spec; [done..|]. by apply last_Some_elem_of.
Qed.

(** ** Prepending a fresh node to a child list *)

Definition f_link_child L p c : links := Links
  (upd_fn (par L) c (Some p))
  (upd_fn (fc L) p (Some c))
  (upd_fn (nx L) c (fc L p))
  (upd_fn_opt (upd_fn (pv L) c None) (fc L p) (Some c)).

Lemma f_link_child_ok L p c :
  forest_ok L → isolated L c → c ≠ p → forest_ok (f_link_child L p c).
Proof.
  intros HL Hc Hcp. pose proof (isolated_not_target L c HL Hc) as Hno.
  destruct Hc as (Hcp' & Hcf & Hcn & Hcv).
  constructor; simpl.
  - intros x y. pose proof (fo_np _ HL x y). pose proof (Hno x). pose proof (Hno y).
    pose proof (Hno p). pose proof (fo_fc _ HL p y). clear Hno.
    destruct (fc L p) as [h|] eqn:Hh; link_solve.
  - intros x y. pose proof (fo_sib _ HL x y). pose proof (Hno x).
    pose proof (Hno p). pose proof (fo_fc _ HL p y). clear Hno. link_solve.
  - intros q d. pose proof (fo_fc _ HL q d). pose proof (Hno q). pose proof (Hno d).
    pose proof (Hno p). pose proof (fo_fc _ HL p d). clear Hno.
    destruct (fc L p) as [h|] eqn:Hh; link_solve.
  - assert (∀ x, x ≠ c → Acc (λ y x, upd_fn (par L) c (Some p) x = Some y) x) as Hother.
    { intros x. induction (fo_wf_par _ HL x) as [x _ IH]. intros Hne. constructor.
      intros y. pose proof (Hno x) as (? & _). unfold upd_fn at 1.
      case_decide; [congruence|]. intros Hy. apply IH; congruence. }
    intros x. destruct (decide (x = c)) as [->|]; [|by apply Hother].
    constructor. intros y. unfold upd_fn at 1. case_decide; [|congruence].
    intros [= <-]. apply Hother. congruence.
  - assert (∀ x, x ≠ c → Acc (λ y x, upd_fn (nx L) c (fc L p) x = Some y) x) as Hother.
    { intros x. induction (fo_wf_nx _ HL x) as [x _ IH]. intros Hne. constructor.
      intros y. pose proof (Hno x) as (_ & _ & ? & _). unfold upd_fn at 1.
      case_decide; [congruence|]. intros Hy. apply IH; congruence. }
    intros x. destruct (decide (x = c)) as [->|]; [|by apply Hother].
    constructor. intros y. unfold upd_fn at 1. case_decide; [|congruence].
    intros Hy. apply Hother. intros ->. by destruct (Hno p) as (_ & ? & _).
  - set (pv' := upd_fn_opt _ _ _).
    assert (pv' c = None) as Hc.
    { unfold pv'. pose proof (Hno p). destruct (fc L p) eqn:?; link_solve. }
    assert (∀ x y, pv' x = Some y → y = c ∨ pv L x = Some y) as Hstep.
    { intros x y. unfold pv'. destruct (fc L p); link_solve. }
    intros x. induction (fo_wf_pv _ HL x) as [x _ IH]. constructor.
    intros y [->|Hy]%Hstep; [|by apply IH]. constructor. intros z. congruence.
Qed.

Lemma f_link_child_outside L p c x :
  forest_ok L → isolated L x → x ≠ p → x ≠ c → isolated (f_link_child L p c) x.
Proof.
  intros HL Hx Hxp Hxc. pose proof (isolated_not_target L x HL Hx p) as (? & ? & ? & ?).
  destruct Hx as (? & ? & ? & ?). unfold isolated. simpl.
  destruct (fc L p) eqn:?; split_and!; link_solve.
Qed.

(** ** Removing a childless node *)

Definition f_detach_leaf L s : links := Links
  (upd_fn (par L) s None)
  (match pv L s with None => upd_fn_opt (fc L) (par L s) (nx L s) | Some _ => fc L end)
  (upd_fn (upd_fn_opt (nx L) (pv L s) (nx L s)) s None)
  (upd_fn (upd_fn_opt (pv L) (nx L s) (pv L s)) s None).

(** Bypassing one node of a list keeps every walk finite. *)
Lemma wf_link_bypass (f g : A → option A) s :
  wf_link f → (∀ x y, g x = Some y → f x = Some y ∨ (f x = Some s ∧ f s = Some y)) →
  wf_link g.
Proof.
  intros Hf Hg x.
  assert (∀ x, Acc (λ y x, reach f x y) x) as Hacc.
  { intros a. induction (Hf a) as [a _ IH]. constructor. intros y Hy.
    destruct Hy as [a' y Hay|a' b y Hab Hby]; [by apply IH|].
    destruct (IH b Hab) as [Hb]. by apply Hb. }
  induction (Hacc x) as [x _ IH]. constructor. intros y [Hy|[Hxs Hsy]]%Hg; apply IH.
  - by constructor.
  - eapply tc_l; [done|by constructor].
Qed.

Lemma f_detach_leaf_ok L s :
  forest_ok L → fc L s = None → forest_ok (f_detach_leaf L s).
Proof.
  intros HL Hs. pose proof (kids_nil L s HL Hs) as Hk.
  pose proof (wf_link_irrefl _ s (fo_wf_nx _ HL)).
  pose proof (wf_link_irrefl _ s (fo_wf_pv _ HL)).
  constructor; simpl.
  - intros x y. pose proof (fo_np _ HL x y). pose proof (fo_np _ HL x s).
    pose proof (fo_np _ HL s y). clear Hk.
    destruct (pv L s) as [a|] eqn:Ha, (nx L s) as [b|] eqn:Hb; link_solve.
  - intros x y. pose proof (fo_sib _ HL x y). pose proof (fo_sib _ HL x s).
    pose proof (fo_sib _ HL s y).
    pose proof (fo_np _ HL x s). pose proof (fo_np _ HL s y). clear Hk.
    destruct (pv L s) as [a|] eqn:Ha, (nx L s) as [b|] eqn:Hb; link_solve.
  - intros q d. pose proof (fo_fc _ HL q d). pose proof (fo_fc _ HL q s).
    pose proof (fo_np _ HL s d). pose proof (fo_sib _ HL s d). pose proof (Hk d).
    pose proof (Hk s). clear Hk.
    destruct (pv L s) as [a|] eqn:Ha, (nx L s) as [b|] eqn:Hb, (par L s) as [p|] eqn:Hp;
      link_solve.
  - apply (wf_link_bypass (par L) _ s); [apply HL|]. intros x y. link_solve.
  - apply (wf_link_bypass (nx L) _ s); [apply HL|]. intros x y.
    pose proof (fo_np _ HL x s). destruct (pv L s) eqn:Ha; link_solve.
  - apply (wf_link_bypass (pv L) _ s); [apply HL|]. intros x y.
    pose proof (fo_np _ HL s x). destruct (nx L s) eqn:Ha; link_solve.
Qed.

Lemma f_detach_leaf_isolated L s :
  forest_ok L → fc L s = None → isolated (f_detach_leaf L s) s.
Proof.
  intros HL Hs. pose proof (kids_nil L s HL Hs s).
  unfold isolated. simpl. split_and!; try (unfold upd_fn; by case_decide).
  destruct (pv L s), (par L s) eqn:Hp; simpl; try done. link_solve.
Qed.

#[global] Instance f_detach_leaf_proper : Proper (links_eq ==> (=) ==> links_eq) f_detach_leaf.
Proof.
  intros L L' (H1 & H2 & H3 & H4) s s' <-. unfold links_eq, f_detach_leaf. simpl.
  rewrite <-!H1, <-!H3, <-!H4.
  destruct (pv L s), (nx L s), (par L s); simpl; unfold upd_fn;
    split_and!; intros x; repeat case_decide; auto.
Qed.

(** Detaching a node outside the forest changes nothing. *)
Lemma f_detach_leaf_id L s : isolated L s → links_eq (f_detach_leaf L s) L.
Proof.
  intros (H1 & H2 & H3 & H4). unfold links_eq, f_detach_leaf. simpl.
  rewrite H1, H3, H4. simpl. unfold upd_fn.
  split_and!; intros x; repeat case_decide; subst; auto.
Qed.

(** ** Moving a whole child list up to the grandparent *)

(** Adding one edge out of the end of a list keeps walks finite when the new
    target cannot lead back: [P] is a set closed under the links that holds the
    target and not the source. *)
Lemma wf_link_add (f : A → option A) (P : A → Prop) e h :
  wf_link f → P h → (∀ x y, P x → f x = Some y → P y) → ¬ P e →
  wf_link (upd_fn f e (Some h)).
Proof.
  intros Hf Hh Hclosed He.
  assert (∀ x, P x → Acc (λ y x, upd_fn f e (Some h) x = Some y) x) as HP.
  { intros x. induction (Hf x) as [x _ IH]. intros Hx. constructor. intros y.
    unfold upd_fn at 1. case_decide; [congruence|]. eauto. }
  intros x. induction (Hf x) as [x _ IH]. constructor. intros y.
  unfold upd_fn at 1. case_decide; [|by apply IH]. intros [= <-]. by apply HP.
Qed.

Lemma wf_link_sub (f g : A → option A) :
  wf_link f → (∀ x y, g x = Some y → f x = Some y) → wf_link g.
Proof.
  intros Hf Hg x. induction (Hf x) as [x _ IH]. constructor. intros y Hy%Hg. by apply IH.
Qed.

Lemma wf_link_add_opt (f : A → option A) (P : A → Prop) e o :
  wf_link f → (∀ h, o = Some h → P h) → (∀ x y, P x → f x = Some y → P y) → ¬ P e →
  wf_link (upd_fn f e o).
Proof.
  intros Hf Ho Hc He. destruct o as [h|].
  - apply (wf_link_add f P); auto.
  - apply (wf_link_sub f); [done|]. intros x y. link_solve.
Qed.

(** [par] is constant along sibling links, in both directions. *)
Lemma fo_sib_pv L x y : forest_ok L → pv L x = Some y → par L y = par L x.
Proof. intros HL H. apply (fo_np _ HL) in H. by apply (fo_sib _ HL). Qed.

Definition f_splice L s p child lst : links := Links
  (λ x, if decide (par L x = Some s) then Some p else par L x)
  (upd_fn (upd_fn (fc L) p (Some child)) s None)
  (upd_fn (nx L) lst (fc L p))
  (upd_fn_opt (pv L) (fc L p) (Some lst)).

Lemma f_splice_ok L s p child lst :
  forest_ok L → par L s = Some p → fc L s = Some child →
  par L lst = Some s → nx L lst = None →
  forest_ok (f_splice L s p child lst).
Proof.
  intros HL Hps Hch Hlst Hend.
  assert (p ≠ s) as Hne by (intros ->; eapply wf_link_irrefl; [apply HL|done]).
  pose proof (proj1 (fo_fc _ HL s child) Hch) as [Hcs Hcv].
  constructor; simpl.
  - intros x y. pose proof (fo_np _ HL x y). pose proof (fo_np _ HL lst y).
    pose proof (fo_fc _ HL p y). destruct (fc L p) as [h|]; link_solve.
  - intros x y. pose proof (fo_sib _ HL x y). pose proof (fo_fc _ HL p y). link_solve.
  - intros q d. pose proof (fo_fc _ HL q d). pose proof (fo_fc _ HL s d).
    pose proof (fo_fc _ HL p d).
    destruct (fc L p) as [h|] eqn:Hh; link_solve.
  - apply (wf_link_bypass (par L) _ s); [apply HL|]. intros x y. link_solve.
  - apply (wf_link_add_opt _ (λ x, par L x = Some p)); [apply HL|..].
    + intros h Hh. by apply (fo_fc _ HL) in Hh as [? _].
    + intros x y Hx Hy. by rewrite <-(fo_sib _ HL _ _ Hy).
    + congruence.
  - destruct (fc L p) as [h|] eqn:Hh; simpl; [|apply HL].
    apply (fo_fc _ HL) in Hh as [Hh _].
    apply (wf_link_add _ (λ x, par L x = Some s)); [apply HL|done| |congruence].
    intros x y Hx Hy. by rewrite (fo_sib_pv _ _ _ HL Hy).
Qed.

(** ** Promoting the children of a root in its place among its siblings *)

Definition f_promote L s child lst : links := Links
  (λ x, if decide (par L x = Some s) then None else par L x)
  (upd_fn (fc L) s None)
  (upd_fn (upd_fn_opt (upd_fn (nx L) lst (nx L s)) (pv L s) (Some child)) s None)
  (upd_fn (upd_fn_opt (upd_fn (pv L) child (pv L s)) (nx L s) (Some lst)) s None).

(** The two sibling fields of [f_promote] are mirror images; this is the walk
    of one of them, [a] and [b] being the two ends of the moved list. *)
Lemma promote_wf L (f g : A → option A) s a b :
  forest_ok L → par L s = None → wf_link f → (∀ x y, f x = Some y ↔ g y = Some x) →
  (∀ x y, f x = Some y → par L x = par L y) →
  par L a = Some s → par L b = Some s → f b = None →
  wf_link (upd_fn (upd_fn_opt (upd_fn f b (f s)) (g s) (Some a)) s None).
Proof.
  intros HL Hs Hf Hfg Hpar Ha Hb Hend.
  set (f0 := upd_fn (upd_fn_opt f (g s) None) s None).
  assert (wf_link f0) as H0.
  { apply (wf_link_sub f); [done|]. intros x y. unfold f0. destruct (g s); link_solve. }
  assert (∀ x y, f0 x = Some y → f x = Some y) as Hsub.
  { intros x y. unfold f0. destruct (g s); link_solve. }
  set (f1 := upd_fn f0 b (f s)).
  assert (wf_link f1) as H1.
  { apply (wf_link_add_opt _ (λ x, par L x = None)); [done|..].
    - intros h Hh%Hpar. congruence.
    - intros x y Hx Hy%Hsub%Hpar. congruence.
    - congruence. }
  assert (∀ x, upd_fn_opt f1 (g s) (Some a) x =
    upd_fn (upd_fn_opt (upd_fn f b (f s)) (g s) (Some a)) s None x) as Hext.
  { intros x. unfold f1, f0. pose proof (wf_link_irrefl _ s Hf).
    destruct (g s) as [z|] eqn:Hz; [apply Hfg in Hz; pose proof (Hpar _ _ Hz)|]; link_solve. }
  eapply wf_link_ext; [exact Hext|].
  destruct (g s) as [z|] eqn:Hz; simpl; [|done].
  apply (wf_link_add _ (λ x, par L x = Some s ∨ reach f s x)); [done|by left|..].
  - intros x y Hx. unfold f1, upd_fn at 1. case_decide as Hxb.
    + intros Hy. right. by constructor.
    + intros Hy%Hsub. destruct Hx as [Hx|Hx].
      * left. by rewrite <-(Hpar _ _ Hy).
      * right. eapply tc_r; eauto.
  - apply Hfg in Hz. intros [Hzs|Hzs].
    + rewrite (Hpar _ _ Hz) in Hzs. congruence.
    + eapply (wf_link_no_cycle f s Hf). by eapply tc_r.
Qed.

Lemma f_promote_ok L s child lst :
  forest_ok L → par L s = None → fc L s = Some child →
  par L lst = Some s → nx L lst = None →
  forest_ok (f_promote L s child lst).
Proof.
  intros HL Hs Hch Hlst Hend.
  pose proof (proj1 (fo_fc _ HL s child) Hch) as [Hcs Hcv].
  pose proof (wf_link_irrefl _ s (fo_wf_nx _ HL)).
  pose proof (wf_link_irrefl _ s (fo_wf_pv _ HL)).
  constructor; simpl.
  - intros x y. pose proof (fo_np _ HL x y). pose proof (fo_np _ HL x s).
    pose proof (fo_np _ HL s y). pose proof (fo_np _ HL lst y).
    pose proof (fo_sib _ HL x s). pose proof (fo_sib _ HL s y). pose proof (fo_np _ HL x child).
    destruct (pv L s) as [a|] eqn:Ha, (nx L s) as [b|] eqn:Hb; link_solve.
  - intros x y. pose proof (fo_sib _ HL x y). pose proof (fo_sib _ HL s y).
    pose proof (fo_sib _ HL x s). pose proof (fo_np _ HL x s).
    destruct (pv L s) as [a|] eqn:Ha, (nx L s) as [b|] eqn:Hb; link_solve.
  - intros q d. pose proof (fo_fc _ HL q d). pose proof (fo_fc _ HL s d).
    pose proof (fo_np _ HL s d). pose proof (fo_sib _ HL s d).
    destruct (nx L s) as [b|] eqn:Hb; link_solve.
  - apply (wf_link_sub (par L)); [apply HL|]. intros x y. link_solve.
  - eapply promote_wf; eauto using fo_wf_nx, fo_np, fo_sib.
  - eapply promote_wf; eauto using fo_wf_pv.
    + intros x y. symmetry. apply (fo_np _ HL).
    + intros x y Hxy. symmetry. by apply fo_sib_pv.
Qed.

Lemma f_promote_isolated L s child lst :
  forest_ok L → par L s = None → fc L s = Some child →
  isolated (f_promote L s child lst) s.
Proof.
  intros HL Hs Hch. unfold isolated. simpl.
  split_and!; unfold upd_fn; by case_decide.
Qed.

(** ** Deleting a node, children adopted or promoted *)

Definition f_delete L s lst : links :=
  match fc L s with
  | None => f_detach_leaf L s
  | Some child =>
      match par L s with
      | Some p => f_detach_leaf (f_splice L s p child lst) s
      | None => f_promote L s child lst
      end
  end.

(** [lst] ends the child list of [s], if there is one. *)
Definition ends_kids L s lst : Prop :=
  fc L s ≠ None → par L lst = Some s ∧ nx L lst = None.

Lemma f_delete_ok L s lst :
  forest_ok L → ends_kids L s lst →
  forest_ok (f_delete L s lst) ∧ isolated (f_delete L s lst) s.
Proof.
  intros HL Hl. unfold f_delete.
  destruct (fc L s) as [child|] eqn:Hc;
    [|by split; [apply f_detach_leaf_ok|apply f_detach_leaf_isolated]].
  destruct Hl as [Hl1 Hl2]; [congruence|].
  destruct (par L s) as [p|] eqn:Hp.
  - assert (forest_ok (f_splice L s p child lst)) as HL' by (by apply f_splice_ok).
    assert (fc (f_splice L s p child lst) s = None) by link_solve.
    by split; [apply f_detach_leaf_ok|apply f_detach_leaf_isolated].
  - by split; [apply f_promote_ok|apply f_promote_isolated].
Qed.

(** What deletion does to the derivation relation: grandparent adoption. *)
Lemma f_delete_par L s lst x :
  forest_ok L →
  par (f_delete L s lst) x =
    if decide (x = s) then None
    else if decide (par L x = Some s) then par L s else par L x.
Proof.
  intros HL. unfold f_delete.
  destruct (fc L s) as [child|] eqn:Hc; simpl.
  - destruct (par L s) as [p|] eqn:Hp; simpl; unfold upd_fn; repeat case_decide; congruence.
  - pose proof (kids_nil L s HL Hc x). unfold upd_fn; repeat case_decide; congruence.
Qed.

(** Deletion does not link a node that was outside the forest. *)
Lemma f_detach_leaf_outside L s x :
  forest_ok L → isolated L x → isolated (f_detach_leaf L s) x.
Proof.
  intros HL Hx. pose proof (isolated_not_target L x HL Hx s) as (? & ? & ? & ?).
  destruct Hx as (? & ? & ? & ?). unfold isolated. simpl.
  destruct (pv L s) eqn:?, (nx L s) eqn:?, (par L s) eqn:?; split_and!; link_solve.
Qed.

Lemma f_splice_outside L s p child lst x :
  forest_ok L → par L s = Some p → par L lst = Some s → isolated L x →
  isolated (f_splice L s p child lst) x.
Proof.
  intros HL Hp Hl Hx. pose proof (isolated_not_target L x HL Hx s) as (? & ? & ? & ?).
  pose proof (isolated_not_target L x HL Hx p) as (? & ? & ? & ?).
  destruct Hx as (? & ? & ? & ?). unfold isolated. simpl.
  destruct (fc L p) eqn:?; split_and!; link_solve.
Qed.

Lemma f_promote_outside L s child lst x :
  forest_ok L → fc L s = Some child → par L lst = Some s → isolated L x →
  isolated (f_promote L s child lst) x.
Proof.
  intros HL Hc Hl Hx. pose proof (isolated_not_target L x HL Hx s) as (? & ? & ? & ?).
  destruct Hx as (? & ? & ? & ?). unfold isolated. simpl.
  destruct (pv L s) eqn:?, (nx L s) eqn:?; split_and!; link_solve.
Qed.

Lemma f_delete_outside L s lst x :
  forest_ok L → ends_kids L s lst → isolated L x → isolated (f_delete L s lst) x.
Proof.
  intros HL Hl Hx. unfold f_delete. destruct (fc L s) as [child|] eqn:Hc;
    [|by apply f_detach_leaf_outside].
  destruct Hl as [Hl1 Hl2]; [congruence|]. destruct (par L s) as [p|] eqn:Hp.
  - apply f_detach_leaf_outside; [by apply f_splice_ok|by apply f_splice_outside].
  - by apply f_promote_outside.
Qed.

(** ** Renaming nodes

    Moving a capability between slots renames a node everywhere it occurs;
    with the destination empty, that is exchanging the two names. *)

Definition swap a b x : A :=
  if decide (x = a) then b else if decide (x = b) then a else x.

Lemma swap_invol a b x : swap a b (swap a b x) = x.
Proof. unfold swap. repeat case_decide; congruence. Qed.

Lemma swap_other a b x : x ≠ a → x ≠ b → swap a b x = x.
Proof. intros. unfold swap. repeat case_decide; congruence. Qed.

Lemma swap_l a b : swap a b a = b.
Proof. unfold swap. by case_decide. Qed.

Lemma swap_r a b : swap a b b = a.
Proof. unfold swap. repeat case_decide; congruence. Qed.

Lemma swap_eq_iff a b x y : swap a b x = y ↔ x = swap a b y.
Proof. split; [intros <-|intros ->]; by rewrite swap_invol. Qed.

Lemma swap_fmap a b (o : option A) :
  o ≠ Some b → swap a b <$> o = if decide (o = Some a) then Some b else o.
Proof.
  intros Ho. destruct o as [x|]; simpl; [|done].
  unfold swap. repeat case_decide; congruence.
Qed.

Definition f_rename (t : A → A) L : links := Links
  (λ x, t <$> par L (t x)) (λ x, t <$> fc L (t x))
  (λ x, t <$> nx L (t x)) (λ x, t <$> pv L (t x)).

Lemma rename_Some (t : A → A) (f : A → option A) x y :
  (∀ x, t (t x) = x) → t <$> f (t x) = Some y ↔ f (t x) = Some (t y).
Proof.
  intros Ht. rewrite fmap_Some. split.
  - intros (z & Hz & ->). by rewrite Ht.
  - intros H. exists (t y). by rewrite Ht.
Qed.

Lemma rename_wf (t : A → A) f :
  (∀ x, t (t x) = x) → wf_link f → wf_link (λ x, t <$> f (t x)).
Proof.
  intros Ht Hf x. rewrite <-(Ht x). induction (Hf (t x)) as [z _ IH]. constructor.
  intros y Hy%rename_Some; [|done]. rewrite Ht in Hy. rewrite <-(Ht y). by apply IH.
Qed.

Lemma f_rename_ok t L :
  (∀ x, t (t x) = x) → forest_ok L → forest_ok (f_rename t L).
Proof.
  intros Ht HL. constructor; simpl; try (apply rename_wf; [done|apply HL]).
  - intros x y. rewrite !rename_Some by done. apply (fo_np _ HL).
  - intros x y Hy%rename_Some; [|done]. by rewrite (fo_sib _ HL _ _ Hy).
  - intros p c. rewrite !rename_Some by done. rewrite (fo_fc _ HL).
    by rewrite fmap_None.
Qed.
End forest.

Arguments links : clear implicits.
