(* ===== verification/Mdb.v ===== *)
(** * The derivation tree (MDB/CDT) of kernel/new_core/src/kcnode.c

    A capability is a slot of a CNode, and its derivation node lives inside
    the slot as four intrusive pointers.  This file models the slot memory
    field by field ([struct KCSlot] is one function per field, so a store
    through a pointer is an update of one of them), the link surgery done
    under [mdb_lock], and proves that

    - every surgery keeps the forest invariant of [Forest.v] and the two slot
      invariants the header of kcnode.h states (B.3-1: an empty slot has no
      metadata; an occupied slot names its own CNode);
    - the one assertion on these paths ([mdb_clear_node]: "slot cleared with
      live children") never fires: a model function returns [None] when an
      assertion fails, and the theorems show [Some]. *)

From Stdlib Require Import ZArith Lia.
From stdpp Require Import base numbers gmap list.
From S2P Require Import Prelude Rights Forest.
Local Open Scope Z_scope.

(** ** Slots and their memory *)

(** A [struct KCSlot *]: slot [idx] of the CNode object [cn], or the
    stack-resident temporary of [kcnode_swap] and [kcnode_slot_rotate]. *)
Inductive slotptr := InNode (cn idx : N) | OnStack.

#[global] Instance slotptr_eq_dec : EqDecision slotptr.
Proof. solve_decision. Defined.

#[global] Instance slotptr_countable : Countable slotptr.
Proof.
  apply (inj_countable' (λ s, match s with InNode c i => Some (c, i) | OnStack => None end)
                        (λ o, match o with Some (c, i) => InNode c i | None => OnStack end)).
  by intros [].
Defined.

(** The diagnostic counters of kcnode.c, all [_Atomic uint32_t]. *)
Inductive counter :=
  | cdt_derivation_count | cdt_derivation_hwm | cdt_derived_live | cdt_revoke_count
  | cdt_delete_count | cdt_cross_cnode_desc | cdt_ipc_transfer_count
  | mdb_nodes_live | mdb_nodes_hwm | mdb_unparented_roots | mdb_boot_roots
  | mdb_orphan_promotions | mdb_reparents | mdb_revoked_nodes | mdb_moves
  | mdb_max_depth.

#[global] Instance counter_eq_dec : EqDecision counter.
Proof. solve_decision. Defined.

Definition MDB_FLAG_UNPARENTED : Z := 1.

(** [struct KCSlot], one function per field; [mem] is the set of slots that
    exist (the arrays of the live CNodes, and the stack temporary). *)
Record mdb_state := MdbState {
  lk         : links slotptr;      (* mdb_parent, mdb_first_child, mdb_next_sib, mdb_prev_sib *)
  object     : slotptr → option N;
  rights     : slotptr → Z;
  badge      : slotptr → Z;
  mdb_cnode  : slotptr → option N;
  mdb_flags  : slotptr → Z;
  guard      : slotptr → Z;
  guard_bits : slotptr → Z;
  mem        : gset slotptr;
  ctr        : counter → Z;
}.
Implicit Types (σ : mdb_state) (s p q c from to : slotptr).

Abbreviation mdb_parent σ := (par (lk σ)).
Abbreviation mdb_first_child σ := (fc (lk σ)).
Abbreviation mdb_next_sib σ := (nx (lk σ)).
Abbreviation mdb_prev_sib σ := (pv (lk σ)).

Definition with_lk (f : links slotptr → links slotptr) σ : mdb_state :=
  MdbState (f (lk σ)) (object σ) (rights σ) (badge σ) (mdb_cnode σ) (mdb_flags σ)
    (guard σ) (guard_bits σ) (mem σ) (ctr σ).

(** The four pointer stores. *)
Definition set_parent p v : mdb_state → mdb_state :=
  with_lk (λ L, Links (upd_fn (par L) p v) (fc L) (nx L) (pv L)).
Definition set_first_child p v : mdb_state → mdb_state :=
  with_lk (λ L, Links (par L) (upd_fn (fc L) p v) (nx L) (pv L)).
Definition set_next_sib p v : mdb_state → mdb_state :=
  with_lk (λ L, Links (par L) (fc L) (upd_fn (nx L) p v) (pv L)).
Definition set_prev_sib p v : mdb_state → mdb_state :=
  with_lk (λ L, Links (par L) (fc L) (nx L) (upd_fn (pv L) p v)).

(** [s->object = o; s->rights = r; s->badge = b]. *)
Definition set_content p (o : option N) (r b : Z) σ : mdb_state :=
  MdbState (lk σ) (upd_fn (object σ) p o) (upd_fn (rights σ) p r) (upd_fn (badge σ) p b)
    (mdb_cnode σ) (mdb_flags σ) (guard σ) (guard_bits σ) (mem σ) (ctr σ).
Definition set_cnode p (cn : option N) σ : mdb_state :=
  MdbState (lk σ) (object σ) (rights σ) (badge σ) (upd_fn (mdb_cnode σ) p cn)
    (mdb_flags σ) (guard σ) (guard_bits σ) (mem σ) (ctr σ).
Definition set_flags p (f : Z) σ : mdb_state :=
  MdbState (lk σ) (object σ) (rights σ) (badge σ) (mdb_cnode σ)
    (upd_fn (mdb_flags σ) p f) (guard σ) (guard_bits σ) (mem σ) (ctr σ).
Definition set_guard p (g b : Z) σ : mdb_state :=
  MdbState (lk σ) (object σ) (rights σ) (badge σ) (mdb_cnode σ) (mdb_flags σ)
    (upd_fn (guard σ) p g) (upd_fn (guard_bits σ) p b) (mem σ) (ctr σ).
Definition set_ctr (k : counter) (v : Z) σ : mdb_state :=
  MdbState (lk σ) (object σ) (rights σ) (badge σ) (mdb_cnode σ) (mdb_flags σ)
    (guard σ) (guard_bits σ) (mem σ) (upd_fn (ctr σ) k v).

(** [atomic_fetch_add] / [atomic_fetch_sub] on a [uint32_t]. *)
Definition ctr_add (k : counter) (n : Z) σ : mdb_state := set_ctr k (u32 (ctr σ k + n)) σ.

(** [if (o) f(o)] on a pointer that may be NULL. *)
Definition on_ptr (o : option slotptr) (f : slotptr → mdb_state → mdb_state) σ : mdb_state :=
  match o with Some p => f p σ | None => σ end.

(** [MDB_FLAG_UNPARENTED] test. *)
Definition is_unparented σ s : bool := negb (Z.land (mdb_flags σ s) MDB_FLAG_UNPARENTED =? 0).

(** Every walk of the tree visits a slot at most once, so the number of slots
    bounds every loop below. *)
Definition mdb_fuel σ : nat := size (mem σ).

(** ** Link surgery (all under [mdb_lock]) *)

Definition mdb_note_max (hwm : counter) (v : Z) σ : mdb_state :=
  if ctr σ hwm <? v then set_ctr hwm v σ else σ.

Definition mdb_node_count_inc σ : mdb_state :=
  let σ := ctr_add mdb_nodes_live 1 σ in
  mdb_note_max mdb_nodes_hwm (ctr σ mdb_nodes_live) σ.

Fixpoint mdb_depth_loop (fuel : nat) σ (o : option slotptr) (d : Z) : Z :=
  match fuel, o with
  | S fuel, Some p => mdb_depth_loop fuel σ (mdb_parent σ p) (u32 (d + 1))
  | _, _ => d
  end.
Definition mdb_depth_of σ s : Z := mdb_depth_loop (mdb_fuel σ) σ (mdb_parent σ s) 0.

Definition mdb_link_child (parent child : slotptr) σ : mdb_state :=
  let σ := set_parent child (Some parent) σ in
  let σ := set_prev_sib child None σ in
  let σ := set_next_sib child (mdb_first_child σ parent) σ in
  let σ := on_ptr (mdb_first_child σ parent) (λ h, set_prev_sib h (Some child)) σ in
  set_first_child parent (Some child) σ.

Definition mdb_unlink_from_parent s σ : mdb_state :=
  let σ := match mdb_prev_sib σ s with
           | Some q => set_next_sib q (mdb_next_sib σ s) σ
           | None => on_ptr (mdb_parent σ s) (λ q, set_first_child q (mdb_next_sib σ s)) σ
           end in
  let σ := on_ptr (mdb_next_sib σ s) (λ q, set_prev_sib q (mdb_prev_sib σ s)) σ in
  let σ := set_prev_sib s None σ in
  set_next_sib s None σ.

(** [None]: the assertion "slot cleared with live children" failed. *)
Definition mdb_clear_node s σ : option mdb_state :=
  match mdb_first_child σ s with
  | Some _ => None
  | None =>
    let σ := set_parent s None σ in
    let σ := set_first_child s None σ in
    let σ := set_next_sib s None σ in
    let σ := set_prev_sib s None σ in
    let σ := set_cnode s None σ in
    let σ := set_flags s 0 σ in
    Some (set_guard s 0 0 σ)
  end.

(** [for (c = child; c; c = c->mdb_next_sib) { c->mdb_parent = parent; last = c; n++; }] *)
Fixpoint reparent_loop (fuel : nat) (np : option slotptr) (o last : option slotptr) (n : Z) σ
    : mdb_state * option slotptr * Z :=
  match fuel, o with
  | S fuel, Some c =>
      let σ := set_parent c np σ in
      reparent_loop fuel np (mdb_next_sib σ c) (Some c) (u32 (n + 1)) σ
  | _, _ => (σ, last, n)
  end.

(** The promotion loop counts each child as it goes. *)
Fixpoint promote_loop (fuel : nat) (o last : option slotptr) σ
    : mdb_state * option slotptr :=
  match fuel, o with
  | S fuel, Some c =>
      let σ := set_parent c None σ in
      let σ := ctr_add mdb_orphan_promotions 1 σ in
      let σ := ctr_add cdt_derived_live (-1) σ in
      promote_loop fuel (mdb_next_sib σ c) (Some c) σ
  | _, _ => (σ, last)
  end.

(** The child-list half of [mdb_detach_reparent]: adoption by the grandparent,
    or promotion in place among the root's own siblings. *)
Definition detach_children s σ : mdb_state :=
  match mdb_first_child σ s with
  | None => σ
  | Some child =>
    let σ :=
      match mdb_parent σ s with
      | Some parent =>
          let '(σ, last, n) := reparent_loop (mdb_fuel σ) (Some parent) (Some child) None 0 σ in
          let σ := on_ptr last (λ l, set_next_sib l (mdb_first_child σ parent)) σ in
          let σ := on_ptr (mdb_first_child σ parent) (λ h, set_prev_sib h last) σ in
          let σ := set_first_child parent (Some child) σ in
          ctr_add mdb_reparents n σ
      | None =>
          let '(σ, last) := promote_loop (mdb_fuel σ) (Some child) None σ in
          let psib := mdb_prev_sib σ s in
          let nsib := mdb_next_sib σ s in
          let σ := set_prev_sib child psib σ in
          let σ := on_ptr psib (λ q, set_next_sib q (Some child)) σ in
          let σ := on_ptr last (λ l, set_next_sib l nsib) σ in
          let σ := on_ptr nsib (λ q, set_prev_sib q last) σ in
          let σ := set_prev_sib s None σ in
          set_next_sib s None σ
      end in
    set_first_child s None σ
  end.

Definition mdb_detach_reparent s σ : option mdb_state :=
  let σ := detach_children s σ in
  let σ := match mdb_parent σ s with Some _ => ctr_add cdt_derived_live (-1) σ | None => σ end in
  let σ := mdb_unlink_from_parent s σ in
  let σ := if is_unparented σ s then ctr_add mdb_unparented_roots (-1) σ else σ in
  let σ := ctr_add mdb_nodes_live (-1) σ in
  mdb_clear_node s σ.

(** [for (c = to->mdb_first_child; c; c = c->mdb_next_sib) c->mdb_parent = to;] *)
Fixpoint repoint_loop (fuel : nat) (np o : option slotptr) σ : mdb_state :=
  match fuel, o with
  | S fuel, Some c =>
      let σ := set_parent c np σ in repoint_loop fuel np (mdb_next_sib σ c) σ
  | _, _ => σ
  end.

Definition mdb_relocate from to (to_cn : N) σ : option mdb_state :=
  let σ := set_content to (object σ from) (rights σ from) (badge σ from) σ in
  let σ := set_content from None RIGHT_NONE 0 σ in
  let σ := set_parent to (mdb_parent σ from) σ in
  let σ := set_first_child to (mdb_first_child σ from) σ in
  let σ := set_next_sib to (mdb_next_sib σ from) σ in
  let σ := set_prev_sib to (mdb_prev_sib σ from) σ in
  let σ := set_flags to (mdb_flags σ from) σ in
  let σ := set_cnode to (Some to_cn) σ in
  let σ := match mdb_prev_sib σ to with
           | Some q => set_next_sib q (Some to) σ
           | None => on_ptr (mdb_parent σ to) (λ q, set_first_child q (Some to)) σ
           end in
  let σ := on_ptr (mdb_next_sib σ to) (λ q, set_prev_sib q (Some to)) σ in
  let σ := repoint_loop (mdb_fuel σ) (Some to) (mdb_first_child σ to) σ in
  let σ := set_first_child from None σ in
  mdb_clear_node from σ.

(** ** The loops *)

Lemma reparent_loop_spec fuel np o l last n σ :
  chain (mdb_next_sib σ) o l → (length l ≤ fuel)%nat →
  ∃ n', reparent_loop fuel np o last n σ =
    (with_lk (λ L, Links (upd_list (par L) l np) (fc L) (nx L) (pv L)) σ,
     match list.last l with Some x => Some x | None => last end, n').
Proof.
  intros Hl. revert fuel o last n σ Hl.
  induction l as [|x l IH]; intros fuel o last n σ Hl Hf; inversion Hl; subst.
  - exists n. destruct fuel, σ as [[]]; reflexivity.
  - destruct fuel as [|fuel]; simpl in Hf; [lia|]. simpl.
    destruct (IH fuel (mdb_next_sib σ x) (Some x) (u32 (n + 1)) (set_parent x np σ)) as [n' Hn'];
      [done|lia|]. exists n'. rewrite Hn'.
    rewrite last_cons. by destruct (list.last l).
Qed.

(** A state with the same content, metadata and slots, links and counters apart. *)
Definition lk_frame σ σ' : Prop :=
  object σ' = object σ ∧ rights σ' = rights σ ∧ badge σ' = badge σ ∧
  mdb_cnode σ' = mdb_cnode σ ∧ mdb_flags σ' = mdb_flags σ ∧
  guard σ' = guard σ ∧ guard_bits σ' = guard_bits σ ∧ mem σ' = mem σ.

#[global] Instance lk_frame_preorder : PreOrder lk_frame.
Proof. split; unfold lk_frame; red; intros; destruct_and?; split_and!; congruence. Qed.

Lemma promote_loop_spec fuel o l last σ :
  chain (mdb_next_sib σ) o l → (length l ≤ fuel)%nat →
  ∃ σ', promote_loop fuel o last σ =
    (σ', match list.last l with Some x => Some x | None => last end) ∧
    lk σ' = Links (upd_list (mdb_parent σ) l None) (fc (lk σ)) (nx (lk σ)) (pv (lk σ)) ∧
    lk_frame σ σ'.
Proof.
  intros Hl. revert fuel o last σ Hl.
  induction l as [|x l IH]; intros fuel o last σ Hl Hf; inversion Hl; subst.
  - exists σ. destruct fuel; simpl; (split_and!; [done|by destruct (lk σ)|reflexivity]).
  - destruct fuel as [|fuel]; simpl in Hf; [lia|]. simpl.
    destruct (IH fuel (mdb_next_sib σ x) (Some x)
      (ctr_add cdt_derived_live (-1) (ctr_add mdb_orphan_promotions 1 (set_parent x None σ))))
      as (σ' & Hσ' & Hlk & Hfr); [done|lia|].
    exists σ'. rewrite Hσ'. split_and!; [|done|done].
    rewrite last_cons. by destruct (list.last l).
Qed.

Lemma repoint_loop_spec fuel np o l σ :
  chain (mdb_next_sib σ) o l → (length l ≤ fuel)%nat →
  repoint_loop fuel np o σ =
    with_lk (λ L, Links (upd_list (par L) l np) (fc L) (nx L) (pv L)) σ.
Proof.
  intros Hl. revert fuel o σ Hl.
  induction l as [|x l IH]; intros fuel o σ Hl Hf; inversion Hl; subst.
  - destruct fuel, σ as [[]]; reflexivity.
  - destruct fuel as [|fuel]; simpl in Hf; [lia|]. simpl. rewrite IH; [done|done|lia].
Qed.

(** ** The representation invariant *)

(** The links form a forest over the slots that exist. *)
Record tree_ok σ : Prop := TreeOk {
  to_forest : forest_ok (lk σ);
  to_dom    : ∀ x, x ∉ mem σ → isolated (lk σ) x;
}.

(** B.3 of docs/architecture/cspace-cdt-mdb.md. *)
Record mdb_inv σ : Prop := MdbInv {
  mi_tree  : tree_ok σ;
  mi_empty : ∀ s, object σ s = None →
    isolated (lk σ) s ∧ rights σ s = RIGHT_NONE ∧ badge σ s = 0 ∧
    mdb_cnode σ s = None ∧ mdb_flags σ s = 0 ∧ guard σ s = 0 ∧ guard_bits σ s = 0;
  mi_owner : ∀ cn i, object σ (InNode cn i) ≠ None → mdb_cnode σ (InNode cn i) = Some cn;
  mi_dom   : ∀ s, s ∉ mem σ → object σ s = None;
}.

Lemma tree_kids_bound σ s l :
  tree_ok σ → chain (mdb_next_sib σ) (mdb_first_child σ s) l → (length l ≤ mdb_fuel σ)%nat.
Proof.
  intros [HL Hdom] Hl. unfold mdb_fuel.
  rewrite <-(size_list_to_set (C:=gset slotptr) l) by (eapply chain_NoDup; [apply (fo_wf_nx _ HL)|done]).
  apply subseteq_size. intros x. rewrite elem_of_list_to_set. intros Hx.
  apply (kids_spec _ _ _ _ HL Hl) in Hx. destruct (decide (x ∈ mem σ)) as [|Hn]; [done|].
  destruct (Hdom x Hn) as [? _]. congruence.
Qed.

(** Evaluate a sequence of stores at one slot: decide every pointer comparison
    and every NULL test, then close by congruence. *)
Ltac store_cases :=
  unfold on_ptr, upd_fn_opt, upd_fn in *; simpl in *;
  repeat (first [case_decide | case_match]; simpl in *; unfold upd_fn in *); simplify_eq.
Ltac store_solve := store_cases; solve [congruence | intuition congruence].

(** [σ'] is [σ] with the derivation metadata of [s] cleared: every field but the
    links and the counters. *)
Definition meta_cleared s σ σ' : Prop :=
  object σ' = object σ ∧ rights σ' = rights σ ∧ badge σ' = badge σ ∧
  mdb_cnode σ' = upd_fn (mdb_cnode σ) s None ∧ mdb_flags σ' = upd_fn (mdb_flags σ) s 0 ∧
  guard σ' = upd_fn (guard σ) s 0 ∧ guard_bits σ' = upd_fn (guard_bits σ) s 0 ∧
  mem σ' = mem σ.

Lemma unlink_frame s σ : lk_frame σ (mdb_unlink_from_parent s σ).
Proof.
  unfold lk_frame, mdb_unlink_from_parent, on_ptr.
  split_and!; repeat case_match; reflexivity.
Qed.

Lemma clear_node_meta s σ σ' : mdb_clear_node s σ = Some σ' → meta_cleared s σ σ'.
Proof. unfold mdb_clear_node. case_match; [done|]. intros [= <-]. done. Qed.

Lemma meta_cleared_frame s σ0 σ σ' :
  lk_frame σ0 σ → meta_cleared s σ σ' → meta_cleared s σ0 σ'.
Proof. unfold lk_frame, meta_cleared. intros. destruct_and?. split_and!; congruence. Qed.

(** Unlinking and clearing a childless node is [f_detach_leaf]. *)
Lemma unlink_clear_leaf s σ :
  forest_ok (lk σ) → mdb_first_child σ s = None →
  ∃ σ', mdb_clear_node s (mdb_unlink_from_parent s σ) = Some σ' ∧
    links_eq (lk σ') (f_detach_leaf (lk σ) s).
Proof.
  intros HL Hs. pose proof (kids_nil _ s HL Hs s) as Hss.
  pose proof (wf_link_irrefl _ s (fo_wf_nx _ HL)).
  pose proof (wf_link_irrefl _ s (fo_wf_pv _ HL)).
  assert (mdb_first_child (mdb_unlink_from_parent s σ) s = None) as Hfc
    by (unfold mdb_unlink_from_parent; store_solve).
  eexists. split; [unfold mdb_clear_node; rewrite Hfc; reflexivity|].
  clear Hfc. unfold mdb_unlink_from_parent, f_detach_leaf, links_eq.
  split_and!; intros x; store_solve.
Qed.

Lemma detach_children_frame s σ :
  tree_ok σ → lk_frame σ (detach_children s σ).
Proof.
  intros Hσ. unfold detach_children.
  destruct (mdb_first_child σ s) as [child|] eqn:Hc; [|reflexivity].
  destruct (chain_exists _ (mdb_first_child σ s) (fo_wf_nx _ (to_forest _ Hσ))) as [l Hl].
  pose proof (tree_kids_bound _ _ _ Hσ Hl) as Hb. rewrite Hc in Hl.
  destruct (mdb_parent σ s) as [p|].
  - destruct (reparent_loop_spec (mdb_fuel σ) (Some p) (Some child) l None 0 σ Hl Hb) as [n ->].
    unfold lk_frame, on_ptr. split_and!; repeat case_match; reflexivity.
  - destruct (promote_loop_spec (mdb_fuel σ) (Some child) l None σ Hl Hb) as (σ' & -> & _ & Hfr).
    etransitivity; [exact Hfr|].
    unfold lk_frame, on_ptr. split_and!; repeat case_match; reflexivity.
Qed.

(** The child list goes to the grandparent, or is promoted in place. *)
Lemma detach_children_links s σ child :
  tree_ok σ → mdb_first_child σ s = Some child →
  ∃ lst, mdb_parent σ lst = Some s ∧ mdb_next_sib σ lst = None ∧
    links_eq (lk (detach_children s σ))
      match mdb_parent σ s with
      | Some p => f_splice (lk σ) s p child lst
      | None => f_promote (lk σ) s child lst
      end.
Proof.
  intros Hσ Hc. pose proof (to_forest _ Hσ) as HL. unfold detach_children. rewrite Hc.
  destruct (chain_exists _ (mdb_first_child σ s) (fo_wf_nx _ HL)) as [l Hl].
  pose proof (tree_kids_bound _ _ _ Hσ Hl) as Hb.
  assert (∀ x, x ∈ l ↔ mdb_parent σ x = Some s) as Hk by (intros; by apply kids_spec).
  destruct (list.last l) as [lst|] eqn:Hlast; last first.
  { apply last_None in Hlast as ->. rewrite Hc in Hl. inversion Hl. }
  destruct (kids_last _ _ _ _ HL Hl Hlast) as [Hl1 Hl2].
  exists lst. split_and!; [done..|]. rewrite Hc in Hl.
  destruct (mdb_parent σ s) as [p|] eqn:Hp.
  - destruct (reparent_loop_spec (mdb_fuel σ) (Some p) (Some child) l None 0 σ Hl Hb) as [n ->].
    rewrite Hlast. assert (p ≠ s) by (intros ->; by eapply (wf_link_irrefl _ s (fo_wf_par _ HL))).
    unfold links_eq, f_splice. split_and!; intros x; simpl; [|store_solve..].
    destruct (mdb_first_child σ p); simpl; rewrite upd_list_spec; specialize (Hk x);
      repeat case_decide; tauto.
  - destruct (promote_loop_spec (mdb_fuel σ) (Some child) l None σ Hl Hb)
      as (σ' & -> & Hlk & Hfr).
    rewrite Hlast. pose proof (proj1 (fo_fc _ HL s child) Hc) as [Hcs Hcv].
    pose proof (wf_link_irrefl _ s (fo_wf_nx _ HL)).
    pose proof (wf_link_irrefl _ s (fo_wf_pv _ HL)).
    pose proof (fo_np _ HL lst s). pose proof (fo_np _ HL s child).
    destruct σ' as [lk' o' r' b' c' f' g' gb' m' k']; simpl in Hlk; subst lk'.
    clear Hfr. unfold links_eq, f_promote. split_and!; intros x; simpl; [| |store_solve..].
    + destruct (mdb_prev_sib σ s), (mdb_next_sib σ s); simpl;
        rewrite upd_list_spec; specialize (Hk x); repeat case_decide; tauto.
    + destruct (mdb_prev_sib σ s), (mdb_next_sib σ s); simpl; store_solve.
Qed.

Lemma clear_node_ctr s k n σ :
  mdb_clear_node s (ctr_add k n σ) = ctr_add k n <$> mdb_clear_node s σ.
Proof. unfold mdb_clear_node. simpl. by case_match. Qed.

(** The second half of [mdb_detach_reparent], once the children are gone. *)
Lemma detach_finish s σ :
  forest_ok (lk σ) → mdb_first_child σ s = None →
  ∃ σ', (let σ := match mdb_parent σ s with
                  | Some _ => ctr_add cdt_derived_live (-1) σ | None => σ end in
         let σ := mdb_unlink_from_parent s σ in
         let σ := if is_unparented σ s then ctr_add mdb_unparented_roots (-1) σ else σ in
         let σ := ctr_add mdb_nodes_live (-1) σ in
         mdb_clear_node s σ) = Some σ' ∧
    links_eq (lk σ') (f_detach_leaf (lk σ) s) ∧ meta_cleared s σ σ'.
Proof.
  intros HL Hs. cbv zeta.
  set (σ1 := match mdb_parent σ s with Some _ => _ | None => _ end).
  assert (lk σ1 = lk σ ∧ lk_frame σ σ1) as [Hlk Hfr].
  { unfold σ1, lk_frame. split_and!; by case_match. }
  assert (∃ σ2, mdb_clear_node s (mdb_unlink_from_parent s σ1) = Some σ2 ∧
    links_eq (lk σ2) (f_detach_leaf (lk σ1) s)) as (σ2 & Hσ2 & Heq)
    by (apply unlink_clear_leaf; rewrite Hlk; done).
  pose proof (meta_cleared_frame s _ _ _ (unlink_frame s σ1) (clear_node_meta _ _ _ Hσ2)) as Hm.
  apply (meta_cleared_frame s _ _ _ Hfr) in Hm. rewrite Hlk in Heq.
  destruct (is_unparented _ _); rewrite !clear_node_ctr, Hσ2; simpl; eexists; done.
Qed.

Lemma mdb_detach_reparent_spec s σ :
  tree_ok σ → ∃ σ' lst, mdb_detach_reparent s σ = Some σ' ∧
    ends_kids (lk σ) s lst ∧ links_eq (lk σ') (f_delete (lk σ) s lst) ∧ meta_cleared s σ σ'.
Proof.
  intros Hσ. pose proof (to_forest _ Hσ) as HL.
  pose proof (detach_children_frame s σ Hσ) as Hfr. unfold mdb_detach_reparent.
  assert (∃ lst, ends_kids (lk σ) s lst ∧ forest_ok (lk (detach_children s σ)) ∧
    mdb_first_child (detach_children s σ) s = None ∧
    links_eq (f_detach_leaf (lk (detach_children s σ)) s) (f_delete (lk σ) s lst))
    as (lst & Hend & HL' & Hs & Heq).
  { unfold f_delete, ends_kids. destruct (mdb_first_child σ s) as [child|] eqn:Hc.
    - destruct (detach_children_links s σ child Hσ Hc) as (lst & Hl1 & Hl2 & Heq).
      exists lst. split; [done|]. destruct (mdb_parent σ s) as [p|] eqn:Hp.
      + split_and!.
        * rewrite Heq. by apply f_splice_ok.
        * destruct Heq as (_ & Hfc & _). rewrite Hfc. link_solve.
        * by rewrite Heq.
      + split_and!.
        * rewrite Heq. by apply f_promote_ok.
        * destruct Heq as (_ & Hfc & _). rewrite Hfc. link_solve.
        * rewrite Heq. by apply f_detach_leaf_id, f_promote_isolated.
    - exists s. unfold detach_children. rewrite Hc. split_and!; done. }
  destruct (detach_finish s _ HL' Hs) as (σ' & Hσ' & Heq' & Hm).
  exists σ', lst. split_and!; [done..|by etransitivity|by eapply meta_cleared_frame].
Qed.

(** ** Relocation *)

(** The state just before the loop over the children of [to]. *)
Definition relocate_pre from to (to_cn : N) σ : mdb_state :=
  let σ := set_content to (object σ from) (rights σ from) (badge σ from) σ in
  let σ := set_content from None RIGHT_NONE 0 σ in
  let σ := set_parent to (mdb_parent σ from) σ in
  let σ := set_first_child to (mdb_first_child σ from) σ in
  let σ := set_next_sib to (mdb_next_sib σ from) σ in
  let σ := set_prev_sib to (mdb_prev_sib σ from) σ in
  let σ := set_flags to (mdb_flags σ from) σ in
  let σ := set_cnode to (Some to_cn) σ in
  let σ := match mdb_prev_sib σ to with
           | Some q => set_next_sib q (Some to) σ
           | None => on_ptr (mdb_parent σ to) (λ q, set_first_child q (Some to)) σ
           end in
  on_ptr (mdb_next_sib σ to) (λ q, set_prev_sib q (Some to)) σ.

Lemma mdb_relocate_unfold from to to_cn σ :
  mdb_relocate from to to_cn σ =
    let σ := relocate_pre from to to_cn σ in
    let σ := repoint_loop (mdb_fuel σ) (Some to) (mdb_first_child σ to) σ in
    mdb_clear_node from (set_first_child from None σ).
Proof. reflexivity. Qed.

(** Everything but the links after a relocation.  The guard is the exception:
    [to] keeps the guard it had and the one of [from] is dropped. *)
Definition relocated from to (to_cn : N) σ σ' : Prop :=
  object σ' = upd_fn (upd_fn (object σ) to (object σ from)) from None ∧
  rights σ' = upd_fn (upd_fn (rights σ) to (rights σ from)) from RIGHT_NONE ∧
  badge σ' = upd_fn (upd_fn (badge σ) to (badge σ from)) from 0 ∧
  mdb_cnode σ' = upd_fn (upd_fn (mdb_cnode σ) to (Some to_cn)) from None ∧
  mdb_flags σ' = upd_fn (upd_fn (mdb_flags σ) to (mdb_flags σ from)) from 0 ∧
  guard σ' = upd_fn (guard σ) from 0 ∧ guard_bits σ' = upd_fn (guard_bits σ) from 0 ∧
  mem σ' = mem σ.

Lemma mdb_relocate_spec from to to_cn σ :
  tree_ok σ → from ≠ to → isolated (lk σ) to →
  ∃ σ', mdb_relocate from to to_cn σ = Some σ' ∧
    links_eq (lk σ') (f_rename (swap from to) (lk σ)) ∧ relocated from to to_cn σ σ'.
Proof.
  intros Hσ Hne Hto. pose proof (to_forest _ Hσ) as HL.
  rewrite mdb_relocate_unfold. cbv zeta.
  destruct (chain_exists _ (mdb_first_child σ from) (fo_wf_nx _ HL)) as [l Hl].
  pose proof (tree_kids_bound _ _ _ Hσ Hl) as Hb.
  assert (∀ x, x ∈ l ↔ mdb_parent σ x = Some from) as Hk by (intros; by apply kids_spec).
  pose proof (isolated_not_target _ to HL Hto) as Hno.
  destruct Hto as (Hto1 & Hto2 & Hto3 & Hto4).
  pose proof (wf_link_irrefl _ from (fo_wf_par _ HL)) as Hi1.
  pose proof (wf_link_irrefl _ from (fo_wf_nx _ HL)) as Hi2.
  pose proof (wf_link_irrefl _ from (fo_wf_pv _ HL)) as Hi3.
  assert (mdb_first_child σ from ≠ Some from) as Hi4 by (by intros [? _]%(fo_fc _ HL)).
  assert (mdb_fuel (relocate_pre from to to_cn σ) = mdb_fuel σ) as Hfuel.
  { unfold mdb_fuel. f_equal. unfold relocate_pre. simpl. unfold on_ptr. repeat case_match; done. }
  assert (mdb_first_child (relocate_pre from to to_cn σ) to = mdb_first_child σ from) as Hfc.
  { pose proof (Hno from). unfold relocate_pre. store_solve. }
  assert (chain (mdb_next_sib (relocate_pre from to to_cn σ)) (mdb_first_child σ from) l) as Hl'.
  { eapply chain_ext; [|exact Hl]. intros x Hx%Hk. pose proof (fo_sib_pv _ from x HL).
    unfold relocate_pre. store_solve. }
  rewrite Hfc, Hfuel, (repoint_loop_spec _ _ _ l _ Hl' Hb).
  unfold mdb_clear_node. simpl. unfold upd_fn at 1. rewrite decide_True by done.
  eexists. split_and!; [done| |].
  - assert (∀ (f : slotptr → option slotptr) x,
      (∀ y, f y ≠ Some to) → f to = None → f from ≠ Some from →
      swap from to <$> f (swap from to x) =
        if decide (x = from) then None else if decide (x = to) then f from
        else if decide (f x = Some from) then Some to else f x) as Hren.
    { intros f x Hf Hfto Hff. rewrite swap_fmap by done. unfold swap.
      repeat case_decide; congruence. }
    clear Hfuel Hfc Hl' Hb Hl.
    unfold f_rename, links_eq. simpl.
    split_and!; intros x; rewrite Hren by (first [done|intros y; pose proof (Hno y); tauto]).
    + unfold upd_fn at 1. case_decide; [done|]. rewrite upd_list_spec, (decide_ext _ _ _ _ (Hk x)).
      unfold relocate_pre. store_solve.
    + pose proof (fo_fc _ HL x from). pose proof (Hno from). unfold relocate_pre. store_solve.
    + pose proof (fo_np _ HL x from). pose proof (Hno from). unfold relocate_pre. store_solve.
    + pose proof (fo_np _ HL from x). pose proof (Hno from). unfold relocate_pre. store_solve.
  - unfold relocated, relocate_pre. simpl. unfold on_ptr. split_and!; repeat case_match; done.
Qed.
