(* ===== verification/Cdt.v ===== *)
(** * The abstract derivation tree and its refinement by the MDB

    The contract the capability layer promises, with no pointers in it: a set
    of capabilities (which slot holds what) and a derivation relation (which
    slot a capability was derived from).  [abs] forgets the sibling links, the
    metadata and the counters of [Mdb.v]; the lemmas say what each link surgery
    is on this view, and that the surgery keeps the representation invariant. *)

From Stdlib Require Import ZArith Lia.
From stdpp Require Import base numbers gmap list.
From S2P Require Import Prelude Rights Forest Mdb.
Local Open Scope Z_scope.
Implicit Types (σ : mdb_state) (s x y p : slotptr).

(** Object, rights, badge. *)
Definition cap : Type := N * Z * Z.

Record cdt := Cdt {
  caps : slotptr → option cap;
  up   : slotptr → option slotptr;
}.
Implicit Types t : cdt.

Definition cdt_eq t t' : Prop :=
  (∀ s, caps t s = caps t' s) ∧ (∀ s, up t s = up t' s).

#[global] Instance cdt_eq_equiv : Equivalence cdt_eq.
Proof. unfold cdt_eq. split; red; intros; destruct_and?; split; intros; congruence. Qed.

Definition abs σ : cdt :=
  Cdt (λ s, o ← object σ s; Some (o, rights σ s, badge σ s)) (mdb_parent σ).

(** ** The operations, abstractly *)

Definition cdt_install s (c : cap) (parent : option slotptr) t : cdt :=
  Cdt (upd_fn (caps t) s (Some c)) (upd_fn (up t) s parent).

(** Delete: the children are adopted by the grandparent, or become roots. *)
Definition cdt_delete s t : cdt :=
  Cdt (upd_fn (caps t) s None)
      (λ x, if decide (x = s) then None
            else if decide (up t x = Some s) then up t s else up t x).

(** Move: the capability and its place in the tree change slot. *)
Definition cdt_move a b t : cdt :=
  Cdt (λ x, caps t (swap a b x)) (λ x, swap a b <$> up t (swap a b x)).

(** [x] is derived, in one or more steps, from [y]. *)
Definition descends t x y : Prop := reach (up t) x y.

(** ** Shrinking: what a teardown may do to the capabilities

    Nothing appears, nothing that survives changes, and survivors descend from
    the same survivors as before. *)
Record cdt_shrinks t t' : Prop := CdtShrinks {
  cs_caps : ∀ s c, caps t' s = Some c → caps t s = Some c;
  cs_desc : ∀ x y, caps t' x ≠ None → caps t' y ≠ None → descends t' x y ↔ descends t x y;
}.

#[global] Instance cdt_shrinks_preorder : PreOrder cdt_shrinks.
Proof.
  split.
  - by constructor.
  - intros t1 t2 t3 [H1 H2] [H3 H4]. constructor; [eauto|].
    intros x y Hx Hy. rewrite H4 by done. apply H2; intros HN.
    + destruct (caps t3 x) as [c|] eqn:Hc; [|done]. apply H3 in Hc. congruence.
    + destruct (caps t3 y) as [c|] eqn:Hc; [|done]. apply H3 in Hc. congruence.
Qed.

Lemma cdt_eq_shrinks t t' : cdt_eq t t' → cdt_shrinks t t'.
Proof.
  intros [Hc Hu]. constructor; [intros s c; by rewrite Hc|]. intros x y _ _.
  unfold descends, reach.
  split; induction 1 as [x y H|x y z H _ IH];
    [apply tc_once|eapply tc_l; [|done]|apply tc_once|eapply tc_l; [|done]]; congruence.
Qed.

(** Deleting one capability keeps the ancestry of the others. *)
Lemma cdt_delete_descends s t x y :
  wf_link (up t) → x ≠ s → y ≠ s → descends (cdt_delete s t) x y ↔ descends t x y.
Proof.
  intros Hwf Hx Hy. unfold descends, reach. split.
  - clear Hx Hy. induction 1 as [x y H|x y z H _ IH]; simpl in H; repeat case_decide; try done.
    + eapply tc_l; [done|by apply tc_once].
    + by apply tc_once.
    + eapply tc_l; [done|]. by eapply tc_l.
    + by eapply tc_l.
  - intros H. revert Hx.
    cut ((x ≠ s → tc (λ x y, up (cdt_delete s t) x = Some y) x y) ∧
         (x = s → ∀ w, w ≠ s → up t w = Some s →
            tc (λ x y, up (cdt_delete s t) x = Some y) w y)); [tauto|].
    induction H as [x y H|x z y H Hzy IH].
    + split.
      * intros Hx. apply tc_once. simpl. repeat case_decide; congruence.
      * intros -> w Hw Hws. apply tc_once. simpl. repeat case_decide; congruence.
    + destruct (IH Hy) as [IH1 IH2]. split.
      * intros Hx. destruct (decide (z = s)) as [->|Hz]; [by apply IH2|].
        eapply tc_l; [|by apply IH1]. simpl. repeat case_decide; congruence.
      * intros -> w Hw Hws. assert (z ≠ s) as Hz by (intros ->; by eapply wf_link_irrefl).
        eapply tc_l; [|by apply IH1]. simpl. repeat case_decide; congruence.
Qed.

Lemma cdt_delete_shrinks s t : wf_link (up t) → cdt_shrinks t (cdt_delete s t).
Proof.
  intros Hwf. constructor; simpl.
  - intros x c. unfold upd_fn. by case_decide.
  - intros x y Hx Hy. unfold upd_fn in *.
    repeat case_decide; [done..|]. by apply cdt_delete_descends.
Qed.

(** ** Refinement: the slot memory against the abstract tree *)

(** The slot is empty and out of the tree; every other slot keeps its content
    and metadata. *)
Definition slot_cleared s σ σ' : Prop :=
  object σ' = upd_fn (object σ) s None ∧ rights σ' = upd_fn (rights σ) s RIGHT_NONE ∧
  badge σ' = upd_fn (badge σ) s 0 ∧
  mdb_cnode σ' = upd_fn (mdb_cnode σ) s None ∧ mdb_flags σ' = upd_fn (mdb_flags σ) s 0 ∧
  guard σ' = upd_fn (guard σ) s 0 ∧ guard_bits σ' = upd_fn (guard_bits σ) s 0 ∧
  mem σ' = mem σ.

Lemma slot_cleared_inv s lst σ σ' :
  mdb_inv σ → ends_kids (lk σ) s lst → links_eq (lk σ') (f_delete (lk σ) s lst) →
  slot_cleared s σ σ' → mdb_inv σ'.
Proof.
  intros [[HL Hdom] Hempty Hown Hmem] Hend Heq (Ho & Hr & Hb & Hc & Hf & Hg & Hgb & Hm).
  destruct (f_delete_ok _ _ _ HL Hend) as [HL' Hs].
  assert (∀ x, isolated (lk σ) x → isolated (lk σ') x) as Hiso.
  { intros x Hx. pose proof (f_delete_outside _ s lst x HL Hend Hx) as Hx'.
    destruct Heq as (H1 & H2 & H3 & H4). unfold isolated in *. by rewrite H1, H2, H3, H4. }
  assert (isolated (lk σ') s) as Hs'.
  { destruct Heq as (H1 & H2 & H3 & H4). unfold isolated in *. by rewrite H1, H2, H3, H4. }
  constructor; [constructor|..].
  - by rewrite Heq.
  - rewrite Hm. auto.
  - intros x. rewrite Ho, Hr, Hb, Hc, Hf, Hg, Hgb. unfold upd_fn.
    case_decide; [by subst|]. intros (? & ? & ? & ? & ? & ? & ?)%Hempty. auto 10.
  - intros cn i. rewrite Ho, Hc. unfold upd_fn. case_decide; [done|]. apply Hown.
  - intros x. rewrite Hm, Ho. unfold upd_fn. case_decide; auto.
Qed.

Lemma slot_cleared_abs s lst σ σ' :
  mdb_inv σ → links_eq (lk σ') (f_delete (lk σ) s lst) → slot_cleared s σ σ' →
  cdt_eq (abs σ') (cdt_delete s (abs σ)).
Proof.
  intros Hσ Heq (Ho & Hr & Hb & _). split; intros x; simpl.
  - rewrite Ho, Hr, Hb. unfold upd_fn. by case_decide.
  - destruct Heq as [Hp _]. rewrite Hp. apply f_delete_par. apply Hσ.
Qed.

(** Clearing a slot and detaching its node, as [kcnode_slot_delete_locked]
    does: no assertion fails, the invariant holds again, and the abstract tree
    sees a [cdt_delete]. *)
Lemma detach_refines s σ :
  mdb_inv σ →
  ∃ σ', mdb_detach_reparent s (set_content s None RIGHT_NONE 0 σ) = Some σ' ∧
    mdb_inv σ' ∧ slot_cleared s σ σ' ∧ cdt_eq (abs σ') (cdt_delete s (abs σ)).
Proof.
  intros Hσ. destruct (mdb_detach_reparent_spec s (set_content s None RIGHT_NONE 0 σ))
    as (σ' & lst & Hσ' & Hend & Heq & Hm).
  { destruct Hσ as [[] _ _ _]. by constructor. }
  assert (slot_cleared s σ σ') as Hc.
  { unfold meta_cleared in Hm. simpl in Hm. unfold slot_cleared. tauto. }
  exists σ'. split_and!; [done|..|done|].
  - by eapply slot_cleared_inv.
  - by eapply slot_cleared_abs.
Qed.
