(* ===== verification/Kobject.v ===== *)
(** * Kernel objects and the kernel state (kernel/new_core/src/kobject.c)

    The state the capability layer works on: the slot memory of [Mdb.v], the
    object headers ([struct KObject]: type, lifecycle count, active count, and
    for a CNode its [slot_count]), and the cascade queue of kcnode.c.

    Lifecycle and active references end in type-dispatched hooks.  The CNode
    hooks are modelled (in [Kcnode.v]); the hooks of every other object type
    belong to other components, and running one is recorded as an event. *)

From Stdlib Require Import ZArith Lia.
From stdpp Require Import base numbers gmap list.
From S2P Require Import Prelude Rights Forest Mdb.
Local Open Scope Z_scope.

Record KObject := MkKObject {
  otype       : kobject_type_t;
  refcount    : Z;      (* lifecycle references *)
  active_refs : Z;      (* published references *)
  slot_count  : N;      (* struct KCNode only *)
}.

(** Work handed to another component. *)
Inductive kevent :=
  | EvClose (o : N)             (* the close hook of a non-CNode object *)
  | EvDestroy (o : N)           (* the destructor of a non-CNode object *)
  | EvStorageFree (o : N)       (* kobject_storage_free of a CNode *)
  | EvFinaliseOrphans (o : N).  (* kvspace_finalise_orphans *)

Record kstate := KState {
  mdb             : mdb_state;
  objs            : N → option KObject;
  (** The CNodes linked through [destroy_next], head first: [destroy_next] is
      non-NULL exactly for the members. *)
  cascade_queue   : list N;
  cascade_running : bool;
  kcnode_live     : Z;
  events          : list kevent;
}.
Implicit Types (κ : kstate) (o cn idx : N).

Definition with_mdb (m : mdb_state) κ : kstate :=
  KState m (objs κ) (cascade_queue κ) (cascade_running κ) (kcnode_live κ) (events κ).
Definition with_objs (f : N → option KObject) κ : kstate :=
  KState (mdb κ) f (cascade_queue κ) (cascade_running κ) (kcnode_live κ) (events κ).
Definition with_cascade (q : list N) (run : bool) κ : kstate :=
  KState (mdb κ) (objs κ) q run (kcnode_live κ) (events κ).
Definition with_live (n : Z) κ : kstate :=
  KState (mdb κ) (objs κ) (cascade_queue κ) (cascade_running κ) n (events κ).
Definition emit (e : kevent) κ : kstate :=
  KState (mdb κ) (objs κ) (cascade_queue κ) (cascade_running κ) (kcnode_live κ) (events κ ++ [e]).

Definition upd_obj o (f : KObject → KObject) κ : kstate :=
  with_objs (upd_fn (objs κ) o (f <$> objs κ o)) κ.

Definition set_refcount (v : Z) (k : KObject) : KObject :=
  MkKObject (otype k) v (active_refs k) (slot_count k).
Definition set_active_refs (v : Z) (k : KObject) : KObject :=
  MkKObject (otype k) (refcount k) v (slot_count k).

(** Dereferencing an object pointer; freed storage is a panic. *)
Definition get_obj o κ : res KObject := of_assert (objs κ o).

(** [cn->slot_count], 0 for what is not a live CNode. *)
Definition cn_slots κ cn : N := from_option slot_count 0%N (objs κ cn).

(** [kobject_init]: the header of a new object ([slots] is written by the CNode
    constructors right after, 0 for every other type); its creator holds the
    one lifecycle reference. *)
Definition kobject_init o (t : kobject_type_t) (slots : N) κ : kstate :=
  with_objs (upd_fn (objs κ) o (Some (MkKObject t 1 0 slots))) κ.

(** ** References *)

Definition kobject_retain o κ : res kstate :=
  k ← get_obj o κ;
  let prev := refcount k in
  let κ := upd_obj o (set_refcount (u32 (prev + 1))) κ in
  _ ← iris_assert (1 <=? prev);
  Ret κ.

Definition kobject_active_retain o κ : res kstate :=
  k ← get_obj o κ;
  Ret (upd_obj o (set_active_refs (u32 (active_refs k + 1))) κ).

Section release.
(** The two type-dispatched hooks, [kobject_dispatch_close] and
    [kobject_dispatch_destroy]. *)
Context (dispatch_close dispatch_destroy : N → kstate → res kstate).

Definition kobject_release o κ : res kstate :=
  k ← get_obj o κ;
  let prev := refcount k in
  let κ := upd_obj o (set_refcount (u32 (prev - 1))) κ in
  _ ← iris_assert (1 <=? prev);
  if prev =? 1 then dispatch_destroy o κ else Ret κ.

Definition kobject_active_release o κ : res kstate :=
  k ← get_obj o κ;
  let prev := active_refs k in
  let κ := upd_obj o (set_active_refs (u32 (prev - 1))) κ in
  _ ← iris_assert (1 <=? prev);
  if prev =? 1 then dispatch_close o κ else Ret κ.
End release.

(** [kobject_dispatch_close]: the CNode hook is a parameter here and defined in
    [Kcnode.v]; a TCB and the reserved wire types have none. *)
Definition kobject_dispatch_close (cnode_close : N → kstate → res kstate) o κ : res kstate :=
  k ← get_obj o κ;
  match otype k with
  | KOBJ_CNODE => cnode_close o κ
  | KOBJ_TCB | KOBJ_PROCESS | KOBJ_CHANNEL | KOBJ_VMO | KOBJ_INITRD_ENTRY => Ret κ
  | _ => Ret (emit (EvClose o) κ)
  end.

(** [kobject_dispatch_destroy]: an object of a reserved type has no destructor
    and panics.  Destroying an object ends its storage.  What the destructor of an
    object other than a CNode does on top of that is recorded as an event. *)
Definition kobject_dispatch_destroy (cnode_destroy : N → kstate → res kstate) o κ : res kstate :=
  k ← get_obj o κ;
  match otype k with
  | KOBJ_CNODE => cnode_destroy o κ
  | KOBJ_PROCESS | KOBJ_CHANNEL | KOBJ_VMO | KOBJ_INITRD_ENTRY => Panic
  | _ => Ret (emit (EvDestroy o) (with_objs (upd_fn (objs κ) o None) κ))
  end.
