(* ===== verification/Kcnode.v ===== *)
(** * Capability nodes: the slot primitives (kernel/new_core/src/kcnode.c)

    Every slot mutator of the kernel, on the state of [Kobject.v]: install,
    derive, move, rotate, swap, delete, revoke, fetch, guards, and the CNode
    lifecycle hooks with the sliced teardown cascade.  Locks are not modelled:
    a function runs as one step, which is what [mdb_lock] gives its critical
    sections.

    Deleting a slot can close a CNode, which empties its slots, which deletes
    slots: the recursion goes through [kcnode_slot_delete] only, so everything
    on the cycle takes that function as [rec] and the knot is tied with a
    fuel.  [KcnodeInv] shows that a fuel above the number of occupied
    slots is never exhausted. *)

From Stdlib Require Import ZArith Lia.
From stdpp Require Import base numbers gmap list.
From S2P Require Import Prelude Rights Forest Mdb Kobject.
Local Open Scope Z_scope.
Implicit Types (κ : kstate) (o cn idx : N).

Definition KCNODE_MAX_SLOTS : N := 4096.
Definition CSPACE_CPTR_BITS : Z := 31.
Definition KCNODE_GUARD_BITS_MAX : Z := CSPACE_CPTR_BITS.
Definition IRIS_CASCADE_SLICE : nat := 8.

(** [slot_idx >= cn->slot_count], negated. *)
Definition slot_in_range κ cn idx : bool := (idx <? cn_slots κ cn)%N.

(** ** Delete *)

(** [kcnode_slot_delete_locked]: error code, state and [*out_old]. *)
Definition kcnode_slot_delete_locked cn idx κ : res (iris_error_t * kstate * option N) :=
  if negb (slot_in_range κ cn idx) then Ret (IRIS_ERR_INVALID_ARG, κ, None)
  else
    let s := InNode cn idx in
    let σ := mdb κ in
    match object σ s with
    | None => Ret (IRIS_OK, κ, None)
    | Some old =>
        let σ := set_content s None RIGHT_NONE 0 σ in
        σ ← (match mdb_cnode σ s with
             | Some _ => of_assert (mdb_detach_reparent s σ)
             | None => Ret σ
             end);
        Ret (IRIS_OK, with_mdb (ctr_add cdt_delete_count 1 σ) κ, Some old)
    end.

Section teardown.
(** [kcnode_slot_delete], one level down. *)
Context (rec : N → N → kstate → res (iris_error_t * kstate)).

(** [for (i = 0; i < cn->slot_count; i++) (void)kcnode_slot_delete(cn, i);] *)
Fixpoint empty_slots_loop (l : list N) cn κ : res kstate :=
  match l with
  | [] => Ret κ
  | i :: l => '(_, κ) ← rec cn i κ; empty_slots_loop l cn κ
  end.
Definition slot_indices (n : N) : list N := N.of_nat <$> seq 0 (N.to_nat n).
Definition kcnode_empty_slots cn κ : res kstate :=
  empty_slots_loop (slot_indices (cn_slots κ cn)) cn κ.

(** Destroying a CNode empties it and ends its storage. *)
Definition kcnode_obj_destroy cn κ : res kstate :=
  let n := cn_slots κ cn in
  κ ← kcnode_empty_slots cn κ;
  let κ := with_live (u32 (kcnode_live κ - 1)) κ in
  let σ := mdb κ in
  let σ := MdbState (lk σ) (object σ) (rights σ) (badge σ) (mdb_cnode σ) (mdb_flags σ)
             (guard σ) (guard_bits σ)
             (mem σ ∖ list_to_set (InNode cn <$> slot_indices n)) (ctr σ) in
  Ret (emit (EvStorageFree cn) (with_mdb σ (with_objs (upd_fn (objs κ) cn None) κ))).

Definition dispatch_destroy : N → kstate → res kstate :=
  kobject_dispatch_destroy kcnode_obj_destroy.

(** One pass of the drain loop per unit of [budget]; a budget of 0 ("until
    the list is empty") has no caller. *)
Fixpoint kcnode_cascade_drain (budget : nat) κ : res kstate :=
  match cascade_queue κ with
  | [] => Ret (with_cascade [] false κ)
  | o :: q =>
      match budget with
      | O => Ret (with_cascade (o :: q) false κ)
      | S budget =>
          let κ := with_cascade q (cascade_running κ) κ in
          κ ← kcnode_empty_slots o κ;
          κ ← kobject_release dispatch_destroy o κ;
          kcnode_cascade_drain budget κ
      end
  end.

Definition kcnode_cascade_pending κ : bool :=
  match cascade_queue κ with [] => false | _ => true end.

Definition kcnode_cascade_drain_slice κ : res kstate :=
  if cascade_running κ || negb (kcnode_cascade_pending κ) then Ret κ
  else kcnode_cascade_drain IRIS_CASCADE_SLICE (with_cascade (cascade_queue κ) true κ).

Definition kcnode_cascade cn κ : res kstate :=
  if cascade_running κ then
    if bool_decide (cn ∈ cascade_queue κ) then Ret κ
    else
      κ ← kobject_retain cn κ;
      Ret (with_cascade (cn :: cascade_queue κ) true κ)
  else
    let κ := with_cascade (cascade_queue κ) true κ in
    κ ← kcnode_empty_slots cn κ;
    kcnode_cascade_drain (IRIS_CASCADE_SLICE - 1) κ.

Definition kcnode_obj_close : N → kstate → res kstate := kcnode_cascade.

Definition dispatch_close : N → kstate → res kstate :=
  kobject_dispatch_close kcnode_obj_close.

Definition kcnode_slot_drop_old cn (old : option N) κ : res kstate :=
  match old with
  | None => Ret κ
  | Some o =>
      κ ← (if (o =? cn)%N then Ret κ else kobject_active_release dispatch_close o κ);
      k ← get_obj o κ;
      let κ := match otype k with
               | KOBJ_FRAME | KOBJ_PAGE_TABLE => emit (EvFinaliseOrphans o) κ
               | _ => κ
               end in
      kobject_release dispatch_destroy o κ
  end.

Definition slot_delete_body cn idx κ : res (iris_error_t * kstate) :=
  '(r, κ, old) ← kcnode_slot_delete_locked cn idx κ;
  κ ← kcnode_slot_drop_old cn old κ;
  Ret (r, κ).
End teardown.

Fixpoint slot_delete (fuel : nat) cn idx κ : res (iris_error_t * kstate) :=
  match fuel with
  | O => NoFuel
  | S fuel => slot_delete_body (slot_delete fuel) cn idx κ
  end.

(** A fuel that is always enough: one more than the slots that exist. *)
Definition slot_fuel κ : nat := S (size (mem (mdb κ))).

(** The knot tied: what the other primitives call. *)
Definition drop_old cn (old : option N) κ : res kstate :=
  kcnode_slot_drop_old (slot_delete (slot_fuel κ)) cn old κ.
Definition active_release o κ : res kstate :=
  kobject_active_release (dispatch_close (slot_delete (slot_fuel κ))) o κ.
Definition release o κ : res kstate :=
  kobject_release (dispatch_destroy (slot_delete (slot_fuel κ))) o κ.

Definition kcnode_slot_delete (cn : option N) idx κ : res (iris_error_t * kstate) :=
  match cn with
  | None => Ret (IRIS_ERR_INVALID_ARG, κ)
  | Some cn => slot_delete (slot_fuel κ) cn idx κ
  end.
Definition kcnode_delete := kcnode_slot_delete.

Definition kcnode_teardown_slots (cn : option N) κ : res kstate :=
  match cn with
  | None => Ret κ
  | Some cn => kcnode_empty_slots (slot_delete (slot_fuel κ)) cn κ
  end.

(** ** Install and derive *)

(** Undo of the references an install took, on its error paths. *)
Definition install_fail cn (old : option N) (self_ref : bool) obj (e : iris_error_t) κ
    : res (iris_error_t * kstate) :=
  κ ← drop_old cn old κ;
  κ ← (if self_ref then Ret κ else active_release obj κ);
  κ ← release obj κ;
  Ret (e, κ).

(** The critical section of a successful install: content, then links. *)
Definition install_commit cn idx obj (r b : Z) (parent : option (N * N)) (unparented : bool)
    (σ : mdb_state) : mdb_state :=
  let s := InNode cn idx in
  let σ := set_content s (Some obj) r b σ in
  let σ := set_cnode s (Some cn) σ in
  let σ :=
    match parent with
    | Some (pcn, pidx) =>
        let σ := mdb_link_child (InNode pcn pidx) s σ in
        let σ := set_flags s 0 σ in
        let σ := mdb_note_max mdb_max_depth (mdb_depth_of σ s) σ in
        let σ := ctr_add cdt_derivation_count 1 σ in
        let σ := ctr_add cdt_derived_live 1 σ in
        let σ := mdb_note_max cdt_derivation_hwm (ctr σ cdt_derived_live) σ in
        if (pcn =? cn)%N then σ else ctr_add cdt_cross_cnode_desc 1 σ
    | None =>
        let σ := set_parent s None σ in
        let σ := set_flags s (if unparented then MDB_FLAG_UNPARENTED else 0) σ in
        if unparented then ctr_add mdb_unparented_roots 1 σ else σ
    end in
  mdb_node_count_inc σ.

(** Under the lock: the parent is empty, is the destination itself, or no
    longer names the expected object. *)
Definition parent_rejected (σ : mdb_state) (s : slotptr) (parent : option (N * N))
    (parent_expect : option N) : bool :=
  match parent with
  | Some (pcn, pidx) =>
      let p := InNode pcn pidx in
      match object σ p with
      | None => true
      | Some po => bool_decide (p = s) ||
          match parent_expect with Some e => negb (po =? e)%N | None => false end
      end
  | None => false
  end.

(** [parent_expect = None] is the C null: no identity demanded. *)
Definition kcnode_slot_install_linked (cn : option N) idx (obj : option N) (r b : Z)
    (parent : option (N * N)) (parent_expect : option N) (exclusive unparented : bool) κ
    : res (iris_error_t * kstate) :=
  match cn, obj with
  | Some cn, Some obj =>
    if r =? RIGHT_NONE then Ret (IRIS_ERR_INVALID_ARG, κ)
    else if match parent with
            | Some (pcn, pidx) => negb (slot_in_range κ pcn pidx) | None => false end
    then Ret (IRIS_ERR_INVALID_ARG, κ)
    else if negb exclusive && negb (slot_in_range κ cn idx) then Ret (IRIS_ERR_INVALID_ARG, κ)
    else
      let self_ref := (obj =? cn)%N in
      κ ← kobject_retain obj κ;
      κ ← (if self_ref then Ret κ else kobject_active_retain obj κ);
      '(de, κ, old) ← (if exclusive then Ret (IRIS_OK, κ, None)
                       else kcnode_slot_delete_locked cn idx κ);
      if negb (bool_decide (de = IRIS_OK)) then install_fail cn None self_ref obj de κ
      else if negb (slot_in_range κ cn idx)
      then install_fail cn old self_ref obj IRIS_ERR_INVALID_ARG κ
      else
        let s := InNode cn idx in
        if parent_rejected (mdb κ) s parent parent_expect
        then install_fail cn old self_ref obj IRIS_ERR_INVALID_ARG κ
        else match object (mdb κ) s with
        | Some _ => install_fail cn old self_ref obj IRIS_ERR_ALREADY_EXISTS κ
        | None =>
            let κ := with_mdb (install_commit cn idx obj r b parent unparented (mdb κ)) κ in
            κ ← drop_old cn old κ;
            Ret (IRIS_OK, κ)
        end
  | _, _ => Ret (IRIS_ERR_INVALID_ARG, κ)
  end.

Definition kcnode_slot_install_sibling (src_cn : option N) src_idx (dst_cn : option N) dst_idx κ
    : res (iris_error_t * kstate) :=
  match src_cn, dst_cn with
  | Some scn, Some dcn =>
    if negb (slot_in_range κ scn src_idx) || negb (slot_in_range κ dcn dst_idx)
    then Ret (IRIS_ERR_INVALID_ARG, κ)
    else
      let σ := mdb κ in
      let src := InNode scn src_idx in
      match object σ src with
      | None => Ret (IRIS_ERR_NOT_FOUND, κ)
      | Some obj =>
          let '(par_loc, par_expect) :=
            match mdb_parent σ src with
            | Some p =>
                match mdb_cnode σ p, p with
                | Some pcn, InNode _ pidx => (Some (pcn, pidx), object σ p)
                | _, _ => (Some (scn, src_idx), Some obj)
                end
            | None => (Some (scn, src_idx), Some obj)
            end in
          kcnode_slot_install_linked (Some dcn) dst_idx (Some obj) (rights σ src) (badge σ src)
            par_loc par_expect true false κ
      end
  | _, _ => Ret (IRIS_ERR_INVALID_ARG, κ)
  end.

Definition kcnode_slot_install_for_thread (src_cn : option N) src_idx (dst_cn : option N) dst_idx κ
    : res (iris_error_t * kstate) :=
  match src_cn, dst_cn with
  | Some scn, Some dcn =>
    if negb (slot_in_range κ scn src_idx) || negb (slot_in_range κ dcn dst_idx)
    then Ret (IRIS_ERR_INVALID_ARG, κ)
    else
      let σ := mdb κ in
      let src := InNode scn src_idx in
      match object σ src with
      | None => Ret (IRIS_ERR_NOT_FOUND, κ)
      | Some obj =>
          kcnode_slot_install_linked (Some dcn) dst_idx (Some obj) (rights σ src) (badge σ src)
            (Some (scn, src_idx)) (Some obj) true false κ
      end
  | _, _ => Ret (IRIS_ERR_INVALID_ARG, κ)
  end.

Definition kcnode_slot_derive (src_cn : option N) src_idx (dst_cn : option N) dst_idx
    (requested req_badge : Z) κ : res (iris_error_t * kstate) :=
  match src_cn, dst_cn with
  | Some scn, Some dcn =>
    if negb (slot_in_range κ scn src_idx) || negb (slot_in_range κ dcn dst_idx)
    then Ret (IRIS_ERR_INVALID_ARG, κ)
    else if (scn =? dcn)%N && (src_idx =? dst_idx)%N then Ret (IRIS_ERR_INVALID_ARG, κ)
    else
      let σ := mdb κ in
      let src := InNode scn src_idx in
      match object σ src with
      | None => Ret (IRIS_ERR_NOT_FOUND, κ)
      | Some obj =>
          if negb (rights_check (rights σ src) RIGHT_DUPLICATE)
          then Ret (IRIS_ERR_ACCESS_DENIED, κ)
          else
            let effective := rights_reduce (rights σ src) requested in
            if effective =? RIGHT_NONE then Ret (IRIS_ERR_INVALID_ARG, κ)
            else
              k ← get_obj obj κ;
              match mdb_badge_derive (badge σ src) req_badge (otype k) with
              | inl e => Ret (e, κ)
              | inr eff_badge =>
                  kcnode_slot_install_linked (Some dcn) dst_idx (Some obj) effective eff_badge
                    (Some (scn, src_idx)) (Some obj) true false κ
              end
      end
  | _, _ => Ret (IRIS_ERR_INVALID_ARG, κ)
  end.

Definition kcnode_mint (cn : option N) idx (obj : option N) (r : Z) κ :=
  kcnode_slot_install_linked cn idx obj r 0 None None false true κ.
Definition kcnode_mint_excl_badged (cn : option N) idx (obj : option N) (r b : Z) κ :=
  kcnode_slot_install_linked cn idx obj r b None None true true κ.
Definition kcnode_mint_excl (cn : option N) idx (obj : option N) (r : Z) κ :=
  kcnode_mint_excl_badged cn idx obj r 0 κ.

(** ** Move, rotate, swap *)

Definition relocate from to (to_cn : N) κ : res kstate :=
  σ ← of_assert (mdb_relocate from to to_cn (mdb κ)); Ret (with_mdb σ κ).

Definition kcnode_slot_move (src_cn : option N) src_idx (dst_cn : option N) dst_idx κ
    : res (iris_error_t * kstate) :=
  match src_cn, dst_cn with
  | Some scn, Some dcn =>
    if negb (slot_in_range κ scn src_idx) || negb (slot_in_range κ dcn dst_idx)
    then Ret (IRIS_ERR_INVALID_ARG, κ)
    else if (scn =? dcn)%N && (src_idx =? dst_idx)%N then Ret (IRIS_ERR_INVALID_ARG, κ)
    else
      let src := InNode scn src_idx in
      let dst := InNode dcn dst_idx in
      match object (mdb κ) src, object (mdb κ) dst with
      | None, _ => Ret (IRIS_ERR_NOT_FOUND, κ)
      | Some _, Some _ => Ret (IRIS_ERR_ALREADY_EXISTS, κ)
      | Some _, None =>
          κ ← relocate src dst dcn κ;
          Ret (IRIS_OK, with_mdb (ctr_add mdb_moves 1 (mdb κ)) κ)
      end
  | _, _ => Ret (IRIS_ERR_INVALID_ARG, κ)
  end.

Definition kcnode_slot_rotate (dest_cn : option N) dest_idx (pivot_cn : option N) pivot_idx
    (src_cn : option N) src_idx κ : res (iris_error_t * kstate) :=
  match dest_cn, pivot_cn, src_cn with
  | Some dcn, Some pcn, Some scn =>
    if negb (slot_in_range κ dcn dest_idx) || negb (slot_in_range κ pcn pivot_idx)
       || negb (slot_in_range κ scn src_idx)
    then Ret (IRIS_ERR_INVALID_ARG, κ)
    else
      let dest := InNode dcn dest_idx in
      let pivot := InNode pcn pivot_idx in
      let src := InNode scn src_idx in
      let σ := mdb κ in
      if bool_decide (src = pivot) || bool_decide (dest = pivot)
      then Ret (IRIS_ERR_INVALID_ARG, κ)
      else match object σ src, object σ pivot with
      | Some _, Some _ =>
          if negb (bool_decide (dest = src)) && bool_decide (is_Some (object σ dest))
          then Ret (IRIS_ERR_ALREADY_EXISTS, κ)
          else
            κ ← (if bool_decide (dest = src) then
                   κ ← relocate src OnStack scn κ;
                   κ ← relocate pivot dest dcn κ;
                   relocate OnStack pivot pcn κ
                 else
                   κ ← relocate pivot dest dcn κ;
                   relocate src pivot pcn κ);
            Ret (IRIS_OK, with_mdb (ctr_add mdb_moves 2 (mdb κ)) κ)
      | _, _ => Ret (IRIS_ERR_NOT_FOUND, κ)
      end
  | _, _, _ => Ret (IRIS_ERR_INVALID_ARG, κ)
  end.

Definition kcnode_swap (cn : option N) (slot_a slot_b : N) κ : res (iris_error_t * kstate) :=
  match cn with
  | None => Ret (IRIS_ERR_INVALID_ARG, κ)
  | Some cn =>
    if (slot_a =? slot_b)%N then Ret (IRIS_ERR_INVALID_ARG, κ)
    else if negb (slot_in_range κ cn slot_a) || negb (slot_in_range κ cn slot_b)
    then Ret (IRIS_ERR_INVALID_ARG, κ)
    else
      let a := InNode cn slot_a in
      let b := InNode cn slot_b in
      let a_occ := bool_decide (is_Some (object (mdb κ) a)) in
      let b_occ := bool_decide (is_Some (object (mdb κ) b)) in
      κ ← (if a_occ then relocate a OnStack cn κ else Ret κ);
      κ ← (if b_occ then relocate b a cn κ else Ret κ);
      κ ← (if a_occ then relocate OnStack b cn κ else Ret κ);
      Ret (IRIS_OK, κ)
  end.

(** ** Revoke *)

(** [while (v->mdb_first_child) v = v->mdb_first_child;] *)
Fixpoint leftmost_leaf (fuel : nat) (σ : mdb_state) (v : slotptr) : slotptr :=
  match fuel, mdb_first_child σ v with
  | S fuel, Some c => leftmost_leaf fuel σ c
  | _, _ => v
  end.

(** One pass of the loop under [mdb_lock]: the victim leaves the tree. *)
Definition revoke_unlink (v : slotptr) (σ : mdb_state) : option mdb_state :=
  let σ := set_content v None RIGHT_NONE 0 σ in
  let σ := mdb_unlink_from_parent v σ in
  let σ := if is_unparented σ v then ctr_add mdb_unparented_roots (-1) σ else σ in
  let σ := ctr_add mdb_nodes_live (-1) σ in
  let σ := ctr_add cdt_derived_live (-1) σ in
  σ ← mdb_clear_node v σ;
  Some (ctr_add mdb_revoked_nodes 1 σ).

(** The loop; [budget = 0] is unbounded.  Result: error code, state,
    [*out_revoked] and [*out_more]. *)
Fixpoint revoke_loop (fuel : nat) cn idx (budget revoked : Z) κ
    : res (iris_error_t * kstate * Z * bool) :=
  let σ := mdb κ in
  let root := InNode cn idx in
  if negb (budget =? 0) && (budget <=? revoked) then
    let more := match object σ root, mdb_first_child σ root with
                | Some _, Some _ => true | _, _ => false end in
    Ret (IRIS_OK, κ, revoked, more)
  else
    match object σ root with
    | None => Ret (if revoked =? 0 then IRIS_ERR_NOT_FOUND else IRIS_OK, κ, revoked, false)
    | Some _ =>
      match mdb_first_child σ root with
      | None => Ret (IRIS_OK, κ, revoked, false)
      | Some c =>
        match fuel with
        | O => NoFuel
        | S fuel =>
          let v := leftmost_leaf (mdb_fuel σ) σ c in
          let victim_obj := object σ v in
          σ' ← of_assert (revoke_unlink v σ);
          v_cn ← of_assert (mdb_cnode σ v);
          κ ← drop_old v_cn victim_obj (with_mdb σ' κ);
          revoke_loop fuel cn idx budget (u32 (revoked + 1)) κ
        end
      end
    end.

Definition kcnode_slot_revoke_bounded (cn : option N) idx (budget : Z) κ
    : res (iris_error_t * kstate * Z * bool) :=
  match cn with
  | None => Ret (IRIS_ERR_INVALID_ARG, κ, 0, false)
  | Some cn =>
    if negb (slot_in_range κ cn idx) then Ret (IRIS_ERR_INVALID_ARG, κ, 0, false)
    else
      let κ := with_mdb (ctr_add cdt_revoke_count 1 (mdb κ)) κ in
      revoke_loop (slot_fuel κ) cn idx budget 0 κ
  end.

Definition kcnode_slot_revoke (cn : option N) idx κ : res (iris_error_t * kstate * Z * bool) :=
  kcnode_slot_revoke_bounded cn idx 0 κ.

(** ** Fetch and guards *)

(** Both references are taken on success; the result carries rights, badge and
    the capability's guard. *)
Definition kcnode_fetch_guarded (cn : option N) idx κ
    : res (iris_error_t + (N * Z * Z * Z * Z) * kstate) :=
  match cn with
  | None => Ret (inl IRIS_ERR_INVALID_ARG)
  | Some cn =>
    if negb (slot_in_range κ cn idx) then Ret (inl IRIS_ERR_INVALID_ARG)
    else
      let σ := mdb κ in
      let s := InNode cn idx in
      match object σ s with
      | None => Ret (inl IRIS_ERR_NOT_FOUND)
      | Some obj =>
          κ ← kobject_retain obj κ;
          κ ← kobject_active_retain obj κ;
          Ret (inr (obj, rights σ s, badge σ s, guard σ s, guard_bits σ s, κ))
      end
  end.

Definition kcnode_fetch_badged (cn : option N) idx κ
    : res (iris_error_t + (N * Z * Z) * kstate) :=
  match cn with
  | None => Ret (inl IRIS_ERR_INVALID_ARG)
  | Some cn =>
    if negb (slot_in_range κ cn idx) then Ret (inl IRIS_ERR_INVALID_ARG)
    else
      let σ := mdb κ in
      let s := InNode cn idx in
      match object σ s with
      | None => Ret (inl IRIS_ERR_NOT_FOUND)
      | Some obj =>
          κ ← kobject_retain obj κ;
          κ ← kobject_active_retain obj κ;
          Ret (inr (obj, rights σ s, badge σ s, κ))
      end
  end.

Definition kcnode_fetch (cn : option N) idx κ : res (iris_error_t + (N * Z * Z) * kstate) :=
  kcnode_fetch_badged cn idx κ.

(** [__builtin_ctzll] (of a non-zero value: CNodes have at least one slot). *)
Fixpoint ctz_pos (p : positive) : Z :=
  match p with xO p => 1 + ctz_pos p | _ => 0 end.
Definition ctz (n : N) : Z := match n with N0 => 0 | Npos p => ctz_pos p end.

Definition kcnode_slot_set_guard (cn : option N) idx (g gb : Z) κ
    : res (iris_error_t * kstate) :=
  match cn with
  | None => Ret (IRIS_ERR_INVALID_ARG, κ)
  | Some cn =>
    if negb (slot_in_range κ cn idx) then Ret (IRIS_ERR_INVALID_ARG, κ)
    else if KCNODE_GUARD_BITS_MAX <? gb then Ret (IRIS_ERR_INVALID_ARG, κ)
    else if (gb <? 64) && negb (Z.shiftr g gb =? 0) then Ret (IRIS_ERR_INVALID_ARG, κ)
    else
      let s := InNode cn idx in
      match object (mdb κ) s with
      | None => Ret (IRIS_ERR_NOT_FOUND, κ)
      | Some obj =>
          k ← get_obj obj κ;
          if negb (bool_decide (otype k = KOBJ_CNODE)) then Ret (IRIS_ERR_WRONG_TYPE, κ)
          else if CSPACE_CPTR_BITS <? gb + ctz (slot_count k) then Ret (IRIS_ERR_INVALID_ARG, κ)
          else Ret (IRIS_OK, with_mdb (set_guard s g gb (mdb κ)) κ)
      end
  end.

Definition kcnode_slot_holds (cn : option N) idx (obj : option N) κ : bool :=
  match cn, obj with
  | Some cn, Some obj =>
      slot_in_range κ cn idx && bool_decide (object (mdb κ) (InNode cn idx) = Some obj)
  | _, _ => false
  end.

(** ** seL4's isFinalCapability *)

(** [for (c = o; c; c = f(c)) if (c->object == obj) return 0;] *)
Definition list_names (f : slotptr → option slotptr) (σ : mdb_state) (o : option slotptr)
    (obj : N) : bool :=
  existsb (λ c, bool_decide (object σ c = Some obj)) (walk f (mdb_fuel σ) o).

Definition kcnode_slot_is_final_cap (s : option slotptr) (σ : mdb_state) : bool :=
  match s with
  | None => false
  | Some s =>
    match object σ s with
    | None => false
    | Some o =>
        if match mdb_parent σ s with
           | Some p => bool_decide (object σ p = Some o) | None => false end then false
        else if list_names (mdb_next_sib σ) σ (mdb_first_child σ s) o then false
        else if list_names (mdb_next_sib σ) σ (mdb_next_sib σ s) o then false
        else negb (list_names (mdb_prev_sib σ) σ (mdb_prev_sib σ s) o)
    end
  end.

(** NULL entries of the array are skipped. *)
Definition kcnode_count_final_caps (cns : list (option N)) κ : Z :=
  foldl (λ n cno,
    match cno with
    | None => n
    | Some cn => foldl (λ n i,
        if kcnode_slot_is_final_cap (Some (InNode cn i)) (mdb κ) then u32 (n + 1) else n)
        n (slot_indices (cn_slots κ cn))
    end) 0 cns.

(** ** Creation *)

Definition is_pow2 (n : N) : bool := (N.land n (n - 1) =? 0)%N.

(** The slot array behind the header: the block arrives zeroed, so every slot
    is empty. *)
Definition add_slots cn (num_slots : N) (σ : mdb_state) : mdb_state :=
  MdbState (lk σ) (object σ) (rights σ) (badge σ) (mdb_cnode σ) (mdb_flags σ)
    (guard σ) (guard_bits σ)
    (mem σ ∪ list_to_set (InNode cn <$> slot_indices num_slots)) (ctr σ).

(** Placement at the address that becomes object [cn]. *)
Definition kcnode_alloc_at (cn : option N) (num_slots : N) κ : option kstate :=
  match cn with
  | None => None
  | Some cn =>
    if (num_slots =? 0)%N || (KCNODE_MAX_SLOTS <? num_slots)%N then None
    else if negb (is_pow2 num_slots) then None
    else
      let κ := kobject_init cn KOBJ_CNODE num_slots κ in
      let κ := with_mdb (add_slots cn num_slots (mdb κ)) κ in
      Some (with_live (u32 (kcnode_live κ + 1)) κ)
  end.

(** From the kernel slab: [block] is what [kslab_alloc] returns, zeroed. *)
Definition kcnode_alloc (block : option N) (num_slots : N) κ : option (N * kstate) :=
  if (num_slots =? 0)%N || (KCNODE_MAX_SLOTS <? num_slots)%N then None
  else if negb (is_pow2 num_slots) then None
  else match block with
  | None => None
  | Some cn =>
      let κ := kobject_init cn KOBJ_CNODE num_slots κ in
      let κ := with_mdb (add_slots cn num_slots (mdb κ)) κ in
      Some (cn, with_live (u32 (kcnode_live κ + 1)) κ)
  end.

Definition kcnode_close (cn : option N) κ : res kstate :=
  match cn with None => Ret κ | Some cn => release cn κ end.
