(* ===== verification/KcnodeInv.v ===== *)
(** * Reference accounting and teardown of the capability layer

    The invariant of the kernel state, [kinv]: the MDB representation
    invariant, the slot arrays of the live CNodes, and exact reference counts.
    [hl o] and [ha o] are the lifecycle and active references somebody outside
    the slots holds on [o] (a thread, a syscall in progress); every count is
    the slots naming the object, plus its place on the cascade queue, plus
    those.

    The specifications are total ([returns], in the prelude). *)

From Stdlib Require Import ZArith Lia.
From stdpp Require Import base numbers gmap list.
From S2P Require Import Prelude Rights Forest Mdb Cdt Kobject Kcnode.
Local Open Scope Z_scope.
Implicit Types (σ : mdb_state) (κ : kstate) (o cn idx : N) (s : slotptr).

(** ** Counting the slots that name an object *)

(** The CNode a slot belongs to. *)
Definition slot_home s : option N := match s with InNode cn _ => Some cn | OnStack => None end.

Definition names σ o : nat := size (filter (λ s, object σ s = Some o) (mem σ)).
(** Slots holding an ACTIVE reference: a slot naming its own CNode takes none. *)
Definition anames σ o : nat :=
  size (filter (λ s, object σ s = Some o ∧ slot_home s ≠ Some o) (mem σ)).
Definition occupied σ : nat := size (filter (λ s, is_Some (object σ s)) (mem σ)).

Section counting.
Context {A : Type} `{Countable A} (P Q : A → Prop)
  `{∀ x, Decision (P x), ∀ x, Decision (Q x)}.

Lemma count_ext (X Y : gset A) :
  (∀ x, (x ∈ X ∧ P x) ↔ (x ∈ Y ∧ Q x)) → size (filter P X) = size (filter Q Y).
Proof. intros HPQ. f_equal. apply set_eq. intros x. rewrite !elem_of_filter. naive_solver. Qed.

Lemma count_remove (X Y : gset A) a :
  a ∈ X → P a → ¬ (a ∈ Y ∧ Q a) → (∀ x, x ≠ a → (x ∈ X ∧ P x) ↔ (x ∈ Y ∧ Q x)) →
  size (filter P X) = S (size (filter Q Y)).
Proof.
  intros Ha HP HQ Hext.
  replace (filter P X) with ({[a]} ∪ filter Q Y).
  - rewrite size_union; [by rewrite size_singleton|].
    intros x. rewrite elem_of_singleton, elem_of_filter. naive_solver.
  - apply set_eq. intros x. rewrite elem_of_union, elem_of_singleton, !elem_of_filter.
    destruct (decide (x = a)) as [->|Hne]; [naive_solver|].
    specialize (Hext x Hne). naive_solver.
Qed.

Lemma count_mono (X Y : gset A) :
  (∀ x, x ∈ X → P x → x ∈ Y ∧ Q x) → (size (filter P X) ≤ size (filter Q Y))%nat.
Proof. intros HPQ. apply subseteq_size. intros x. rewrite !elem_of_filter. naive_solver. Qed.

Lemma count_zero (X : gset A) x : size (filter P X) = 0%nat → x ∈ X → ¬ P x.
Proof.
  intros Hz Hx HP. apply size_empty_inv in Hz. 
  apply (not_elem_of_empty (C:=gset A) x). apply Hz. by apply elem_of_filter.
Qed.

(** Counting through an involution of the set. *)
Lemma count_invol (f : A → A) (X : gset A) :
  (∀ x, f (f x) = x) → (∀ x, x ∈ X → f x ∈ X) → (∀ x, x ∈ X → Q x ↔ P (f x)) →
  size (filter P X) = size (filter Q X).
Proof.
  intros Hf HX HQ.
  replace (filter Q X) with (list_to_set (f <$> elements (filter P X)) : gset A).
  - rewrite size_list_to_set; [by rewrite length_fmap|].
    apply NoDup_fmap_2; [|apply NoDup_elements]. intros x y Hxy.
    by rewrite <-(Hf x), Hxy, Hf.
  - apply set_eq. intros x. rewrite elem_of_list_to_set, list_elem_of_fmap, elem_of_filter. split.
    + intros (y & -> & Hy). rewrite elem_of_elements, elem_of_filter in Hy.
      rewrite HQ, Hf; naive_solver.
    + intros [Hq Hx]. exists (f x). rewrite Hf, elem_of_elements, elem_of_filter.
      rewrite <-HQ by done. naive_solver.
Qed.

Lemma count_pos (X : gset A) x : x ∈ X → P x → (0 < size (filter P X))%nat.
Proof.
  intros Hx HP. destruct (size (filter P X)) eqn:Hz; [|lia].
  exfalso. by eapply count_zero.
Qed.
End counting.

Lemma equal_f {A B} {f g : A → B} : f = g → ∀ x, f x = g x.
Proof. by intros ->. Qed.

(** What clearing one slot does to the counts. *)
Section cleared_counts.
Context (σ σ' : mdb_state) (s : slotptr) (old : N).
Context (Hin : s ∈ mem σ) (Hold : object σ s = Some old).
Context (Hobj : ∀ x, object σ' x = upd_fn (object σ) s None x) (Hmem : mem σ' = mem σ).

Lemma cleared_object x : object σ' x = if decide (x = s) then None else object σ x.
Proof. by rewrite Hobj. Qed.

Lemma cleared_names o : names σ o = (names σ' o + (if decide (o = old) then 1 else 0))%nat.
Proof.
  unfold names. case_decide as Ho; [subst o; rewrite Nat.add_1_r|rewrite Nat.add_0_r].
  - apply (count_remove _ _ _ _ s); rewrite ?Hmem; try done.
    + rewrite cleared_object, decide_True by done. naive_solver.
    + intros x Hx. by rewrite cleared_object, decide_False.
  - apply count_ext. intros x. rewrite Hmem, cleared_object. case_decide; naive_solver.
Qed.

Lemma cleared_anames o :
  anames σ o = (anames σ' o + (if decide (o = old ∧ slot_home s ≠ Some old) then 1 else 0))%nat.
Proof.
  unfold anames. case_decide as Ho; [destruct Ho as [-> Hh]; rewrite Nat.add_1_r|rewrite Nat.add_0_r].
  - apply (count_remove _ _ _ _ s); rewrite ?Hmem; try done.
    + rewrite cleared_object, decide_True by done. naive_solver.
    + intros x Hx. by rewrite cleared_object, decide_False.
  - apply count_ext. intros x. rewrite Hmem, cleared_object. case_decide; naive_solver.
Qed.

Lemma cleared_occupied : occupied σ = S (occupied σ').
Proof.
  unfold occupied. apply (count_remove _ _ _ _ s); rewrite ?Hmem.
  - done.
  - by rewrite Hold.
  - rewrite cleared_object, decide_True by done. intros [_ [? ?]]. done.
  - intros x Hx. by rewrite cleared_object, decide_False.
Qed.
End cleared_counts.

Lemma anames_le_names σ o : (anames σ o ≤ names σ o)%nat.
Proof. apply count_mono. naive_solver. Qed.

Lemma names_zero σ o s : names σ o = 0%nat → s ∈ mem σ → object σ s ≠ Some o.
Proof. apply (count_zero (λ s, object σ s = Some o)). Qed.

Lemma names_pos σ o s : s ∈ mem σ → object σ s = Some o → (0 < names σ o)%nat.
Proof. apply (count_pos (λ s, object σ s = Some o)). Qed.

(** ** The invariant *)

(** The types [kobject_dispatch_destroy] has a destructor for. *)
Definition destructible (t : kobject_type_t) : Prop :=
  match t with
  | KOBJ_PROCESS | KOBJ_CHANNEL | KOBJ_VMO | KOBJ_INITRD_ENTRY => False
  | _ => True
  end.

Definition queued κ o : Z := if decide (o ∈ cascade_queue κ) then 1 else 0.

Record kinv (hl ha : N → Z) κ : Prop := KInv {
  ki_mdb   : mdb_inv (mdb κ);
  ki_stack : object (mdb κ) OnStack = None;
  ki_smem  : OnStack ∈ mem (mdb κ);
  ki_mem   : ∀ cn i, InNode cn i ∈ mem (mdb κ) ↔ (i < cn_slots κ cn)%N;
  ki_types : ∀ o k, objs κ o = Some k →
    destructible (otype k) ∧ (otype k ≠ KOBJ_CNODE → slot_count k = 0%N);
  ki_queue : NoDup (cascade_queue κ);
  ki_hl    : ∀ o, 0 ≤ hl o ∧ 0 ≤ ha o;
  ki_refs  : ∀ o k, objs κ o = Some k →
    refcount k = Z.of_nat (names (mdb κ) o) + queued κ o + hl o ∧
    active_refs k = Z.of_nat (anames (mdb κ) o) + ha o ∧
    refcount k + active_refs k < 2 ^ 32;
  ki_dead  : ∀ o, objs κ o = None →
    names (mdb κ) o = 0%nat ∧ o ∉ cascade_queue κ ∧ hl o = 0;
}.

(** One more reference held outside the slots. *)
Definition hold (h : N → Z) o (n : Z) : N → Z := λ x, if decide (x = o) then h x + n else h x.

(** What a teardown may do to the rest of the state. *)
Record kshrinks κ κ' : Prop := KShrinks {
  ks_cdt  : cdt_shrinks (abs (mdb κ)) (abs (mdb κ'));
  ks_mem  : mem (mdb κ') ⊆ mem (mdb κ);
  ks_objs : ∀ o k', objs κ' o = Some k' →
    ∃ k, objs κ o = Some k ∧ otype k' = otype k ∧ slot_count k' = slot_count k;
}.

#[global] Instance kshrinks_preorder : PreOrder kshrinks.
Proof.
  split.
  - intros κ. constructor; [reflexivity|done|eauto].
  - intros κ1 κ2 κ3 [H1 H2 H3] [H5 H6 H7].
    constructor; [by etransitivity|set_solver|].
    intros o k Hk. apply H7 in Hk as (k2 & Hk2 & ? & ?).
    apply H3 in Hk2 as (k1 & ? & ? & ?). exists k1. split_and!; congruence.
Qed.

Lemma shrinks_object κ κ' s o :
  kshrinks κ κ' → object (mdb κ') s = Some o → object (mdb κ) s = Some o.
Proof.
  intros [[Hc _] _ _] Ho.
  specialize (Hc s (o, rights (mdb κ') s, badge (mdb κ') s)). simpl in Hc.
  rewrite Ho in Hc. specialize (Hc eq_refl). destruct (object (mdb κ) s); naive_solver.
Qed.

Lemma shrinks_empty κ κ' s :
  kshrinks κ κ' → object (mdb κ) s = None → object (mdb κ') s = None.
Proof.
  intros Hs Hn. destruct (object (mdb κ') s) eqn:Ho; [|done].
  apply (shrinks_object _ _ _ _ Hs) in Ho. congruence.
Qed.

Lemma shrinks_names κ κ' o :
  kshrinks κ κ' → (names (mdb κ') o ≤ names (mdb κ) o)%nat.
Proof.
  intros Hs. apply count_mono. intros s Hin Ho.
  split; [by apply (ks_mem _ _ Hs)|by eapply shrinks_object].
Qed.

Lemma shrinks_occupied κ κ' :
  kshrinks κ κ' → (occupied (mdb κ') ≤ occupied (mdb κ))%nat.
Proof.
  intros Hs. apply count_mono. intros s Hin [o Ho].
  split; [by apply (ks_mem _ _ Hs)|]. exists o. by eapply shrinks_object.
Qed.

Lemma shrinks_cn_slots κ κ' cn :
  kshrinks κ κ' → cn_slots κ' cn = 0%N ∨ cn_slots κ' cn = cn_slots κ cn.
Proof.
  intros Hs. unfold cn_slots. destruct (objs κ' cn) as [k'|] eqn:Hk; simpl; [|by left].
  right. destruct (ks_objs _ _ Hs _ _ Hk) as (k & -> & _ & ->). done.
Qed.

(** An object that gains a place on the queue was named by a slot, or is one
    of [P]. *)
Definition queue_from (P : N → Prop) κ κ' : Prop :=
  ∀ o, o ∈ cascade_queue κ' → o ∈ cascade_queue κ ∨ (0 < names (mdb κ) o)%nat ∨ P o.

Lemma queue_from_refl P κ : queue_from P κ κ.
Proof. unfold queue_from. auto. Qed.

Lemma queue_from_trans P κ1 κ2 κ3 :
  kshrinks κ1 κ2 → queue_from P κ1 κ2 → queue_from P κ2 κ3 → queue_from P κ1 κ3.
Proof.
  intros Hs H1 H2 o Ho. apply H2 in Ho as [Ho|[Ho|Ho]]; [by apply H1| |by auto].
  pose proof (shrinks_names _ _ o Hs). right. left. lia.
Qed.

Lemma slot_in_range_mem hl ha κ cn idx :
  kinv hl ha κ → slot_in_range κ cn idx = true ↔ InNode cn idx ∈ mem (mdb κ).
Proof. intros Hκ. unfold slot_in_range. rewrite N.ltb_lt. symmetry. apply Hκ. Qed.

(** ** One slot leaves the tree *)

Lemma hold_le h o n x : 0 ≤ n → h x ≤ hold h o n x.
Proof. unfold hold. case_decide; lia. Qed.

Lemma hold_same h o n : hold h o n o = h o + n.
Proof. unfold hold. by rewrite decide_True. Qed.

Lemma hold_ne h o n x : x ≠ o → hold h o n x = h x.
Proof. intros. unfold hold. by rewrite decide_False. Qed.

(** The references the cleared slot held are in the caller's hands. *)
Definition ha_of (ha : N → Z) (home : option N) old : N → Z :=
  if decide (home = Some old) then ha else hold ha old 1.

Lemma slot_cleared_kinv hl ha κ s old σ' :
  kinv hl ha κ → object (mdb κ) s = Some old → mdb_inv σ' → slot_cleared s (mdb κ) σ' →
  kinv (hold hl old 1) (ha_of ha (slot_home s) old) (with_mdb σ' κ).
Proof.
  intros Hκ Hold Hinv (Ho & _ & _ & _ & _ & _ & _ & Hm).
  assert (s ∈ mem (mdb κ)) as Hin.
  { destruct (decide (s ∈ mem (mdb κ))) as [|Hn]; [done|].
    apply (mi_dom _ (ki_mdb _ _ _ Hκ)) in Hn. congruence. }
  pose proof (cleared_names _ _ _ _ Hin Hold (equal_f Ho) Hm) as Hn.
  pose proof (cleared_anames _ _ _ _ Hin Hold (equal_f Ho) Hm) as Ha.
  destruct Hκ as [H1 H2 H3 H4 H5 H6 H7 H8 H9]. constructor; simpl; auto.
  - rewrite Ho. unfold upd_fn. by destruct (decide (OnStack = s)).
  - by rewrite Hm.
  - intros. rewrite Hm. apply H4.
  - intros o. pose proof (H7 o). unfold ha_of, hold. repeat (case_decide; simpl); lia.
  - intros o k Hk. destruct (H8 o k Hk) as (E1 & E2 & E3).
    specialize (Hn o). specialize (Ha o). unfold ha_of. clear -Hn Ha E1 E2 E3.
    change (queued (with_mdb σ' κ) o) with (queued κ o).
    destruct (decide (o = old)) as [->|Hne].
    + rewrite hold_same. destruct (decide (slot_home s = Some old)) as [Hh|Hh].
      * rewrite decide_False in Ha by tauto. split_and!; lia.
      * rewrite decide_True in Ha by done. rewrite hold_same. split_and!; lia.
    + rewrite hold_ne by done. rewrite decide_False in Ha by tauto.
      destruct (decide (slot_home s = Some old)); rewrite ?hold_ne by done; split_and!; lia.
  - intros o Hk. destruct (H9 o Hk) as (E1 & E2 & E3). specialize (Hn o).
    unfold hold. repeat case_decide; split_and!; try lia; done.
Qed.

Lemma slot_cleared_shrinks κ s σ' :
  mdb_inv (mdb κ) → slot_cleared s (mdb κ) σ' →
  cdt_eq (abs σ') (cdt_delete s (abs (mdb κ))) → kshrinks κ (with_mdb σ' κ).
Proof.
  intros Hinv (_ & _ & _ & _ & _ & _ & _ & Hm) Heq. constructor; simpl.
  - etransitivity; [apply cdt_delete_shrinks; apply Hinv|]. by apply cdt_eq_shrinks.
  - by rewrite Hm.
  - eauto.
Qed.

(** Counters do not matter to the invariant. *)
Lemma mdb_inv_ctr k n σ : mdb_inv (ctr_add k n σ) ↔ mdb_inv σ.
Proof. split; intros [[H1 H2] H3 H4 H5]; (constructor; [by constructor|assumption..]). Qed.

(** A capability keeps its object alive. *)
Lemma slot_object_live hl ha κ s o :
  kinv hl ha κ → object (mdb κ) s = Some o →
  ∃ k, objs κ o = Some k ∧ 1 ≤ refcount k ∧ s ∈ mem (mdb κ).
Proof.
  intros Hκ Ho.
  assert (s ∈ mem (mdb κ)) as Hin.
  { destruct (decide (s ∈ mem (mdb κ))) as [|Hn]; [assumption|].
    apply (mi_dom _ (ki_mdb _ _ _ Hκ)) in Hn. congruence. }
  pose proof (names_pos _ _ _ Hin Ho) as Hpos.
  destruct (objs κ o) as [k|] eqn:Hk; [|destruct (ki_dead _ _ _ Hκ o Hk); lia].
  exists k. split; [reflexivity|]. split; [|assumption].
  destruct (ki_refs _ _ _ Hκ o k Hk) as (E1 & _). pose proof (ki_hl _ _ _ Hκ o).
  assert (0 ≤ queued κ o) by (unfold queued; case_decide; lia). lia.
Qed.

Lemma kinv_ctr hl ha k n κ :
  kinv hl ha κ → kinv hl ha (with_mdb (ctr_add k n (mdb κ)) κ).
Proof.
  intros [H1 H2 H3 H4 H5 H6 H7 H8 H9]. constructor; [|assumption..]. by apply mdb_inv_ctr.
Qed.

Lemma kcnode_slot_delete_locked_spec hl ha cn idx κ :
  kinv hl ha κ →
  returns (kcnode_slot_delete_locked cn idx κ) (λ '(r, κ', old),
    kshrinks κ κ' ∧ cascade_queue κ' = cascade_queue κ ∧
    object (mdb κ') (InNode cn idx) = None ∧ old = object (mdb κ) (InNode cn idx) ∧
    r = (if slot_in_range κ cn idx then IRIS_OK else IRIS_ERR_INVALID_ARG) ∧
    match old with
    | None => κ' = κ
    | Some o => kinv (hold hl o 1) (ha_of ha (Some cn) o) κ' ∧
        occupied (mdb κ) = S (occupied (mdb κ')) ∧ (0 < names (mdb κ) o)%nat ∧
        cdt_eq (abs (mdb κ')) (cdt_delete (InNode cn idx) (abs (mdb κ)))
    end).
Proof.
  intros Hκ. pose proof (ki_mdb _ _ _ Hκ) as Hinv. unfold kcnode_slot_delete_locked.
  destruct (slot_in_range κ cn idx) eqn:Hr; simpl.
  - apply (slot_in_range_mem _ _ _ _ _ Hκ) in Hr.
    destruct (object (mdb κ) (InNode cn idx)) as [old|] eqn:Hold;
      [|split_and!; first [assumption|reflexivity]].
    rewrite (mi_owner _ Hinv) by congruence.
    destruct (detach_refines (InNode cn idx) (mdb κ) Hinv) as (σ' & -> & Hinv' & Hc & Heq).
    pose proof Hc as (Ho & _ & _ & _ & _ & _ & _ & Hm).
    set (κ' := with_mdb (ctr_add cdt_delete_count 1 σ') κ).
    assert (kshrinks κ κ') as Hsh.
    { etransitivity; [by eapply (slot_cleared_shrinks _ _ σ')|].
      constructor; [by apply cdt_eq_shrinks|done|eauto]. }
    assert (kinv (hold hl old 1) (ha_of ha (Some cn) old) κ') as Hk'
      by exact (kinv_ctr _ _ _ _ (with_mdb σ' κ)
           (slot_cleared_kinv _ _ _ (InNode cn idx) _ _ Hκ Hold Hinv' Hc)).
    assert (object (mdb κ') (InNode cn idx) = None)
      by (simpl; rewrite Ho; unfold upd_fn; by rewrite decide_True).
    assert (occupied (mdb κ) = S (occupied (mdb κ'))) by exact (cleared_occupied _ _ _ _ Hr Hold (equal_f Ho) Hm).
    assert (0 < names (mdb κ) old)%nat by (by eapply names_pos).
    cbn [returns of_assert mbind res_bind]. split_and!; first [assumption|reflexivity].
  - assert (object (mdb κ) (InNode cn idx) = None) as Hn.
    { apply (mi_dom _ Hinv). rewrite <-(slot_in_range_mem _ _ _ _ _ Hκ). congruence. }
    rewrite Hn. split_and!; reflexivity.
Qed.

(** ** Teardown: the hooks, the cascade and delete

    [td hl ha P κ κ']: the invariant holds again, the state only shrank, and
    what was queued was named by a slot or is in [P]. *)

Record td (hl ha : N → Z) (P : N → Prop) κ κ' : Prop := Td {
  td_inv : kinv hl ha κ';
  td_shr : kshrinks κ κ';
  td_que : queue_from P κ κ';
}.

Lemma td_refl hl ha P κ : kinv hl ha κ → td hl ha P κ κ.
Proof. intros Hκ. split; [assumption|reflexivity|apply queue_from_refl]. Qed.

(** Sequencing; the intermediate state may hold other references. *)
Lemma td_seq hl ha P κ1 κ2 κ3 :
  kshrinks κ1 κ2 → queue_from P κ1 κ2 → td hl ha P κ2 κ3 → td hl ha P κ1 κ3.
Proof.
  intros Hs Hq [Hi Hs' Hq']. split; [assumption|by etransitivity|by eapply queue_from_trans].
Qed.

Lemma td_weaken hl ha (P Q : N → Prop) κ κ' :
  (∀ o, P o → Q o ∨ (0 < names (mdb κ) o)%nat) → td hl ha P κ κ' → td hl ha Q κ κ'.
Proof.
  intros HPQ [Hi Hs Hq]. split; [assumption|assumption|].
  intros o [?|[?|?%HPQ]]%Hq; naive_solver.
Qed.

(** Changing the counts of one object to what the new holdings say. *)
Lemma kinv_upd_obj hl ha hl' ha' o k k' κ :
  kinv hl ha κ → objs κ o = Some k → otype k' = otype k → slot_count k' = slot_count k →
  (∀ x, x ≠ o → hl' x = hl x ∧ ha' x = ha x) → 0 ≤ hl' o → 0 ≤ ha' o →
  refcount k' = refcount k + (hl' o - hl o) → active_refs k' = active_refs k + (ha' o - ha o) →
  refcount k' + active_refs k' < 2 ^ 32 →
  kinv hl' ha' (with_objs (upd_fn (objs κ) o (Some k')) κ).
Proof.
  intros [H1 H2 H3 H4 H5 H6 H7 H8 H9] Hk Ht Hsc Hother Hl Ha Hr Har Hbd.
  constructor; simpl; try assumption.
  - intros cn i. rewrite H4. unfold cn_slots. simpl. unfold upd_fn.
    case_decide; [subst; by rewrite Hk; simpl; rewrite Hsc|done].
  - intros x kx. unfold upd_fn. case_decide; [|apply H5]. intros [= <-]. rewrite Ht, Hsc.
    subst. by apply (H5 o).
  - intros x. destruct (decide (x = o)) as [->|Hx]; [by split|].
    destruct (Hother x Hx) as [-> ->]. apply H7.
  - intros x kx. unfold upd_fn. case_decide as Hx.
    + intros [= <-]. subst x. destruct (H8 o k Hk) as (E1 & E2 & E3).
      change (queued _ o) with (queued κ o). split_and!; lia.
    + destruct (Hother x Hx) as [-> ->]. apply H8.
  - intros x. unfold upd_fn. case_decide as Hx; [done|].
    destruct (Hother x Hx) as [-> _]. apply H9.
Qed.

Lemma kshrinks_upd_obj o k k' κ :
  objs κ o = Some k → otype k' = otype k → slot_count k' = slot_count k →
  kshrinks κ (with_objs (upd_fn (objs κ) o (Some k')) κ).
Proof.
  intros Hk Ht Hs. constructor; simpl; [reflexivity|done|].
  intros x kx. unfold upd_fn. case_decide; [|eauto]. intros [= <-]. subst. eauto.
Qed.

Lemma kinv_live hl ha κ o : kinv hl ha κ → 1 ≤ hl o → ∃ k, objs κ o = Some k.
Proof.
  intros Hκ Hl. destruct (objs κ o) as [k|] eqn:Hk; [eauto|].
  destruct (ki_dead _ _ _ Hκ o Hk) as (_ & _ & ?). lia.
Qed.

Lemma upd_obj_Some o f k κ : objs κ o = Some k →
  upd_obj o f κ = with_objs (upd_fn (objs κ) o (Some (f k))) κ.
Proof. intros Hk. unfold upd_obj. by rewrite Hk. Qed.

Lemma kinv_emit hl ha e κ : kinv hl ha κ → kinv hl ha (emit e κ).
Proof. intros [H1 H2 H3 H4 H5 H6 H7 H8 H9]. constructor; assumption. Qed.

Lemma kshrinks_same κ κ' :
  mdb κ' = mdb κ → objs κ' = objs κ → kshrinks κ κ'.
Proof. intros Hm Ho. constructor; rewrite ?Hm, ?Ho; [reflexivity|done|eauto]. Qed.

Lemma td_emit hl ha P e κ κ' : td hl ha P κ κ' → td hl ha P κ (emit e κ').
Proof.
  intros [Hi Hs Hq]. split; [by apply kinv_emit| |assumption].
  etransitivity; [eassumption|]. by apply kshrinks_same.
Qed.

Lemma slot_indices_elem n i : i ∈ slot_indices n ↔ (i < n)%N.
Proof.
  unfold slot_indices. rewrite list_elem_of_fmap. split.
  - intros (j & -> & Hj%elem_of_seq). lia.
  - intros Hi. exists (N.to_nat i). rewrite N2Nat.id, elem_of_seq. split; [done|lia].
Qed.

Section teardown_specs.
Context (rec : N → N → kstate → res (iris_error_t * kstate)) (n : nat).

(** What delete promises for states with fewer than [n] occupied slots. *)
Definition rec_spec : Prop := ∀ hl ha cn idx κ,
  kinv hl ha κ → (occupied (mdb κ) < n)%nat →
  returns (rec cn idx κ) (λ '(_, κ'),
    td hl ha (λ _, False) κ κ' ∧ object (mdb κ') (InNode cn idx) = None).

Context (Hrec : rec_spec).
Implicit Types (P : N → Prop) (hl ha : N → Z).

Lemma empty_slots_loop_spec hl ha P l cn κ :
  kinv hl ha κ → (occupied (mdb κ) < n)%nat →
  returns (empty_slots_loop rec l cn κ) (λ κ',
    td hl ha P κ κ' ∧ ∀ i, i ∈ l → object (mdb κ') (InNode cn i) = None).
Proof.
  revert κ. induction l as [|i l IH]; intros κ Hκ Hocc; simpl.
  { split; [by apply td_refl|]. intros i Hi. by apply elem_of_nil in Hi. }
  apply returns_bind. eapply returns_mono; [by apply (Hrec hl ha)|].
  intros [r κ1] [Htd Hi]. apply (td_weaken _ _ _ P) in Htd; [|done].
  pose proof (shrinks_occupied _ _ (td_shr _ _ _ _ _ Htd)).
  eapply returns_mono; [apply IH; [apply Htd|lia]|].
  intros κ2 [Htd2 Hl]. split; [by eapply td_seq; [apply Htd|apply Htd|]|].
  intros j [->|Hj]%elem_of_cons; [|by apply Hl].
  eapply shrinks_empty; [apply Htd2|done].
Qed.

Lemma kcnode_empty_slots_spec hl ha P cn κ :
  kinv hl ha κ → (occupied (mdb κ) < n)%nat →
  returns (kcnode_empty_slots rec cn κ) (λ κ',
    td hl ha P κ κ' ∧ ∀ i, (i < cn_slots κ cn)%N → object (mdb κ') (InNode cn i) = None).
Proof.
  intros Hκ Hocc. eapply returns_mono; [by apply (empty_slots_loop_spec hl ha P)|].
  intros κ' [Htd Hl]. split; [assumption|]. intros i Hi. by apply Hl, slot_indices_elem.
Qed.

(** Ending the storage of an object nothing refers to. *)
Lemma kinv_free hl ha κ o (X : gset slotptr) :
  kinv hl ha κ → names (mdb κ) o = 0%nat → o ∉ cascade_queue κ → hl o = 0 →
  (∀ s, s ∈ X ↔ s ∈ mem (mdb κ) ∧ slot_home s = Some o) →
  (∀ s, s ∈ X → object (mdb κ) s = None) →
  let σ := mdb κ in
  kinv hl ha (with_mdb (MdbState (lk σ) (object σ) (rights σ) (badge σ) (mdb_cnode σ)
      (mdb_flags σ) (guard σ) (guard_bits σ) (mem σ ∖ X) (ctr σ))
    (with_objs (upd_fn (objs κ) o None) κ)).
Proof.
  intros Hκ Hn Hq Hl HX Hempty σ.
  assert (∀ x, names (mdb κ) x = size (filter (λ s, object σ s = Some x) (mem σ ∖ X))) as Hnx.
  { intros x. apply count_ext. intros s. rewrite elem_of_difference. naive_solver. }
  assert (∀ x, anames (mdb κ) x =
    size (filter (λ s, object σ s = Some x ∧ slot_home s ≠ Some x) (mem σ ∖ X))) as Hax.
  { intros x. apply count_ext. intros s. rewrite elem_of_difference. naive_solver. }
  destruct Hκ as [[[H1a H1b] H1c H1d H1e] H2 H3 H4 H5 H6 H7 H8 H9].
  constructor; simpl; try assumption.
  - constructor; simpl; [constructor; simpl|..]; try assumption.
    + intros s Hs. destruct (decide (s ∈ X)) as [HsX|HsX].
      * by apply H1c, Hempty.
      * apply H1b. set_solver.
    + intros s Hs. destruct (decide (s ∈ X)); [by apply Hempty|]. apply H1e. set_solver.
  - apply elem_of_difference. split; [done|]. rewrite HX. simpl. naive_solver.
  - intros cn i. rewrite elem_of_difference, HX, H4. simpl. unfold cn_slots, upd_fn.
    simpl. case_decide; subst; simpl; [|naive_solver].
    split; [|lia]. intros [Hi Hn']. destruct Hn'. split; [by apply H4|done].
  - intros x kx. unfold upd_fn. case_decide; [done|]. apply H5.
  - intros x kx. unfold upd_fn. case_decide; [done|]. intros Hk.
    destruct (H8 x kx Hk) as (E1 & E2 & E3). unfold names, anames. simpl.
    rewrite <-Hnx, <-Hax. split_and!; assumption.
  - intros x. unfold names. simpl. rewrite <-Hnx. unfold upd_fn. case_decide; [by subst|apply H9].
Qed.

(** A count of zero: nothing names the object, queues it or holds it. *)
Lemma refcount_zero hl ha κ o k :
  kinv hl ha κ → objs κ o = Some k → refcount k = 0 →
  names (mdb κ) o = 0%nat ∧ o ∉ cascade_queue κ ∧ hl o = 0.
Proof.
  intros Hκ Hk Hr. destruct (ki_refs _ _ _ Hκ o k Hk) as (E1 & _ & _).
  pose proof (ki_hl _ _ _ Hκ o). unfold queued in E1.
  destruct (decide (o ∈ cascade_queue κ)); split_and!; try done; lia.
Qed.

Lemma free_shrinks κ o (X : gset slotptr) :
  let σ := mdb κ in
  kshrinks κ (with_mdb (MdbState (lk σ) (object σ) (rights σ) (badge σ) (mdb_cnode σ)
      (mdb_flags σ) (guard σ) (guard_bits σ) (mem σ ∖ X) (ctr σ))
    (with_objs (upd_fn (objs κ) o None) κ)).
Proof.
  intros σ. constructor; simpl.
  - apply cdt_eq_shrinks. done.
  - set_solver.
  - intros x k. unfold upd_fn. case_decide; [done|eauto].
Qed.

Lemma kcnode_obj_destroy_spec hl ha P κ o k :
  kinv hl ha κ → (occupied (mdb κ) < n)%nat → objs κ o = Some k → refcount k = 0 →
  returns (kcnode_obj_destroy rec o κ) (td hl ha P κ).
Proof.
  intros Hκ Hocc Hk Hr. destruct (refcount_zero _ _ _ _ _ Hκ Hk Hr) as (Hn & Hq & Hl).
  unfold kcnode_obj_destroy. apply returns_bind.
  eapply returns_mono; [by apply (kcnode_empty_slots_spec hl ha (λ _, False))|].
  intros κ1 [Htd Hem]. pose proof Htd as [Hκ1 Hs1 Hq1].
  set (X := list_to_set (InNode o <$> slot_indices (cn_slots κ o)) : gset slotptr).
  set (κ2 := with_live (u32 (kcnode_live κ1 - 1)) κ1).
  assert (kinv hl ha κ2) as Hκ2 by (destruct Hκ1; constructor; assumption).
  assert (∀ s, s ∈ X ∩ mem (mdb κ2) ↔ s ∈ mem (mdb κ2) ∧ slot_home s = Some o) as HX.
  { intros s. rewrite elem_of_intersection. unfold X. rewrite elem_of_list_to_set, list_elem_of_fmap.
    split.
    - intros [(i & -> & Hi) ?]. done.
    - intros [Hs Hh]. split; [|done]. destruct s as [cn i|]; [|done].
      injection Hh as ->. exists i. split; [done|]. apply slot_indices_elem.
      apply (ki_mem _ _ _ Hκ1) in Hs. pose proof (shrinks_cn_slots _ _ o Hs1). lia. }
  assert (mem (mdb κ2) ∖ X = mem (mdb κ2) ∖ (X ∩ mem (mdb κ2))) as HXeq by set_solver.
  assert (∀ s, s ∈ X ∩ mem (mdb κ2) → object (mdb κ2) s = None) as Hempty.
  { intros s Hs. unfold X in Hs. apply elem_of_intersection in Hs as [Hs _].
    apply elem_of_list_to_set, list_elem_of_fmap in Hs as (i & -> & Hi).
    by apply Hem, slot_indices_elem. }
  pose proof (shrinks_names _ _ o Hs1).
  assert (o ∉ cascade_queue κ1) as Hq2 by (intros [|[|]]%Hq1; [done|lia|done]).
  simpl. apply td_emit. split.
  - change (mdb κ1) with (mdb κ2). change (mem (mdb κ2) ∖ _) with (mem (mdb κ2) ∖ X).
    rewrite HXeq. apply (kinv_free hl ha κ2); try assumption. simpl. lia.
  - etransitivity; [exact Hs1|]. etransitivity; [apply (kshrinks_same κ1 κ2); reflexivity|].
    apply (free_shrinks κ2).
  - intros x Hx. simpl in Hx. destruct (Hq1 x Hx) as [|[|[]]]; auto.
Qed.

Lemma dispatch_destroy_spec hl ha P κ o k :
  kinv hl ha κ → (occupied (mdb κ) < n)%nat → objs κ o = Some k → refcount k = 0 →
  returns (dispatch_destroy rec o κ) (td hl ha P κ).
Proof.
  intros Hκ Hocc Hk Hr. destruct (refcount_zero _ _ _ _ _ Hκ Hk Hr) as (Hn & Hq & Hl).
  unfold dispatch_destroy, kobject_dispatch_destroy, get_obj. rewrite Hk. simpl.
  destruct (ki_types _ _ _ Hκ o k Hk) as [Hd Hsc].
  assert (otype k ≠ KOBJ_CNODE →
    td hl ha P κ (emit (EvDestroy o) (with_objs (upd_fn (objs κ) o None) κ))) as Hother.
  { intros Hne. apply td_emit.
    assert (with_objs (upd_fn (objs κ) o None) κ =
      with_mdb (let σ := mdb κ in MdbState (lk σ) (object σ) (rights σ) (badge σ) (mdb_cnode σ)
        (mdb_flags σ) (guard σ) (guard_bits σ) (mem σ ∖ ∅) (ctr σ))
        (with_objs (upd_fn (objs κ) o None) κ)) as Heq.
    { simpl. rewrite difference_empty_L. by destruct κ as [[]]. }
    rewrite Heq. split.
    - apply (kinv_free hl ha κ o ∅); try assumption; [|set_solver].
      intros s. split; [set_solver|]. intros [Hs Hh]. destruct s as [cn i|]; [|done].
      injection Hh as ->. apply (ki_mem _ _ _ Hκ) in Hs. unfold cn_slots in Hs.
      rewrite Hk in Hs. simpl in Hs. rewrite Hsc in Hs by done. lia.
    - apply free_shrinks.
    - intros x Hx. by left. }
  destruct (otype k) eqn:Ht; simpl in Hd; try contradiction;
    solve [by eapply kcnode_obj_destroy_spec | by apply Hother].
Qed.

Lemma kobject_release_spec hl ha P κ o :
  kinv (hold hl o 1) ha κ → 0 ≤ hl o → (occupied (mdb κ) < n)%nat →
  returns (kobject_release (dispatch_destroy rec) o κ) (td hl ha P κ).
Proof.
  intros Hκ Hlo Hocc.
  destruct (kinv_live _ _ _ o Hκ) as [k Hk]; [rewrite hold_same; lia|].
  destruct (ki_refs _ _ _ Hκ o k Hk) as (E1 & E2 & E3). rewrite hold_same in *.
  pose proof (ki_hl _ _ _ Hκ o) as [_ Hao].
  assert (0 ≤ queued κ o ≤ 1) by (unfold queued; case_decide; lia).
  unfold kobject_release, get_obj. rewrite Hk. simpl.
  rewrite (upd_obj_Some _ _ _ _ Hk), u32_id by lia.
  rewrite (proj2 (Z.leb_le 1 (refcount k))) by lia. simpl.
  set (κ1 := with_objs (upd_fn (objs κ) o (Some (set_refcount (refcount k - 1) k))) κ).
  assert (kinv hl ha κ1) as Hκ1.
  { eapply kinv_upd_obj; try eassumption; simpl; try done; rewrite ?hold_same; try lia.
    intros x Hx. by rewrite hold_ne. }
  assert (kshrinks κ κ1) as Hs1 by (by eapply kshrinks_upd_obj).
  destruct (Z.eqb_spec (refcount k) 1) as [Hr|Hr]; simpl.
  - eapply returns_mono; [eapply (dispatch_destroy_spec hl ha P κ1 o); try assumption|].
    + unfold κ1. simpl. unfold upd_fn. by rewrite decide_True.
    + simpl. lia.
    + intros κ2 Htd. eapply td_seq; [exact Hs1| |exact Htd]. intros x Hx. by left.
  - split; [assumption..|]. intros x Hx. by left.
Qed.

(** An object stops being queued: the queue's reference is the caller's. *)
Lemma kinv_dequeue hl ha κ o q b :
  kinv hl ha κ → cascade_queue κ = o :: q →
  kinv (hold hl o 1) ha (with_cascade q b κ) ∧ o ∉ q.
Proof.
  intros [H1 H2 H3 H4 H5 H6 H7 H8 H9] Hq. rewrite Hq in H6.
  apply NoDup_cons in H6 as [Ho Hnd]. split; [|assumption].
  constructor; simpl; try assumption.
  - intros x. pose proof (H7 x). pose proof (hold_le hl o 1 x). lia.
  - intros x k Hk. destruct (H8 x k Hk) as (E1 & E2 & E3). unfold queued in *.
    simpl. rewrite Hq in E1.
    destruct (decide (x = o)) as [->|Hx].
    + rewrite hold_same. rewrite decide_True in E1 by set_solver.
      rewrite decide_False by done. split_and!; lia.
    + rewrite hold_ne by done. destruct (decide (x ∈ q)).
      * rewrite decide_True in E1 by set_solver. split_and!; lia.
      * rewrite decide_False in E1 by set_solver. split_and!; lia.
  - intros x Hx. destruct (H9 x Hx) as (E1 & E2 & E3). rewrite Hq in E2.
    rewrite hold_ne by set_solver. split_and!; [assumption|set_solver|assumption].
Qed.

Lemma kinv_enqueue hl ha κ cn k b :
  kinv hl ha κ → objs κ cn = Some k → cn ∉ cascade_queue κ →
  refcount k + active_refs k + 1 < 2 ^ 32 →
  kinv hl ha (with_cascade (cn :: cascade_queue κ) b
    (with_objs (upd_fn (objs κ) cn (Some (set_refcount (refcount k + 1) k))) κ)).
Proof.
  intros [H1 H2 H3 H4 H5 H6 H7 H8 H9] Hk Hq Hb. constructor; simpl; try assumption.
  - intros x i. rewrite H4. unfold cn_slots, upd_fn. simpl. case_decide; [subst x; by rewrite Hk|done].
  - intros x kx. unfold upd_fn. case_decide; [|apply H5]. intros [= <-]. subst x. exact (H5 cn k Hk).
  - by apply NoDup_cons.
  - intros x kx. unfold upd_fn, queued. simpl. destruct (decide (x = cn)) as [->|Hx].
    + intros [= <-]. simpl. destruct (H8 cn k Hk) as (E1 & E2 & E3). unfold queued in E1.
      rewrite decide_False in E1 by done. rewrite decide_True by set_solver. split_and!; lia.
    + intros Hkx. destruct (H8 x kx Hkx) as (E1 & E2 & E3). unfold queued in E1.
      destruct (decide (x ∈ cascade_queue κ)).
      * rewrite decide_True by set_solver. split_and!; lia.
      * rewrite decide_False by set_solver. split_and!; lia.
  - intros x. unfold upd_fn. case_decide; [done|]. intros Hx.
    destruct (H9 x Hx) as (E1 & E2 & E3). split_and!; [assumption|set_solver|assumption].
Qed.

Lemma kinv_cascade hl ha κ b : kinv hl ha κ → kinv hl ha (with_cascade (cascade_queue κ) b κ).
Proof. intros [H1 H2 H3 H4 H5 H6 H7 H8 H9]. constructor; assumption. Qed.

Lemma td_cascade hl ha P κ b κ' :
  td hl ha P (with_cascade (cascade_queue κ) b κ) κ' → td hl ha P κ κ'.
Proof.
  apply td_seq; [by apply kshrinks_same|]. intros x Hx. by left.
Qed.

Lemma kcnode_cascade_drain_spec hl ha P budget κ :
  kinv hl ha κ → (occupied (mdb κ) < n)%nat →
  returns (kcnode_cascade_drain rec budget κ) (td hl ha P κ).
Proof.
  revert κ. induction budget as [|budget IH]; intros κ Hκ Hocc; simpl;
    destruct (cascade_queue κ) as [|o q] eqn:Hq; simpl.
  1-3: rewrite <-Hq; eapply td_cascade, td_refl, kinv_cascade; assumption.
  destruct (kinv_dequeue _ _ _ _ _ (cascade_running κ) Hκ Hq) as [Hκ1 Ho].
  set (κ1 := with_cascade q (cascade_running κ) κ) in *.
  apply returns_bind. eapply returns_mono;
    [by apply (kcnode_empty_slots_spec (hold hl o 1) ha P)|].
  intros κ2 [[Hκ2 Hs2 Hq2] _]. apply returns_bind.
  pose proof (shrinks_occupied _ _ Hs2) as Hocc2. change (mdb κ1) with (mdb κ) in Hocc2.
  eapply returns_mono; [apply (kobject_release_spec hl ha P κ2 o Hκ2)|].
  { apply (ki_hl _ _ _ Hκ). }
  { lia. }
  intros κ3 [Hκ3 Hs3 Hq3]. pose proof (shrinks_occupied _ _ Hs3).
  eapply returns_mono; [apply IH; [exact Hκ3|lia]|]. intros κ4 Htd.
  assert (kshrinks κ κ1) as Hs1 by (by apply kshrinks_same).
  assert (queue_from P κ κ1) as Hq1 by (intros x Hx; left; rewrite Hq; by right).
  eapply td_seq; [exact Hs1|exact Hq1|]. eapply td_seq; [exact Hs2|exact Hq2|].
  eapply td_seq; [exact Hs3|exact Hq3|exact Htd].
Qed.

Lemma kcnode_cascade_spec hl ha κ cn k :
  kinv hl ha κ → (occupied (mdb κ) < n)%nat → objs κ cn = Some k → 1 ≤ hl cn →
  refcount k + active_refs k + 1 < 2 ^ 32 →
  returns (kcnode_cascade rec cn κ) (td hl ha (λ x, x = cn) κ).
Proof.
  intros Hκ Hocc Hk Hl Hb. unfold kcnode_cascade.
  destruct (ki_refs _ _ _ Hκ cn k Hk) as (E1 & E2 & E3).
  pose proof (ki_hl _ _ _ Hκ cn) as [_ Hao].
  assert (0 ≤ queued κ cn) by (unfold queued; case_decide; lia).
  destruct (cascade_running κ).
  - case_bool_decide as Hq; [by apply td_refl|].
    unfold kobject_retain, get_obj. rewrite Hk. simpl.
    rewrite (proj2 (Z.leb_le 1 (refcount k))) by lia. simpl.
    rewrite (upd_obj_Some _ _ _ _ Hk), u32_id by lia. split.
    + by apply kinv_enqueue.
    + etransitivity; [apply (kshrinks_upd_obj cn k (set_refcount (refcount k + 1) k)); [exact Hk|..]; reflexivity|].
      apply kshrinks_same; reflexivity.
    + intros x [->|Hx]%elem_of_cons; [by right; right|by left].
  - apply returns_bind.
    eapply returns_mono; [apply (kcnode_empty_slots_spec hl ha (λ x, x = cn));
      [by apply kinv_cascade|assumption]|].
    intros κ1 [[Hκ1 Hs1 Hq1] _]. pose proof (shrinks_occupied _ _ Hs1) as Hocc1.
    change (mdb (with_cascade _ _ κ)) with (mdb κ) in Hocc1.
    eapply returns_mono; [apply (kcnode_cascade_drain_spec hl ha (λ x, x = cn)); [assumption|lia]|].
    intros κ2 Htd. eapply td_cascade. eapply td_seq; [exact Hs1|exact Hq1|exact Htd].
Qed.

Lemma kobject_active_release_spec hl ha κ o :
  kinv hl (hold ha o 1) κ → 1 ≤ hl o → 0 ≤ ha o → (occupied (mdb κ) < n)%nat →
  returns (kobject_active_release (dispatch_close rec) o κ) (td hl ha (λ x, x = o) κ).
Proof.
  intros Hκ Hlo Hao Hocc. destruct (kinv_live _ _ _ o Hκ Hlo) as [k Hk].
  destruct (ki_refs _ _ _ Hκ o k Hk) as (E1 & E2 & E3). rewrite hold_same in *.
  assert (0 ≤ queued κ o) by (unfold queued; case_decide; lia).
  unfold kobject_active_release, get_obj. rewrite Hk. simpl.
  rewrite (upd_obj_Some _ _ _ _ Hk), u32_id by lia.
  rewrite (proj2 (Z.leb_le 1 (active_refs k))) by lia. simpl.
  set (k' := set_active_refs (active_refs k - 1) k).
  set (κ1 := with_objs (upd_fn (objs κ) o (Some k')) κ).
  assert (objs κ1 o = Some k') as Hk1 by (simpl; unfold upd_fn; by rewrite decide_True).
  assert (kinv hl ha κ1) as Hκ1.
  { eapply kinv_upd_obj; try eassumption; simpl; try done; rewrite ?hold_same; try lia.
    intros x Hx. by rewrite hold_ne. }
  assert (kshrinks κ κ1) as Hs1 by (by eapply kshrinks_upd_obj).
  assert (queue_from (λ x, x = o) κ κ1) as Hq1 by (intros x Hx; by left).
  assert (td hl ha (λ x, x = o) κ κ1) as Htd1 by (split; assumption).
  destruct (Z.eqb_spec (active_refs k) 1) as [Hr|Hr]; simpl; [|assumption].
  unfold dispatch_close, kobject_dispatch_close, get_obj. rewrite Hk1. simpl.
  destruct (otype k); simpl; try (by apply td_emit); try assumption.
  eapply returns_mono; [eapply (kcnode_cascade_spec hl ha κ1 o k'); try assumption; simpl; lia|].
  intros κ2 Htd. eapply td_seq; eassumption.
Qed.

Lemma kcnode_slot_drop_old_spec hl ha cn o κ :
  kinv (hold hl o 1) (ha_of ha (Some cn) o) κ → 0 ≤ hl o → 0 ≤ ha o →
  (occupied (mdb κ) < n)%nat →
  returns (kcnode_slot_drop_old rec cn (Some o) κ) (td hl ha (λ x, x = o) κ).
Proof.
  intros Hκ Hlo Hao Hocc. unfold kcnode_slot_drop_old. apply returns_bind.
  assert (returns (if (o =? cn)%N then Ret κ
      else kobject_active_release (dispatch_close rec) o κ)
    (td (hold hl o 1) ha (λ x, x = o) κ)) as Hact.
  { unfold ha_of in Hκ. destruct (N.eqb_spec o cn) as [->|Hne].
    - rewrite decide_True in Hκ by done. by apply td_refl.
    - rewrite decide_False in Hκ by congruence.
      apply kobject_active_release_spec; try assumption. rewrite hold_same. lia. }
  eapply returns_mono; [exact Hact|]. intros κ1 [Hκ1 Hs1 Hq1].
  destruct (kinv_live _ _ _ o Hκ1) as [k Hk]; [rewrite hold_same; lia|].
  unfold get_obj. rewrite Hk. cbn [of_assert mbind res_bind].
  pose proof (shrinks_occupied _ _ Hs1).
  set (κ2 := match otype k with KOBJ_FRAME | KOBJ_PAGE_TABLE => _ | _ => κ1 end).
  assert (td (hold hl o 1) ha (λ x, x = o) κ1 κ2) as [Hκ2 Hs2 Hq2].
  { assert (td (hold hl o 1) ha (λ x, x = o) κ1 κ1) by (by apply td_refl).
    subst κ2. destruct (otype k); first [assumption|by apply td_emit]. }
  pose proof (shrinks_occupied _ _ Hs2).
  eapply returns_mono; [apply (kobject_release_spec hl ha (λ x, x = o)); [assumption..|lia]|].
  intros κ3 Htd. eapply td_seq; [exact Hs1|exact Hq1|]. eapply td_seq; eassumption.
Qed.

Lemma slot_delete_body_spec hl ha cn idx κ :
  kinv hl ha κ → (occupied (mdb κ) < S n)%nat →
  returns (slot_delete_body rec cn idx κ) (λ '(r, κ'),
    (td hl ha (λ _, False) κ κ' ∧ object (mdb κ') (InNode cn idx) = None) ∧
    r = (if slot_in_range κ cn idx then IRIS_OK else IRIS_ERR_INVALID_ARG)).
Proof.
  intros Hκ Hocc. unfold slot_delete_body. apply returns_bind.
  eapply returns_mono; [by apply (kcnode_slot_delete_locked_spec hl ha)|].
  intros [[r κ1] old] (Hs1 & Hq1 & He & _ & Hr & Hold). apply returns_bind.
  destruct old as [o|].
  - destruct Hold as (Hκ1 & Hocc1 & Hn & _).
    destruct (ki_hl _ _ _ Hκ o) as [Hlo Hao].
    eapply returns_mono; [apply (kcnode_slot_drop_old_spec hl ha); try assumption; lia|].
    intros κ2 Htd. simpl. split; [split|assumption].
    + apply (td_weaken _ _ (λ x, x = o)); [intros x ->; by right|].
      eapply td_seq; [exact Hs1| |exact Htd]. intros x Hx. rewrite Hq1 in Hx. by left.
    + eapply shrinks_empty; [apply Htd|assumption].
  - subst κ1. simpl. split; [split; [by apply td_refl|assumption]|assumption].
Qed.
End teardown_specs.

(** ** The knot tied: the fuel is never exhausted *)

Lemma slot_delete_spec fuel : rec_spec (slot_delete fuel) fuel.
Proof.
  induction fuel as [|fuel IH]; intros hl ha cn idx κ Hκ Hocc; [lia|].
  simpl. eapply returns_mono; [apply (slot_delete_body_spec _ fuel IH hl ha); assumption|].
  intros [r κ'] [H _]. exact H.
Qed.

Lemma slot_fuel_enough κ : (occupied (mdb κ) < slot_fuel κ)%nat.
Proof.
  unfold slot_fuel, occupied. apply le_n_S, subseteq_size. intros s. rewrite elem_of_filter. tauto.
Qed.

Lemma drop_old_spec hl ha cn o κ :
  kinv (hold hl o 1) (ha_of ha (Some cn) o) κ → 0 ≤ hl o → 0 ≤ ha o →
  returns (drop_old cn (Some o) κ) (td hl ha (λ x, x = o) κ).
Proof.
  intros. unfold drop_old. apply (kcnode_slot_drop_old_spec _ _ (slot_delete_spec (slot_fuel κ)));
    [assumption..|apply slot_fuel_enough].
Qed.

Lemma release_spec hl ha P o κ :
  kinv (hold hl o 1) ha κ → 0 ≤ hl o → returns (release o κ) (td hl ha P κ).
Proof.
  intros. unfold release. apply (kobject_release_spec _ _ (slot_delete_spec (slot_fuel κ)));
    [assumption..|apply slot_fuel_enough].
Qed.

Lemma active_release_spec hl ha o κ :
  kinv hl (hold ha o 1) κ → 1 ≤ hl o → 0 ≤ ha o →
  returns (active_release o κ) (td hl ha (λ x, x = o) κ).
Proof.
  intros. unfold active_release. apply (kobject_active_release_spec _ _ (slot_delete_spec (slot_fuel κ)));
    [assumption..|apply slot_fuel_enough].
Qed.
