(* ===== verification/KcnodeRevoke.v ===== *)
(** * Delete and revoke

    What [kcnode_slot_delete] and [kcnode_slot_revoke_bounded] promise, proved
    from the teardown specifications of [KcnodeInv.v]: they return, the
    invariant holds again, nothing but the victims changes unless a CNode dies
    on the way, and after a full revoke no descendant of the slot is left. *)

From Stdlib Require Import ZArith Lia.
From stdpp Require Import base numbers gmap list.
From S2P Require Import Prelude Rights Forest Mdb Cdt Kobject Kcnode KcnodeInv.
Local Open Scope Z_scope.
Implicit Types (σ : mdb_state) (κ : kstate) (o cn idx : N) (s : slotptr).

(** ** Dropping the references of an object that is not a CNode *)

Definition not_cnode κ o : Prop := ∀ k, objs κ o = Some k → otype k ≠ KOBJ_CNODE.

Lemma drop_old_frame rec cn o κ κ' :
  not_cnode κ o → kcnode_slot_drop_old rec cn (Some o) κ = Ret κ' →
  mdb κ' = mdb κ ∧ (∀ x, not_cnode κ x → not_cnode κ' x).
Proof.
  unfold kcnode_slot_drop_old. intros Hnc Hd.
  apply res_bind_Ret in Hd as (κ1 & H1 & Hd).
  assert (mdb κ1 = mdb κ ∧ ∀ x, not_cnode κ x → not_cnode κ1 x) as [Hm1 Hn1].
  { destruct (o =? cn)%N; [by injection H1 as ->|].
    unfold kobject_active_release, get_obj in H1.
    destruct (objs κ o) as [k|] eqn:Hk; [|done]. simpl in H1.
    destruct (1 <=? active_refs k); simpl in H1; [|done].
    set (κ2 := upd_obj o _ κ) in H1.
    assert (∀ x, not_cnode κ x → not_cnode κ2 x) as Hn2.
    { intros x Hx kx. unfold κ2. rewrite (upd_obj_Some _ _ _ _ Hk). simpl. unfold upd_fn.
      case_decide; [|apply Hx]. intros [= <-]. subst x. exact (Hnc k Hk). }
    destruct (active_refs k =? 1); [|by injection H1 as <-].
    unfold dispatch_close, kobject_dispatch_close, get_obj in H1.
    destruct (objs κ2 o) as [k2|] eqn:Hk2; [|done]. simpl in H1.
    pose proof (Hn2 o Hnc k2 Hk2).
    destruct (otype k2); simplify_eq; split; solve [reflexivity | exact Hn2]. }
  apply res_bind_Ret in Hd as (k & Hk & Hd). unfold get_obj in Hk.
  destruct (objs κ1 o) as [k'|] eqn:Hk1; [|done]. injection Hk as ->.
  set (κ2 := match otype k with KOBJ_FRAME | KOBJ_PAGE_TABLE => _ | _ => κ1 end) in Hd.
  assert (mdb κ2 = mdb κ1 ∧ objs κ2 = objs κ1) as [Hm2 Ho2] by (unfold κ2; destruct (otype k); split; reflexivity).
  pose proof (Hn1 o Hnc k Hk1) as Hnk. clearbody κ2.
  unfold kobject_release, get_obj in Hd. rewrite Ho2, Hk1 in Hd. simpl in Hd.
  rewrite <-Ho2 in Hk1.
  destruct (1 <=? refcount k); simpl in Hd; [|done].
  rewrite (upd_obj_Some _ _ _ _ Hk1) in Hd.
  set (κ3 := with_objs _ κ2) in Hd.
  assert (∀ x, not_cnode κ x → not_cnode κ3 x) as Hn3.
  { intros x Hx kx. unfold κ3. simpl. unfold upd_fn.
    case_decide; [|rewrite Ho2; by apply Hn1]. intros [= <-]. done. }
  destruct (refcount k =? 1); [|injection Hd as <-; split; [simpl; congruence|done]].
  unfold dispatch_destroy, kobject_dispatch_destroy, get_obj in Hd.
  destruct (objs κ3 o) as [k3|] eqn:Hk3; [|done]. simpl in Hd.
  pose proof (Hn3 o Hnc k3 Hk3) as Hnk3.
  assert (∀ x, not_cnode κ x →
    not_cnode (emit (EvDestroy o) (with_objs (upd_fn (objs κ3) o None) κ3)) x) as Hn4.
  { intros x Hx kx. change (upd_fn (objs κ3) o None x = Some kx → otype kx ≠ KOBJ_CNODE).
    unfold upd_fn at 1. case_decide; [done|]. by apply Hn3. }
  destruct (otype k3); try done; injection Hd as <-; (split; [simpl; congruence|exact Hn4]).
Qed.

(** ** Dropping references that are not the last

    Nothing but frames and page tables then leaves a trace, the request to finalise
    their mappings. *)

Definition only_finalised κ κ' : Prop := ∃ l, events κ' = events κ ++ (EvFinaliseOrphans <$> l).

#[global] Instance only_finalised_preorder : PreOrder only_finalised.
Proof.
  split.
  - intros κ. exists []. by rewrite app_nil_r.
  - intros κ1 κ2 κ3 [l1 H1] [l2 H2]. exists (l1 ++ l2). by rewrite H2, H1, fmap_app, app_assoc.
Qed.

(** Object [o] is referred to from outside the slots, or from a slot in [X] that is
    not its own. *)
Definition kept (hl ha : N → Z) (X : slotptr → Prop) κ o : Prop :=
  (1 ≤ hl o ∧ 1 ≤ ha o) ∨ ∃ x, X x ∧ object (mdb κ) x = Some o ∧ slot_home x ≠ Some o.

Lemma drop_old_kept hl ha rec cn o κ κ' X :
  kinv (hold hl o 1) (ha_of ha (Some cn) o) κ → 0 ≤ hl o → 0 ≤ ha o → kept hl ha X κ o →
  kcnode_slot_drop_old rec cn (Some o) κ = Ret κ' → mdb κ' = mdb κ ∧ only_finalised κ κ'.
Proof.
  intros Hκ Hl Ha Hkept Hd. unfold kcnode_slot_drop_old in Hd.
  apply res_bind_Ret in Hd as (κ1 & H1 & Hd). apply res_bind_Ret in Hd as (k1 & Hk1 & Hd).
  assert (∃ k, objs κ o = Some k ∧ 2 ≤ refcount k ∧ (o ≠ cn → 2 ≤ active_refs k)) as (k & Hk & Hr & Hac).
  { assert (∃ k, objs κ o = Some k) as [k Hk].
    { destruct (objs κ o) as [k|] eqn:E; [by exists k|]. destruct (ki_dead _ _ _ Hκ o E) as (_ & _ & E1).
      unfold hold in E1. rewrite decide_True in E1 by done. lia. }
    exists k. split; [done|]. destruct (ki_refs _ _ _ Hκ o k Hk) as (E1 & E2 & _).
    rewrite hold_same in E1.
    assert (0 ≤ queued κ o) by (unfold queued; case_decide; lia).
    assert ((1 ≤ hl o ∧ 1 ≤ ha o) ∨ (0 < names (mdb κ) o)%nat ∧ (0 < anames (mdb κ) o)%nat) as Hn.
    { destruct Hkept as [?|(x & _ & Hx & Hh)]; [by left|right].
      destruct (slot_object_live _ _ _ _ _ Hκ Hx) as (_ & _ & _ & Hin).
      split; [by eapply names_pos|]. by apply (count_pos (λ s, object (mdb κ) s = Some o ∧ slot_home s ≠ Some o) _ x). }
    split; [lia|]. intros Hne. unfold ha_of in E2. rewrite decide_False, hold_same in E2 by congruence. lia. }
  assert (mdb κ1 = mdb κ ∧ events κ1 = events κ ∧ ∃ k', objs κ1 o = Some k' ∧ refcount k' = refcount k) as (M1 & E1 & k' & Hk' & Er).
  { destruct (N.eqb_spec o cn) as [|Hne]; [injection H1 as <-; eauto|].
    unfold kobject_active_release, get_obj in H1. rewrite Hk in H1. cbn [of_assert mbind res_bind] in H1.
    specialize (Hac Hne). destruct (1 <=? active_refs k); simpl in H1; [|done].
    rewrite (proj2 (Z.eqb_neq _ _)) in H1 by lia. injection H1 as <-. rewrite (upd_obj_Some _ _ _ _ Hk).
    split; [done|]. split; [done|]. eexists. simpl. unfold upd_fn. rewrite decide_True by done. by split. }
  unfold get_obj in Hk1. rewrite Hk' in Hk1. injection Hk1 as <-.
  set (κ2 := match otype k' with KOBJ_FRAME | KOBJ_PAGE_TABLE => _ | _ => κ1 end) in Hd.
  assert (mdb κ2 = mdb κ1 ∧ objs κ2 = objs κ1 ∧ only_finalised κ1 κ2) as (M2 & O2 & F2).
  { unfold κ2. destruct (otype k'); (split; [done|split; [done|]]);
      first [exists [o]; reflexivity | exists []; by rewrite app_nil_r]. }
  clearbody κ2. unfold kobject_release, get_obj in Hd. rewrite O2, Hk' in Hd. cbn [of_assert mbind res_bind] in Hd.
  destruct (1 <=? refcount k'); simpl in Hd; [|done].
  rewrite (proj2 (Z.eqb_neq _ _)) in Hd by lia. injection Hd as <-. rewrite <-O2 in Hk'.
  rewrite (upd_obj_Some _ _ _ _ Hk'). split; [simpl; congruence|].
  destruct F2 as [l F2]. exists l. simpl. by rewrite F2, E1.
Qed.

(** ** Delete *)

Lemma slot_delete_unfold cn idx κ :
  kcnode_slot_delete (Some cn) idx κ =
    slot_delete_body (slot_delete (size (mem (mdb κ)))) cn idx κ.
Proof. reflexivity. Qed.

Lemma occupied_le σ : (occupied σ ≤ size (mem σ))%nat.
Proof. unfold occupied. apply subseteq_size. intros s. rewrite elem_of_filter. tauto. Qed.

Lemma delete_locked_objs cn idx κ r κ' old :
  kcnode_slot_delete_locked cn idx κ = Ret (r, κ', old) → objs κ' = objs κ.
Proof.
  unfold kcnode_slot_delete_locked. intros H. case_match; [by injection H as _ <- _|].
  case_match; [|by injection H as _ <- _].
  apply res_bind_Ret in H as (σ & _ & [= _ <- _]). reflexivity.
Qed.

Lemma kcnode_slot_delete_spec hl ha cn idx κ :
  kinv hl ha κ →
  returns (kcnode_slot_delete (Some cn) idx κ) (λ '(r, κ'),
    (td hl ha (λ _, False) κ κ' ∧ object (mdb κ') (InNode cn idx) = None) ∧
    r = (if slot_in_range κ cn idx then IRIS_OK else IRIS_ERR_INVALID_ARG)).
Proof.
  intros Hκ. rewrite slot_delete_unfold. pose proof (occupied_le (mdb κ)).
  apply (slot_delete_body_spec _ _ (slot_delete_spec _)); [assumption|lia].
Qed.

(** C17: deleting a slot always returns, with no assertion failed and the cascade's
    recursion bounded by the occupied slots; the code says whether the index
    was in range; the slot is empty; every reference count is exact again; and
    no capability appeared, changed or lost an ancestor that survives. *)
Theorem kcnode_slot_delete_safe hl ha cn idx κ :
  kinv hl ha κ →
  returns (kcnode_slot_delete (Some cn) idx κ) (λ '(r, κ'),
    r = (if slot_in_range κ cn idx then IRIS_OK else IRIS_ERR_INVALID_ARG) ∧
    kinv hl ha κ' ∧ object (mdb κ') (InNode cn idx) = None ∧
    cdt_shrinks (abs (mdb κ)) (abs (mdb κ'))).
Proof.
  intros Hκ. eapply returns_mono; [by apply (kcnode_slot_delete_spec hl ha)|].
  intros [r κ'] [[Htd He] Hr]. split; [assumption|]. split; [apply Htd|].
  split; [assumption|]. apply (td_shr _ _ _ _ _ Htd).
Qed.

(** Deleting a capability to anything but a CNode is the abstract delete:
    exactly that capability goes, its children are adopted by its parent, or
    become roots. *)
Theorem kcnode_slot_delete_refines hl ha cn idx κ o :
  kinv hl ha κ → object (mdb κ) (InNode cn idx) = Some o → not_cnode κ o →
  returns (kcnode_slot_delete (Some cn) idx κ) (λ '(r, κ'),
    r = IRIS_OK ∧ kinv hl ha κ' ∧
    cdt_eq (abs (mdb κ')) (cdt_delete (InNode cn idx) (abs (mdb κ)))).
Proof.
  intros Hκ Ho Hnc. pose proof (kcnode_slot_delete_spec hl ha cn idx κ Hκ) as Hsp.
  assert (slot_in_range κ cn idx = true) as Hr.
  { apply (slot_in_range_mem _ _ _ _ _ Hκ). destruct (decide (InNode cn idx ∈ mem (mdb κ))) as [|Hn];
      [assumption|]. apply (mi_dom _ (ki_mdb _ _ _ Hκ)) in Hn. congruence. }
  rewrite Hr in Hsp. apply returns_Ret in Hsp as ([r κ'] & Heq & [[Htd He] Hrr]).
  rewrite Heq. simpl. split; [assumption|]. split; [apply Htd|].
  rewrite slot_delete_unfold in Heq. unfold slot_delete_body in Heq.
  apply res_bind_Ret in Heq as ([[r1 κ1] old] & Hdl & Heq).
  pose proof (kcnode_slot_delete_locked_spec hl ha cn idx κ Hκ) as Hl.
  rewrite Hdl in Hl. destruct Hl as (_ & _ & _ & Hold & _ & Hl). rewrite Ho in Hold. subst old.
  destruct Hl as (_ & _ & _ & Hcdt).
  apply res_bind_Ret in Heq as (κ2 & Hdrop & [= -> ->]).
  destruct (drop_old_frame _ _ _ κ1 _ ltac:(unfold not_cnode;
    rewrite (delete_locked_objs _ _ _ _ _ _ Hdl); exact Hnc) Hdrop) as [Hm _].
  rewrite Hm. exact Hcdt.
Qed.

(** ** Revoke *)

Lemma leftmost_leaf_spec fuel σ c (X : gset slotptr) :
  forest_ok (lk σ) → (∀ x, reach (mdb_parent σ) x c → x ∈ X) → (size X ≤ fuel)%nat →
  mdb_first_child σ (leftmost_leaf fuel σ c) = None ∧
  (leftmost_leaf fuel σ c = c ∨ reach (mdb_parent σ) (leftmost_leaf fuel σ c) c).
Proof.
  intros HL. revert c X. induction fuel as [|fuel IH]; intros c X HX Hsz; simpl.
  - split; [|by left]. destruct (mdb_first_child σ c) as [c'|] eqn:Hc; [|done].
    apply (fo_fc _ HL) in Hc as [Hc _].
    assert (c' ∈ X) as Hc' by (by apply HX, tc_once).
    assert (size X = 0%nat) as Hz by lia. apply size_empty_inv in Hz. set_solver.
  - destruct (mdb_first_child σ c) as [c'|] eqn:Hc; [|by split; [|left]].
    apply (fo_fc _ HL) in Hc as [Hc _].
    assert (c' ∈ X) as Hc' by (by apply HX, tc_once).
    destruct (IH c' (X ∖ {[c']})) as [Hleaf Hr].
    + intros x Hx. apply elem_of_difference. split.
      * apply HX. eapply tc_r; eassumption.
      * rewrite elem_of_singleton. intros ->. by eapply wf_link_no_cycle; [apply (fo_wf_par _ HL)|].
    + rewrite size_difference, size_singleton by set_solver. lia.
    + split; [assumption|]. right. destruct Hr as [->|Hr]; [by apply tc_once|].
      eapply tc_r; eassumption.
Qed.

Lemma revoke_leaf σ r c :
  tree_ok σ → mdb_first_child σ r = Some c →
  mdb_first_child σ (leftmost_leaf (mdb_fuel σ) σ c) = None ∧
  reach (mdb_parent σ) (leftmost_leaf (mdb_fuel σ) σ c) r.
Proof.
  intros [HL Hdom] Hc. apply (fo_fc _ HL) in Hc as [Hc _].
  destruct (leftmost_leaf_spec (mdb_fuel σ) σ c (mem σ) HL) as [Hleaf Hr].
  - intros x Hx. destruct (decide (x ∈ mem σ)) as [|Hn]; [assumption|].
    destruct (Hdom x Hn) as [Hp _]. destruct Hx; congruence.
  - done.
  - split; [assumption|]. destruct Hr as [->|Hr]; [by apply tc_once|]. eapply tc_r; eassumption.
Qed.

Lemma revoke_unlink_spec v σ :
  mdb_inv σ → mdb_first_child σ v = None →
  ∃ σ', revoke_unlink v σ = Some σ' ∧ mdb_inv σ' ∧ slot_cleared v σ σ' ∧
    cdt_eq (abs σ') (cdt_delete v (abs σ)).
Proof.
  intros Hσ Hfc. unfold revoke_unlink. cbv zeta.
  set (σ0 := set_content v None RIGHT_NONE 0 σ).
  destruct (unlink_clear_leaf v σ0) as (σ1 & Hσ1 & Heq); [apply Hσ|assumption|].
  pose proof (meta_cleared_frame v _ _ _ (unlink_frame v σ0) (clear_node_meta _ _ _ Hσ1)) as Hm.
  assert (∀ σ2, lk σ2 = lk σ1 → lk_frame σ1 σ2 →
    mdb_inv σ2 ∧ slot_cleared v σ σ2 ∧ cdt_eq (abs σ2) (cdt_delete v (abs σ))) as Hgoal.
  { intros σ2 Hlk Hfr.
    assert (slot_cleared v σ σ2) as Hc.
    { unfold meta_cleared, lk_frame in *. simpl in Hm. unfold slot_cleared. destruct_and?.
      split_and!; congruence. }
    assert (links_eq (lk σ2) (f_delete (lk σ) v v)) as Heq2.
    { unfold f_delete. rewrite Hfc, Hlk. exact Heq. }
    assert (ends_kids (lk σ) v v) as Hend by (intros Hn; congruence).
    split; [|split; [assumption|]].
    - exact (slot_cleared_inv v v σ σ2 Hσ Hend Heq2 Hc).
    - exact (slot_cleared_abs v v σ σ2 Hσ Heq2 Hc). }
  destruct (is_unparented _ _); rewrite !clear_node_ctr, Hσ1; simpl;
    (eexists; split; [reflexivity|]; apply Hgoal; [reflexivity|]);
    unfold lk_frame; split_and!; reflexivity.
Qed.


(** One pass of the loop: a leaf below the root is cut off and its references
    are dropped. *)
Lemma revoke_step hl ha κ root c (v := leftmost_leaf (mdb_fuel (mdb κ)) (mdb κ) c) :
  kinv hl ha κ → mdb_first_child (mdb κ) root = Some c →
  ∃ o vcn σ', object (mdb κ) v = Some o ∧ mdb_cnode (mdb κ) v = Some vcn ∧
    revoke_unlink v (mdb κ) = Some σ' ∧ descends (abs (mdb κ)) v root ∧
    returns (drop_old vcn (Some o) (with_mdb σ' κ)) (λ κ',
      kinv hl ha κ' ∧ kshrinks κ κ' ∧ (S (occupied (mdb κ')) ≤ occupied (mdb κ))%nat ∧
      (kept hl ha (λ x, ¬ descends (abs (mdb κ)) x root) κ o →
         cdt_eq (abs (mdb κ')) (cdt_delete v (abs (mdb κ))) ∧ only_finalised κ κ' ∧
         occupied (mdb κ) = S (occupied (mdb κ')))).
Proof.
  intros Hκ Hc. pose proof (ki_mdb _ _ _ Hκ) as Hσ.
  destruct (revoke_leaf _ _ _ (mi_tree _ Hσ) Hc) as [Hleaf Hr]. fold v in Hleaf, Hr.
  assert (∃ o, object (mdb κ) v = Some o) as [o Ho].
  { destruct (object (mdb κ) v) as [o|] eqn:Ho; [eauto|].
    apply (mi_empty _ Hσ) in Ho as [[Hp _] _]. destruct Hr; congruence. }
  assert (v ∈ mem (mdb κ)) as Hvm.
  { destruct (decide (v ∈ mem (mdb κ))) as [|Hn]; [assumption|].
    apply (mi_dom _ Hσ) in Hn. congruence. }
  assert (∃ vcn, mdb_cnode (mdb κ) v = Some vcn ∧ slot_home v = Some vcn) as (vcn & Hvcn & Hh).
  { destruct v as [vcn i|] eqn:Hv; [|rewrite (ki_stack _ _ _ Hκ) in Ho; discriminate].
    exists vcn. split; [|reflexivity]. apply (mi_owner _ Hσ). congruence. }
  destruct (revoke_unlink_spec v _ Hσ Hleaf) as (σ' & Hun & Hσ' & Hcl & Hcdt).
  exists o, vcn, σ'. do 4 (split; [assumption|]).
  pose proof (slot_cleared_kinv _ _ _ _ _ _ Hκ Ho Hσ' Hcl) as Hκ1. rewrite Hh in Hκ1.
  pose proof (slot_cleared_shrinks _ _ _ Hσ Hcl Hcdt) as Hs1.
  pose proof Hcl as (Hobj & _ & _ & _ & _ & _ & _ & Hmem).
  pose proof (cleared_occupied _ _ _ _ Hvm Ho (equal_f Hobj) Hmem) as Hocc.
  destruct (ki_hl _ _ _ Hκ o) as [Hlo Hao].
  pose proof (drop_old_spec _ _ _ _ _ Hκ1 Hlo Hao) as Hdrop.
  apply returns_Ret in Hdrop as (κ' & Heq & Htd). rewrite Heq. simpl.
  pose proof (shrinks_occupied _ _ (td_shr _ _ _ _ _ Htd)) as Hocc'.
  change (mdb (with_mdb σ' κ)) with σ' in Hocc'.
  split; [apply Htd|]. split; [etransitivity; [exact Hs1|apply Htd]|]. split; [lia|].
  intros Hkept. unfold drop_old in Heq.
  eapply (drop_old_kept hl ha _ vcn o (with_mdb σ' κ) κ' (λ x, ¬ descends (abs (mdb κ)) x root)) in Heq as [Hm Hev];
    [|done..|].
  - rewrite Hm. split; [done|]. split; [exact Hev|]. simpl. lia.
  - destruct Hkept as [?|(x & Hx & Hxo & Hxh)]; [by left|right]. exists x. split; [done|]. split; [|done].
    simpl. rewrite Hobj. unfold upd_fn. rewrite decide_False; [done|]. by intros ->.
Qed.

(** Whatever the capabilities below the root name is referred to from elsewhere too:
    by the kernel, or by a capability that is not below the root.  Then no reference
    the revocation drops is a last one, and nothing is closed or destroyed. *)
Definition kept_below hl ha κ root : Prop :=
  ∀ s o, descends (abs (mdb κ)) s root → object (mdb κ) s = Some o →
    kept hl ha (λ x, ¬ descends (abs (mdb κ)) x root) κ o.

(** [n] capabilities below the root went and nothing else changed. *)
Record exact_revoke root κ κ' (n : Z) : Prop := ExactRevoke {
  er_rest  : ∀ s, caps (abs (mdb κ')) s = caps (abs (mdb κ)) s ∨ descends (abs (mdb κ)) s root;
  er_desc  : ∀ s, descends (abs (mdb κ')) s root → descends (abs (mdb κ)) s root;
  er_count : Z.of_nat (occupied (mdb κ')) + n = Z.of_nat (occupied (mdb κ));
}.

Lemma exact_revoke_refl root κ : exact_revoke root κ κ 0.
Proof. split; [by left|done|lia]. Qed.

Lemma exact_revoke_trans root κ1 κ2 κ3 n m :
  exact_revoke root κ1 κ2 n → exact_revoke root κ2 κ3 m → exact_revoke root κ1 κ3 (n + m).
Proof.
  intros [A1 A2 A3] [B1 B2 B3]. split; [|auto|lia].
  intros s. destruct (B1 s) as [->|Hs]; [apply A1|right; by apply A2].
Qed.

Lemma exact_revoke_tree root κ1 κ2 κ1' κ2' n :
  abs (mdb κ1') = abs (mdb κ1) → occupied (mdb κ1') = occupied (mdb κ1) → mdb κ2' = mdb κ2 →
  exact_revoke root κ1 κ2 n → exact_revoke root κ1' κ2' n.
Proof. intros E1 E2 E3 [A1 A2 A3]. split; rewrite ?E1, ?E2, ?E3; done. Qed.

Lemma exact_revoke_object root κ κ' n s o :
  exact_revoke root κ κ' n → object (mdb κ) s = Some o →
  object (mdb κ') s = Some o ∨ descends (abs (mdb κ)) s root.
Proof.
  intros [A1 _ _] Ho. destruct (A1 s) as [E|]; [left|by right]. simpl in E. rewrite Ho in E. simpl in E.
  destruct (object (mdb κ') s); simpl in E; [congruence|done].
Qed.

(** What was kept still is. *)
Lemma exact_kept hl ha root κ κ' n :
  kshrinks κ κ' → exact_revoke root κ κ' n → kept_below hl ha κ root → kept_below hl ha κ' root.
Proof.
  intros Hs X Hk s o Hd Ho. pose proof (er_desc _ _ _ _ X) as A2.
  destruct (Hk s o (A2 _ Hd) (shrinks_object _ _ _ _ Hs Ho)) as [?|(x & Hx & Hxo & Hxh)]; [by left|right].
  exists x. split; [by intros ?%A2|]. split; [|done]. by destruct (exact_revoke_object _ _ _ _ _ _ X Hxo).
Qed.

Record revoke_post (hl ha : N → Z) (root : slotptr) (budget revoked : Z) κ
    (r : iris_error_t) κ' (n : Z) (more : bool) : Prop := RevokePost {
  rp_inv   : kinv hl ha κ';
  rp_shr   : kshrinks κ κ';
  rp_count : revoked ≤ n ∧ Z.of_nat (occupied (mdb κ')) + (n - revoked) ≤ Z.of_nat (occupied (mdb κ));
  rp_bound : budget = 0 ∨ n ≤ budget;
  rp_more  : if more then budget ≠ 0 ∧ n = budget ∧ mdb_first_child (mdb κ') root ≠ None
             else mdb_first_child (mdb κ') root = None;
  rp_code  : r = if decide (object (mdb κ) root = None ∧ revoked = 0)
                 then IRIS_ERR_NOT_FOUND else IRIS_OK;
  rp_exact : kept_below hl ha κ root → exact_revoke root κ κ' (n - revoked) ∧ only_finalised κ κ';
}.

(** One leaf gone. *)
Lemma revoke_exact_step κ κ1 root v :
  wf_link (mdb_parent (mdb κ)) → descends (abs (mdb κ)) v root →
  cdt_eq (abs (mdb κ1)) (cdt_delete v (abs (mdb κ))) → occupied (mdb κ) = S (occupied (mdb κ1)) →
  exact_revoke root κ κ1 1.
Proof.
  intros Hwf Hv Heq Hocc.
  assert (root ≠ v) as Hrv by (intros ->; by apply (wf_link_no_cycle _ v Hwf)).
  split; [| |lia].
  - intros s. destruct Heq as [Hcaps _]. rewrite Hcaps. simpl. unfold upd_fn. case_decide; [subst; by right|by left].
  - intros x Hx. destruct (decide (x = v)) as [->|Hxv]; [assumption|].
    apply (cdt_delete_descends v (abs (mdb κ)) x root Hwf Hxv Hrv).
    unfold descends, reach in *. clear -Hx Heq. destruct Heq as [_ Hup].
    induction Hx as [x y H|x y z H _ IH]; [apply tc_once|eapply tc_l; [|exact IH]];
      by rewrite <-Hup.
Qed.

Lemma revoke_loop_unfold fuel cn idx budget revoked κ :
  revoke_loop fuel cn idx budget revoked κ =
  let σ := mdb κ in
  let root := InNode cn idx in
  if negb (budget =? 0) && (budget <=? revoked) then
    Ret (IRIS_OK, κ, revoked,
      match object σ root, mdb_first_child σ root with Some _, Some _ => true | _, _ => false end)
  else
    match object σ root with
    | None => Ret (if revoked =? 0 then IRIS_ERR_NOT_FOUND else IRIS_OK, κ, revoked, false)
    | Some _ =>
      match mdb_first_child σ root with
      | None => Ret (IRIS_OK, κ, revoked, false)
      | Some c =>
        match fuel with
        | O => NoFuel
        | S fuel =>
          let v := leftmost_leaf (mdb_fuel σ) σ c in
          σ' ← of_assert (revoke_unlink v σ);
          v_cn ← of_assert (mdb_cnode σ v);
          κ ← drop_old v_cn (object σ v) (with_mdb σ' κ);
          revoke_loop fuel cn idx budget (u32 (revoked + 1)) κ
        end
      end
    end.
Proof. by destruct fuel. Qed.

(** The exits of the loop. *)
Lemma revoke_done hl ha root budget revoked κ r (more : bool) :
  kinv hl ha κ → (budget = 0 ∨ revoked ≤ budget) →
  (if more then budget ≠ 0 ∧ revoked = budget ∧ mdb_first_child (mdb κ) root ≠ None
   else mdb_first_child (mdb κ) root = None) →
  r = (if decide (object (mdb κ) root = None ∧ revoked = 0)
       then IRIS_ERR_NOT_FOUND else IRIS_OK) →
  revoke_post hl ha root budget revoked κ r κ revoked more.
Proof.
  intros Hκ Hb Hm Hr. split; [assumption|reflexivity|lia|assumption..|].
  intros Hk. rewrite Z.sub_diag. split; [apply exact_revoke_refl|reflexivity].
Qed.

Lemma revoke_loop_spec hl ha cn idx budget fuel revoked κ :
  kinv hl ha κ → (occupied (mdb κ) ≤ fuel)%nat → 0 ≤ revoked →
  (budget = 0 ∨ revoked ≤ budget) → 0 ≤ budget →
  revoked + Z.of_nat (occupied (mdb κ)) < 2 ^ 32 →
  returns (revoke_loop fuel cn idx budget revoked κ) (λ '(r, κ', n, more),
    revoke_post hl ha (InNode cn idx) budget revoked κ r κ' n more).
Proof.
  revert κ revoked. induction fuel as [|fuel IH]; intros κ revoked Hκ Hf Hr Hb Hb0 Hov;
    rewrite revoke_loop_unfold; cbv zeta; pose proof (ki_mdb _ _ _ Hκ) as Hσ.
  all: destruct (negb (budget =? 0) && (budget <=? revoked)) eqn:Hstop;
    [apply andb_true_iff in Hstop as [Hs1%negb_true_iff%Z.eqb_neq Hs2%Z.leb_le]|].
  all: destruct (object (mdb κ) (InNode cn idx)) as [o|] eqn:Ho;
    [destruct (mdb_first_child (mdb κ) (InNode cn idx)) as [c|] eqn:Hc
    |pose proof Ho as [(_ & Hc & _) _]%(mi_empty _ Hσ)].
  1-3,5-9,11-12: apply revoke_done; [assumption|assumption|..]; rewrite ?Hc, ?Ho.
  all: try reflexivity.
  all: try (split_and!; first [assumption|lia|discriminate]).
  all: try (destruct (decide _) as [[_ ?]|Hn]; first [lia|reflexivity|idtac]).
  all: try (destruct (Z.eqb_spec revoked 0); first [reflexivity|tauto]).
  all: destruct (revoke_step hl ha κ _ c Hκ Hc)
    as (ov & vcn & σ' & Hov' & Hvcn & Hun & Hdesc & Hstep).
  { destruct (occupied (mdb κ)) eqn:Hz; [|lia]. apply returns_Ret in Hstep as (? & _ & ? & ? & ? & _). lia. }
  rewrite Hun, Hvcn, Hov'. cbn [of_assert mbind res_bind]. apply returns_bind.
  eapply returns_mono; [exact Hstep|]. intros κ1 (Hκ1 & Hs1 & Hocc1 & Hex).
  assert (budget = 0 ∨ revoked + 1 ≤ budget) as Hb'.
  { apply andb_false_iff in Hstop as [H%negb_false_iff%Z.eqb_eq|H%Z.leb_gt]; lia. }
  rewrite u32_id by lia.
  eapply returns_mono; [apply IH; [exact Hκ1|lia..]|].
  intros [[[r κ'] n] more] [H1 H2 [H3 H4] H5 H6 H7 H8].
  split; [assumption|by etransitivity|lia|assumption|assumption|..].
  - rewrite H7, decide_False by lia. rewrite decide_False by (rewrite Ho; intros [? _]; discriminate).
    reflexivity.
  - intros Hkept. destruct (Hex (Hkept _ _ Hdesc Hov')) as (Hcdt & Hev & Hocc).
    pose proof (revoke_exact_step κ κ1 _ _ (fo_wf_par _ (to_forest _ (mi_tree _ Hσ))) Hdesc Hcdt Hocc) as D.
    destruct (H8 (exact_kept _ _ _ _ _ _ Hs1 D Hkept)) as [X1 X2]. split; [|by etransitivity].
    replace (n - revoked) with (1 + (n - (revoked + 1))) by lia. by eapply exact_revoke_trans.
Qed.

Lemma object_in_range hl ha κ cn idx o :
  kinv hl ha κ → object (mdb κ) (InNode cn idx) = Some o → slot_in_range κ cn idx = true.
Proof.
  intros Hκ Ho. apply (slot_in_range_mem _ _ _ _ _ Hκ).
  destruct (decide (InNode cn idx ∈ mem (mdb κ))) as [|Hn]; [assumption|].
  apply (mi_dom _ (ki_mdb _ _ _ Hκ)) in Hn. congruence.
Qed.

Lemma revoke_bounded_spec hl ha cn idx budget κ :
  kinv hl ha κ → slot_in_range κ cn idx = true → 0 ≤ budget < 2 ^ 32 →
  Z.of_nat (occupied (mdb κ)) < 2 ^ 32 →
  returns (kcnode_slot_revoke_bounded (Some cn) idx budget κ) (λ '(r, κ', n, more),
    revoke_post hl ha (InNode cn idx) budget 0 κ r κ' n more).
Proof.
  intros Hκ Hr Hb Hocc. unfold kcnode_slot_revoke_bounded. rewrite Hr. simpl.
  set (κ0 := with_mdb (ctr_add cdt_revoke_count 1 (mdb κ)) κ).
  assert (kinv hl ha κ0) as Hκ0 by (by apply kinv_ctr).
  eapply returns_mono;
    [apply (revoke_loop_spec hl ha cn idx budget (slot_fuel κ0) 0 κ0 Hκ0);
       [pose proof (slot_fuel_enough κ0); lia|lia|lia|lia|exact Hocc]|].
  intros [[[r κ'] n] more] [H1 H2 H3 H4 H5 H6 H7].
  split; try assumption.
  - etransitivity; [|exact H2].
    constructor; [reflexivity|reflexivity|]. intros x k Hk. exists k. split_and!; first [exact Hk|reflexivity].
  - intros Hk. destruct (H7 Hk) as [X1 X2]. split; [|exact X2]. by apply (exact_revoke_tree _ κ0 κ').
Qed.

Lemma no_children_no_descendants σ root s :
  forest_ok (lk σ) → mdb_first_child σ root = None → ¬ descends (abs σ) s root.
Proof.
  intros HL Hc Hd. unfold descends, reach in Hd. simpl in Hd.
  induction Hd as [x y Hp|x y z _ _ IH]; [by apply (kids_nil _ y HL Hc x)|by apply IH].
Qed.

(** C1: revoke is complete.  On an occupied slot it always returns, with no
    assertion failed and no bound of the model met, and if the slot itself
    survives then every capability that was derived from it, at any depth and
    in any CNode, is gone.  Reference counts are exact again, and what survives
    is unchanged. *)
Theorem kcnode_slot_revoke_complete hl ha cn idx o κ :
  kinv hl ha κ → object (mdb κ) (InNode cn idx) = Some o →
  Z.of_nat (occupied (mdb κ)) < 2 ^ 32 →
  returns (kcnode_slot_revoke (Some cn) idx κ) (λ '(r, κ', n, more),
    r = IRIS_OK ∧ more = false ∧ kinv hl ha κ' ∧
    cdt_shrinks (abs (mdb κ)) (abs (mdb κ')) ∧
    (object (mdb κ') (InNode cn idx) ≠ None →
     ∀ s, descends (abs (mdb κ)) s (InNode cn idx) → object (mdb κ') s = None)).
Proof.
  intros Hκ Ho Hocc. pose proof (object_in_range _ _ _ _ _ _ Hκ Ho) as Hr.
  eapply returns_mono; [apply (revoke_bounded_spec hl ha cn idx 0 κ Hκ Hr); [lia|assumption]|].
  intros [[[r κ'] n] more] [H1 H2 H3 H4 H5 H6 H7].
  destruct more; [by destruct H5|].
  split; [by rewrite H6, Ho|]. split; [reflexivity|]. split; [assumption|].
  pose proof (ks_cdt _ _ H2) as Hsh. split; [assumption|].
  intros Hroot s Hs. destruct (object (mdb κ') s) as [x|] eqn:Hx; [exfalso|reflexivity].
  apply (no_children_no_descendants (mdb κ') (InNode cn idx) s); [apply H1|assumption|].
  apply (cs_desc _ _ Hsh s (InNode cn idx)); [simpl..|exact Hs].
  - rewrite Hx. discriminate.
  - by destruct (object (mdb κ') (InNode cn idx)).
Qed.

(** C16: revoke is exact.  When every object a capability below the slot names is
    also referred to from elsewhere (by the kernel, or by a capability that is not
    below the slot, such as the slot itself), no reference that goes is a last one:
    the capabilities afterwards are those of before less the descendants of the
    slot, and nothing else; their number is the count reported; and nothing is
    closed or destroyed, the only work handed on being the finalisation of
    mappings of revoked frames and page tables. *)
Theorem kcnode_slot_revoke_exact hl ha cn idx o κ :
  kinv hl ha κ → object (mdb κ) (InNode cn idx) = Some o →
  Z.of_nat (occupied (mdb κ)) < 2 ^ 32 → kept_below hl ha κ (InNode cn idx) →
  returns (kcnode_slot_revoke (Some cn) idx κ) (λ '(r, κ', n, more),
    (∀ s, (descends (abs (mdb κ)) s (InNode cn idx) → caps (abs (mdb κ')) s = None) ∧
          (¬ descends (abs (mdb κ)) s (InNode cn idx) → caps (abs (mdb κ')) s = caps (abs (mdb κ)) s)) ∧
    Z.of_nat (occupied (mdb κ')) + n = Z.of_nat (occupied (mdb κ)) ∧
    only_finalised κ κ').
Proof.
  intros Hκ Ho Hocc Hkept. pose proof (object_in_range _ _ _ _ _ _ Hκ Ho) as Hr.
  eapply returns_mono; [apply (revoke_bounded_spec hl ha cn idx 0 κ Hκ Hr); [lia|assumption]|].
  intros [[[r κ'] n] more] [H1 H2 H3 H4 H5 H6 H7].
  destruct more; [by destruct H5|]. destruct (H7 Hkept) as [[X1 _ X4] X2]. split; [|split; [lia|done]].
  intros s. split; [|by intros Hs; destruct (X1 s)]. intros Hs.
  assert (caps (abs (mdb κ')) (InNode cn idx) ≠ None) as Hroot.
  { destruct (X1 (InNode cn idx)) as [->|Hc]; [simpl; by rewrite Ho|].
    exfalso. eapply wf_link_no_cycle; [|exact Hc]. apply (ki_mdb _ _ _ Hκ). }
  destruct (decide (caps (abs (mdb κ')) s = None)) as [|Hx]; [assumption|exfalso].
  apply (no_children_no_descendants (mdb κ') (InNode cn idx) s); [apply H1|assumption|].
  by apply (cs_desc _ _ (ks_cdt _ _ H2) s (InNode cn idx)).
Qed.

(** A revoke slice does bounded work and reports it.  With a budget it
    removes at most that many descendants, every one it counts has left an
    occupied slot behind it empty, and it asks to be called again exactly when
    the budget is spent with descendants left. *)
Theorem kcnode_slot_revoke_bounded_slice hl ha cn idx budget κ :
  kinv hl ha κ → slot_in_range κ cn idx = true → 0 < budget < 2 ^ 32 →
  Z.of_nat (occupied (mdb κ)) < 2 ^ 32 →
  returns (kcnode_slot_revoke_bounded (Some cn) idx budget κ) (λ '(r, κ', n, more),
    kinv hl ha κ' ∧ 0 ≤ n ≤ budget ∧
    Z.of_nat (occupied (mdb κ')) + n ≤ Z.of_nat (occupied (mdb κ)) ∧
    (more = true → n = budget) ∧
    (more = true ↔ mdb_first_child (mdb κ') (InNode cn idx) ≠ None) ∧
    r = if decide (object (mdb κ) (InNode cn idx) = None) then IRIS_ERR_NOT_FOUND else IRIS_OK).
Proof.
  intros Hκ Hr Hb Hocc.
  eapply returns_mono; [apply (revoke_bounded_spec hl ha cn idx budget κ Hκ Hr); [lia|assumption]|].
  intros [[[r κ'] n] more] [H1 H2 H3 H4 H5 H6 H7].
  split; [assumption|]. split; [lia|]. split; [lia|].
  split; [intros ->; by destruct H5 as (_ & ? & _)|].
  split; [destruct more; [split; [intros _; apply H5|done]|rewrite H5; split; done]|].
  rewrite H6. repeat case_decide; first [reflexivity|tauto].
Qed.
