(* ===== verification/KcnodeInstall.v ===== *)
(** * Install and derive

    How a capability enters the tree: [kcnode_slot_install_linked], the one
    primitive every mint, copy and retype goes through, and
    [kcnode_slot_derive].  A successful exclusive install is the abstract
    [cdt_install]; a derived capability never has a right its source lacks nor
    a badge its source forbids; a failure gives every reference back. *)

From Stdlib Require Import ZArith Lia.
From stdpp Require Import base numbers gmap list.
From S2P Require Import Prelude Rights Forest Mdb Cdt Kobject Kcnode KcnodeInv.
Local Open Scope Z_scope.
Implicit Types (σ : mdb_state) (κ : kstate) (o cn idx : N) (s p : slotptr) (hl ha : N → Z).

(** ** The critical section *)

(** [s] holds a capability, every other slot is as it was. *)
Definition slot_installed s cn (obj : N) (r b f : Z) σ σ' : Prop :=
  object σ' = upd_fn (object σ) s (Some obj) ∧ rights σ' = upd_fn (rights σ) s r ∧
  badge σ' = upd_fn (badge σ) s b ∧ mdb_cnode σ' = upd_fn (mdb_cnode σ) s (Some cn) ∧
  mdb_flags σ' = upd_fn (mdb_flags σ) s f ∧ guard σ' = guard σ ∧
  guard_bits σ' = guard_bits σ ∧ mem σ' = mem σ.

Definition parent_slot (parent : option (N * N)) : option slotptr :=
  (λ '(pcn, pidx), InNode pcn pidx) <$> parent.

(** The statistics code changes counters only. *)
Definition ctr_only σ σ' : Prop := lk σ' = lk σ ∧ lk_frame σ σ'.

#[global] Instance ctr_only_preorder : PreOrder ctr_only.
Proof.
  split.
  - intros σ. split; reflexivity.
  - intros σ1 σ2 σ3 [H1 H2] [H3 H4]. split; [congruence|by etransitivity].
Qed.

Lemma ctr_only_set k v σ : ctr_only σ (set_ctr k v σ).
Proof. unfold ctr_only, lk_frame. split_and!; reflexivity. Qed.

Lemma ctr_only_if (b : bool) σ σ1 σ2 :
  ctr_only σ σ1 → ctr_only σ σ2 → ctr_only σ (if b then σ1 else σ2).
Proof. by destruct b. Qed.

Lemma ctr_only_add k n σ σ' : ctr_only σ σ' → ctr_only σ (ctr_add k n σ').
Proof. intros. etransitivity; [eassumption|]. apply ctr_only_set. Qed.

Lemma ctr_only_note k n σ σ' : ctr_only σ σ' → ctr_only σ (mdb_note_max k n σ').
Proof.
  intros. etransitivity; [eassumption|]. unfold mdb_note_max.
  apply ctr_only_if; [apply ctr_only_set|reflexivity].
Qed.

Lemma ctr_only_inc σ σ' : ctr_only σ σ' → ctr_only σ (mdb_node_count_inc σ').
Proof. intros. by apply ctr_only_note, ctr_only_add. Qed.

Lemma ctr_only_refl σ : ctr_only σ σ.
Proof. reflexivity. Qed.

Create HintDb ctr_only.
#[export] Hint Resolve ctr_only_if ctr_only_add ctr_only_note ctr_only_inc ctr_only_refl : ctr_only.

Lemma link_child_links p c σ :
  p ≠ c → mdb_first_child σ p ≠ Some c →
  links_eq (lk (mdb_link_child p c σ)) (f_link_child (lk σ) p c) ∧
  lk_frame σ (mdb_link_child p c σ).
Proof.
  intros Hpc Hfc. unfold mdb_link_child, f_link_child, links_eq, lk_frame. simpl.
  split.
  - split_and!; intros x; store_solve.
  - unfold on_ptr. case_match; split_and!; reflexivity.
Qed.

Lemma install_commit_frame cn idx obj r b parent unp σ (s := InNode cn idx) :
  (∀ p, parent_slot parent = Some p → p ≠ s ∧ mdb_first_child σ p ≠ Some s) →
  ∃ f, slot_installed s cn obj r b f σ (install_commit cn idx obj r b parent unp σ) ∧
    links_eq (lk (install_commit cn idx obj r b parent unp σ))
      match parent_slot parent with
      | Some p => f_link_child (lk σ) p s
      | None => lk (set_parent s None σ)
      end.
Proof.
  intros Hp. unfold install_commit. cbv zeta. fold s.
  set (σ1 := set_cnode s (Some cn) (set_content s (Some obj) r b σ)).
  destruct parent as [[pcn pidx]|]; simpl in Hp.
  - destruct (Hp _ eq_refl) as [Hps Hfc].
    destruct (link_child_links (InNode pcn pidx) s σ1 Hps Hfc) as [Hlk Hfr].
    set (σ2 := mdb_link_child _ s σ1) in *. clearbody σ2. set (σ3 := set_flags s 0 σ2).
    match goal with |- ∃ f, slot_installed _ _ _ _ _ _ _ ?σ' ∧ _ =>
      assert (ctr_only σ3 σ') as [Hlk' Hfr'] by auto 20 with ctr_only;
      set (σ4 := σ') in *; clearbody σ4 end.
    exists 0. rewrite Hlk'. split; [|exact Hlk].
    unfold slot_installed, lk_frame in *. simpl in *. destruct_and?. split_and!; congruence.
  - set (fl := if unp then MDB_FLAG_UNPARENTED else 0).
    set (σ3 := set_flags s fl (set_parent s None σ1)).
    match goal with |- ∃ f, slot_installed _ _ _ _ _ _ _ ?σ' ∧ _ =>
      assert (ctr_only σ3 σ') as [Hlk' Hfr'] by auto 20 with ctr_only;
      set (σ4 := σ') in *; clearbody σ4 end.
    exists fl. rewrite Hlk'. split; [|reflexivity].
    unfold slot_installed, lk_frame in *. simpl in *. destruct_and?. split_and!; congruence.
Qed.

Lemma install_commit_spec cn idx obj r b parent unp σ (s := InNode cn idx) :
  mdb_inv σ → s ∈ mem σ → object σ s = None →
  (∀ p, parent_slot parent = Some p → p ≠ s ∧ object σ p ≠ None) →
  let σ' := install_commit cn idx obj r b parent unp σ in
  mdb_inv σ' ∧ (∃ f, slot_installed s cn obj r b f σ σ') ∧
  cdt_eq (abs σ') (cdt_install s (obj, r, b) (parent_slot parent) (abs σ)).
Proof.
  intros [[HL Hdom] Hempty Hown Hmem] Hs Ho Hp σ'.
  destruct (Hempty s Ho) as (Hiso & _). pose proof (isolated_not_target _ _ HL Hiso) as Hno.
  destruct (install_commit_frame cn idx obj r b parent unp σ) as (f & Hi & Heq).
  { intros p Hpp. destruct (Hp p Hpp). split; [assumption|]. apply Hno. }
  fold σ' s in Hi, Heq. pose proof Hi as (Hobj & Hri & Hba & Hcn & Hfl & Hg & Hgb & Hm).
  set (L' := match parent_slot parent with Some p => _ | None => _ end) in Heq.
  assert (forest_ok L' ∧ (∀ x, x ≠ s → parent_slot parent ≠ Some x → isolated (lk σ) x → isolated L' x) ∧
    ∀ x, par L' x = upd_fn (mdb_parent σ) s (parent_slot parent) x) as (HL' & Hout & Hpar).
  { unfold L'. destruct (parent_slot parent) as [p|] eqn:Hpp.
    - destruct (Hp p eq_refl). split_and!.
      + apply f_link_child_ok; [assumption|assumption|congruence].
      + intros x Hx Hpx Hxi. apply f_link_child_outside; congruence || assumption.
      + reflexivity.
    - destruct Hiso as [Hps _].
      assert (links_eq (lk (set_parent s None σ)) (lk σ)) as Hid.
      { unfold links_eq. simpl. split_and!; intros x; [|reflexivity..]. unfold upd_fn.
        case_decide; congruence. }
      split_and!; [by rewrite Hid| |reflexivity].
      intros x _ _ Hx. destruct Hid as (H1 & H2 & H3 & H4). unfold isolated in *.
      by rewrite H1, H2, H3, H4. }
  assert (∀ x, x ≠ s → parent_slot parent ≠ Some x → isolated (lk σ) x → isolated (lk σ') x) as Hout'.
  { intros x Hx Hpx Hxi. pose proof (Hout x Hx Hpx Hxi) as H. destruct Heq as (H1 & H2 & H3 & H4).
    unfold isolated in *. by rewrite H1, H2, H3, H4. }
  split; [|split; [exists f; assumption|]].
  - constructor; [constructor|..].
    + by rewrite Heq.
    + intros x Hx. rewrite Hm in Hx. apply Hout'; [congruence| |by apply Hdom].
      intros Hpx. destruct (Hp x Hpx) as [_ Hox]. by apply Hox, Hmem.
    + intros x. rewrite Hobj, Hri, Hba, Hcn, Hfl, Hg, Hgb. unfold upd_fn.
      case_decide as Hx; [done|]. intros Hox.
      destruct (Hempty x Hox) as (H1 & H2). split; [|exact H2].
      apply Hout'; [assumption| |assumption]. intros Hpx. by destruct (Hp x Hpx).
    + intros c i. rewrite Hobj, Hcn. unfold upd_fn. case_decide as Hx; [by injection Hx as -> ->|].
      apply Hown.
    + intros x. rewrite Hm, Hobj. unfold upd_fn. case_decide; [congruence|]. apply Hmem.
  - split; intros x; simpl.
    + rewrite Hobj, Hri, Hba. unfold upd_fn. by case_decide.
    + destruct Heq as (H1 & _). by rewrite H1, Hpar.
Qed.

(** ** The references *)

Lemma kinv_ext hl ha hl' ha' κ :
  (∀ x, hl' x = hl x) → (∀ x, ha' x = ha x) → kinv hl ha κ → kinv hl' ha' κ.
Proof.
  intros Hl Ha [H1 H2 H3 H4 H5 H6 H7 H8 H9]. constructor; try assumption.
  - intros x. rewrite Hl, Ha. apply H7.
  - intros x k. rewrite Hl, Ha. apply H8.
  - intros x. rewrite Hl. apply H9.
Qed.

(** The caller's references move into the slot. *)
Lemma slot_installed_kinv hl ha κ s cn obj r b f σ' :
  kinv (hold hl obj 1) (ha_of ha (Some cn) obj) κ → 0 ≤ hl obj → 0 ≤ ha obj →
  slot_home s = Some cn → s ∈ mem (mdb κ) → object (mdb κ) s = None → mdb_inv σ' →
  slot_installed s cn obj r b f (mdb κ) σ' → kinv hl ha (with_mdb σ' κ).
Proof.
  intros Hκ Hlo Hao Hh Hin Hempty Hinv (Ho & _ & _ & _ & _ & _ & _ & Hm).
  assert (object σ' s = Some obj) as Hos by (rewrite Ho; unfold upd_fn; by rewrite decide_True).
  assert (s ∈ mem σ') as Hin' by (by rewrite Hm).
  assert (∀ x, object (mdb κ) x = upd_fn (object σ') s None x) as Hback.
  { intros x. rewrite Ho. unfold upd_fn. case_decide; congruence. }
  pose proof (cleared_names σ' (mdb κ) s obj Hin' Hos Hback (eq_sym Hm)) as Hn.
  pose proof (cleared_anames σ' (mdb κ) s obj Hin' Hos Hback (eq_sym Hm)) as Ha.
  destruct (kinv_live _ _ _ obj Hκ) as [ko Hko]; [rewrite hold_same; lia|].
  destruct Hκ as [H1 H2 H3 H4 H5 H6 H7 H8 H9]. constructor; simpl; try assumption.
  - rewrite Ho. unfold upd_fn. by destruct (decide (OnStack = s)) as [<-|].
  - by rewrite Hm.
  - intros. rewrite Hm. apply H4.
  - intros o. pose proof (H7 o) as [E1 E2]. unfold ha_of, hold in *.
    destruct (decide (o = obj)) as [->|]; [lia|].
    destruct (decide (Some cn = Some obj)); simpl in *;
      repeat (destruct (decide _); try done); lia.
  - intros o k Hk. destruct (H8 o k Hk) as (E1 & E2 & E3).
    specialize (Hn o). specialize (Ha o). unfold ha_of in E2. clear -Hn Ha E1 E2 E3 Hh.
    change (queued (with_mdb σ' κ) o) with (queued κ o). rewrite Hh in Ha.
    destruct (decide (o = obj)) as [->|Hne].
    + rewrite hold_same in E1. destruct (decide (Some cn = Some obj)) as [Hc|Hc].
      * rewrite decide_False in Ha by tauto. split_and!; lia.
      * rewrite decide_True in Ha by done. rewrite hold_same in E2. split_and!; lia.
    + rewrite hold_ne in E1 by done. rewrite decide_False in Ha by tauto.
      destruct (decide (Some cn = Some obj)); rewrite ?hold_ne in E2 by done; split_and!; lia.
  - intros o Hk. destruct (H9 o Hk) as (E1 & E2 & E3). specialize (Hn o).
    rewrite decide_False in Hn by congruence. rewrite hold_ne in E3 by congruence.
    split_and!; try lia; assumption.
Qed.

Lemma kobject_retain_spec hl ha κ o k :
  kinv hl ha κ → objs κ o = Some k → 1 ≤ refcount k → refcount k + active_refs k + 1 < 2 ^ 32 →
  kobject_retain o κ = Ret (with_objs (upd_fn (objs κ) o (Some (set_refcount (refcount k + 1) k))) κ) ∧
  kinv (hold hl o 1) ha (with_objs (upd_fn (objs κ) o (Some (set_refcount (refcount k + 1) k))) κ).
Proof.
  intros Hκ Hk H1 Hb. destruct (ki_refs _ _ _ Hκ o k Hk) as (E1 & E2 & E3).
  pose proof (ki_hl _ _ _ Hκ o) as [Hl Ha]. split.
  - unfold kobject_retain, get_obj. rewrite Hk. simpl.
    rewrite (proj2 (Z.leb_le 1 (refcount k))) by lia. simpl.
    by rewrite (upd_obj_Some _ _ _ _ Hk), u32_id by lia.
  - eapply kinv_upd_obj; try eassumption; simpl; try done; rewrite ?hold_same; try lia.
    intros x Hx. by rewrite hold_ne.
Qed.

Lemma kobject_active_retain_spec hl ha κ o k :
  kinv hl ha κ → objs κ o = Some k → refcount k + active_refs k + 1 < 2 ^ 32 →
  0 ≤ refcount k →
  kobject_active_retain o κ =
    Ret (with_objs (upd_fn (objs κ) o (Some (set_active_refs (active_refs k + 1) k))) κ) ∧
  kinv hl (hold ha o 1)
    (with_objs (upd_fn (objs κ) o (Some (set_active_refs (active_refs k + 1) k))) κ).
Proof.
  intros Hκ Hk Hb H0. destruct (ki_refs _ _ _ Hκ o k Hk) as (E1 & E2 & E3).
  pose proof (ki_hl _ _ _ Hκ o) as [Hl Ha]. split.
  - unfold kobject_active_retain, get_obj. rewrite Hk. simpl.
    by rewrite (upd_obj_Some _ _ _ _ Hk), u32_id by lia.
  - eapply kinv_upd_obj; try eassumption; simpl; try done; rewrite ?hold_same; try lia.
    intros x Hx. by rewrite hold_ne.
Qed.

(** What an install holds while it runs: the references for the new slot, and
    those of the capability it displaced. *)
Definition hl_old hl (old : option N) : N → Z :=
  match old with Some o => hold hl o 1 | None => hl end.
Definition ha_old ha cn (old : option N) : N → Z :=
  match old with Some o => ha_of ha (Some cn) o | None => ha end.

Lemma hold_comm h a b m n x : hold (hold h a m) b n x = hold (hold h b n) a m x.
Proof. unfold hold. repeat case_decide; lia. Qed.

Lemma hl_old_comm hl obj old x : hl_old (hold hl obj 1) old x = hold (hl_old hl old) obj 1 x.
Proof. destruct old; simpl; [apply hold_comm|reflexivity]. Qed.

Lemma ha_old_comm ha cn obj old x :
  ha_old (ha_of ha (Some cn) obj) cn old x = ha_of (ha_old ha cn old) (Some cn) obj x.
Proof.
  destruct old as [o|]; simpl; [|reflexivity]. unfold ha_of.
  destruct (decide (Some cn = Some o)), (decide (Some cn = Some obj)); try reflexivity.
  apply hold_comm.
Qed.

Lemma hl_old_pos hl old x : 0 ≤ hl x → 0 ≤ hl_old hl old x.
Proof. destruct old; simpl; [pose proof (hold_le hl n 1 x); lia|done]. Qed.
Lemma ha_old_pos ha cn old x : 0 ≤ ha x → 0 ≤ ha_old ha cn old x.
Proof.
  destruct old; simpl; [|done]. unfold ha_of. case_decide; [done|].
  pose proof (hold_le ha n 1 x). lia.
Qed.

Lemma drop_old_opt_spec hl ha cn old κ :
  kinv (hl_old hl old) (ha_old ha cn old) κ → (∀ x, 0 ≤ hl x ∧ 0 ≤ ha x) →
  returns (drop_old cn old κ) (td hl ha (λ x, Some x = old) κ).
Proof.
  intros Hκ Hpos. destruct old as [o|]; simpl in *.
  - eapply returns_mono; [apply (drop_old_spec hl ha); [exact Hκ|apply Hpos..]|].
    intros κ' Htd. eapply td_weaken; [|exact Htd]. intros x ->. by left.
  - by apply td_refl.
Qed.

Lemma install_fail_spec hl ha cn old obj e κ :
  kinv (hold (hl_old hl old) obj 1) (ha_of (ha_old ha cn old) (Some cn) obj) κ →
  (∀ x, 0 ≤ hl x ∧ 0 ≤ ha x) →
  returns (install_fail cn old (obj =? cn)%N obj e κ) (λ '(r, κ'),
    r = e ∧ td hl ha (λ x, x = obj ∨ Some x = old) κ κ').
Proof.
  intros Hκ Hpos. unfold install_fail. apply returns_bind.
  assert (∀ x, 0 ≤ hold hl obj 1 x ∧ 0 ≤ ha_of ha (Some cn) obj x) as Hpos'.
  { intros x. destruct (Hpos x) as [Hlx Hax]. pose proof (hold_le hl obj 1 x).
    unfold ha_of. case_decide; [|pose proof (hold_le ha obj 1 x)]; lia. }
  eapply returns_mono; [apply (drop_old_opt_spec (hold hl obj 1) (ha_of ha (Some cn) obj) cn old)|].
  { eapply kinv_ext; [..|exact Hκ]; intros x; [apply hl_old_comm|apply ha_old_comm]. }
  { exact Hpos'. }
  intros κ1 Htd1. apply (td_weaken _ _ _ (λ x, x = obj ∨ Some x = old)) in Htd1; [|by auto].
  destruct Htd1 as [Hκ1 Hs1 Hq1]. apply returns_bind. destruct (Hpos obj) as [Hlo Hao].
  assert (returns (if (obj =? cn)%N then Ret κ1 else active_release obj κ1)
    (td (hold hl obj 1) ha (λ x, x = obj ∨ Some x = old) κ1)) as Hact.
  { unfold ha_of in Hκ1. destruct (N.eqb_spec obj cn) as [->|Hne].
    - rewrite decide_True in Hκ1 by done. by apply td_refl.
    - rewrite decide_False in Hκ1 by congruence.
      eapply returns_mono; [apply (active_release_spec _ _ _ _ Hκ1); [rewrite hold_same; lia|assumption]|].
      intros κ2 Htd. eapply td_weaken; [|exact Htd]. by auto. }
  eapply returns_mono; [exact Hact|]. intros κ2 [Hκ2 Hs2 Hq2]. apply returns_bind.
  eapply returns_mono; [apply (release_spec hl ha (λ x, x = obj ∨ Some x = old) _ _ Hκ2 Hlo)|].
  intros κ3 Htd3. split; [reflexivity|].
  eapply td_seq; [exact Hs1|exact Hq1|]. eapply td_seq; [exact Hs2|exact Hq2|exact Htd3].
Qed.

(** ** The whole primitive *)

Lemma cdt_install_proper s c pa t t' :
  cdt_eq t t' → cdt_eq (cdt_install s c pa t) (cdt_install s c pa t').
Proof.
  intros [Hc Hu]. split; intros x; simpl; unfold upd_fn; case_decide; auto.
Qed.

Definition parent_in_range κ (parent : option (N * N)) : bool :=
  match parent with Some (pcn, pidx) => slot_in_range κ pcn pidx | None => true end.

(** The error code, decided on the state the call finds. *)
Definition install_code κ cn idx (r : Z) parent parent_expect (exclusive : bool) : iris_error_t :=
  if (r =? RIGHT_NONE) || negb (parent_in_range κ parent) || negb (slot_in_range κ cn idx)
     || parent_rejected (mdb κ) (InNode cn idx) parent parent_expect then IRIS_ERR_INVALID_ARG
  else if exclusive && bool_decide (is_Some (object (mdb κ) (InNode cn idx)))
  then IRIS_ERR_ALREADY_EXISTS else IRIS_OK.

(** Taking the references of the new slot. *)
Lemma install_retain_spec hl ha cn obj k κ :
  kinv hl ha κ → objs κ obj = Some k → 1 ≤ refcount k → refcount k + active_refs k + 2 < 2 ^ 32 →
  ∃ κ0 κ1, kobject_retain obj κ = Ret κ0 ∧
    (if (obj =? cn)%N then Ret κ0 else kobject_active_retain obj κ0) = Ret κ1 ∧
    kinv (hold hl obj 1) (ha_of ha (Some cn) obj) κ1 ∧ mdb κ1 = mdb κ ∧
    cascade_queue κ1 = cascade_queue κ ∧
    (∀ c i, slot_in_range κ1 c i = slot_in_range κ c i) ∧ kshrinks κ κ1.
Proof.
  intros Hκ Hk H1 Hb.
  destruct (kobject_retain_spec hl ha κ obj k Hκ Hk H1) as [Hr Hκ0]; [lia|].
  set (k0 := set_refcount (refcount k + 1) k) in *.
  set (κ0 := with_objs _ κ) in Hr, Hκ0.
  assert (objs κ0 obj = Some k0) as Hk0 by (simpl; unfold upd_fn; by rewrite decide_True).
  assert (kshrinks κ κ0) as Hs0 by (apply (kshrinks_upd_obj obj k k0); [assumption|reflexivity..]).
  assert (∀ c i, slot_in_range κ0 c i = slot_in_range κ c i) as Hrg0.
  { intros c i. unfold slot_in_range, cn_slots. simpl. unfold upd_fn.
    case_decide; [subst c; by rewrite Hk|reflexivity]. }
  unfold ha_of. destruct (N.eqb_spec obj cn) as [->|Hne].
  - exists κ0, κ0. rewrite decide_True by done. do 6 (split; [assumption || reflexivity|]). assumption.
  - rewrite decide_False by congruence.
    destruct (kobject_active_retain_spec _ _ κ0 obj k0 Hκ0 Hk0) as [Ha Hκ1]; [simpl; lia..|].
    set (κ1 := with_objs _ κ0) in Ha, Hκ1.
    exists κ0, κ1. do 5 (split; [assumption || reflexivity|]). split.
    + intros c i. rewrite <-Hrg0. unfold slot_in_range, cn_slots. simpl. unfold upd_fn.
      case_decide; reflexivity.
    + etransitivity; [exact Hs0|]. eapply (kshrinks_upd_obj obj k0); [assumption|reflexivity..].
Qed.

(** The tail of the primitive, once the destination has been emptied. *)
Lemma install_commit_step hl ha cn idx obj r b parent unp old κ (s := InNode cn idx) :
  kinv (hold (hl_old hl old) obj 1) (ha_of (ha_old ha cn old) (Some cn) obj) κ →
  (∀ x, 0 ≤ hl x ∧ 0 ≤ ha x) →
  s ∈ mem (mdb κ) → object (mdb κ) s = None →
  (∀ p, parent_slot parent = Some p → p ≠ s ∧ object (mdb κ) p ≠ None) →
  returns (drop_old cn old (with_mdb (install_commit cn idx obj r b parent unp (mdb κ)) κ)) (λ κ',
    kinv hl ha κ' ∧
    cdt_shrinks (cdt_install s (obj, r, b) (parent_slot parent) (abs (mdb κ))) (abs (mdb κ')) ∧
    (old = None → cdt_eq (abs (mdb κ')) (cdt_install s (obj, r, b) (parent_slot parent) (abs (mdb κ)))) ∧
    mem (mdb κ') ⊆ mem (mdb κ)).
Proof.
  intros Hκ Hpos Hin Ho Hp.
  destruct (install_commit_spec cn idx obj r b parent unp (mdb κ)) as (Hinv & [f Hi] & Hcdt);
    [apply Hκ|assumption..|].
  set (σ' := install_commit cn idx obj r b parent unp (mdb κ)) in *.
  destruct (Hpos obj) as [Hlo Hao].
  assert (kinv (hl_old hl old) (ha_old ha cn old) (with_mdb σ' κ)) as Hκ'.
  { eapply (slot_installed_kinv _ _ κ s cn obj); try eassumption; [|..|reflexivity].
    - by apply hl_old_pos.
    - by apply ha_old_pos. }
  pose proof (drop_old_opt_spec _ _ _ _ _ Hκ' Hpos) as Hd.
  apply returns_Ret in Hd as (κ' & Heq & Htd). rewrite Heq. simpl.
  split; [apply Htd|]. split.
  - etransitivity; [by apply cdt_eq_shrinks; symmetry|]. apply (td_shr _ _ _ _ _ Htd).
  - split; [intros ->; injection Heq as <-; exact Hcdt|].
    pose proof (ks_mem _ _ (td_shr _ _ _ _ _ Htd)) as Hm. simpl in Hm.
    destruct Hi as (_ & _ & _ & _ & _ & _ & _ & Hmem). by rewrite Hmem in Hm.
Qed.

Lemma parent_accepted σ s parent pe :
  parent_rejected σ s parent pe = false →
  ∀ p, parent_slot parent = Some p → p ≠ s ∧ object σ p ≠ None.
Proof.
  unfold parent_rejected, parent_slot. destruct parent as [[pcn pidx]|]; simpl; [|done].
  intros Hr p [= <-]. destruct (object σ (InNode pcn pidx)); [|done].
  apply orb_false_iff in Hr as [Hr _]. apply bool_decide_eq_false in Hr. done.
Qed.

(** Emptying the destination does not change the verdict on the parent. *)
Lemma parent_rejected_delete σ σ' s parent pe :
  (∀ x, x ≠ s → object σ' x = object σ x) → object σ' s = None →
  parent_rejected σ' s parent pe = parent_rejected σ s parent pe.
Proof.
  intros Hx Hs. unfold parent_rejected. destruct parent as [[pcn pidx]|]; [|reflexivity].
  destruct (decide (InNode pcn pidx = s)) as [He|He].
  - rewrite He, Hs, bool_decide_true by done. by destruct (object σ s).
  - by rewrite Hx.
Qed.

Lemma cdt_delete_empty σ s :
  mdb_inv σ → object σ s = None → cdt_eq (cdt_delete s (abs σ)) (abs σ).
Proof.
  intros Hσ Ho. destruct (mi_empty _ Hσ s Ho) as [Hiso _].
  pose proof (isolated_not_target _ _ (to_forest _ (mi_tree _ Hσ)) Hiso) as Hno.
  destruct Hiso as [Hp _]. split; intros x; simpl.
  - unfold upd_fn. case_decide; [by subst; rewrite Ho|reflexivity].
  - destruct (Hno x) as [Hx _]. repeat case_decide; subst; congruence.
Qed.

Lemma cdt_caps_object σ σ' x :
  caps (abs σ') x = caps (abs σ) x → object σ' x = object σ x.
Proof. simpl. destruct (object σ' x), (object σ x); simpl; congruence. Qed.

Lemma install_displace hl ha cn idx (exclusive : bool) κ (s := InNode cn idx) :
  kinv hl ha κ → (exclusive = false → slot_in_range κ cn idx = true) →
  ∃ κ' old, (if exclusive then Ret (IRIS_OK, κ, None) else kcnode_slot_delete_locked cn idx κ) =
      Ret (IRIS_OK, κ', old) ∧
    kinv (hl_old hl old) (ha_old ha cn old) κ' ∧ kshrinks κ κ' ∧
    (∀ c i, slot_in_range κ' c i = slot_in_range κ c i) ∧
    (∀ parent pe, parent_rejected (mdb κ') s parent pe = parent_rejected (mdb κ) s parent pe) ∧
    (if exclusive then κ' = κ ∧ old = None
     else object (mdb κ') s = None ∧ old = object (mdb κ) s) ∧
    (object (mdb κ') s = None → cdt_eq (abs (mdb κ')) (cdt_delete s (abs (mdb κ)))).
Proof.
  intros Hκ Hrg. pose proof (ki_mdb _ _ _ Hκ) as Hσ. destruct exclusive.
  - exists κ, None. split; [reflexivity|]. split; [assumption|]. split; [reflexivity|].
    do 3 (split; [done|]). intros Ho. symmetry. by apply cdt_delete_empty.
  - pose proof (kcnode_slot_delete_locked_spec hl ha cn idx κ Hκ) as Hl.
    apply returns_Ret in Hl as ([[e κ'] old] & Heq & Hs & _ & He & Hold & Hr & Hm).
    rewrite Hrg in Hr by reflexivity. subst e. exists κ', old. split; [assumption|].
    assert (cdt_eq (abs (mdb κ')) (cdt_delete s (abs (mdb κ)))) as Hcdt.
    { destruct old; [apply Hm|]. subst κ'. symmetry. by apply cdt_delete_empty. }
    split; [destruct old; [apply Hm|by subst κ']|]. split; [assumption|].
    split; [|split; [|split; [by split|by intros _]]].
    + intros c i. unfold slot_in_range, cn_slots. unfold kcnode_slot_delete_locked in Heq.
      rewrite Hrg in Heq by reflexivity. simpl in Heq.
      destruct (object (mdb κ) (InNode cn idx)); [|by injection Heq as <- _].
      apply res_bind_Ret in Heq as (σ & _ & [= <- _]). reflexivity.
    + intros parent pe. apply parent_rejected_delete; [|assumption].
      intros x Hx. apply cdt_caps_object. destruct Hcdt as [Hc _]. rewrite Hc. simpl.
      unfold upd_fn. by rewrite decide_False.
Qed.

Record install_post hl ha (s : slotptr) (c : cap) (parent : option slotptr) κ
    (e : iris_error_t) κ' : Prop := InstallPost {
  ip_inv   : kinv hl ha κ';
  ip_fail  : e ≠ IRIS_OK → kshrinks κ κ';
  ip_fresh : e = IRIS_OK → object (mdb κ) s = None →
    cdt_eq (abs (mdb κ')) (cdt_install s c parent (abs (mdb κ)));
  ip_over  : e = IRIS_OK →
    cdt_shrinks (cdt_install s c parent (cdt_delete s (abs (mdb κ)))) (abs (mdb κ'));
  ip_mem   : mem (mdb κ') ⊆ mem (mdb κ);
}.

Lemma install_linked_spec hl ha cn idx obj k r b parent pe exclusive unp κ :
  kinv hl ha κ → objs κ obj = Some k → 1 ≤ refcount k → refcount k + active_refs k + 2 < 2 ^ 32 →
  returns (kcnode_slot_install_linked (Some cn) idx (Some obj) r b parent pe exclusive unp κ)
    (λ '(e, κ'), e = install_code κ cn idx r parent pe exclusive ∧
       install_post hl ha (InNode cn idx) (obj, r, b) (parent_slot parent) κ e κ').
Proof.
  intros Hκ Hk H1 Hb. unfold kcnode_slot_install_linked, install_code.
  assert (∀ e, e ≠ IRIS_OK → install_post hl ha (InNode cn idx) (obj, r, b) (parent_slot parent) κ e κ)
    as Hearly by (intros e He; split; [assumption|reflexivity|done|done|reflexivity]).
  destruct (r =? RIGHT_NONE); [by split; [|apply Hearly]|].
  change (match parent with Some (pcn, pidx) => negb (slot_in_range κ pcn pidx) | None => false end)
    with (match parent with Some (pcn, pidx) => negb (slot_in_range κ pcn pidx) | None => negb true end).
  replace (match parent with Some (pcn, pidx) => negb (slot_in_range κ pcn pidx) | None => negb true end)
    with (negb (parent_in_range κ parent)) by (by destruct parent as [[]|]).
  destruct (parent_in_range κ parent); [|by split; [|apply Hearly]]. simpl.
  destruct (negb exclusive && negb (slot_in_range κ cn idx)) eqn:Hex.
  { apply andb_true_iff in Hex as [_ ->]. by split; [|apply Hearly]. }
  assert (exclusive = false → slot_in_range κ cn idx = true) as Hrg.
  { intros ->. by apply negb_false_iff in Hex. }
  destruct (install_retain_spec hl ha cn obj k κ Hκ Hk H1 Hb)
    as (κ0 & κ1 & -> & Hact & Hκ1 & Hm1 & Hq1 & Hrg1 & Hs1).
  cbn [mbind res_bind]. rewrite Hact. cbn [mbind res_bind].
  destruct (install_displace _ _ cn idx exclusive κ1 Hκ1)
    as (κ2 & old & Hdis & Hκ2 & Hs2 & Hrg2 & Hrej2 & Hexc & Hcdt2).
  { rewrite Hrg1. exact Hrg. }
  rewrite Hdis. cbn [mbind res_bind negb]. rewrite bool_decide_true by reflexivity.
  cbn [negb]. rewrite Hrg2, Hrg1, Hrej2, Hm1.
  assert (kinv (hold (hl_old hl old) obj 1) (ha_of (ha_old ha cn old) (Some cn) obj) κ2) as Hκ2'.
  { eapply kinv_ext; [..|exact Hκ2]; intros x; symmetry; [apply hl_old_comm|apply ha_old_comm]. }
  pose proof (ki_hl _ _ _ Hκ) as Hpos.
  assert (∀ e, e ≠ IRIS_OK → returns (install_fail cn old (obj =? cn)%N obj e κ2) (λ '(e', κ'),
    e' = e ∧ install_post hl ha (InNode cn idx) (obj, r, b) (parent_slot parent) κ e' κ')) as Hfail.
  { intros e He. eapply returns_mono; [by apply install_fail_spec|].
    intros [e' κ'] [-> Htd]. assert (kshrinks κ κ') as Hs.
    { etransitivity; [exact Hs1|]. etransitivity; [exact Hs2|apply Htd]. }
    split; [reflexivity|]. split; [apply Htd|intros _; exact Hs|done|done|apply Hs]. }
  destruct (slot_in_range κ cn idx) eqn:Hin; cbn [negb orb]; [|by apply Hfail].
  destruct (parent_rejected (mdb κ) (InNode cn idx) parent pe) eqn:Hrej; [by apply Hfail|].
  destruct (object (mdb κ2) (InNode cn idx)) as [x|] eqn:Ho2.
  { destruct exclusive; [|destruct Hexc; congruence]. destruct Hexc as [-> ->].
    rewrite Hm1 in Ho2. rewrite Ho2. by apply Hfail. }
  assert ((if exclusive && bool_decide (is_Some (object (mdb κ) (InNode cn idx)))
    then IRIS_ERR_ALREADY_EXISTS else IRIS_OK) = IRIS_OK) as Hcode.
  { destruct exclusive; [|reflexivity]. destruct Hexc as [-> _]. rewrite Hm1 in Ho2.
    by rewrite Ho2. }
  rewrite Hcode. apply returns_bind.
  assert (InNode cn idx ∈ mem (mdb κ2)) as Hmem.
  { apply (slot_in_range_mem _ _ _ _ _ Hκ2). by rewrite Hrg2, Hrg1. }
  eapply returns_mono; [apply (install_commit_step hl ha cn idx obj r b parent unp old κ2 Hκ2' Hpos Hmem Ho2)|].
  { apply (parent_accepted _ _ _ pe). by rewrite Hrej2, Hm1. }
  intros κ3 (Hκ3 & Hsh3 & Heq3 & Hmem3). specialize (Hcdt2 eq_refl). rewrite Hm1 in Hcdt2.
  split; [reflexivity|]. split; [assumption|done|..].
  3: { etransitivity; [exact Hmem3|]. etransitivity; [apply Hs2|apply Hs1]. }
  - intros _ Hoe. assert (old = None) as Hold.
    { destruct exclusive; [by destruct Hexc|]. destruct Hexc as [_ ->]. by rewrite Hm1. }
    etransitivity; [by apply Heq3|]. apply cdt_install_proper.
    etransitivity; [exact Hcdt2|]. apply cdt_delete_empty; [apply Hκ|assumption].
  - intros _. etransitivity; [|exact Hsh3]. apply cdt_eq_shrinks, cdt_install_proper.
    by symmetry.
Qed.

(** ** The claims *)

(** an exclusive install is the abstract install or does nothing.  It
    returns with the code the checks on entry determine; on success the one new
    capability is there with its rights, badge and parent and no other changed;
    on every outcome the reference counts are exact. *)
Theorem kcnode_install_exclusive hl ha cn idx obj k r b parent pe unp κ :
  kinv hl ha κ → objs κ obj = Some k → 1 ≤ refcount k → refcount k + active_refs k + 2 < 2 ^ 32 →
  returns (kcnode_slot_install_linked (Some cn) idx (Some obj) r b parent pe true unp κ)
    (λ '(e, κ'), e = install_code κ cn idx r parent pe true ∧ kinv hl ha κ' ∧
       (e = IRIS_OK → cdt_eq (abs (mdb κ'))
          (cdt_install (InNode cn idx) (obj, r, b) (parent_slot parent) (abs (mdb κ)))) ∧
       (e ≠ IRIS_OK → cdt_shrinks (abs (mdb κ)) (abs (mdb κ')))).
Proof.
  intros Hκ Hk H1 Hb. eapply returns_mono; [by eapply (install_linked_spec hl ha)|].
  intros [e κ'] [He [P1 P2 P3 P4 _]]. split; [assumption|]. split; [assumption|]. split.
  - intros Hok. apply P3; [assumption|]. rewrite Hok in He. unfold install_code in He.
    destruct (_ || _); [done|]. destruct (object (mdb κ) (InNode cn idx)); [done|reflexivity].
  - intros Hne. apply (P2 Hne).
Qed.

(** Room for two more references to the object a slot names. *)
Definition refs_headroom κ s : Prop :=
  ∀ o k, object (mdb κ) s = Some o → objs κ o = Some k → refcount k + active_refs k + 2 < 2 ^ 32.

(** One new capability, a child of [src] at [dst], with no more authority. *)
Definition derived κ src dst κ' : Prop := ∃ obj r b,
  object (mdb κ) src = Some obj ∧ object (mdb κ) dst = None ∧
  rights_check (rights (mdb κ) src) RIGHT_DUPLICATE = true ∧
  rights_le r (rights (mdb κ) src) ∧ r ≠ RIGHT_NONE ∧
  (badge (mdb κ) src ≠ 0 → b = badge (mdb κ) src) ∧
  cdt_eq (abs (mdb κ')) (cdt_install dst (obj, r, b) (Some src) (abs (mdb κ))).

(** derivation never amplifies.  A successful [kcnode_slot_derive] adds
    exactly one capability, a child of the source slot naming the same object;
    its rights are among the source's, the source had the duplicate right, and
    a badged source passes its badge on unchanged. *)
Theorem kcnode_slot_derive_attenuates hl ha scn sidx dcn didx requested req_badge κ :
  kinv hl ha κ → refs_headroom κ (InNode scn sidx) →
  returns (kcnode_slot_derive (Some scn) sidx (Some dcn) didx requested req_badge κ)
    (λ '(e, κ'), kinv hl ha κ' ∧
       (e ≠ IRIS_OK → cdt_shrinks (abs (mdb κ)) (abs (mdb κ'))) ∧
       (e = IRIS_OK → derived κ (InNode scn sidx) (InNode dcn didx) κ')).
Proof.
  intros Hκ Hroom. unfold kcnode_slot_derive. set (src := InNode scn sidx).
  assert (∀ e, e ≠ IRIS_OK → kinv hl ha κ ∧
    (e ≠ IRIS_OK → cdt_shrinks (abs (mdb κ)) (abs (mdb κ))) ∧
    (e = IRIS_OK → derived κ src (InNode dcn didx) κ)) as Hearly.
  { intros e He. split; [assumption|]. split; [reflexivity|done]. }
  destruct (negb _ || negb _); [by apply Hearly|].
  destruct (_ && _); [by apply Hearly|].
  destruct (object (mdb κ) src) as [obj|] eqn:Ho; [|by apply Hearly].
  destruct (rights_check _ RIGHT_DUPLICATE) eqn:Hdup; [|by apply Hearly]. cbn [negb].
  destruct (Z.eqb_spec (rights_reduce (rights (mdb κ) src) requested) RIGHT_NONE) as [|Heff];
    [by apply Hearly|].
  destruct (slot_object_live _ _ _ _ _ Hκ Ho) as (k & Hk & H1 & _).
  unfold get_obj. rewrite Hk. cbn [of_assert mbind res_bind].
  destruct (mdb_badge_derive _ _ _) as [e|eb] eqn:Hbd.
  { apply Hearly. intros ->. by apply mdb_badge_derive_err in Hbd. }
  apply mdb_badge_derive_ok in Hbd as [Hb _].
  eapply returns_mono; [apply (install_linked_spec hl ha _ _ obj k); [assumption..|exact (Hroom obj k Ho Hk)]|].
  intros [e κ'] [He [P1 P2 P3 _ _]]. split; [assumption|].
  split; [intros Hne; apply (P2 Hne)|]. intros Hok.
  assert (object (mdb κ) (InNode dcn didx) = None) as Hd.
  { rewrite Hok in He. unfold install_code in He. destruct (_ || _); [done|].
    by destruct (object (mdb κ) (InNode dcn didx)). }
  exists obj, (rights_reduce (rights (mdb κ) src) requested), eb.
  split_and!; try assumption; [apply rights_reduce_le|by apply P3].
Qed.
