(* ===== verification/KcnodeMove.v ===== *)
(** * Move, rotate and swap

    A capability that changes slot takes its place in the derivation tree with
    it: parent, children and siblings.  On the abstract tree each relocation is
    [cdt_move], the exchange of two slot names, and the operations built from
    relocations are compositions of exchanges.

    Reference counts follow when the capability does not move into or out of
    the CNode it names ([same_home]): a slot naming its own CNode holds no
    active reference, and a relocation neither takes nor drops one. *)

From Stdlib Require Import ZArith Lia.
From stdpp Require Import base numbers gmap list.
From S2P Require Import Prelude Rights Forest Mdb Cdt Kobject Kcnode KcnodeInv.
Local Open Scope Z_scope.
Implicit Types (σ : mdb_state) (κ : kstate) (o cn idx : N) (s a b c from to : slotptr) (hl ha : N → Z).

(** ** One relocation *)

Lemma cdt_move_proper a b t t' : cdt_eq t t' → cdt_eq (cdt_move a b t) (cdt_move a b t').
Proof. intros [Hc Hu]. split; intros x; simpl; [apply Hc|by rewrite Hu]. Qed.

Definition owner_fits to (to_cn : N) : Prop := ∀ cn i, to = InNode cn i → cn = to_cn.

Lemma relocate_refines from to to_cn σ :
  mdb_inv σ → from ≠ to → object σ from ≠ None → object σ to = None → to ∈ mem σ →
  owner_fits to to_cn →
  ∃ σ', mdb_relocate from to to_cn σ = Some σ' ∧ mdb_inv σ' ∧
    cdt_eq (abs σ') (cdt_move from to (abs σ)) ∧ mem σ' = mem σ.
Proof.
  intros [[HL Hdom] Hempty Hown Hmem] Hne Hfrom Hto Hin Hfit.
  destruct (Hempty to Hto) as (Hiso & Hr0 & Hb0 & Hc0 & Hf0 & Hg0 & Hgb0).
  destruct (mdb_relocate_spec from to to_cn σ) as (σ' & Hσ' & Heq & Hrel);
    [by constructor|assumption..|].
  pose proof Hrel as (Ho & Hr & Hb & Hcn & Hf & Hg & Hgb & Hm).
  assert (∀ x, object σ' x = object σ (swap from to x)) as Hobj.
  { intros x. rewrite Ho. unfold upd_fn, swap. repeat case_decide; congruence. }
  assert (∀ x, isolated (lk σ) (swap from to x) → isolated (lk σ') x) as Hisos.
  { intros x (I1 & I2 & I3 & I4). destruct Heq as (H1 & H2 & H3 & H4). unfold isolated.
    rewrite H1, H2, H3, H4. simpl. rewrite I1, I2, I3, I4. split_and!; reflexivity. }
  exists σ'. split; [assumption|]. split; [|split; [|assumption]].
  - constructor; [constructor|..].
    + rewrite Heq. apply f_rename_ok; [apply swap_invol|assumption].
    + intros x Hx. rewrite Hm in Hx. apply Hisos. unfold swap.
      destruct (decide (x = from)) as [->|]; [assumption|].
      destruct (decide (x = to)) as [->|]; [done|]. by apply Hdom.
    + intros x Hx. rewrite Hobj in Hx. destruct (Hempty _ Hx) as (Hx1 & _).
      split; [by apply Hisos|]. rewrite Hr, Hb, Hcn, Hf, Hg, Hgb.
      unfold upd_fn, swap in *. repeat case_decide; subst; try done;
        try (split_and!; congruence). by apply Hempty.
    + intros cn i. rewrite Hobj, Hcn. unfold upd_fn, swap.
      repeat case_decide; subst; try done; [|apply Hown].
      intros _. f_equal. symmetry. by eapply Hfit.
    + intros x. rewrite Hm, Hobj. intros Hx. unfold swap.
      repeat case_decide; subst; [assumption|done|by apply Hmem].
  - split; intros x; simpl.
    + rewrite Hobj, Hr, Hb. unfold upd_fn, swap. repeat case_decide; subst; try done.
      * by rewrite Hto.
    + destruct Heq as (H1 & _). apply H1.
Qed.

(** ** The reference counts *)

(** A capability to [o] owes the same active reference in both slots. *)
Definition same_home o a b : Prop := slot_home a = Some o ↔ slot_home b = Some o.

#[global] Instance same_home_dec o a b : Decision (same_home o a b).
Proof. unfold same_home. apply _. Defined.

Lemma kinv_moved hl ha κ σ' (f : slotptr → slotptr) :
  kinv hl ha κ → mdb_inv σ' → mem σ' = mem (mdb κ) →
  (∀ x, f (f x) = x) → (∀ x, x ∈ mem (mdb κ) → f x ∈ mem (mdb κ)) →
  (∀ x, object σ' x = object (mdb κ) (f x)) → object σ' OnStack = None →
  (∀ x o, object σ' x = Some o → same_home o x (f x)) →
  kinv hl ha (with_mdb σ' κ).
Proof.
  intros [H1 H2 H3 H4 H5 H6 H7 H8 H9] Hinv Hm Hf Hfm Ho Hst Hh.
  assert (∀ o, names (mdb κ) o = names σ' o) as Hn.
  { intros o. unfold names. rewrite Hm. apply (count_invol _ _ f); [assumption..|].
    intros x _. by rewrite Ho. }
  assert (∀ o, anames (mdb κ) o = anames σ' o) as Ha.
  { intros o. unfold anames. rewrite Hm. apply (count_invol _ _ f); [assumption..|].
    intros x _. rewrite Ho. specialize (Hh x o). rewrite Ho in Hh. unfold same_home in Hh.
    split; intros [E1 E2]; (split; [assumption|]); specialize (Hh E1); tauto. }
  constructor; simpl; try assumption.
  - by rewrite Hm.
  - intros. rewrite Hm. apply H4.
  - intros o k Hk. rewrite <-Hn, <-Ha. exact (H8 o k Hk).
  - intros o. rewrite <-Hn. apply H9.
Qed.

Lemma cdt_move_object a b σ σ' x :
  cdt_eq (abs σ') (cdt_move a b (abs σ)) → object σ' x = object σ (swap a b x).
Proof.
  intros [Hc _]. specialize (Hc x). simpl in Hc.
  destruct (object σ' x), (object σ (swap a b x)); simpl in Hc; congruence.
Qed.

Lemma swap_mem a b (X : gset slotptr) x : a ∈ X → b ∈ X → x ∈ X → swap a b x ∈ X.
Proof. intros. unfold swap. repeat case_decide; assumption. Qed.

(** The objects exchanged owe the same references on both sides. *)
Definition homes_agree σ a b : Prop :=
  ∀ o, object σ a = Some o ∨ object σ b = Some o → same_home o a b.

Lemma kinv_swapped hl ha κ σ' a b :
  kinv hl ha κ → mdb_inv σ' → mem σ' = mem (mdb κ) →
  a ∈ mem (mdb κ) → b ∈ mem (mdb κ) → a ≠ OnStack → b ≠ OnStack →
  homes_agree (mdb κ) a b → cdt_eq (abs σ') (cdt_move a b (abs (mdb κ))) →
  kinv hl ha (with_mdb σ' κ).
Proof.
  intros Hκ Hinv Hm Ha Hb Hna Hnb Hh Hcdt.
  assert (∀ x, object σ' x = object (mdb κ) (swap a b x)) as Ho
    by (intros x; by apply cdt_move_object).
  apply (kinv_moved _ _ _ _ (swap a b)); [assumption..|apply swap_invol| |assumption| |].
  - intros x Hx. by apply swap_mem.
  - rewrite Ho, swap_other by congruence. apply (ki_stack _ _ _ Hκ).
  - intros x o Hx. rewrite Ho in Hx. unfold homes_agree, same_home in *. unfold swap in *.
    destruct (decide (x = a)) as [->|]; [by apply Hh; right|].
    destruct (decide (x = b)) as [->|]; [|reflexivity]. symmetry. apply Hh. by left.
Qed.

(** ** Exchanges compose *)

Lemma cdt_move_vacant σ a b :
  mdb_inv σ → object σ a = None → object σ b = None → cdt_eq (cdt_move a b (abs σ)) (abs σ).
Proof.
  intros Hσ Ha Hb. pose proof (to_forest _ (mi_tree _ Hσ)) as HL.
  destruct (mi_empty _ Hσ a Ha) as [Ia _]. destruct (mi_empty _ Hσ b Hb) as [Ib _].
  pose proof (isolated_not_target _ _ HL Ia) as Na. pose proof (isolated_not_target _ _ HL Ib) as Nb.
  destruct Ia as [Pa _], Ib as [Pb _]. split; intros x; simpl.
  - unfold swap. repeat case_decide; subst; rewrite ?Ha, ?Hb; done.
  - assert (mdb_parent σ (swap a b x) = mdb_parent σ x) as ->.
    { unfold swap. repeat case_decide; subst; congruence. }
    destruct (mdb_parent σ x) as [y|] eqn:Hy; [|reflexivity]. simpl. f_equal.
    destruct (Na x) as [Nax _], (Nb x) as [Nbx _]. apply swap_other; congruence.
Qed.

Lemma cdt_move_sym t a b : cdt_eq (cdt_move a b t) (cdt_move b a t).
Proof.
  assert (∀ x, swap a b x = swap b a x) as Hs
    by (intros x; unfold swap; repeat case_decide; congruence).
  split; intros x; simpl; rewrite Hs; [reflexivity|]. apply option_fmap_ext. intros y. apply Hs.
Qed.

(** Through a third slot. *)
Lemma cdt_move_conj t a b c :
  a ≠ b → a ≠ c → b ≠ c →
  cdt_eq (cdt_move c b (cdt_move b a (cdt_move a c t))) (cdt_move a b t).
Proof.
  intros. assert (∀ x, swap a c (swap b a (swap c b x)) = swap a b x) as H1'
    by (intros x; unfold swap; repeat case_decide; congruence).
  assert (∀ x, swap c b (swap b a (swap a c x)) = swap a b x) as H2'
    by (intros x; unfold swap; repeat case_decide; congruence).
  split; intros x; simpl; rewrite H1'; [reflexivity|].
  rewrite <-!option_fmap_compose. apply option_fmap_ext. intros y. apply H2'.
Qed.

Lemma cdt_move_via t a b c :
  a ≠ b → a ≠ c → b ≠ c →
  cdt_eq (cdt_move c b (cdt_move a c t)) (cdt_move a b (cdt_move c b t)).
Proof.
  intros. assert (∀ x, swap a c (swap c b x) = swap c b (swap a b x)) as H1'
    by (intros x; unfold swap; repeat case_decide; congruence).
  assert (∀ x, swap c b (swap a c x) = swap a b (swap c b x)) as H2'
    by (intros x; unfold swap; repeat case_decide; congruence).
  split; intros x; simpl; rewrite H1'; [reflexivity|].
  rewrite <-!option_fmap_compose. apply option_fmap_ext. intros y. apply H2'.
Qed.

Lemma mdb_inv_relocate_k from to to_cn κ :
  mdb_inv (mdb κ) → from ≠ to → object (mdb κ) from ≠ None → object (mdb κ) to = None →
  to ∈ mem (mdb κ) → owner_fits to to_cn →
  ∃ κ', relocate from to to_cn κ = Ret κ' ∧ κ' = with_mdb (mdb κ') κ ∧ mdb_inv (mdb κ') ∧
    cdt_eq (abs (mdb κ')) (cdt_move from to (abs (mdb κ))) ∧ mem (mdb κ') = mem (mdb κ) ∧
    (∀ x, object (mdb κ') x = object (mdb κ) (swap from to x)).
Proof.
  intros. destruct (relocate_refines from to to_cn (mdb κ)) as (σ' & Hσ' & ? & ? & ?); [assumption..|].
  exists (with_mdb σ' κ). unfold relocate. rewrite Hσ'.
  split; [reflexivity|]. split; [by destruct κ|]. do 3 (split; [assumption|]).
  intros x. by apply cdt_move_object.
Qed.

Lemma homes_agree_one σ a b o :
  object σ a = Some o → object σ b = None → same_home o a b → homes_agree σ a b.
Proof. intros Ha Hb Hh x [Hx|Hx]; [|congruence]. rewrite Ha in Hx. by injection Hx as <-. Qed.

(** ** The claims *)

Definition move_code κ scn src_idx dcn dst_idx : iris_error_t :=
  if negb (slot_in_range κ scn src_idx) || negb (slot_in_range κ dcn dst_idx)
     || bool_decide (InNode scn src_idx = InNode dcn dst_idx) then IRIS_ERR_INVALID_ARG
  else match object (mdb κ) (InNode scn src_idx), object (mdb κ) (InNode dcn dst_idx) with
       | None, _ => IRIS_ERR_NOT_FOUND
       | Some _, Some _ => IRIS_ERR_ALREADY_EXISTS
       | Some _, None => IRIS_OK
       end.

Lemma slot_eqb scn src_idx dcn dst_idx :
  (scn =? dcn)%N && (src_idx =? dst_idx)%N = bool_decide (InNode scn src_idx = InNode dcn dst_idx).
Proof.
  destruct (N.eqb_spec scn dcn), (N.eqb_spec src_idx dst_idx); case_bool_decide; simpl; congruence.
Qed.

Lemma slot_move_spec hl ha scn src_idx dcn dst_idx κ :
  kinv hl ha κ →
  (∀ o, object (mdb κ) (InNode scn src_idx) = Some o →
     same_home o (InNode scn src_idx) (InNode dcn dst_idx)) →
  returns (kcnode_slot_move (Some scn) src_idx (Some dcn) dst_idx κ) (λ '(e, κ'),
    e = move_code κ scn src_idx dcn dst_idx ∧ kinv hl ha κ' ∧
    if decide (e = IRIS_OK)
    then cdt_eq (abs (mdb κ')) (cdt_move (InNode scn src_idx) (InNode dcn dst_idx) (abs (mdb κ)))
    else κ' = κ).
Proof.
  intros Hκ Hh. unfold kcnode_slot_move, move_code. rewrite slot_eqb.
  set (src := InNode scn src_idx) in *. set (dst := InNode dcn dst_idx) in *.
  destruct (slot_in_range κ scn src_idx) eqn:Hr1; simpl; [|by split_and!].
  destruct (slot_in_range κ dcn dst_idx) eqn:Hr2; simpl; [|by split_and!].
  case_bool_decide as Hne; simpl; [by split_and!|].
  destruct (object (mdb κ) src) as [o|] eqn:Ho; [|by split_and!].
  destruct (object (mdb κ) dst) as [o'|] eqn:Hd; [by split_and!|].
  apply (slot_in_range_mem _ _ _ _ _ Hκ) in Hr1, Hr2.
  destruct (mdb_inv_relocate_k src dst dcn κ) as (κ' & -> & Hκ' & Hinv & Hcdt & Hm & _);
    [apply Hκ|assumption|congruence|assumption|assumption|by intros ? ? [= <- _]|].
  cbn [mbind res_bind returns]. split; [reflexivity|]. split; [|exact Hcdt].
  apply kinv_ctr. rewrite Hκ'. apply (kinv_swapped _ _ _ _ src dst); try assumption; [done..|].
  eapply homes_agree_one; [eassumption..|]. by apply Hh.
Qed.

(** a move either reports the error the entry checks determine and changes
    nothing, or exchanges the two slots in the derivation tree: same rights,
    same badge, same parent, same children, and exact reference counts as long
    as the capability does not cross the border of the CNode it names. *)
Theorem kcnode_slot_move_refines hl ha scn src_idx dcn dst_idx κ :
  kinv hl ha κ →
  (∀ o, object (mdb κ) (InNode scn src_idx) = Some o →
     same_home o (InNode scn src_idx) (InNode dcn dst_idx)) →
  returns (kcnode_slot_move (Some scn) src_idx (Some dcn) dst_idx κ) (λ '(e, κ'),
    e = move_code κ scn src_idx dcn dst_idx ∧ kinv hl ha κ' ∧
    if decide (e = IRIS_OK)
    then cdt_eq (abs (mdb κ')) (cdt_move (InNode scn src_idx) (InNode dcn dst_idx) (abs (mdb κ)))
    else κ' = κ).
Proof. apply slot_move_spec. Qed.

Definition rotate_code κ dcn dest_idx pcn pivot_idx scn src_idx : iris_error_t :=
  let dest := InNode dcn dest_idx in let pivot := InNode pcn pivot_idx in
  let src := InNode scn src_idx in
  if negb (slot_in_range κ dcn dest_idx) || negb (slot_in_range κ pcn pivot_idx)
     || negb (slot_in_range κ scn src_idx) || bool_decide (src = pivot) || bool_decide (dest = pivot)
  then IRIS_ERR_INVALID_ARG
  else match object (mdb κ) src, object (mdb κ) pivot with
       | Some _, Some _ =>
           if negb (bool_decide (dest = src)) && bool_decide (is_Some (object (mdb κ) dest))
           then IRIS_ERR_ALREADY_EXISTS else IRIS_OK
       | _, _ => IRIS_ERR_NOT_FOUND
       end.

(** The exchange through the stack-resident temporary. *)
Lemma relocate_via_stack a b acn bcn tcn κ :
  mdb_inv (mdb κ) → a ≠ b → object (mdb κ) a ≠ None → object (mdb κ) b ≠ None →
  object (mdb κ) OnStack = None → OnStack ∈ mem (mdb κ) → a ∈ mem (mdb κ) → b ∈ mem (mdb κ) →
  owner_fits a acn → owner_fits b bcn →
  ∃ κ', (κ ← relocate a OnStack tcn κ; κ ← relocate b a acn κ; relocate OnStack b bcn κ) = Ret κ' ∧
    κ' = with_mdb (mdb κ') κ ∧ mdb_inv (mdb κ') ∧
    cdt_eq (abs (mdb κ')) (cdt_move a b (abs (mdb κ))) ∧ mem (mdb κ') = mem (mdb κ).
Proof.
  intros Hσ Hab Ha Hb Hst Hsm Ham Hbm Hfa Hfb.
  assert (a ≠ OnStack) as Has by congruence. assert (b ≠ OnStack) as Hbs by congruence.
  destruct (mdb_inv_relocate_k a OnStack tcn κ) as (κ1 & -> & E1 & I1 & C1 & M1 & O1);
    [assumption..|done|]. cbn [mbind res_bind].
  destruct (mdb_inv_relocate_k b a acn κ1) as (κ2 & -> & E2 & I2 & C2 & M2 & O2);
    [assumption|congruence|by rewrite O1, swap_other|by rewrite O1, swap_l|by rewrite M1|assumption|].
  cbn [mbind res_bind].
  destruct (mdb_inv_relocate_k OnStack b bcn κ2) as (κ3 & -> & E3 & I3 & C3 & M3 & O3);
    [assumption|congruence| | |by rewrite M2, M1|assumption|].
  { by rewrite O2, swap_other, O1, swap_r. }
  { by rewrite O2, swap_l, O1, swap_l. }
  exists κ3. split; [reflexivity|]. split; [rewrite E3, E2, E1; reflexivity|].
  split; [assumption|]. split; [|congruence].
  etransitivity; [exact C3|]. etransitivity; [by apply cdt_move_proper|].
  etransitivity; [by do 2 apply cdt_move_proper|]. by apply cdt_move_conj.
Qed.

(** Rotate either reports the error the entry checks determine and changes
    nothing, or moves the pivot to the destination and the source to the pivot
    in one step, with the source as destination an exchange of the two. *)
Theorem kcnode_slot_rotate_refines hl ha dcn dest_idx pcn pivot_idx scn src_idx κ
    (dest := InNode dcn dest_idx) (pivot := InNode pcn pivot_idx) (src := InNode scn src_idx) :
  kinv hl ha κ → homes_agree (mdb κ) src pivot → homes_agree (mdb κ) pivot dest →
  returns (kcnode_slot_rotate (Some dcn) dest_idx (Some pcn) pivot_idx (Some scn) src_idx κ)
   (λ '(e, κ'),
    e = rotate_code κ dcn dest_idx pcn pivot_idx scn src_idx ∧ kinv hl ha κ' ∧
    if decide (e = IRIS_OK)
    then cdt_eq (abs (mdb κ'))
           (if decide (dest = src) then cdt_move src pivot (abs (mdb κ))
            else cdt_move src pivot (cdt_move pivot dest (abs (mdb κ))))
    else κ' = κ).
Proof.
  intros Hκ Hh1 Hh2. unfold kcnode_slot_rotate, rotate_code. fold dest pivot src. cbv zeta.
  destruct (slot_in_range κ dcn dest_idx) eqn:Hr1; simpl; [|by split_and!].
  destruct (slot_in_range κ pcn pivot_idx) eqn:Hr2; simpl; [|by split_and!].
  destruct (slot_in_range κ scn src_idx) eqn:Hr3; simpl; [|by split_and!].
  case_bool_decide as Hsp; simpl; [by split_and!|].
  case_bool_decide as Hdp; simpl; [by split_and!|].
  destruct (object (mdb κ) src) as [os|] eqn:Hs; [|by split_and!].
  destruct (object (mdb κ) pivot) as [op|] eqn:Hp; [|by split_and!].
  apply (slot_in_range_mem _ _ _ _ _ Hκ) in Hr1, Hr2, Hr3. pose proof (ki_mdb _ _ _ Hκ) as Hσ.
  destruct (bool_decide (dest = src)) eqn:Hds; cbn [negb andb].
  - apply bool_decide_eq_true in Hds.
    destruct (relocate_via_stack src pivot dcn pcn scn κ) as (κ' & Hk' & E & I & C & M);
      try assumption; [congruence|congruence|apply (ki_stack _ _ _ Hκ)|apply (ki_smem _ _ _ Hκ)|rewrite <-Hds; by intros ? ? [= <- _]
      |by intros ? ? [= <- _]|].
    rewrite Hds, Hk'. cbn [mbind res_bind returns]. split; [reflexivity|].
    rewrite !decide_True by done. split; [|exact C].
    apply kinv_ctr. rewrite E. by apply (kinv_swapped _ _ _ _ src pivot).
  - apply bool_decide_eq_false in Hds.
    destruct (object (mdb κ) dest) as [od|] eqn:Hd; cbn [bool_decide]; [by split_and!|].
    rewrite bool_decide_false by (by intros [? ?]).
    destruct (mdb_inv_relocate_k pivot dest dcn κ) as (κ1 & -> & E1 & I1 & C1 & M1 & O1);
      [assumption|congruence|congruence|assumption|assumption|by intros ? ? [= <- _]|].
    cbn [mbind res_bind].
    assert (kinv hl ha κ1) as Hκ1
      by (rewrite E1; by apply (kinv_swapped _ _ _ _ pivot dest)).
    destruct (mdb_inv_relocate_k src pivot pcn κ1) as (κ2 & -> & E2 & I2 & C2 & M2 & O2);
      [assumption|assumption| | |by rewrite M1|by intros ? ? [= <- _]|].
    { rewrite O1, swap_other by congruence. congruence. }
    { by rewrite O1, swap_l. }
    cbn [mbind res_bind returns]. split; [reflexivity|].
    rewrite decide_True by done. rewrite decide_False by done. split.
    + apply kinv_ctr. rewrite E2. apply (kinv_swapped _ _ _ _ src pivot); try assumption; try done.
      * by rewrite M1.
      * by rewrite M1.
      * intros o Hx. apply Hh1. rewrite !O1, swap_l, swap_other in Hx by congruence.
        left. destruct Hx; congruence.
    + etransitivity; [exact C2|]. by apply cdt_move_proper.
Qed.

(** The three guarded relocations of [kcnode_swap], case by case. *)
Lemma swap_steps cn ia ib κ (a := InNode cn ia) (b := InNode cn ib) :
  mdb_inv (mdb κ) → a ≠ b → object (mdb κ) OnStack = None → OnStack ∈ mem (mdb κ) →
  a ∈ mem (mdb κ) → b ∈ mem (mdb κ) →
  let a_occ := bool_decide (is_Some (object (mdb κ) a)) in
  let b_occ := bool_decide (is_Some (object (mdb κ) b)) in
  ∃ κ', (κ ← (if a_occ then relocate a OnStack cn κ else Ret κ);
         κ ← (if b_occ then relocate b a cn κ else Ret κ);
         if a_occ then relocate OnStack b cn κ else Ret κ) = Ret κ' ∧
    κ' = with_mdb (mdb κ') κ ∧ mdb_inv (mdb κ') ∧
    cdt_eq (abs (mdb κ')) (cdt_move a b (abs (mdb κ))) ∧ mem (mdb κ') = mem (mdb κ).
Proof.
  intros Hσ Hab Hst Hsm Ham Hbm. cbv zeta.
  assert (a ≠ OnStack ∧ b ≠ OnStack) as [Has Hbs] by done.
  assert (owner_fits a cn) as Hfa by (by intros ? ? [= <- _]).
  assert (owner_fits b cn) as Hfb by (by intros ? ? [= <- _]). clearbody a b.
  destruct (object (mdb κ) a) as [oa|] eqn:Ha; destruct (object (mdb κ) b) as [ob|] eqn:Hb.
  - rewrite !bool_decide_true by eauto. apply relocate_via_stack; try assumption; congruence.
  - rewrite bool_decide_true, bool_decide_false by (eauto; by intros [? ?]).
    destruct (mdb_inv_relocate_k a OnStack cn κ) as (κ1 & -> & E1 & I1 & C1 & M1 & O1);
      [assumption|done|congruence|assumption..|done|]. cbn [mbind res_bind].
    destruct (mdb_inv_relocate_k OnStack b cn κ1) as (κ2 & -> & E2 & I2 & C2 & M2 & O2);
      [assumption|congruence| | |by rewrite M1|assumption|].
    { rewrite O1, swap_r. congruence. }
    { by rewrite O1, swap_other by congruence. }
    exists κ2. split; [reflexivity|]. split; [rewrite E2, E1; reflexivity|].
    split; [assumption|]. split; [|congruence].
    etransitivity; [exact C2|]. etransitivity; [by apply cdt_move_proper|].
    etransitivity; [by apply cdt_move_via|]. apply cdt_move_proper. by apply cdt_move_vacant.
  - rewrite bool_decide_false, bool_decide_true by (eauto; by intros [? ?]). cbn [mbind res_bind].
    destruct (mdb_inv_relocate_k b a cn κ) as (κ1 & -> & E1 & I1 & C1 & M1 & O1);
      [assumption|congruence|congruence|assumption..|]. cbn [mbind res_bind].
    exists κ1. do 3 (split; [assumption || reflexivity|]). split; [|assumption].
    etransitivity; [exact C1|]. apply cdt_move_sym.
  - rewrite !bool_decide_false by (by intros [? ?]). cbn [mbind res_bind].
    exists κ. split; [reflexivity|]. split; [by destruct κ|]. split; [assumption|].
    split; [|reflexivity]. symmetry. by apply cdt_move_vacant.
Qed.

(** Swap exchanges two slots of a CNode, whatever they hold: each occupied
    one takes its place in the derivation tree to the other, and the reference
    counts do not change. *)
Theorem kcnode_swap_refines hl ha cn ia ib κ :
  kinv hl ha κ →
  returns (kcnode_swap (Some cn) ia ib κ) (λ '(e, κ'),
    e = (if (ia =? ib)%N || negb (slot_in_range κ cn ia) || negb (slot_in_range κ cn ib)
         then IRIS_ERR_INVALID_ARG else IRIS_OK) ∧
    kinv hl ha κ' ∧
    if decide (e = IRIS_OK)
    then cdt_eq (abs (mdb κ')) (cdt_move (InNode cn ia) (InNode cn ib) (abs (mdb κ)))
    else κ' = κ).
Proof.
  intros Hκ. unfold kcnode_swap. destruct (N.eqb_spec ia ib) as [|Hne]; simpl; [by split_and!|].
  destruct (slot_in_range κ cn ia) eqn:Hr1; simpl; [|by split_and!].
  destruct (slot_in_range κ cn ib) eqn:Hr2; simpl; [|by split_and!].
  apply (slot_in_range_mem _ _ _ _ _ Hκ) in Hr1, Hr2.
  destruct (swap_steps cn ia ib κ) as (κ' & Hk & E & I & C & M);
    [apply Hκ|congruence|apply (ki_stack _ _ _ Hκ)|apply (ki_smem _ _ _ Hκ)|assumption..|].
  cbv zeta in Hk. apply res_bind_Ret in Hk as (κ1 & H1 & Hk). rewrite H1. cbn [mbind res_bind].
  apply res_bind_Ret in Hk as (κ2 & H2 & Hk). rewrite H2. cbn [mbind res_bind].
  rewrite Hk. cbn [mbind res_bind returns].
  split; [reflexivity|]. split; [|exact C].
  rewrite E. apply (kinv_swapped _ _ _ _ (InNode cn ia) (InNode cn ib)); try assumption; try done.
Qed.
