(* ===== verification/Cspace.v ===== *)
(** * CSpace resolution (kernel/new_core/src/cspace.c)

    A CPtr is resolved by a radix walk: each level consumes an index (and the
    guard of the capability the level was entered through) from the low end,
    takes both references on the next CNode and drops them on the last one.
    The walk of the code is modelled with every retain and release on the
    state of [Kobject.v]; [cspace_lookup] is the reference definition, the same
    walk on a state nobody changes.  The theorems show that the code computes
    the reference walk and is read-only but for the references it returns. *)

From Stdlib Require Import ZArith Lia.
From stdpp Require Import base numbers gmap list.
From S2P Require Import Prelude Rights Forest Mdb Cdt Kobject Kcnode KcnodeInv KcnodeInstall.
Local Open Scope Z_scope.
Implicit Types (σ : mdb_state) (κ : kstate) (o cn idx root cur : N) (hl ha : N → Z).

Definition IRIS_CPTR_NULL : Z := 0.
Definition IRIS_CPTR_LIMIT : Z := Z.shiftl 1 31.
Definition CSPACE_MAX_DEPTH : nat := 8.

Definition cspace_value_is_cptr (v : Z) : bool :=
  negb (v =? IRIS_CPTR_NULL) && (v <? IRIS_CPTR_LIMIT).

(** What the walk reads of the running thread: [cspace_root],
    [cspace_root_guard], [cspace_root_guard_bits]; [None] is no current task. *)
Record task_root := TaskRoot {
  cspace_root            : option N;
  cspace_root_guard      : Z;
  cspace_root_guard_bits : Z;
}.

Definition entry_guard (self : option task_root) root : Z * Z :=
  match self with
  | Some t =>
      if bool_decide (cspace_root t = Some root) && negb (cspace_root_guard_bits t =? 0)
      then (cspace_root_guard t, cspace_root_guard_bits t) else (0, 0)
  | None => (0, 0)
  end.

Definition guard_mask (bits : Z) : Z :=
  if 64 <=? bits then 2 ^ 64 - 1 else Z.shiftl 1 bits - 1.

(** [cptr & (slot_count - 1)] as an index. *)
Definition level_index κ cur (cptr : Z) : N :=
  Z.to_N (Z.land cptr (Z.of_N (cn_slots κ cur) - 1)).

(** [kobject_active_release(o); kobject_release(o);] *)
Definition put_refs o κ : res kstate := κ ← active_release o κ; release o κ.

Definition resolved : Type := iris_error_t + (N * Z * Z).

(** ** The walks *)

Fixpoint resolve_loop (depth : nat) cur (cptr pending_guard pending_guard_bits required : Z) κ
    : res (resolved * kstate) :=
  match depth with
  | O => κ ← put_refs cur κ; Ret (inl IRIS_ERR_INVALID_ARG, κ)
  | S depth =>
    let idx := level_index κ cur cptr in
    let cptr := Z.shiftr cptr (ctz (cn_slots κ cur)) in
    if negb (pending_guard_bits =? 0)
       && negb (Z.land cptr (guard_mask pending_guard_bits) =? pending_guard)
    then κ ← put_refs cur κ; Ret (inl IRIS_ERR_NOT_FOUND, κ)
    else
      let cptr := if pending_guard_bits =? 0 then cptr else Z.shiftr cptr pending_guard_bits in
      f ← kcnode_fetch_guarded (Some cur) idx κ;
      match f with
      | inl e => κ ← put_refs cur κ; Ret (inl e, κ)
      | inr (slot_obj, slot_rights, slot_badge, next_guard, next_guard_bits, κ) =>
        κ ← put_refs cur κ;
        k ← get_obj slot_obj κ;
        if negb (cptr =? 0) && negb (bool_decide (otype k = KOBJ_CNODE))
        then κ ← put_refs slot_obj κ; Ret (inl IRIS_ERR_INVALID_ARG, κ)
        else if cptr =? 0 then
          if negb (required =? RIGHT_NONE) && negb (rights_check slot_rights required)
          then κ ← put_refs slot_obj κ; Ret (inl IRIS_ERR_ACCESS_DENIED, κ)
          else Ret (inr (slot_obj, slot_rights, slot_badge), κ)
        else resolve_loop depth slot_obj cptr next_guard next_guard_bits required κ
      end
  end.

Definition cspace_resolve_cap_badged (self : option task_root) (root : option N)
    (cptr required : Z) κ : res (resolved * kstate) :=
  if cptr =? IRIS_CPTR_NULL then Ret (inl IRIS_ERR_INVALID_ARG, κ)
  else match root with
  | None => Ret (inl IRIS_ERR_NOT_FOUND, κ)
  | Some root =>
      κ ← kobject_retain root κ;
      κ ← kobject_active_retain root κ;
      let '(g, gb) := entry_guard self root in
      resolve_loop CSPACE_MAX_DEPTH root cptr g gb required κ
  end.

(** No [badge_out]. *)
Definition cspace_resolve_cap := cspace_resolve_cap_badged.

(** The slot resolvers return the containing CNode, with its references, and
    the index. *)
Fixpoint resolve_slot_loop (depth : nat) cur (cptr : Z) κ
    : res ((iris_error_t + N * N) * kstate) :=
  match depth with
  | O => κ ← put_refs cur κ; Ret (inl IRIS_ERR_INVALID_ARG, κ)
  | S depth =>
    let idx := level_index κ cur cptr in
    let cptr := Z.shiftr cptr (ctz (cn_slots κ cur)) in
    f ← kcnode_fetch (Some cur) idx κ;
    match f with
    | inl e => κ ← put_refs cur κ; Ret (inl e, κ)
    | inr (slot_obj, _, _, κ) =>
      k ← get_obj slot_obj κ;
      if negb (cptr =? 0) && negb (bool_decide (otype k = KOBJ_CNODE))
      then κ ← put_refs slot_obj κ; κ ← put_refs cur κ; Ret (inl IRIS_ERR_INVALID_ARG, κ)
      else if cptr =? 0 then κ ← put_refs slot_obj κ; Ret (inr (cur, idx), κ)
      else κ ← put_refs cur κ; resolve_slot_loop depth slot_obj cptr κ
    end
  end.

Definition cspace_resolve_slot (root : option N) (cptr : Z) κ
    : res ((iris_error_t + N * N) * kstate) :=
  if cptr =? IRIS_CPTR_NULL then Ret (inl IRIS_ERR_INVALID_ARG, κ)
  else match root with
  | None => Ret (inl IRIS_ERR_NOT_FOUND, κ)
  | Some root =>
      κ ← kobject_retain root κ;
      κ ← kobject_active_retain root κ;
      resolve_slot_loop CSPACE_MAX_DEPTH root cptr κ
  end.

Fixpoint resolve_dest_loop (depth : nat) cur (cptr : Z) κ
    : res ((iris_error_t + N * N) * kstate) :=
  match depth with
  | O => κ ← put_refs cur κ; Ret (inl IRIS_ERR_INVALID_ARG, κ)
  | S depth =>
    let idx := level_index κ cur cptr in
    let cptr := Z.shiftr cptr (ctz (cn_slots κ cur)) in
    if cptr =? 0 then Ret (inr (cur, idx), κ)
    else
      f ← kcnode_fetch (Some cur) idx κ;
      match f with
      | inl e => κ ← put_refs cur κ; Ret (inl e, κ)
      | inr (slot_obj, _, _, κ) =>
        k ← get_obj slot_obj κ;
        if negb (bool_decide (otype k = KOBJ_CNODE))
        then κ ← put_refs slot_obj κ; κ ← put_refs cur κ; Ret (inl IRIS_ERR_INVALID_ARG, κ)
        else κ ← put_refs cur κ; resolve_dest_loop depth slot_obj cptr κ
      end
  end.

Definition cspace_resolve_dest_slot (root : option N) (cptr : Z) κ
    : res ((iris_error_t + N * N) * kstate) :=
  if cptr =? IRIS_CPTR_NULL then Ret (inl IRIS_ERR_INVALID_ARG, κ)
  else match root with
  | None => Ret (inl IRIS_ERR_NOT_FOUND, κ)
  | Some root =>
      κ ← kobject_retain root κ;
      κ ← kobject_active_retain root κ;
      resolve_dest_loop CSPACE_MAX_DEPTH root cptr κ
  end.

(** ** Typed resolvers *)

(** [TYPED_RESOLVE(fn, member_type, kobj_tag)]. *)
Definition typed_resolve (tag : kobject_type_t) self (root : option N) (cptr required : Z) κ
    : res ((iris_error_t + N * Z) * kstate) :=
  '(r, κ) ← cspace_resolve_cap self root cptr required κ;
  match r with
  | inl e => Ret (inl e, κ)
  | inr (obj, rts, _) =>
      k ← get_obj obj κ;
      if negb (bool_decide (otype k = tag))
      then κ ← put_refs obj κ; Ret (inl IRIS_ERR_WRONG_TYPE, κ)
      else Ret (inr (obj, rts), κ)
  end.

Definition cspace_resolve_endpoint := typed_resolve KOBJ_ENDPOINT.
Definition cspace_resolve_reply := typed_resolve KOBJ_REPLY.
Definition cspace_resolve_cnode := typed_resolve KOBJ_CNODE.
Definition cspace_resolve_notification := typed_resolve KOBJ_NOTIFICATION.
Definition cspace_resolve_tcb := typed_resolve KOBJ_TCB.
Definition cspace_resolve_untyped := typed_resolve KOBJ_UNTYPED.
Definition cspace_resolve_schedctx := typed_resolve KOBJ_SCHED_CONTEXT.
Definition cspace_resolve_vspace := typed_resolve KOBJ_VSPACE.
Definition cspace_resolve_frame := typed_resolve KOBJ_FRAME.

(** The resolvers of the syscall layer: namespace, then type, then rights; the
    IPC ones and the generic one ([keep_active = false]) drop the active
    reference before returning. *)
Definition resolve_only (keep_active : bool) (tag : kobject_type_t) self (root : option N)
    (cptr required : Z) κ : res (resolved * kstate) :=
  match root with
  | None => Ret (inl IRIS_ERR_NOT_FOUND, κ)
  | Some _ =>
    if cspace_value_is_cptr cptr then
      '(r, κ) ← cspace_resolve_cap_badged self root cptr RIGHT_NONE κ;
      match r with
      | inl e => Ret (inl e, κ)
      | inr (obj, rts, b) =>
          k ← get_obj obj κ;
          if negb (bool_decide (otype k = tag))
          then κ ← put_refs obj κ; Ret (inl IRIS_ERR_WRONG_TYPE, κ)
          else if negb (required =? RIGHT_NONE) && negb (rights_check rts required)
          then κ ← put_refs obj κ; Ret (inl IRIS_ERR_ACCESS_DENIED, κ)
          else
            κ ← (if keep_active then Ret κ else active_release obj κ);
            Ret (inr (obj, rts, b), κ)
      end
    else Ret (inl IRIS_ERR_INVALID_ARG, κ)
  end.

Definition cspace_resolve_only_cnode := resolve_only true KOBJ_CNODE.
Definition cspace_resolve_only_untyped := resolve_only true KOBJ_UNTYPED.
Definition cspace_resolve_only_frame := resolve_only true KOBJ_FRAME.
Definition cspace_resolve_only_vspace := resolve_only true KOBJ_VSPACE.
Definition cspace_resolve_only_endpoint := resolve_only false KOBJ_ENDPOINT.
Definition cspace_resolve_only_reply := resolve_only false KOBJ_REPLY.
Definition cspace_resolve_only_notification := resolve_only false KOBJ_NOTIFICATION.
Definition cspace_resolve_only_obj expected_type := resolve_only false expected_type.
Definition cspace_resolve_only_endpoint_badged := resolve_only false KOBJ_ENDPOINT.

(** ** The reference walk

    With [guarded = false] the guards of the capabilities on the way are
    ignored, which is what the slot resolver does. *)

Fixpoint lookup_loop (guarded : bool) (depth : nat) cur (cptr g gb : Z) κ : iris_error_t + N * N :=
  match depth with
  | O => inl IRIS_ERR_INVALID_ARG
  | S depth =>
    let idx := level_index κ cur cptr in
    let cptr := Z.shiftr cptr (ctz (cn_slots κ cur)) in
    if negb (gb =? 0) && negb (Z.land cptr (guard_mask gb) =? g) then inl IRIS_ERR_NOT_FOUND
    else
      let cptr := if gb =? 0 then cptr else Z.shiftr cptr gb in
      if negb (slot_in_range κ cur idx) then inl IRIS_ERR_INVALID_ARG
      else match object (mdb κ) (InNode cur idx) with
      | None => inl IRIS_ERR_NOT_FOUND
      | Some o =>
          if cptr =? 0 then inr (cur, idx)
          else if bool_decide (otype <$> objs κ o = Some KOBJ_CNODE)
          then lookup_loop guarded depth o cptr (guard (mdb κ) (InNode cur idx))
                 (if guarded then guard_bits (mdb κ) (InNode cur idx) else 0) κ
          else inl IRIS_ERR_INVALID_ARG
      end
  end.

Definition cspace_lookup (self : option task_root) (root : option N) (cptr : Z) κ
    : iris_error_t + N * N :=
  if cptr =? IRIS_CPTR_NULL then inl IRIS_ERR_INVALID_ARG
  else match root with
  | None => inl IRIS_ERR_NOT_FOUND
  | Some root => lookup_loop true CSPACE_MAX_DEPTH root cptr
                   (entry_guard self root).1 (entry_guard self root).2 κ
  end.

Definition cspace_lookup_slot (root : option N) (cptr : Z) κ : iris_error_t + N * N :=
  if cptr =? IRIS_CPTR_NULL then inl IRIS_ERR_INVALID_ARG
  else match root with
  | None => inl IRIS_ERR_NOT_FOUND
  | Some root => lookup_loop false CSPACE_MAX_DEPTH root cptr 0 0 κ
  end.

(** ** States that differ in reference counts only *)

Definition shift_refs (l a : Z) (k : KObject) : KObject :=
  MkKObject (otype k) (refcount k + l) (active_refs k + a) (slot_count k).

(** [κ] is [κ0] with [dl o] and [da o] more references to each [o]. *)
Record shifted κ0 (dl da : N → Z) κ : Prop := Shifted {
  sh_mdb  : mdb κ = mdb κ0;
  sh_objs : ∀ o, objs κ o = shift_refs (dl o) (da o) <$> objs κ0 o;
  sh_rest : cascade_queue κ = cascade_queue κ0 ∧ cascade_running κ = cascade_running κ0 ∧
            kcnode_live κ = kcnode_live κ0 ∧ events κ = events κ0;
}.

(** Every object the walk can meet is published and has room for the walk's
    own references. *)
Definition walk_headroom κ : Prop :=
  ∀ o k, objs κ o = Some k → 0 ≤ refcount k < 2 ^ 32 - 4 ∧ 0 ≤ active_refs k < 2 ^ 32 - 4.

Definition nil_refs : N → Z := λ _, 0.

Lemma shifted_refl κ : shifted κ nil_refs nil_refs κ.
Proof.
  split; [done| |done]. intros o. destruct (objs κ o) as [[]|]; [|done]. simpl.
  unfold shift_refs, nil_refs. simpl. by rewrite !Z.add_0_r.
Qed.

Lemma shifted_ext κ0 dl da dl' da' κ :
  (∀ o, dl' o = dl o) → (∀ o, da' o = da o) → shifted κ0 dl da κ → shifted κ0 dl' da' κ.
Proof. intros H1 H2 [? H ?]. split; [done| |done]. intros o. by rewrite H1, H2. Qed.

Lemma shifted_obj κ0 dl da κ o k :
  shifted κ0 dl da κ → objs κ0 o = Some k → objs κ o = Some (shift_refs (dl o) (da o) k).
Proof. intros Hs Hk. by rewrite (sh_objs _ _ _ _ Hs), Hk. Qed.

Lemma shifted_slots κ0 dl da κ cn : shifted κ0 dl da κ → cn_slots κ cn = cn_slots κ0 cn.
Proof.
  intros Hs. unfold cn_slots. rewrite (sh_objs _ _ _ _ Hs). by destruct (objs κ0 cn).
Qed.

Section shifted_ops.
Context (κ0 : kstate) (dl da : N → Z) (κ : kstate) (o : N) (k : KObject).
Context (Hs : shifted κ0 dl da κ) (Hk : objs κ0 o = Some k).

(** Writing the counts of [o] back. *)
Lemma shifted_upd (l a : Z) (f : KObject → KObject) :
  f (shift_refs (dl o) (da o) k) = shift_refs (dl o + l) (da o + a) k →
  shifted κ0 (hold dl o l) (hold da o a) (upd_obj o f κ).
Proof.
  intros Hf. rewrite (upd_obj_Some _ _ _ _ (shifted_obj _ _ _ _ _ _ Hs Hk)), Hf.
  split; [apply Hs| |apply Hs]. intros x. simpl. unfold upd_fn, hold. case_decide.
  - subst x. by rewrite Hk.
  - apply Hs.
Qed.

Lemma retain_shifted :
  1 ≤ refcount k + dl o → refcount k + dl o + 1 < 2 ^ 32 →
  ∃ κ', kobject_retain o κ = Ret κ' ∧ shifted κ0 (hold dl o 1) (hold da o 0) κ'.
Proof.
  intros H1 H2. eexists. unfold kobject_retain, get_obj.
  rewrite (shifted_obj _ _ _ _ _ _ Hs Hk). cbn [of_assert mbind res_bind refcount shift_refs].
  rewrite (proj2 (Z.leb_le 1 _)) by lia. split; [reflexivity|].
  apply shifted_upd. unfold set_refcount, shift_refs. simpl. rewrite u32_id by lia.
  f_equal; lia.
Qed.

Lemma active_retain_shifted :
  0 ≤ active_refs k + da o → active_refs k + da o + 1 < 2 ^ 32 →
  ∃ κ', kobject_active_retain o κ = Ret κ' ∧ shifted κ0 (hold dl o 0) (hold da o 1) κ'.
Proof.
  intros H1 H2. eexists. unfold kobject_active_retain, get_obj.
  rewrite (shifted_obj _ _ _ _ _ _ Hs Hk). cbn [of_assert mbind res_bind active_refs shift_refs].
  split; [reflexivity|].
  apply shifted_upd. unfold set_active_refs, shift_refs. simpl. rewrite u32_id by lia.
  f_equal; lia.
Qed.

(** Not the last reference: no hook runs. *)
Lemma release_shifted :
  2 ≤ refcount k + dl o < 2 ^ 32 →
  ∃ κ', release o κ = Ret κ' ∧ shifted κ0 (hold dl o (-1)) (hold da o 0) κ'.
Proof.
  intros H1. eexists. unfold release, kobject_release, get_obj.
  rewrite (shifted_obj _ _ _ _ _ _ Hs Hk). cbn [of_assert mbind res_bind refcount shift_refs].
  rewrite (proj2 (Z.leb_le 1 _)) by lia. cbn [iris_assert mbind res_bind].
  rewrite (proj2 (Z.eqb_neq _ 1)) by lia. split; [reflexivity|].
  apply shifted_upd. unfold set_refcount, shift_refs. simpl. rewrite u32_id by lia.
  f_equal; lia.
Qed.

Lemma active_release_shifted :
  2 ≤ active_refs k + da o < 2 ^ 32 →
  ∃ κ', active_release o κ = Ret κ' ∧ shifted κ0 (hold dl o 0) (hold da o (-1)) κ'.
Proof.
  intros H1. eexists. unfold active_release, kobject_active_release, get_obj.
  rewrite (shifted_obj _ _ _ _ _ _ Hs Hk). cbn [of_assert mbind res_bind active_refs shift_refs].
  rewrite (proj2 (Z.leb_le 1 _)) by lia. cbn [iris_assert mbind res_bind].
  rewrite (proj2 (Z.eqb_neq _ 1)) by lia. split; [reflexivity|].
  apply shifted_upd. unfold set_active_refs, shift_refs. simpl. rewrite u32_id by lia.
  f_equal; lia.
Qed.
End shifted_ops.

(** The walk holds as many active as lifecycle references. *)
Abbreviation walked κ0 d κ := (shifted κ0 d d κ).

Lemma hold_0 h o x : hold h o 0 x = h x.
Proof. unfold hold. case_decide; lia. Qed.

Lemma hold_hold h o a b x : hold (hold h o a) o b x = hold h o (a + b) x.
Proof. unfold hold. case_decide; lia. Qed.

(** The published slots of a state with exact counts. *)
Lemma slot_published hl ha κ cn i o :
  kinv hl ha κ → object (mdb κ) (InNode cn i) = Some o →
  ∃ k, objs κ o = Some k ∧ 1 ≤ refcount k ∧ (o ≠ cn → 1 ≤ active_refs k).
Proof.
  intros Hκ Ho. destruct (slot_object_live _ _ _ _ _ Hκ Ho) as (k & Hk & H1 & Hin).
  exists k. split_and!; [done..|]. intros Hne.
  destruct (ki_refs _ _ _ Hκ o k Hk) as (_ & E2 & _). pose proof (ki_hl _ _ _ Hκ o) as [_ Hao].
  assert (0 < anames (mdb κ) o)%nat; [|lia].
  apply (count_pos _ (mem (mdb κ)) (InNode cn i)); [assumption|].
  split; [assumption|]. simpl. congruence.
Qed.

Section walk.
Context (κ0 : kstate) (hl ha : N → Z).
Context (Hinv : kinv hl ha κ0) (Hroom : walk_headroom κ0).
Implicit Types (d : N → Z) (k : KObject).

Lemma get_refs_walked d κ o k :
  walked κ0 d κ → objs κ0 o = Some k → 1 ≤ refcount k → 0 ≤ d o ≤ 1 →
  ∃ κ1 κ2, kobject_retain o κ = Ret κ1 ∧ kobject_active_retain o κ1 = Ret κ2 ∧
    walked κ0 (hold d o 1) κ2.
Proof.
  intros Hw Hk H1 Hd. destruct (Hroom o k Hk) as [Hr Ha].
  destruct (retain_shifted _ _ _ _ _ _ Hw Hk) as (κ1 & R1 & W1); [lia..|].
  destruct (active_retain_shifted _ _ _ _ _ _ W1 Hk) as (κ2 & R2 & W2); [rewrite hold_0; lia..|].
  exists κ1, κ2. split_and!; [done..|]. eapply shifted_ext; [..|exact W2]; intros x.
  - by rewrite hold_0.
  - rewrite hold_hold. f_equal.
Qed.

Lemma put_refs_walked d κ o k :
  walked κ0 d κ → objs κ0 o = Some k → 1 ≤ refcount k → 1 ≤ active_refs k → 1 ≤ d o ≤ 2 →
  ∃ κ', put_refs o κ = Ret κ' ∧ walked κ0 (hold d o (-1)) κ'.
Proof.
  intros Hw Hk H1 H2 Hd. destruct (Hroom o k Hk) as [Hr Ha].
  destruct (active_release_shifted _ _ _ _ _ _ Hw Hk) as (κ1 & R1 & W1); [lia|].
  destruct (release_shifted _ _ _ _ _ _ W1 Hk) as (κ2 & R2 & W2); [rewrite hold_0; lia|].
  exists κ2. unfold put_refs. rewrite R1. split; [exact R2|].
  eapply shifted_ext; [..|exact W2]; intros x.
  - rewrite hold_hold. f_equal.
  - by rewrite hold_0.
Qed.

(** Fetching a slot: the verdict is that of the unchanged state. *)
Lemma fetch_walked d κ cn i :
  walked κ0 d κ → (∀ x, 0 ≤ d x ≤ 1) →
  if negb (slot_in_range κ0 cn i)
  then kcnode_fetch_guarded (Some cn) i κ = Ret (inl IRIS_ERR_INVALID_ARG)
  else match object (mdb κ0) (InNode cn i) with
  | None => kcnode_fetch_guarded (Some cn) i κ = Ret (inl IRIS_ERR_NOT_FOUND)
  | Some o => ∃ κ', walked κ0 (hold d o 1) κ' ∧
      let s := InNode cn i in let σ := mdb κ0 in
      kcnode_fetch_guarded (Some cn) i κ =
        Ret (inr (o, rights σ s, badge σ s, guard σ s, guard_bits σ s, κ'))
  end.
Proof.
  intros Hw Hd. unfold kcnode_fetch_guarded, slot_in_range.
  rewrite (shifted_slots _ _ _ _ _ Hw), (sh_mdb _ _ _ _ Hw).
  destruct (negb _); [reflexivity|].
  destruct (object (mdb κ0) (InNode cn i)) as [o|] eqn:Ho; [|reflexivity].
  destruct (slot_published _ _ _ _ _ _ Hinv Ho) as (k & Hk & H1 & _).
  destruct (get_refs_walked d κ o k Hw Hk H1 (Hd o)) as (κ1 & κ2 & R1 & R2 & W).
  exists κ2. split; [assumption|]. simpl. by rewrite R1; simpl; rewrite R2.
Qed.

(** What a finished walk leaves behind: nothing, or the result's references. *)
Definition walk_post (required : Z) (l : iris_error_t + N * N) (r : resolved) κ' : Prop :=
  match l with
  | inl e => r = inl e ∧ walked κ0 nil_refs κ'
  | inr (cn, i) => ∃ o k, object (mdb κ0) (InNode cn i) = Some o ∧
      objs κ0 o = Some k ∧ 1 ≤ refcount k ∧ 1 ≤ active_refs k ∧
      if negb (required =? RIGHT_NONE) &&
         negb (rights_check (rights (mdb κ0) (InNode cn i)) required)
      then r = inl IRIS_ERR_ACCESS_DENIED ∧ walked κ0 nil_refs κ'
      else r = inr (o, rights (mdb κ0) (InNode cn i), badge (mdb κ0) (InNode cn i)) ∧
           walked κ0 (hold nil_refs o 1) κ'
  end.

(** Dropping the walk's references on the CNode it stands on. *)
Lemma put_last κ o k :
  walked κ0 (hold nil_refs o 1) κ → objs κ0 o = Some k → 1 ≤ refcount k → 1 ≤ active_refs k →
  ∃ κ', put_refs o κ = Ret κ' ∧ walked κ0 nil_refs κ'.
Proof.
  intros Hw Hk H1 H2. destruct (put_refs_walked _ κ o k Hw Hk H1 H2) as (κ' & R & W).
  { rewrite hold_same. unfold nil_refs. lia. }
  exists κ'. split; [assumption|]. eapply shifted_ext; [..|exact W]; intros x;
    rewrite hold_hold; unfold hold, nil_refs; case_decide; lia.
Qed.

(** Handing over from [cur] to the object of one of its slots. *)
Lemma put_prev κ cur o k :
  walked κ0 (hold (hold nil_refs cur 1) o 1) κ → objs κ0 cur = Some k →
  1 ≤ refcount k → 1 ≤ active_refs k →
  ∃ κ', put_refs cur κ = Ret κ' ∧ walked κ0 (hold nil_refs o 1) κ'.
Proof.
  intros Hw Hk H1 H2. destruct (put_refs_walked _ κ cur k Hw Hk H1 H2) as (κ' & R & W).
  { unfold hold, nil_refs. repeat case_decide; lia. }
  exists κ'. split; [assumption|]. eapply shifted_ext; [..|exact W]; intros x;
    unfold hold, nil_refs; repeat case_decide; lia.
Qed.

Lemma resolve_loop_spec required depth : ∀ cur cptr g gb κ kc,
  walked κ0 (hold nil_refs cur 1) κ → objs κ0 cur = Some kc →
  1 ≤ refcount kc → 1 ≤ active_refs kc →
  returns (resolve_loop depth cur cptr g gb required κ) (λ '(r, κ'),
    walk_post required (lookup_loop true depth cur cptr g gb κ0) r κ').
Proof.
  induction depth as [|depth IH]; intros cur cptr g gb κ kc Hw Hkc Hrc Hac;
    destruct (put_last κ cur kc Hw Hkc Hrc Hac) as (κp & Rp & Wp); simpl.
  { rewrite Rp. by split. }
  assert (level_index κ cur cptr = level_index κ0 cur cptr) as ->
    by (unfold level_index; by rewrite (shifted_slots _ _ _ _ _ Hw)).
  rewrite (shifted_slots _ _ _ _ _ Hw). set (idx := level_index κ0 cur cptr).
  set (c1 := Z.shiftr cptr (ctz (cn_slots κ0 cur))).
  destruct (negb (gb =? 0) && _) eqn:Hg; [rewrite Rp; by split|].
  set (c2 := if gb =? 0 then c1 else Z.shiftr c1 gb).
  assert (∀ x, 0 ≤ hold nil_refs cur 1 x ≤ 1) as Hd
    by (intros x; unfold hold, nil_refs; case_decide; lia).
  pose proof (fetch_walked _ κ cur idx Hw Hd) as Hf. simpl in Hf.
  destruct (slot_in_range κ0 cur idx); cbn [negb] in Hf |- *; [|rewrite Hf; simpl; rewrite Rp; by split].
  destruct (object (mdb κ0) (InNode cur idx)) as [o|] eqn:Ho;
    [|rewrite Hf; simpl; rewrite Rp; by split].
  destruct Hf as (κ1 & W1 & Hf). rewrite Hf. cbn [mbind res_bind].
  destruct (put_prev κ1 cur o kc W1 Hkc Hrc Hac) as (κ2 & R2 & W2). rewrite R2. cbn [mbind res_bind].
  destruct (slot_published _ _ _ _ _ _ Hinv Ho) as (k & Hk & Hr & Ha).
  assert (1 ≤ active_refs k) as Ha'.
  { destruct (decide (o = cur)) as [->|Hne]; [congruence|by apply Ha]. }
  unfold get_obj. rewrite (shifted_obj _ _ _ _ _ _ W2 Hk), Hk. cbn [of_assert mbind res_bind fmap option_fmap option_map otype shift_refs].
  destruct (put_last κ2 o k W2 Hk Hr Ha') as (κ3 & R3 & W3).
  destruct (c2 =? 0); cbn [negb andb].
  - cbn [walk_post]. destruct (negb (required =? RIGHT_NONE) && _) eqn:Hden.
    + rewrite R3. simpl. exists o, k. do 4 (split; [assumption|]). by split.
    + simpl. exists o, k. do 4 (split; [assumption|]). by split.
  - destruct (decide (otype k = KOBJ_CNODE)) as [Ht|Ht].
    + rewrite !bool_decide_true by congruence. cbn [negb]. by apply (IH _ _ _ _ _ k).
    + rewrite !bool_decide_false by congruence. cbn [negb]. rewrite R3. by split.
Qed.

Lemma resolve_cap_spec self root kr cptr required :
  objs κ0 root = Some kr → 1 ≤ refcount kr → 1 ≤ active_refs kr →
  returns (cspace_resolve_cap_badged self (Some root) cptr required κ0) (λ '(r, κ'),
    walk_post required (cspace_lookup self (Some root) cptr κ0) r κ').
Proof.
  intros Hk Hr Ha. unfold cspace_resolve_cap_badged, cspace_lookup.
  destruct (cptr =? IRIS_CPTR_NULL); [split; [reflexivity|apply shifted_refl]|].
  destruct (get_refs_walked _ κ0 root kr (shifted_refl κ0) Hk Hr) as (κ1 & κ2 & R1 & R2 & W);
    [unfold nil_refs; lia|].
  rewrite R1. cbn [mbind res_bind]. rewrite R2. cbn [mbind res_bind].
  destruct (entry_guard self root) as [g gb]. cbn [fst snd].
  by apply (resolve_loop_spec required CSPACE_MAX_DEPTH root cptr g gb κ2 kr).
Qed.

(** The slot resolver hands the containing CNode's references over. *)
Definition slot_post (l : iris_error_t + N * N) (r : iris_error_t + N * N) κ' : Prop :=
  r = l ∧ walked κ0 (match l with inl _ => nil_refs | inr (cn, _) => hold nil_refs cn 1 end) κ'.

Lemma fetch_guarded_fetch cn i κ :
  kcnode_fetch (Some cn) i κ =
    (f ← kcnode_fetch_guarded (Some cn) i κ;
     Ret (match f with inl e => inl e | inr (o, r, b, _, _, κ) => inr (o, r, b, κ) end)).
Proof.
  unfold kcnode_fetch, kcnode_fetch_badged, kcnode_fetch_guarded.
  destruct (negb _); [reflexivity|]. destruct (object _ _); [|reflexivity].
  destruct (kobject_retain n κ); try reflexivity. simpl.
  destruct (kobject_active_retain n a); reflexivity.
Qed.

(** Dropping the probe's references on the slot's object. *)
Lemma put_probe κ cur o k :
  walked κ0 (hold (hold nil_refs cur 1) o 1) κ → objs κ0 o = Some k →
  1 ≤ refcount k → 1 ≤ active_refs k →
  ∃ κ', put_refs o κ = Ret κ' ∧ walked κ0 (hold nil_refs cur 1) κ'.
Proof.
  intros Hw Hk H1 H2. apply (put_prev κ o cur k); [|assumption..].
  eapply shifted_ext; [..|exact Hw]; intros x; apply hold_comm.
Qed.

Lemma resolve_slot_loop_spec depth : ∀ cur cptr g κ kc,
  walked κ0 (hold nil_refs cur 1) κ → objs κ0 cur = Some kc →
  1 ≤ refcount kc → 1 ≤ active_refs kc →
  returns (resolve_slot_loop depth cur cptr κ) (λ '(r, κ'),
    slot_post (lookup_loop false depth cur cptr g 0 κ0) r κ').
Proof.
  induction depth as [|depth IH]; intros cur cptr g κ kc Hw Hkc Hrc Hac;
    destruct (put_last κ cur kc Hw Hkc Hrc Hac) as (κp & Rp & Wp);
    cbn [resolve_slot_loop lookup_loop].
  { rewrite Rp. by split. }
  assert (level_index κ cur cptr = level_index κ0 cur cptr) as ->
    by (unfold level_index; by rewrite (shifted_slots _ _ _ _ _ Hw)).
  rewrite (shifted_slots _ _ _ _ _ Hw), fetch_guarded_fetch. set (idx := level_index κ0 cur cptr).
  set (c1 := Z.shiftr cptr (ctz (cn_slots κ0 cur))).
  assert (∀ x, 0 ≤ hold nil_refs cur 1 x ≤ 1) as Hd
    by (intros x; unfold hold, nil_refs; case_decide; lia).
  cbv zeta. cbn [Z.eqb negb andb].
  pose proof (fetch_walked _ κ cur idx Hw Hd) as Hf. cbv zeta in Hf.
  destruct (slot_in_range κ0 cur idx); cbn [negb] in Hf |- *; [|rewrite Hf; cbn [mbind res_bind]; rewrite Rp; by split].
  destruct (object (mdb κ0) (InNode cur idx)) as [o|] eqn:Ho;
    [|rewrite Hf; cbn [mbind res_bind]; rewrite Rp; by split].
  destruct Hf as (κ1 & W1 & Hf). rewrite Hf. cbn [mbind res_bind].
  destruct (slot_published _ _ _ _ _ _ Hinv Ho) as (k & Hk & Hr & Ha).
  assert (1 ≤ active_refs k) as Ha'.
  { destruct (decide (o = cur)) as [->|Hne]; [congruence|by apply Ha]. }
  unfold get_obj. rewrite (shifted_obj _ _ _ _ _ _ W1 Hk), Hk.
  cbn [of_assert mbind res_bind fmap option_fmap option_map otype shift_refs].
  destruct (put_probe κ1 cur o k W1 Hk Hr Ha') as (κ2 & R2 & W2).
  destruct (c1 =? 0); cbn [negb andb].
  - rewrite R2. by split.
  - destruct (decide (otype k = KOBJ_CNODE)) as [Ht|Ht].
    + rewrite !bool_decide_true by congruence. cbn [negb].
      destruct (put_prev κ1 cur o kc W1 Hkc Hrc Hac) as (κ3 & R3 & W3). rewrite R3.
      by apply (IH _ _ _ _ k).
    + rewrite !bool_decide_false by congruence. cbn [negb]. rewrite R2. cbn [mbind res_bind].
      destruct (put_last κ2 cur kc W2 Hkc Hrc Hac) as (κ4 & R4 & W4). rewrite R4. by split.
Qed.
End walk.

(** ** The claims *)

(** C27: CPtr resolution is the reference walk and reads only.  With a live,
    published root the code returns, with no assertion failed: an error exactly
    where the reference walk or the rights check says so, and then every
    reference count is what it was; otherwise the object, rights and badge of
    the slot found, and the only change is one lifecycle and one active
    reference on that object. *)
Theorem cspace_resolve_cap_correct hl ha self root kr cptr required κ :
  kinv hl ha κ → walk_headroom κ →
  objs κ root = Some kr → 1 ≤ refcount kr → 1 ≤ active_refs kr →
  returns (cspace_resolve_cap_badged self (Some root) cptr required κ) (λ '(r, κ'),
    walk_post κ required (cspace_lookup self (Some root) cptr κ) r κ').
Proof. intros. by eapply resolve_cap_spec. Qed.

(** The slot resolver returns the slot of the guard-blind reference walk,
    with one lifecycle and one active reference on its CNode, or its error and
    no reference. *)
Lemma cspace_resolve_slot_spec hl ha root kr cptr κ :
  kinv hl ha κ → walk_headroom κ →
  objs κ root = Some kr → 1 ≤ refcount kr → 1 ≤ active_refs kr →
  returns (cspace_resolve_slot (Some root) cptr κ) (λ '(r, κ'),
    slot_post κ (cspace_lookup_slot (Some root) cptr κ) r κ').
Proof.
  intros Hinv Hroom Hk Hr Ha. unfold cspace_resolve_slot, cspace_lookup_slot.
  destruct (cptr =? IRIS_CPTR_NULL); [split; [reflexivity|apply shifted_refl]|].
  destruct (get_refs_walked κ Hroom _ κ root kr (shifted_refl κ) Hk Hr)
    as (κ1 & κ2 & R1 & R2 & W); [unfold nil_refs; lia|].
  rewrite R1. cbn [mbind res_bind]. rewrite R2. cbn [mbind res_bind].
  by eapply resolve_slot_loop_spec.
Qed.

(** *** Addresses *)

(** The slot at the end of a path of indices: every index on the way is in range and
    every slot but the last names the CNode the next index is for. *)
Fixpoint path_slot κ cur (path : list N) : option (N * N) :=
  match path with
  | [] => None
  | i :: rest =>
      if negb (slot_in_range κ cur i) then None
      else match rest with
      | [] => Some (cur, i)
      | _ => match object (mdb κ) (InNode cur i) with Some o => path_slot κ o rest | None => None end
      end
  end.

(** The CPtr of a path: MSB to LSB, [next levels][guard][index]. *)
Fixpoint path_cptr κ cur (g gb : Z) (path : list N) : Z :=
  match path with
  | [] => 0
  | i :: rest =>
      let up := match object (mdb κ) (InNode cur i) with
                | Some o => path_cptr κ o (guard (mdb κ) (InNode cur i))
                              (guard_bits (mdb κ) (InNode cur i)) rest
                | None => 0
                end in
      Z.of_N i + 2 ^ ctz (cn_slots κ cur) * ((if gb =? 0 then 0 else g) + 2 ^ gb * up)
  end.

(** Every CNode named by a slot has a power of two of slots, every guard fits
    its width. *)
Record cspace_shape κ : Prop := CspaceShape {
  cs_pow2  : ∀ s o k, object (mdb κ) s = Some o → objs κ o = Some k → otype k = KOBJ_CNODE →
    ∃ e, slot_count k = (2 ^ e)%N;
  cs_guard : ∀ s, 0 ≤ guard_bits (mdb κ) s < 64;
}.

Lemma ctz_pow2 e : ctz (2 ^ e) = Z.of_N e.
Proof.
  induction e as [|e IH] using N.peano_ind; [reflexivity|].
  rewrite N.pow_succ_r'. destruct (2 ^ e)%N as [|p] eqn:Hp.
  { pose proof (N.pow_nonzero 2 e). lia. }
  change (ctz (2 * N.pos p)) with (1 + ctz (N.pos p)). rewrite IH. lia.
Qed.

(** One level: the index is the low part, the rest is what remains. *)
Lemma level_split κ cur cptr e :
  0 ≤ cptr → cn_slots κ cur = (2 ^ e)%N →
  cptr = Z.of_N (level_index κ cur cptr) + 2 ^ ctz (cn_slots κ cur) *
           Z.shiftr cptr (ctz (cn_slots κ cur)) ∧
  0 ≤ Z.shiftr cptr (ctz (cn_slots κ cur)).
Proof.
  intros Hc Hn. unfold level_index. rewrite Hn, ctz_pow2, N2Z.inj_pow. simpl.
  replace (2 ^ Z.of_N e - 1) with (Z.ones (Z.of_N e)) by (rewrite Z.ones_equiv; lia).
  rewrite Z.land_ones, Z.shiftr_div_pow2 by lia.
  pose proof (Z.mod_pos_bound cptr (2 ^ Z.of_N e) ltac:(lia)).
  rewrite Z2N.id by lia. split; [|apply Z.div_pos; lia].
  rewrite Z.add_comm. apply Z.div_mod. lia.
Qed.

(** The guard part, when the check passed. *)
Lemma guard_split c g gb :
  0 ≤ c → 0 ≤ gb < 64 → negb (gb =? 0) && negb (Z.land c (guard_mask gb) =? g) = false →
  c = (if gb =? 0 then 0 else g) + 2 ^ gb * Z.shiftr c gb ∧ 0 ≤ Z.shiftr c gb.
Proof.
  intros Hc Hg Hok. rewrite Z.shiftr_div_pow2 by lia. split; [|apply Z.div_pos; lia].
  destruct (Z.eqb_spec gb 0) as [->|Hne]; simpl in Hok.
  { rewrite Z.pow_0_r, Z.div_1_r. lia. }
  apply negb_false_iff, Z.eqb_eq in Hok. unfold guard_mask in Hok.
  rewrite (proj2 (Z.leb_gt 64 gb)), Z.shiftl_1_l in Hok by lia.
  replace (2 ^ gb - 1) with (Z.ones gb) in Hok by (rewrite Z.ones_equiv; lia).
  rewrite Z.land_ones in Hok by lia. subst g. rewrite Z.add_comm. apply Z.div_mod. lia.
Qed.

Lemma lookup_loop_path κ depth : ∀ cur e cptr g gb s,
  cspace_shape κ → cn_slots κ cur = (2 ^ e)%N → 0 ≤ cptr → 0 ≤ gb < 64 →
  lookup_loop true depth cur cptr g gb κ = inr s →
  ∃ path, (length path ≤ depth)%nat ∧ path_slot κ cur path = Some s ∧ path_cptr κ cur g gb path = cptr.
Proof.
  induction depth as [|depth IH]; intros cur e cptr g gb s Hsh Hn Hc Hgb Hl; [done|].
  destruct (level_split κ cur cptr e Hc Hn) as [Hsplit Hc1].
  cbn [lookup_loop] in Hl. cbv zeta in Hl.
  set (idx := level_index κ cur cptr) in *. set (c1 := Z.shiftr cptr _) in *.
  destruct (negb (gb =? 0) && _) eqn:Hg; [done|].
  destruct (guard_split c1 g gb Hc1 Hgb Hg) as [Hgs Hc2].
  assert ((if gb =? 0 then c1 else Z.shiftr c1 gb) = Z.shiftr c1 gb) as Heq.
  { destruct (Z.eqb_spec gb 0) as [->|]; [by rewrite Z.shiftr_0_r|reflexivity]. }
  rewrite Heq in Hl. set (c2 := Z.shiftr c1 gb) in *.
  destruct (negb (slot_in_range κ cur idx)) eqn:Hir; [done|].
  destruct (object (mdb κ) (InNode cur idx)) as [o|] eqn:Ho; [|done].
  destruct (Z.eqb_spec c2 0) as [Hz|Hnz].
  - injection Hl as <-. exists [idx]. cbn [path_slot path_cptr length]. cbv zeta. rewrite Hir, Ho.
    rewrite Hz in Hgs. split; [lia|]. split; [done|lia].
  - case_bool_decide as Hto; [|done].
    destruct (objs κ o) as [k|] eqn:Hko; [|done]. injection Hto as Hto.
    destruct (cs_pow2 _ Hsh _ o k Ho Hko Hto) as [e' He'].
    assert (cn_slots κ o = (2 ^ e')%N) as Hno by (unfold cn_slots; by rewrite Hko).
    destruct (IH o e' c2 _ _ s Hsh Hno Hc2 (cs_guard _ Hsh _) Hl) as (path & H1 & H2 & H3).
    exists (idx :: path). cbn [path_slot path_cptr length]. cbv zeta. rewrite Hir, Ho, H3. cbn [negb].
    split; [lia|]. split; [|lia]. destruct path; [done|exact H2].
Qed.

(** C29: CPtr addresses do not alias. With a live, published root, room in the
    counts, CNodes of a power of two of slots and guards of less than 64 bits,
    resolving a CPtr always returns, and when it gives an object with its rights and
    badge they are those of a slot at the end of a path of at most eight indices,
    each in range, whose address - indices and guards, most significant level first
    - is exactly the CPtr. So no bit of a CPtr that resolves is ignored, and two
    CPtrs that resolve along the same path are equal. *)
Theorem cspace_resolve_address hl ha self root kr e cptr required κ :
  kinv hl ha κ → walk_headroom κ → objs κ root = Some kr → 1 ≤ refcount kr → 1 ≤ active_refs kr →
  cspace_shape κ → cn_slots κ root = (2 ^ e)%N → 0 ≤ cptr → 0 ≤ (entry_guard self root).2 < 64 →
  returns (cspace_resolve_cap_badged self (Some root) cptr required κ) (λ '(r, _),
    ∀ o rg b, r = inr (o, rg, b) → ∃ path cn i,
      (length path ≤ CSPACE_MAX_DEPTH)%nat ∧ path_slot κ root path = Some (cn, i) ∧
      object (mdb κ) (InNode cn i) = Some o ∧ rights (mdb κ) (InNode cn i) = rg ∧ badge (mdb κ) (InNode cn i) = b ∧
      path_cptr κ root (entry_guard self root).1 (entry_guard self root).2 path = cptr).
Proof.
  intros Hi Hh Hk Hr Ha Hsh Hn Hc Hg. eapply returns_mono; [by eapply resolve_cap_spec|].
  intros [r κ'] H o rg b ->. unfold walk_post in H. destruct (cspace_lookup self (Some root) cptr κ) as [?|[cn i]] eqn:Hl.
  { by destruct H. }
  unfold cspace_lookup in Hl. destruct (cptr =? IRIS_CPTR_NULL); [done|].
  destruct (lookup_loop_path κ _ root e cptr _ _ (cn, i) Hsh Hn Hc Hg Hl) as (path & H1 & H2 & H3).
  destruct H as (o' & k & Ho & _ & _ & _ & H). destruct (_ && _); destruct H as [H _]; [done|]. injection H as -> -> ->.
  by exists path, cn, i.
Qed.

(** *** The syscall layer's resolvers *)

Lemma resolve_only_spec hl ha keep tag self root kr cptr required κ :
  kinv hl ha κ → walk_headroom κ →
  objs κ root = Some kr → 1 ≤ refcount kr → 1 ≤ active_refs kr →
  returns (resolve_only keep tag self (Some root) cptr required κ) (λ '(r, κ'),
    if cspace_value_is_cptr cptr then
      match cspace_lookup self (Some root) cptr κ with
      | inl e => r = inl e ∧ shifted κ nil_refs nil_refs κ'
      | inr (cn, i) => ∃ o k, object (mdb κ) (InNode cn i) = Some o ∧ objs κ o = Some k ∧
          if decide (otype k = tag) then
            if negb (required =? RIGHT_NONE)
               && negb (rights_check (rights (mdb κ) (InNode cn i)) required)
            then r = inl IRIS_ERR_ACCESS_DENIED ∧ shifted κ nil_refs nil_refs κ'
            else r = inr (o, rights (mdb κ) (InNode cn i), badge (mdb κ) (InNode cn i)) ∧
                 shifted κ (hold nil_refs o 1) (hold nil_refs o (if keep then 1 else 0)) κ'
          else r = inl IRIS_ERR_WRONG_TYPE ∧ shifted κ nil_refs nil_refs κ'
      end
    else r = inl IRIS_ERR_INVALID_ARG ∧ κ' = κ).
Proof.
  intros Hinv Hroom Hk Hr Ha. unfold resolve_only.
  destruct (cspace_value_is_cptr cptr); [|by split].
  apply returns_bind. eapply returns_mono; [by eapply resolve_cap_spec|].
  intros [r κ1] Hw. unfold walk_post in Hw.
  destruct (cspace_lookup self (Some root) cptr κ) as [e|[cn i]]; [by destruct Hw as [-> ?]|].
  destruct Hw as (o & k & Ho & Hko & Hro & Hao & [-> Hw]).
  unfold get_obj. rewrite (shifted_obj _ _ _ _ _ _ Hw Hko). cbn [of_assert mbind res_bind otype shift_refs].
  destruct (put_last κ Hroom κ1 o k Hw Hko Hro Hao) as (κ2 & R2 & W2).
  destruct (decide (otype k = tag)) as [Ht|Ht].
  - rewrite bool_decide_true by done. cbn [negb].
    destruct (negb (required =? RIGHT_NONE) && _) eqn:Hden.
    + rewrite R2. simpl. exists o, k. split; [done|]. split; [done|].
      rewrite decide_True by done. by split.
    + apply returns_bind.
      assert (returns (if keep then Ret κ1 else active_release o κ1)
        (shifted κ (hold nil_refs o 1) (hold nil_refs o (if keep then 1 else 0)))) as Hk'.
      { destruct keep; [exact Hw|]. destruct (Hroom o k Hko) as [_ Har].
        destruct (active_release_shifted _ _ _ _ _ _ Hw Hko) as (κ3 & R3 & W3).
        { rewrite hold_same. unfold nil_refs. lia. }
        rewrite R3. simpl. eapply shifted_ext; [..|exact W3]; intros x;
          unfold hold, nil_refs; case_decide; lia. }
      eapply returns_mono; [exact Hk'|]. intros κ3 W3. simpl. exists o, k.
      split; [done|]. split; [done|]. rewrite decide_True by done. by split.
  - rewrite bool_decide_false by done. cbn [negb]. rewrite R2. simpl. exists o, k.
    split; [done|]. split; [done|]. rewrite decide_False by done. by split.
Qed.
