(* ===== verification/IpcCap.v ===== *)
(** * Capability transfer over an endpoint

    kernel/core/syscall/syscall_endpoint.c, the part of a message that carries
    authority: [syscall_ipc_stage_cap_peek_badged] validates and pins the
    sender's capability, [syscall_ipc_recv_slot_declare] validates the place the
    receiver offers, [syscall_ipc_deliver_cap_routed] installs a copy there at the
    rendezvous, [syscall_ipc_stage_cap_release] unpins the source.  Any amount of
    other work runs between staging and delivery, so each function is specified
    on the state it finds, with the references the stage holds as its frame. *)

From Stdlib Require Import ZArith Lia.
From stdpp Require Import base numbers gmap list.
From S2P Require Import Prelude Rights Forest Mdb Cdt Kobject Kcnode KcnodeInv KcnodeInstall Cspace.
Local Open Scope Z_scope.
Implicit Types (σ : mdb_state) (κ : kstate) (o cn idx cur : N) (hl ha : N → Z).

Definition cspace_only_cptr (v : Z) : bool := cspace_value_is_cptr v.

Definition NO_CAP : Z := 0.     (* IRIS_MSG_NO_CAP *)

(** What a stage remembers: [ep_cap_obj], [ep_cap_rights], [ep_cap_badge],
    [ep_cap_src_cn], [ep_cap_src_idx]. *)
Record staged := Staged {
  cap_obj     : N;
  cap_rights  : Z;
  cap_badge   : Z;
  cap_src_cn  : N;
  cap_src_idx : N;
}.

Definition syscall_ipc_stage_cap_peek_badged (root : option N) (src_cptr requested : Z) κ
    : res ((iris_error_t + staged) * kstate) :=
  if negb (cspace_only_cptr src_cptr) then Ret (inl IRIS_ERR_INVALID_ARG, κ)
  else
    '(r, κ) ← cspace_resolve_slot root src_cptr κ;
    match r with
    | inl e => Ret (inl e, κ)
    | inr (src_cn, src_idx) =>
        f ← kcnode_fetch_badged (Some src_cn) src_idx κ;
        match f with
        | inl e => κ ← put_refs src_cn κ; Ret (inl e, κ)
        | inr (xo, xr, badge, κ) =>
            κ ← active_release xo κ;
            if negb (rights_check xr RIGHT_TRANSFER) then
              κ ← release xo κ; κ ← put_refs src_cn κ; Ret (inl IRIS_ERR_ACCESS_DENIED, κ)
            else
              let cap_rights := rights_reduce xr requested in
              if cap_rights =? RIGHT_NONE then
                κ ← release xo κ; κ ← put_refs src_cn κ; Ret (inl IRIS_ERR_INVALID_ARG, κ)
              else Ret (inr (Staged xo cap_rights badge src_cn src_idx), κ)
        end
    end.

Definition syscall_ipc_stage_cap_release (src_cn : option N) κ : res kstate :=
  match src_cn with None => Ret κ | Some cn => put_refs cn κ end.

(** The error code and [t->ep_recv_slot]. *)
Definition syscall_ipc_recv_slot_declare (root : option N) (declared : Z) κ
    : res (iris_error_t * Z * kstate) :=
  if negb (cspace_value_is_cptr declared) then Ret (IRIS_OK, 0, κ)
  else
    '(r, κ) ← cspace_resolve_dest_slot root declared κ;
    match r with
    | inl e =>
        if bool_decide (e = IRIS_ERR_NOT_FOUND) && bool_decide (root = None)
        then Ret (IRIS_ERR_NOT_FOUND, 0, κ) else Ret (IRIS_ERR_INVALID_ARG, 0, κ)
    | inr (cn, idx) =>
        f ← kcnode_fetch (Some cn) idx κ;
        match f with
        | inr (probe, _, _, κ) =>
            κ ← put_refs cn κ; κ ← put_refs probe κ; Ret (IRIS_ERR_ALREADY_EXISTS, 0, κ)
        | inl e =>
            κ ← put_refs cn κ;
            if bool_decide (e = IRIS_ERR_NOT_FOUND) then Ret (IRIS_OK, declared, κ)
            else Ret (IRIS_ERR_INVALID_ARG, 0, κ)
        end
    end.

Definition kcnode_cdt_note_ipc_transfer κ : kstate :=
  with_mdb (ctr_add cdt_ipc_transfer_count 1 (mdb κ)) κ.

(** The discriminator for the message, [receiver->ep_recv_slot] and the state;
    [c = None] is a null [xo], and a source CNode may be null too. *)
Definition syscall_ipc_deliver_cap_routed (root : option N) (ep_recv_slot : Z)
    (xo : option N) (cap_rights badge : Z) (src_cn : option N) src_idx κ
    : res (Z * Z * kstate) :=
  match xo with
  | None => Ret (NO_CAP, ep_recv_slot, κ)
  | Some xo =>
    let slot := ep_recv_slot in
    if cspace_value_is_cptr slot then
      '(r, κ) ← cspace_resolve_dest_slot root slot κ;
      match r with
      | inl _ => κ ← release xo κ; Ret (NO_CAP, 0, κ)
      | inr (cn, idx) =>
          if negb (kcnode_slot_holds src_cn src_idx (Some xo) κ) then
            κ ← put_refs cn κ; κ ← release xo κ; Ret (NO_CAP, 0, κ)
          else
            '(e, κ) ← kcnode_slot_install_linked (Some cn) idx (Some xo) cap_rights badge
                        ((λ c, (c, src_idx)) <$> src_cn) (Some xo) true false κ;
            κ ← put_refs cn κ;
            κ ← release xo κ;
            if bool_decide (e = IRIS_OK)
            then Ret (slot, 0, kcnode_cdt_note_ipc_transfer κ)
            else Ret (NO_CAP, 0, κ)
      end
    else κ ← release xo κ; Ret (NO_CAP, ep_recv_slot, κ)
  end.

(** ** The destination walk *)

Fixpoint lookup_dest_loop (depth : nat) cur (cptr : Z) κ : iris_error_t + N * N :=
  match depth with
  | O => inl IRIS_ERR_INVALID_ARG
  | S depth =>
    let idx := level_index κ cur cptr in
    let cptr := Z.shiftr cptr (ctz (cn_slots κ cur)) in
    if cptr =? 0 then inr (cur, idx)
    else if negb (slot_in_range κ cur idx) then inl IRIS_ERR_INVALID_ARG
    else match object (mdb κ) (InNode cur idx) with
    | None => inl IRIS_ERR_NOT_FOUND
    | Some o =>
        if bool_decide (otype <$> objs κ o = Some KOBJ_CNODE)
        then lookup_dest_loop depth o cptr κ else inl IRIS_ERR_INVALID_ARG
    end
  end.

Definition cspace_lookup_dest (root : option N) (cptr : Z) κ : iris_error_t + N * N :=
  if cptr =? IRIS_CPTR_NULL then inl IRIS_ERR_INVALID_ARG
  else match root with
  | None => inl IRIS_ERR_NOT_FOUND
  | Some root => lookup_dest_loop CSPACE_MAX_DEPTH root cptr κ
  end.

(** Room for the references of a transfer. *)
Definition xfer_headroom κ : Prop :=
  ∀ o k, objs κ o = Some k → refcount k + active_refs k < 2 ^ 32 - 8.

(** What keeps an object alive and published: a slot outside it names it (the
    root of a thread is named by the thread's own capability slots), or somebody
    holds both references. *)
Definition anchored κ hl ha o : Prop :=
  (1 ≤ hl o ∧ 1 ≤ ha o) ∨ ∃ s, object (mdb κ) s = Some o ∧ slot_home s ≠ Some o.

Definition live_root κ hl ha (root : option N) : Prop :=
  match root with None => True | Some r => anchored κ hl ha r end.

(** ** Counts *)

Lemma kinv_counts hl ha κ o k :
  kinv hl ha κ → objs κ o = Some k → 0 ≤ refcount k ∧ 0 ≤ active_refs k.
Proof.
  intros Hκ Hk. destruct (ki_refs _ _ _ Hκ o k Hk) as (E1 & E2 & _).
  destruct (ki_hl _ _ _ Hκ o). assert (0 ≤ queued κ o) by (unfold queued; case_decide; lia). lia.
Qed.

Lemma xfer_walk hl ha κ : kinv hl ha κ → xfer_headroom κ → walk_headroom κ.
Proof. intros Hκ Hr o k Hk. pose proof (kinv_counts _ _ _ _ _ Hκ Hk). pose proof (Hr o k Hk). lia. Qed.

(** Shifting the counts is holding more references. *)
Lemma shifted_kinv hl ha κ dl da κ' :
  kinv hl ha κ → shifted κ dl da κ' →
  (∀ o k, objs κ o = Some k → refcount k + dl o + (active_refs k + da o) < 2 ^ 32) →
  (∀ o, 0 ≤ hl o + dl o) → (∀ o, 0 ≤ ha o + da o) →
  (∀ o, objs κ o = None → dl o = 0) →
  kinv (λ o, hl o + dl o) (λ o, ha o + da o) κ'.
Proof.
  intros [H1 H2 H3 H4 H5 H6 H7 H8 H9] [Hm Ho (Hq & _)] Hb P1 P2 Hd.
  constructor; rewrite ?Hm, ?Hq; try assumption.
  - intros cn i. rewrite H4. unfold cn_slots. rewrite Ho. by destruct (objs κ cn).
  - intros o k'. rewrite Ho. destruct (objs κ o) as [k|] eqn:Hk; [|done]. intros [= <-]. exact (H5 o k Hk).
  - intros o. split; [apply P1|apply P2].
  - intros o k'. rewrite Ho. destruct (objs κ o) as [k|] eqn:Hk; [|done]. intros [= <-].
    destruct (H8 o k Hk) as (E1 & E2 & E3). pose proof (Hb o k Hk).
    unfold queued in *. rewrite Hq. simpl. split_and!; lia.
  - intros o. rewrite Ho. destruct (objs κ o) as [k|] eqn:Hk; [done|]. intros _.
    destruct (H9 o Hk) as (? & ? & ?). rewrite (Hd o Hk). split_and!; [done..|lia].
Qed.

Definition published κ o : Prop := ∃ k, objs κ o = Some k ∧ 1 ≤ refcount k ∧ 1 ≤ active_refs k.

Lemma occupied_mem hl ha κ s o : kinv hl ha κ → object (mdb κ) s = Some o → s ∈ mem (mdb κ).
Proof. intros Hκ Ho. by destruct (slot_object_live _ _ _ _ _ Hκ Ho) as (_ & _ & _ & ?). Qed.

(** At least one reference of each kind beyond those of [hl] and [ha]. *)
Lemma anchored_counts hl ha hl' ha' κ o k :
  kinv hl' ha' κ → anchored κ hl ha o → objs κ o = Some k → 0 ≤ hl o ≤ hl' o → 0 ≤ ha o ≤ ha' o →
  1 + (hl' o - hl o) ≤ refcount k ∧ 1 + (ha' o - ha o) ≤ active_refs k.
Proof.
  intros Hκ Hanc Hk Hl Ha. destruct (ki_refs _ _ _ Hκ o k Hk) as (E1 & E2 & _).
  assert (0 ≤ queued κ o) by (unfold queued; case_decide; lia).
  destruct Hanc as [?|(s & Hs & Hh)]; [lia|]. pose proof (occupied_mem _ _ _ _ _ Hκ Hs) as Hm.
  pose proof (names_pos _ _ _ Hm Hs). assert (0 < anames (mdb κ) o)%nat; [|lia].
  by apply (count_pos _ (mem (mdb κ)) s).
Qed.

Lemma anchored_live hl ha hl' ha' κ o :
  kinv hl' ha' κ → (∀ x, hl x ≤ hl' x) → anchored κ hl ha o → ∃ k, objs κ o = Some k.
Proof.
  intros Hκ Hl [[??]|(s & Hs & _)].
  - apply (kinv_live _ _ _ _ Hκ). specialize (Hl o). lia.
  - destruct (slot_object_live _ _ _ _ _ Hκ Hs) as (k & ? & _). by exists k.
Qed.

Lemma anchored_published hl ha hl' ha' κ o :
  kinv hl' ha' κ → (∀ x, 0 ≤ hl x ≤ hl' x) → (∀ x, 0 ≤ ha x ≤ ha' x) →
  anchored κ hl ha o → published κ o.
Proof.
  intros Hκ Hl Ha Hanc. destruct (anchored_live _ _ _ _ _ _ Hκ (λ x, proj2 (Hl x)) Hanc) as [k Hk].
  pose proof (anchored_counts _ _ _ _ _ _ _ Hκ Hanc Hk (Hl o) (Ha o)).
  specialize (Hl o). specialize (Ha o). exists k. split_and!; [done|lia..].
Qed.

(** The CNodes a walk from an anchored root meets are anchored. *)
Lemma named_anchored κ hl ha cur i o :
  anchored κ hl ha cur → object (mdb κ) (InNode cur i) = Some o → anchored κ hl ha o.
Proof.
  intros Hc Ho. destruct (decide (o = cur)) as [->|Hne]; [assumption|].
  right. exists (InNode cur i). split; [assumption|]. simpl. congruence.
Qed.

Lemma lookup_anchored κ hl ha b depth : ∀ cur cptr g gb cn i,
  anchored κ hl ha cur → lookup_loop b depth cur cptr g gb κ = inr (cn, i) →
  anchored κ hl ha cn ∧ is_Some (object (mdb κ) (InNode cn i)) ∧ slot_in_range κ cn i = true.
Proof.
  induction depth as [|depth IH]; intros cur cptr g gb cn i Hc; [done|]. cbn [lookup_loop].
  cbv zeta. destruct (_ && _); [done|]. destruct (negb _) eqn:Hr; [done|].
  destruct (object (mdb κ) (InNode cur _)) as [o|] eqn:Ho; [|done].
  destruct (_ =? 0).
  - intros [= <- <-]. rewrite Ho. apply negb_false_iff in Hr. by split_and!.
  - case_bool_decide; [|done]. apply IH. by eapply named_anchored.
Qed.

Lemma lookup_dest_anchored κ hl ha depth : ∀ cur cptr cn i,
  anchored κ hl ha cur → lookup_dest_loop depth cur cptr κ = inr (cn, i) → anchored κ hl ha cn.
Proof.
  induction depth as [|depth IH]; intros cur cptr cn i Hc; [done|]. cbn [lookup_dest_loop].
  cbv zeta. destruct (_ =? 0); [by intros [= <- <-]|]. destruct (negb _); [done|].
  destruct (object (mdb κ) (InNode cur _)) as [o|] eqn:Ho; [|done].
  case_bool_decide; [|done]. apply IH. by eapply named_anchored.
Qed.

Section dest.
Context (κ0 : kstate) (hl ha : N → Z).
Context (Hinv : kinv hl ha κ0) (Hroom : walk_headroom κ0).

Lemma resolve_dest_loop_spec depth : ∀ cur cptr κ,
  shifted κ0 (hold nil_refs cur 1) (hold nil_refs cur 1) κ → published κ0 cur →
  returns (resolve_dest_loop depth cur cptr κ) (λ '(r, κ'),
    slot_post κ0 (lookup_dest_loop depth cur cptr κ0) r κ').
Proof.
  induction depth as [|depth IH]; intros cur cptr κ Hw (kc & Hkc & Hrc & Hac);
    destruct (put_last κ0 Hroom κ cur kc Hw Hkc Hrc Hac) as (κp & Rp & Wp);
    cbn [resolve_dest_loop lookup_dest_loop].
  { rewrite Rp. by split. }
  assert (level_index κ cur cptr = level_index κ0 cur cptr) as ->
    by (unfold level_index; by rewrite (shifted_slots _ _ _ _ _ Hw)).
  rewrite (shifted_slots _ _ _ _ _ Hw), fetch_guarded_fetch. set (idx := level_index κ0 cur cptr).
  set (c1 := Z.shiftr cptr (ctz (cn_slots κ0 cur))). cbv zeta.
  destruct (c1 =? 0); [by split|].
  assert (∀ x, 0 ≤ hold nil_refs cur 1 x ≤ 1) as Hd
    by (intros x; unfold hold, nil_refs; case_decide; lia).
  pose proof (fetch_walked κ0 hl ha Hinv Hroom _ κ cur idx Hw Hd) as Hf. cbv zeta in Hf.
  destruct (slot_in_range κ0 cur idx); cbn [negb] in Hf |- *;
    [|rewrite Hf; cbn [mbind res_bind]; rewrite Rp; by split].
  destruct (object (mdb κ0) (InNode cur idx)) as [o|] eqn:Ho;
    [|rewrite Hf; cbn [mbind res_bind]; rewrite Rp; by split].
  destruct Hf as (κ1 & W1 & Hf). rewrite Hf. cbn [mbind res_bind].
  assert (published κ0 o) as Hpo.
  { destruct (slot_published _ _ _ _ _ _ Hinv Ho) as (ko & Hko & Hr1 & Ha1).
    destruct (decide (o = cur)) as [->|Hne]; [by exists kc|]. exists ko. auto. }
  pose proof Hpo as (k & Hk & Hr & Ha).
  unfold get_obj. rewrite (shifted_obj _ _ _ _ _ _ W1 Hk), Hk.
  cbn [of_assert mbind res_bind fmap option_fmap option_map otype shift_refs].
  destruct (decide (otype k = KOBJ_CNODE)) as [Ht|Ht].
  - rewrite !bool_decide_true by congruence. cbn [negb].
    destruct (put_prev κ0 Hroom κ1 cur o kc W1 Hkc Hrc Hac) as (κ3 & R3 & W3). rewrite R3.
    by apply IH.
  - rewrite !bool_decide_false by congruence. cbn [negb].
    destruct (put_probe κ0 Hroom κ1 cur o k W1 Hk Hr Ha) as (κ2 & R2 & W2). rewrite R2. cbn [mbind res_bind].
    destruct (put_last κ0 Hroom κ2 cur kc W2 Hkc Hrc Hac) as (κ4 & R4 & W4). rewrite R4. by split.
Qed.

Lemma resolve_dest_spec (root : option N) cptr :
  match root with Some r => published κ0 r | None => True end →
  returns (cspace_resolve_dest_slot root cptr κ0) (λ '(r, κ'),
    slot_post κ0 (cspace_lookup_dest root cptr κ0) r κ').
Proof.
  unfold cspace_resolve_dest_slot, cspace_lookup_dest.
  destruct (cptr =? IRIS_CPTR_NULL); [intros _; split; [reflexivity|apply shifted_refl]|].
  destruct root as [root|]; [|intros _; split; [reflexivity|apply shifted_refl]].
  intros (k & Hk & Hr & Ha).
  destruct (get_refs_walked κ0 Hroom _ κ0 root k (shifted_refl κ0) Hk Hr) as (κ1 & κ2 & R1 & R2 & W);
    [unfold nil_refs; lia|].
  rewrite R1. cbn [mbind res_bind]. rewrite R2. cbn [mbind res_bind].
  apply resolve_dest_loop_spec; [assumption|by exists k].
Qed.
End dest.

(** The destination found is anchored. *)
Lemma dest_anchored κ hl ha (root : option N) cptr cn i :
  live_root κ hl ha root → cspace_lookup_dest root cptr κ = inr (cn, i) → anchored κ hl ha cn.
Proof.
  unfold cspace_lookup_dest. destruct (_ =? _); [done|]. destruct root as [r|]; [|done].
  apply lookup_dest_anchored.
Qed.

(** ** Staging *)

(** The verdict of a peek, decided on the state it finds. *)
Definition stage_verdict κ (root : option N) (src_cptr requested : Z) : iris_error_t + staged :=
  if negb (cspace_only_cptr src_cptr) then inl IRIS_ERR_INVALID_ARG
  else match cspace_lookup_slot root src_cptr κ with
  | inl e => inl e
  | inr (cn, i) =>
      let s := InNode cn i in
      match object (mdb κ) s with
      | None => inl IRIS_ERR_NOT_FOUND
      | Some xo =>
          if negb (rights_check (rights (mdb κ) s) RIGHT_TRANSFER) then inl IRIS_ERR_ACCESS_DENIED
          else if rights_reduce (rights (mdb κ) s) requested =? RIGHT_NONE
          then inl IRIS_ERR_INVALID_ARG
          else inr (Staged xo (rights_reduce (rights (mdb κ) s) requested) (badge (mdb κ) s) cn i)
      end
  end.

(** The references a stage holds on top of [hl] and [ha]. *)
Definition hl_staged hl (s : staged) : N → Z := hold (hold hl (cap_src_cn s) 1) (cap_obj s) 1.
Definition ha_staged ha (s : staged) : N → Z := hold ha (cap_src_cn s) 1.

Lemma shifted_kinv_ext hl ha κ dl da κ' hl' ha' :
  kinv hl ha κ → xfer_headroom κ → shifted κ dl da κ' →
  (∀ o, 0 ≤ dl o ≤ 4) → (∀ o, 0 ≤ da o ≤ 4) → (∀ o, objs κ o = None → dl o = 0) →
  (∀ o, hl' o = hl o + dl o) → (∀ o, ha' o = ha o + da o) → kinv hl' ha' κ'.
Proof.
  intros Hκ Hr Hs B1 B2 Hd E1 E2. pose proof (ki_hl _ _ _ Hκ) as Hp.
  eapply kinv_ext; [exact E1|exact E2|]. eapply shifted_kinv; try eassumption.
  - intros o k Hk. pose proof (Hr o k Hk). specialize (B1 o). specialize (B2 o). lia.
  - intros o. specialize (B1 o). specialize (Hp o). lia.
  - intros o. specialize (B2 o). specialize (Hp o). lia.
Qed.

Lemma published_some κ o x : published κ o → objs κ x = None → x ≠ o.
Proof. intros (k & Hk & _) Hx ->. congruence. Qed.

Ltac hold_lia := intros; unfold hl_staged, ha_staged, hold, nil_refs in *; simpl in *;
  repeat case_decide; subst; lia.

(** Fetching the capability of a slot and giving its active reference back. *)
Lemma fetch_pin hl ha κ κ1 cn i xo :
  kinv hl ha κ → walk_headroom κ → published κ cn → slot_in_range κ cn i = true →
  object (mdb κ) (InNode cn i) = Some xo → shifted κ (hold nil_refs cn 1) (hold nil_refs cn 1) κ1 →
  ∃ κ2 κ3, kcnode_fetch_badged (Some cn) i κ1 =
      Ret (inr (xo, rights (mdb κ) (InNode cn i), badge (mdb κ) (InNode cn i), κ2)) ∧
    active_release xo κ2 = Ret κ3 ∧ published κ xo ∧
    shifted κ (hold (hold nil_refs cn 1) xo 1) (hold nil_refs cn 1) κ3.
Proof.
  intros Hκ Hw Hc Hr Ho H1.
  assert (∀ x, 0 ≤ hold nil_refs cn 1 x ≤ 1) as Hd by hold_lia.
  pose proof (fetch_walked κ hl ha Hκ Hw _ κ1 cn i H1 Hd) as Hf. cbv zeta in Hf.
  rewrite Hr in Hf. cbn [negb] in Hf. rewrite Ho in Hf. destruct Hf as (κ2 & W2 & Hf).
  change (kcnode_fetch_badged (Some cn) i κ1) with (kcnode_fetch (Some cn) i κ1).
  rewrite fetch_guarded_fetch, Hf. cbn [mbind res_bind].
  destruct (slot_published _ _ _ _ _ _ Hκ Ho) as (k & Hk & Hk1 & Hk2).
  assert (1 ≤ active_refs k) as Ha.
  { destruct (decide (xo = cn)) as [->|Hne]; [|by apply Hk2]. destruct Hc as (k' & Hk' & _ & ?). congruence. }
  destruct (Hw xo k Hk) as [_ Hb].
  destruct (active_release_shifted _ _ _ _ _ _ W2 Hk) as (κ3 & R3 & W3); [hold_lia|].
  exists κ2, κ3. split; [reflexivity|]. split; [assumption|]. split; [by exists k|].
  eapply shifted_ext; [..|exact W3]; hold_lia.
Qed.

(** Giving everything up again: the counts are as before the walk. *)
Lemma unpin κ κ3 cn xo :
  walk_headroom κ → published κ cn → published κ xo →
  shifted κ (hold (hold nil_refs cn 1) xo 1) (hold nil_refs cn 1) κ3 →
  ∃ κ4 κ5, release xo κ3 = Ret κ4 ∧ put_refs cn κ4 = Ret κ5 ∧ shifted κ nil_refs nil_refs κ5.
Proof.
  intros Hw (kc & Hkc & Hc1 & Hc2) (k & Hk & H1 & H2) W3. destruct (Hw xo k Hk) as [Hb _].
  destruct (release_shifted _ _ _ _ _ _ W3 Hk) as (κ4 & R4 & W4); [hold_lia|].
  destruct (put_last κ Hw κ4 cn kc) as (κ5 & R5 & W5); [|assumption..|].
  { eapply shifted_ext; [..|exact W4]; hold_lia. }
  by exists κ4, κ5.
Qed.

Lemma slot_walk_spec hl ha κ (root : option N) cptr :
  kinv hl ha κ → walk_headroom κ → match root with Some r => published κ r | None => True end →
  returns (cspace_resolve_slot root cptr κ) (λ '(r, κ'), slot_post κ (cspace_lookup_slot root cptr κ) r κ').
Proof.
  intros Hκ Hw Hr. destruct root as [r|].
  - destruct Hr as (k & Hk & H1 & H2). by eapply cspace_resolve_slot_spec.
  - unfold cspace_resolve_slot, cspace_lookup_slot.
    destruct (_ =? _); (split; [reflexivity|apply shifted_refl]).
Qed.

Lemma root_published hl ha hl' ha' κ (root : option N) :
  kinv hl' ha' κ → (∀ x, 0 ≤ hl x ≤ hl' x) → (∀ x, 0 ≤ ha x ≤ ha' x) → live_root κ hl ha root →
  match root with Some r => published κ r | None => True end.
Proof. intros Hκ Hl Ha. destruct root; [|done]. by apply (anchored_published hl ha hl' ha'). Qed.

Lemma kinv_le hl ha κ : kinv hl ha κ → (∀ x, 0 ≤ hl x ≤ hl x) ∧ (∀ x, 0 ≤ ha x ≤ ha x).
Proof. intros Hκ. split; intros x; destruct (ki_hl _ _ _ Hκ x); lia. Qed.

Lemma lookup_slot_anchored κ hl ha (root : option N) cptr cn i :
  live_root κ hl ha root → cspace_lookup_slot root cptr κ = inr (cn, i) →
  anchored κ hl ha cn ∧ is_Some (object (mdb κ) (InNode cn i)) ∧ slot_in_range κ cn i = true.
Proof.
  unfold cspace_lookup_slot. destruct (_ =? _); [done|]. destruct root as [r|]; [|done].
  apply lookup_anchored.
Qed.

Lemma stage_cap_spec hl ha (root : option N) src_cptr requested κ :
  kinv hl ha κ → xfer_headroom κ → live_root κ hl ha root →
  returns (syscall_ipc_stage_cap_peek_badged root src_cptr requested κ) (λ '(r, κ'),
    r = stage_verdict κ root src_cptr requested ∧ mdb κ' = mdb κ ∧
    match r with
    | inl _ => shifted κ nil_refs nil_refs κ'
    | inr s => kinv (hl_staged hl s) (ha_staged ha s) κ' ∧
        rights_le (cap_rights s) (rights (mdb κ) (InNode (cap_src_cn s) (cap_src_idx s)))
    end).
Proof.
  intros Hκ Hr Hroot. pose proof (xfer_walk _ _ _ Hκ Hr) as Hw. destruct (kinv_le _ _ _ Hκ) as [Hl Ha].
  pose proof (root_published _ _ _ _ _ _ Hκ Hl Ha Hroot) as Hp.
  unfold syscall_ipc_stage_cap_peek_badged, stage_verdict.
  destruct (negb (cspace_only_cptr src_cptr)).
  { split_and!; [reflexivity..|apply shifted_refl]. }
  apply returns_bind. eapply returns_mono; [by eapply slot_walk_spec|].
  intros [r κ1] [-> W1]. destruct (cspace_lookup_slot root src_cptr κ) as [e|[cn i]] eqn:Hlk.
  { split_and!; [reflexivity|apply W1|exact W1]. }
  destruct (lookup_slot_anchored _ _ _ _ _ _ _ Hroot Hlk) as (Hanc & [xo Ho] & Hin).
  pose proof (anchored_published _ _ _ _ _ _ Hκ Hl Ha Hanc) as Hc.
  destruct (fetch_pin _ _ _ _ _ _ _ Hκ Hw Hc Hin Ho W1) as (κ2 & κ3 & F & R3 & Hx & W3).
  destruct (unpin _ _ _ _ Hw Hc Hx W3) as (κ4 & κ5 & R4 & R5 & W5).
  rewrite F. cbn [mbind res_bind]. rewrite R3, Ho. cbn [mbind res_bind]. cbv zeta.
  destruct (negb (rights_check _ RIGHT_TRANSFER)).
  { rewrite R4. cbn [mbind res_bind]. rewrite R5. split_and!; [reflexivity|apply W5|exact W5]. }
  destruct (_ =? RIGHT_NONE).
  { rewrite R4. cbn [mbind res_bind]. rewrite R5. split_and!; [reflexivity|apply W5|exact W5]. }
  split; [reflexivity|]. split; [apply W3|]. split; [|apply rights_reduce_le].
  eapply (shifted_kinv_ext hl ha κ); [exact Hκ|exact Hr|exact W3|hold_lia|hold_lia| |hold_lia|hold_lia].
  intros o Hno. pose proof (published_some _ _ _ Hc Hno). pose proof (published_some _ _ _ Hx Hno). hold_lia.
Qed.

(** staging a capability is read-only and exact.  A peek returns the
    verdict of the checks in their order (namespace, walk, transfer right, rights
    left over); a refusal leaves every reference count as it was; a success pins
    the object and the source CNode with exactly the references the stage will
    give back, and stages no right the source slot does not have, with its badge. *)
Theorem ipc_stage_cap_exact hl ha (root : option N) src_cptr requested κ :
  kinv hl ha κ → xfer_headroom κ → live_root κ hl ha root →
  returns (syscall_ipc_stage_cap_peek_badged root src_cptr requested κ) (λ '(r, κ'),
    r = stage_verdict κ root src_cptr requested ∧ mdb κ' = mdb κ ∧
    match r with
    | inl _ => shifted κ nil_refs nil_refs κ'
    | inr s => kinv (hl_staged hl s) (ha_staged ha s) κ' ∧
        rights_le (cap_rights s) (rights (mdb κ) (InNode (cap_src_cn s) (cap_src_idx s)))
    end).
Proof. apply stage_cap_spec. Qed.

(** ** Delivery *)

Lemma shifted_shrinks κ dl da κ' : shifted κ dl da κ' → kshrinks κ κ'.
Proof.
  intros [Hm Ho _]. constructor; rewrite ?Hm; [reflexivity|done|].
  intros o k'. rewrite Ho. destruct (objs κ o) as [k|]; [|done]. intros [= <-]. by exists k.
Qed.

Lemma put_refs_spec hl ha cn κ :
  kinv (hold hl cn 1) (hold ha cn 1) κ → 0 ≤ hl cn → 0 ≤ ha cn →
  returns (put_refs cn κ) (λ κ', kinv hl ha κ' ∧ kshrinks κ κ').
Proof.
  intros Hκ Hl Ha. unfold put_refs. apply returns_bind.
  eapply returns_mono; [apply (active_release_spec _ _ _ _ Hκ); [rewrite hold_same; lia|assumption]|].
  intros κ1 [Hκ1 Hs1 _]. eapply returns_mono; [apply (release_spec hl ha (λ _, False) _ _ Hκ1 Hl)|].
  intros κ2 [Hκ2 Hs2 _]. split; [assumption|by etransitivity].
Qed.

(** Giving back references that are not the last runs no hook. *)
Lemma quiet_kinv hl ha cn k (l a : Z) κ κ' :
  kinv (hold hl cn l) (hold ha cn a) κ → objs κ cn = Some k → (∀ x, 0 ≤ hl x ∧ 0 ≤ ha x) →
  0 ≤ l → 0 ≤ a → shifted κ (hold nil_refs cn (- l)) (hold nil_refs cn (- a)) κ' → kinv hl ha κ'.
Proof.
  intros Hκ Hk Hpos Hl Ha W.
  eapply kinv_ext; [..|apply (shifted_kinv _ _ _ _ _ _ Hκ W)].
  - hold_lia.
  - hold_lia.
  - intros o ko Hko. destruct (ki_refs _ _ _ Hκ o ko Hko) as (_ & _ & Hb). hold_lia.
  - intros o. specialize (Hpos o). hold_lia.
  - intros o. specialize (Hpos o). hold_lia.
  - intros o Ho. rewrite hold_ne; [done|congruence].
Qed.

Section quiet.
Context (hl ha : N → Z) (Hpos : ∀ x, 0 ≤ hl x ∧ 0 ≤ ha x).

Lemma put_refs_quiet cn κ :
  kinv (hold hl cn 1) (hold ha cn 1) κ → anchored κ hl ha cn →
  ∃ κ', put_refs cn κ = Ret κ' ∧ kinv hl ha κ' ∧ mdb κ' = mdb κ.
Proof.
  intros Hκ Hanc. pose proof (Hpos cn).
  assert (∀ x, hl x ≤ hold hl cn 1 x) as Hle by hold_lia.
  destruct (anchored_live _ _ _ _ _ _ Hκ Hle Hanc) as [k Hk].
  destruct (anchored_counts _ _ _ _ _ _ _ Hκ Hanc Hk) as [H1 H2]; [rewrite hold_same; lia..|].
  rewrite !hold_same in H1, H2. destruct (ki_refs _ _ _ Hκ cn k Hk) as (_ & _ & Hb). unfold put_refs.
  destruct (active_release_shifted _ _ _ _ _ _ (shifted_refl κ) Hk) as (κ1 & R1 & W1); [hold_lia|].
  destruct (release_shifted _ _ _ _ _ _ W1 Hk) as (κ2 & R2 & W2); [hold_lia|].
  rewrite R1. exists κ2. split; [exact R2|]. split; [|apply W2].
  eapply (quiet_kinv _ _ cn k 1 1); [eassumption..|lia|lia|]. eapply shifted_ext; [..|exact W2]; hold_lia.
Qed.

Lemma release_quiet o s κ :
  kinv (hold hl o 1) ha κ → object (mdb κ) s = Some o →
  ∃ κ', release o κ = Ret κ' ∧ kinv hl ha κ' ∧ mdb κ' = mdb κ.
Proof.
  intros Hκ Ho. pose proof (Hpos o).
  destruct (slot_object_live _ _ _ _ _ Hκ Ho) as (k & Hk & _ & Hin). pose proof (names_pos _ _ _ Hin Ho).
  destruct (ki_refs _ _ _ Hκ o k Hk) as (E1 & E2 & Hb). rewrite hold_same in E1.
  assert (0 ≤ queued κ o) by (unfold queued; case_decide; lia).
  destruct (release_shifted _ _ _ _ _ _ (shifted_refl κ) Hk) as (κ1 & R1 & W1); [hold_lia|].
  exists κ1. split; [exact R1|]. split; [|apply W1].
  eapply (quiet_kinv _ _ o k 1 0); [|eassumption..|lia|lia|].
  - eapply kinv_ext; [..|exact Hκ]; hold_lia.
  - eapply shifted_ext; [..|exact W1]; hold_lia.
Qed.
End quiet.

(** The destination a delivery will use, decided on the state it finds: the
    declared slot resolves and is empty, and the source slot still holds the
    staged object. *)
Definition deliver_dest κ (root : option N) (slot : Z) (xo : N) (r : Z) (src_cn : option N) src_idx
    : option (N * N) :=
  if cspace_value_is_cptr slot then
    match cspace_lookup_dest root slot κ with
    | inl _ => None
    | inr (cn, i) =>
        if kcnode_slot_holds src_cn src_idx (Some xo) κ &&
           bool_decide (install_code κ cn i r ((λ c, (c, src_idx)) <$> src_cn) (Some xo) true = IRIS_OK)
        then Some (cn, i) else None
    end
  else None.

(** The verdicts do not depend on reference counts. *)
Section shifted_verdicts.
Context κ dl da κ' (W : shifted κ dl da κ').

Lemma shifted_range c i : slot_in_range κ' c i = slot_in_range κ c i.
Proof. unfold slot_in_range. by rewrite (shifted_slots _ _ _ _ _ W). Qed.

Lemma shifted_holds c i (o : option N) : kcnode_slot_holds c i o κ' = kcnode_slot_holds c i o κ.
Proof. unfold kcnode_slot_holds. destruct c, o; try reflexivity. by rewrite shifted_range, (sh_mdb _ _ _ _ W). Qed.

Lemma shifted_install_code cn i r parent pe ex :
  install_code κ' cn i r parent pe ex = install_code κ cn i r parent pe ex.
Proof.
  unfold install_code, parent_in_range. rewrite (sh_mdb _ _ _ _ W), shifted_range.
  destruct parent as [[]|]; [by rewrite shifted_range|reflexivity].
Qed.
End shifted_verdicts.

(** An anchor survives an install into an empty slot. *)
Lemma anchored_install κ κ' hl ha s c p o :
  cdt_eq (abs (mdb κ')) (cdt_install s c p (abs (mdb κ))) → object (mdb κ) s = None →
  anchored κ hl ha o → anchored κ' hl ha o.
Proof.
  intros [Hc _] He [?|(x & Hx & Hh)]; [by left|right]. exists x. split; [|assumption].
  rewrite <-Hx. apply cdt_caps_object. rewrite Hc. simpl. unfold upd_fn.
  destruct (decide (x = s)); [congruence|done].
Qed.

Lemma installed_object κ s (xo : N) (r b : Z) p κ' :
  cdt_eq (abs (mdb κ')) (cdt_install s (xo, r, b) p (abs (mdb κ))) → object (mdb κ') s = Some xo.
Proof.
  intros [Hc _]. specialize (Hc s). simpl in Hc. unfold upd_fn in Hc. rewrite decide_True in Hc by done.
  destruct (object (mdb κ') s); simpl in Hc; congruence.
Qed.

Section deliver.
Context (hl ha : N → Z) (Hpos : ∀ x, 0 ≤ hl x ∧ 0 ≤ ha x).

(** Dropping the walk's and the stage's references after a failure. *)
Lemma deliver_drop cn xo κ :
  kinv (hold (hold hl xo 1) cn 1) (hold ha cn 1) κ →
  returns (κ ← put_refs cn κ; release xo κ) (λ κ', kinv hl ha κ' ∧ kshrinks κ κ').
Proof.
  intros Hκ. apply returns_bind. eapply returns_mono; [apply (put_refs_spec _ _ _ _ Hκ)|].
  - specialize (Hpos cn). hold_lia.
  - apply Hpos.
  - intros κ1 [Hκ1 Hs1]. eapply returns_mono; [apply (release_spec hl ha (λ _, False) _ _ Hκ1), Hpos|].
    intros κ2 [Hκ2 Hs2 _]. split; [assumption|by etransitivity].
Qed.

(** And after a success: nothing else in the tree moves. *)
Lemma deliver_keep cn xo s κ :
  kinv (hold (hold hl xo 1) cn 1) (hold ha cn 1) κ → anchored κ hl ha cn → object (mdb κ) s = Some xo →
  ∃ κ1 κ2, put_refs cn κ = Ret κ1 ∧ release xo κ1 = Ret κ2 ∧ kinv hl ha κ2 ∧ mdb κ2 = mdb κ.
Proof.
  intros Hκ Hanc Ho.
  destruct (put_refs_quiet (hold hl xo 1) ha) with (cn := cn) (κ := κ) as (κ1 & R1 & Hκ1 & Hm1).
  - intros x. pose proof (Hpos x). hold_lia.
  - assumption.
  - destruct Hanc as [?|?]; [left; hold_lia|by right].
  - rewrite <-Hm1 in Ho. destruct (release_quiet hl ha Hpos _ _ _ Hκ1 Ho) as (κ2 & R2 & Hκ2 & Hm2).
    exists κ1, κ2. split_and!; [assumption..|congruence].
Qed.
End deliver.

(** The walk to the destination, as holdings. *)
Lemma dest_walk_kinv hl ha κ dl κ1 cn :
  kinv hl ha κ → xfer_headroom κ → published κ cn → shifted κ dl dl κ1 →
  (∀ x, dl x = hold nil_refs cn 1 x) → kinv (hold hl cn 1) (hold ha cn 1) κ1.
Proof.
  intros Hκ Hr Hc W Hd.
  eapply (shifted_kinv_ext hl ha κ); [exact Hκ|exact Hr|exact W|..]; intros o; rewrite ?Hd; try hold_lia.
  intros Ho. pose proof (published_some _ _ _ Hc Ho). hold_lia.
Qed.

(** What a delivery does when it has a destination. *)
Definition delivered κ (xo : N) (r b : Z) (src_cn : option N) src_idx (dst : N * N) κ' : Prop :=
  ∃ scn, src_cn = Some scn ∧
    object (mdb κ) (InNode scn src_idx) = Some xo ∧ object (mdb κ) (InNode dst.1 dst.2) = None ∧
    cdt_eq (abs (mdb κ'))
      (cdt_install (InNode dst.1 dst.2) (xo, r, b) (Some (InNode scn src_idx)) (abs (mdb κ))).

Lemma install_code_ok κ cn i r parent pe :
  install_code κ cn i r parent pe true = IRIS_OK → object (mdb κ) (InNode cn i) = None.
Proof. unfold install_code. destruct (_ || _); [done|]. by destruct (object _ _). Qed.

Lemma deliver_install hl ha cn idx xo r b scn src_idx κ κ1 dl :
  kinv (hold (hold hl xo 1) cn 1) (hold ha cn 1) κ1 → (∀ x, 0 ≤ hl x ∧ 0 ≤ ha x) →
  xfer_headroom κ → shifted κ dl dl κ1 → (∀ x, dl x ≤ 1) → anchored κ hl ha cn →
  kcnode_slot_holds (Some scn) src_idx (Some xo) κ = true →
  let code := install_code κ cn idx r (Some (scn, src_idx)) (Some xo) true in
  returns (
    '(e, κ) ← kcnode_slot_install_linked (Some cn) idx (Some xo) r b (Some (scn, src_idx)) (Some xo) true false κ1;
    κ ← put_refs cn κ; κ ← release xo κ; Ret (e, κ)) (λ '(e, κ'), e = code ∧ kinv hl ha κ' ∧ mem (mdb κ') ⊆ mem (mdb κ) ∧
      if bool_decide (code = IRIS_OK) then delivered κ xo r b (Some scn) src_idx (cn, idx) κ'
      else kshrinks κ κ').
Proof.
  intros Hκ1 Hpos Hr W Hdl Hanc Hho code.
  destruct (kinv_live _ _ _ xo Hκ1) as [k1 Hk1]; [specialize (Hpos xo); hold_lia|].
  assert (1 ≤ refcount k1 ∧ refcount k1 + active_refs k1 + 2 < 2 ^ 32) as [Hk2 Hk3].
  { destruct (ki_refs _ _ _ Hκ1 xo k1 Hk1) as (E1 & _). assert (0 ≤ queued κ1 xo) by (unfold queued; case_decide; lia).
    pose proof Hk1 as Hk0. rewrite (sh_objs _ _ _ _ W) in Hk0. destruct (objs κ xo) as [k0|] eqn:Ek; [|done].
    injection Hk0 as <-. pose proof (Hr xo k0 Ek). specialize (Hdl xo). specialize (Hpos xo). simpl.
    split; [simpl in E1; hold_lia|lia]. }
  apply returns_bind.
  eapply returns_mono; [eapply (install_linked_spec _ _ cn idx xo k1); [exact Hκ1|exact Hk1|exact Hk2|exact Hk3]|].
  intros [e κ2] [He [P1 P2 P3 _ P5]]. rewrite (shifted_install_code _ _ _ _ W) in He. fold code in He. subst e.
  rewrite (sh_mdb _ _ _ _ W) in P3. simpl in P3. case_bool_decide as Hok.
  - specialize (P3 Hok (install_code_ok _ _ _ _ _ _ Hok)).
    pose proof (anchored_install _ _ _ _ _ _ _ _ P3 (install_code_ok _ _ _ _ _ _ Hok) Hanc) as Hanc2.
    destruct (deliver_keep _ _ Hpos _ _ _ _ P1 Hanc2 (installed_object _ _ _ _ _ _ _ P3))
      as (κ3 & κ4 & R3 & R4 & Hκ4 & Hm4).
    rewrite R3. cbn [mbind res_bind]. rewrite R4. split; [reflexivity|]. split; [assumption|].
    split; [rewrite Hm4, <-(sh_mdb _ _ _ _ W); exact P5|]. exists scn. split; [reflexivity|]. simpl in Hho. apply andb_true_iff in Hho as [_ Hho%bool_decide_eq_true].
    split; [assumption|]. split; [by eapply install_code_ok|]. by rewrite Hm4.
  - pose proof (deliver_drop _ _ Hpos _ _ _ P1) as Hd. apply returns_Ret in Hd as (κ3 & Hd & Hκ3 & Hs3).
    apply res_bind_Ret in Hd as (κ2' & R2 & R3). rewrite R2. cbn [mbind res_bind]. rewrite R3.
    assert (kshrinks κ κ3) as Hs.
    { etransitivity; [by eapply shifted_shrinks|]. etransitivity; [by apply P2|exact Hs3]. }
    split; [reflexivity|]. split; [assumption|]. split; [apply Hs|exact Hs].
Qed.

Lemma deliver_cap_spec hl ha (root : option N) slot xo r b (src_cn : option N) src_idx κ :
  kinv (hold hl xo 1) ha κ → (∀ x, 0 ≤ hl x ∧ 0 ≤ ha x) → xfer_headroom κ → live_root κ hl ha root →
  returns (syscall_ipc_deliver_cap_routed root slot (Some xo) r b src_cn src_idx κ) (λ '(v, slot', κ'),
    kinv hl ha κ' ∧ mem (mdb κ') ⊆ mem (mdb κ) ∧ slot' = (if cspace_value_is_cptr slot then 0 else slot) ∧
    match deliver_dest κ root slot xo r src_cn src_idx with
    | Some dst => v = slot ∧ delivered κ xo r b src_cn src_idx dst κ'
    | None => v = NO_CAP ∧ kshrinks κ κ'
    end).
Proof.
  intros Hκ Hpos Hr Hroot. unfold syscall_ipc_deliver_cap_routed, deliver_dest.
  assert (∀ κ1, kinv (hold hl xo 1) ha κ1 → returns (release xo κ1) (λ κ', kinv hl ha κ' ∧ kshrinks κ1 κ')) as Hrel.
  { intros κ1 Hκ1. eapply returns_mono; [apply (release_spec hl ha (λ _, False) _ _ Hκ1), Hpos|].
    intros κ2 [? ? _]. by split. }
  destruct (cspace_value_is_cptr slot).
  2: { apply returns_bind. eapply returns_mono; [by apply Hrel|]. intros κ1 [? Hs]. split_and!; [done|apply Hs|done..]. }
  assert (∀ x, 0 ≤ hl x ≤ hold hl xo 1 x) as Hl by (intros x; pose proof (Hpos x); hold_lia).
  assert (∀ x, 0 ≤ ha x ≤ ha x) as Ha by (intros x; pose proof (Hpos x); lia).
  pose proof (root_published _ _ _ _ _ _ Hκ Hl Ha Hroot) as Hp.
  apply returns_bind. eapply returns_mono; [by eapply resolve_dest_spec; [exact Hκ|eapply xfer_walk|]|].
  intros [rd κ1] [-> W1]. destruct (cspace_lookup_dest root slot κ) as [e|[cn idx]] eqn:Hd.
  { apply returns_bind. eapply returns_mono; [apply Hrel|].
    - eapply kinv_ext; [..|eapply (shifted_kinv _ _ _ _ _ _ Hκ W1)]; try hold_lia.
      + intros o k Hk. pose proof (Hr o k Hk). hold_lia.
      + intros o. pose proof (Hpos o). hold_lia.
      + intros o. pose proof (Hpos o). hold_lia.
    - intros κ2 [? Hs2]. assert (kshrinks κ κ2) as Hs
      by (etransitivity; [by eapply shifted_shrinks|exact Hs2]). split_and!; [done|apply Hs|done..]. }
  pose proof (dest_anchored _ _ _ _ _ _ _ Hroot Hd) as Hanc.
  pose proof (anchored_published _ _ _ _ _ _ Hκ Hl Ha Hanc) as Hpub.
  pose proof (dest_walk_kinv _ _ _ _ _ _ Hκ Hr Hpub W1 (λ _, eq_refl)) as Hκ1.
  rewrite (shifted_holds _ _ _ _ W1).
  destruct (kcnode_slot_holds src_cn src_idx (Some xo) κ) eqn:Hho; cbn [negb andb].
  - destruct src_cn as [scn|]; [|done].
    assert (∀ x, hold nil_refs cn 1 x ≤ 1) as Hdl by hold_lia.
    pose proof (deliver_install hl ha cn idx xo r b scn src_idx κ κ1 _ Hκ1 Hpos Hr W1 Hdl Hanc Hho) as Hi.
    apply returns_Ret in Hi as ([e κ4] & Hi & -> & Hκ4 & Hmem4 & Hpost).
    apply res_bind_Ret in Hi as ([e κ2] & R2 & Hi). apply res_bind_Ret in Hi as (κ3 & R3 & Hi).
    apply res_bind_Ret in Hi as (κ5 & R5 & [= -> ->]). cbn [fmap option_fmap option_map].
    rewrite R2. cbn [mbind res_bind]. rewrite R3. cbn [mbind res_bind]. rewrite R5. cbn [mbind res_bind].
    case_bool_decide; (split; [try by apply kinv_ctr|by split_and!]); assumption.
  - pose proof (deliver_drop _ _ Hpos _ _ _ Hκ1) as Hdr. apply returns_Ret in Hdr as (κ3 & Hdr & Hκ3 & Hs3).
    apply res_bind_Ret in Hdr as (κ2 & R2 & R3). rewrite R2. cbn [mbind res_bind]. rewrite R3.
    assert (kshrinks κ κ3) as Hs by (etransitivity; [by eapply shifted_shrinks|exact Hs3]).
    split_and!; [assumption|apply Hs|reflexivity|reflexivity|exact Hs].
Qed.

(** C9: a capability sent over an endpoint is a derivation child of the
    capability staged.  At the rendezvous, whatever ran since the stage, a
    delivery returns; it installs the object with the staged rights and badge
    into the slot the receiver declared, as a child of the sender's slot, exactly
    when that slot still holds the staged object and the destination is an empty
    slot that resolves, and then nothing else in the tree changes, the sender's
    slot included; in every other case the message carries no capability and no
    capability appears anywhere.  The declaration is consumed and the stage's
    reference is given back on every path. *)
Theorem ipc_deliver_cap_safe hl ha (root : option N) slot xo r b (src_cn : option N) src_idx κ :
  kinv (hold hl xo 1) ha κ → (∀ x, 0 ≤ hl x ∧ 0 ≤ ha x) → xfer_headroom κ → live_root κ hl ha root →
  returns (syscall_ipc_deliver_cap_routed root slot (Some xo) r b src_cn src_idx κ) (λ '(v, slot', κ'),
    kinv hl ha κ' ∧ slot' = (if cspace_value_is_cptr slot then 0 else slot) ∧
    match deliver_dest κ root slot xo r src_cn src_idx with
    | Some dst => v = slot ∧ delivered κ xo r b src_cn src_idx dst κ'
    | None => v = NO_CAP ∧ kshrinks κ κ'
    end).
Proof.
  intros. eapply returns_mono; [by apply (deliver_cap_spec hl ha)|]. intros [[v slot'] κ'] (? & _ & ?). by split.
Qed.

(** ** Declaring the receive slot *)

Definition declare_verdict κ (root : option N) (declared : Z) : iris_error_t * Z :=
  if negb (cspace_value_is_cptr declared) then (IRIS_OK, 0)
  else match cspace_lookup_dest root declared κ with
  | inl _ => (if bool_decide (root = None) then IRIS_ERR_NOT_FOUND else IRIS_ERR_INVALID_ARG, 0)
  | inr (cn, i) =>
      if negb (slot_in_range κ cn i) then (IRIS_ERR_INVALID_ARG, 0)
      else match object (mdb κ) (InNode cn i) with
      | Some _ => (IRIS_ERR_ALREADY_EXISTS, 0)
      | None => (IRIS_OK, declared)
      end
  end.

(** A declaration only reads: a slot is recorded exactly when it resolves and is
    empty, and every count is what it was. *)
Lemma recv_slot_declare_spec hl ha (root : option N) declared κ :
  kinv hl ha κ → walk_headroom κ → live_root κ hl ha root →
  returns (syscall_ipc_recv_slot_declare root declared κ) (λ '(e, slot, κ'),
    (e, slot) = declare_verdict κ root declared ∧ shifted κ nil_refs nil_refs κ').
Proof.
  intros Hκ Hw Hroot. destruct (kinv_le _ _ _ Hκ) as [Hl Ha].
  pose proof (root_published _ _ _ _ _ _ Hκ Hl Ha Hroot) as Hp.
  unfold syscall_ipc_recv_slot_declare, declare_verdict.
  destruct (cspace_value_is_cptr declared) eqn:Hcp; cbn [negb]; [|split; [done|apply shifted_refl]].
  apply returns_bind. eapply returns_mono; [by eapply resolve_dest_spec|].
  intros [rd κ1] [-> W1]. destruct (cspace_lookup_dest root declared κ) as [e|[cn i]] eqn:Hd.
  { destruct root as [r|].
    - rewrite andb_false_r. by split.
    - unfold cspace_lookup_dest in Hd. unfold cspace_value_is_cptr in Hcp.
      apply andb_true_iff in Hcp as [Hcp%negb_true_iff _]. rewrite Hcp in Hd. injection Hd as <-. by split. }
  pose proof (anchored_published _ _ _ _ _ _ Hκ Hl Ha (dest_anchored _ _ _ _ _ _ _ Hroot Hd))
    as (kc & Hkc & H1 & H2).
  destruct (put_last κ Hw κ1 cn kc W1 Hkc H1 H2) as (κp & Rp & Wp). rewrite fetch_guarded_fetch.
  assert (∀ x, 0 ≤ hold nil_refs cn 1 x ≤ 1) as Hdl by hold_lia.
  pose proof (fetch_walked κ hl ha Hκ Hw _ κ1 cn i W1 Hdl) as Hf. cbv zeta in Hf.
  destruct (slot_in_range κ cn i); cbn [negb] in Hf |- *.
  2: { rewrite Hf. cbn [mbind res_bind]. rewrite Rp. by split. }
  destruct (object (mdb κ) (InNode cn i)) as [o|] eqn:Ho.
  2: { rewrite Hf. cbn [mbind res_bind]. rewrite Rp. by split. }
  destruct Hf as (κ2 & W2 & Hf). rewrite Hf. cbn [mbind res_bind].
  destruct (put_prev κ Hw κ2 cn o kc W2 Hkc H1 H2) as (κ3 & R3 & W3). rewrite R3. cbn [mbind res_bind].
  assert (anchored κ hl ha o) as Hao by (eapply named_anchored; [by eapply dest_anchored|exact Ho]).
  destruct (anchored_published _ _ _ _ _ _ Hκ Hl Ha Hao) as (k & Hk & H3 & H4).
  destruct (put_last κ Hw κ3 o k W3 Hk H3 H4) as (κ4 & R4 & W4). rewrite R4. by split.
Qed.
