(* ===== verification/KcnodeBoot.v ===== *)
(** * Creation, and concrete kernel states

    Objects and CNodes are created with the creator holding their one
    reference; creation keeps the invariant.  The concrete states below are
    built by running the model from the empty kernel, so the hypotheses of the
    theorems on the capability layer hold of states the code reaches. *)

From Stdlib Require Import ZArith Lia.
From stdpp Require Import base numbers gmap list.
From S2P Require Import Prelude Rights Forest Mdb Cdt Kobject Kcnode KcnodeInv.
From S2P Require Import KcnodeRevoke KcnodeInstall KcnodeMove Cspace IpcCap.
Local Open Scope Z_scope.
Implicit Types (σ : mdb_state) (κ : kstate) (o cn idx : N) (s : slotptr) (hl ha : N → Z).

(** ** Creation *)

Lemma kinv_new hl ha κ o t n :
  kinv hl ha κ → objs κ o = None → ha o = 0 → destructible t →
  (t ≠ KOBJ_CNODE → n = 0%N) →
  kinv (hold hl o 1) ha (with_mdb (add_slots o n (mdb κ)) (kobject_init o t n κ)).
Proof.
  intros [[[H1a H1b] H1c H1d H1e] H2 H3 H4 H5 H6 H7 H8 H9] Ho Hao Ht Hn.
  destruct (H9 o Ho) as (N1 & N2 & N3).
  set (X := list_to_set (InNode o <$> slot_indices n) : gset slotptr).
  assert (∀ s, s ∈ X ↔ ∃ i, s = InNode o i ∧ (i < n)%N) as HX.
  { intros s. unfold X. rewrite elem_of_list_to_set, list_elem_of_fmap.
    split; intros (i & -> & Hi); exists i; (split; [done|]); by apply slot_indices_elem. }
  assert (∀ s, s ∈ X → object (mdb κ) s = None) as Hemp.
  { intros s (i & -> & Hi)%HX. apply H1e. rewrite H4. unfold cn_slots. rewrite Ho. simpl. lia. }
  assert (∀ x, names (add_slots o n (mdb κ)) x = names (mdb κ) x) as Hnames.
  { intros x. apply count_ext. intros s. simpl. rewrite elem_of_union. fold X.
    specialize (Hemp s). naive_solver. }
  assert (∀ x, anames (add_slots o n (mdb κ)) x = anames (mdb κ) x) as Hanames.
  { intros x. apply count_ext. intros s. simpl. rewrite elem_of_union. fold X.
    specialize (Hemp s). naive_solver. }
  assert (anames (mdb κ) o = 0%nat) as NA by (pose proof (anames_le_names (mdb κ) o); lia).
  constructor; cbn [mdb with_mdb kobject_init with_objs cascade_queue objs]; try assumption.
  - constructor; simpl; [constructor; simpl|..]; try assumption.
    + intros s Hs. apply H1b. set_solver.
    + intros s Hs. apply H1e. set_solver.
  - simpl. set_solver.
  - intros cn i. simpl. rewrite elem_of_union, H4. fold X. rewrite HX.
    unfold cn_slots, upd_fn. simpl. unfold upd_fn. destruct (decide (cn = o)) as [->|Hne].
    + rewrite Ho. simpl.
      split; [intros [?|(j & [= ->] & ?)]; lia|eauto].
    + split; [intros [?|(j & ? & ?)]; [assumption|congruence]|by left].
  - intros x k. unfold upd_fn. case_decide; [|apply H5]. by intros [= <-].
  - intros x. pose proof (H7 x). pose proof (hold_le hl o 1 x). lia.
  - intros x k. rewrite Hnames, Hanames. unfold upd_fn.
    change (queued _ x) with (queued κ x). destruct (decide (x = o)) as [->|Hx].
    + intros [= <-]. simpl. rewrite hold_same. unfold queued. rewrite decide_False by done.
      split_and!; lia.
    + rewrite hold_ne by done. apply H8.
  - intros x. rewrite Hnames. unfold upd_fn. case_decide as Hx; [done|].
    rewrite hold_ne by done. apply H9.
Qed.

Lemma kinv_live_count hl ha n κ : kinv hl ha κ → kinv hl ha (with_live n κ).
Proof. intros [H1 H2 H3 H4 H5 H6 H7 H8 H9]. constructor; assumption. Qed.

Lemma is_pow2_spec n : n ≠ 0%N → is_pow2 n = true ↔ (∃ e, n = 2 ^ e)%N.
Proof.
  intros Hn. unfold is_pow2. rewrite N.eqb_eq. split.
  - intros Hl. exists (N.log2 n).
    destruct (N.log2_spec n ltac:(lia)) as [Hlo Hhi]. apply N.le_antisymm; [|done].
    destruct (N.le_gt_cases n (2 ^ N.log2 n)) as [|Hgt]; [assumption|exfalso].
    (* bit [log2 n] is set in [n] and in [n - 1] *)
    assert (N.log2 (n - 1) = N.log2 n) as Hl1 by (apply N.log2_unique; lia).
    assert (N.testbit (N.land n (n - 1)) (N.log2 n) = true) as Hb.
    { rewrite N.land_spec, N.bit_log2 by assumption. rewrite <-Hl1, N.bit_log2; [done|].
      pose proof (N.pow_nonzero 2 (N.log2 n)). lia. }
    rewrite Hl in Hb. by rewrite N.bits_0 in Hb.
  - intros [e ->]. rewrite N.sub_1_r, <-N.ones_equiv, N.land_ones. apply N.Div0.mod_same.
Qed.

(** [kcnode_alloc_at] accepts exactly the powers of two from 1 to 4096;
    the new CNode has that many empty slots, its creator holds its only
    reference, and the capabilities of the system are what they were. *)
Theorem kcnode_alloc_at_spec hl ha cn num_slots κ :
  kinv hl ha κ → objs κ cn = None → ha cn = 0 →
  match kcnode_alloc_at (Some cn) num_slots κ with
  | Some κ' => (∃ e, num_slots = 2 ^ e ∧ e ≤ 12)%N ∧ kinv (hold hl cn 1) ha κ' ∧
      abs (mdb κ') = abs (mdb κ) ∧
      (∀ i, slot_in_range κ' cn i = (i <? num_slots)%N) ∧
      (∀ i, object (mdb κ') (InNode cn i) = None)
  | None => ¬ (∃ e, num_slots = 2 ^ e ∧ e ≤ 12)%N
  end.
Proof.
  intros Hκ Ho Ha. unfold kcnode_alloc_at.
  destruct (N.eqb_spec num_slots 0) as [H0|H0]; cbn [orb].
  { intros (e & He & _). pose proof (N.pow_nonzero 2 e). lia. }
  unfold KCNODE_MAX_SLOTS. destruct (N.ltb_spec 4096 num_slots) as [Hm|Hm].
  { intros (e & He & Hle). pose proof (N.pow_le_mono_r 2 e 12 ltac:(lia) Hle).
    change (2 ^ 12)%N with 4096%N in *. lia. }
  pose proof (is_pow2_spec num_slots H0) as Hp.
  destruct (is_pow2 num_slots); cbn [negb].
  - split.
    { destruct (proj1 Hp eq_refl) as [e He]. exists e. split; [assumption|].
      destruct (N.le_gt_cases e 12) as [|Hgt]; [assumption|].
      pose proof (N.pow_lt_mono_r 2 12 e ltac:(lia) Hgt). change (2 ^ 12)%N with 4096%N in *. lia. }
    split; [apply kinv_live_count, (kinv_new hl ha κ cn); [assumption..|exact I|done]|]. split; [reflexivity|]. split.
    + intros i. unfold slot_in_range, cn_slots. simpl. unfold upd_fn. by rewrite decide_True.
    + intros i. simpl. apply (mi_dom _ (ki_mdb _ _ _ Hκ)). rewrite (ki_mem _ _ _ Hκ).
      unfold cn_slots. rewrite Ho. simpl. lia.
  - intros (e & He & _). destruct Hp as [_ Hp]. specialize (Hp (ex_intro _ e He)). done.
Qed.

Lemma kobject_init_kinv hl ha κ o t :
  kinv hl ha κ → objs κ o = None → ha o = 0 → destructible t → t ≠ KOBJ_CNODE →
  kinv (hold hl o 1) ha (kobject_init o t 0 κ).
Proof.
  intros Hκ Ho Ha Ht Hc.
  assert (kobject_init o t 0 κ = with_mdb (add_slots o 0 (mdb κ)) (kobject_init o t 0 κ)) as ->.
  { unfold add_slots. simpl. rewrite union_empty_r_L. by destruct κ as [[]]. }
  by apply kinv_new.
Qed.

(** ** The empty kernel *)

Definition kernel0 : kstate :=
  KState (MdbState (Links (λ _, None) (λ _, None) (λ _, None) (λ _, None))
            (λ _, None) (λ _, RIGHT_NONE) (λ _, 0) (λ _, None) (λ _, 0) (λ _, 0) (λ _, 0)
            {[ OnStack ]} (λ _, 0))
    (λ _, None) [] false 0 [].

Definition none_held : N → Z := λ _, 0.

Lemma kernel0_kinv : kinv none_held none_held kernel0.
Proof.
  constructor; simpl; try done.
  - constructor; simpl; try done.
    + constructor; simpl; [|done].
      constructor; simpl; try done; try (intros x; constructor; done).
      intros p c. by split; [|intros []].
  - intros cn i. unfold cn_slots. simpl. rewrite elem_of_singleton. split; [done|lia].
  - constructor.
  - intros o _. split_and!; [|by apply not_elem_of_nil|done]. apply size_empty_iff.
    intros x. rewrite elem_of_filter. simpl. split; [by intros [? _]|]. intros H. by apply not_elem_of_empty in H.
Qed.

(** ** A small CSpace

    CNode 1 with eight slots and endpoint 7, whose creator still holds its
    reference.  Slot 0 holds the endpoint; slot 1 is a badged child of slot 0,
    slot 2 a child of slot 1, slot 3 a second child of slot 0. *)

(** The state a run ends in. *)
Definition run {A} (f : A → kstate) (m : res A) : kstate :=
  match m with Ret a => f a | Panic => kernel0 | NoFuel => kernel0 end.

Definition boot : kstate :=
  kobject_init 7 KOBJ_ENDPOINT 0
    (match kcnode_alloc_at (Some 1%N) 8 kernel0 with Some κ => κ | None => kernel0 end).

Definition boot_hl : N → Z := hold (hold none_held 1 1) 7 1.

Lemma boot_kinv : kinv boot_hl none_held boot.
Proof.
  apply kobject_init_kinv; [|done..].
  exact (kinv_live_count _ _ 1 _
    (kinv_new none_held none_held kernel0 1 KOBJ_CNODE 8 kernel0_kinv eq_refl eq_refl I ltac:(done))).
Qed.

Definition RW : Z := 7.   (* read, write, duplicate *)

(** A capability to [obj] at slot [idx] of [cn], a child of slot [parent] of
    CNode 1 or a root. *)
Definition put cn idx obj (r b : Z) (parent : option N) κ : kstate :=
  run snd (kcnode_slot_install_linked (Some cn) idx (Some obj) r b
    ((λ p, (1%N, p)) <$> parent) None true (bool_decide (parent = None)) κ).

Definition cspace : kstate :=
  put 1 3 7 1 0 (Some 0%N) (put 1 2 7 5 42 (Some 1%N)
    (put 1 1 7 RW 42 (Some 0%N) (put 1 0 7 RW 0 None boot))).

Definition can_retain κ o : bool :=
  match objs κ o with
  | Some k => (1 <=? refcount k) && (refcount k + active_refs k + 2 <? 2 ^ 32)
  | None => false
  end.

Lemma put_kinv hl ha cn idx obj r b parent κ :
  kinv hl ha κ → can_retain κ obj = true → kinv hl ha (put cn idx obj r b parent κ).
Proof.
  unfold can_retain. intros Hκ Hc. destruct (objs κ obj) as [k|] eqn:Hk; [|done].
  apply andb_true_iff in Hc as [H1%Z.leb_le H2%Z.ltb_lt].
  pose proof (install_linked_spec hl ha cn idx obj k r b ((λ p, (1%N, p)) <$> parent) None true
    (bool_decide (parent = None)) κ Hκ Hk H1 H2) as Hs.
  apply returns_Ret in Hs as ([e κ'] & Heq & _ & Hp). unfold put. rewrite Heq. apply Hp.
Qed.

Lemma cspace_kinv : kinv boot_hl none_held cspace.
Proof. do 4 (apply put_kinv; [|vm_compute; reflexivity]). exact boot_kinv. Qed.

Lemma cspace_occupied : Z.of_nat (occupied (mdb cspace)) < 2 ^ 32.
Proof. vm_compute. reflexivity. Qed.

(** Slot 2 descends from slot 0 through slot 1. *)
Lemma cspace_descends : descends (abs (mdb cspace)) (InNode 1 2) (InNode 1 0).
Proof. eapply tc_l; [vm_compute; reflexivity|]. apply tc_once. vm_compute. reflexivity. Qed.

(** Every capability below slot 0 names the endpoint slot 0 names, which is not a
    CNode. *)
Lemma cspace_kept hl ha : kept_below hl ha cspace (InNode 1 0).
Proof.
  intros s o Hd Ho. assert (o = 7%N) as ->.
  { destruct (slot_object_live _ _ _ _ _ cspace_kinv Ho) as (_ & _ & _ & Hin). revert Ho.
    assert (Forall (λ x, match object (mdb cspace) x with Some y => y = 7%N | None => True end)
      (elements (mem (mdb cspace)))) as HF by (vm_compute; repeat constructor).
    rewrite Forall_forall in HF. specialize (HF s). rewrite elem_of_elements in HF. specialize (HF Hin).
    by destruct (object (mdb cspace) s); [intros [= <-]|]. }
  right. exists (InNode 1 0). split; [|split; [vm_compute; reflexivity|discriminate]].
  intros Hc. eapply wf_link_no_cycle; [|exact Hc]. apply (ki_mdb _ _ _ cspace_kinv).
Qed.
(** ** The theorems of the capability layer at a concrete state *)

Lemma kcnode_slot_revoke_complete_witness :
  kinv boot_hl none_held cspace ∧ descends (abs (mdb cspace)) (InNode 1 2) (InNode 1 0) ∧
  returns (kcnode_slot_revoke (Some 1%N) 0 cspace) (λ '(r, κ', n, more),
    r = IRIS_OK ∧ kinv boot_hl none_held κ').
Proof.
  split; [exact cspace_kinv|]. split; [exact cspace_descends|].
  eapply returns_mono; [apply (kcnode_slot_revoke_complete boot_hl none_held 1 0 7 cspace);
    [exact cspace_kinv|vm_compute; reflexivity|exact cspace_occupied]|].
  intros [[[r κ'] n] more] (H1 & _ & H2 & _). split; assumption.
Defined.

Lemma kcnode_slot_revoke_exact_witness :
  returns (kcnode_slot_revoke (Some 1%N) 0 cspace) (λ '(r, κ', n, more),
    caps (abs (mdb κ')) (InNode 1 2) = None).
Proof.
  eapply returns_mono; [apply (kcnode_slot_revoke_exact boot_hl none_held 1 0 7 cspace);
    [exact cspace_kinv|vm_compute; reflexivity|exact cspace_occupied|apply cspace_kept]|].
  intros [[[r κ'] n] more] [H _]. apply (H (InNode 1 2)). exact cspace_descends.
Defined.

Lemma kcnode_slot_delete_safe_witness :
  returns (kcnode_slot_delete (Some 1%N) 1 cspace) (λ '(r, κ'),
    object (mdb κ') (InNode 1 1) = None).
Proof.
  eapply returns_mono; [apply (kcnode_slot_delete_safe boot_hl none_held 1 1 cspace); exact cspace_kinv|].
  intros [r κ'] (_ & _ & H & _). exact H.
Defined.

Lemma kcnode_slot_delete_refines_witness :
  returns (kcnode_slot_delete (Some 1%N) 1 cspace) (λ '(r, κ'),
    up (abs (mdb κ')) (InNode 1 2) = Some (InNode 1 0)).
Proof.
  eapply returns_mono; [apply (kcnode_slot_delete_refines boot_hl none_held 1 1 cspace 7);
    [exact cspace_kinv|vm_compute; reflexivity|intros k Hk; vm_compute in Hk; by simplify_eq]|].
  intros [r κ'] (_ & _ & [_ H]). rewrite H. vm_compute. reflexivity.
Defined.

Lemma kcnode_slot_revoke_bounded_slice_witness :
  returns (kcnode_slot_revoke_bounded (Some 1%N) 0 2 cspace) (λ '(r, κ', n, more),
    n ≤ 2 ∧ r = IRIS_OK).
Proof.
  eapply returns_mono; [apply (kcnode_slot_revoke_bounded_slice boot_hl none_held 1 0 2 cspace);
    [exact cspace_kinv|vm_compute; reflexivity|lia|exact cspace_occupied]|].
  intros [[[r κ'] n] more] (_ & H & _ & _ & _ & Hr). split; [lia|exact Hr].
Defined.

Lemma kcnode_install_exclusive_witness :
  returns (kcnode_slot_install_linked (Some 1%N) 4 (Some 7%N) 1 0 (Some (1%N, 0%N)) None true false cspace)
    (λ '(e, κ'), e = IRIS_OK ∧ up (abs (mdb κ')) (InNode 1 4) = Some (InNode 1 0)).
Proof.
  eapply returns_mono; [eapply (kcnode_install_exclusive boot_hl none_held 1 4 7);
    [exact cspace_kinv|vm_compute; reflexivity|vm_compute; discriminate|vm_compute; reflexivity]|].
  intros [e κ'] (He & _ & Hok & _). assert (e = IRIS_OK) as -> by (rewrite He; vm_compute; reflexivity).
  split; [reflexivity|]. destruct (Hok eq_refl) as [_ Hu]. rewrite Hu. reflexivity.
Defined.

Lemma kcnode_slot_derive_attenuates_witness :
  returns (kcnode_slot_derive (Some 1%N) 1 (Some 1%N) 4 5 0 cspace)
    (λ '(e, κ'), kinv boot_hl none_held κ').
Proof.
  eapply returns_mono; [apply (kcnode_slot_derive_attenuates boot_hl none_held);
    [exact cspace_kinv|]|].
  - intros o k Ho Hk. assert (o = 7%N) as -> by (vm_compute in Ho; congruence).
    vm_compute in Hk. injection Hk as <-. vm_compute. reflexivity.
  - intros [e κ'] [H _]. exact H.
Defined.

Lemma kcnode_slot_move_refines_witness :
  returns (kcnode_slot_move (Some 1%N) 1 (Some 1%N) 5 cspace)
    (λ '(e, κ'), e = IRIS_OK ∧ kinv boot_hl none_held κ').
Proof.
  eapply returns_mono; [apply (kcnode_slot_move_refines boot_hl none_held 1 1 1 5 cspace);
    [exact cspace_kinv|by intros o _]|].
  intros [e κ'] (He & Hk & _). split; [|exact Hk]. rewrite He. vm_compute. reflexivity.
Defined.

Lemma kcnode_slot_rotate_refines_witness :
  returns (kcnode_slot_rotate (Some 1%N) 1 (Some 1%N) 2 (Some 1%N) 1 cspace)
    (λ '(e, κ'), e = IRIS_OK ∧ kinv boot_hl none_held κ').
Proof.
  eapply returns_mono; [apply (kcnode_slot_rotate_refines boot_hl none_held 1 1 1 2 1 1 cspace);
    [exact cspace_kinv|by intros o _|by intros o _]|].
  intros [e κ'] (He & Hk & _). split; [|exact Hk]. rewrite He. vm_compute. reflexivity.
Defined.

Lemma kcnode_swap_refines_witness :
  returns (kcnode_swap (Some 1%N) 1 6 cspace)
    (λ '(e, κ'), e = IRIS_OK ∧ kinv boot_hl none_held κ').
Proof.
  eapply returns_mono; [apply (kcnode_swap_refines boot_hl none_held 1 1 6 cspace); exact cspace_kinv|].
  intros [e κ'] (He & Hk & _). split; [|exact Hk]. rewrite He. vm_compute. reflexivity.
Defined.

Lemma kcnode_alloc_at_spec_witness :
  ∃ κ', kcnode_alloc_at (Some 2%N) 16 cspace = Some κ' ∧
    kinv (hold boot_hl 2 1) none_held κ'.
Proof.
  pose proof (kcnode_alloc_at_spec boot_hl none_held 2 16 cspace cspace_kinv
    ltac:(vm_compute; reflexivity) eq_refl) as H.
  eexists. split; [reflexivity|]. apply H.
Defined.

(** A thread whose root is CNode [o] has an active reference on it. *)
Definition activated o κ : kstate := run id (kobject_active_retain o κ).

Definition room_for_one κ o : bool :=
  match objs κ o with
  | Some k => (refcount k + active_refs k + 1 <? 2 ^ 32) && (0 <=? refcount k)
  | None => false
  end.

Lemma activated_kinv hl ha o κ :
  kinv hl ha κ → room_for_one κ o = true → kinv hl (hold ha o 1) (activated o κ).
Proof.
  intros Hκ. unfold room_for_one. destruct (objs κ o) as [k|] eqn:Hk; [|done].
  intros [H1%Z.ltb_lt H2%Z.leb_le]%andb_true_iff.
  destruct (kobject_active_retain_spec hl ha κ o k Hκ Hk) as [E H]; [done..|].
  unfold activated. rewrite E. exact H.
Qed.

(** ** A capability that leaves the CNode it names

    CNode 2 holds a capability to CNode 1, and CNode 1 one to itself. *)

Definition two_cnodes : kstate :=
  with_live 2 (with_mdb (add_slots 2 4 (mdb boot)) (kobject_init 2 KOBJ_CNODE 4 boot)).

Definition self_cspace : kstate := put 1 0 1 RW 0 None (put 2 0 1 RW 0 None two_cnodes).

Lemma self_cspace_kinv : kinv (hold boot_hl 2 1) none_held self_cspace.
Proof.
  do 2 (apply put_kinv; [|vm_compute; reflexivity]).
  apply kinv_live_count, (kinv_new boot_hl none_held boot 2 KOBJ_CNODE 4);
    [exact boot_kinv|vm_compute; reflexivity|reflexivity|exact I|done].
Qed.

Definition error_of (m : res (iris_error_t * kstate)) : res iris_error_t :=
  '(e, _) ← m; Ret e.

(** moving a capability out of the CNode it names breaks the active count.
    From a state where every count is exact, three operations any holder of
    the two CNodes can request end in a failed assertion: move the self-naming
    capability to CNode 2, delete the other capability (which closes CNode 1
    while it is still named), delete the moved one (whose active reference was
    never taken). *)
Theorem kcnode_move_self_cap_panics :
  kinv (hold boot_hl 2 1) none_held self_cspace ∧
  let moved := kcnode_slot_move (Some 1%N) 0 (Some 2%N) 1 self_cspace in
  let deleted := kcnode_slot_delete (Some 2%N) 0 (run snd moved) in
  error_of moved = Ret IRIS_OK ∧ error_of deleted = Ret IRIS_OK ∧
  kcnode_slot_delete (Some 2%N) 1 (run snd deleted) = Panic.
Proof. split; [exact self_cspace_kinv|]. vm_compute. split_and!; reflexivity. Qed.

(** ** A two-level CSpace

    CNode 2 (four slots) is the root: slot 1 holds the endpoint, slot 2 CNode 1
    (eight slots), whose slot 3 holds the endpoint and slot 4 the root. *)

Definition deep_cspace : kstate :=
  put 2 2 1 RW 0 None (put 2 1 7 RW 0 None (put 1 4 2 RW 0 None (put 1 3 7 1 9 None two_cnodes))).

Lemma two_cnodes_kinv : kinv (hold boot_hl 2 1) none_held two_cnodes.
Proof.
  apply kinv_live_count, (kinv_new boot_hl none_held boot 2 KOBJ_CNODE 4);
    [exact boot_kinv|vm_compute; reflexivity|reflexivity|exact I|done].
Qed.

Lemma deep_cspace_kinv : kinv (hold boot_hl 2 1) none_held deep_cspace.
Proof. do 4 (apply put_kinv; [|vm_compute; reflexivity]). exact two_cnodes_kinv. Qed.

Lemma headroom_small hl ha κ :
  kinv hl ha κ → (∀ o, hl o + ha o ≤ 2 ^ 30) → Z.of_nat (size (mem (mdb κ))) ≤ 2 ^ 30 →
  xfer_headroom κ.
Proof.
  intros Hκ Hh Hm o k Hk. destruct (ki_refs _ _ _ Hκ o k Hk) as (E1 & E2 & _).
  pose proof (ki_hl _ _ _ Hκ o). specialize (Hh o). pose proof (anames_le_names (mdb κ) o).
  assert (names (mdb κ) o ≤ size (mem (mdb κ)))%nat.
  { unfold names. apply subseteq_size. intros s. rewrite elem_of_filter. tauto. }
  assert (0 ≤ queued κ o ≤ 1) by (unfold queued; case_decide; lia).
  change (2 ^ 32) with 4294967296. change (2 ^ 30) with 1073741824 in *. lia.
Qed.

Lemma boot_hl_small o : hold boot_hl 2 1 o + none_held o ≤ 2 ^ 30.
Proof. unfold boot_hl, hold, none_held. repeat case_decide; lia. Qed.

Lemma deep_headroom : walk_headroom deep_cspace.
Proof.
  eapply xfer_walk; [exact deep_cspace_kinv|].
  eapply headroom_small; [exact deep_cspace_kinv|exact boot_hl_small|].
  vm_compute. discriminate.
Qed.

Definition pow2_caps κ : bool :=
  forallb (λ s, match object (mdb κ) s ≫= objs κ with
                | Some k => negb (bool_decide (otype k = KOBJ_CNODE)) ||
                            (negb (slot_count k =? 0)%N && is_pow2 (slot_count k))
                | None => true end)
    (elements (mem (mdb κ))).

Lemma pow2_caps_shape hl ha κ :
  kinv hl ha κ → pow2_caps κ = true → (∀ s, 0 ≤ guard_bits (mdb κ) s < 64) → cspace_shape κ.
Proof.
  intros Hκ Hc Hg. split; [|assumption]. intros x o k Ho Hk Ht.
  destruct (slot_object_live _ _ _ _ _ Hκ Ho) as (_ & _ & _ & Hx).
  unfold pow2_caps in Hc. rewrite forallb_forall in Hc. specialize (Hc x).
  rewrite <-list_elem_of_In, elem_of_elements in Hc. specialize (Hc Hx). rewrite Ho in Hc. simpl in Hc.
  rewrite Hk, bool_decide_true in Hc by done. simpl in Hc.
  apply andb_true_iff in Hc as [H0%negb_true_iff%N.eqb_neq Hp]. by apply is_pow2_spec in Hp.
Qed.

Lemma deep_shape : cspace_shape deep_cspace.
Proof.
  eapply pow2_caps_shape; [exact deep_cspace_kinv|vm_compute; reflexivity|].
  intros s. vm_compute. done.
Qed.

Lemma deep_lookup : cspace_lookup None (Some 2%N) 14 deep_cspace = inr (1%N, 3%N).
Proof. vm_compute. reflexivity. Qed.

Lemma cspace_resolve_cap_correct_witness :
  cspace_lookup None (Some 2%N) 14 deep_cspace = inr (1%N, 3%N) ∧
  returns (cspace_resolve_cap_badged None (Some 2%N) 14 1 deep_cspace) (λ '(r, κ'), r = inr (7%N, 1, 9)).
Proof.
  split; [vm_compute; reflexivity|].
  eapply returns_mono; [eapply (cspace_resolve_cap_correct _ _ None 2);
    [exact deep_cspace_kinv|exact deep_headroom|vm_compute; reflexivity|vm_compute; discriminate
    |vm_compute; discriminate]|].
  intros [r κ'] H. unfold walk_post in H. rewrite deep_lookup in H.
  destruct H as (o & k & Ho & _ & _ & _ & Hr).
  assert (o = 7%N) as -> by (vm_compute in Ho; congruence). exact (proj1 Hr).
Defined.

Lemma cspace_resolve_address_witness :
  path_cptr deep_cspace 2 0 0 [2%N; 3%N] = 14 ∧
  returns (cspace_resolve_cap_badged None (Some 2%N) 14 1 deep_cspace) (λ '(r, κ'),
    ∀ o rg b, r = inr (o, rg, b) → ∃ path cn i,
      (length path ≤ CSPACE_MAX_DEPTH)%nat ∧ path_slot deep_cspace 2 path = Some (cn, i) ∧
      object (mdb deep_cspace) (InNode cn i) = Some o ∧ rights (mdb deep_cspace) (InNode cn i) = rg ∧
      badge (mdb deep_cspace) (InNode cn i) = b ∧ path_cptr deep_cspace 2 0 0 path = 14) ∧
  ('(r, _) ← cspace_resolve_cap_badged None (Some 2%N) 14 1 deep_cspace; Ret r) = Ret (inr (7%N, 1, 9)).
Proof.
  split; [vm_compute; reflexivity|]. split; [|vm_compute; reflexivity].
  eapply (cspace_resolve_address _ _ None 2 _ 2 14);
    [exact deep_cspace_kinv|exact deep_headroom|vm_compute; reflexivity|vm_compute; discriminate|vm_compute; discriminate
    |exact deep_shape|vm_compute; reflexivity|lia|simpl; lia].
Defined.

(** The root's capability to CNode 1 with a one-bit guard of value 1. *)
Definition guarded_cspace : kstate := run snd (kcnode_slot_set_guard (Some 2%N) 2 1 1 deep_cspace).

(** The slot resolver does not look at guards.  With a guard on the way,
    a CPtr whose guard bits are wrong is refused by the capability walk and
    accepted by the slot walk, and the CPtr with the right guard bits the other
    way round: the two walks disagree on which slot a CPtr names. *)
Theorem cspace_resolve_slot_ignores_guard :
  error_of (kcnode_slot_set_guard (Some 2%N) 2 1 1 deep_cspace) = Ret IRIS_OK ∧
  cspace_lookup None (Some 2%N) 14 guarded_cspace = inl IRIS_ERR_NOT_FOUND ∧
  cspace_lookup_slot (Some 2%N) 14 guarded_cspace = inr (1%N, 3%N) ∧
  cspace_lookup None (Some 2%N) 46 guarded_cspace = inr (1%N, 3%N) ∧
  cspace_lookup_slot (Some 2%N) 46 guarded_cspace ≠ inr (1%N, 3%N) ∧
  ('(r, _) ← cspace_resolve_cap None (Some 2%N) 14 RIGHT_NONE guarded_cspace; Ret r) =
    Ret (inl IRIS_ERR_NOT_FOUND) ∧
  ('(r, _) ← cspace_resolve_slot (Some 2%N) 14 guarded_cspace; Ret r) = Ret (inr (1%N, 3%N)).
Proof. vm_compute. split_and!; first [reflexivity|discriminate]. Qed.

(** ** A transfer

    The sender's root is CNode 1, whose slot 5 holds a transferable capability to
    the endpoint; the receiver's root is CNode 2, which declares its empty slot 3. *)

Definition xfer_cspace : kstate := put 1 5 7 15 9 None deep_cspace.

Lemma xfer_cspace_kinv : kinv (hold boot_hl 2 1) none_held xfer_cspace.
Proof. apply put_kinv; [exact deep_cspace_kinv|vm_compute; reflexivity]. Qed.

Lemma xfer_room : xfer_headroom xfer_cspace.
Proof. eapply headroom_small; [exact xfer_cspace_kinv|exact boot_hl_small|]. vm_compute. discriminate. Qed.

Lemma ipc_stage_cap_exact_witness :
  returns (syscall_ipc_stage_cap_peek_badged (Some 1%N) 5 1 xfer_cspace)
    (λ '(r, κ'), r = inr (Staged 7 1 9 1 5)).
Proof.
  eapply returns_mono; [eapply ipc_stage_cap_exact; [exact xfer_cspace_kinv|exact xfer_room|]|].
  - right. exists (InNode 2 2). split; [vm_compute; reflexivity|done].
  - intros [r κ'] [-> _]. vm_compute. reflexivity.
Defined.

Definition sender_hl : N → Z := hold (hold none_held 1 1) 2 1.

Lemma ipc_deliver_cap_safe_witness :
  deliver_dest xfer_cspace (Some 2%N) 3 7 1 (Some 1%N) 5 = Some (2%N, 3%N) ∧
  returns (syscall_ipc_deliver_cap_routed (Some 2%N) 3 (Some 7%N) 1 9 (Some 1%N) 5 xfer_cspace)
    (λ '(v, slot, κ'), v = 3 ∧ mdb_parent (mdb κ') (InNode 2 3) = Some (InNode 1 5)).
Proof.
  assert (deliver_dest xfer_cspace (Some 2%N) 3 7 1 (Some 1%N) 5 = Some (2%N, 3%N)) as Hd
    by (vm_compute; reflexivity).
  split; [exact Hd|].
  eapply returns_mono; [apply (ipc_deliver_cap_safe sender_hl none_held)|].
  - eapply kinv_ext; [..|exact xfer_cspace_kinv]; intros x; [|reflexivity].
    unfold sender_hl, boot_hl, hold. repeat case_decide; lia.
  - intros x. unfold sender_hl, none_held, hold. repeat case_decide; lia.
  - exact xfer_room.
  - right. exists (InNode 1 4). split; [vm_compute; reflexivity|done].
  - intros [[v slot] κ'] (_ & _ & H). rewrite Hd in H. destruct H as [-> H]. split; [reflexivity|].
    destruct H as (scn & [= <-] & _ & _ & [_ Hu]). exact (Hu (InNode 2 3)).
Defined.
