(* ===== verification/Kuntyped.v ===== *)
(** * Untyped memory (kernel/new_core/src/kuntyped.c)

    An Untyped hands out its physical region from both ends: objects and pages
    from the bottom ([used] grows up), kernel object headers from the top
    ([used_top] grows down).  The state is a table of Untypeds and the physical
    memory they describe; arithmetic is on [uint64_t], with its wrap.  An
    Untyped whose last reference goes is recorded in [dying] (its destructor is
    [kuntyped_obj_destroy]). *)

From Stdlib Require Import ZArith Lia.
From stdpp Require Import base numbers gmap list.
From S2P Require Import Prelude Rights.
Local Open Scope Z_scope.

Definition KUNTYPED_ALIGN : Z := 64.
Definition KUNTYPED_RETYPE_MAX_COUNT : Z := 32.
Definition KUNTYPED_RETYPE_MAX_BYTES : Z := 128 * 1024.

Record KUntyped := MkUntyped {
  ut_refcount    : Z;
  phys_base      : Z;
  total_size     : Z;
  used           : Z;
  used_top       : Z;
  child_count    : Z;
  is_device      : bool;
  alloc_parent   : option N;
  generation     : Z;
  hdr_budget     : option N;
  ut_block_bytes : Z;          (* base.ut_block_bytes: 0 is the kernel slab *)
}.

(** Bytes, and the Untyped pointers stored in block headers. *)
Record pmem := PMem { byte : Z → Z; ptr : Z → option N }.

Record ust := UState {
  tbl   : N → option KUntyped;
  addr  : N → Z;             (* where the object of an Untyped is stored *)
  pm    : pmem;
  dying : list N;
  kuntyped_live : Z;
}.
Implicit Types (s : ust) (u : KUntyped) (m : pmem).

Definition with_tbl f s : ust := UState f (addr s) (pm s) (dying s) (kuntyped_live s).
Definition with_pm m s : ust := UState (tbl s) (addr s) m (dying s) (kuntyped_live s).
Definition with_dying l s : ust := UState (tbl s) (addr s) (pm s) l (kuntyped_live s).
Definition with_live n s : ust := UState (tbl s) (addr s) (pm s) (dying s) n.

Definition get_ut (i : N) s : res KUntyped := of_assert (tbl s i).
Definition put_ut (i : N) u s : ust := with_tbl (upd_fn (tbl s) i (Some u)) s.

Definition set_used v u := MkUntyped (ut_refcount u) (phys_base u) (total_size u) v (used_top u)
  (child_count u) (is_device u) (alloc_parent u) (generation u) (hdr_budget u) (ut_block_bytes u).
Definition set_used_top v u := MkUntyped (ut_refcount u) (phys_base u) (total_size u) (used u) v
  (child_count u) (is_device u) (alloc_parent u) (generation u) (hdr_budget u) (ut_block_bytes u).
Definition set_counts r c u := MkUntyped r (phys_base u) (total_size u) (used u) (used_top u)
  c (is_device u) (alloc_parent u) (generation u) (hdr_budget u) (ut_block_bytes u).
Definition set_budget b u := MkUntyped (ut_refcount u) (phys_base u) (total_size u) (used u)
  (used_top u) (child_count u) (is_device u) (alloc_parent u) (generation u) b (ut_block_bytes u).

(** [for (i = 0; i < n; i++) p[i] = 0;] *)
Definition in_range (base n a : Z) : bool := (base <=? a) && (a <? base + n).
Definition zero_fill (base n : Z) m : pmem :=
  PMem (λ a, if in_range base n a then 0 else byte m a)
       (λ a, if in_range base n a then None else ptr m a).
Definition store_parent (block : Z) (i : N) m : pmem := PMem (byte m) (upd_fn (ptr m) block (Some i)).

(** [kobject_retain(&u->base)] and [kobject_release(&u->base)]. *)
Definition ut_retain (i : N) s : res ust :=
  u ← get_ut i s;
  _ ← iris_assert (1 <=? ut_refcount u);
  Ret (put_ut i (set_counts (u32 (ut_refcount u + 1)) (child_count u) u) s).
Definition ut_release (i : N) s : res ust :=
  u ← get_ut i s;
  _ ← iris_assert (1 <=? ut_refcount u);
  let s' := put_ut i (set_counts (u32 (ut_refcount u - 1)) (child_count u) u) s in
  Ret (if ut_refcount u =? 1 then with_dying (dying s ++ [i]) s' else s').

(** [atomic_fetch_add(&u->child_count, n)]. *)
Definition child_add (i : N) (n : Z) s : res ust :=
  u ← get_ut i s; Ret (put_ut i (set_counts (ut_refcount u) (u32 (child_count u + n)) u) s).

(** ** Creation *)

Definition new_untyped (base size : Z) (dev : bool) (gen block : Z) : KUntyped :=
  MkUntyped 1 base size 0 0 0 dev None gen None block.

(** [mem] is the block that becomes Untyped [i]; it arrives zeroed. *)
Definition kuntyped_create_at (i : N) (mem : option Z) (block_bytes base size : Z) (dev : bool) s
    : option ust :=
  match mem with
  | None => None
  | Some a =>
    if size =? 0 then None
    else Some (UState (upd_fn (tbl s) i (Some (new_untyped base size dev 0 block_bytes)))
                 (upd_fn (addr s) i a) (pm s) (dying s) (u32 (kuntyped_live s + 1)))
  end.

(** [slab] is what [kslab_alloc] returns. *)
Definition kuntyped_create (i : N) (slab : option Z) (base size : Z) (dev : bool) s : option ust :=
  if size =? 0 then None
  else match slab with
  | None => None
  | Some a => Some (UState (upd_fn (tbl s) i (Some (new_untyped base size dev 0 0)))
                      (upd_fn (addr s) i a) (pm s) (dying s) (u32 (kuntyped_live s + 1)))
  end.

Definition kuntyped_destroy_ref (i : option N) s : res ust :=
  match i with None => Ret s | Some i => ut_release i s end.

(** ** The bottom carve *)

(** The two ends leave no room for [need] bytes. *)
Definition no_room u (need : Z) : bool :=
  (total_size u <? used u) || (u64 (total_size u - used u) <? used_top u)
  || (u64 (u64 (total_size u - used u) - used_top u) <? need).

Definition FAIL_OFFSET : Z := 2 ^ 64 - 1.

Definition kuntyped_bump u (bytes : Z) : Z * KUntyped :=
  if 2 ^ 64 - 1 - (KUNTYPED_ALIGN - 1) <? bytes then (FAIL_OFFSET, u)
  else
    let aligned := align_up 6 bytes in
    if no_room u aligned then (FAIL_OFFSET, u)
    else (used u, set_used (u64 (used u + aligned)) u).

(** A NULL result is [None]. *)
Definition kuntyped_bump_alloc (i : option N) (bytes : Z) s : res (option Z * ust) :=
  match i with
  | None => Ret (None, s)
  | Some i =>
    if bytes =? 0 then Ret (None, s)
    else
      u ← get_ut i s;
      let '(offset, u') := kuntyped_bump u bytes in
      if offset =? FAIL_OFFSET then Ret (None, s)
      else
        let s := put_ut i u' s in
        let virt := u64 (phys_base u + offset) in
        let s := if is_device u then s else with_pm (zero_fill virt (align_up 6 bytes) (pm s)) s in
        Ret (Some virt, s)
  end.

Definition kuntyped_bump_alloc_phys (i : option N) (bytes : Z) s : res (Z * ust) :=
  match i with
  | None => Ret (0, s)
  | Some i =>
    if bytes =? 0 then Ret (0, s)
    else
      u ← get_ut i s;
      let '(offset, u') := kuntyped_bump u bytes in
      if offset =? FAIL_OFFSET then Ret (0, s)
      else Ret (u64 (phys_base u + offset), put_ut i u' s)
  end.

Definition kuntyped_alloc_child (i : option N) (obj_bytes : Z) s : res (option Z * ust) :=
  match i with
  | None => Ret (None, s)
  | Some i =>
    if obj_bytes =? 0 then Ret (None, s)
    else
      let total := u64 (KUNTYPED_ALIGN + obj_bytes) in
      '(block, s) ← kuntyped_bump_alloc (Some i) total s;
      match block with
      | None => Ret (None, s)
      | Some block =>
          let s := with_pm (store_parent block i (pm s)) s in
          s ← ut_retain i s;
          s ← child_add i 1 s;
          Ret (Some (block + KUNTYPED_ALIGN), s)
      end
  end.

(** ** The top carve *)

Definition kuntyped_alloc_child_top (i : option N) (obj_bytes : Z) s : res (option Z * ust) :=
  match i with
  | None => Ret (None, s)
  | Some i =>
    if obj_bytes =? 0 then Ret (None, s)
    else
      u ← get_ut i s;
      if is_device u then Ret (None, s)
      else if 2 ^ 64 - 1 - (KUNTYPED_ALIGN - 1) <? obj_bytes then Ret (None, s)
      else
        let aligned := align_up 6 obj_bytes in
        let need := u64 (KUNTYPED_ALIGN + aligned) in
        if need <? aligned then Ret (None, s)
        else if no_room u need then Ret (None, s)
        else
          let u' := set_used_top (u64 (used_top u + need)) u in
          let offset := u64 (total_size u' - used_top u') in
          _ ← iris_assert (u64 (used u' + used_top u') <=? total_size u');
          _ ← iris_assert (used u' <=? offset);
          let s := put_ut i u' s in
          let block := u64 (phys_base u + offset) in
          let s := with_pm (store_parent block i (zero_fill block need (pm s))) s in
          s ← ut_retain i s;
          s ← child_add i 1 s;
          Ret (Some (block + KUNTYPED_ALIGN), s)
  end.

(** ** Pages *)

Definition kuntyped_bump_alloc_phys_page (i : option N) (size : Z) s : res (Z * ust) :=
  match i with
  | None => Ret (0, s)
  | Some i =>
    if (size =? 0) || negb (Z.land size 0xFFF =? 0) then Ret (0, s)
    else
      u ← get_ut i s;
      let abs_start := u64 (phys_base u + used u) in
      let aligned_abs := align_up 12 abs_start in
      let aligned_start := u64 (aligned_abs - phys_base u) in
      if (aligned_abs <? abs_start) || (aligned_start <? used u) then Ret (0, s)
      else if total_size u <? aligned_start then Ret (0, s)
      else
        let room := u64 (total_size u - aligned_start) in
        if (room <? used_top u) || (u64 (room - used_top u) <? size) then Ret (0, s)
        else
          let s := put_ut i (set_used (u64 (aligned_start + size)) u) s in
          let s := if is_device u then s else with_pm (zero_fill aligned_abs size (pm s)) s in
          Ret (aligned_abs, s)
  end.

Definition kuntyped_alloc_page_child (i : option N) s : res (Z * ust) :=
  match i with
  | None => Ret (0, s)
  | Some i =>
      '(phys, s) ← kuntyped_bump_alloc_phys_page (Some i) 4096 s;
      if phys =? 0 then Ret (0, s)
      else s ← ut_retain i s; s ← child_add i 1 s; Ret (phys, s)
  end.

Definition kuntyped_alloc_pages_child (i : option N) (bytes : Z) s : res (Z * ust) :=
  match i with
  | None => Ret (0, s)
  | Some i =>
      if (bytes =? 0) || negb (Z.land bytes 0xFFF =? 0) then Ret (0, s)
      else
        '(phys, s) ← kuntyped_bump_alloc_phys_page (Some i) bytes s;
        if phys =? 0 then Ret (0, s)
        else s ← ut_retain i s; s ← child_add i 1 s; Ret (phys, s)
  end.

Definition kuntyped_release_page_child (i : option N) s : res ust :=
  match i with None => Ret s | Some i => s ← child_add i (-1) s; ut_release i s end.

(** ** Children *)

Definition kuntyped_child_parent (obj_ptr : option Z) s : option N :=
  match obj_ptr with None => None | Some p => ptr (pm s) (p - KUNTYPED_ALIGN) end.

Definition kuntyped_release_child (obj_ptr : option Z) (obj_bytes : Z) s : res ust :=
  match obj_ptr with
  | None => Ret s
  | Some p =>
      let block := p - KUNTYPED_ALIGN in
      let parent := ptr (pm s) block in
      let total := u64 (KUNTYPED_ALIGN + align_up 6 obj_bytes) in
      let s := with_pm (zero_fill block total (pm s)) s in
      match parent with
      | None => Ret s
      | Some q => s ← child_add q (-1) s; ut_release q s
      end
  end.

(** [for (i = 0; i < count; i++)]: zero the block, write its parent pointer. *)
Fixpoint fill_blocks (i : N) (n : nat) (start block : Z) m : pmem :=
  match n with
  | O => m
  | S n => fill_blocks i n (u64 (start + block)) block (store_parent start i (zero_fill start block m))
  end.
Fixpoint retain_n (i : N) (n : nat) s : res ust :=
  match n with O => Ret s | S n => s ← ut_retain i s; retain_n i n s end.

(** Result: error code, the object pointers, [*out_start] and [*out_end]. *)
Definition kuntyped_alloc_children_atomic (i : option N) (obj_bytes count : Z) s
    : res (iris_error_t * list Z * (Z * Z) * ust) :=
  match i with
  | None => Ret (IRIS_ERR_INVALID_ARG, [], (0, 0), s)
  | Some i =>
    if (obj_bytes =? 0) || (count =? 0) then Ret (IRIS_ERR_INVALID_ARG, [], (0, 0), s)
    else if KUNTYPED_RETYPE_MAX_COUNT <? count then Ret (IRIS_ERR_INVALID_ARG, [], (0, 0), s)
    else
      u ← get_ut i s;
      if is_device u then Ret (IRIS_ERR_NOT_SUPPORTED, [], (0, 0), s)
      else
        let aligned_obj := align_up 6 obj_bytes in
        let block := u64 (KUNTYPED_ALIGN + aligned_obj) in
        if block <? aligned_obj then Ret (IRIS_ERR_OVERFLOW, [], (0, 0), s)
        else
          let total := u64 (block * count) in
          if negb (total / block =? count) then Ret (IRIS_ERR_OVERFLOW, [], (0, 0), s)
          else if KUNTYPED_RETYPE_MAX_BYTES <? total then Ret (IRIS_ERR_INVALID_ARG, [], (0, 0), s)
          else if no_room u total then Ret (IRIS_ERR_NO_MEMORY, [], (0, 0), s)
          else
            let start := used u in
            let first := u64 (phys_base u + start) in
            let s := put_ut i (set_used (u64 (used u + total)) u) s in
            let s := with_pm (fill_blocks i (Z.to_nat count) first block (pm s)) s in
            s ← child_add i count s;
            s ← retain_n i (Z.to_nat count) s;
            Ret (IRIS_OK, (λ j, u64 (first + Z.of_nat j * block) + KUNTYPED_ALIGN) <$> seq 0 (Z.to_nat count),
                 (start, u64 (start + total)), s)
  end.

Definition kuntyped_unbump_exact (i : option N) (start_used end_used : Z) s : res ust :=
  match i with
  | None => Ret s
  | Some i =>
    if end_used <=? start_used then Ret s
    else u ← get_ut i s; Ret (if used u =? end_used then put_ut i (set_used start_used u) s else s)
  end.

Definition kuntyped_set_hdr_budget (dev ram : option N) s : res (iris_error_t * ust) :=
  match dev, ram with
  | Some d, Some r =>
      ud ← get_ut d s;
      ur ← get_ut r s;
      if negb (is_device ud) then Ret (IRIS_ERR_INVALID_ARG, s)
      else if is_device ur then Ret (IRIS_ERR_INVALID_ARG, s)
      else if (d =? r)%N then Ret (IRIS_ERR_INVALID_ARG, s)
      else match hdr_budget ud with
      | Some _ => Ret (IRIS_ERR_ALREADY_EXISTS, s)
      | None =>
          s ← ut_retain r s;
          ud ← get_ut d s;
          Ret (IRIS_OK, put_ut d (set_budget (Some r) ud) s)
      end
  | _, _ => Ret (IRIS_ERR_INVALID_ARG, s)
  end.

Definition kuntyped_available (i : option N) s : res Z :=
  match i with
  | None => Ret 0
  | Some i => u ← get_ut i s; Ret (u64 (u64 (total_size u - used u) - used_top u))
  end.

(** The destructor: the storage goes back (the slab block, or the child block
    of the parent), then the slab-path parent and the header budget are
    released. *)
Definition kuntyped_obj_destroy (i : N) s : res ust :=
  u ← get_ut i s;
  let s := with_live (u32 (kuntyped_live s - 1)) s in
  let obj := addr s i in
  let s := with_tbl (upd_fn (tbl s) i None) s in
  s ← (if ut_block_bytes u =? 0 then Ret s
       else kuntyped_release_child (Some obj) (ut_block_bytes u) s);
  s ← match alloc_parent u with
      | Some p => s ← child_add p (-1) s; ut_release p s
      | None => Ret s
      end;
  match hdr_budget u with Some h => ut_release h s | None => Ret s end.

(** ** The invariant *)

Record ut_ok u : Prop := UtOk {
  uo_used  : 0 ≤ used u;
  uo_top   : 0 ≤ used_top u;
  uo_ends  : used u + used_top u ≤ total_size u;
  uo_base  : 0 < phys_base u;
  uo_space : phys_base u + total_size u < 2 ^ 64;
}.

Lemma no_room_spec u need :
  ut_ok u → 0 ≤ need → no_room u need = false ↔ used u + used_top u + need ≤ total_size u.
Proof.
  intros [H1 H2 H3 H4 H5] Hn. unfold no_room.
  rewrite (u64_id (total_size u - used u)) by lia.
  rewrite (u64_id (total_size u - used u - used_top u)) by lia.
  rewrite !orb_false_iff, !Z.ltb_ge. lia.
Qed.

Lemma align_up_64 x : 0 ≤ x → x ≤ 2 ^ 64 - 64 →
  x ≤ align_up 6 x < x + 64 ∧ align_up 6 x mod 64 = 0 ∧ align_up 6 x < 2 ^ 64.
Proof. intros. apply (align_up_spec 6); lia. Qed.

(** The same region, with its watermarks moved. *)
Definition same_region u u' : Prop :=
  phys_base u' = phys_base u ∧ total_size u' = total_size u ∧ is_device u' = is_device u.

(** [(a, n)] is taken from the bottom end, or from the top end. *)
Definition took_bottom u u' (a n : Z) : Prop :=
  phys_base u + used u ≤ a ∧ a + n ≤ phys_base u + used u' ∧ used_top u' = used_top u.
Definition took_top u u' (a n : Z) : Prop :=
  phys_base u + total_size u - used_top u' ≤ a ∧
  a + n ≤ phys_base u + total_size u - used_top u ∧ used u' = used u ∧ used_top u ≤ used_top u'.

Lemma kuntyped_bump_spec u bytes :
  ut_ok u → 0 < bytes →
  let '(off, u') := kuntyped_bump u bytes in
  (off = FAIL_OFFSET ∧ u' = u) ∨
  (off = used u ∧ u' = set_used (used u + align_up 6 bytes) u ∧ bytes ≤ align_up 6 bytes ∧
   ut_ok u').
Proof.
  intros Hu Hb. pose proof Hu as [H1 H2 H3 H4 H5]. unfold kuntyped_bump, KUNTYPED_ALIGN.
  destruct (Z.ltb_spec (2 ^ 64 - 1 - (64 - 1)) bytes) as [|Hle]; [by left|].
  destruct (align_up_64 bytes) as [Ha _]; [lia..|].
  destruct (no_room u (align_up 6 bytes)) eqn:Hr; [by left|right].
  apply no_room_spec in Hr; [|assumption|lia]. rewrite u64_id by lia.
  split_and!; [done..|lia|]. constructor; simpl; lia.
Qed.

(** *** Zeroing *)

Definition zeroed (a n : Z) m : Prop := ∀ x, a ≤ x < a + n → byte m x = 0.
Definition kept_outside (a n : Z) m m' : Prop :=
  ∀ x, ¬ (a ≤ x < a + n) → byte m' x = byte m x.

Lemma in_range_spec a n x : in_range a n x = true ↔ a ≤ x < a + n.
Proof. unfold in_range. rewrite andb_true_iff, Z.leb_le, Z.ltb_lt. lia. Qed.

Lemma zero_fill_zeroed a n m : zeroed a n (zero_fill a n m).
Proof. intros x Hx. simpl. by rewrite (proj2 (in_range_spec a n x) Hx). Qed.

Lemma zero_fill_outside a n m : kept_outside a n m (zero_fill a n m).
Proof.
  intros x Hx. simpl. destruct (in_range a n x) eqn:E; [|done].
  apply in_range_spec in E. contradiction.
Qed.

(** *** References and children *)

Lemma put_ut_same i u s : tbl (put_ut i u s) i = Some u.
Proof. simpl. unfold upd_fn. by rewrite decide_True. Qed.

Lemma ut_retain_spec i u s :
  tbl s i = Some u → 1 ≤ ut_refcount u → ut_refcount u + 1 < 2 ^ 32 →
  ut_retain i s = Ret (put_ut i (set_counts (ut_refcount u + 1) (child_count u) u) s).
Proof.
  intros Hu H1 H2. unfold ut_retain, get_ut. rewrite Hu. simpl.
  rewrite (proj2 (Z.leb_le 1 _)) by lia. simpl. by rewrite u32_id by lia.
Qed.

Lemma child_add_spec i u n s :
  tbl s i = Some u → 0 ≤ child_count u + n < 2 ^ 32 →
  child_add i n s = Ret (put_ut i (set_counts (ut_refcount u) (child_count u + n) u) s).
Proof. intros Hu Hn. unfold child_add, get_ut. rewrite Hu. simpl. by rewrite u32_id by lia. Qed.

(** Room for one more child in both counts. *)
Definition child_room u (n : Z) : Prop :=
  1 ≤ ut_refcount u ∧ ut_refcount u + n < 2 ^ 32 ∧ 0 ≤ child_count u ∧ child_count u + n < 2 ^ 32.

(** One child: a parent reference and a child entry. *)
Lemma add_child_spec i u s :
  tbl s i = Some u → child_room u 1 →
  ∃ s', (s ← ut_retain i s; child_add i 1 s) = Ret s' ∧
    tbl s' i = Some (set_counts (ut_refcount u + 1) (child_count u + 1) u) ∧
    pm s' = pm s ∧ dying s' = dying s ∧ (∀ j, j ≠ i → tbl s' j = tbl s j).
Proof.
  intros Hu (H1 & H2 & H3 & H4). rewrite (ut_retain_spec i u s Hu) by lia. cbn [mbind res_bind].
  set (u1 := set_counts _ _ u).
  rewrite (child_add_spec i u1 1) by (first [apply put_ut_same|simpl; lia]).
  eexists. split; [reflexivity|]. split; [apply put_ut_same|]. split; [done|]. split; [done|].
  intros j Hj. simpl. unfold upd_fn. by rewrite !decide_False.
Qed.

(** ** The carves, operation by operation *)

(** What a carve that yields [(a, n)] did: the watermarks of [i] moved over
    exactly that region, its bytes are zero unless it is device memory, and no
    byte outside it changed. *)
Record carved (i : N) (a n : Z) u s u' s' : Prop := Carved {
  cv_tbl   : tbl s' i = Some u';
  cv_ok    : ut_ok u';
  cv_same  : same_region u u';
  cv_pos   : 0 < n;
  cv_took  : took_bottom u u' a n ∨ took_top u u' a n;
  cv_zero  : is_device u = false → zeroed a n (pm s');
  cv_frame : kept_outside a n (pm s) (pm s');
  cv_other : ∀ j, j ≠ i → tbl s' j = tbl s j;
}.

(** Counts are not part of the region. *)
Lemma carved_counts i a n u s u' s' r c s'' :
  carved i a n u s u' s' → tbl s'' i = Some (set_counts r c u') → pm s'' = pm s' →
  (∀ j, j ≠ i → tbl s'' j = tbl s' j) → carved i a n u s (set_counts r c u') s''.
Proof.
  intros [H1 H2 H3 H4 H5 H6 H7 H8] Ht Hp Ho. split; try assumption; rewrite ?Hp; try assumption.
  - destruct H2. constructor; assumption.
  - intros j Hj. rewrite Ho by done. by apply H8.
Qed.

(** A pointer stored in a header does not show in the bytes. *)
Lemma carved_store i a n u s u' s' b k :
  carved i a n u s u' s' → carved i a n u s u' (with_pm (store_parent b k (pm s')) s').
Proof. intros [H1 H2 H3 H4 H5 H6 H7 H8]. split; assumption. Qed.

Lemma page_mask size : 0 ≤ size → Z.land size 0xFFF = size mod 4096.
Proof. intros. change 0xFFF with (Z.ones 12). by rewrite Z.land_ones by lia. Qed.

Lemma phys_page_spec i u size s :
  tbl s i = Some u → ut_ok u → 0 ≤ size < 2 ^ 64 →
  returns (kuntyped_bump_alloc_phys_page (Some i) size s) (λ '(p, s'),
    (p = 0 ∧ s' = s) ∨
    (p mod 4096 = 0 ∧ p ≠ 0 ∧ size mod 4096 = 0 ∧
     carved i p size u s (set_used (p - phys_base u + size) u) s')).
Proof.
  intros Hu Hok Hs. pose proof Hok as [H1 H2 H3 H4 H5].
  unfold kuntyped_bump_alloc_phys_page. rewrite page_mask by lia.
  destruct (Z.eqb_spec size 0) as [|Hne]; [by left|].
  destruct (Z.eqb_spec (size mod 4096) 0) as [Hal|]; [|by left]. cbn [orb negb].
  unfold get_ut. rewrite Hu. cbn [of_assert mbind res_bind]. cbv zeta.
  rewrite (u64_id (phys_base u + used u)) by lia. set (st := phys_base u + used u).
  destruct (Z.ltb_spec (align_up 12 st) st) as [|Hge]; [by left|]. cbn [orb].
  destruct (Z.le_gt_cases (2 ^ 64) (st + (2 ^ 12 - 1))) as [Hbig|Hsmall].
  { rewrite (align_up_wrap 12 st) in Hge by lia. lia. }
  destruct (align_up_spec 12 st) as (Ha & Ham & Hal64); [lia..|].
  set (a := align_up 12 st) in *. rewrite (u64_id (a - phys_base u)) by lia.
  destruct (Z.ltb_spec (a - phys_base u) (used u)) as [|Hge2]; [by left|].
  destruct (Z.ltb_spec (total_size u) (a - phys_base u)) as [|Hin]; [by left|].
  rewrite (u64_id (total_size u - (a - phys_base u))) by lia.
  destruct (Z.ltb_spec (total_size u - (a - phys_base u)) (used_top u)) as [|Hr1]; [by left|].
  rewrite (u64_id (total_size u - (a - phys_base u) - used_top u)) by lia.
  destruct (Z.ltb_spec (total_size u - (a - phys_base u) - used_top u) size) as [|Hr2]; [by left|].
  cbn [orb]. rewrite (u64_id (a - phys_base u + size)) by lia. simpl returns. right.
  split; [exact Ham|]. split; [lia|]. split; [exact Hal|]. split.
  - destruct (is_device u); apply put_ut_same.
  - constructor; simpl; lia.
  - done.
  - lia.
  - left. unfold took_bottom. simpl. split_and!; lia.
  - intros ->. simpl. apply zero_fill_zeroed.
  - destruct (is_device u); [by intros x _|]. apply zero_fill_outside.
  - intros j Hj. destruct (is_device u); simpl; unfold upd_fn; by rewrite decide_False.
Qed.

Lemma bump_alloc_spec i u bytes s :
  tbl s i = Some u → ut_ok u → 0 ≤ bytes < 2 ^ 64 →
  returns (kuntyped_bump_alloc (Some i) bytes s) (λ '(p, s'),
    match p with
    | None => s' = s
    | Some a => 0 < bytes ≤ align_up 6 bytes ∧ a = phys_base u + used u ∧
        carved i a (align_up 6 bytes) u s (set_used (used u + align_up 6 bytes) u) s'
    end).
Proof.
  intros Hu Hok Hb. unfold kuntyped_bump_alloc. destruct (Z.eqb_spec bytes 0) as [|Hne]; [done|].
  unfold get_ut. rewrite Hu. cbn [of_assert mbind res_bind].
  pose proof (kuntyped_bump_spec u bytes Hok ltac:(lia)) as Hsp.
  destruct (kuntyped_bump u bytes) as [off u']. destruct Hsp as [[-> ->]|(-> & -> & Hle & Hok')].
  { by rewrite Z.eqb_refl. }
  pose proof Hok as [H1 H2 H3 H4 H5]. pose proof Hok' as [H1' H2' H3' _ _]. simpl in *.
  rewrite (proj2 (Z.eqb_neq (used u) FAIL_OFFSET)) by (unfold FAIL_OFFSET; lia).
  rewrite (u64_id (phys_base u + used u)) by lia. simpl. split; [lia|]. split; [reflexivity|]. split.
  - destruct (is_device u); apply put_ut_same.
  - assumption.
  - done.
  - lia.
  - left. unfold took_bottom. simpl. split_and!; lia.
  - intros ->. simpl. apply zero_fill_zeroed.
  - destruct (is_device u); [by intros x _|]. apply zero_fill_outside.
  - intros j Hj. destruct (is_device u); simpl; unfold upd_fn; by rewrite decide_False.
Qed.

Lemma add_child_carved i a n u s u' s' :
  carved i a n u s u' s' → child_room u' 1 →
  ∃ s'', (s ← ut_retain i s'; child_add i 1 s) = Ret s'' ∧
    carved i a n u s (set_counts (ut_refcount u' + 1) (child_count u' + 1) u') s'' ∧
    pm s'' = pm s'.
Proof.
  intros Hc Hr. destruct (add_child_spec i u' s' (cv_tbl _ _ _ _ _ _ _ Hc) Hr)
    as (s'' & Heq & Ht & Hp & _ & Ho).
  exists s''. split; [exact Heq|]. split; [|exact Hp]. by eapply carved_counts.
Qed.

(** [ut_retain] then [child_add] then a return. *)
Lemma add_child_then {B} i (f : ust → res B) s :
  (s ← ut_retain i s; s ← child_add i 1 s; f s) = ((s ← ut_retain i s; child_add i 1 s) ≫= f).
Proof. by destruct (ut_retain i s). Qed.

Lemma alloc_child_spec i u bytes s :
  tbl s i = Some u → ut_ok u → child_room u 1 → 0 ≤ bytes < 2 ^ 64 - 64 →
  returns (kuntyped_alloc_child (Some i) bytes s) (λ '(p, s'),
    match p with
    | None => s' = s
    | Some q => ∃ n u', n = align_up 6 (64 + bytes) ∧ 64 + bytes ≤ n ∧ 0 < bytes ∧
        carved i (q - 64) n u s u' s' ∧ kuntyped_child_parent (Some q) s' = Some i ∧
        ut_refcount u' = ut_refcount u + 1 ∧ child_count u' = child_count u + 1
    end).
Proof.
  intros Hu Hok Hr Hb. unfold kuntyped_alloc_child, KUNTYPED_ALIGN.
  destruct (Z.eqb_spec bytes 0) as [|Hne]; [done|].
  rewrite (u64_id (64 + bytes)) by lia. apply returns_bind.
  eapply returns_mono; [apply (bump_alloc_spec i u (64 + bytes) s Hu Hok); lia|].
  intros [[a|] s1]; [|by intros ->]. intros ([_ Hle] & Ha & Hc).
  rewrite add_child_then.
  apply (carved_store _ _ _ _ _ _ _ a i) in Hc.
  destruct (add_child_carved _ _ _ _ _ _ _ Hc Hr) as (s2 & -> & Hc2 & Hp).
  cbn [mbind res_bind returns]. eexists _, _. split; [reflexivity|]. split; [exact Hle|].
  split; [lia|]. replace (a + 64 - 64) with a by lia.
  split; [exact Hc2|]. split; [|done].
  unfold kuntyped_child_parent, KUNTYPED_ALIGN. replace (a + 64 - 64) with a by lia.
  rewrite Hp. simpl. unfold upd_fn. by rewrite decide_True.
Qed.

Lemma alloc_child_top_spec i u bytes s :
  tbl s i = Some u → ut_ok u → child_room u 1 → 0 ≤ bytes < 2 ^ 64 →
  returns (kuntyped_alloc_child_top (Some i) bytes s) (λ '(p, s'),
    match p with
    | None => s' = s
    | Some q => ∃ n u', 64 + bytes ≤ n ∧ 0 < bytes ∧ is_device u = false ∧
        carved i (q - 64) n u s u' s' ∧ kuntyped_child_parent (Some q) s' = Some i ∧
        ut_refcount u' = ut_refcount u + 1 ∧ child_count u' = child_count u + 1
    end).
Proof.
  intros Hu Hok Hr Hb. pose proof Hok as [H1 H2 H3 H4 H5].
  unfold kuntyped_alloc_child_top, KUNTYPED_ALIGN, get_ut. rewrite Hu.
  destruct (Z.eqb_spec bytes 0) as [|Hne]; [done|]. cbn [of_assert mbind res_bind].
  destruct (is_device u) eqn:Hd; [done|].
  destruct (Z.ltb_spec (2 ^ 64 - 1 - (64 - 1)) bytes) as [|Hle]; [done|].
  destruct (align_up_64 bytes) as [Ha [_ Hal]]; [lia..|]. set (al := align_up 6 bytes) in *.
  destruct (Z.ltb_spec (u64 (64 + al)) al) as [|Hnw]; [done|].
  assert (64 + al < 2 ^ 64) as Hfit.
  { destruct (Z.le_gt_cases (2 ^ 64) (64 + al)) as [Hw|]; [exfalso|assumption].
    assert (u64 (64 + al) = 64 + al - 2 ^ 64) as E
      by (unfold wrap; symmetry; apply (Z.mod_unique _ _ 1); lia). lia. }
  rewrite (u64_id (64 + al)) by lia. clear Hnw.
  destruct (no_room u (64 + al)) eqn:Hroom; [done|].
  apply no_room_spec in Hroom; [|assumption|lia]. simpl total_size. simpl used. simpl used_top.
  rewrite (u64_id (used_top u + (64 + al))) by lia.
  rewrite (u64_id (used u + (used_top u + (64 + al)))) by lia.
  rewrite (u64_id (total_size u - (used_top u + (64 + al)))) by lia.
  rewrite !(proj2 (Z.leb_le _ _)) by lia. cbn [iris_assert mbind res_bind].
  set (off := total_size u - (used_top u + (64 + al))).
  rewrite (u64_id (phys_base u + off)) by lia.
  set (u1 := set_used_top _ u). set (blk := phys_base u + off).
  assert (carved i blk (64 + al) u s u1
    (with_pm (zero_fill blk (64 + al) (pm s)) (put_ut i u1 s))) as Hc.
  { split; [apply put_ut_same|constructor; simpl; lia|done|lia| | | |].
    - right. unfold took_top, blk, off. simpl. split_and!; lia.
    - intros _. apply zero_fill_zeroed.
    - apply zero_fill_outside.
    - intros j Hj. simpl. unfold upd_fn. by rewrite decide_False. }
  apply (carved_store _ _ _ _ _ _ _ blk i) in Hc. rewrite add_child_then.
  destruct (add_child_carved _ _ _ _ _ _ _ Hc Hr) as (s2 & Heq & Hc2 & Hp).
  change (with_pm _ (with_pm _ (put_ut i u1 s))) with
    (with_pm (store_parent blk i (zero_fill blk (64 + al) (pm (put_ut i u1 s)))) (put_ut i u1 s)) in Heq.
  rewrite Heq. cbn [mbind res_bind returns].
  eexists _, _. split; [|split; [|split; [reflexivity|]]]; [|lia|].
  2: { replace (blk + 64 - 64) with blk by lia. split; [exact Hc2|]. split; [|done].
       unfold kuntyped_child_parent, KUNTYPED_ALIGN. replace (blk + 64 - 64) with blk by lia.
       rewrite Hp. simpl. unfold upd_fn. by rewrite decide_True. }
  lia.
Qed.

(** *** The batch *)

Lemma fill_blocks_spec i block n : ∀ start m,
  64 ≤ block → 0 ≤ start → start + Z.of_nat n * block < 2 ^ 64 →
  zeroed start (Z.of_nat n * block) (fill_blocks i n start block m) ∧
  kept_outside start (Z.of_nat n * block) m (fill_blocks i n start block m) ∧
  (∀ x, ¬ (start ≤ x < start + Z.of_nat n * block) →
     ptr (fill_blocks i n start block m) x = ptr m x) ∧
  (∀ j, (j < n)%nat → ptr (fill_blocks i n start block m) (start + Z.of_nat j * block) = Some i).
Proof.
  induction n as [|n IH]; intros start m Hb Hs Hfit.
  { split_and!; [|done|done|lia]. intros x Hx. lia. }
  cbn [fill_blocks]. set (m1 := store_parent start i (zero_fill start block m)).
  rewrite (u64_id (start + block)) by nia.
  destruct (IH (start + block) m1) as (Z1 & K1 & P1 & Q1); [lia|lia|nia|].
  assert (kept_outside start block m m1) as K0 by apply zero_fill_outside.
  assert (zeroed start block m1) as Z0 by apply zero_fill_zeroed.
  split_and!.
  - intros x Hx. destruct (Z.lt_ge_cases x (start + block)).
    + rewrite K1 by lia. apply Z0. lia.
    + apply Z1. nia.
  - intros x Hx. rewrite K1 by nia. apply K0. nia.
  - intros x Hx. rewrite P1 by nia. unfold m1. simpl. unfold upd_fn. rewrite decide_False by nia.
    destruct (in_range start block x) eqn:E; [|done]. apply in_range_spec in E. nia.
  - intros j Hj. destruct j as [|j].
    + rewrite P1 by lia. rewrite Z.mul_0_l, Z.add_0_r. unfold m1. simpl. unfold upd_fn.
      by rewrite decide_True.
    + replace (start + Z.of_nat (S j) * block) with (start + block + Z.of_nat j * block) by lia.
      apply Q1. lia.
Qed.

Lemma retain_n_spec i n : ∀ u s,
  tbl s i = Some u → 1 ≤ ut_refcount u → ut_refcount u + Z.of_nat n < 2 ^ 32 →
  ∃ s', retain_n i n s = Ret s' ∧
    tbl s' i = Some (set_counts (ut_refcount u + Z.of_nat n) (child_count u) u) ∧
    pm s' = pm s ∧ (∀ j, j ≠ i → tbl s' j = tbl s j).
Proof.
  induction n as [|n IH]; intros u s Hu H1 H2; cbn [retain_n].
  { exists s. split; [done|]. split; [|done]. rewrite Hu, Z.add_0_r. by destruct u. }
  rewrite (ut_retain_spec i u s Hu) by lia. cbn [mbind res_bind].
  destruct (IH _ (put_ut i (set_counts (ut_refcount u + 1) (child_count u) u) s)
    (put_ut_same i _ s)) as (s' & R & T & P & O); [simpl; lia..|].
  exists s'. split; [done|]. split; [|split; [done|]].
  - rewrite T. simpl. f_equal. unfold set_counts. simpl. f_equal. lia.
  - intros j Hj. rewrite O by done. simpl. unfold upd_fn. by rewrite decide_False.
Qed.

(** [count] blocks of [block] bytes from the bottom, each a header word naming
    the parent followed by the object. *)
Record batch_done (i : N) (obj_bytes count block : Z) u s (ptrs : list Z) (w : Z * Z) s' : Prop :=
BatchDone {
  bd_fits  : 64 + obj_bytes ≤ block;
  bd_ptrs  : ptrs = (λ j, phys_base u + used u + Z.of_nat j * block + 64) <$> seq 0 (Z.to_nat count);
  bd_win   : w = (used u, used u + count * block);
  bd_carve : carved i (phys_base u + used u) (count * block) u s
    (set_counts (ut_refcount u + count) (child_count u + count)
       (set_used (used u + count * block) u)) s';
  bd_par   : ∀ p, p ∈ ptrs → kuntyped_child_parent (Some p) s' = Some i;
}.

(** The overflow checks of the batch: neither sum nor product wrapped. *)
Lemma batch_sum_fits al : 0 < al < 2 ^ 64 → al ≤ u64 (64 + al) → 64 + al < 2 ^ 64.
Proof.
  intros Hal Hnw. destruct (Z.le_gt_cases (2 ^ 64) (64 + al)) as [Hw|]; [exfalso|assumption].
  assert (u64 (64 + al) = 64 + al - 2 ^ 64) as E
    by (unfold wrap; symmetry; apply (Z.mod_unique _ _ 1); lia). lia.
Qed.

Lemma batch_product_fits block count :
  0 < block < 2 ^ 64 → 0 < count → u64 (block * count) / block = count → u64 (block * count) = block * count.
Proof.
  intros Hb Hc Hdiv. apply u64_id. split; [nia|]. destruct (Z.le_gt_cases (2 ^ 64) (block * count)) as [Hw|]; [exfalso|lia].
  assert (u64 (block * count) < 2 ^ 64) as Hlt by (apply (wrap_in_width 64); lia).
  assert (u64 (block * count) / block * block ≤ u64 (block * count))
    by (rewrite Z.mul_comm; apply Z.mul_div_le; lia). nia.
Qed.

Lemma alloc_children_spec i u obj_bytes count s :
  tbl s i = Some u → ut_ok u → child_room u 32 → 0 ≤ obj_bytes < 2 ^ 64 - 64 → 0 ≤ count < 2 ^ 32 →
  returns (kuntyped_alloc_children_atomic (Some i) obj_bytes count s) (λ '(e, ptrs, w, s'),
    if decide (e = IRIS_OK)
    then 0 < count ≤ 32 ∧ 0 < obj_bytes ∧ ∃ block, batch_done i obj_bytes count block u s ptrs w s'
    else ptrs = [] ∧ w = (0, 0) ∧ s' = s).
Proof.
  intros Hu Hok (R1 & R2 & R3 & R4) Hb Hcnt. pose proof Hok as [H1 H2 H3 H4 H5].
  unfold kuntyped_alloc_children_atomic, KUNTYPED_ALIGN, KUNTYPED_RETYPE_MAX_COUNT,
    KUNTYPED_RETYPE_MAX_BYTES.
  destruct (Z.eqb_spec obj_bytes 0) as [|Hob]; [done|].
  destruct (Z.eqb_spec count 0) as [|Hc0]; [done|]. cbn [orb].
  destruct (Z.ltb_spec 32 count) as [|Hc]; [done|].
  unfold get_ut. rewrite Hu. cbn [of_assert mbind res_bind].
  destruct (is_device u) eqn:Hd; [done|].
  destruct (align_up_64 obj_bytes) as [Ha [Ham Hal]]; [lia..|]. set (al := align_up 6 obj_bytes) in *.
  destruct (Z.ltb_spec (u64 (64 + al)) al) as [|Hnw]; [done|].
  pose proof (batch_sum_fits al ltac:(lia) Hnw) as Hfit.
  rewrite (u64_id (64 + al)) by lia. set (block := 64 + al) in *.
  destruct (Z.eqb_spec (u64 (block * count) / block) count) as [Hdiv|]; [|done]. cbn [negb].
  pose proof (batch_product_fits block count ltac:(lia) ltac:(lia) Hdiv) as Htot.
  rewrite Htot. destruct (Z.ltb_spec (128 * 1024) (block * count)) as [|Hmax]; [done|].
  destruct (no_room u (block * count)) eqn:Hroom; [done|].
  apply no_room_spec in Hroom; [|assumption|nia].
  assert (0 < block * count) as Hpos by nia.
  rewrite (u64_id (phys_base u + used u)), (u64_id (used u + block * count)) by lia.
  set (first := phys_base u + used u). set (u1 := set_used (used u + block * count) u).
  set (s1 := with_pm _ (put_ut i u1 s)).
  rewrite (child_add_spec i u1) by (first [apply put_ut_same|simpl; lia]). cbn [mbind res_bind].
  set (u2 := set_counts _ _ u1).
  destruct (retain_n_spec i (Z.to_nat count) u2 (put_ut i u2 s1) (put_ut_same i u2 s1))
    as (s2 & -> & T & P & O); [simpl; lia..|].
  cbn [mbind res_bind returns]. rewrite decide_True by done. split; [lia|]. split; [lia|].
  destruct (fill_blocks_spec i block (Z.to_nat count) first (pm s)) as (FZ & FK & FP & FQ);
    [lia|lia|rewrite Z2Nat.id by lia; lia|]. rewrite Z2Nat.id in FZ, FK, FP by lia.
  assert (pm s2 = fill_blocks i (Z.to_nat count) first block (pm s)) as Hpm by (rewrite P; reflexivity).
  exists block. split.
  - lia.
  - apply list_fmap_ext. intros j x Hx. apply lookup_seq in Hx as [-> Hj].
    rewrite u64_id; [done|]. simpl. nia.
  - f_equal. lia.
  - split.
    + rewrite T. unfold u2, u1, set_counts, set_used. simpl. f_equal. f_equal; lia.
    + constructor; simpl; lia.
    + done.
    + nia.
    + left. unfold took_bottom. simpl. split_and!; lia.
    + intros _. by rewrite Hpm.
    + by rewrite Hpm.
    + intros j Hj. rewrite O by done. simpl. unfold upd_fn. by rewrite !decide_False.
  - intros p Hp. apply list_elem_of_fmap in Hp as (j & -> & Hj%elem_of_seq).
    unfold kuntyped_child_parent, KUNTYPED_ALIGN. rewrite Hpm.
    rewrite u64_id by (simpl; nia).
    replace (first + Z.of_nat j * block + 64 - 64) with (first + Z.of_nat j * block) by lia.
    apply FQ. lia.
Qed.

(** ** Sequences of carves

    Each operation yields the regions the caller may write: the pointer it got
    and the bytes it asked for. *)

Inductive carve_op :=
  | CBump (bytes : Z) | CChild (bytes : Z) | CTop (bytes : Z) | CPages (bytes : Z)
  | CBatch (bytes count : Z).

Definition opt_region (n : Z) (p : option Z) : list (Z * Z) :=
  match p with Some a => [(a, n)] | None => [] end.

Definition carve_step (i : N) (op : carve_op) s : res (list (Z * Z) * ust) :=
  match op with
  | CBump b => '(p, s) ← kuntyped_bump_alloc (Some i) b s; Ret (opt_region b p, s)
  | CChild b => '(p, s) ← kuntyped_alloc_child (Some i) b s; Ret (opt_region b p, s)
  | CTop b => '(p, s) ← kuntyped_alloc_child_top (Some i) b s; Ret (opt_region b p, s)
  | CPages b => '(p, s) ← kuntyped_alloc_pages_child (Some i) b s;
                Ret (if p =? 0 then [] else [(p, b)], s)
  | CBatch b n => '(_, ps, _, s) ← kuntyped_alloc_children_atomic (Some i) b n s;
                  Ret (map (λ p, (p, b)) ps, s)
  end.

Fixpoint carve_run (i : N) (ops : list carve_op) s : res (list (Z * Z) * ust) :=
  match ops with
  | [] => Ret ([], s)
  | op :: ops =>
      '(rs, s) ← carve_step i op s;
      '(rs', s) ← carve_run i ops s;
      Ret (rs ++ rs', s)
  end.

(** Sizes below the wrap of [KUNTYPED_ALIGN + obj_bytes]. *)
Definition op_sane (op : carve_op) : Prop :=
  match op with
  | CBump b | CTop b | CPages b => 0 ≤ b < 2 ^ 64
  | CChild b => 0 ≤ b < 2 ^ 64 - 64
  | CBatch b n => 0 ≤ b < 2 ^ 64 - 64 ∧ 0 ≤ n < 2 ^ 32
  end.

(** The regions of one step lie in what the step took. *)
Definition fresh u u' (r : Z * Z) : Prop :=
  (inside (phys_base u + used u) (phys_base u + used u') r) ∨
  (inside (phys_base u + total_size u - used_top u') (phys_base u + total_size u - used_top u) r).

Record step_done (i : N) u (rs : list (Z * Z)) s' u' : Prop := StepDone {
  sd_tbl   : tbl s' i = Some u';
  sd_ok    : ut_ok u';
  sd_same  : same_region u u';
  sd_grow  : used u ≤ used u' ∧ used_top u ≤ used_top u';
  sd_room  : ∀ n, child_room u (n + 32) → child_room u' n;
  sd_fresh : Forall (fresh u u') rs;
  sd_disj  : all_disjoint rs;
}.

Lemma step_none i u s : tbl s i = Some u → ut_ok u → step_done i u [] s u.
Proof.
  intros Hu Hok. split; try done. intros n (? & ? & ? & ?). split_and!; lia.
Qed.

Lemma took_grow u u' a n :
  0 < n → took_bottom u u' a n ∨ took_top u u' a n → used u ≤ used u' ∧ used_top u ≤ used_top u'.
Proof. unfold took_bottom, took_top. lia. Qed.

(** A list of regions inside a carved one. *)
Lemma step_carved i a n u s u' s' rs k :
  carved i a n u s u' s' → Forall (inside a (a + n)) rs → all_disjoint rs →
  0 ≤ k ≤ 32 → ut_refcount u' = ut_refcount u + k → child_count u' = child_count u + k →
  step_done i u rs s' u'.
Proof.
  intros [H1 H2 H3 H4 H5 H6 H7 H8] Hin Hd Hk Hr Hc. split; try assumption.
  - by eapply took_grow.
  - intros m (? & ? & ? & ?). split_and!; lia.
  - eapply Forall_impl; [exact Hin|]. intros [b l] [Hi1 Hi2]. simpl in *.
    unfold fresh, inside, took_bottom, took_top in *. simpl.
    destruct H5 as [?|?]; [left|right]; lia.
Qed.

Lemma alloc_pages_spec i u bytes s :
  tbl s i = Some u → ut_ok u → child_room u 1 → 0 ≤ bytes < 2 ^ 64 →
  returns (kuntyped_alloc_pages_child (Some i) bytes s) (λ '(p, s'),
    (p = 0 ∧ s' = s) ∨ (p ≠ 0 ∧ p mod 4096 = 0 ∧ ∃ u', carved i p bytes u s u' s' ∧
       ut_refcount u' = ut_refcount u + 1 ∧ child_count u' = child_count u + 1)).
Proof.
  intros Hu Hok Hr Hb. unfold kuntyped_alloc_pages_child.
  destruct ((bytes =? 0) || negb (Z.land bytes 0xFFF =? 0)); [by left|].
  apply returns_bind. eapply returns_mono; [by apply (phys_page_spec i u)|].
  intros [p s1] [[-> ->]|(Hm & Hne & _ & Hc)]; [by left|].
  rewrite (proj2 (Z.eqb_neq p 0)) by done. rewrite add_child_then.
  destruct (add_child_carved _ _ _ _ _ _ _ Hc Hr) as (s2 & -> & Hc2 & _).
  right. split; [done|]. split; [done|]. eexists. split; [exact Hc2|]. done.
Qed.

Lemma batch_regions first block b k n :
  64 + b ≤ block → 0 ≤ b → 0 ≤ first →
  let rs := map (λ p, (p, b)) ((λ j, first + Z.of_nat j * block + 64) <$> seq k n) in
  Forall (inside (first + Z.of_nat k * block) (first + Z.of_nat (k + n) * block)) rs ∧ all_disjoint rs.
Proof.
  intros Hb Hb0 Hf. revert k. induction n as [|n IH]; intros k; [by split|].
  cbn [seq fmap list_fmap map all_disjoint]. destruct (IH (S k)) as [F D]. split; [constructor|split; [|exact D]].
  - unfold inside. simpl. nia.
  - eapply Forall_impl; [exact F|]. intros [p l] [Hp1 Hp2]. unfold inside in *. simpl in *.
    rewrite <-Nat.add_succ_comm. nia.
  - eapply Forall_impl; [exact F|]. intros [p l] [Hp1 Hp2]. left. simpl in *. nia.
Qed.

Lemma carve_step_spec i op u s :
  tbl s i = Some u → ut_ok u → child_room u 32 → op_sane op →
  returns (carve_step i op s) (λ '(rs, s'), ∃ u', step_done i u rs s' u').
Proof.
  intros Hu Hok Hr Hop.
  assert (child_room u 1) as Hr1 by (destruct Hr as (? & ? & ? & ?); split_and!; lia).
  assert (∃ u', step_done i u [] s u') as Hnone by (eexists; by apply step_none).
  destruct op as [b|b|b|b|b n]; cbn [carve_step op_sane] in *; apply returns_bind.
  - eapply returns_mono; [by apply (bump_alloc_spec i u)|]. intros [[a|] s']; [|by intros ->].
    intros (Hb & -> & Hc). eexists. eapply (step_carved _ _ _ _ _ _ _ _ 0 Hc); simpl; try lia.
    + constructor; [|constructor]. unfold inside. simpl. lia.
    + by split.
  - eapply returns_mono; [by apply (alloc_child_spec i u)|]. intros [[a|] s']; [|by intros ->].
    intros (n & u' & Hn & Hle & Hb & Hc & _ & E1 & E2).
    eexists. eapply (step_carved _ _ _ _ _ _ _ _ 1 Hc); simpl; try lia.
    + constructor; [|constructor]. unfold inside. simpl. lia.
    + by split.
  - eapply returns_mono; [by apply (alloc_child_top_spec i u)|]. intros [[a|] s']; [|by intros ->].
    intros (n & u' & Hle & Hb & _ & Hc & _ & E1 & E2).
    eexists. eapply (step_carved _ _ _ _ _ _ _ _ 1 Hc); simpl; try lia.
    + constructor; [|constructor]. unfold inside. simpl. lia.
    + by split.
  - eapply returns_mono; [by apply (alloc_pages_spec i u)|]. intros [p s'] [[-> ->]|(Hne & _ & u' & Hc & E1 & E2)];
      [by rewrite Z.eqb_refl|]. rewrite (proj2 (Z.eqb_neq p 0)) by done.
    eexists. eapply (step_carved _ _ _ _ _ _ _ _ 1 Hc); simpl; try lia.
    + constructor; [|constructor]. unfold inside. simpl. lia.
    + by split.
  - destruct Hop. eapply returns_mono; [by apply (alloc_children_spec i u)|].
    intros [[[e ps] w] s']. destruct (decide (e = IRIS_OK)); [|by intros (-> & _ & ->)].
    intros (Hn & Hb & block & [F1 F2 F3 F4 F5]). subst ps. cbn [returns].
    destruct (batch_regions (phys_base u + used u) block b 0 (Z.to_nat n)) as [G1 G2];
      [lia|lia|destruct Hok; lia|]. cbv zeta in G1, G2.
    eexists. eapply (step_carved _ _ _ _ _ _ _ _ n F4); simpl; try lia; [|exact G2].
    eapply Forall_impl; [exact G1|]. intros [p l]. unfold inside. simpl.
    rewrite Z2Nat.id by lia. lia.
Qed.

Lemma fresh_disjoint u u1 u2 r q :
  ut_ok u1 → ut_ok u2 → same_region u u1 → same_region u1 u2 →
  used u1 ≤ used u2 ∧ used_top u1 ≤ used_top u2 →
  fresh u u1 r → fresh u1 u2 q → disjoint r q.
Proof.
  intros [_ _ E1 _ _] [_ _ E2 _ _] (B1 & T1 & _) (B2 & T2 & _) G Hr Hq.
  unfold fresh, inside, disjoint in *. rewrite ?B1, ?T1, ?B2, ?T2 in *. lia.
Qed.

Lemma fresh_weaken u u1 u2 r :
  same_region u u1 → used u1 ≤ used u2 ∧ used_top u1 ≤ used_top u2 → fresh u u1 r → fresh u u2 r.
Proof. intros _ G Hr. unfold fresh, inside in *. lia. Qed.

Lemma fresh_later u u1 u2 r :
  same_region u u1 → used u ≤ used u1 ∧ used_top u ≤ used_top u1 → fresh u1 u2 r → fresh u u2 r.
Proof. intros (B & T & _) G Hr. unfold fresh, inside in *. rewrite ?B, ?T in Hr. lia. Qed.

Lemma carve_run_spec i ops : ∀ u s,
  tbl s i = Some u → ut_ok u → child_room u (32 * Z.of_nat (length ops)) → Forall op_sane ops →
  returns (carve_run i ops s) (λ '(rs, s'), ∃ u',
    tbl s' i = Some u' ∧ ut_ok u' ∧ same_region u u' ∧
    (used u ≤ used u' ∧ used_top u ≤ used_top u') ∧ Forall (fresh u u') rs ∧ all_disjoint rs).
Proof.
  induction ops as [|op ops IH]; intros u s Hu Hok Hr Hs; cbn [carve_run].
  { exists u. by split_and!. }
  apply Forall_cons in Hs as [Hop Hs]. cbn [length] in Hr.
  assert (child_room u 32) as Hr32 by (destruct Hr as (? & ? & ? & ?); split_and!; lia).
  apply returns_bind. eapply returns_mono; [by apply (carve_step_spec i op u)|].
  intros [rs1 s1] (u1 & [D1 D2 D3 D4 D5 D6 D7]). apply returns_bind.
  eapply returns_mono; [apply (IH u1); [assumption..| |assumption]|].
  { apply D5. destruct Hr as (? & ? & ? & ?). split_and!; lia. }
  intros [rs2 s2] (u2 & T2 & O2 & S2 & G2 & F2 & A2). cbn [returns]. exists u2.
  split; [done|]. split; [done|].
  split; [destruct D3 as (? & ? & ?), S2 as (? & ? & ?); split_and!; congruence|].
  split; [lia|]. split.
  - apply Forall_app. split.
    + eapply Forall_impl; [exact D6|]. intros r. by apply fresh_weaken.
    + eapply Forall_impl; [exact F2|]. intros r. by apply fresh_later.
  - apply all_disjoint_app; [assumption..|]. eapply Forall_impl; [exact D6|]. intros r Hr1.
    eapply Forall_impl; [exact F2|]. intros q Hq. by eapply (fresh_disjoint u u1 u2).
Qed.

(** ** The claims *)

(** C10: no two allocations of an Untyped share a byte.  For any sequence of
    bottom carves, child blocks, top headers, page runs and batches, on any
    sizes below the header's own wrap, the code returns with no assertion
    failed; the memory each caller was given lies inside the region and is
    disjoint from every other's; and the two ends never cross. *)
Theorem kuntyped_carves_disjoint i ops u s :
  tbl s i = Some u → ut_ok u → child_room u (32 * Z.of_nat (length ops)) → Forall op_sane ops →
  returns (carve_run i ops s) (λ '(rs, s'),
    all_disjoint rs ∧ Forall (inside (phys_base u) (phys_base u + total_size u)) rs ∧
    ∃ u', tbl s' i = Some u' ∧ ut_ok u').
Proof.
  intros Hu Hok Hr Hs. eapply returns_mono; [by apply (carve_run_spec i ops u)|].
  intros [rs s'] (u' & T & O & (B & TS & _) & G & F & A). split; [done|]. split; [|by exists u'].
  eapply Forall_impl; [exact F|]. intros r Hf. destruct Hok, O.
  unfold fresh, inside in *. lia.
Qed.

(** a page carve is exact for every request, sizes near 2^64 included: it
    fails with the state unchanged, or returns a page-aligned run of whole pages
    inside the region, moves the watermark to its end and never back, and for
    RAM the run reads as zero while no byte outside it changed. *)
Theorem kuntyped_page_carve i u size s :
  tbl s i = Some u → ut_ok u → 0 ≤ size < 2 ^ 64 →
  returns (kuntyped_bump_alloc_phys_page (Some i) size s) (λ '(p, s'),
    (p = 0 ∧ s' = s) ∨
    (p mod 4096 = 0 ∧ size mod 4096 = 0 ∧ 0 < size ∧
     phys_base u + used u ≤ p ∧ p + size + used_top u ≤ phys_base u + total_size u ∧
     tbl s' i = Some (set_used (p - phys_base u + size) u) ∧
     (is_device u = false → zeroed p size (pm s')) ∧ kept_outside p size (pm s) (pm s'))).
Proof.
  intros Hu Hok Hs. eapply returns_mono; [by apply (phys_page_spec i u)|].
  intros [p s'] [H|(Hm & _ & Hz & [C1 C2 C3 C4 C5 C6 C7 C8])]; [by left|right].
  destruct C2 as [_ _ E _ _]. simpl in E. destruct Hok.
  split_and!; try assumption; [|lia]. unfold took_bottom, took_top in C5. simpl in C5. lia.
Qed.

(** A retype batch is all or nothing.  On an error nothing changed; on
    success [count] zeroed blocks exist, each large enough for its header and
    object, naming the Untyped as its parent, which has [count] more children
    and references. *)
Theorem kuntyped_batch_atomic i u obj_bytes count s :
  tbl s i = Some u → ut_ok u → child_room u 32 → 0 ≤ obj_bytes < 2 ^ 64 - 64 → 0 ≤ count < 2 ^ 32 →
  returns (kuntyped_alloc_children_atomic (Some i) obj_bytes count s) (λ '(e, ptrs, w, s'),
    if decide (e = IRIS_OK)
    then ∃ block, batch_done i obj_bytes count block u s ptrs w s'
    else ptrs = [] ∧ w = (0, 0) ∧ s' = s).
Proof.
  intros Hu Hok Hr Hb Hc. eapply returns_mono; [by apply (alloc_children_spec i u)|].
  intros [[[e ps] w] s']. case_decide; [|done]. by intros (_ & _ & H').
Qed.

(** A RAM Untyped of one megabyte. *)
Definition ut1 : KUntyped := new_untyped 0x100000 0x100000 false 0 0.
Definition us1 : ust :=
  UState (λ i, if (i =? 1)%N then Some ut1 else None) (λ _, 0) (PMem (λ _, 0xAA) (λ _, None)) [] 1.

Lemma ut1_ok : ut_ok ut1.
Proof. constructor; simpl; lia. Qed.

(** The batch does not check the rounding of its size, which its siblings
    do: for the largest request the rounded size wraps to 0 and the batch
    succeeds with blocks of 64 bytes, all of them header. *)
Theorem kuntyped_batch_rounding_wraps :
  ('(e, ptrs, w, _) ← kuntyped_alloc_children_atomic (Some 1%N) (2 ^ 64 - 1) 2 us1;
   Ret (e, ptrs, w)) = Ret (IRIS_OK, [0x100040; 0x100080], (0, 128)) ∧
  ('(p, _) ← kuntyped_alloc_child_top (Some 1%N) (2 ^ 64 - 1) us1; Ret p) = Ret None.
Proof. split; vm_compute; reflexivity. Qed.

Lemma kuntyped_carves_disjoint_witness :
  returns (carve_run 1 [CTop 100; CPages 8192; CChild 300; CBatch 24 4; CBump 10] us1)
    (λ '(rs, s'), all_disjoint rs).
Proof.
  eapply returns_mono; [apply (kuntyped_carves_disjoint 1 _ ut1 us1);
    [reflexivity|exact ut1_ok|vm_compute; split_and!; first [reflexivity|discriminate]|]|].
  - repeat constructor; simpl; lia.
  - intros [rs s'] [H _]. exact H.
Defined.

Lemma kuntyped_page_carve_witness :
  returns (kuntyped_bump_alloc_phys_page (Some 1%N) (2 ^ 64 - 4096) us1) (λ '(p, s'),
    p = 0 ∨ p mod 4096 = 0).
Proof.
  eapply returns_mono; [apply (kuntyped_page_carve 1 ut1);
    [reflexivity|exact ut1_ok|lia]|].
  intros [p s'] [[H _]|[H _]]; [by left|by right].
Defined.

Lemma kuntyped_batch_atomic_witness :
  returns (kuntyped_alloc_children_atomic (Some 1%N) 24 4 us1) (λ '(e, ptrs, w, s'),
    if decide (e = IRIS_OK) then ∃ block, batch_done 1 24 4 block ut1 us1 ptrs w s'
    else ptrs = [] ∧ w = (0, 0) ∧ s' = us1).
Proof.
  apply (kuntyped_batch_atomic 1 ut1 24 4 us1);
    [reflexivity|exact ut1_ok|vm_compute; split_and!; first [reflexivity|discriminate]|lia|lia].
Defined.
