(* ===== verification/PmmList.v ===== *)
(** * The buddy allocator's free lists (kernel/mm/pmm/pmm.c, [fl_*])

    A free list is a circular doubly linked list through a sentinel in
    [fl_heads[]] and a [struct BuddyNode] stored in the first page of every free
    block.  The two pointer fields are functions from nodes to nodes; a node is
    the sentinel of an order or the page that holds it (the pointer
    [PHYS_TO_VIRT(pg * PMM_PAGE_SIZE)]).  [ring] relates the pointers to the list
    they represent, and the lemmas show that the four operations are the list
    operations and leave every other ring alone. *)

From Stdlib Require Import ZArith Lia.
From stdpp Require Import base numbers gmap list.
From S2P Require Import Prelude.

Inductive node := Head (order : Z) | Page (pg : Z).
#[global] Instance node_eq_dec : EqDecision node.
Proof. solve_decision. Defined.

(** [n->next] and [n->prev]. *)
Record links := Links { next : node → node; prev : node → node }.
Implicit Types (k : links) (h n a b : node) (l : list node).

Definition set_next n v k : links := Links (upd_fn (next k) n v) (prev k).
Definition set_prev n v k : links := Links (next k) (upd_fn (prev k) n v).

Definition fl_init h k : links := set_next h h (set_prev h h k).
Definition fl_empty h k : bool := bool_decide (next k h = h).

Definition fl_insert h n k : links :=
  let k := set_next n (next k h) k in
  let k := set_prev n h k in
  let k := set_prev (next k h) n k in
  set_next h n k.

Definition fl_remove n k : links :=
  let k := set_next (prev k n) (next k n) k in
  let k := set_prev (next k n) (prev k n) k in
  set_next n n (set_prev n n k).

Definition fl_pop h k : node * links :=
  let n := next k h in (n, fl_remove n k).

(** ** Representation *)

(** Consecutive nodes of [l] point at each other. *)
Fixpoint linked k l : Prop :=
  match l with
  | a :: ((b :: _) as t) => next k a = b ∧ prev k b = a ∧ linked k t
  | _ => True
  end.

(** [set_solver] without the equations of lists and links, which it cannot use. *)
Ltac list_solver :=
  repeat match goal with
  | H : @eq (list _) _ _ |- _ => clear H
  | H : linked _ _ |- _ => clear H
  | H : prev _ _ = _ |- _ => clear H
  | H : next _ _ = _ |- _ => clear H
  end;
  set_solver.

(** The ring through the sentinel [h] visits exactly [l]. *)
Definition ring k h l : Prop := linked k (h :: l ++ [h]) ∧ NoDup (h :: l).

Lemma linked_app k l1 a l2 :
  linked k (l1 ++ a :: l2) ↔ linked k (l1 ++ [a]) ∧ linked k (a :: l2).
Proof.
  induction l1 as [|x l1 IH]; [simpl; tauto|].
  destruct l1 as [|y l1]; [simpl; tauto|]. simpl in *. tauto.
Qed.

(** Only the [next] of the nodes but the last and the [prev] of the nodes but
    the first matter. *)
Lemma linked_frame k k' l :
  (∀ a, a ∈ removelast l → next k' a = next k a) → (∀ a, a ∈ tail l → prev k' a = prev k a) →
  linked k l → linked k' l.
Proof.
  induction l as [|a [|b l] IH]; [done..|]. intros Hn Hp (H1 & H2 & H3).
  split; [rewrite Hn; [done|left]|]. split; [rewrite Hp; [done|left]|].
  apply IH; [| |exact H3]; intros x Hx; [apply Hn|apply Hp]; by right.
Qed.

Lemma elem_of_removelast {A} (x : A) (l : list A) : x ∈ removelast l → x ∈ l.
Proof.
  induction l as [|y [|z l] IH]; [done|set_solver|].
  change (removelast (y :: z :: l)) with (y :: removelast (z :: l)). set_solver.
Qed.

(** Operations that touch no node of a ring keep it. *)
Lemma ring_frame k k' h l :
  (∀ a, a = h ∨ a ∈ l → next k' a = next k a ∧ prev k' a = prev k a) →
  ring k h l → ring k' h l.
Proof.
  intros Hf [Hl Hd]. split; [|done]. revert Hl.
  apply linked_frame; intros a Ha; apply Hf.
  - apply elem_of_removelast in Ha. set_solver.
  - set_solver.
Qed.

Lemma ring_init k h : ring (fl_init h k) h [].
Proof.
  split; [|apply NoDup_singleton]. simpl. unfold upd_fn. by repeat case_decide.
Qed.

Lemma ring_next k h l : ring k h l → next k h = match l with [] => h | a :: _ => a end.
Proof. intros [Hl _]. destruct l; apply Hl. Qed.

Lemma fl_empty_spec k h l : ring k h l → fl_empty h k = bool_decide (l = []).
Proof.
  intros Hr. pose proof (ring_next _ _ _ Hr) as Hn. destruct Hr as [_ Hd].
  unfold fl_empty. rewrite Hn. destruct l as [|a l].
  - by rewrite !bool_decide_true.
  - rewrite !bool_decide_false; [done..|]. intros ->. apply NoDup_cons in Hd. set_solver.
Qed.

Lemma ring_prev_next k h l : ring k h l → prev k (next k h) = h.
Proof. intros Hr. rewrite (ring_next _ _ _ Hr). destruct Hr as [Hl _]. destruct l; apply Hl. Qed.

Lemma fl_insert_next h n k x :
  n ≠ h →
  next (fl_insert h n k) x =
    if decide (x = h) then n else if decide (x = n) then next k h else next k x.
Proof. intros. unfold fl_insert. simpl. unfold upd_fn. repeat case_decide; congruence. Qed.

Lemma fl_insert_prev h n k x :
  n ≠ h →
  prev (fl_insert h n k) x =
    if decide (x = next k h) then n else if decide (x = n) then h else prev k x.
Proof. intros. unfold fl_insert. simpl. unfold upd_fn. repeat case_decide; congruence. Qed.

Lemma ring_insert k h n l : ring k h l → n ≠ h → n ∉ l → ring (fl_insert h n k) h (n :: l).
Proof.
  intros Hr Hn Hnl. pose proof (ring_next _ _ _ Hr) as Hx. destruct Hr as [Hl Hd].
  apply NoDup_cons in Hd as [Hh Hd].
  split; [|repeat constructor; set_solver].
  assert (linked (fl_insert h n k) (l ++ [h])) as Ht.
  { destruct l as [|a l]; [done|]. destruct Hl as (_ & _ & Hl). revert Hl.
    change (a :: l ++ [h]) with ((a :: l) ++ [h]). apply linked_frame.
    - rewrite removelast_last. intros b Hb. rewrite fl_insert_next by done.
      by rewrite !decide_False by set_solver.
    - cbn [tail app]. intros b Hb. apply NoDup_cons in Hd as [Ha Hd].
      rewrite fl_insert_prev, Hx by done. by rewrite !decide_False by set_solver. }
  assert (∃ a t, l ++ [h] = a :: t ∧ a = next k h) as (a & t & Hat & Ha).
  { destruct l as [|a l]; rewrite Hx; eauto. }
  cbn [app]. rewrite Hat in Ht |- *. cbn [linked].
  split; [|split; [|split; [|split]]]; [..|exact Ht].
  - by rewrite fl_insert_next, decide_True.
  - rewrite fl_insert_prev by done. case_decide as Hc; [|by rewrite decide_True].
    exfalso. rewrite <-Ha in Hc. subst a. destruct l as [|b l]; simpl in Hat; set_solver.
  - rewrite fl_insert_next by done. rewrite decide_False, decide_True by done. done.
  - by rewrite fl_insert_prev, decide_True.
Qed.

Lemma fl_remove_next n k x p s :
  prev k n = p → next k n = s → p ≠ n → s ≠ n →
  next (fl_remove n k) x = if decide (x = n) then n else if decide (x = p) then s else next k x.
Proof.
  intros Hp Hs Hpn Hsn. unfold fl_remove. simpl. rewrite Hp, Hs. unfold upd_fn.
  repeat case_decide; congruence.
Qed.

Lemma fl_remove_prev n k x p s :
  prev k n = p → next k n = s → p ≠ n → s ≠ n →
  prev (fl_remove n k) x = if decide (x = n) then n else if decide (x = s) then p else prev k x.
Proof.
  intros Hp Hs Hpn Hsn. unfold fl_remove. simpl. rewrite Hp, Hs. unfold upd_fn.
  repeat case_decide; congruence.
Qed.

Lemma ring_split k h l1 n l2 :
  ring k h (l1 ++ n :: l2) →
  ∃ A p s B, h :: l1 = A ++ [p] ∧ l2 ++ [h] = s :: B ∧ prev k n = p ∧ next k n = s ∧
    linked k (A ++ [p]) ∧ linked k (s :: B).
Proof.
  intros [Hl _].
  destruct (exists_last (l := h :: l1)) as (A & p & HA); [done|].
  assert (∃ s B, l2 ++ [h] = s :: B) as (s & B & HB) by (destruct l2; eauto).
  exists A, p, s, B. split; [done|]. split; [done|].
  replace (h :: (l1 ++ n :: l2) ++ [h]) with (A ++ p :: n :: s :: B) in Hl.
  2:{ rewrite <-HB. change (A ++ p :: n :: l2 ++ [h]) with (A ++ [p] ++ n :: l2 ++ [h]).
      rewrite app_assoc, <-HA. simpl. by rewrite <-app_assoc. }
  apply linked_app in Hl as [H1 (H2 & H3 & H4 & H5 & H6)]. done.
Qed.

Lemma ring_remove k h n l1 l2 : ring k h (l1 ++ n :: l2) → ring (fl_remove n k) h (l1 ++ l2).
Proof.
  intros Hr. pose proof (ring_split _ _ _ _ _ Hr) as (A & p & s & B & HA & HB & Hp & Hs & H1 & H2).
  destruct Hr as [_ Hd].
  assert (NoDup (h :: l1 ++ l2) ∧ n ∉ h :: l1 ++ l2) as [Hd' Hn].
  { rewrite !NoDup_cons, NoDup_app, NoDup_cons in *. list_solver. }
  split; [|done].
  assert (p ∈ h :: l1) as Hpl by (rewrite HA; set_solver).
  assert (s ∈ l2 ++ [h]) as Hsl by (rewrite HB; set_solver).
  assert (p ≠ n) by list_solver. assert (s ≠ n) by list_solver.
  replace (h :: (l1 ++ l2) ++ [h]) with (A ++ p :: s :: B).
  2:{ rewrite <-HB. change (A ++ p :: l2 ++ [h]) with (A ++ [p] ++ l2 ++ [h]).
      rewrite app_assoc, <-HA. simpl. by rewrite <-app_assoc. }
  rewrite linked_app. split; [|split; [|split]].
  - revert H1. apply linked_frame.
    + rewrite removelast_last. intros a Ha. rewrite (fl_remove_next n k a p s) by done.
      assert (NoDup (A ++ [p])) as HdA.
      { rewrite <-HA. rewrite NoDup_cons, NoDup_app in Hd'. rewrite NoDup_cons. list_solver. }
      apply NoDup_app in HdA as (_ & HdA & _).
      rewrite !decide_False; [done|list_solver|]. intros ->. apply Hn.
      assert (n ∈ h :: l1) by (rewrite HA; set_solver). list_solver.
    + rewrite <-HA. cbn [tail]. intros a Ha. rewrite (fl_remove_prev n k a p s) by done.
      rewrite NoDup_cons, NoDup_app in Hd'. rewrite !decide_False; list_solver.
  - rewrite (fl_remove_next n k p p s) by done. by rewrite decide_False, decide_True.
  - rewrite (fl_remove_prev n k s p s) by done. by rewrite decide_False, decide_True.
  - revert H2. apply linked_frame.
    + rewrite <-HB, removelast_last. intros a Ha. rewrite (fl_remove_next n k a p s) by done.
      rewrite NoDup_cons, NoDup_app in Hd'. rewrite !decide_False; list_solver.
    + cbn [tail]. intros a Ha. rewrite (fl_remove_prev n k a p s) by done.
      assert (NoDup (s :: B)) as HdB.
      { rewrite <-HB. rewrite NoDup_cons, NoDup_app in Hd'. rewrite NoDup_app. 
        split_and!; [tauto|list_solver|apply NoDup_singleton]. }
      apply NoDup_cons in HdB as [HdB _]. assert (a ∈ l2 ++ [h]) by (rewrite HB; set_solver).
      rewrite !decide_False; list_solver.
Qed.

(** Both operations leave the rings alone that share no node with them. *)
Lemma ring_insert_frame k h n l h' l' :
  ring k h l → ring k h' l' → n ≠ h → h' ≠ h → h' ∉ l → h ∉ l' → n ≠ h' → n ∉ l' →
  (∀ a, a ∈ l → a ∉ l') → ring (fl_insert h n k) h' l'.
Proof.
  intros Hr Hr' Hnh ?????. intros Hdis. revert Hr'. apply ring_frame. intros a Ha.
  rewrite fl_insert_next, fl_insert_prev, (ring_next _ _ _ Hr) by done.
  rewrite !decide_False; destruct l; list_solver.
Qed.

Lemma ring_remove_frame k h n l1 l2 h' l' :
  ring k h (l1 ++ n :: l2) → ring k h' l' → h' ≠ h → h' ∉ l1 ++ n :: l2 → h ∉ l' →
  (∀ a, a ∈ l1 ++ n :: l2 → a ∉ l') → ring (fl_remove n k) h' l'.
Proof.
  intros Hr Hr' Hh Hh' Hhl Hdis. pose proof (ring_split _ _ _ _ _ Hr) as (A & p & s & B & HA & HB & Hp & Hs & _ & _).
  destruct Hr as [_ Hd]. 
  assert (p ∈ h :: l1) as Hpl by (rewrite HA; set_solver).
  assert (s ∈ l2 ++ [h]) as Hsl by (rewrite HB; set_solver).
  rewrite !NoDup_cons, NoDup_app, NoDup_cons in Hd.
  assert (p ≠ n) by list_solver. assert (s ≠ n) by list_solver.
  revert Hr'. apply ring_frame. intros a Ha.
  rewrite (fl_remove_next n k a p s), (fl_remove_prev n k a p s) by done.
  rewrite !decide_False; list_solver.
Qed.

Lemma fl_pop_spec k h n l : ring k h (n :: l) →
  fl_pop h k = (n, fl_remove n k) ∧ ring (fl_remove n k) h l.
Proof.
  intros Hr. unfold fl_pop. rewrite (ring_next _ _ _ Hr). split; [done|].
  by apply (ring_remove k h n [] l).
Qed.
