(* ===== verification/Pmm.v ===== *)
(** * Physical memory manager (kernel/mm/pmm/pmm.c)

    The bitmap of 64-bit words, the buddy metadata and the counters are the
    fields of [pmm]; the operations are the file's functions, in its order.  The
    spin lock is not modelled: every public function holds it from its first
    access of the state to its last, so each is one step.  A [struct BuddyNode *]
    is a [node] of [PmmList]; [PHYS_TO_VIRT] and [VIRT_TO_PHYS] are the
    correspondence between a page number and the node stored in that page. *)

From Stdlib Require Import ZArith Lia.
From stdpp Require Import base numbers gmap list.
From S2P Require Import Prelude PmmList.
Local Open Scope Z_scope.

Definition PMM_PAGE_SIZE : Z := 4096.
Definition MAX_ORDER : Z := 20.
Definition PMM_MAX_PAGES : Z := 1048576.
Definition BITMAP_WORDS : Z := 16384.

Record pmm := Pmm {
  bitmap            : Z → Z;
  page_blk_order    : Z → Z;
  fl                : links;
  buddy_active      : bool;
  total_pages_count : Z;
  used_pages_count  : Z;
  last_search_index : Z;
}.
Implicit Types s : pmm.

Definition with_bitmap b s : pmm := Pmm b (page_blk_order s) (fl s) (buddy_active s)
  (total_pages_count s) (used_pages_count s) (last_search_index s).
Definition with_blk o s : pmm := Pmm (bitmap s) o (fl s) (buddy_active s)
  (total_pages_count s) (used_pages_count s) (last_search_index s).
Definition with_fl k s : pmm := Pmm (bitmap s) (page_blk_order s) k (buddy_active s)
  (total_pages_count s) (used_pages_count s) (last_search_index s).
Definition with_active s : pmm := Pmm (bitmap s) (page_blk_order s) (fl s) true
  (total_pages_count s) (used_pages_count s) (last_search_index s).
Definition with_total n s : pmm := Pmm (bitmap s) (page_blk_order s) (fl s) (buddy_active s)
  n (used_pages_count s) (last_search_index s).
Definition with_used n s : pmm := Pmm (bitmap s) (page_blk_order s) (fl s) (buddy_active s)
  (total_pages_count s) n (last_search_index s).
Definition with_last n s : pmm := Pmm (bitmap s) (page_blk_order s) (fl s) (buddy_active s)
  (total_pages_count s) (used_pages_count s) n.

(** ** Bitmap helpers *)

Definition bitmap_set (i : Z) (b : Z → Z) : Z → Z :=
  upd_fn b (i / 64) (Z.lor (b (i / 64)) (Z.shiftl 1 (i mod 64))).
Definition bitmap_clear (i : Z) (b : Z → Z) : Z → Z :=
  upd_fn b (i / 64) (Z.land (b (i / 64)) (u64 (Z.lnot (Z.shiftl 1 (i mod 64))))).
Definition bitmap_test (i : Z) (b : Z → Z) : bool :=
  Z.land (Z.shiftr (b (i / 64)) (i mod 64)) 1 =? 1.

Definition bitmap_set_block (page_idx order : Z) (b : Z → Z) : Z → Z :=
  let count := Z.shiftl 1 order in
  if 6 <=? order
  then for_up (Z.shiftr count 6) (λ w b, upd_fn b (page_idx / 64 + w) (2 ^ 64 - 1)) b
  else for_up count (λ i b, bitmap_set (page_idx + i) b) b.
Definition bitmap_clear_block (page_idx order : Z) (b : Z → Z) : Z → Z :=
  let count := Z.shiftl 1 order in
  if 6 <=? order
  then for_up (Z.shiftr count 6) (λ w b, upd_fn b (page_idx / 64 + w) 0) b
  else for_up count (λ i b, bitmap_clear (page_idx + i) b) b.

(** ** Buddy system *)

(** [fl_insert(&fl_heads[ord], PHYS_TO_VIRT(pg)); page_blk_order[pg] = ord + 1] *)
Definition put_block (pg ord : Z) s : pmm :=
  with_blk (upd_fn (page_blk_order s) pg (u8 (ord + 1)))
    (with_fl (fl_insert (Head ord) (Page pg) (fl s)) s).

(** The [while (order < MAX_ORDER)] loop of [buddy_release]; [n] is
    [MAX_ORDER - order]. *)
Fixpoint release_loop (n : nat) (page_idx order : Z) s : Z * Z * pmm :=
  match n with
  | O => (page_idx, order, s)
  | S n =>
    let buddy_idx := Z.lxor page_idx (Z.shiftl 1 order) in
    if PMM_MAX_PAGES <? buddy_idx + Z.shiftl 1 order then (page_idx, order, s) else
    if negb (page_blk_order s buddy_idx =? u8 (order + 1)) then (page_idx, order, s) else
    let s := with_fl (fl_remove (Page buddy_idx) (fl s)) s in
    let s := with_blk (upd_fn (page_blk_order s) buddy_idx 0) s in
    release_loop n (if buddy_idx <? page_idx then buddy_idx else page_idx) (order + 1) s
  end.

Definition buddy_release (page_idx order : Z) s : pmm :=
  let '(page_idx, order, s) := release_loop (Z.to_nat (MAX_ORDER - order)) page_idx order s in
  put_block page_idx order s.

(** [while (avail <= MAX_ORDER && fl_empty(&fl_heads[avail])) avail++;] *)
Fixpoint find_avail (n : nat) (avail : Z) s : Z :=
  match n with
  | O => avail
  | S n => if fl_empty (Head avail) (fl s) then find_avail n (avail + 1) s else avail
  end.

(** [while (avail > order)]; [n] is [avail - order]. *)
Fixpoint split_loop (n : nat) (pg avail : Z) s : pmm :=
  match n with
  | O => s
  | S n =>
    let avail := avail - 1 in
    split_loop n pg avail (put_block (pg + Z.shiftl 1 avail) avail s)
  end.

(** [VIRT_TO_PHYS(bn) / PMM_PAGE_SIZE]; a sentinel is in no page. *)
Definition node_page (n : node) : res Z :=
  match n with Page pg => Ret pg | Head _ => Panic end.

Definition buddy_claim (order : Z) s : res (Z * pmm) :=
  let avail := find_avail (Z.to_nat (MAX_ORDER + 1 - order)) order s in
  if MAX_ORDER <? avail then Ret (0, s) else
  let '(bn, k) := fl_pop (Head avail) (fl s) in
  let s := with_fl k s in
  pg ← node_page bn;
  let phys := pg * PMM_PAGE_SIZE in
  let s := with_blk (upd_fn (page_blk_order s) pg 0) s in
  let s := split_loop (Z.to_nat (avail - order)) pg avail s in
  let s := with_bitmap (bitmap_set_block pg order (bitmap s)) s in
  let s := with_used (u64 (used_pages_count s + Z.shiftl 1 order)) s in
  Ret (phys, s).

(** ** Initialisation *)

Record mmap_entry := MmapEntry { mm_base : Z; mm_length : Z; mm_type : Z }.
Definition IRIS_MEM_USABLE : Z := 1.

Definition pmm_init_entry (entry : mmap_entry) s : pmm :=
  if negb (mm_type entry =? IRIS_MEM_USABLE) then s else
  if mm_base entry =? 0 then s else
  let pg := mm_base entry / PMM_PAGE_SIZE in
  let count := mm_length entry / PMM_PAGE_SIZE in
  if PMM_MAX_PAGES <=? pg then s else
  let count := if PMM_MAX_PAGES <? u64 (pg + count) then PMM_MAX_PAGES - pg else count in
  let s := with_bitmap (for_up count (λ j b, bitmap_clear (pg + j) b) (bitmap s)) s in
  with_total (u64 (total_pages_count s + count)) s.

(** [ks] and [ke] are the addresses of the linker symbols [__kernel_start] and
    [__kernel_end]. *)
Definition pmm_init (ks ke : Z) (mmap : list mmap_entry) s : pmm :=
  let s := with_bitmap (for_up BITMAP_WORDS (λ i b, upd_fn b i (2 ^ 64 - 1)) (bitmap s)) s in
  let s := with_last 0 (with_used 0 (with_total 0 s)) in
  let s := foldl (λ s entry, pmm_init_entry entry s) s mmap in
  let s := with_bitmap (bitmap_set 0 (bitmap s)) s in
  let pg_s := ks / PMM_PAGE_SIZE in
  let pg_e := u64 (ke + PMM_PAGE_SIZE - 1) / PMM_PAGE_SIZE in
  for_range pg_s (Z.min pg_e PMM_MAX_PAGES) (λ k s,
    if bitmap_test k (bitmap s) then s
    else with_used (u64 (used_pages_count s + 1)) (with_bitmap (bitmap_set k (bitmap s)) s)) s.

(** [while (pg < PMM_MAX_PAGES && !bitmap_test(pg)) pg++;]; [n] is
    [PMM_MAX_PAGES - pg]. *)
Fixpoint run_end (n : nat) (pg : Z) (b : Z → Z) : Z :=
  match n with
  | O => pg
  | S n => if bitmap_test pg b then pg else run_end n (pg + 1) b
  end.

(** The largest order the position and the length of the run allow; [n] is
    [MAX_ORDER - ord]. *)
Fixpoint fit_order (n : nat) (pos remaining ord : Z) : Z :=
  match n with
  | O => ord
  | S n =>
    if (Z.land pos (Z.shiftl 1 (ord + 1) - 1) =? 0) && (Z.shiftl 1 (ord + 1) <=? remaining)
    then fit_order n pos remaining (ord + 1) else ord
  end.

(** [while (remaining > 0)]; every iteration takes at least one page. *)
Fixpoint decompose (fuel : nat) (pos remaining : Z) s : res pmm :=
  match fuel with
  | O => NoFuel
  | S fuel =>
    if negb (0 <? remaining) then Ret s else
    let ord := fit_order (Z.to_nat MAX_ORDER) pos remaining 0 in
    decompose fuel (pos + Z.shiftl 1 ord) (remaining - Z.shiftl 1 ord) (put_block pos ord s)
  end.

Fixpoint setup_loop (fuel : nat) (pg : Z) s : res pmm :=
  match fuel with
  | O => NoFuel
  | S fuel =>
    if negb (pg <? PMM_MAX_PAGES) then Ret s else
    if bitmap_test pg (bitmap s) then setup_loop fuel (pg + 1) s else
    let run_start := pg in
    let pg := run_end (Z.to_nat (PMM_MAX_PAGES - pg)) pg (bitmap s) in
    let remaining := pg - run_start in
    s ← decompose (S (Z.to_nat remaining)) run_start remaining s;
    setup_loop fuel pg s
  end.

Definition pmm_buddy_setup s : res pmm :=
  let s := with_fl (for_up (MAX_ORDER + 1) (λ i k, fl_init (Head i) k) (fl s)) s in
  s ← setup_loop (S (Z.to_nat PMM_MAX_PAGES)) 1 s;
  Ret (with_active s).

(** ** Allocation *)

(** [n] is [max_idx - idx]. *)
Fixpoint below_loop (n : nat) (idx : Z) s : Z * pmm :=
  match n with
  | O => (0, s)
  | S n =>
    if bitmap_test idx (bitmap s) then below_loop n (idx + 1) s else
    (idx * PMM_PAGE_SIZE,
     with_used (u64 (used_pages_count s + 1)) (with_bitmap (bitmap_set idx (bitmap s)) s))
  end.

Definition pmm_alloc_page_below (limit : Z) s : Z * pmm :=
  let max_idx := limit / PMM_PAGE_SIZE in
  let max_idx := if PMM_MAX_PAGES <? max_idx then PMM_MAX_PAGES else max_idx in
  below_loop (Z.to_nat (max_idx - 1)) 1 s.

(** [__builtin_ctz] of a nonzero [n]-bit word. *)
Fixpoint ctz (n : nat) (i x : Z) : Z :=
  match n with
  | O => i
  | S n => if Z.testbit x i then i else ctz n (i + 1) x
  end.

(** One of the two word scans of [pmm_alloc_page]: from word [w], [n] words. *)
Fixpoint scan_words (n : nat) (w : Z) s : Z * pmm :=
  match n with
  | O => (0, s)
  | S n =>
    let free_mask := u64 (Z.lnot (bitmap s w)) in
    let free_mask := if w =? 0 then Z.land free_mask (u64 (Z.lnot 1)) else free_mask in
    if free_mask =? 0 then scan_words n (w + 1) s else
    let bit := ctz 64 0 free_mask in
    let idx := w * 64 + bit in
    if PMM_MAX_PAGES <=? idx then (0, s) else
    let s := with_bitmap (bitmap_set idx (bitmap s)) s in
    let s := with_used (u64 (used_pages_count s + 1)) s in
    (idx * PMM_PAGE_SIZE, with_last (idx + 1) s)
  end.

Definition pmm_alloc_page s : res (Z * pmm) :=
  if buddy_active s then buddy_claim 0 s else
  let from_word := last_search_index s / 64 in
  let '(result, s) := scan_words (Z.to_nat (BITMAP_WORDS - from_word)) from_word s in
  if negb (result =? 0) then Ret (result, s) else
  Ret (scan_words (Z.to_nat from_word) 0 s).

Definition next_pow2 (n : Z) : Z :=
  if n <=? 1 then 1 else
  let n := n - 1 in
  let n := Z.lor n (Z.shiftr n 1) in
  let n := Z.lor n (Z.shiftr n 2) in
  let n := Z.lor n (Z.shiftr n 4) in
  let n := Z.lor n (Z.shiftr n 8) in
  let n := Z.lor n (Z.shiftr n 16) in
  u32 (n + 1).

(** [__builtin_ctz(0)] is undefined: [Panic]. *)
Definition ceil_log2 (n : Z) : res Z :=
  if n <=? 1 then Ret 0 else
  let p := next_pow2 n in
  if p =? 0 then Panic else Ret (ctz 32 0 p).

(** One of the two scans for [want] consecutive free pages; [n] is the number
    of pages left. *)
Fixpoint scan_run (n : nat) (i start count want : Z) (b : Z → Z) : option Z :=
  match n with
  | O => None
  | S n =>
    if negb (bitmap_test i b) then
      let start := if count =? 0 then i else start in
      if count + 1 =? want then Some start
      else scan_run n (i + 1) start (count + 1) want b
    else scan_run n (i + 1) start 0 want b
  end.

Definition pmm_alloc_pages (n : Z) s : res (Z * pmm) :=
  if n =? 0 then Ret (0, s) else
  if buddy_active s then order ← ceil_log2 n; buddy_claim order s else
  let from := if 0 <? last_search_index s then last_search_index s else 1 in
  let found :=
    match scan_run (Z.to_nat (PMM_MAX_PAGES - from)) from 0 0 n (bitmap s) with
    | Some start => Some start
    | None => scan_run (Z.to_nat (from - 1)) 1 0 0 n (bitmap s)
    end in
  match found with
  | None => Ret (0, s)
  | Some start =>
    let s := for_range start (start + n) (λ j s,
      with_used (u64 (used_pages_count s + 1)) (with_bitmap (bitmap_set j (bitmap s)) s)) s in
    Ret (start * PMM_PAGE_SIZE, with_last (start + n) s)
  end.

(** The loop of [pmm_alloc_block], from order [ord = n] down to 0; the second
    result is what is stored in [*order_out], if anything is. *)
Fixpoint block_loop (n : nat) s : res (Z * option Z * pmm) :=
  let ord := Z.of_nat n in
  if negb (fl_empty (Head ord) (fl s))
  then '(result, s) ← buddy_claim ord s; Ret (result, Some ord, s)
  else match n with O => Ret (0, None, s) | S n => block_loop n s end.

Definition pmm_alloc_block s : res (Z * option Z * pmm) :=
  if negb (buddy_active s) then Ret (0, None, s) else block_loop (Z.to_nat MAX_ORDER) s.

(** ** Release *)

Definition pmm_free_page (phys_addr : Z) s : res pmm :=
  if phys_addr =? 0 then Ret s else
  let pg := phys_addr / PMM_PAGE_SIZE in
  if PMM_MAX_PAGES <=? pg then Ret s else
  if negb (bitmap_test pg (bitmap s)) then Panic else
  let s := with_bitmap (bitmap_clear pg (bitmap s)) s in
  let s := if 0 <? used_pages_count s then with_used (used_pages_count s - 1) s else s in
  Ret (if buddy_active s then buddy_release pg 0 s
       else if pg <? last_search_index s then with_last pg s else s).

Definition pmm_free_contig (phys_base n : Z) s : res pmm :=
  if (phys_base =? 0) || (n =? 0) then Ret s else
  let pg := phys_base / PMM_PAGE_SIZE in
  order ← ceil_log2 n;
  let count := Z.shiftl 1 order in
  if PMM_MAX_PAGES <? pg + count then Ret s else
  if buddy_active s then
    let s := with_bitmap (bitmap_clear_block pg order (bitmap s)) s in
    let s := if count <=? used_pages_count s then with_used (used_pages_count s - count) s else s in
    Ret (buddy_release pg order s)
  else
    let s := for_up n (λ i s,
      if bitmap_test (pg + i) (bitmap s) then
        let s := with_bitmap (bitmap_clear (pg + i) (bitmap s)) s in
        if 0 <? used_pages_count s then with_used (used_pages_count s - 1) s else s
      else s) s in
    Ret (if pg <? last_search_index s then with_last pg s else s).

Definition pmm_total_pages s : Z := total_pages_count s.
Definition pmm_used_pages s : Z := used_pages_count s.
Definition pmm_free_pages s : Z := u64 (total_pages_count s - used_pages_count s).
