(* ===== verification/PmmInv.v ===== *)
(** * Correctness of the physical memory manager

    [buddy s F] is the invariant of the buddy system: the free lists are the
    rings of the blocks [page_blk_order] marks, blocks are aligned, inside memory
    and disjoint, and together they cover exactly the pages of [F].  [pmm_wf]
    instantiates [F] with the clear bits of the bitmap.  Claims and releases are
    shown to move exactly one block between the two sides. *)

From Stdlib Require Import ZArith Lia.
From stdpp Require Import base numbers gmap list.
From S2P Require Import Prelude PmmList Pmm.
Local Open Scope Z_scope.
Implicit Types (s : pmm) (b blk : Z → Z) (F G : Z → Prop).

(** ** Bits *)

Lemma bitmap_test_bit i b : bitmap_test i b = Z.testbit (b (i / 64)) (i mod 64).
Proof.
  unfold bitmap_test. rewrite (Z.land_ones _ 1), Z.testbit_odd by lia.
  change (2 ^ 1) with 2. rewrite Zmod_odd. by destruct (Z.odd _).
Qed.

Lemma bit_index i j : i / 64 = j / 64 → i mod 64 = j mod 64 → i = j.
Proof. intros. rewrite (Z.div_mod i 64), (Z.div_mod j 64) by lia. lia. Qed.

Lemma testbit_one k j : 0 ≤ k → Z.testbit (Z.shiftl 1 k) j = bool_decide (j = k).
Proof.
  intros Hk. rewrite Z.shiftl_1_l. case_bool_decide as Hc.
  - subst. by apply Z.pow2_bits_true.
  - apply Z.pow2_bits_false. congruence.
Qed.

Lemma testbit_not64 x j : 0 ≤ j < 64 → Z.testbit (u64 (Z.lnot x)) j = negb (Z.testbit x j).
Proof. intros Hj. unfold wrap. rewrite Z.mod_pow2_bits_low, Z.lnot_spec; [done|lia..]. Qed.

Lemma bitmap_test_set i j b :
  bitmap_test j (bitmap_set i b) = bool_decide (j = i) || bitmap_test j b.
Proof.
  rewrite !bitmap_test_bit. unfold bitmap_set, upd_fn.
  pose proof (Z.mod_pos_bound i 64 eq_refl) as Hi. case_decide as Hw.
  - rewrite Z.lor_spec, testbit_one by lia. rewrite <-Hw.
    rewrite (bool_decide_ext (j = i) (j mod 64 = i mod 64)); [apply orb_comm|].
    split; [by intros ->|]. by apply bit_index.
  - rewrite bool_decide_false; [done|]. by intros ->.
Qed.

Lemma bitmap_test_clear i j b :
  bitmap_test j (bitmap_clear i b) = negb (bool_decide (j = i)) && bitmap_test j b.
Proof.
  rewrite !bitmap_test_bit. unfold bitmap_clear, upd_fn.
  pose proof (Z.mod_pos_bound i 64 eq_refl) as Hi.
  pose proof (Z.mod_pos_bound j 64 eq_refl) as Hj. case_decide as Hw.
  - rewrite Z.land_spec, testbit_not64, testbit_one by lia. rewrite <-Hw.
    rewrite (bool_decide_ext (j = i) (j mod 64 = i mod 64)); [apply andb_comm|].
    split; [by intros ->|]. by apply bit_index.
  - rewrite bool_decide_false; [done|]. by intros ->.
Qed.

(** [j] lies in the [2^order] pages from [pg]. *)
Definition in_block (pg order j : Z) : Prop := pg ≤ j < pg + 2 ^ order.
#[global] Instance in_block_dec pg order j : Decision (in_block pg order j).
Proof. unfold in_block. apply _. Defined.

Lemma for_up_bits n (f : Z → (Z → Z) → (Z → Z)) pg v b j :
  0 ≤ n →
  (∀ i b, 0 ≤ i < n → bitmap_test j (f i b) = if decide (j = pg + i) then v else bitmap_test j b) →
  bitmap_test j (for_up n f b) = if decide (pg ≤ j < pg + n) then v else bitmap_test j b.
Proof.
  intros Hn Hf.
  pose (P (n : Z) b' := bitmap_test j b' = if decide (pg ≤ j < pg + n) then v else bitmap_test j b).
  apply (for_up_ind P); unfold P; [done|by rewrite decide_False by lia|].
  intros i b' Hi IH. rewrite Hf by done. rewrite IH. repeat case_decide; done || lia.
Qed.

(** A word-wide store over an aligned block. *)
Lemma for_up_words n v b pg j :
  0 ≤ n → pg mod 64 = 0 → (v = 0 ∨ v = 2 ^ 64 - 1) →
  bitmap_test j (for_up n (λ w b, upd_fn b (pg / 64 + w) v) b) =
    if decide (pg ≤ j < pg + 64 * n) then negb (v =? 0) else bitmap_test j b.
Proof.
  intros Hn Ha Hv.
  pose (P (n : Z) b' := bitmap_test j b' =
    if decide (pg ≤ j < pg + 64 * n) then negb (v =? 0) else bitmap_test j b).
  apply (for_up_ind P); unfold P; [done|by rewrite decide_False by lia|].
  intros i b' Hi IH. rewrite bitmap_test_bit. unfold upd_fn.
  pose proof (Z.mod_pos_bound j 64 eq_refl) as Hj.
  pose proof (Z.div_mod j 64 ltac:(lia)). pose proof (Z.div_mod pg 64 ltac:(lia)).
  destruct (decide (j / 64 = pg / 64 + i)) as [Hc|Hc].
  - rewrite decide_True by lia. destruct Hv as [->| ->]; [by rewrite Z.bits_0|].
    change (2 ^ 64 - 1) with (Z.ones 64). rewrite Z.ones_spec_low by lia. done.
  - rewrite bitmap_test_bit in IH. rewrite IH.
    repeat case_decide; try done; exfalso; apply Hc; lia.
Qed.

Lemma aligned_mod64 pg order : 6 ≤ order → (2 ^ order | pg) → pg mod 64 = 0.
Proof.
  intros Ho Hd. apply Z.mod_divide; [lia|]. etrans; [|exact Hd].
  exists (2 ^ (order - 6)). rewrite <-(Z.pow_add_r 2 _ 6) by lia. f_equal. lia.
Qed.

Lemma block_words order : 6 ≤ order → 64 * Z.shiftr (Z.shiftl 1 order) 6 = 2 ^ order.
Proof.
  intros Ho. rewrite Z.shiftl_1_l, Z.shiftr_div_pow2 by lia.
  replace (2 ^ order) with (2 ^ (order - 6) * 2 ^ 6) by (rewrite <-Z.pow_add_r by lia; f_equal; lia).
  rewrite Z.div_mul by lia. lia.
Qed.

(** The two block routines are the page-by-page ones, whichever loop they take. *)
Lemma bitmap_set_block_test pg order b j :
  0 ≤ order → (2 ^ order | pg) →
  bitmap_test j (bitmap_set_block pg order b) =
    if decide (in_block pg order j) then true else bitmap_test j b.
Proof.
  intros Ho Ha. unfold bitmap_set_block, in_block. case_match eqn:Hc.
  - apply Z.leb_le in Hc. rewrite for_up_words;
      [by rewrite block_words|rewrite Z.shiftl_1_l, Z.shiftr_div_pow2 by lia; apply Z.div_pos; lia
      |by eapply aligned_mod64|by right].
  - rewrite Z.shiftl_1_l. apply (for_up_bits _ _ pg true); [lia|]. intros i b' Hi.
    rewrite bitmap_test_set. by case_decide; case_bool_decide.
Qed.

Lemma bitmap_clear_block_test pg order b j :
  0 ≤ order → (2 ^ order | pg) →
  bitmap_test j (bitmap_clear_block pg order b) =
    if decide (in_block pg order j) then false else bitmap_test j b.
Proof.
  intros Ho Ha. unfold bitmap_clear_block, in_block. case_match eqn:Hc.
  - apply Z.leb_le in Hc. rewrite for_up_words;
      [by rewrite block_words|rewrite Z.shiftl_1_l, Z.shiftr_div_pow2 by lia; apply Z.div_pos; lia
      |by eapply aligned_mod64|by left].
  - rewrite Z.shiftl_1_l. apply (for_up_bits _ _ pg false); [lia|]. intros i b' Hi.
    rewrite bitmap_test_clear. by case_decide; case_bool_decide.
Qed.

(** ** The buddy of a block *)

Lemma lxor_one q : Z.lxor q 1 = if Z.even q then q + 1 else q - 1.
Proof.
  assert (∀ m, Z.even m = true → Z.lxor m 1 = m + 1) as He.
  { intros m Hm. symmetry. apply Z.add_nocarry_lxor.
    change 1 with (Z.ones 1). rewrite Z.land_ones by lia. change (2 ^ 1) with 2.
    by rewrite Zmod_even, Hm. }
  destruct (Z.even q) eqn:Hq; [by apply He|].
  assert (q = Z.lxor (q - 1) 1) as Hx.
  { rewrite He; [lia|]. by rewrite Z.even_sub, Hq. }
  rewrite Hx at 1. rewrite Z.lxor_assoc, Z.lxor_nilpotent, Z.lxor_0_r. done.
Qed.

(** Two buddies of order [o] are the halves of an aligned block of order [o + 1]. *)
Lemma buddy_halves o p (q := Z.lxor p (Z.shiftl 1 o)) :
  0 ≤ o → (2 ^ o | p) → 0 ≤ p →
  (2 ^ o | q) ∧ (2 ^ (o + 1) | Z.min p q) ∧ Z.max p q = Z.min p q + 2 ^ o ∧ 0 ≤ q.
Proof.
  intros Ho [a Ha] Hp. unfold q. rewrite Ha, <-Z.shiftl_mul_pow2 by lia.
  rewrite <-Z.shiftl_lxor, lxor_one, !Z.shiftl_mul_pow2 by lia.
  rewrite Z.pow_add_r by lia. change (2 ^ 1) with 2. assert (0 < 2 ^ o) by lia.
  assert (0 ≤ a) by nia. destruct (Z.even a) eqn:He.
  - apply Z.even_spec in He as [c ->].
    rewrite Z.min_l, Z.max_r by nia. repeat split; [by exists (2 * c + 1)|by exists c; lia|lia|nia].
  - assert (Z.odd a = true) as Hodd by (by rewrite <-Z.negb_even, He).
    apply Z.odd_spec in Hodd as [c ->].
    rewrite Z.min_r, Z.max_l by nia.
    repeat split; [by exists (2 * c + 1 - 1)|by exists c; lia|lia|nia].
Qed.

(** ** The invariant of the buddy system *)

(** The free lists hold exactly the blocks [page_blk_order] marks. *)
Definition lists_ok (k : links) blk : Prop :=
  ∀ o, 0 ≤ o ≤ MAX_ORDER → ∃ l, ring k (Head o) (Page <$> l) ∧ ∀ p, p ∈ l ↔ blk p = o + 1.

Definition block_ok (p o : Z) : Prop :=
  0 ≤ o ≤ MAX_ORDER ∧ 0 < p ∧ (2 ^ o | p) ∧ p + 2 ^ o ≤ PMM_MAX_PAGES.

(** [p] starts a free block that contains page [i]. *)
Definition covers blk (p i : Z) : Prop := blk p ≠ 0 ∧ in_block p (blk p - 1) i.

Record buddy s F : Prop := Buddy {
  bd_lists    : lists_ok (fl s) (page_blk_order s);
  bd_block    : ∀ p, page_blk_order s p ≠ 0 → block_ok p (page_blk_order s p - 1);
  bd_disjoint : ∀ p q i, covers (page_blk_order s) p i → covers (page_blk_order s) q i → p = q;
  bd_cover    : ∀ i, F i ↔ ∃ p, covers (page_blk_order s) p i;
}.

Lemma buddy_ext s F G : (∀ i, F i ↔ G i) → buddy s F → buddy s G.
Proof. intros HFG [H1 H2 H3 H4]. split; [done..|]. intros i. by rewrite <-HFG. Qed.

Lemma buddy_start s F p : buddy s F → page_blk_order s p ≠ 0 → F p.
Proof.
  intros Hb Hp. apply (bd_cover _ _ Hb). exists p. split; [done|].
  destruct (bd_block _ _ Hb p Hp) as ((? & _) & _). unfold in_block.
  assert (0 < 2 ^ (page_blk_order s p - 1)) by lia. lia.
Qed.

Lemma u8_order o : 0 ≤ o ≤ MAX_ORDER → u8 (o + 1) = o + 1.
Proof. unfold MAX_ORDER. intros. apply (wrap_id 8). unfold in_width. lia. Qed.

Lemma page_elem p (l : list Z) : Page p ∈ Page <$> l ↔ p ∈ l.
Proof. rewrite list_elem_of_fmap. naive_solver. Qed.

Lemma head_elem o (l : list Z) : Head o ∉ Page <$> l.
Proof. rewrite list_elem_of_fmap. naive_solver. Qed.

Lemma lists_put k blk p o :
  0 ≤ o ≤ MAX_ORDER → blk p = 0 → lists_ok k blk →
  lists_ok (fl_insert (Head o) (Page p) k) (upd_fn blk p (o + 1)).
Proof.
  intros Ho Hp Hl o' Ho'. destruct (Hl o Ho) as (l & Hr & Hm).
  assert (p ∉ l) by (rewrite Hm; lia).
  destruct (decide (o' = o)) as [->|Hne].
  - exists (p :: l). split.
    + apply ring_insert; [done..|by rewrite page_elem].
    + intros q. rewrite elem_of_cons, Hm. unfold upd_fn. case_decide; naive_solver.
  - destruct (Hl o' Ho') as (l' & Hr' & Hm'). exists l'. split.
    + apply (ring_insert_frame _ _ _ (Page <$> l)); try done.
      * congruence.
      * apply head_elem.
      * apply head_elem.
      * rewrite page_elem, Hm'. lia.
      * intros a. rewrite !list_elem_of_fmap. intros (q & -> & Hq) (q' & Heq & Hq').
        apply Hm in Hq. apply Hm' in Hq'. assert (q = q') as <- by congruence. lia.
    + intros q. rewrite Hm'. unfold upd_fn. case_decide as Hq; [rewrite Hq, Hp; lia|done].
Qed.

Lemma lists_take k blk p o :
  0 ≤ o ≤ MAX_ORDER → blk p = o + 1 → lists_ok k blk →
  lists_ok (fl_remove (Page p) k) (upd_fn blk p 0).
Proof.
  intros Ho Hp Hl o' Ho'. destruct (Hl o Ho) as (l & Hr & Hm).
  assert (p ∈ l) as Hin by (by rewrite Hm).
  apply list_elem_of_split in Hin as (l1 & l2 & ->). rewrite fmap_app, fmap_cons in Hr.
  destruct (decide (o' = o)) as [->|Hne].
  - exists (l1 ++ l2). rewrite fmap_app. split; [by apply ring_remove|].
    intros q. unfold upd_fn. destruct Hr as [_ Hd].
    apply NoDup_cons in Hd as [_ Hd].
    apply NoDup_app in Hd as (Hd1 & Hd2 & Hd3). apply NoDup_cons in Hd3 as [Hd3 _].
    specialize (Hm q). rewrite elem_of_app, elem_of_cons in Hm. rewrite elem_of_app.
    case_decide as Hq; [|naive_solver]. subst q. split; [|lia].
    intros [Hq|Hq]; exfalso.
    + apply (Hd2 (Page p)); [by apply page_elem|left].
    + apply Hd3. by apply page_elem.
  - destruct (Hl o' Ho') as (l' & Hr' & Hm'). exists l'. split.
    + apply (ring_remove_frame k (Head o) _ (Page <$> l1) (Page <$> l2)); try done; rewrite <-?fmap_cons, <-?fmap_app.
      * congruence.
      * apply head_elem.
      * apply head_elem.
      * intros a. rewrite !list_elem_of_fmap. intros (q & -> & Hq) (q' & Heq & Hq').
        apply Hm in Hq. apply Hm' in Hq'. assert (q = q') as <- by congruence. lia.
    + intros q. rewrite Hm'. unfold upd_fn. case_decide as Hq; [rewrite Hq, Hp; lia|done].
Qed.

(** A block of pages that are not free enters the buddy system. *)
Lemma buddy_put s F p o :
  buddy s F → block_ok p o → (∀ i, in_block p o i → ¬ F i) →
  buddy (put_block p o s) (λ i, F i ∨ in_block p o i).
Proof.
  intros Hb Hok Hfree. pose proof Hok as (Ho & Hp & Hal & Hend).
  assert (page_blk_order s p = 0) as Hz.
  { destruct (decide (page_blk_order s p = 0)) as [|Hn]; [done|]. exfalso.
    apply (Hfree p); [unfold in_block; lia|]. by eapply buddy_start. }
  assert (∀ q i, covers (upd_fn (page_blk_order s) p (o + 1)) q i ↔
    (q = p ∧ in_block p o i) ∨ covers (page_blk_order s) q i) as Hcov.
  { intros q i. unfold covers, upd_fn. case_decide as Hq; [subst q|naive_solver].
    replace (o + 1 - 1) with o by lia. rewrite Hz. naive_solver lia. }
  unfold put_block. rewrite u8_order by done. split; simpl.
  - apply lists_put; [done..|apply Hb].
  - intros q. unfold upd_fn. case_decide as Hq; [subst q|apply Hb].
    intros _. by replace (o + 1 - 1) with o by lia.
  - intros q q' i [[-> Hi]|Hq]%Hcov [[-> Hi']|Hq']%Hcov; [done|exfalso..|by eapply (bd_disjoint _ _ Hb)].
    + eapply Hfree; [exact Hi|]. apply (bd_cover _ _ Hb). eauto.
    + eapply Hfree; [exact Hi'|]. apply (bd_cover _ _ Hb). eauto.
  - intros i. setoid_rewrite Hcov. rewrite (bd_cover _ _ Hb). naive_solver.
Qed.

(** A free block leaves it. *)
Definition take_block p s : pmm :=
  with_blk (upd_fn (page_blk_order s) p 0) (with_fl (fl_remove (Page p) (fl s)) s).

Lemma buddy_take s F p o :
  buddy s F → 0 ≤ o → page_blk_order s p = o + 1 →
  buddy (take_block p s) (λ i, F i ∧ ¬ in_block p o i) ∧ block_ok p o ∧ (∀ i, in_block p o i → F i).
Proof.
  intros Hb Ho0 Hp.
  assert (block_ok p o) as Hok.
  { pose proof (bd_block _ _ Hb p) as Hok. rewrite Hp in Hok.
    replace (o + 1 - 1) with o in Hok by lia. apply Hok. lia. }
  pose proof Hok as (Ho & _).
  assert (∀ i, covers (page_blk_order s) p i ↔ in_block p o i) as Hcp.
  { intros i. unfold covers. rewrite Hp. replace (o + 1 - 1) with o by lia. naive_solver lia. }
  assert (∀ q i, covers (upd_fn (page_blk_order s) p 0) q i ↔
    q ≠ p ∧ covers (page_blk_order s) q i) as Hcov.
  { intros q i. unfold covers, upd_fn. case_decide; naive_solver. }
  split; [split; simpl|split; [done|]].
  - eapply lists_take; [done..|apply Hb].
  - intros q. unfold upd_fn. case_decide; [done|apply Hb].
  - intros q q' i [_ Hq]%Hcov [_ Hq']%Hcov. by eapply (bd_disjoint _ _ Hb).
  - intros i. setoid_rewrite Hcov. rewrite (bd_cover _ _ Hb). split.
    + intros [(q & Hq) Hni]. exists q. split; [|done]. intros ->. by apply Hni, Hcp.
    + intros (q & Hne & Hq). split; [by exists q|]. intros Hi%Hcp. apply Hne.
      by eapply (bd_disjoint _ _ Hb).
  - intros i Hi. apply (bd_cover _ _ Hb). exists p. by apply Hcp.
Qed.

(** ** Coalescing and splitting *)

(** Only the free lists and the block orders differ. *)
Definition same_rest s s' : Prop :=
  bitmap s' = bitmap s ∧ buddy_active s' = buddy_active s ∧
  total_pages_count s' = total_pages_count s ∧ used_pages_count s' = used_pages_count s ∧
  last_search_index s' = last_search_index s.

Lemma same_rest_refl s : same_rest s s.
Proof. done. Qed.
Lemma same_rest_trans s1 s2 s3 : same_rest s1 s2 → same_rest s2 s3 → same_rest s1 s3.
Proof. unfold same_rest. intros (-> & -> & -> & -> & ->). done. Qed.

Create HintDb pmm.
#[export] Hint Resolve same_rest_refl same_rest_trans : pmm.

(** The outcome of the coalescing loop: the block it ends with together with
    the blocks left free covers what the start block and the free blocks did. *)
Definition coalesced s F p o s' p' o' : Prop :=
  same_rest s s' ∧ ∃ F', buddy s' F' ∧ block_ok p' o' ∧ (∀ i, in_block p' o' i → ¬ F' i) ∧
    (∀ i, F' i ∨ in_block p' o' i ↔ F i ∨ in_block p o i).

Lemma in_block_join p o i (q := Z.lxor p (Z.shiftl 1 o)) :
  0 ≤ o → (2 ^ o | p) → 0 ≤ p →
  in_block (Z.min p q) (o + 1) i ↔ in_block p o i ∨ in_block q o i.
Proof.
  intros Ho Hal Hp. destruct (buddy_halves o p Ho Hal Hp) as (_ & _ & Hmax & _).
  fold q in Hmax. unfold in_block. rewrite Z.pow_add_r by lia. change (2 ^ 1) with 2.
  assert (0 < 2 ^ o) by lia. lia.
Qed.

Lemma in_block_buddy p o i (q := Z.lxor p (Z.shiftl 1 o)) :
  0 ≤ o → (2 ^ o | p) → 0 ≤ p → in_block p o i → ¬ in_block q o i.
Proof.
  intros Ho Hal Hp. destruct (buddy_halves o p Ho Hal Hp) as (_ & _ & Hmax & _).
  fold q in Hmax. unfold in_block. lia.
Qed.

Lemma release_loop_spec n p o s F p' o' s' :
  buddy s F → block_ok p o → (∀ i, in_block p o i → ¬ F i) → n = Z.to_nat (MAX_ORDER - o) →
  release_loop n p o s = (p', o', s') → coalesced s F p o s' p' o'.
Proof.
  revert p o s F. induction n as [|n IH]; intros p o s F Hb Hok Hdis Hn Hrun; simpl in Hrun.
  { simplify_eq. split; [apply same_rest_refl|]. exists F. naive_solver. }
  pose proof Hok as ([Ho Ho'] & Hp & Hal & Hend).
  pose proof (buddy_halves o p Ho Hal ltac:(lia)) as (Hq1 & Hq2 & Hq3 & Hq4).
  pose proof (λ i, in_block_join p o i Ho Hal ltac:(lia)) as Hjoin.
  pose proof (λ i, in_block_buddy p o i Ho Hal ltac:(lia)) as Hbud.
  rewrite Z.shiftl_1_l in *. set (q := Z.lxor p (2 ^ o)) in *.
  assert (coalesced s F p o s p o) as Hstop.
  { split; [apply same_rest_refl|]. exists F. naive_solver. }
  destruct (PMM_MAX_PAGES <? q + 2 ^ o) eqn:Hc; [by simplify_eq|].
  rewrite u8_order in Hrun by done.
  destruct (Z.eqb_spec (page_blk_order s q) (o + 1)) as [Hq|]; simpl in Hrun; [|by simplify_eq].
  destruct (buddy_take s F q o Hb Ho Hq) as (Hb' & (_ & Hq0 & _ & Hqe) & HqF).
  replace (if q <? p then q else p) with (Z.min p q) in Hrun by (destruct (Z.ltb_spec q p); lia).
  change (with_blk _ _) with (take_block q s) in Hrun.
  eapply IH in Hrun as (Hrest & F' & HbF' & Hok' & Hdis' & Hcov); [|exact Hb'|..|lia].
  - split; [exact Hrest|]. exists F'. split; [exact HbF'|]. split; [exact Hok'|]. split; [exact Hdis'|].
    intros i. rewrite Hcov, Hjoin. destruct (decide (in_block q o i)); naive_solver.
  - split; [lia|]. split; [lia|]. split; [exact Hq2|]. rewrite Z.pow_add_r by lia.
    change (2 ^ 1) with 2. lia.
  - intros i Hi [Hi1 Hi2]. apply Hjoin in Hi as [Hi|Hi]; [by eapply Hdis|by apply Hi2].
Qed.

Lemma buddy_release_spec p o s F :
  buddy s F → block_ok p o → (∀ i, in_block p o i → ¬ F i) →
  buddy (buddy_release p o s) (λ i, F i ∨ in_block p o i) ∧ same_rest s (buddy_release p o s).
Proof.
  intros Hb Hok Hdis. unfold buddy_release.
  destruct (release_loop _ _ _ _) as [[p' o'] s'] eqn:Hrun.
  eapply release_loop_spec in Hrun as (Hrest & F' & HbF' & Hok' & Hdis' & Hcov); [|done..].
  split.
  - eapply buddy_ext; [exact Hcov|]. by apply buddy_put.
  - exact Hrest.
Qed.

Lemma split_loop_spec n p avail s F :
  buddy s F → block_ok p avail → (∀ i, in_block p avail i → ¬ F i) → Z.of_nat n ≤ avail →
  buddy (split_loop n p avail s)
    (λ i, F i ∨ in_block p avail i ∧ ¬ in_block p (avail - Z.of_nat n) i) ∧
  same_rest s (split_loop n p avail s).
Proof.
  revert avail s F. induction n as [|n IH]; intros avail s F Hb Hok Hdis Hn; simpl.
  { split; [|done]. eapply buddy_ext; [|exact Hb]. intros i. rewrite Z.sub_0_r. naive_solver. }
  destruct Hok as (Ho & Hp & Hal & Hend). rewrite Z.shiftl_1_l.
  assert (2 ^ avail = 2 * 2 ^ (avail - 1)) as Hpow
    by (rewrite <-Z.pow_succ_r by lia; f_equal; lia).
  assert (0 < 2 ^ (avail - 1)) by lia.
  assert (2 ^ (avail - 1) | p) as Hal'.
  { etrans; [|exact Hal]. exists 2. lia. }
  assert (block_ok (p + 2 ^ (avail - 1)) (avail - 1)) as Hup.
  { split; [lia|]. split; [lia|]. split; [apply Z.divide_add_r; [done|reflexivity]|lia]. }
  destruct (IH (avail - 1) (put_block (p + 2 ^ (avail - 1)) (avail - 1) s)
    (λ i, F i ∨ in_block (p + 2 ^ (avail - 1)) (avail - 1) i)) as [Hb' Hr'].
  - apply buddy_put; [done..|]. intros i Hi. apply Hdis. unfold in_block in *. lia.
  - split; [lia|]. split; [lia|]. split; [done|lia].
  - intros i Hi [Hi'|Hi']; [eapply Hdis; [|done]|]; unfold in_block in *; lia.
  - lia.
  - split; [|exact Hr']. eapply buddy_ext; [|exact Hb']. intros i.
    replace (avail - 1 - Z.of_nat n) with (avail - Z.of_nat (S n)) by lia.
    assert (2 ^ (avail - Z.of_nat (S n)) ≤ 2 ^ (avail - 1)) by (apply Z.pow_le_mono_r; lia).
    assert (in_block (p + 2 ^ (avail - 1)) (avail - 1) i ∨
      in_block p (avail - 1) i ∧ ¬ in_block p (avail - Z.of_nat (S n)) i ↔
      in_block p avail i ∧ ¬ in_block p (avail - Z.of_nat (S n)) i) by (unfold in_block; lia).
    tauto.
Qed.

(** ** Claims *)

(** Page [i] is free: its bit is clear. *)
Definition free s (i : Z) : Prop := 0 ≤ i < PMM_MAX_PAGES ∧ bitmap_test i (bitmap s) = false.

Definition pmm_wf s : Prop := buddy_active s = true ∧ buddy s (free s).

Lemma find_avail_spec n avail s F :
  buddy s F → 0 ≤ avail → avail + Z.of_nat n = MAX_ORDER + 1 →
  avail ≤ find_avail n avail s ∧
  (∀ o p, avail ≤ o < find_avail n avail s → page_blk_order s p ≠ o + 1) ∧
  (find_avail n avail s = MAX_ORDER + 1 ∨
   ∃ p l, find_avail n avail s ≤ MAX_ORDER ∧
     ring (fl s) (Head (find_avail n avail s)) (Page p :: l) ∧
     page_blk_order s p = find_avail n avail s + 1).
Proof.
  intros Hb. revert avail. induction n as [|n IH]; intros avail Ha Hn; simpl.
  { split; [lia|]. split; [lia|]. left. lia. }
  destruct (bd_lists _ _ Hb avail) as (l & Hr & Hm); [lia|].
  rewrite (fl_empty_spec _ _ _ Hr). destruct l as [|p l]; simpl.
  - destruct (IH (avail + 1)) as (H1 & H2 & H3); [lia..|].
    split; [lia|]. split; [|exact H3]. intros o p Ho.
    destruct (decide (o = avail)) as [->|]; [|apply H2; lia].
    rewrite <-Hm. apply not_elem_of_nil.
  - split; [lia|]. split; [lia|]. right. exists p, (Page <$> l). split; [lia|].
    split; [exact Hr|]. apply Hm. left.
Qed.

(** What a successful claim of a block of order [o] does: [pg] starts a block
    that was free and now is not, and every other page keeps its state. *)
Record claimed (o pg : Z) s s' : Prop := Claimed {
  cl_block : block_ok pg o;
  cl_was   : ∀ i, in_block pg o i → free s i;
  cl_now   : ∀ i, free s' i ↔ free s i ∧ ¬ in_block pg o i;
  cl_wf    : pmm_wf s';
  cl_used  : used_pages_count s' = u64 (used_pages_count s + 2 ^ o);
  cl_rest  : total_pages_count s' = total_pages_count s ∧ last_search_index s' = last_search_index s;
}.

Lemma buddy_claim_spec o s :
  pmm_wf s → 0 ≤ o →
  returns (buddy_claim o s) (λ '(r, s'),
    (r = 0 ∧ s' = s ∧ ∀ p o', o ≤ o' ≤ MAX_ORDER → page_blk_order s p ≠ o' + 1) ∨
    ∃ pg, r = pg * PMM_PAGE_SIZE ∧ claimed o pg s s').
Proof.
  intros [Hact Hb] Ho. unfold buddy_claim.
  destruct (decide (o ≤ MAX_ORDER)) as [Hle|Hgt].
  2:{ rewrite Z2Nat.nonpos by lia. simpl. rewrite (proj2 (Z.ltb_lt _ _)) by lia.
      simpl. left. split; [done|]. split; [done|]. lia. }
  destruct (find_avail_spec (Z.to_nat (MAX_ORDER + 1 - o)) o s _ Hb Ho) as (H1 & H2 & H3); [lia|].
  set (avail := find_avail _ o s) in *. destruct H3 as [H3|(pg & l & H3 & Hr & Hblk)].
  { rewrite H3. simpl. left. split; [done|]. split; [done|].
    intros p o' Ho'. apply H2. lia. }
  rewrite (proj2 (Z.ltb_ge _ _)) by lia.
  destruct (fl_pop_spec _ _ _ _ Hr) as [-> _].
  cbn [node_page mbind res_bind returns]. right. exists pg. split; [done|].
  change (with_blk _ _) with (take_block pg s).
  destruct (buddy_take s _ pg avail Hb ltac:(lia) Hblk) as (Hb' & Hok & Hfr).
  destruct (split_loop_spec (Z.to_nat (avail - o)) pg avail (take_block pg s) _ Hb' Hok)
    as [Hb2 (R1 & R2 & R3 & R4 & R5)]; [naive_solver|lia|].
  set (s2 := split_loop _ _ _ _) in *. rewrite Z2Nat.id in Hb2 by lia.
  replace (avail - (avail - o)) with o in Hb2 by lia.
  assert (2 ^ o ≤ 2 ^ avail) as Hpow by (apply Z.pow_le_mono_r; lia).
  destruct Hok as (_ & Hp & Hal & Hend).
  assert (2 ^ o | pg) as Hal'.
  { etrans; [|exact Hal]. exists (2 ^ (avail - o)). rewrite <-Z.pow_add_r by lia. f_equal. lia. }
  assert (∀ i, free (with_bitmap (bitmap_set_block pg o (bitmap s2)) s2) i ↔
    free s i ∧ ¬ in_block pg o i) as Hnow.
  { intros i. unfold free. cbn [with_bitmap bitmap]. rewrite bitmap_set_block_test by done.
    rewrite R1. cbn [take_block bitmap with_blk with_fl]. case_decide; naive_solver. }
  split.
  - split; [lia|]. split; [done|]. split; [done|lia].
  - intros i Hi. apply Hfr. unfold in_block in *. lia.
  - exact Hnow.
  - split; [simpl; by rewrite R2|]. simpl. 
    destruct Hb2 as [L1 L2 L3 L4]. split; [exact L1|exact L2|exact L3|].
    intros i. etrans; [apply Hnow|]. simpl in L4. rewrite <-L4.
    assert (in_block pg o i → in_block pg avail i) by (unfold in_block; lia).
    specialize (Hfr i). destruct (decide (in_block pg avail i)); tauto.
  - simpl. rewrite R4, Z.shiftl_1_l. done.
  - simpl. by rewrite R3, R5.
Qed.
