(* ===== verification/PmmApi.v ===== *)
(** * The public functions of the physical memory manager

    Sizes ([ceil_log2]), the buddy-mode allocator and its releases, and the
    traces of a client that frees only what it was given. *)

From Stdlib Require Import ZArith Lia.
From stdpp Require Import base numbers gmap list.
From S2P Require Import Prelude PmmList Pmm PmmInv.
Local Open Scope Z_scope.
Implicit Types (s : pmm) (b blk : Z → Z).

(** ** Orders *)

(** Bit [j] of [y] is the disjunction of the bits [j .. j + m - 1] of [x]. *)
Definition smeared (m x y : Z) : Prop :=
  ∀ j, 0 ≤ j → Z.testbit y j = true ↔ ∃ d, 0 ≤ d < m ∧ Z.testbit x (j + d) = true.

Lemma smear_step m x y : 0 < m → smeared m x y → smeared (2 * m) x (Z.lor y (Z.shiftr y m)).
Proof.
  unfold smeared. intros Hm Hs j Hj. rewrite Z.lor_spec, Z.shiftr_spec, orb_true_iff by lia.
  rewrite !Hs by lia. split.
  - intros [(d & Hd & Hx)|(d & Hd & Hx)]; [exists d; split; [lia|done]|].
    exists (m + d). split; [lia|]. by rewrite Z.add_assoc.
  - intros (d & Hd & Hx). destruct (decide (d < m)).
    + left. exists d. split; [lia|done].
    + right. exists (d - m). split; [lia|]. by replace (j + m + (d - m)) with (j + d) by lia.
Qed.

Lemma smeared_ones m x y :
  0 < x → 0 ≤ y → Z.log2 x < m → smeared m x y → y = 2 ^ (Z.log2 x + 1) - 1.
Proof.
  unfold smeared. intros Hx Hy Hlog Hs. rewrite Z.sub_1_r, <-Z.ones_equiv. apply Z.bits_inj'. intros j Hj.
  pose proof (Z.log2_nonneg x). destruct (decide (j ≤ Z.log2 x)).
  - rewrite Z.ones_spec_low by lia. apply Hs; [done|]. exists (Z.log2 x - j). split; [lia|].
    replace (j + (Z.log2 x - j)) with (Z.log2 x) by lia. by apply Z.bit_log2.
  - rewrite Z.ones_spec_high by lia. apply not_true_iff_false. rewrite Hs by done.
    intros (d & Hd & Hbit). rewrite Z.bits_above_log2 in Hbit by lia. done.
Qed.

Lemma next_pow2_eq n : 1 < n ≤ 2 ^ 32 → next_pow2 n = u32 (2 ^ (Z.log2 (n - 1) + 1)).
Proof.
  intros Hn. unfold next_pow2. rewrite (proj2 (Z.leb_gt _ _)) by lia. cbv zeta.
  f_equal. set (x := n - 1). set (y := Z.lor _ _). 
  assert (0 < x < 2 ^ 32) as Hx by (unfold x; lia).
  enough (y = 2 ^ (Z.log2 x + 1) - 1) by lia. apply (smeared_ones 32); [lia| | |].
  - unfold y. repeat first [apply Z.lor_nonneg; split | apply Z.shiftr_nonneg]; lia.
  - apply Z.log2_lt_pow2; lia.
  - unfold y. apply (smear_step 16); [lia|]. apply (smear_step 8); [lia|].
    apply (smear_step 4); [lia|]. apply (smear_step 2); [lia|]. apply (smear_step 1); [lia|].
    intros j Hj. split; [intros; exists 0; by rewrite Z.add_0_r|].
    intros (d & Hd & Hb). by replace (j + d) with j in Hb by lia.
Qed.

(** [ctz] finds the lowest set bit. *)
Lemma ctz_spec n i x :
  i ≤ ctz n i x ≤ i + Z.of_nat n ∧ (∀ j, i ≤ j < ctz n i x → Z.testbit x j = false) ∧
  (ctz n i x = i + Z.of_nat n ∨ Z.testbit x (ctz n i x) = true).
Proof.
  revert i. induction n as [|n IH]; intros i; cbn [ctz].
  { split; [lia|]. split; [lia|]. left. lia. }
  destruct (Z.testbit x i) eqn:Hb; [split; [lia|]; split; [lia|by right]|].
  destruct (IH (i + 1)) as (H1 & H2 & H3). split; [lia|]. split.
  - intros j Hj. destruct (decide (j = i)) as [->|]; [done|]. apply H2. lia.
  - destruct H3 as [H3|H3]; [left; lia|by right].
Qed.

Lemma ctz_at_pow2 n k : 0 ≤ k < Z.of_nat n → ctz n 0 (2 ^ k) = k.
Proof.
  intros Hk. destruct (ctz_spec n 0 (2 ^ k)) as (H1 & H2 & H3).
  assert (¬ k < ctz n 0 (2 ^ k)).
  { intros Hlt. specialize (H2 k ltac:(lia)). rewrite Z.pow2_bits_true in H2 by lia. done. }
  destruct H3 as [H3|H3]; [lia|]. destruct (decide (ctz n 0 (2 ^ k) = k)); [done|].
  rewrite Z.pow2_bits_false in H3 by lia. done.
Qed.

Lemma ceil_log2_pow n : 1 < n ≤ 2 ^ 31 → ceil_log2 n = Ret (Z.log2 (n - 1) + 1).
Proof.
  intros Hn. unfold ceil_log2. rewrite (proj2 (Z.leb_gt _ _)) by lia.
  rewrite next_pow2_eq by lia.
  assert (0 ≤ Z.log2 (n - 1)) by apply Z.log2_nonneg.
  assert (Z.log2 (n - 1) < 31) by (apply Z.log2_lt_pow2; lia).
  assert (2 ^ (Z.log2 (n - 1) + 1) ≤ 2 ^ 31) by (apply Z.pow_le_mono_r; lia).
  rewrite (wrap_id 32) by (unfold in_width; lia).
  rewrite (proj2 (Z.eqb_neq _ _)) by lia. by rewrite ctz_at_pow2 by lia.
Qed.

Lemma ceil_log2_spec n :
  1 ≤ n ≤ 2 ^ 31 →
  ∃ o, ceil_log2 n = Ret o ∧ 0 ≤ o ≤ 31 ∧ n ≤ 2 ^ o ∧ (0 < o → 2 ^ (o - 1) < n).
Proof.
  intros Hn. destruct (decide (n = 1)) as [->|].
  { exists 0. split_and!; try done; lia. }
  exists (Z.log2 (n - 1) + 1). split; [apply ceil_log2_pow; lia|].
  pose proof (Z.log2_spec (n - 1) ltac:(lia)) as [H1 H2].
  assert (Z.log2 (n - 1) < 31) by (apply Z.log2_lt_pow2; lia).
  pose proof (Z.log2_nonneg (n - 1)). rewrite Z.add_simpl_r.
  split; [lia|]. split; [|lia]. rewrite <-Z.add_1_r in H2. lia.
Qed.

(** ** Buddy-mode allocation and release *)

(** Enough free blocks of an order exist. *)
Definition has_block s (o : Z) : Prop := ∃ p o', o ≤ o' ≤ MAX_ORDER ∧ page_blk_order s p = o' + 1.

Lemma alloc_pages_buddy n o s :
  pmm_wf s → 1 ≤ n ≤ 2 ^ 31 → ceil_log2 n = Ret o →
  returns (pmm_alloc_pages n s) (λ '(r, s'),
    (r = 0 ∧ s' = s ∧ ¬ has_block s o) ∨ ∃ pg, r = pg * PMM_PAGE_SIZE ∧ claimed o pg s s').
Proof.
  intros Hwf Hn Ho. unfold pmm_alloc_pages. rewrite (proj2 (Z.eqb_neq _ _)) by lia.
  pose proof Hwf as [-> _]. rewrite Ho. cbn [mbind res_bind].
  eapply returns_mono; [apply buddy_claim_spec; [done|]|].
  - destruct (ceil_log2_spec n Hn) as (o' & Ho' & ? & _). rewrite Ho' in Ho.
    injection Ho as <-. lia.
  - intros [r s'] [(H1 & H2 & H3)|H]; [|by right]. left. split; [done|]. split; [done|].
    intros (p & o' & Ho' & Hp). by eapply H3.
Qed.

(** What a release of the block of order [o] at [pg] does. *)
Record released (o pg : Z) s s' : Prop := Released {
  re_now  : ∀ i, free s' i ↔ free s i ∨ in_block pg o i;
  re_wf   : pmm_wf s';
  re_rest : total_pages_count s' = total_pages_count s ∧ last_search_index s' = last_search_index s;
}.

Lemma block_ok_page p o i : block_ok p o → in_block p o i → 0 < i < PMM_MAX_PAGES.
Proof. intros (Ho & Hp & _ & He). unfold in_block. lia. Qed.

(** Clearing the bits of an allocated block and returning it to the buddy
    system, whichever of the two functions does it. *)
Lemma release_block o pg s b n :
  pmm_wf s → block_ok pg o → (∀ i, in_block pg o i → bitmap_test i (bitmap s) = true) →
  (∀ i, bitmap_test i b = if decide (in_block pg o i) then false else bitmap_test i (bitmap s)) →
  released o pg s (buddy_release pg o (with_used n (with_bitmap b s))) ∧
  used_pages_count (buddy_release pg o (with_used n (with_bitmap b s))) = n.
Proof.
  intros [Hact Hb] Hok Hset Hbit. set (s1 := with_used n (with_bitmap b s)).
  destruct (buddy_release_spec pg o s1 (free s)) as [Hb' (R1 & R2 & R3 & R4 & R5)].
  - destruct Hb as [L1 L2 L3 L4]. by split.
  - done.
  - intros i Hi [_ Hi']. rewrite Hset in Hi' by done. done.
  - assert (∀ i, free (buddy_release pg o s1) i ↔ free s i ∨ in_block pg o i) as Hnow.
    { intros i. unfold free. rewrite R1. cbn [s1 with_used with_bitmap bitmap]. rewrite Hbit.
      pose proof (block_ok_page pg o i Hok) as Hpage. case_decide as Hi; [|tauto].
      specialize (Hpage Hi). split; [tauto|]. intros _. split; [lia|done]. }
    split; [|exact R4]. split; [exact Hnow| |by rewrite R3, R5].
    split; [by rewrite R2|]. eapply buddy_ext; [|exact Hb']. intros i. symmetry. apply Hnow.
Qed.

(** The [if (used >= count) used -= count] of both releases as one [with_used]. *)
Lemma with_used_if s (c : bool) n : (if c then with_used n s else s) =
  with_used (if c then n else used_pages_count s) s.
Proof. by destruct c, s. Qed.

Lemma page_addr_nonzero pg : 0 < pg → (pg * PMM_PAGE_SIZE =? 0) = false.
Proof. unfold PMM_PAGE_SIZE. intros. apply Z.eqb_neq. lia. Qed.

Lemma free_contig_buddy n o pg s :
  pmm_wf s → 1 ≤ n → ceil_log2 n = Ret o → block_ok pg o →
  (∀ i, in_block pg o i → bitmap_test i (bitmap s) = true) →
  returns (pmm_free_contig (pg * PMM_PAGE_SIZE) n s) (λ s', released o pg s s' ∧
    used_pages_count s' = if 2 ^ o <=? used_pages_count s then used_pages_count s - 2 ^ o
                          else used_pages_count s).
Proof.
  intros Hwf Hn Hlog Hok Hset. unfold pmm_free_contig.
  pose proof Hok as (Ho & Hp & Hal & Hend).
  rewrite page_addr_nonzero, (proj2 (Z.eqb_neq n 0)) by lia.
  cbn [orb]. rewrite Z.div_mul, Hlog by done. cbn [mbind res_bind].
  rewrite Z.shiftl_1_l, (proj2 (Z.ltb_ge _ _)) by lia.
  pose proof Hwf as [-> _]. cbn [returns]. rewrite with_used_if.
  apply release_block; [done..|]. intros i. apply bitmap_clear_block_test; [lia|done].
Qed.

Lemma in_block_0 pg i : in_block pg 0 i ↔ i = pg.
Proof. unfold in_block. lia. Qed.

Lemma free_page_buddy pg s :
  pmm_wf s → 0 < pg < PMM_MAX_PAGES → bitmap_test pg (bitmap s) = true →
  returns (pmm_free_page (pg * PMM_PAGE_SIZE) s) (λ s', released 0 pg s s').
Proof.
  intros Hwf Hpg Hset. unfold pmm_free_page.
  rewrite page_addr_nonzero by lia.
  rewrite Z.div_mul by done. rewrite (proj2 (Z.leb_gt _ _)) by lia. rewrite Hset. cbn [negb].
  rewrite with_used_if. pose proof Hwf as [Hact _].
  cbn [returns buddy_active with_used with_bitmap]. rewrite Hact.
  apply release_block; [done| | |].
  - split; [done|]. split; [lia|]. split; [apply Z.divide_1_l|]. lia.
  - intros i Hi%in_block_0. by subst.
  - intros i. rewrite bitmap_test_clear. rewrite (decide_ext _ (i = pg)); [|apply in_block_0].
    by case_decide; case_bool_decide.
Qed.

(** ** Building the free lists *)

Lemma fit_order_spec n pos remaining ord :
  0 ≤ ord → (2 ^ ord | pos) → 2 ^ ord ≤ remaining →
  ord ≤ fit_order n pos remaining ord ≤ ord + Z.of_nat n ∧
  (2 ^ fit_order n pos remaining ord | pos) ∧ 2 ^ fit_order n pos remaining ord ≤ remaining.
Proof.
  revert ord. induction n as [|n IH]; intros ord Ho Hal Hle; cbn [fit_order].
  { split; [lia|done]. }
  destruct (_ && _) eqn:Hc; [|split; [lia|done]].
  apply andb_true_iff in Hc as [Hc1 Hc2]. apply Z.eqb_eq in Hc1. apply Z.leb_le in Hc2.
  rewrite Z.shiftl_1_l in *. rewrite Z.sub_1_r, <-Z.ones_equiv, Z.land_ones in Hc1 by lia.
  destruct (IH (ord + 1)) as (H1 & H2); [lia| |done|split; [lia|done]].
  apply Z.mod_divide; lia.
Qed.

Lemma decompose_spec fuel pos remaining s F :
  buddy s F → 0 < pos → 0 ≤ remaining → pos + remaining ≤ PMM_MAX_PAGES →
  (∀ i, pos ≤ i < pos + remaining → ¬ F i) → (Z.to_nat remaining < fuel)%nat →
  returns (decompose fuel pos remaining s) (λ s',
    buddy s' (λ i, F i ∨ pos ≤ i < pos + remaining) ∧ same_rest s s').
Proof.
  revert pos remaining s F. induction fuel as [|fuel IH];
    intros pos remaining s F Hb Hpos Hrem Hend Hdis Hfuel; [lia|]. cbn [decompose].
  destruct (Z.ltb_spec 0 remaining) as [Hlt|Hge]; cbn [negb].
  2:{ simpl. split; [|apply same_rest_refl]. eapply buddy_ext; [|exact Hb].
      intros i. split; [tauto|]. intros [?|?]; [done|lia]. }
  destruct (fit_order_spec (Z.to_nat MAX_ORDER) pos remaining 0) as (H1 & H2 & H3);
    [lia|apply Z.divide_1_l|lia|].
  set (ord := fit_order _ _ _ _) in *. rewrite Z.shiftl_1_l.
  assert (0 ≤ ord ≤ MAX_ORDER) by (unfold MAX_ORDER in *; lia).
  assert (0 < 2 ^ ord) by lia.
  eapply returns_mono; [apply (IH _ _ _ (λ i, F i ∨ in_block pos ord i))|].
  - apply buddy_put; [done| |].
    + split; [done|]. split; [lia|]. split; [done|lia].
    + intros i Hi. apply Hdis. unfold in_block in Hi. lia.
  - lia.
  - lia.
  - lia.
  - unfold in_block. intros i Hi [HF|Hi']; [eapply Hdis; [|done]|]; lia.
  - lia.
  - intros s' [Hb' Hr']. split; [|exact Hr']. eapply buddy_ext; [|exact Hb'].
    intros i. unfold in_block.
    assert (pos ≤ i < pos + 2 ^ ord ∨ pos + 2 ^ ord ≤ i < pos + 2 ^ ord + (remaining - 2 ^ ord)
      ↔ pos ≤ i < pos + remaining) by lia. tauto.
Qed.

Lemma run_end_spec n pg b :
  pg ≤ run_end n pg b ≤ pg + Z.of_nat n ∧
  (∀ i, pg ≤ i < run_end n pg b → bitmap_test i b = false) ∧
  ((0 < n)%nat → bitmap_test pg b = false → pg < run_end n pg b).
Proof.
  revert pg. induction n as [|n IH]; intros pg; cbn [run_end].
  { split; [lia|]. split; lia. }
  destruct (bitmap_test pg b) eqn:Hb; [split; [lia|]; split; [lia|done]|].
  destruct (IH (pg + 1)) as (H1 & H2 & _). split; [lia|]. split; [|lia].
  intros i Hi. destruct (decide (i = pg)) as [->|]; [done|]. apply H2. lia.
Qed.

Lemma setup_loop_spec fuel pg s :
  buddy s (λ i, free s i ∧ i < pg) → 0 < pg ≤ PMM_MAX_PAGES →
  (Z.to_nat (PMM_MAX_PAGES - pg) < fuel)%nat →
  returns (setup_loop fuel pg s) (λ s', buddy s' (free s) ∧ same_rest s s').
Proof.
  revert pg s. induction fuel as [|fuel IH]; intros pg s Hb Hpg Hfuel; [lia|]. cbn [setup_loop].
  destruct (Z.ltb_spec pg PMM_MAX_PAGES) as [Hlt|Hge]; cbn [negb].
  2:{ simpl. split; [|apply same_rest_refl]. eapply buddy_ext; [|exact Hb]. unfold free.
      intros i. assert (0 ≤ i < PMM_MAX_PAGES → i < pg) by lia. tauto. }
  destruct (bitmap_test pg (bitmap s)) eqn:Hbit.
  - apply IH; [|lia..]. eapply buddy_ext; [|exact Hb]. intros i. unfold free.
    destruct (decide (i = pg)) as [->|]; [split; intros [[? ?] ?]; [lia|congruence]|].
    assert (i < pg ↔ i < pg + 1) by lia. tauto.
  - destruct (run_end_spec (Z.to_nat (PMM_MAX_PAGES - pg)) pg (bitmap s)) as (H1 & H2 & H3).
    specialize (H3 ltac:(lia) Hbit). set (e := run_end _ _ _) in *.
    apply returns_bind. eapply returns_mono.
    + apply (decompose_spec _ _ _ _ _ Hb); [lia..| |lia]. intros i Hi [_ Hi']. lia.
    + intros s' [Hb' Hr']. pose proof Hr' as (R1 & _).
      assert (∀ i, free s' i ↔ free s i) as Hfree by (intros; unfold free; by rewrite R1).
      eapply returns_mono; [apply (IH e s')|].
      * eapply buddy_ext; [|exact Hb']. intros i. rewrite Hfree. split.
        -- intros [[? ?]|Hi]; [split; [done|lia]|].
           split; [|lia]. split; [lia|]. apply H2. lia.
        -- intros [? ?]. destruct (decide (i < pg)); [by left|right; lia].
      * lia.
      * lia.
      * intros s'' [Hb'' Hr'']. split; [by eapply buddy_ext|eauto with pmm].
Qed.

Lemma fl_init_all k o : 0 ≤ o ≤ MAX_ORDER →
  ring (for_up (MAX_ORDER + 1) (λ i k, fl_init (Head i) k) k) (Head o) [].
Proof.
  assert (∀ o, 0 ≤ o < MAX_ORDER + 1 →
    ring (for_up (MAX_ORDER + 1) (λ i k, fl_init (Head i) k) k) (Head o) []) as H;
    [|intros; apply H; lia].
  apply (for_up_ind (λ n k, ∀ o, 0 ≤ o < n → ring k (Head o) [])); [done|lia|].
  intros i k' Hi IH o' Ho'. destruct (decide (o' = i)) as [->|]; [apply ring_init|].
  eapply ring_frame; [|apply (IH o'); lia]. intros a [->|Ha]; [|set_solver].
  unfold fl_init. simpl. unfold upd_fn. rewrite !decide_False by congruence. done.
Qed.

(** No block is marked free and no free list is built yet: the state that
    [pmm_init] leaves. *)
Definition pmm_fresh s : Prop :=
  (∀ p, page_blk_order s p = 0) ∧ bitmap_test 0 (bitmap s) = true ∧ buddy_active s = false.

Lemma buddy_setup_spec s :
  pmm_fresh s →
  returns (pmm_buddy_setup s) (λ s', pmm_wf s' ∧ bitmap s' = bitmap s ∧
    total_pages_count s' = total_pages_count s ∧ used_pages_count s' = used_pages_count s).
Proof.
  intros (Hblk & Hzero & _). unfold pmm_buddy_setup. set (s1 := with_fl _ s).
  apply returns_bind. eapply returns_mono; [apply (setup_loop_spec _ 1 s1)|].
  - split; simpl.
    + intros o Ho. exists []. split; [by apply fl_init_all|]. intros p. rewrite Hblk. set_solver by lia.
    + intros p. by rewrite Hblk.
    + intros p q i [Hp _]. by rewrite Hblk in Hp.
    + intros i. split.
      * intros [[Hi Hf] Hlt]. assert (i = 0) as -> by lia. cbn [s1 with_fl bitmap] in Hf. congruence.
      * intros (p & Hp & _). by rewrite Hblk in Hp.
  - done.
  - lia.
  - intros s' [Hb (R1 & R2 & R3 & R4 & R5)]. simpl. rewrite R1, R3, R4. split; [|done].
    split; [done|]. assert (∀ i, free s1 i ↔ free (with_active s') i) as Hfr.
    { intros i. unfold free. simpl. by rewrite R1. }
    destruct Hb as [L1 L2 L3 L4]. split; [exact L1|exact L2|exact L3|].
    intros i. rewrite <-Hfr. apply L4.
Qed.

(** The counting loops are unfolded last: their bounds are large. *)
Strategy 1000 [for_up for_range].

(** ** Boot *)

(** The memory map says page [i] is usable. *)
Definition entry_page (e : mmap_entry) (i : Z) : Prop :=
  mm_type e = IRIS_MEM_USABLE ∧ mm_base e ≠ 0 ∧
  mm_base e / PMM_PAGE_SIZE ≤ i < mm_base e / PMM_PAGE_SIZE + mm_length e / PMM_PAGE_SIZE.

Definition entry_sane (e : mmap_entry) : Prop := in_width 64 (mm_base e) ∧ in_width 64 (mm_length e).

(** The pages of the kernel image. *)
Definition kernel_page (ks ke i : Z) : Prop :=
  ks / PMM_PAGE_SIZE ≤ i < u64 (ke + PMM_PAGE_SIZE - 1) / PMM_PAGE_SIZE.

(** Everything but the bitmap and the counters. *)
Definition same_buddy s s' : Prop :=
  page_blk_order s' = page_blk_order s ∧ fl s' = fl s ∧ buddy_active s' = buddy_active s.

Lemma init_entry_spec e s :
  entry_sane e →
  (∀ i, 0 ≤ i < PMM_MAX_PAGES → free (pmm_init_entry e s) i ↔ free s i ∨ entry_page e i) ∧
  same_buddy s (pmm_init_entry e s).
Proof.
  intros [[Hb1 Hb2] [Hl1 Hl2]]. unfold pmm_init_entry, entry_page.
  destruct (Z.eqb_spec (mm_type e) IRIS_MEM_USABLE) as [Ht|Ht]; cbn [negb]; [|split; [naive_solver|done]].
  destruct (Z.eqb_spec (mm_base e) 0) as [Hz|Hz]; [split; [naive_solver|done]|].
  assert (0 ≤ mm_base e / PMM_PAGE_SIZE) by (apply Z.div_pos; done).
  assert (0 ≤ mm_length e / PMM_PAGE_SIZE) by (apply Z.div_pos; done).
  assert (mm_length e / PMM_PAGE_SIZE < 2 ^ 52) by (apply Z.div_lt_upper_bound; [done|]; unfold PMM_PAGE_SIZE; lia).
  set (pg := mm_base e / PMM_PAGE_SIZE) in *. set (count := mm_length e / PMM_PAGE_SIZE) in *.
  destruct (Z.leb_spec PMM_MAX_PAGES pg) as [Hpg|Hpg].
  { split; [|done]. intros i Hi. split; [tauto|]. intros [?|(_ & _ & ?)]; [done|lia]. }
  assert (in_width 64 (pg + count)).
  { clearbody pg count. unfold in_width, PMM_MAX_PAGES in *. lia. }
  rewrite (wrap_id 64 (pg + count)) by done.
  replace (if PMM_MAX_PAGES <? pg + count then PMM_MAX_PAGES - pg else count)
    with (Z.min count (PMM_MAX_PAGES - pg)) by (destruct (Z.ltb_spec PMM_MAX_PAGES (pg + count)); lia).
  split; [|done]. intros i Hi. unfold free. simpl.
  rewrite (for_up_bits _ _ pg false); [|lia|].
  - case_decide; naive_solver lia.
  - intros j b Hj. rewrite bitmap_test_clear. by case_decide; case_bool_decide.
Qed.

Lemma init_entries_spec l s :
  Forall entry_sane l →
  (∀ i, 0 ≤ i < PMM_MAX_PAGES →
    free (foldl (λ s e, pmm_init_entry e s) s l) i ↔ free s i ∨ ∃ e, e ∈ l ∧ entry_page e i) ∧
  same_buddy s (foldl (λ s e, pmm_init_entry e s) s l).
Proof.
  intros Hl. revert s. induction Hl as [|e l He Hl IH]; intros s; simpl.
  { split; [|done]. intros i _. split; [tauto|]. intros [?|(e & He & _)]; [done|set_solver]. }
  destruct (init_entry_spec e s He) as [H1 (B1 & B2 & B3)].
  destruct (IH (pmm_init_entry e s)) as [H2 (B4 & B5 & B6)].
  split; [|unfold same_buddy; rewrite B4, B5, B6; done].
  intros i Hi. rewrite H2, H1 by done. setoid_rewrite elem_of_cons. naive_solver.
Qed.

Lemma for_up_fill n b j :
  0 ≤ n →
  bitmap_test j (for_up n (λ w b, upd_fn b w (2 ^ 64 - 1)) b) =
    if decide (0 ≤ j < 0 + 64 * n) then true else bitmap_test j b.
Proof. intros Hn. exact (for_up_words n (2 ^ 64 - 1) b 0 j Hn eq_refl (or_intror eq_refl)). Qed.

Definition reserve_page (k : Z) s : pmm :=
  if bitmap_test k (bitmap s) then s
  else with_used (u64 (used_pages_count s + 1)) (with_bitmap (bitmap_set k (bitmap s)) s).

Lemma reserve_page_spec k s :
  (∀ i, free (reserve_page k s) i ↔ free s i ∧ i ≠ k) ∧ same_buddy s (reserve_page k s).
Proof.
  unfold reserve_page, free. destruct (bitmap_test k (bitmap s)) eqn:Hk.
  - split; [|done]. intros i. destruct (decide (i = k)) as [->|]; [|tauto].
    rewrite Hk. split; [intros [_ ?]; done|tauto].
  - split; [|done]. intros i. cbn [with_used with_bitmap bitmap]. rewrite bitmap_test_set.
    case_bool_decide; cbn [orb]; [|tauto]. split; [intros [_ ?]; done|tauto].
Qed.

Lemma reserve_range_spec lo hi s :
  (∀ i, free (for_range lo hi reserve_page s) i ↔ free s i ∧ ¬ (lo ≤ i < hi)) ∧
  same_buddy s (for_range lo hi reserve_page s).
Proof.
  destruct (decide (lo ≤ hi)) as [Hle|Hgt].
  2:{ rewrite for_range_empty by lia. split; [|done]. intros i.
      assert (¬ (lo ≤ i < hi)) by lia. tauto. }
  apply (for_range_ind (λ k s', (∀ i, free s' i ↔ free s i ∧ ¬ (lo ≤ i < k)) ∧ same_buddy s s'));
    [done| |].
  - split; [|done]. intros i. assert (¬ (lo ≤ i < lo)) by lia. tauto.
  - intros k s' Hk [H1 (B1 & B2 & B3)]. destruct (reserve_page_spec k s') as [H2 (B4 & B5 & B6)].
    split; [|unfold same_buddy; rewrite B4, B5, B6; done].
    intros i. rewrite H2, H1.
    assert (¬ (lo ≤ i < k + 1) ↔ ¬ (lo ≤ i < k) ∧ i ≠ k) by lia. tauto.
Qed.

Lemma init_spec ks ke l s :
  Forall entry_sane l →
  (∀ i, 0 ≤ i < PMM_MAX_PAGES → free (pmm_init ks ke l s) i ↔
    i ≠ 0 ∧ ¬ kernel_page ks ke i ∧ ∃ e, e ∈ l ∧ entry_page e i) ∧
  same_buddy s (pmm_init ks ke l s).
Proof.
  intros Hl. unfold pmm_init. set (s1 := with_last 0 _). set (s2 := foldl _ s1 l).
  destruct (init_entries_spec l s1 Hl) as [H1 (B1 & B2 & B3)]. fold s2 in H1, B1, B2, B3.
  set (s3 := with_bitmap (bitmap_set 0 (bitmap s2)) s2). cbv zeta.
  change (λ (k : Z) s, if bitmap_test k (bitmap s) then s else _) with reserve_page.
  destruct (reserve_range_spec (ks / PMM_PAGE_SIZE)
    (Z.min (u64 (ke + PMM_PAGE_SIZE - 1) / PMM_PAGE_SIZE) PMM_MAX_PAGES) s3) as [H2 (B4 & B5 & B6)].
  split; [|unfold same_buddy; rewrite B4, B5, B6; simpl; rewrite B1, B2, B3; done].
  intros i Hi. rewrite H2.
  assert (free s3 i ↔ free s2 i ∧ i ≠ 0) as ->.
  { unfold free. cbn [s3 with_bitmap bitmap]. rewrite bitmap_test_set.
    case_bool_decide; cbn [orb]; [|tauto]. split; [intros [_ ?]; done|tauto]. }
  rewrite H1 by done. unfold kernel_page.
  assert (¬ free s1 i) as Hno.
  { intros [_ Hf]. cbn [s1 with_last with_used with_total with_bitmap bitmap] in Hf. revert Hf.
    rewrite for_up_fill by done.
    rewrite decide_True; [done|]. unfold PMM_MAX_PAGES, BITMAP_WORDS in *. lia. }
  assert (ks / PMM_PAGE_SIZE ≤ i < Z.min (u64 (ke + PMM_PAGE_SIZE - 1) / PMM_PAGE_SIZE) PMM_MAX_PAGES
    ↔ ks / PMM_PAGE_SIZE ≤ i < u64 (ke + PMM_PAGE_SIZE - 1) / PMM_PAGE_SIZE) by lia.
  tauto.
Qed.

(** The zero-initialised state the kernel is loaded with. *)
Definition pmm_bss : pmm := Pmm (λ _, 0) (λ _, 0) (Links id id) false 0 0 0.

Lemma init_fresh ks ke l : Forall entry_sane l → pmm_fresh (pmm_init ks ke l pmm_bss).
Proof.
  intros Hl. destruct (init_spec ks ke l pmm_bss Hl) as [H1 (B1 & _ & B3)].
  split; [by rewrite B1|]. split; [|by rewrite B3].
  destruct (bitmap_test 0 _) eqn:Hb; [done|]. exfalso.
  destruct (H1 0) as [H _]; [done|]. destruct H as [H _]; [|done]. split; done.
Qed.
