(* ===== verification/PmmSafe.v ===== *)
(** * Physical memory: the guarantees of the allocator

    The claims about pmm.c: what boot leaves free, the early bitmap allocator,
    blocks and sizes in buddy mode, double frees, the safety of every client
    trace, and the page handed out twice after [pmm_alloc_page_below]. *)

From Stdlib Require Import ZArith Lia Relations.
From stdpp Require Import base numbers gmap list.
From S2P Require Import Prelude PmmList Pmm PmmInv PmmApi.
Local Open Scope Z_scope.
Implicit Types (s : pmm) (b blk : Z → Z).

(** ** The early allocator *)

Lemma u64_not_range x : 0 ≤ u64 (Z.lnot x) < 2 ^ 64.
Proof. apply (wrap_in_width 64). lia. Qed.

(** The mask one word of the scan searches, and the bits it has. *)
Definition scan_mask (w x : Z) : Z :=
  if w =? 0 then Z.land (u64 (Z.lnot x)) (u64 (Z.lnot 1)) else u64 (Z.lnot x).

Lemma scan_mask_bit w x j :
  0 ≤ j < 64 → Z.testbit (scan_mask w x) j = negb (Z.testbit x j) && negb ((w =? 0) && (j =? 0)).
Proof.
  intros Hj. unfold scan_mask. destruct (w =? 0); rewrite ?Z.land_spec, !testbit_not64 by lia.
  - by assert (Z.testbit 1 j = (j =? 0)) as -> by (destruct j as [|p|p]; [done|by destruct p|lia]).
  - by rewrite andb_true_r.
Qed.

Lemma scan_mask_range w x : 0 ≤ scan_mask w x < 2 ^ 64.
Proof.
  unfold scan_mask. pose proof (u64_not_range x). destruct (w =? 0); [|done].
  change (u64 (Z.lnot 1)) with (2 ^ 64 - 2 ^ 1). rewrite land_high_mask by lia.
  pose proof (Z.mod_pos_bound (u64 (Z.lnot x)) (2 ^ 1)). 
  pose proof (Z.mod_le (u64 (Z.lnot x)) (2 ^ 1)). lia.
Qed.

(** What the early allocator does when it hands out page [pg]. *)
Record handed_out (pg : Z) s s' : Prop := HandedOut {
  ho_page : 0 < pg < PMM_MAX_PAGES;
  ho_was  : free s pg;
  ho_now  : ∀ i, free s' i ↔ free s i ∧ i ≠ pg;
  ho_used : used_pages_count s' = u64 (used_pages_count s + 1);
  ho_last : last_search_index s' = pg + 1;
}.

Lemma word_page w j : 0 ≤ j < 64 → (w * 64 + j) / 64 = w ∧ (w * 64 + j) mod 64 = j.
Proof.
  intros Hj. rewrite Z.div_add_l, Z.div_small by lia. split; [lia|].
  rewrite Z.add_comm, Z_mod_plus_full. apply Z.mod_small. lia.
Qed.

Lemma scan_words_spec n w s :
  0 ≤ w → w + Z.of_nat n ≤ BITMAP_WORDS →
  let '(r, s') := scan_words n w s in
  (r = 0 ∧ s' = s ∧ ∀ i, 0 < i → w * 64 ≤ i < (w + Z.of_nat n) * 64 → ¬ free s i) ∨
  (∃ pg, r = pg * PMM_PAGE_SIZE ∧ handed_out pg s s').
Proof.
  revert w. induction n as [|n IH]; intros w Hw Hn.
  { simpl. left. split; [done|]. split; [done|]. lia. }
  cbn [scan_words]. change (if w =? 0 then _ else _) with (scan_mask w (bitmap s w)).
  set (m := scan_mask w (bitmap s w)).
  assert (∀ j, 0 ≤ j < 64 → Z.testbit m j = true → 0 < w * 64 + j ∧
    bitmap_test (w * 64 + j) (bitmap s) = false) as Hbit.
  { intros j Hj. unfold m. rewrite scan_mask_bit, bitmap_test_bit by done.
    destruct (word_page w j Hj) as [-> ->].
    rewrite andb_true_iff, !negb_true_iff, andb_false_iff, !Z.eqb_neq. intros [? ?]. split; [lia|done]. }
  destruct (Z.eqb_spec m 0) as [Hz|Hnz].
  - specialize (IH (w + 1) ltac:(lia) ltac:(lia)).
    destruct (scan_words n (w + 1) s) as [r s']. destruct IH as [(H1 & H2 & H3)|H]; [left|by right].
    split; [done|]. split; [done|]. intros i Hi0 Hi [Hr Hf].
    destruct (decide (i < (w + 1) * 64)); [|eapply H3; [done|lia|by split]].
    rewrite bitmap_test_bit in Hf. pose proof (Z.div_mod i 64 ltac:(lia)) as Hdm.
    pose proof (Z.mod_pos_bound i 64 ltac:(lia)) as Hm. assert (i / 64 = w) as Hq by lia.
    rewrite Hq in Hf. assert (Z.testbit m (i mod 64) = false) as Ht by (rewrite Hz; apply Z.bits_0).
    unfold m in Ht. rewrite scan_mask_bit, Hf in Ht by lia. cbn [negb andb] in Ht.
    apply negb_false_iff, andb_true_iff in Ht as [? ?]. lia.
  - destruct (ctz_spec 64 0 m) as (C1 & _ & C3). 
    assert (0 ≤ ctz 64 0 m < 64 ∧ Z.testbit m (ctz 64 0 m) = true) as [Hc Hct].
    { assert (Z.testbit m (Z.log2 m) = true) as Hl.
      { apply Z.bit_log2. pose proof (scan_mask_range w (bitmap s w)). fold m in H. lia. }
      pose proof (scan_mask_range w (bitmap s w)) as Hr. fold m in Hr.
      assert (Z.log2 m < 64) by (apply Z.log2_lt_pow2; lia).
      destruct (ctz_spec 64 0 m) as (_ & C2 & _). pose proof (Z.log2_nonneg m).
      assert (ctz 64 0 m ≤ Z.log2 m).
      { destruct (decide (ctz 64 0 m ≤ Z.log2 m)); [done|]. rewrite C2 in Hl by lia. done. }
      split; [lia|]. destruct C3 as [C3|C3]; [lia|done]. }
    destruct (Hbit _ Hc Hct) as [Hp Hfree]. set (pg := w * 64 + ctz 64 0 m) in *.
    assert (pg < PMM_MAX_PAGES) by (unfold PMM_MAX_PAGES, BITMAP_WORDS, pg in *; lia).
    rewrite (proj2 (Z.leb_gt _ _)) by lia. right. exists pg. split; [done|].
    split; [lia|split; [lia|done]| |done|done].
    intros i. unfold free. simpl. rewrite bitmap_test_set.
    case_bool_decide; cbn [orb]; [|tauto]. split; [intros [_ ?]; done|tauto].
Qed.

(** ** Client traces *)

(** The pages a request of [n] pages really takes, and their bytes. *)
Definition region (x : Z * Z) : Z * Z := (x.1, 2 ^ Z.log2_up x.2 * PMM_PAGE_SIZE).

(** A client of the allocator in buddy mode: the allocator's state and the
    allocations (address, pages asked for) not freed yet. *)
Definition client : Type := pmm * list (Z * Z).

Inductive cstep : client → client → Prop :=
  | step_alloc n r s s' ow : 1 ≤ n ≤ 2 ^ 31 → pmm_alloc_pages n s = Ret (r, s') → r ≠ 0 →
      cstep (s, ow) (s', (r, n) :: ow)
  | step_alloc_page r s s' ow : pmm_alloc_page s = Ret (r, s') → r ≠ 0 →
      cstep (s, ow) (s', (r, 1) :: ow)
  | step_alloc_block r o s s' ow : pmm_alloc_block s = Ret (r, Some o, s') → r ≠ 0 →
      cstep (s, ow) (s', (r, 2 ^ o) :: ow)
  | step_alloc_none n s s' ow : 1 ≤ n ≤ 2 ^ 31 → pmm_alloc_pages n s = Ret (0, s') →
      cstep (s, ow) (s', ow)
  | step_free r n s s' l1 l2 : pmm_free_contig r n s = Ret s' →
      cstep (s, l1 ++ (r, n) :: l2) (s', l1 ++ l2)
  | step_free_page r s s' l1 l2 : pmm_free_page r s = Ret s' →
      cstep (s, l1 ++ (r, 1) :: l2) (s', l1 ++ l2).

Definition csteps : client → client → Prop := clos_refl_trans _ cstep.

(** An outstanding allocation: a block whose pages are all marked used. *)
Definition outstanding s (x : Z * Z) : Prop :=
  1 ≤ x.2 ≤ 2 ^ 31 ∧ ∃ pg, x.1 = pg * PMM_PAGE_SIZE ∧ block_ok pg (Z.log2_up x.2) ∧
    ∀ i, in_block pg (Z.log2_up x.2) i → bitmap_test i (bitmap s) = true.

Definition client_ok (c : client) : Prop :=
  pmm_wf c.1 ∧ Forall (outstanding c.1) c.2 ∧ all_disjoint (region <$> c.2).

Lemma ceil_log2_up n : 1 ≤ n ≤ 2 ^ 31 → ceil_log2 n = Ret (Z.log2_up n).
Proof.
  intros Hn. destruct (decide (n = 1)) as [->|]; [done|].
  rewrite ceil_log2_pow by lia. unfold Z.log2_up.
  rewrite (proj2 (Z.compare_lt_iff 1 n)) by lia. rewrite Z.sub_1_r. done.
Qed.

(** Two blocks that share no page share no byte. *)
Lemma region_disjoint p o q o' :
  (∀ i, in_block p o i → ¬ in_block q o' i) → 0 ≤ o → 0 ≤ o' →
  disjoint (p * PMM_PAGE_SIZE, 2 ^ o * PMM_PAGE_SIZE) (q * PMM_PAGE_SIZE, 2 ^ o' * PMM_PAGE_SIZE).
Proof.
  intros Hdis Ho Ho'. unfold disjoint, in_block, PMM_PAGE_SIZE in *. simpl.
  assert (0 < 2 ^ o) by lia. assert (0 < 2 ^ o') by lia.
  pose proof (Hdis p ltac:(lia)). pose proof (Hdis q). lia.
Qed.

Lemma outstanding_claimed s s' o pg x :
  claimed o pg s s' → pmm_wf s → outstanding s x →
  outstanding s' x ∧ disjoint (pg * PMM_PAGE_SIZE, 2 ^ o * PMM_PAGE_SIZE) (region x).
Proof.
  intros Hc Hwf (Hn & q & Hq & Hok & Hset).
  assert (∀ i, in_block q (Z.log2_up x.2) i → ¬ free s i) as Hnf.
  { intros i Hi [_ Hf]. rewrite Hset in Hf by done. done. }
  split.
  - split; [done|]. exists q. split; [done|]. split; [done|]. intros i Hi.
    destruct (bitmap_test i (bitmap s')) eqn:Hb; [done|]. exfalso. apply (Hnf i Hi).
    apply (cl_now _ _ _ _ Hc). pose proof (block_ok_page _ _ _ Hok Hi). split; [lia|done].
  - unfold region. rewrite Hq. apply region_disjoint; [|apply Hc|apply Hok].
    intros i Hi Hi'. apply (Hnf i Hi'). by apply (cl_was _ _ _ _ Hc).
Qed.

Lemma client_claim s s' ow o pg n :
  client_ok (s, ow) → claimed o pg s s' → 1 ≤ n ≤ 2 ^ 31 → o = Z.log2_up n →
  client_ok (s', (pg * PMM_PAGE_SIZE, n) :: ow).
Proof.
  intros (Hwf & Hout & Hdis) Hc Hn ->. cbn [fst snd] in *.
  assert (Forall (λ x, outstanding s' x ∧
    disjoint (pg * PMM_PAGE_SIZE, 2 ^ Z.log2_up n * PMM_PAGE_SIZE) (region x)) ow) as Hall.
  { eapply Forall_impl; [exact Hout|]. intros x Hx. by eapply outstanding_claimed. }
  apply Forall_and in Hall as [Hall1 Hall2]. split; [apply Hc|]. split.
  - constructor; [|exact Hall1]. split; [done|]. exists pg. split; [done|]. split; [apply Hc|].
    intros i Hi. destruct (bitmap_test i _) eqn:Hb; [done|]. exfalso.
    assert (free s' i) as Hf.
    { pose proof (block_ok_page _ _ _ (cl_block _ _ _ _ Hc) Hi). split; [simpl in *; lia|done]. }
    apply (cl_now _ _ _ _ Hc) in Hf. tauto.
  - cbn [snd fmap list_fmap map all_disjoint]. split; [|exact Hdis]. apply Forall_fmap. exact Hall2.
Qed.

Lemma client_release s s' l1 x l2 pg :
  client_ok (s, l1 ++ x :: l2) → x.1 = pg * PMM_PAGE_SIZE → released (Z.log2_up x.2) pg s s' →
  client_ok (s', l1 ++ l2).
Proof.
  intros (Hwf & Hout & Hdis) Hx Hr. cbn [fst snd] in *.
  rewrite fmap_app, fmap_cons in Hdis. apply all_disjoint_remove in Hdis as [Hdis Hfar].
  rewrite <-fmap_app in Hdis, Hfar. split; [apply Hr|]. split; [|exact Hdis]. cbn [fst snd].
  assert (Forall (outstanding s) (l1 ++ l2)) as Hout'.
  { rewrite Forall_app, Forall_cons in Hout. rewrite Forall_app. tauto. }
  rewrite Forall_fmap in Hfar.
  apply Forall_lookup. intros k y Hy.
  pose proof (Forall_lookup_1 _ _ _ _ Hout' Hy) as (Hn & q & Hq & Hok & Hset).
  pose proof (Forall_lookup_1 _ _ _ _ Hfar Hy) as Hd. simpl in Hd.
  split; [done|]. exists q. split; [done|]. split; [done|]. intros i Hi.
  destruct (bitmap_test i (bitmap s')) eqn:Hb; [done|]. exfalso.
  pose proof (block_ok_page _ _ _ Hok Hi) as Hpage.
  assert (free s' i) as Hf by (split; [lia|done]).
  apply (re_now _ _ _ _ Hr) in Hf as [[_ Hf]|Hf]; [by rewrite Hset in Hf|].
  unfold disjoint, region, in_block, PMM_PAGE_SIZE in *. rewrite Hx, Hq in Hd. cbn [fst snd] in Hd. lia.
Qed.

Lemma block_loop_spec n s :
  pmm_wf s → Z.of_nat n ≤ MAX_ORDER →
  returns (block_loop n s) (λ '(r, oo, s'),
    (oo = None ∧ r = 0 ∧ s' = s ∧ ∀ p o, 0 ≤ o ≤ Z.of_nat n → page_blk_order s p ≠ o + 1) ∨
    ∃ o pg, oo = Some o ∧ r = pg * PMM_PAGE_SIZE ∧ claimed o pg s s' ∧ o ≤ Z.of_nat n ∧
      ∀ p o', o < o' ≤ Z.of_nat n → page_blk_order s p ≠ o' + 1).
Proof.
  intros Hwf. induction n as [|n IH]; intros Hn; cbn [block_loop].
  all: match goal with |- context [Head ?o] =>
    destruct (bd_lists _ _ (proj2 Hwf) o) as (l & Hr & Hm); [lia|] end.
  all: rewrite (fl_empty_spec _ _ _ Hr).
  all: destruct l as [|p l]; cbn [fmap list_fmap map]; [rewrite bool_decide_true by done|rewrite bool_decide_false by done]; cbn [negb].
  2,4: apply returns_bind; eapply returns_mono; [apply buddy_claim_spec; [done|lia]|];
    intros [r s'] [(_ & _ & Hno)|(pg & Hpg & Hc)]; [|right; eexists _, pg; split_and!; [done..|lia|lia]];
    exfalso; eapply (Hno p); [|apply Hm; left]; lia.
  - left. split_and!; try done. intros p o Ho. assert (o = Z.of_nat 0) as -> by lia.
    rewrite <-Hm. apply not_elem_of_nil.
  - assert (∀ p, page_blk_order s p ≠ Z.of_nat (S n) + 1) as Hno
      by (intros p; rewrite <-Hm; apply not_elem_of_nil).
    eapply returns_mono; [apply IH; lia|]. intros [[r oo] s'] [(H1 & H2 & H3 & H4)|(o & pg & H1 & H2 & H3 & H4 & H5)].
    + left. split_and!; try done. intros p o Ho.
      destruct (decide (o = Z.of_nat (S n))) as [->|]; [apply Hno|apply H4; lia].
    + right. exists o, pg. split_and!; try done; [lia|]. intros p o' Ho'.
      destruct (decide (o' = Z.of_nat (S n))) as [->|]; [apply Hno|apply H5; lia].
Qed.

Lemma alloc_block_spec s :
  pmm_wf s →
  returns (pmm_alloc_block s) (λ '(r, oo, s'),
    (oo = None ∧ r = 0 ∧ s' = s ∧ ∀ p o, 0 ≤ o ≤ MAX_ORDER → page_blk_order s p ≠ o + 1) ∨
    ∃ o pg, oo = Some o ∧ r = pg * PMM_PAGE_SIZE ∧ claimed o pg s s' ∧ o ≤ MAX_ORDER ∧
      ∀ p o', o < o' ≤ MAX_ORDER → page_blk_order s p ≠ o' + 1).
Proof.
  intros Hwf. unfold pmm_alloc_block. rewrite (proj1 Hwf). cbn [negb].
  pose proof (block_loop_spec (Z.to_nat MAX_ORDER) s Hwf) as H.
  rewrite Z2Nat.id in H by done. apply H. done.
Qed.

Lemma claimed_page_nonzero o pg s s' : claimed o pg s s' → 0 < pg.
Proof. intros Hc. apply (cl_block _ _ _ _ Hc). Qed.

Lemma client_step c c' : client_ok c → cstep c c' → client_ok c'.
Proof.
  intros Hok Hst. destruct Hst as [n r s s' ow Hn Hrun Hr|r s s' ow Hrun Hr|r o s s' ow Hrun Hr
    |n s s' ow Hn Hrun|r n s s' l1 l2 Hrun|r s s' l1 l2 Hrun]; pose proof Hok as (Hwf & Hout & Hdis).
  - pose proof (alloc_pages_buddy n _ s Hwf Hn (ceil_log2_up n Hn)) as H. rewrite Hrun in H.
    destruct H as [(-> & _)|(pg & -> & Hc)]; [done|]. by eapply client_claim.
  - pose proof (buddy_claim_spec 0 s Hwf ltac:(lia)) as H. unfold pmm_alloc_page in Hrun.
    pose proof Hwf as [Hact _]. cbn [fst] in Hact. rewrite Hact in Hrun. rewrite Hrun in H.
    destruct H as [(-> & _)|(pg & -> & Hc)]; [done|]. by eapply client_claim.
  - pose proof (alloc_block_spec s Hwf) as H. rewrite Hrun in H.
    destruct H as [(? & _)|(o' & pg & Ho & -> & Hc & Hle & _)]; [done|]. injection Ho as <-.
    pose proof (cl_block _ _ _ _ Hc) as (Ho & _). unfold MAX_ORDER in Ho.
    eapply client_claim; [exact Hok|exact Hc| |by rewrite Z.log2_up_pow2 by lia].
    split; [|apply Z.pow_le_mono_r; lia]. assert (0 < 2 ^ o) by lia. lia.
  - pose proof (alloc_pages_buddy n _ s Hwf Hn (ceil_log2_up n Hn)) as H. rewrite Hrun in H.
    destruct H as [(_ & -> & _)|(pg & Hz & Hc)]; [done|]. exfalso.
    apply claimed_page_nonzero in Hc. unfold PMM_PAGE_SIZE in Hz. lia.
  - cbn [fst snd] in *. assert (outstanding s (r, n)) as (Hn & pg & Hpg & Hb & Hset)
      by (rewrite Forall_app, Forall_cons in Hout; tauto). cbn [fst snd] in *.
    pose proof (free_contig_buddy n _ pg s Hwf ltac:(lia) (ceil_log2_up n Hn) Hb Hset) as H.
    rewrite <-Hpg, Hrun in H. destruct H as [Hre _]. by eapply (client_release s s' l1 (r, n)).
  - cbn [fst snd] in *. assert (outstanding s (r, 1)) as (Hn & pg & Hpg & Hb & Hset)
      by (rewrite Forall_app, Forall_cons in Hout; tauto). cbn [fst snd] in *.
    change (Z.log2_up 1) with 0 in *.
    assert (in_block pg 0 pg) as Hin by (by apply in_block_0).
    pose proof (free_page_buddy pg s Hwf (block_ok_page _ _ _ Hb Hin) (Hset _ Hin)) as H.
    rewrite <-Hpg, Hrun in H. by eapply (client_release s s' l1 (r, 1)).
Qed.

Lemma client_steps c c' : client_ok c → csteps c c' → client_ok c'.
Proof. intros Hok Hst. induction Hst; eauto using client_step. Qed.

Lemma client_start s : pmm_wf s → client_ok (s, []).
Proof. intros Hwf. split; [exact Hwf|]. by split; [constructor|]. Qed.

(** ** Claims *)

(** Booting the allocator: whatever the memory map and the kernel image,
    [pmm_init] followed by [pmm_buddy_setup] terminates and leaves a well-formed
    buddy system in which exactly the usable pages outside page 0 and the kernel
    image are free: the free lists, the block orders and the bitmap agree, blocks
    are aligned, disjoint and inside memory. *)
Theorem pmm_boot_free ks ke l :
  Forall entry_sane l →
  returns (pmm_buddy_setup (pmm_init ks ke l pmm_bss)) (λ s, pmm_wf s ∧
    ∀ i, 0 ≤ i < PMM_MAX_PAGES →
      free s i ↔ i ≠ 0 ∧ ¬ kernel_page ks ke i ∧ ∃ e, e ∈ l ∧ entry_page e i).
Proof.
  intros Hl. eapply returns_mono; [apply buddy_setup_spec; by apply init_fresh|].
  intros s (Hwf & Hbm & _). split; [exact Hwf|]. intros i Hi.
  rewrite <-(proj1 (init_spec ks ke l pmm_bss Hl) i Hi). unfold free. by rewrite Hbm.
Qed.

(** Before the buddy system is active, [pmm_alloc_page] finds a free page
    whenever there is one, wherever the search hint points: it returns 0 only if
    every page but page 0 is used, and otherwise a page that was free, whose bit
    (and no other) it sets. *)
Theorem pmm_early_alloc_complete s :
  buddy_active s = false → 0 ≤ last_search_index s ≤ PMM_MAX_PAGES →
  returns (pmm_alloc_page s) (λ '(r, s'),
    (r = 0 ∧ s' = s ∧ ∀ i, 0 < i → ¬ free s i) ∨
    ∃ pg, r = pg * PMM_PAGE_SIZE ∧ handed_out pg s s').
Proof.
  intros Hact Hlast. unfold pmm_alloc_page. rewrite Hact.
  set (fw := last_search_index s / 64).
  assert (0 ≤ fw ≤ BITMAP_WORDS) as Hfw.
  { unfold fw, BITMAP_WORDS, PMM_MAX_PAGES in *. split; [apply Z.div_pos; lia|].
    change 16384 with (1048576 / 64). apply Z.div_le_mono; lia. }
  pose proof (scan_words_spec (Z.to_nat (BITMAP_WORDS - fw)) fw s ltac:(lia) ltac:(lia)) as H1.
  destruct (scan_words _ fw s) as [r s'].
  destruct H1 as [(-> & -> & Hno)|(pg & -> & Hpg)].
  - cbn [Z.eqb negb]. pose proof (scan_words_spec (Z.to_nat fw) 0 s ltac:(lia) ltac:(lia)) as H2.
    destruct (scan_words _ 0 s) as [r2 s2]. cbn [returns].
    destruct H2 as [(-> & -> & Hno2)|H2]; [left|by right].
    split; [done|]. split; [done|]. intros i Hi Hf. pose proof Hf as [Hr _].
    unfold PMM_MAX_PAGES, BITMAP_WORDS in *.
    destruct (decide (i < fw * 64)); [eapply Hno2|eapply Hno]; eauto; lia.
  - rewrite page_addr_nonzero by apply Hpg. cbn [negb returns]. right. by exists pg.
Qed.

(** In buddy mode a request for [n] pages gets an aligned block of
    [2^k >= n] pages with [2^k < 2n], all free before and all (and only they)
    used after, with [used_pages_count] up by [2^k]; it fails only when no free
    block is large enough, and then changes nothing. *)
Theorem pmm_alloc_pages_spec n s :
  pmm_wf s → 1 ≤ n ≤ 2 ^ 31 →
  returns (pmm_alloc_pages n s) (λ '(r, s'), ∃ k, n ≤ 2 ^ k < 2 * n ∧
    ((r = 0 ∧ s' = s ∧ ¬ has_block s k) ∨ ∃ pg, r = pg * PMM_PAGE_SIZE ∧ claimed k pg s s')).
Proof.
  intros Hwf Hn. destruct (ceil_log2_spec n Hn) as (k & Hk & Hr & Hle & Hlt).
  eapply returns_mono; [by apply (alloc_pages_buddy n k)|]. intros [r s'] H. exists k.
  split; [|exact H]. split; [done|]. destruct (decide (k = 0)) as [->|]; [simpl; lia|].
  assert (2 ^ k = 2 * 2 ^ (k - 1)) by (rewrite <-Z.pow_succ_r by lia; f_equal; lia). lia.
Qed.

(** [pmm_alloc_block] hands out a block of the largest order that has one
    and reports that order; it returns 0 only when nothing is free. *)
Theorem pmm_alloc_block_largest s :
  pmm_wf s →
  returns (pmm_alloc_block s) (λ '(r, oo, s'),
    (oo = None ∧ r = 0 ∧ s' = s ∧ ∀ i, ¬ free s i) ∨
    ∃ o pg, oo = Some o ∧ r = pg * PMM_PAGE_SIZE ∧ claimed o pg s s' ∧ ¬ has_block s (o + 1)).
Proof.
  intros Hwf. pose proof Hwf as [_ Hb]. eapply returns_mono; [by apply alloc_block_spec|].
  intros [[r oo] s'] [(H1 & H2 & H3 & H4)|(o & pg & H1 & H2 & H3 & H4 & H5)].
  - left. split_and!; try done. intros i Hi. apply (bd_cover _ _ Hb) in Hi as (p & Hp & _).
    destruct (bd_block _ _ Hb p Hp) as (Ho & _). apply (H4 p _ Ho). lia.
  - right. exists o, pg. split_and!; try done. intros (p & o' & Ho' & Hp). apply (H5 p o'); [lia|done].
Qed.

(** C11: No page is handed out twice: after any sequence of allocations
    ([pmm_alloc_page], [pmm_alloc_pages], [pmm_alloc_block]) and frees of
    outstanding allocations, the outstanding allocations occupy disjoint memory,
    the allocator's invariant holds, and freeing any of them succeeds (no panic). *)
Theorem pmm_trace_safe s s' ow :
  pmm_wf s → csteps (s, []) (s', ow) →
  pmm_wf s' ∧ all_disjoint (region <$> ow) ∧
  (∀ r n, (r, n) ∈ ow → returns (pmm_free_contig r n s') (λ s'', pmm_wf s'')) ∧
  (∀ r, (r, 1) ∈ ow → returns (pmm_free_page r s') (λ s'', pmm_wf s'')).
Proof.
  intros Hwf Hst. destruct (client_steps _ _ (client_start s Hwf) Hst) as (Hwf' & Hout & Hdis).
  cbn [fst snd] in *. split; [done|]. split; [done|]. rewrite Forall_forall in Hout. split.
  - intros r n Hin. destruct (Hout _ Hin) as (Hn & pg & Hpg & Hb & Hset). cbn [fst snd] in *.
    rewrite Hpg. eapply returns_mono;
      [exact (free_contig_buddy n _ pg s' Hwf' ltac:(lia) (ceil_log2_up n Hn) Hb Hset)|].
    intros s'' [Hre _]. apply Hre.
  - intros r Hin. destruct (Hout _ Hin) as (_ & pg & Hpg & Hb & Hset). cbn [fst snd] in *.
    change (Z.log2_up 1) with 0 in *.
    assert (in_block pg 0 pg) as Hi by (by apply in_block_0). rewrite Hpg.
    eapply returns_mono; [apply (free_page_buddy pg s' Hwf' (block_ok_page _ _ _ Hb Hi) (Hset _ Hi))|].
    intros s'' Hre. apply Hre.
Qed.

Lemma free_page_rounds phys s :
  0 < phys / PMM_PAGE_SIZE → pmm_free_page phys s = pmm_free_page (phys / PMM_PAGE_SIZE * PMM_PAGE_SIZE) s.
Proof.
  intros Hp. unfold pmm_free_page. rewrite page_addr_nonzero, Z.div_mul by done.
  rewrite (proj2 (Z.eqb_neq phys 0)); [done|]. intros ->. done.
Qed.

(** C38: [pmm_free_page] detects every double free: freeing a page that is free
    panics, freeing one that is used makes exactly that page free and keeps the
    invariant, coalescing included. *)
Theorem pmm_free_page_checked phys s (pg := phys / PMM_PAGE_SIZE) :
  pmm_wf s → 0 < pg < PMM_MAX_PAGES →
  (free s pg → pmm_free_page phys s = Panic) ∧
  (¬ free s pg → returns (pmm_free_page phys s) (λ s', pmm_wf s' ∧ ∀ i, free s' i ↔ free s i ∨ i = pg)).
Proof.
  intros Hwf Hpg. rewrite free_page_rounds by apply Hpg. fold pg. split.
  - intros [_ Hf]. unfold pmm_free_page. rewrite page_addr_nonzero, Z.div_mul by done || lia.
    rewrite (proj2 (Z.leb_gt _ _)), Hf by lia. done.
  - intros Hnf. eapply returns_mono; [apply free_page_buddy; [done..|]|].
    + destruct (bitmap_test pg (bitmap s)) eqn:Hb; [done|]. exfalso. apply Hnf. split; [lia|done].
    + intros s' [H1 H2 _]. split; [done|]. intros i. by rewrite H1, in_block_0.
Qed.

(** Round trip: freeing what [pmm_alloc_pages] returned, with the same page
    count, restores the set of free pages and the count of used ones. *)
Theorem pmm_alloc_free_roundtrip n s :
  pmm_wf s → 1 ≤ n ≤ 2 ^ 31 → 0 ≤ used_pages_count s ≤ PMM_MAX_PAGES →
  returns (pmm_alloc_pages n s) (λ '(r, s'), r ≠ 0 →
    returns (pmm_free_contig r n s') (λ s'', pmm_wf s'' ∧ (∀ i, free s'' i ↔ free s i) ∧
      used_pages_count s'' = used_pages_count s)).
Proof.
  intros Hwf Hn Hu. eapply returns_mono; [by apply (alloc_pages_buddy n _ s Hwf Hn (ceil_log2_up n Hn))|].
  intros [r s'] [(-> & _)|(pg & -> & Hc)] Hr; [done|].
  pose proof (cl_block _ _ _ _ Hc) as Hb. pose proof Hb as (Ho & _).
  eapply returns_mono; [apply (free_contig_buddy n _ pg s' (cl_wf _ _ _ _ Hc) ltac:(lia) (ceil_log2_up n Hn) Hb)|].
  - intros i Hi. destruct (bitmap_test i _) eqn:Ht; [done|]. exfalso.
    assert (free s' i) as Hf.
    { pose proof (block_ok_page _ _ _ Hb Hi). split; [lia|done]. }
    apply (cl_now _ _ _ _ Hc) in Hf. tauto.
  - intros s'' [Hre Hu']. split; [apply Hre|]. split.
    + intros i. rewrite (re_now _ _ _ _ Hre), (cl_now _ _ _ _ Hc).
      pose proof (cl_was _ _ _ _ Hc i). destruct (decide (in_block pg (Z.log2_up n) i)); tauto.
    + rewrite Hu', (cl_used _ _ _ _ Hc). unfold MAX_ORDER, PMM_MAX_PAGES in *.
      assert (2 ^ Z.log2_up n ≤ 2 ^ 20) by (apply Z.pow_le_mono_r; lia).
      rewrite u64_id by lia. rewrite (proj2 (Z.leb_le _ _)); lia.
Qed.

(** ** A page handed out twice *)

(** All memory used; and the same with pages 8 and 9 freed. *)
Definition pmm_full : pmm :=
  Pmm (λ _, 2 ^ 64 - 1) (λ _, 0) (for_up (MAX_ORDER + 1) (λ i k, fl_init (Head i) k) (Links id id))
    true 100 100 0.

Lemma pmm_full_bits i : bitmap_test i (bitmap pmm_full) = true.
Proof.
  rewrite bitmap_test_bit. cbn [pmm_full bitmap]. change (2 ^ 64 - 1) with (Z.ones 64).
  apply Z.ones_spec_low. apply Z.mod_pos_bound. lia.
Qed.

Lemma pmm_full_wf : pmm_wf pmm_full.
Proof.
  split; [done|]. split.
  - intros o Ho. exists []. split; [by apply fl_init_all|]. intros p. cbn [pmm_full page_blk_order].
    split; [intros Hp; by apply not_elem_of_nil in Hp|lia].
  - intros p Hp. done.
  - intros p q i [Hp _]. done.
  - intros i. split; [intros [_ Hf]; by rewrite pmm_full_bits in Hf|intros (p & Hp & _); by destruct Hp].
Qed.

Definition free_or_keep phys s : pmm := match pmm_free_page phys s with Ret s' => s' | _ => s end.
Definition pmm_one : pmm := free_or_keep 0x8000 pmm_full.
Definition pmm_two : pmm := free_or_keep 0x9000 pmm_one.

Lemma pmm_one_wf : pmm_wf pmm_one ∧ ∀ i, free pmm_one i ↔ i = 8.
Proof.
  pose proof (free_page_buddy 8 pmm_full pmm_full_wf ltac:(done) (pmm_full_bits 8)) as H.
  apply returns_Ret in H as (s & Hs & [H1 H2 _]).
  unfold pmm_one, free_or_keep. change 0x8000 with (8 * PMM_PAGE_SIZE). rewrite Hs.
  split; [done|]. intros i. rewrite H1, in_block_0. split; [|tauto].
  intros [[_ Hf]|]; [by rewrite pmm_full_bits in Hf|done].
Qed.

Lemma pmm_two_wf : pmm_wf pmm_two ∧ ∀ i, free pmm_two i ↔ i = 8 ∨ i = 9.
Proof.
  destruct pmm_one_wf as [Hwf Hf].
  pose proof (free_page_buddy 9 pmm_one Hwf ltac:(done)) as H.
  destruct (bitmap_test 9 (bitmap pmm_one)) eqn:Hb.
  - specialize (H eq_refl). apply returns_Ret in H as (s & Hs & [H1 H2 _]).
    unfold pmm_two, free_or_keep. change 0x9000 with (9 * PMM_PAGE_SIZE). rewrite Hs.
    split; [done|]. intros i. by rewrite H1, Hf, in_block_0.
  - exfalso. assert (free pmm_one 9) as H9 by done. by apply Hf in H9.
Qed.

Lemma below_loop_spec n idx s :
  0 < idx → idx + Z.of_nat n ≤ PMM_MAX_PAGES →
  let '(r, s') := below_loop n idx s in
  (r = 0 ∧ s' = s) ∨ ∃ pg, r = pg * PMM_PAGE_SIZE ∧ free s pg ∧
    page_blk_order s' = page_blk_order s ∧ bitmap_test pg (bitmap s') = true.
Proof.
  revert idx. induction n as [|n IH]; intros idx Hi Hn; cbn [below_loop]; [by left|].
  destruct (bitmap_test idx (bitmap s)) eqn:Hb; [apply IH; lia|].
  right. exists idx. split; [done|]. split; [split; [lia|done]|]. split; [done|].
  cbn [with_used with_bitmap bitmap]. rewrite bitmap_test_set, bool_decide_true by done. done.
Qed.

Lemma alloc_page_below_breaks limit s a s1 :
  pmm_wf s → pmm_alloc_page_below limit s = (a, s1) → a ≠ 0 → ¬ pmm_wf s1.
Proof.
  intros [_ Hb] Hrun Ha [_ Hb1]. unfold pmm_alloc_page_below in Hrun.
  match type of Hrun with below_loop ?n _ _ = _ =>
    pose proof (below_loop_spec n 1 s ltac:(lia)) as Hspec end.
  rewrite Hrun in Hspec.
  destruct Hspec as [[? _]|(pg & _ & Hf & Hblk & Hset)]; [|done|].
  { destruct (Z.ltb_spec PMM_MAX_PAGES (limit / PMM_PAGE_SIZE)); unfold PMM_MAX_PAGES in *; lia. }
  apply (bd_cover _ _ Hb) in Hf. rewrite <-Hblk in Hf.
  apply (bd_cover _ _ Hb1) in Hf as [_ Hf]. congruence.
Qed.

(** [pmm_alloc_page_below] sets the page's bit but leaves it in the buddy
    free lists: every page it hands out in buddy mode breaks the invariant the
    file states (a clear bit iff a free block), and the page is handed out again:
    with pages 8 and 9 free, [pmm_alloc_page_below(1 MiB)] and the next
    [pmm_alloc_page] return the same address. *)
Theorem pmm_alloc_page_below_double_allocates :
  (∀ limit s a s1, pmm_wf s → pmm_alloc_page_below limit s = (a, s1) → a ≠ 0 → ¬ pmm_wf s1) ∧
  pmm_wf pmm_two ∧
  ∃ s1 s2, pmm_alloc_page_below 0x100000 pmm_two = (0x8000, s1) ∧
    pmm_alloc_page s1 = Ret (0x8000, s2).
Proof.
  split; [exact alloc_page_below_breaks|]. split; [apply pmm_two_wf|].
  pose (r := pmm_alloc_page_below 0x100000 pmm_two).
  exists r.2, (match pmm_alloc_page r.2 with Ret x => x.2 | _ => pmm_full end).
  assert (r.1 = 0x8000) as H1 by (vm_compute; reflexivity).
  assert (match pmm_alloc_page r.2 with Ret x => x.1 | _ => 0 end = 0x8000) as H2
    by (vm_compute; reflexivity).
  split; [rewrite <-H1; apply surjective_pairing|]. clearbody r.
  destruct (pmm_alloc_page r.2) as [[x y]| |]; cbn [fst snd] in *; congruence.
Qed.

(** ** Witnesses *)

Definition map1 : list mmap_entry :=
  [MmapEntry 0x100000 0x400000 1; MmapEntry 0x600000 0x1000 2].

Lemma pmm_boot_free_witness :
  Forall entry_sane map1 ∧
  returns (pmm_buddy_setup (pmm_init 0x100000 0x180000 map1 pmm_bss)) (λ s, pmm_wf s ∧ free s 0x300).
Proof.
  assert (Forall entry_sane map1) as H by (repeat constructor; done).
  split; [exact H|]. eapply returns_mono; [exact (pmm_boot_free 0x100000 0x180000 map1 H)|].
  intros s [Hwf Hf]. split; [exact Hwf|]. apply Hf; [done|]. split; [done|].
  split; [intros [_ Hk]; by vm_compute in Hk|].
  exists (MmapEntry 0x100000 0x400000 1). split; [left|done].
Defined.

Definition pmm_early : pmm := Pmm (λ _, 0) (λ _, 0) (Links id id) false 1048575 0 70.

Lemma pmm_early_alloc_complete_witness :
  returns (pmm_alloc_page pmm_early) (λ '(r, s'), ∃ pg, r = pg * PMM_PAGE_SIZE ∧ handed_out pg pmm_early s').
Proof.
  eapply returns_mono; [exact (pmm_early_alloc_complete pmm_early eq_refl ltac:(by vm_compute))|].
  intros [r s'] [(_ & _ & Hno)|H]; [|exact H]. exfalso. apply (Hno 1); [lia|]. split; done.
Defined.

Lemma pmm_alloc_pages_spec_witness :
  returns (pmm_alloc_pages 2 pmm_two) (λ '(r, s'), ∃ k, 2 ≤ 2 ^ k < 4 ∧
    ((r = 0 ∧ s' = pmm_two ∧ ¬ has_block pmm_two k) ∨
     ∃ pg, r = pg * PMM_PAGE_SIZE ∧ claimed k pg pmm_two s')).
Proof. exact (pmm_alloc_pages_spec 2 pmm_two (proj1 pmm_two_wf) ltac:(lia)). Defined.

Lemma pmm_alloc_block_largest_witness :
  returns (pmm_alloc_block pmm_two) (λ '(r, oo, s'), ∃ o pg, oo = Some o ∧
    r = pg * PMM_PAGE_SIZE ∧ claimed o pg pmm_two s').
Proof.
  eapply returns_mono; [exact (pmm_alloc_block_largest pmm_two (proj1 pmm_two_wf))|].
  intros [[r oo] s'] [(_ & _ & _ & Hno)|(o & pg & H1 & H2 & H3 & _)].
  - exfalso. apply (Hno 8). apply pmm_two_wf. by left.
  - exists o, pg. done.
Defined.

(** The trace that takes a page of the two. *)
Definition pmm_two_next : pmm := match pmm_alloc_page pmm_two with Ret x => x.2 | _ => pmm_two end.

Lemma pmm_two_alloc : pmm_alloc_page pmm_two = Ret (0x8000, pmm_two_next).
Proof.
  assert (match pmm_alloc_page pmm_two with Ret x => x.1 | _ => 0 end = 0x8000) as H
    by (vm_compute; reflexivity).
  unfold pmm_two_next. destruct (pmm_alloc_page pmm_two) as [[x y]| |]; [|done..].
  cbn [fst snd] in *. congruence.
Qed.

Lemma pmm_trace_safe_witness :
  csteps (pmm_two, []) (pmm_two_next, [(0x8000, 1)]) ∧ pmm_wf pmm_two_next ∧
  returns (pmm_free_page 0x8000 pmm_two_next) (λ s, pmm_wf s).
Proof.
  assert (csteps (pmm_two, []) (pmm_two_next, [(0x8000, 1)])) as Hst.
  { apply rt_step, step_alloc_page; [exact pmm_two_alloc|done]. }
  destruct (pmm_trace_safe pmm_two pmm_two_next _ (proj1 pmm_two_wf) Hst) as (Hwf & _ & _ & Hfree).
  split; [exact Hst|]. split; [exact Hwf|]. apply Hfree. left.
Defined.

Lemma pmm_free_page_checked_witness :
  pmm_free_page 0x8000 pmm_one = Panic ∧
  returns (pmm_free_page 0x9000 pmm_one) (λ s', pmm_wf s' ∧ ∀ i, free s' i ↔ free pmm_one i ∨ i = 9).
Proof.
  destruct pmm_one_wf as [Hwf Hf]. split.
  - apply (proj1 (pmm_free_page_checked 0x8000 pmm_one Hwf ltac:(done))). by apply Hf.
  - apply (proj2 (pmm_free_page_checked 0x9000 pmm_one Hwf ltac:(done))). intros H. by apply Hf in H.
Defined.

Lemma pmm_alloc_free_roundtrip_witness :
  returns (pmm_alloc_pages 2 pmm_two) (λ '(r, s'), r ≠ 0 →
    returns (pmm_free_contig r 2 s') (λ s'', pmm_wf s'' ∧ (∀ i, free s'' i ↔ free pmm_two i) ∧
      used_pages_count s'' = used_pages_count pmm_two)).
Proof.
  exact (pmm_alloc_free_roundtrip 2 pmm_two (proj1 pmm_two_wf) ltac:(lia)
    ltac:(assert (used_pages_count pmm_two = 98) as -> by (vm_compute; reflexivity); done)).
Defined.
