(* ===== verification/Ring.v ===== *)
(** * Ring buffers

    The list a ring buffer represents: [count] entries from index [head], modulo
    the size of the array.  Shared by the replenishment queue of a scheduling
    context and the kernel log. *)

From Stdlib Require Import ZArith Lia.
From stdpp Require Import base numbers gmap list.
From S2P Require Import Prelude.
Local Open Scope Z_scope.

Section ring.
Context {A : Type}.
Implicit Types (f : Z → A) (x : A) (max head count i j : Z).

Definition ring_view f max head count : list A :=
  (λ i, f ((head + i) mod max)) <$> seqZ 0 count.

Lemma ring_view_length f max head count :
  0 ≤ count → Z.of_nat (length (ring_view f max head count)) = count.
Proof. intros. unfold ring_view. rewrite length_fmap, length_seqZ. lia. Qed.

Lemma ring_view_nil f max head : ring_view f max head 0 = [].
Proof. done. Qed.

Lemma mod_add_inj max head i j :
  0 < max → 0 ≤ i < max → 0 ≤ j < max → (head + i) mod max = (head + j) mod max → i = j.
Proof.
  intros Hm Hi Hj Heq.
  assert ((i - j) mod max = 0) as H.
  { replace (i - j) with ((head + i) - (head + j)) by lia.
    rewrite Zminus_mod, Heq, Z.sub_diag. apply Zmod_0_l. }
  apply Z.mod_divide in H as [q Hq]; [|lia]. assert (q = 0) as -> by nia. lia.
Qed.

(** Writing one entry past the end appends it. *)
Lemma ring_view_push f max head count x :
  0 < max → 0 ≤ count < max →
  ring_view (upd_fn f ((head + count) mod max) x) max head (count + 1) =
    ring_view f max head count ++ [x].
Proof.
  intros Hm Hc. unfold ring_view. rewrite seqZ_app by lia. rewrite fmap_app. f_equal.
  - apply list_fmap_ext. intros k i Hi. unfold upd_fn. rewrite decide_False; [done|].
    apply lookup_seqZ in Hi as [-> Hk]. intros Heq.
    apply mod_add_inj in Heq; lia.
  - rewrite seqZ_cons by lia. rewrite (seqZ_nil) by lia. cbn [fmap list_fmap map].
    rewrite Z.add_0_l. unfold upd_fn. by rewrite decide_True.
Qed.

(** The entry at [head] is the first. *)
Lemma ring_view_pop f max head count :
  0 < max → 0 ≤ head < max → 0 < count →
  ring_view f max head count = f head :: ring_view f max ((head + 1) mod max) (count - 1).
Proof.
  intros Hm Hh Hc. unfold ring_view. rewrite (seqZ_cons 0 count) by lia. rewrite fmap_cons.
  f_equal; [by rewrite Z.add_0_r, Z.mod_small|].
  rewrite <-(fmap_add_seqZ 1 0), <-list_fmap_compose, Z.sub_1_r. apply list_fmap_ext. intros k i _. simpl.
  rewrite Zplus_mod_idemp_l. do 2 f_equal. lia.
Qed.

(** Overwriting the newest entry. *)
Lemma ring_view_last f max head count x :
  0 < max → 0 < count ≤ max →
  ring_view (upd_fn f ((head + count - 1) mod max) x) max head count =
    ring_view f max head (count - 1) ++ [x].
Proof.
  intros Hm Hc. replace count with (count - 1 + 1) at 2 by lia.
  replace (head + count - 1) with (head + (count - 1)) by lia. apply ring_view_push; lia.
Qed.

Lemma ring_view_snoc f max head count :
  0 < count →
  ring_view f max head count =
    ring_view f max head (count - 1) ++ [f ((head + count - 1) mod max)].
Proof.
  intros Hc. unfold ring_view. replace count with (count - 1 + 1) at 1 by lia.
  rewrite seqZ_app by lia. rewrite fmap_app. f_equal.
  rewrite seqZ_cons, seqZ_nil by lia. cbn [fmap list_fmap map]. do 3 f_equal. lia.
Qed.
End ring.
