(* ===== verification/Kschedctx.v ===== *)
(** * Scheduling contexts (kernel/new_core/src/kschedctx.c)

    A scheduling context is a budget of ticks per period and the replenishments
    that give spent ticks back one period after they were spent.  Every function
    that touches the replenishment state holds [sc->lock] throughout, so each is
    one step.  The [struct KObject] header is modelled in [Kobject.v]; the array
    [refills[]] is a function from index to entry. *)

From Stdlib Require Import ZArith Lia.
From stdpp Require Import base numbers gmap list.
From S2P Require Import Prelude Rights Ring.
Local Open Scope Z_scope.

Definition KSCHEDCTX_REFILL_DEFAULT : Z := 8.
Definition KSCHEDCTX_REFILL_LIMIT : Z := 64.

Record KRefill := Refill { r_at : Z; r_amount : Z }.

Record KSchedContext := SC {
  budget_ticks     : Z;
  period_ticks     : Z;
  remaining_budget : Z;
  bound_task       : option N;
  configured       : bool;
  refill_max       : Z;
  refill_head      : Z;
  refill_count     : Z;
  consumed_run     : Z;
  consume_start    : Z;
  consumed_total   : Z;
  refills          : Z → KRefill;
}.
Implicit Types sc : KSchedContext.

Definition with_remaining v sc := SC (budget_ticks sc) (period_ticks sc) v (bound_task sc)
  (configured sc) (refill_max sc) (refill_head sc) (refill_count sc) (consumed_run sc)
  (consume_start sc) (consumed_total sc) (refills sc).
Definition with_bound v sc := SC (budget_ticks sc) (period_ticks sc) (remaining_budget sc) v
  (configured sc) (refill_max sc) (refill_head sc) (refill_count sc) (consumed_run sc)
  (consume_start sc) (consumed_total sc) (refills sc).
Definition with_ring h c f sc := SC (budget_ticks sc) (period_ticks sc) (remaining_budget sc)
  (bound_task sc) (configured sc) (refill_max sc) h c (consumed_run sc)
  (consume_start sc) (consumed_total sc) f.
Definition with_run r st sc := SC (budget_ticks sc) (period_ticks sc) (remaining_budget sc)
  (bound_task sc) (configured sc) (refill_max sc) (refill_head sc) (refill_count sc) r st
  (consumed_total sc) (refills sc).
Definition with_consumed v sc := SC (budget_ticks sc) (period_ticks sc) (remaining_budget sc)
  (bound_task sc) (configured sc) (refill_max sc) (refill_head sc) (refill_count sc)
  (consumed_run sc) (consume_start sc) v (refills sc).
Definition with_config b p sc := SC b p (remaining_budget sc) (bound_task sc) true
  (refill_max sc) (refill_head sc) (refill_count sc) (consumed_run sc) (consume_start sc)
  (consumed_total sc) (refills sc).

(** ** Construction and configuration *)

(** The object counters of the file. *)
Record sc_stats := ScStats { sc_live : Z; sc_hwm : Z; sc_retyped : Z; sc_destroyed : Z }.

(** The compare-exchange loop raises the high-water mark to [n] if it is lower. *)
Definition kschedctx_live_inc (st : sc_stats) : sc_stats :=
  let n := u32 (sc_live st + 1) in
  ScStats n (if sc_hwm st <? n then n else sc_hwm st) (u32 (sc_retyped st + 1)) (sc_destroyed st).

(** [mem] is what the storage held: a field the function does not write keeps
    its value. *)
Definition kschedctx_alloc_at (mem : option KSchedContext) (refill_max : Z) (st : sc_stats)
  : option KSchedContext * sc_stats :=
  match mem with
  | None => (None, st)
  | Some old =>
    let refill_max := if refill_max =? 0 then KSCHEDCTX_REFILL_DEFAULT else refill_max in
    (Some (SC 0 0 0 None false refill_max 0 0 0 0 (consumed_total old) (refills old)),
     kschedctx_live_inc st)
  end.

(** The counters of the destructor; the storage goes back to its Untyped
    ([kuntyped_release_child], modelled in [Kuntyped.v]). *)
Definition kschedctx_obj_destroy_ut (st : sc_stats) : sc_stats :=
  ScStats (u32 (sc_live st - 1)) (sc_hwm st) (sc_retyped st) (u32 (sc_destroyed st + 1)).

Definition kschedctx_refill_reset_locked sc : KSchedContext :=
  with_run 0 0 (with_ring 0 0 (refills sc) sc).

Definition kschedctx_configure (budget period : Z) sc : iris_error_t * KSchedContext :=
  if (budget =? 0) || (period =? 0) || (period <? budget) then (IRIS_ERR_INVALID_ARG, sc) else
  (IRIS_OK, kschedctx_refill_reset_locked (with_remaining budget (with_config budget period sc))).

Definition kschedctx_bind (t : option N) sc : iris_error_t * KSchedContext :=
  match t with
  | None => (IRIS_ERR_INVALID_ARG, sc)
  | Some t =>
    match bound_task sc with
    | Some b => if decide (b = t) then (IRIS_OK, with_bound (Some t) sc) else (IRIS_ERR_BUSY, sc)
    | None => (IRIS_OK, with_bound (Some t) sc)
    end
  end.

Definition kschedctx_unbind (t : option N) sc : KSchedContext :=
  if decide (bound_task sc = t) then with_bound None sc
  else match t with None => with_bound None sc | Some _ => sc end.

(** ** Sporadic replenishment *)

Definition kschedctx_refill_reset sc : KSchedContext := kschedctx_refill_reset_locked sc.

Definition kschedctx_charge_tick (now : Z) sc : bool * KSchedContext :=
  let sc :=
    if 0 <? remaining_budget sc then
      let sc := if consumed_run sc =? 0 then with_run (consumed_run sc) now sc else sc in
      let sc := with_remaining (remaining_budget sc - 1) sc in
      with_run (u64 (consumed_run sc + 1)) (consume_start sc) sc
    else sc in
  (remaining_budget sc =? 0, sc).

Definition kschedctx_has_refill sc : bool := 0 <? refill_count sc.

Definition kschedctx_flush_run sc : KSchedContext :=
  if consumed_run sc =? 0 then sc else
  let due := u64 (consume_start sc + period_ticks sc) in
  let amt := consumed_run sc in
  let sc := with_run 0 0 sc in
  let sc := with_consumed (u64 (consumed_total sc + amt)) sc in
  if refill_count sc <? refill_max sc then
    let idx := u32 (refill_head sc + refill_count sc) mod refill_max sc in
    with_ring (refill_head sc) (u32 (refill_count sc + 1))
      (upd_fn (refills sc) idx (Refill due amt)) sc
  else
    let last := u32 (refill_head sc + refill_count sc - 1) mod refill_max sc in
    let e := refills sc last in
    let at' := if r_at e <? due then due else r_at e in
    with_ring (refill_head sc) (refill_count sc)
      (upd_fn (refills sc) last (Refill at' (u64 (r_amount e + amt)))) sc.

(** The [while (refill_count > 0 && refills[head].at <= now)] loop; [n] is
    [refill_count]. *)
Fixpoint apply_loop (n : nat) (now : Z) (gained : bool) sc : bool * KSchedContext :=
  match n with
  | O => (gained, sc)
  | S n =>
    if r_at (refills sc (refill_head sc)) <=? now then
      let sc := with_remaining (u64 (remaining_budget sc + r_amount (refills sc (refill_head sc)))) sc in
      let sc := with_ring (u32 (refill_head sc + 1) mod refill_max sc) (refill_count sc - 1) (refills sc) sc in
      apply_loop n now true sc
    else (gained, sc)
  end.

Definition kschedctx_apply_refills (now : Z) sc : bool * KSchedContext :=
  let '(gained, sc) := apply_loop (Z.to_nat (refill_count sc)) now false sc in
  let sc := if budget_ticks sc <? remaining_budget sc then with_remaining (budget_ticks sc) sc else sc in
  (gained, sc).

(** ** Callers in the system-call layer (kernel/core/syscall/syscall_sched.c) *)

(** The part of [sys_sc_bind] and [sys_thread_set_sc] that gives a fresh binding
    the whole budget. *)
Definition sc_fresh_binding sc : KSchedContext :=
  kschedctx_refill_reset (with_remaining (budget_ticks sc) sc).

(** The locked part of [sys_sc_consumed]: what was spent, and the counters it
    resets. *)
Definition sc_consumed (now : Z) sc : Z * KSchedContext :=
  let spent := u64 (consumed_total sc + consumed_run sc) in
  let sc := with_consumed 0 sc in
  let sc := with_run 0 (consume_start sc) sc in
  let sc := if consume_start sc =? 0 then sc else with_run (consumed_run sc) now sc in
  (spent, sc).

(** ** The invariant *)

(** The pending replenishments, oldest first. *)
Definition pending sc : list KRefill :=
  ring_view (refills sc) (refill_max sc) (refill_head sc) (refill_count sc).

Definition total (l : list KRefill) : Z := foldr (λ r n, r_amount r + n) 0 l.

Lemma total_app l1 l2 : total (l1 ++ l2) = total l1 + total l2.
Proof. induction l1 as [|r l1 IH]; simpl; [done|]. unfold total in *. simpl. lia. Qed.

(** What the context is worth: ticks available, ticks of the current run, and
    ticks on their way back. *)
Definition worth sc : Z := remaining_budget sc + consumed_run sc + total (pending sc).

Record sc_ok sc : Prop := ScOk {
  so_ring   : 0 < refill_max sc < 2 ^ 16 ∧ 0 ≤ refill_head sc < refill_max sc ∧
              0 ≤ refill_count sc ≤ refill_max sc;
  so_config : 0 < budget_ticks sc ≤ period_ticks sc ∧ period_ticks sc < 2 ^ 63;
  so_parts  : 0 ≤ remaining_budget sc ∧ 0 ≤ consumed_run sc ∧
              Forall (λ r, 0 ≤ r_amount r) (pending sc);
  so_worth  : worth sc ≤ budget_ticks sc;
}.

Lemma total_nonneg l : Forall (λ r, 0 ≤ r_amount r) l → 0 ≤ total l.
Proof. induction 1; simpl; [done|]. unfold total in *. simpl. lia. Qed.

Lemma sc_ok_bounds sc : sc_ok sc →
  remaining_budget sc < 2 ^ 63 ∧ consumed_run sc < 2 ^ 63 ∧ 0 ≤ total (pending sc) < 2 ^ 63.
Proof.
  intros [_ [H1 H2] (H3 & H4 & H5) H6]. apply total_nonneg in H5. unfold worth in H6. lia.
Qed.

(** ** What each operation does to the queue of replenishments *)

(** A new replenishment goes to the end; a full queue merges it into the newest
    entry, which keeps the later of the two due times. *)
Definition merge_refill (e r : KRefill) : KRefill :=
  Refill (Z.max (r_at e) (r_at r)) (r_amount e + r_amount r).
Inductive queued (max : Z) (r : KRefill) : list KRefill → list KRefill → Prop :=
  | queued_push l : Z.of_nat (length l) < max → queued max r l (l ++ [r])
  | queued_merge l e : Z.of_nat (length (l ++ [e])) = max →
      queued max r (l ++ [e]) (l ++ [merge_refill e r]).

Lemma queued_total max r l l' : queued max r l l' → total l' = total l + r_amount r.
Proof. intros []; rewrite !total_app; unfold total; simpl; lia. Qed.

(** Everything due by [now] at the front of the queue. *)
Inductive taken (now : Z) : list KRefill → list KRefill → list KRefill → Prop :=
  | taken_nil : taken now [] [] []
  | taken_stop r l : now < r_at r → taken now (r :: l) [] (r :: l)
  | taken_due r l d l' : r_at r ≤ now → taken now l d l' → taken now (r :: l) (r :: d) l'.

Lemma taken_app now l d l' : taken now l d l' → l = d ++ l'.
Proof. induction 1; simpl; congruence. Qed.

Lemma taken_forall now l d l' : taken now l d l' → Forall (λ r, r_at r ≤ now) d.
Proof. induction 1; constructor; done. Qed.

Lemma charge_idle now sc : remaining_budget sc = 0 → kschedctx_charge_tick now sc = (true, sc).
Proof. intros H. unfold kschedctx_charge_tick. rewrite H. simpl. by rewrite H. Qed.

Lemma charge_spec now sc :
  sc_ok sc → 0 < remaining_budget sc →
  ∃ sc', kschedctx_charge_tick now sc = (bool_decide (remaining_budget sc = 1), sc') ∧
    sc_ok sc' ∧ worth sc' = worth sc ∧ pending sc' = pending sc ∧
    remaining_budget sc' = remaining_budget sc - 1 ∧ consumed_run sc' = consumed_run sc + 1 ∧
    consume_start sc' = (if decide (consumed_run sc = 0) then now else consume_start sc) ∧
    budget_ticks sc' = budget_ticks sc ∧ period_ticks sc' = period_ticks sc.
Proof.
  intros Hok Hr. pose proof (sc_ok_bounds _ Hok) as (B1 & B2 & B3). destruct Hok as [H1 H2 (H3 & H3' & H3'') H4].
  unfold kschedctx_charge_tick. rewrite (proj2 (Z.ltb_lt _ _)) by done.
  exists (with_run (consumed_run sc + 1) (if decide (consumed_run sc = 0) then now else consume_start sc)
    (with_remaining (remaining_budget sc - 1) sc)).
  split; [|split].
  - case_decide as Hc; [rewrite Hc|rewrite (proj2 (Z.eqb_neq _ _) Hc)]; simpl;
      rewrite ?Hc, u64_id by lia; f_equal; case_bool_decide;
      first [apply Z.eqb_eq; lia|apply Z.eqb_neq; lia].
  - unfold worth, pending in *. split; unfold worth, pending; simpl; split_and?; try done; lia.
  - unfold worth, pending. simpl. split_and!; try done. lia.
Qed.

Lemma flush_idle sc : consumed_run sc = 0 → kschedctx_flush_run sc = sc.
Proof. intros H. unfold kschedctx_flush_run. by rewrite H. Qed.

Lemma flush_spec sc (sc' := kschedctx_flush_run sc) :
  sc_ok sc → 0 < consumed_run sc → 0 ≤ consume_start sc < 2 ^ 63 →
  queued (refill_max sc) (Refill (consume_start sc + period_ticks sc) (consumed_run sc))
    (pending sc) (pending sc') ∧
  sc_ok sc' ∧ worth sc' = worth sc ∧ remaining_budget sc' = remaining_budget sc ∧
  consumed_run sc' = 0 ∧ budget_ticks sc' = budget_ticks sc ∧ period_ticks sc' = period_ticks sc ∧
  kschedctx_has_refill sc' = true.
Proof.
  intros Hok Hr Hst. pose proof (sc_ok_bounds _ Hok) as (B1 & B2 & B3). destruct Hok as [(H1 & H2 & H3) [H4 H5] (H6 & H7 & H8) H9].
  subst sc'. unfold kschedctx_flush_run. rewrite (proj2 (Z.eqb_neq (consumed_run sc) 0)) by lia.
  cbn [with_run with_consumed refill_count refill_max refill_head refills period_ticks consume_start consumed_run].
  rewrite (u64_id (consume_start sc + _)) by lia. set (sc' := if _ <? _ then _ else _).
  set (r := Refill (consume_start sc + period_ticks sc) (consumed_run sc)) in *.
  assert (Z.of_nat (length (pending sc)) = refill_count sc) as Hlen by (apply ring_view_length; lia).
  assert (queued (refill_max sc) r (pending sc) (pending sc') ∧ 0 < refill_count sc' ≤ refill_max sc) as [Hq Hcnt].
  { unfold sc'. destruct (Z.ltb_spec (refill_count sc) (refill_max sc)) as [Hlt|Hge].
    - rewrite (u32_id (refill_head sc + _)), (u32_id (refill_count sc + _)) by lia.
      split; [|simpl; lia]. unfold pending at 2. cbn [with_ring with_consumed with_run refills refill_max refill_head refill_count].
      rewrite ring_view_push by lia. fold (pending sc). constructor. lia.
    - assert (refill_count sc = refill_max sc) as Hfull by lia.
      rewrite (u32_id (refill_head sc + _ - 1)) by lia. split; [|simpl; lia].
      unfold pending. cbn [with_ring with_consumed with_run refills refill_max refill_head refill_count].
      rewrite ring_view_last by lia. rewrite ring_view_snoc by lia.
      set (e := refills sc _). set (l := ring_view _ _ _ _).
      assert (pending sc = l ++ [e]) as Hp by (apply ring_view_snoc; lia).
      assert (r_amount e ≤ total (pending sc)) as He.
      { rewrite Hp in H8 |- *. apply Forall_app in H8 as [H8 _]. apply total_nonneg in H8.
        rewrite total_app. unfold total at 2. simpl. lia. }
      assert (0 ≤ r_amount e) as He0.
      { rewrite Hp in H8. apply Forall_app in H8 as [_ H8]. by inversion H8. }
      rewrite u64_id by (unfold worth in H9; lia).
      replace (if r_at e <? _ then _ else _) with (Z.max (r_at e) (consume_start sc + period_ticks sc))
        by (destruct (Z.ltb_spec (r_at e) (consume_start sc + period_ticks sc)); lia).
      apply (queued_merge (refill_max sc) r). rewrite <-Hp. lia. }
  split; [done|]. pose proof (queued_total _ _ _ _ Hq) as Htot.
  assert (Forall (λ r, 0 ≤ r_amount r) (pending sc')) as Hall.
  { destruct Hq as [l Hl|l e Hl].
    - apply Forall_app. split; [done|]. by apply Forall_singleton.
    - apply Forall_app in H8 as [H8 He]. rewrite Forall_singleton in He.
      apply Forall_app. split; [done|]. apply Forall_singleton. unfold r. simpl. lia. }
  assert (remaining_budget sc' = remaining_budget sc ∧ consumed_run sc' = 0 ∧ budget_ticks sc' = budget_ticks sc ∧
    period_ticks sc' = period_ticks sc ∧ refill_max sc' = refill_max sc ∧ refill_head sc' = refill_head sc)
    as (E1 & E2 & E3 & E4 & E5 & E6) by (unfold sc'; by destruct (_ <? _)).
  assert (worth sc' = worth sc) as Hw by (unfold worth; rewrite E1, E2, Htot; simpl; lia).
  split_and!; try done.
  - split; rewrite ?Hw, ?E1, ?E2, ?E3, ?E4, ?E5, ?E6; split_and?; try done; lia.
  - unfold kschedctx_has_refill. apply Z.ltb_lt. lia.
Qed.

Lemma apply_loop_spec n now g sc :
  sc_ok sc → n = Z.to_nat (refill_count sc) →
  ∃ d g' sc', apply_loop n now g sc = (g', sc') ∧ taken now (pending sc) d (pending sc') ∧
    g' = g || negb (bool_decide (d = [])) ∧
    remaining_budget sc' = remaining_budget sc + total d ∧
    consumed_run sc' = consumed_run sc ∧ consume_start sc' = consume_start sc ∧
    budget_ticks sc' = budget_ticks sc ∧ period_ticks sc' = period_ticks sc ∧ sc_ok sc'.
Proof.
  revert g sc. induction n as [|n IH]; intros g sc Hok Hn; cbn [apply_loop].
  { exists [], g, sc. pose proof (so_ring _ Hok).
    assert (pending sc = []) as ->
      by (unfold pending; replace (refill_count sc) with 0 by lia; apply ring_view_nil).
    split_and!; try done; [constructor|by destruct g|unfold total; simpl; lia]. }
  pose proof (sc_ok_bounds _ Hok) as (B1 & B2 & B3).
  pose proof Hok as [(H1 & H2 & H3) H4 (H5 & H6 & H7) H8].
  assert (pending sc = refills sc (refill_head sc) ::
    ring_view (refills sc) (refill_max sc) ((refill_head sc + 1) mod refill_max sc) (refill_count sc - 1))
    as Hp by (apply ring_view_pop; lia).
  set (r := refills sc (refill_head sc)) in *.
  destruct (Z.leb_spec (r_at r) now) as [Hdue|Hlate].
  2:{ exists [], g, sc. split_and!; try done; [rewrite Hp; by constructor|by destruct g|unfold total; simpl; lia]. }
  unfold worth in H8. rewrite Hp in H7, H8, B3. apply Forall_cons in H7 as [Hr H7].
  pose proof (total_nonneg _ H7) as Ht. unfold total in H8, B3. cbn [foldr] in H8, B3. fold (total) in *.
  change (foldr (λ (r : KRefill) (n : Z), r_amount r + n) 0) with total in *.
  cbn [with_remaining refill_head refill_max refill_count refills].
  rewrite (u64_id (remaining_budget sc + _)), (u32_id (refill_head sc + 1)) by lia.
  set (sc1 := with_ring _ _ _ _).
  assert (sc_ok sc1) as Hok1.
  { split; cbn [sc1 with_ring with_remaining refill_max refill_head refill_count budget_ticks
      period_ticks remaining_budget consumed_run]; [|done| |].
    - split; [done|]. split; [apply Z.mod_pos_bound; lia|lia].
    - split; [lia|]. split; [done|]. exact H7.
    - unfold worth, pending. cbn [sc1 with_ring with_remaining refill_max refill_head refill_count
        remaining_budget consumed_run refills]. lia. }
  destruct (IH true sc1 Hok1) as (d & g' & sc' & Hrun & Htk & Hg & Hrem & Hrest);
    [cbn [sc1 with_ring refill_count]; lia|].
  exists (r :: d), g', sc'. split; [exact Hrun|]. split.
  { rewrite Hp. constructor; [done|]. exact Htk. }
  split; [by rewrite orb_true_r, Hg|]. split; [|exact Hrest].
  rewrite Hrem. cbn [sc1 with_ring with_remaining remaining_budget]. unfold total. simpl. lia.
Qed.

Lemma apply_spec now sc :
  sc_ok sc →
  ∃ d g sc', kschedctx_apply_refills now sc = (g, sc') ∧ taken now (pending sc) d (pending sc') ∧
    g = negb (bool_decide (d = [])) ∧ remaining_budget sc' = remaining_budget sc + total d ∧
    consumed_run sc' = consumed_run sc ∧ consume_start sc' = consume_start sc ∧
    budget_ticks sc' = budget_ticks sc ∧ period_ticks sc' = period_ticks sc ∧ sc_ok sc' ∧
    worth sc' = worth sc.
Proof.
  intros Hok. unfold kschedctx_apply_refills.
  destruct (apply_loop_spec _ now false sc Hok eq_refl) as (d & g & sc' & -> & Ht & Hg & Hr & Hc & Hs & Hb & Hp & Hok').
  pose proof (sc_ok_bounds _ Hok') as (_ & _ & B). pose proof (so_worth _ Hok') as Hw. unfold worth in Hw.
  pose proof (so_parts _ Hok') as (? & ? & _).
  rewrite (proj2 (Z.ltb_ge _ _)) by lia.
  exists d, g, sc'. split_and!; try done. unfold worth. rewrite (taken_app _ _ _ _ Ht), total_app. lia.
Qed.
