(* ===== verification/SchedBandwidth.v ===== *)
(** * Bandwidth isolation of scheduling contexts

    The traces of the operations of kschedctx.c on one context, and the two
    guarantees nc/kschedctx.h states: the parts of a budget always add up to it,
    and no window of one period sees more than one budget spent. *)

From Stdlib Require Import ZArith Lia Sorted.
From stdpp Require Import base numbers gmap list.
From S2P Require Import Prelude Rights Ring Kschedctx.
Local Open Scope Z_scope.
Implicit Types sc : KSchedContext.

(** ** Runs of a scheduling context *)

(** What the kernel does to the context of a thread: a tick is charged to it,
    it stops running, replenishments are applied; each at a tick. *)
Inductive sc_op := Charge | Flush | Apply.

Definition sc_step (op : sc_op) (now : Z) sc : KSchedContext :=
  match op with
  | Charge => (kschedctx_charge_tick now sc).2
  | Flush => kschedctx_flush_run sc
  | Apply => (kschedctx_apply_refills now sc).2
  end.

Fixpoint sc_run (tr : list (sc_op * Z)) sc : KSchedContext :=
  match tr with [] => sc | (op, now) :: tr => sc_run tr (sc_step op now sc) end.

(** The start of the run a tick charged at [now] belongs to. *)
Definition run_start (now : Z) sc : Z :=
  if decide (consumed_run sc = 0) then now else consume_start sc.

(** The ticks really spent, each with the start of its run. *)
Definition tick_of (op : sc_op) (now : Z) sc : list (Z * Z) :=
  match op with
  | Charge => if decide (0 < remaining_budget sc) then [(now, run_start now sc)] else []
  | _ => []
  end.
Fixpoint spent_ticks (tr : list (sc_op * Z)) sc : list (Z * Z) :=
  match tr with
  | [] => []
  | (op, now) :: tr => tick_of op now sc ++ spent_ticks tr (sc_step op now sc)
  end.

(** How many of them fall in [a, b). *)
Definition spent_in (a b : Z) (h : list (Z * Z)) : Z :=
  Z.of_nat (length (filter (λ x, a ≤ x.1 < b) h)).

(** A trace of the kernel after tick [last], the last charge at [lastc]: time
    does not go back, no tick of the clock is charged twice, and a run is charged
    on every tick from its start until it is flushed. *)
Fixpoint sc_trace (last lastc : Z) (tr : list (sc_op * Z)) sc : Prop :=
  match tr with
  | [] => True
  | (op, now) :: tr =>
    last ≤ now < 2 ^ 62 ∧
    match op with
    | Charge =>
      lastc < now ∧
      (0 < remaining_budget sc → 0 < consumed_run sc → now = consume_start sc + consumed_run sc) ∧
      sc_trace now now tr (sc_step op now sc)
    | _ => sc_trace now lastc tr (sc_step op now sc)
    end
  end.

(** The current run is in the past. *)
Definition run_past (lastc : Z) sc : Prop :=
  0 < consumed_run sc → 0 ≤ consume_start sc ∧ consume_start sc + consumed_run sc ≤ lastc + 1.

Lemma run_past_start last lastc sc :
  run_past lastc sc → lastc ≤ last < 2 ^ 62 → 0 < consumed_run sc → 0 ≤ consume_start sc < 2 ^ 63.
Proof. intros H ? Hr. specialize (H Hr). lia. Qed.

(** One step of a trace: the invariant, the worth and the configuration are
    kept, and the effect on the parts is the one of its specification. *)
Lemma sc_step_ok op now sc :
  sc_ok sc → (0 < consumed_run sc → 0 ≤ consume_start sc < 2 ^ 63) →
  sc_ok (sc_step op now sc) ∧ worth (sc_step op now sc) = worth sc ∧
  budget_ticks (sc_step op now sc) = budget_ticks sc ∧ period_ticks (sc_step op now sc) = period_ticks sc.
Proof.
  intros Hok Hst. pose proof (so_parts _ Hok) as (H1 & H2 & _). destruct op; cbn [sc_step].
  - destruct (decide (0 < remaining_budget sc)) as [Hr|].
    + destruct (charge_spec now sc Hok Hr) as (sc' & -> & ? & ? & ? & ? & ? & ? & ? & ?). done.
    + rewrite charge_idle by lia. done.
  - destruct (decide (0 < consumed_run sc)) as [Hr|].
    + destruct (flush_spec sc Hok Hr (Hst Hr)) as (? & ? & ? & ? & ? & ? & ? & ?). done.
    + rewrite flush_idle by lia. done.
  - destruct (apply_spec now sc Hok) as (d & g & sc' & -> & ? & ? & ? & ? & ? & ? & ? & ? & ?). done.
Qed.

Lemma charge_past now lastc sc :
  sc_ok sc → run_past lastc sc → 0 ≤ now → lastc < now →
  (0 < remaining_budget sc → 0 < consumed_run sc → now = consume_start sc + consumed_run sc) →
  run_past now (sc_step Charge now sc).
Proof.
  intros Hok Hp Hn Hl Hc. pose proof (so_parts _ Hok) as (H1 & H2 & _).
  destruct (decide (0 < remaining_budget sc)) as [Hr|]; cbn [sc_step].
  - destruct (charge_spec now sc Hok Hr) as (sc' & -> & _ & _ & _ & _ & E1 & E2 & _).
    intros _. cbn [snd]. rewrite E1, E2. case_decide as Hz; [lia|].
    assert (0 < consumed_run sc) as Hz' by lia. specialize (Hp Hz'). specialize (Hc Hr Hz'). lia.
  - rewrite charge_idle by lia. intros Hr. specialize (Hp Hr). cbn [snd]. lia.
Qed.

Lemma flush_past now lastc sc :
  sc_ok sc → run_past lastc sc → lastc < 2 ^ 62 → run_past lastc (sc_step Flush now sc).
Proof.
  intros Hok Hp Hl. pose proof (so_parts _ Hok) as (H1 & H2 & _). cbn [sc_step].
  destruct (decide (0 < consumed_run sc)) as [Hr|]; [|by rewrite flush_idle by lia].
  destruct (flush_spec sc Hok Hr) as (_ & _ & _ & _ & E & _); [specialize (Hp Hr); lia|].
  intros H. lia.
Qed.

Lemma apply_past now lastc sc : sc_ok sc → run_past lastc sc → run_past lastc (sc_step Apply now sc).
Proof.
  intros Hok Hp. cbn [sc_step].
  destruct (apply_spec now sc Hok) as (d & g & sc' & -> & _ & _ & _ & E1 & E2 & _).
  unfold run_past. cbn [snd]. by rewrite E1, E2.
Qed.

(** What a step keeps along a trace. *)
Record live_at (last lastc : Z) sc : Prop := LiveAt {
  la_ok   : sc_ok sc;
  la_past : run_past lastc sc;
  la_time : -1 ≤ lastc ≤ last ∧ last < 2 ^ 62;
}.

Lemma trace_step last lastc op now tr sc :
  live_at last lastc sc → sc_trace last lastc ((op, now) :: tr) sc → 0 ≤ now →
  live_at now (match op with Charge => now | _ => lastc end) (sc_step op now sc) ∧
  sc_trace now (match op with Charge => now | _ => lastc end) tr (sc_step op now sc) ∧
  worth (sc_step op now sc) = worth sc ∧ budget_ticks (sc_step op now sc) = budget_ticks sc ∧
  period_ticks (sc_step op now sc) = period_ticks sc.
Proof.
  intros [Hok Hp Ht] (Hn & Htr) H0.
  destruct (sc_step_ok op now sc Hok) as (Hok' & Hrest); [apply (run_past_start last lastc); [done|lia]|].
  destruct op; cbn [sc_trace] in Htr.
  - destruct Htr as (Hc1 & Hc2 & Htr). split; [|done]. split; [done| |lia]. by apply (charge_past now lastc).
  - split; [|done]. split; [done| |lia]. apply flush_past; [done..|lia].
  - split; [|done]. split; [done| |lia]. by apply apply_past.
Qed.

(** ** The history of spent ticks *)

(** A step is a charge that takes a tick, or it only rearranges the parts. *)
Lemma step_cases op now sc :
  sc_ok sc → (0 < consumed_run sc → 0 ≤ consume_start sc < 2 ^ 63) →
  (op = Charge ∧ 0 < remaining_budget sc ∧ tick_of op now sc = [(now, run_start now sc)] ∧
    consumed_run (sc_step op now sc) = consumed_run sc + 1 ∧
    consume_start (sc_step op now sc) = run_start now sc ∧
    remaining_budget (sc_step op now sc) = remaining_budget sc - 1 ∧
    pending (sc_step op now sc) = pending sc) ∨
  (tick_of op now sc = [] ∧
    (consumed_run (sc_step op now sc) = 0 ∨
     consumed_run (sc_step op now sc) = consumed_run sc ∧
     consume_start (sc_step op now sc) = consume_start sc)).
Proof.
  intros Hok Hst. pose proof (so_parts _ Hok) as (H1 & H2 & _). destruct op; cbn [sc_step tick_of].
  - case_decide as Hr; [left|right].
    + destruct (charge_spec now sc Hok Hr) as (sc' & -> & ? & ? & ? & ? & ? & ? & ? & ?). done.
    + rewrite charge_idle by lia. split; [done|]. by right.
  - right. split; [done|]. destruct (decide (0 < consumed_run sc)) as [Hr|].
    + left. by destruct (flush_spec sc Hok Hr (Hst Hr)) as (? & ? & ? & ? & ? & _).
    + left. rewrite flush_idle by lia. lia.
  - right. split; [done|]. right.
    by destruct (apply_spec now sc Hok) as (d & g & sc' & -> & ? & ? & ? & ? & ? & _).
Qed.

(** Spent ticks come after the last charge; a run among them is new or the one
    that was open. *)
Definition ticks_after (last lastc : Z) sc (x : Z * Z) : Prop :=
  lastc < x.1 ∧ last ≤ x.1 ∧ x.2 ≤ x.1 ∧
  (lastc < x.2 ∨ (0 < consumed_run sc ∧ x.2 = consume_start sc)).

Lemma ticks_bounds tr last lastc sc :
  live_at last lastc sc → 0 ≤ last → sc_trace last lastc tr sc →
  Forall (ticks_after last lastc sc) (spent_ticks tr sc).
Proof.
  revert last lastc sc. induction tr as [|[op now] tr IH]; intros last lastc sc Hl H0 Htr; [constructor|].
  pose proof Htr as (Hn & Htr1). 
  destruct (trace_step _ _ _ _ _ _ Hl Htr ltac:(lia)) as (Hl' & Htr' & _).
  specialize (IH _ _ _ Hl' ltac:(lia) Htr'). destruct Hl as [Hok Hp Ht].
  pose proof (so_parts _ Hok) as (_ & Hrun & _). unfold run_past in Hp.
  cbn [spent_ticks]. apply Forall_app. split.
  - destruct op; cbn [tick_of]; [|constructor..]. case_decide as Hr; constructor; [|constructor].
    destruct Htr1 as (Hc1 & Hc2 & _). unfold ticks_after, run_start. cbn [fst snd].
    case_decide as Hz; [lia|]. assert (0 < consumed_run sc) as Hz' by lia. specialize (Hp Hz').
    split_and!; lia.
  - eapply Forall_impl; [exact IH|]. intros [t s0] (A1 & A2 & A3 & A4). unfold ticks_after. cbn [fst snd] in *.
    destruct (step_cases op now sc Hok) as [(-> & Hr & _ & E1 & E2 & _)|(_ & E)];
      [apply (run_past_start last lastc); [done|lia]|..].
    + destruct Htr1 as (Hc1 & Hc2 & _). split; [lia|]. split; [lia|]. split; [lia|].
      destruct A4 as [A4|[A4 A5]]; [lia|]. rewrite E2 in A5. unfold run_start in A5.
      destruct (decide (consumed_run sc = 0)); [lia|]. right. split; [lia|done].
    + assert (lastc ≤ match op with Charge => now | _ => lastc end) by (destruct op; [destruct Htr1; lia|lia..]).
      split; [lia|]. split; [lia|]. split; [lia|].
      destruct A4 as [A4|[A4 A5]]; [lia|]. destruct E as [E|[E1 E2]]; [lia|].
      right. rewrite <-E1, <-E2. done.
Qed.

(** Earlier ticks belong to earlier runs, and no tick of the clock is spent twice. *)
Lemma ticks_sorted tr last lastc sc :
  live_at last lastc sc → 0 ≤ last → sc_trace last lastc tr sc →
  StronglySorted (λ x y, x.1 < y.1 ∧ x.2 ≤ y.2) (spent_ticks tr sc).
Proof.
  revert last lastc sc. induction tr as [|[op now] tr IH]; intros last lastc sc Hl H0 Htr; [constructor|].
  pose proof Htr as (Hn & Htr1).
  destruct (trace_step _ _ _ _ _ _ Hl Htr ltac:(lia)) as (Hl' & Htr' & _).
  specialize (IH _ _ _ Hl' ltac:(lia) Htr'). pose proof (ticks_bounds _ _ _ _ Hl' ltac:(lia) Htr') as Hb.
  pose proof Hl as [Hok Hp Ht]. cbn [spent_ticks].
  destruct (step_cases op now sc Hok) as [(-> & Hr & -> & E1 & E2 & _)|(-> & _)];
    [apply (run_past_start last lastc); [done|lia]| |done].
  constructor; [exact IH|]. eapply Forall_impl; [exact Hb|].
  intros [t s0] (A1 & A2 & A3 & A4). cbn [fst snd] in *. split; [done|].
  destruct A4 as [A4|[_ A4]]; [|lia]. unfold run_start. pose proof (so_parts _ Hok) as (_ & Hrun & _).
  case_decide as Hz; [lia|]. destruct (Hp ltac:(lia)). destruct Htr1 as (? & _). lia.
Qed.

(** Every tick of a run since its start is in the history, or was spent before
    the trace began. *)
Lemma ticks_contiguous tr last lastc sc t s0 u :
  live_at last lastc sc → 0 ≤ last → sc_trace last lastc tr sc →
  (t, s0) ∈ spent_ticks tr sc → s0 ≤ u ≤ t →
  (u, s0) ∈ spent_ticks tr sc ∨
  (0 < consumed_run sc ∧ s0 = consume_start sc ∧ u < consume_start sc + consumed_run sc).
Proof.
  revert last lastc sc. induction tr as [|[op now] tr IH]; intros last lastc sc Hl H0 Htr Hin Hu;
    [by apply not_elem_of_nil in Hin|].
  pose proof Htr as (Hn & Htr1).
  destruct (trace_step _ _ _ _ _ _ Hl Htr ltac:(lia)) as (Hl' & Htr' & _).
  specialize (IH _ _ _ Hl' ltac:(lia) Htr'). pose proof Hl as [Hok Hp Ht].
  pose proof (so_parts _ Hok) as (_ & Hrun & _). cbn [spent_ticks] in *.
  destruct (step_cases op now sc Hok) as [(-> & Hr & Et & E1 & E2 & _)|(Et & E)];
    [apply (run_past_start last lastc); [done|lia]|..]; rewrite Et in *; cbn [app] in *.
  - destruct Htr1 as (Hc1 & Hc2 & _). rewrite elem_of_cons in Hin |- *.
    assert (s0 = run_start now sc → u < run_start now sc + consumed_run sc + 1 → s0 ≤ u →
      (u, s0) = (now, run_start now sc) ∨
      0 < consumed_run sc ∧ s0 = consume_start sc ∧ u < consume_start sc + consumed_run sc) as Hhead.
    { unfold run_start. case_decide as Hz; intros -> H1 H2.
      - left. f_equal. lia.
      - specialize (Hc2 Hr ltac:(lia)). destruct (decide (u = now)) as [->|]; [by left|].
        right. split; [lia|]. split; [done|]. lia. }
    destruct Hin as [Hin|Hin].
    + injection Hin as -> ->. destruct Hhead as [H|H]; [done| |lia|tauto|tauto].
      unfold run_start in *. case_decide; [lia|]. specialize (Hc2 Hr ltac:(lia)). lia.
    + destruct (IH Hin Hu) as [H|(H1 & H2 & H3)]; [tauto|]. rewrite E1, E2 in *.
      destruct Hhead as [H|H]; [done|lia|lia|tauto|tauto].
  - destruct (IH Hin Hu) as [H|(H1 & H2 & H3)]; [tauto|]. right.
    destruct E as [E|[E1 E2]]; [lia|]. by rewrite E1, E2 in *.
Qed.

(** ** Counting *)

Implicit Types (h : list (Z * Z)) (l : list KRefill).

Lemma spent_in_app a b h1 h2 : spent_in a b (h1 ++ h2) = spent_in a b h1 + spent_in a b h2.
Proof. unfold spent_in. rewrite filter_app, length_app. lia. Qed.

Lemma spent_in_cons a b x h :
  spent_in a b (x :: h) = (if decide (a ≤ x.1 < b) then 1 else 0) + spent_in a b h.
Proof. unfold spent_in. rewrite filter_cons. case_decide; simpl; lia. Qed.

Lemma spent_in_split a b c h : a ≤ b ≤ c → spent_in a c h = spent_in a b h + spent_in b c h.
Proof.
  intros H. induction h as [|x h IH]; [done|]. rewrite !spent_in_cons, IH.
  repeat case_decide; lia.
Qed.

Lemma spent_in_after a b h : Forall (λ x, b ≤ x.1) h → spent_in a b h = 0.
Proof.
  induction 1 as [|x h Hx _ IH]; [done|]. rewrite spent_in_cons, IH, decide_False by lia. done.
Qed.

Lemma sorted_times h : StronglySorted (λ x y, x.1 < y.1 ∧ x.2 ≤ y.2) h → NoDup h.*1.
Proof.
  induction 1 as [|x h _ IH Hx]; [constructor|]. rewrite fmap_cons. constructor; [|done].
  rewrite list_elem_of_fmap. intros (y & Hy & Hin). rewrite Forall_forall in Hx. specialize (Hx y Hin). lia.
Qed.

Lemma sorted_runs h x y :
  StronglySorted (λ x y, x.1 < y.1 ∧ x.2 ≤ y.2) h → x ∈ h → y ∈ h → x.1 ≤ y.1 → x.2 ≤ y.2.
Proof.
  induction 1 as [|z h _ IH Hz]; [by intros ?%not_elem_of_nil|]. rewrite Forall_forall in Hz.
  rewrite !elem_of_cons. intros [->|Hx] [->|Hy] Hle; [done|by apply Hz| |by apply IH].
  specialize (Hz _ Hx). lia.
Qed.

Lemma NoDup_fmap_filter (P : Z * Z → Prop) `{∀ x, Decision (P x)} h : NoDup h.*1 → NoDup (filter P h).*1.
Proof.
  induction h as [|x h IH]; [done|]. rewrite fmap_cons, NoDup_cons. intros [Hx Hh].
  rewrite filter_cons. case_decide; [|by apply IH]. rewrite fmap_cons, NoDup_cons.
  split; [|by apply IH]. rewrite list_elem_of_fmap in Hx |- *. intros (y & Hy & Hin).
  apply Hx. exists y. split; [done|]. by apply list_elem_of_filter in Hin as [_ ?].
Qed.

(** At most one spent tick per tick of the clock. *)
Lemma spent_in_at_most a b h : NoDup h.*1 → a ≤ b → spent_in a b h ≤ b - a.
Proof.
  intros Hnd Hab. unfold spent_in.
  assert ((filter (λ x, a ≤ x.1 < b) h).*1 ⊆+ seqZ a (b - a)) as Hsub.
  { apply NoDup_submseteq; [by apply NoDup_fmap_filter|]. intros t Ht.
    apply list_elem_of_fmap in Ht as (x & -> & Hx). apply list_elem_of_filter in Hx as [Hx _].
    apply elem_of_seqZ. lia. }
  apply submseteq_length in Hsub. rewrite length_fmap, length_seqZ in Hsub. lia.
Qed.

(** A stretch in which every tick is spent. *)
Lemma spent_in_all a b h s0 : (∀ u, a ≤ u < b → (u, s0) ∈ h) → b - a ≤ spent_in a b h.
Proof.
  intros Hall. unfold spent_in.
  assert (seqZ a (b - a) ⊆+ (filter (λ x, a ≤ x.1 < b) h).*1) as Hsub.
  { apply NoDup_submseteq; [apply NoDup_seqZ|]. intros t Ht. apply elem_of_seqZ in Ht.
    apply list_elem_of_fmap. exists (t, s0). split; [done|]. apply list_elem_of_filter.
    split; [simpl; lia|]. apply Hall. lia. }
  apply submseteq_length in Hsub. rewrite length_fmap, length_seqZ in Hsub. lia.
Qed.

(** ** Windows that no run straddles *)

(** The replenishments due before [e]. *)
Definition due_in (e : Z) l : Z := total (filter (λ r, r_at r < e) l).

Lemma total_one r : total [r] = r_amount r.
Proof. unfold total. simpl. lia. Qed.

Lemma due_in_app e l1 l2 : due_in e (l1 ++ l2) = due_in e l1 + due_in e l2.
Proof. unfold due_in. by rewrite filter_app, total_app. Qed.

Lemma due_in_one e r : due_in e [r] = if decide (r_at r < e) then r_amount r else 0.
Proof.
  unfold due_in. rewrite filter_cons, filter_nil. case_decide; unfold total; simpl; lia.
Qed.

Lemma due_in_bounds e l : Forall (λ r, 0 ≤ r_amount r) l → 0 ≤ due_in e l ≤ total l.
Proof.
  induction 1 as [|r l Hr _ IH]; [done|]. change (r :: l) with ([r] ++ l).
  rewrite due_in_app, total_app, due_in_one, total_one. case_decide; lia.
Qed.

Lemma due_in_all e l : Forall (λ r, r_at r < e) l → due_in e l = total l.
Proof.
  induction 1 as [|r l Hr _ IH]; [done|]. change (r :: l) with ([r] ++ l).
  rewrite due_in_app, total_app, due_in_one, total_one, IH, decide_True by done. lia.
Qed.

Lemma due_in_queued e max r l l' :
  0 ≤ r_amount r → Forall (λ r, 0 ≤ r_amount r) l → queued max r l l' →
  due_in e l' ≤ due_in e l + (if decide (r_at r < e) then r_amount r else 0).
Proof.
  intros Hr Hl Hq. revert Hl. destruct Hq; intros Hl; rewrite !due_in_app, !due_in_one; [lia|].
  apply Forall_app in Hl as [_ He]. rewrite Forall_singleton in He. simpl.
  repeat case_decide; lia.
Qed.

(** What can still be spent before [a + period] on ticks whose run started
    at [a] or later. *)
Definition spendable (a : Z) sc : Z :=
  remaining_budget sc + due_in (a + period_ticks sc) (pending sc) +
  (if decide (0 < consumed_run sc ∧ consume_start sc < a) then consumed_run sc else 0).

Lemma spendable_bounds a sc : sc_ok sc → 0 ≤ spendable a sc ≤ worth sc.
Proof.
  intros [_ _ (H1 & H2 & H3) _]. apply (due_in_bounds (a + period_ticks sc)) in H3.
  unfold spendable, worth. case_decide; lia.
Qed.

(** No step but a charge makes more spendable, and a charge inside the window
    takes one tick of it. *)
Lemma spendable_step a op now sc :
  sc_ok sc → (0 < consumed_run sc → 0 ≤ consume_start sc < 2 ^ 63) → now < a + period_ticks sc →
  Forall (λ x, a ≤ x.1 → a ≤ x.2) (tick_of op now sc) →
  spent_in a (a + period_ticks sc) (tick_of op now sc) + spendable a (sc_step op now sc) ≤ spendable a sc.
Proof.
  intros Hok Hst Hwin Hstr. pose proof (so_parts _ Hok) as (H1 & H2 & H3).
  destruct (sc_step_ok op now sc Hok Hst) as (_ & _ & _ & Ep).
  destruct (step_cases op now sc Hok Hst) as [(_ & Hr & Et & E1 & E2 & E3 & E4)|(Et & _)]; rewrite Et in *.
  - rewrite spent_in_cons. rewrite Forall_singleton in Hstr. cbn [fst snd] in *.
    unfold spendable. rewrite E1, E2, E3, E4, Ep. unfold run_start in *.
    change (spent_in a (a + period_ticks sc) []) with 0. repeat case_decide; lia.
  - change (spent_in a (a + period_ticks sc) []) with 0. unfold spendable. rewrite Ep. destruct op; cbn [sc_step tick_of] in *.
    + destruct (decide (0 < remaining_budget sc)); [done|]. rewrite charge_idle by lia. simpl. lia.
    + destruct (decide (0 < consumed_run sc)) as [Hr|]; [|by rewrite flush_idle by lia].
      destruct (flush_spec sc Hok Hr (Hst Hr)) as (Hq & _ & _ & -> & -> & _).
      apply (due_in_queued (a + period_ticks sc)) in Hq; [|simpl; lia|done]. cbn [r_at r_amount] in Hq.
      revert Hq. repeat case_decide; lia.
    + destruct (apply_spec now sc Hok) as (d & g & sc' & -> & Ht & _ & Er & Er2 & Es & _). cbn [snd].
      rewrite Er, Er2, Es. pose proof (taken_forall _ _ _ _ Ht) as Hd. rewrite (taken_app _ _ _ _ Ht), due_in_app.
      rewrite (due_in_all _ d); [lia|]. eapply Forall_impl; [exact Hd|]. simpl. lia.
Qed.

Lemma spent_in_window tr last lastc a sc :
  live_at last lastc sc → 0 ≤ last → sc_trace last lastc tr sc →
  Forall (λ x, a ≤ x.1 → a ≤ x.2) (spent_ticks tr sc) →
  spent_in a (a + period_ticks sc) (spent_ticks tr sc) ≤ spendable a sc.
Proof.
  revert last lastc sc. induction tr as [|[op now] tr IH]; intros last lastc sc Hl H0 Htr Hstr.
  { pose proof (spendable_bounds a sc (la_ok _ _ _ Hl)). unfold spent_in. simpl. lia. }
  pose proof Htr as (Hn & _).
  destruct (trace_step _ _ _ _ _ _ Hl Htr ltac:(lia)) as (Hl' & Htr' & _ & _ & Ep).
  pose proof Hl as [Hok Hp Ht]. pose proof (spendable_bounds a sc Hok).
  destruct (decide (now < a + period_ticks sc)) as [Hin|Hout].
  - cbn [spent_ticks] in *. apply Forall_app in Hstr as [Hs1 Hs2]. rewrite spent_in_app.
    specialize (IH _ _ _ Hl' ltac:(lia) Htr' Hs2). rewrite Ep in IH.
    pose proof (spendable_step a op now sc Hok (run_past_start last lastc sc Hp ltac:(lia)) Hin Hs1). lia.
  - rewrite spent_in_after; [lia|]. cbn [spent_ticks]. apply Forall_app. split.
    + destruct op; cbn [tick_of]; [|constructor..]. case_decide; constructor; [simpl; lia|constructor].
    + eapply Forall_impl; [apply (ticks_bounds _ _ _ _ Hl' ltac:(lia) Htr')|].
      intros x (_ & A & _). lia.
Qed.

(** ** The guarantees *)

Lemma sc_run_ok tr last lastc sc :
  live_at last lastc sc → 0 ≤ last → sc_trace last lastc tr sc →
  sc_ok (sc_run tr sc) ∧ worth (sc_run tr sc) = worth sc ∧
  budget_ticks (sc_run tr sc) = budget_ticks sc.
Proof.
  revert last lastc sc. induction tr as [|[op now] tr IH]; intros last lastc sc Hl H0 Htr.
  { split; [apply Hl|done]. }
  pose proof Htr as (Hn & _).
  destruct (trace_step _ _ _ _ _ _ Hl Htr ltac:(lia)) as (Hl' & Htr' & <- & <- & _).
  exact (IH _ _ _ Hl' ltac:(lia) Htr').
Qed.

(** A context that is not running: the state every trace starts from. *)
Lemma live_at_start sc : sc_ok sc → consumed_run sc = 0 → live_at 0 (-1) sc.
Proof. intros Hok Hr. split; [done| |lia]. intros H. lia. Qed.

Lemma configure_ok budget period sc :
  0 < refill_max sc < 2 ^ 16 → 0 < budget ≤ period → period < 2 ^ 63 →
  ∃ sc', kschedctx_configure budget period sc = (IRIS_OK, sc') ∧ sc_ok sc' ∧
    consumed_run sc' = 0 ∧ worth sc' = budget ∧ budget_ticks sc' = budget ∧ period_ticks sc' = period.
Proof.
  intros Hm Hb Hp. unfold kschedctx_configure.
  rewrite !(proj2 (Z.eqb_neq _ _)), (proj2 (Z.ltb_ge _ _)) by lia. cbn [orb].
  eexists. split; [done|].
  split; [|unfold worth, pending; simpl; split_and!; lia].
  split; unfold worth, pending; simpl; split_and?; try done; try lia; constructor.
Qed.

(** C25: Bandwidth isolation of the charging functions. A trace of
    [kschedctx_charge_tick], [kschedctx_flush_run] and [kschedctx_apply_refills] on
    one context that is not in a run, in any order, queue full or not, in which time
    does not go back, no tick is charged twice and a run is charged on every tick
    from its start to its flush: in no window of one period, wherever it starts, is
    more than the budget spent. The scheduler's other ways of changing a context are
    outside these traces: the refill [sched_tick_global] writes directly, binding
    the context to another thread within a run, and the jump of the idle clock,
    which skips ticks of a run. Nothing is claimed of a history with them, and the
    first can exceed the bound. *)
Theorem kschedctx_bandwidth sc tr a :
  sc_ok sc → consumed_run sc = 0 → sc_trace 0 (-1) tr sc →
  spent_in a (a + period_ticks sc) (spent_ticks tr sc) ≤ budget_ticks sc.
Proof.
  intros Hok Hrun Htr. pose proof (live_at_start sc Hok Hrun) as Hl.
  assert (∀ a, Forall (λ x, a ≤ x.1 → a ≤ x.2) (spent_ticks tr sc) →
    spent_in a (a + period_ticks sc) (spent_ticks tr sc) ≤ budget_ticks sc) as Hwin.
  { intros a' Hstr. pose proof (spent_in_window tr 0 (-1) a' sc Hl ltac:(lia) Htr Hstr).
    pose proof (spendable_bounds a' sc Hok). pose proof (so_worth _ Hok). lia. }
  pose proof (ticks_sorted tr 0 (-1) sc Hl ltac:(lia) Htr) as Hsort.
  pose proof (sorted_times _ Hsort) as Hnd. destruct (so_config _ Hok) as [[Hb0 Hb] _].
  destruct (decide (Exists (λ x, x.2 < a ≤ x.1) (spent_ticks tr sc))) as [Hex|Hno].
  2:{ apply Hwin, Forall_forall. intros x Hx Hax. destruct (decide (a ≤ x.2)); [done|].
      exfalso. apply Hno, Exists_exists. exists x. split; [done|lia]. }
  apply Exists_exists in Hex as ((t & s0) & Hin & Hstr). cbn [fst snd] in Hstr.
  assert (∀ u, s0 ≤ u ≤ t → (u, s0) ∈ spent_ticks tr sc) as Hall.
  { intros u Hu. destruct (ticks_contiguous tr 0 (-1) sc t s0 u Hl ltac:(lia) Htr Hin Hu) as [H|(H & _)];
      [done|lia]. }
  assert (Forall (λ x, s0 ≤ x.1 → s0 ≤ x.2) (spent_ticks tr sc)) as Hs0.
  { apply Forall_forall. intros x Hx Hle. exact (sorted_runs _ _ _ Hsort (Hall s0 ltac:(lia)) Hx Hle). }
  specialize (Hwin s0 Hs0). set (P := period_ticks sc) in *.
  destruct (decide (a ≤ s0 + P)) as [Hap|Hap].
  - rewrite (spent_in_split a (s0 + P) (a + P)) by lia.
    rewrite (spent_in_split s0 a (s0 + P)) in Hwin by lia.
    pose proof (spent_in_all s0 a _ s0 (λ u Hu, Hall u ltac:(lia))).
    pose proof (spent_in_at_most (s0 + P) (a + P) _ Hnd ltac:(lia)). lia.
  - pose proof (spent_in_all s0 (s0 + P) _ s0 (λ u Hu, Hall u ltac:(lia))).
    pose proof (spent_in_at_most a (a + P) _ Hnd ltac:(lia)). lia.
Qed.

(** Conservation: from a successful [kschedctx_configure] on, after any
    sequence of charges, flushes and replenishments,
    [remaining_budget + consumed_run + sum(pending refills) == budget_ticks]; in
    particular no sequence leaves a context with more than its budget. *)
Theorem kschedctx_conservation sc budget period tr :
  0 < refill_max sc < 2 ^ 16 → 0 < budget ≤ period → period < 2 ^ 63 →
  ∃ sc1, kschedctx_configure budget period sc = (IRIS_OK, sc1) ∧
    (sc_trace 0 (-1) tr sc1 →
     worth (sc_run tr sc1) = budget ∧ 0 ≤ remaining_budget (sc_run tr sc1) ≤ budget).
Proof.
  intros Hm Hb Hp. destruct (configure_ok budget period sc Hm Hb Hp) as (sc1 & Hc & Hok & Hr & Hw & Eb & _).
  exists sc1. split; [exact Hc|]. intros Htr.
  destruct (sc_run_ok tr 0 (-1) sc1 (live_at_start sc1 Hok Hr) ltac:(lia) Htr) as (Hok' & Hw' & _).
  split; [lia|]. destruct (so_parts _ Hok') as (H1 & H2 & H3). apply total_nonneg in H3.
  unfold worth in Hw', Hw. lia.
Qed.

Lemma consumed_spec now sc (sc1 := (sc_consumed now sc).2) :
  sc_ok sc → sc_ok sc1 ∧ consumed_run sc1 = 0 ∧ worth sc1 = worth sc - consumed_run sc ∧
  budget_ticks sc1 = budget_ticks sc.
Proof.
  intros [H1 H2 (H3 & H4 & H5) H6]. unfold sc1, sc_consumed, worth, pending in *. cbn [snd].
  destruct (_ =? 0); simpl; (split; [|split_and!; lia]);
    split; unfold worth, pending; simpl; split_and?; try done; lia.
Qed.

(** Reading [SYS_SC_CONSUMED] while the context has an open run destroys
    the ticks of that run: they are never replenished.  Whatever happens next,
    the context is worth that much less than its configured budget for good, and
    repeated reads take away what is left. *)
Theorem sc_consumed_loses_budget sc now tr (sc1 := (sc_consumed now sc).2) :
  sc_ok sc → 0 < consumed_run sc → sc_trace 0 (-1) tr sc1 →
  worth (sc_run tr sc1) = worth sc - consumed_run sc ∧
  remaining_budget (sc_run tr sc1) < budget_ticks (sc_run tr sc1).
Proof.
  intros Hok Hr Htr. destruct (consumed_spec now sc Hok) as (Hok1 & Hr1 & Hw1 & Eb1). fold sc1 in Hok1, Hr1, Hw1, Eb1.
  destruct (sc_run_ok tr 0 (-1) sc1 (live_at_start sc1 Hok1 Hr1) ltac:(lia) Htr) as (Hok' & Hw' & Eb').
  split; [lia|]. destruct (so_parts _ Hok') as (H1 & H2 & H3). apply total_nonneg in H3.
  pose proof (so_worth _ Hok). unfold worth in *. lia.
Qed.

(** ** Witnesses *)

Definition sc_unconfigured : KSchedContext :=
  SC 0 0 0 None false 8 0 0 0 0 0 (λ _, Refill 0 0).
Definition sc1 : KSchedContext := (kschedctx_configure 2 10 sc_unconfigured).2.
Definition trace1 : list (sc_op * Z) :=
  [(Charge, 1); (Charge, 2); (Flush, 2); (Apply, 11); (Charge, 12); (Charge, 13)].

Lemma sc1_ok : sc_ok sc1 ∧ consumed_run sc1 = 0.
Proof.
  destruct (configure_ok 2 10 sc_unconfigured) as (sc & H & Hok & Hr & _); [done..|].
  unfold sc1. rewrite H. done.
Qed.

(** A trace of concrete operations is checked by computing it. *)
Ltac check_trace := vm_compute; repeat split; first [discriminate | done | intros; first [discriminate | done]].

Lemma kschedctx_bandwidth_witness :
  sc_trace 0 (-1) trace1 sc1 ∧ spent_ticks trace1 sc1 = [(1, 1); (2, 1); (12, 12); (13, 12)] ∧
  spent_in 2 12 (spent_ticks trace1 sc1) ≤ 2.
Proof.
  assert (sc_trace 0 (-1) trace1 sc1) as Htr by check_trace.
  split; [exact Htr|]. split; [vm_compute; reflexivity|].
  exact (kschedctx_bandwidth sc1 trace1 2 (proj1 sc1_ok) (proj2 sc1_ok) Htr).
Defined.

Lemma kschedctx_conservation_witness : worth (sc_run trace1 sc1) = 2.
Proof.
  destruct (kschedctx_conservation sc_unconfigured 2 10 trace1) as (sc & H & Hw); [done..|].
  unfold sc1. rewrite H. apply Hw. replace sc with sc1 by (unfold sc1; by rewrite H). check_trace.
Defined.

Lemma sc_consumed_loses_budget_witness :
  worth (sc_run [(Charge, 4); (Flush, 4)] (sc_consumed 3 (sc_run [(Charge, 2)] sc1)).2) = 1.
Proof.
  assert (sc_trace 0 (-1) [(Charge, 2)] sc1) as Htr by check_trace.
  destruct (sc_run_ok _ 0 (-1) sc1 (live_at_start sc1 (proj1 sc1_ok) (proj2 sc1_ok)) ltac:(lia) Htr)
    as (Hok & _ & _).
  apply (sc_consumed_loses_budget (sc_run [(Charge, 2)] sc1) 3 [(Charge, 4); (Flush, 4)] Hok);
    [done|check_trace].
Defined.
