(* ===== verification/Runq.v ===== *)
(** * Run queues (kernel/core/scheduler/task_lifecycle.c, [rq_*], [sched_set_*])

    The state of the scheduler and the operations on the per-CPU run queues: one
    FIFO per domain and priority, threaded through [rq_next], with a bitmap of the
    non-empty ones.  Every operation holds the queue's lock from its first access
    to its last, so each is one step.  A thread is named by an [N]; the fields
    of [struct task] are those the scheduler uses. *)

From Stdlib Require Import ZArith Lia.
From stdpp Require Import base numbers gmap list.
From S2P Require Import Prelude Kschedctx.
Local Open Scope Z_scope.

Definition IRIS_NUM_DOMAINS : Z := 4.

Inductive task_state_t :=
  | TASK_READY | TASK_RUNNING | TASK_BLOCKED_IPC | TASK_BLOCKED_IRQ | TASK_SLEEPING_RETIRED
  | TASK_BLOCKED_FAULT | TASK_BLOCKED_SEND | TASK_BLOCKED_RECV | TASK_BUDGET_EXHAUSTED
  | TASK_BLOCKED_REPLY | TASK_SUSPENDED | TASK_TERMINATED | TASK_DEAD.
#[global] Instance task_state_eq_dec : EqDecision task_state_t.
Proof. solve_decision. Defined.

Record task := Task {
  state           : task_state_t;
  priority        : Z;             (* uint8_t *)
  domain          : Z;             (* uint8_t *)
  home_cpu        : Z;
  rq_next         : option N;
  rq_queued       : bool;
  wake_tick       : Z;
  sched_ctx       : option N;
  ticks_left      : Z;
  time_slice      : Z;
  need_resched    : bool;
  timeout_ep      : option N;
  timeout_pending : bool;
  on_cpu          : bool;
  terminal        : bool;
}.

Definition set_state v t := Task v (priority t) (domain t) (home_cpu t) (rq_next t) (rq_queued t)
  (wake_tick t) (sched_ctx t) (ticks_left t) (time_slice t) (need_resched t) (timeout_ep t)
  (timeout_pending t) (on_cpu t) (terminal t).
Definition set_key p d t := Task (state t) p d (home_cpu t) (rq_next t) (rq_queued t)
  (wake_tick t) (sched_ctx t) (ticks_left t) (time_slice t) (need_resched t) (timeout_ep t)
  (timeout_pending t) (on_cpu t) (terminal t).
Definition set_next v t := Task (state t) (priority t) (domain t) (home_cpu t) v (rq_queued t)
  (wake_tick t) (sched_ctx t) (ticks_left t) (time_slice t) (need_resched t) (timeout_ep t)
  (timeout_pending t) (on_cpu t) (terminal t).
Definition set_queued v t := Task (state t) (priority t) (domain t) (home_cpu t) (rq_next t) v
  (wake_tick t) (sched_ctx t) (ticks_left t) (time_slice t) (need_resched t) (timeout_ep t)
  (timeout_pending t) (on_cpu t) (terminal t).
Definition set_wake v t := Task (state t) (priority t) (domain t) (home_cpu t) (rq_next t) (rq_queued t)
  v (sched_ctx t) (ticks_left t) (time_slice t) (need_resched t) (timeout_ep t)
  (timeout_pending t) (on_cpu t) (terminal t).
Definition set_ticks v t := Task (state t) (priority t) (domain t) (home_cpu t) (rq_next t) (rq_queued t)
  (wake_tick t) (sched_ctx t) v (time_slice t) (need_resched t) (timeout_ep t)
  (timeout_pending t) (on_cpu t) (terminal t).
Definition set_resched v t := Task (state t) (priority t) (domain t) (home_cpu t) (rq_next t) (rq_queued t)
  (wake_tick t) (sched_ctx t) (ticks_left t) (time_slice t) v (timeout_ep t)
  (timeout_pending t) (on_cpu t) (terminal t).
Definition set_pending v t := Task (state t) (priority t) (domain t) (home_cpu t) (rq_next t) (rq_queued t)
  (wake_tick t) (sched_ctx t) (ticks_left t) (time_slice t) (need_resched t) (timeout_ep t)
  v (on_cpu t) (terminal t).
Definition set_on_cpu v t := Task (state t) (priority t) (domain t) (home_cpu t) (rq_next t) (rq_queued t)
  (wake_tick t) (sched_ctx t) (ticks_left t) (time_slice t) (need_resched t) (timeout_ep t)
  (timeout_pending t) v (terminal t).

Record CpuRunQueue := RQ {
  rq_head : Z → Z → option N;     (* head[domain][priority] *)
  rq_tail : Z → Z → option N;
  rq_mask : Z → Z → Z;            (* mask[domain][word] *)
}.

Record sched := Sched {
  tasks           : N → task;
  task_bound      : nat;               (* thread names in use are below it *)
  rqs             : Z → option CpuRunQueue;   (* cpu_local[c].rq *)
  current         : Z → option N;      (* cpu_local[c].current_task *)
  thread_list     : list N;            (* sched_thread_list, head first *)
  idle_thread     : option N;
  scs             : N → KSchedContext;
  cur_domain      : Z;                 (* iris_cur_domain *)
  scheduler_ticks : Z;
  wall_ticks      : Z;
  rq_live_count   : Z;
  rq_live_hwm     : Z;
  sched_dup_enq   : Z;
  ipis            : list Z;            (* reschedule IPIs sent, by CPU *)
  idle_ticks      : Z → Z;             (* cpu_local[c].idle_ticks *)
  dom_sched_idx   : Z;
  dom_ticks_left  : Z;
  dom_switches    : Z;
}.
Implicit Types (s : sched) (t : N) (c d p : Z) (q : CpuRunQueue).

Definition with_tasks f s : sched := Sched f (task_bound s) (rqs s) (current s) (thread_list s)
  (idle_thread s) (scs s) (cur_domain s) (scheduler_ticks s) (wall_ticks s) (rq_live_count s)
  (rq_live_hwm s) (sched_dup_enq s) (ipis s) (idle_ticks s) (dom_sched_idx s) (dom_ticks_left s)
  (dom_switches s).
Definition with_rqs f s : sched := Sched (tasks s) (task_bound s) f (current s) (thread_list s)
  (idle_thread s) (scs s) (cur_domain s) (scheduler_ticks s) (wall_ticks s) (rq_live_count s)
  (rq_live_hwm s) (sched_dup_enq s) (ipis s) (idle_ticks s) (dom_sched_idx s) (dom_ticks_left s)
  (dom_switches s).
Definition with_current f s : sched := Sched (tasks s) (task_bound s) (rqs s) f (thread_list s)
  (idle_thread s) (scs s) (cur_domain s) (scheduler_ticks s) (wall_ticks s) (rq_live_count s)
  (rq_live_hwm s) (sched_dup_enq s) (ipis s) (idle_ticks s) (dom_sched_idx s) (dom_ticks_left s)
  (dom_switches s).
Definition with_scs f s : sched := Sched (tasks s) (task_bound s) (rqs s) (current s)
  (thread_list s) (idle_thread s) f (cur_domain s) (scheduler_ticks s) (wall_ticks s)
  (rq_live_count s) (rq_live_hwm s) (sched_dup_enq s) (ipis s) (idle_ticks s) (dom_sched_idx s)
  (dom_ticks_left s) (dom_switches s).
Definition with_clock n w s : sched := Sched (tasks s) (task_bound s) (rqs s) (current s)
  (thread_list s) (idle_thread s) (scs s) (cur_domain s) n w (rq_live_count s) (rq_live_hwm s)
  (sched_dup_enq s) (ipis s) (idle_ticks s) (dom_sched_idx s) (dom_ticks_left s) (dom_switches s).
Definition with_counts n h e s : sched := Sched (tasks s) (task_bound s) (rqs s) (current s)
  (thread_list s) (idle_thread s) (scs s) (cur_domain s) (scheduler_ticks s) (wall_ticks s) n h e
  (ipis s) (idle_ticks s) (dom_sched_idx s) (dom_ticks_left s) (dom_switches s).
Definition with_ipi c s : sched := Sched (tasks s) (task_bound s) (rqs s) (current s)
  (thread_list s) (idle_thread s) (scs s) (cur_domain s) (scheduler_ticks s) (wall_ticks s)
  (rq_live_count s) (rq_live_hwm s) (sched_dup_enq s) (ipis s ++ [c]) (idle_ticks s)
  (dom_sched_idx s) (dom_ticks_left s) (dom_switches s).
Definition with_idle_ticks f s : sched := Sched (tasks s) (task_bound s) (rqs s) (current s)
  (thread_list s) (idle_thread s) (scs s) (cur_domain s) (scheduler_ticks s) (wall_ticks s)
  (rq_live_count s) (rq_live_hwm s) (sched_dup_enq s) (ipis s) f (dom_sched_idx s)
  (dom_ticks_left s) (dom_switches s).
Definition with_dom d i l n s : sched := Sched (tasks s) (task_bound s) (rqs s) (current s)
  (thread_list s) (idle_thread s) (scs s) d (scheduler_ticks s) (wall_ticks s) (rq_live_count s)
  (rq_live_hwm s) (sched_dup_enq s) (ipis s) (idle_ticks s) i l n.

(** [t->field = v] through a setter, [rq->array[..][..] = v] at one index. *)
Definition upd_task t (f : task → task) s : sched := with_tasks (upd_fn (tasks s) t (f (tasks s t))) s.
Definition upd2 {A} (f : Z → Z → A) i j (v : A) : Z → Z → A := upd_fn f i (upd_fn (f i) j v).
Definition put_rq c q s : sched := with_rqs (upd_fn (rqs s) c (Some q)) s.
Definition set_head d p v q := RQ (upd2 (rq_head q) d p v) (rq_tail q) (rq_mask q).
Definition set_tail d p v q := RQ (rq_head q) (upd2 (rq_tail q) d p v) (rq_mask q).
Definition set_mask d w v q := RQ (rq_head q) (rq_tail q) (upd2 (rq_mask q) d w v).

(** ** The operations *)

Definition rq_live_inc s : sched :=
  let n := u32 (rq_live_count s + 1) in
  with_counts n (if rq_live_hwm s <? n then n else rq_live_hwm s) (sched_dup_enq s) s.
Definition rq_live_dec s : sched :=
  with_counts (u32 (rq_live_count s - 1)) (rq_live_hwm s) (sched_dup_enq s) s.

Definition rq_dom_of (k : task) : Z := if domain k <? IRIS_NUM_DOMAINS then domain k else 0.

(** [prio >> 6] and [1ULL << (prio & 63)]. *)
Definition mask_word p : Z := Z.shiftr p 6.
Definition mask_bit p : Z := Z.shiftl 1 (Z.land p 63).

Definition rq_link_locked c q t s : sched :=
  let k := tasks s t in
  let prio := priority k in
  let dom := rq_dom_of k in
  if rq_queued k
  then with_counts (rq_live_count s) (rq_live_hwm s) (u32 (sched_dup_enq s + 1)) s else
  let s := upd_task t (λ k, set_next None (set_queued true k)) s in
  let s :=
    match rq_head q dom prio, rq_tail q dom prio with
    | None, _ =>
      let q := set_tail dom prio (Some t) (set_head dom prio (Some t) q) in
      put_rq c (set_mask dom (mask_word prio) (Z.lor (rq_mask q dom (mask_word prio)) (mask_bit prio)) q) s
    | Some _, Some last =>
      put_rq c (set_tail dom prio (Some t) q) (upd_task last (set_next (Some t)) s)
    | Some _, None => s      (* a NULL tail with a head: excluded by the invariant *)
    end in
  rq_live_inc s.

(** [while (cur && cur != t) { prev = cur; cur = cur->rq_next; }] *)
Fixpoint find_prev (fuel : nat) t (prev cur : option N) s : res (option N * option N) :=
  match fuel with
  | O => NoFuel
  | S fuel =>
    match cur with
    | None => Ret (prev, None)
    | Some x => if decide (x = t) then Ret (prev, Some x)
                else find_prev fuel t (Some x) (rq_next (tasks s x)) s
    end
  end.

(** The part of [rq_unlink_locked] that updates the queue's head, tail and bit. *)
Definition unlink_heads dom prio (prev nxt : option N) t q : CpuRunQueue :=
  let q := match prev with None => set_head dom prio nxt q | Some _ => q end in
  let q := if decide (rq_tail q dom prio = Some t) then set_tail dom prio prev q else q in
  if decide (rq_head q dom prio = None)
  then set_mask dom (mask_word prio)
         (Z.land (rq_mask q dom (mask_word prio)) (u64 (Z.lnot (mask_bit prio)))) q
  else q.

Definition rq_unlink_locked c q t s : res sched :=
  let k := tasks s t in
  if negb (rq_queued k) then Ret s else
  let prio := priority k in
  let dom := rq_dom_of k in
  '(prev, cur) ← find_prev (S (task_bound s)) t None (rq_head q dom prio) s;
  match cur with
  | None => Ret (rq_live_dec (upd_task t (set_queued false) s))
  | Some _ =>
    let nxt := rq_next k in
    let s := match prev with None => s | Some x => upd_task x (set_next nxt) s end in
    let s := put_rq c (unlink_heads dom prio prev nxt t q) s in
    let s := upd_task t (λ k, set_next None (set_queued false k)) s in
    Ret (rq_live_dec s)
  end.

Definition rq_enqueue t s : sched :=
  let c := home_cpu (tasks s t) in
  match rqs s c with None => s | Some q => rq_link_locked c q t s end.

Definition rq_remove t s : res sched :=
  let c := home_cpu (tasks s t) in
  match rqs s c with None => Ret s | Some q => rq_unlink_locked c q t s end.

(** The domain [rq_dequeue_best] and [rq_top_priority] search. *)
Definition sel_domain s : Z := if IRIS_NUM_DOMAINS <=? cur_domain s then 0 else cur_domain s.

(** [63 - __builtin_clzll(x)] of a nonzero word is the index of its highest set
    bit.  The scan over the words [n - 1 .. 0]: the highest priority with its bit set. *)
Fixpoint top_bit (n : nat) (mask : Z → Z) : option Z :=
  match n with
  | O => None
  | S n =>
    let w := Z.of_nat n in
    if mask w =? 0 then top_bit n mask else Some (w * 64 + Z.log2 (mask w))
  end.

Definition rq_dequeue_best c s : res (option N * sched) :=
  match rqs s c with
  | None => Ret (None, s)
  | Some q =>
    let dom := sel_domain s in
    match top_bit 4 (rq_mask q dom) with
    | None => Ret (None, s)
    | Some prio =>
      t ← of_assert (rq_head q dom prio);     (* t->rq_next: a NULL head faults *)
      let nxt := rq_next (tasks s t) in
      let q := set_head dom prio nxt q in
      let w := prio / 64 in
      let q := match nxt with
        | None => set_mask dom w (Z.land (rq_mask q dom w) (u64 (Z.lnot (Z.shiftl 1 (prio mod 64)))))
                    (set_tail dom prio None q)
        | Some _ => q
        end in
      let s := upd_task t (λ k, set_next None (set_queued false k)) (put_rq c q s) in
      Ret (Some t, rq_live_dec s)
    end
  end.

Definition rq_top_priority c s : Z :=
  match rqs s c with
  | None => -1
  | Some q => match top_bit 4 (rq_mask q (sel_domain s)) with None => -1 | Some p => p end
  end.

Definition rq_poke t s : sched := with_ipi (home_cpu (tasks s t)) s.

(** [sched_set_priority] and [sched_set_domain] differ in the field they write. *)
Definition sched_rekey t (f : task → task) s : res sched :=
  let c := home_cpu (tasks s t) in
  match rqs s c with
  | None => Ret (upd_task t f s)
  | Some q =>
    let was_queued := rq_queued (tasks s t) in
    s ← (if was_queued then rq_unlink_locked c q t s else Ret s);
    let s := upd_task t f s in
    q ← of_assert (rqs s c);
    let s := if was_queued then rq_link_locked c q t s else s in
    Ret (if was_queued then rq_poke t s else s)
  end.

Definition sched_set_priority t (prio : Z) s : res sched :=
  if decide (priority (tasks s t) = prio) then Ret s
  else sched_rekey t (λ k, set_key prio (domain k) k) s.

Definition sched_set_domain t (dom : Z) s : res sched :=
  if decide (domain (tasks s t) = dom) then Ret s
  else sched_rekey t (λ k, set_key (priority k) dom k) s.

Definition task_wakeup t s : sched :=
  let k := tasks s t in
  if decide (state k = TASK_DEAD) then s else
  if terminal k then s else
  let s := upd_task t (set_state TASK_READY) s in
  if decide (idle_thread s = Some t) then s
  else with_ipi (home_cpu (tasks s t)) (rq_enqueue t s).

Definition sched_kick t s : sched :=
  let s := upd_task t (set_resched true) s in
  if on_cpu (tasks s t) then with_ipi (home_cpu (tasks s t)) s else s.

(** [task_suspend] up to its wait for the thread's core: the state it writes
    before the spin, which changes nothing. *)
Definition task_suspend t s : res sched :=
  let k := tasks s t in
  if decide (state k = TASK_DEAD) then Ret s else
  if terminal k then Ret s else
  s ← rq_remove t (upd_task t (set_state TASK_SUSPENDED) s);
  Ret (sched_kick t s).
