(* ===== verification/RunqInv.v ===== *)
(** * Run queues: the priority FIFOs they implement

    [rq_rep s Q] relates the pointers, flags and bitmaps of the run queues to the
    lists [Q] of the queued threads, one per CPU, domain and priority.  The
    lemmas show each operation of [Runq] to be the list operation it stands for. *)

From Stdlib Require Import ZArith Lia.
From stdpp Require Import base numbers gmap list.
From S2P Require Import Prelude PmmInv Kschedctx Runq.
Local Open Scope Z_scope.
Implicit Types (s : sched) (t x : N) (c d p : Z) (q : CpuRunQueue) (l : list N).

(** ** Surgery on a chain *)

Section chains.
Implicit Types (f : N → option N) (o : option N).

Lemma chain_head f o l : chain f o l → o = head l.
Proof. by intros []. Qed.

Lemma chain_snoc f o l x t :
  chain f o l → last l = Some x → NoDup l → t ∉ l →
  chain (upd_fn (upd_fn f t None) x (Some t)) o (l ++ [t]).
Proof.
  intros Hc. induction Hc as [|y l Hc IH]; [done|]. intros Hl Hd Ht.
  apply NoDup_cons in Hd as [Hy Hd]. rewrite not_elem_of_cons in Ht. destruct Ht as [Hty Ht].
  rewrite <-app_comm_cons. constructor. destruct l as [|z l].
  - injection Hl as ->. rewrite upd_fn_same. constructor.
    rewrite upd_fn_other, upd_fn_same by done. constructor.
  - rewrite last_cons_cons in Hl. assert (y ≠ x).
    { intros ->. apply Hy. by apply last_Some_elem_of. }
    rewrite !upd_fn_other by done. by apply IH.
Qed.

Lemma chain_unlink_first f o t l : chain f o (t :: l) → chain f (f t) l.
Proof. by inversion 1. Qed.

Lemma chain_unlink f o l1 x t l2 :
  chain f o (l1 ++ t :: l2) → last l1 = Some x → NoDup (l1 ++ t :: l2) →
  chain (upd_fn f x (f t)) o (l1 ++ l2).
Proof.
  intros Hc. remember (l1 ++ t :: l2) as l eqn:Hl. revert l1 Hl.
  induction Hc as [|y l Hc IH]; intros [|z l1] Hl Hx Hd; try done.
  injection Hl as -> ->. apply NoDup_cons in Hd as [Hz Hd]. rewrite <-app_comm_cons. constructor.
  destruct l1 as [|w l1].
  - injection Hx as ->. rewrite upd_fn_same. cbn [app] in *.
    apply chain_unlink_first in Hc. eapply chain_ext; [|exact Hc]. intros y Hy.
    rewrite upd_fn_other; [done|]. intros ->. apply Hz. by right.
  - rewrite last_cons_cons in Hx. rewrite upd_fn_other; [by apply IH|].
    intros ->. apply Hz. apply elem_of_app. left. by apply last_Some_elem_of.
Qed.
End chains.

Definition nxt s t : option N := rq_next (tasks s t).

Lemma find_prev_spec s l1 t l2 fuel prev o :
  chain (nxt s) o (l1 ++ t :: l2) → t ∉ l1 → (length l1 < fuel)%nat →
  find_prev fuel t prev o s = Ret (match last l1 with Some x => Some x | None => prev end, Some t).
Proof.
  revert fuel prev o. induction l1 as [|x l1 IH]; intros fuel prev o Hc Ht Hf;
    inversion Hc; subst; (destruct fuel as [|fuel]; [simpl in Hf; lia|]); cbn [find_prev].
  - by rewrite decide_True.
  - rewrite not_elem_of_cons in Ht. rewrite decide_False by naive_solver.
    rewrite (IH fuel (Some x)); [|done|naive_solver|simpl in Hf; lia].
    destruct l1 as [|y l1]; [done|]. rewrite last_cons_cons. destruct (last (y :: l1)) eqn:E; [done|].
    by apply last_None in E.
Qed.

(** ** The bitmap *)

Lemma mask_word_eq p : mask_word p = p / 64.
Proof. unfold mask_word. by rewrite Z.shiftr_div_pow2. Qed.

Lemma mask_bit_eq p : mask_bit p = Z.shiftl 1 (p mod 64).
Proof. unfold mask_bit. change 63 with (Z.ones 6). by rewrite Z.land_ones. Qed.

(** The words of one domain have the bits of the non-empty queues set. *)
Definition mask_ok (m : Z → Z) (full : Z → bool) : Prop :=
  (∀ w, 0 ≤ w < 4 → 0 ≤ m w < 2 ^ 64) ∧
  ∀ p, 0 ≤ p < 256 → Z.testbit (m (p / 64)) (p mod 64) = full p.

Lemma lor_width a b : 0 ≤ a < 2 ^ 64 → 0 ≤ b < 2 ^ 64 → 0 ≤ Z.lor a b < 2 ^ 64.
Proof.
  intros Ha Hb. split; [apply Z.lor_nonneg; lia|]. destruct (decide (Z.lor a b = 0)) as [->|Hn]; [done|].
  assert (0 ≤ Z.lor a b) by (apply Z.lor_nonneg; lia).
  apply Z.log2_lt_pow2; [lia|]. rewrite Z.log2_lor by lia.
  destruct (decide (a = 0)) as [->|]; [change (Z.log2 0) with 0|]; (destruct (decide (b = 0)) as [->|]; [change (Z.log2 0) with 0|]);
    apply Z.max_lub_lt; try lia; apply Z.log2_lt_pow2; lia.
Qed.

Lemma land_width a b : 0 ≤ a < 2 ^ 64 → 0 ≤ b → 0 ≤ Z.land a b < 2 ^ 64.
Proof.
  intros Ha Hb. split; [apply Z.land_nonneg; lia|]. 
  destruct (decide (Z.land a b = 0)) as [->|Hn]; [done|].
  assert (0 ≤ Z.land a b) by (apply Z.land_nonneg; lia).
  apply Z.log2_lt_pow2; [lia|]. assert (a ≠ 0) by (intros ->; done).
  pose proof (Z.log2_land a b ltac:(lia) ltac:(lia)). 
  assert (Z.log2 a < 64) by (apply Z.log2_lt_pow2; lia). lia.
Qed.

Lemma mask_ok_set m full p :
  0 ≤ p < 256 → mask_ok m full →
  mask_ok (upd_fn m (p / 64) (Z.lor (m (p / 64)) (Z.shiftl 1 (p mod 64)))) (upd_fn full p true).
Proof.
  intros Hp [Hw Hb]. pose proof (Z.mod_pos_bound p 64 eq_refl) as Hm.
  assert (0 ≤ p / 64 < 4) by (split; [apply Z.div_pos; lia|apply Z.div_lt_upper_bound; lia]).
  split.
  - intros w Hw'. unfold upd_fn. case_decide; [|by apply Hw]. apply lor_width; [by apply Hw|].
    rewrite Z.shiftl_1_l. split; [lia|]. apply Z.pow_lt_mono_r; lia.
  - intros p' Hp'. unfold upd_fn. pose proof (Z.mod_pos_bound p' 64 eq_refl).
    case_decide as Hq; [|rewrite decide_False by congruence; by apply Hb].
    rewrite Z.lor_spec, testbit_one by lia. rewrite <-Hq, Hb by done.
    case_decide as Hpp; [subst; rewrite bool_decide_true by done; apply orb_true_r|].
    rewrite bool_decide_false; [apply orb_false_r|]. intros Hmod. apply Hpp. by apply bit_index.
Qed.

Lemma mask_ok_clear m full p :
  0 ≤ p < 256 → mask_ok m full →
  mask_ok (upd_fn m (p / 64) (Z.land (m (p / 64)) (u64 (Z.lnot (Z.shiftl 1 (p mod 64)))))) (upd_fn full p false).
Proof.
  intros Hp [Hw Hb]. pose proof (Z.mod_pos_bound p 64 eq_refl) as Hm.
  assert (0 ≤ p / 64 < 4) by (split; [apply Z.div_pos; lia|apply Z.div_lt_upper_bound; lia]).
  split.
  - intros w Hw'. unfold upd_fn. case_decide; [|by apply Hw]. apply land_width; [by apply Hw|].
    apply (wrap_in_width 64). lia.
  - intros p' Hp'. unfold upd_fn. pose proof (Z.mod_pos_bound p' 64 eq_refl).
    case_decide as Hq; [|rewrite decide_False by congruence; by apply Hb].
    rewrite Z.land_spec, testbit_not64, testbit_one by lia. rewrite <-Hq, Hb by done.
    case_decide as Hpp; [subst; rewrite bool_decide_true by done; apply andb_false_r|].
    rewrite bool_decide_false; [apply andb_true_r|]. intros Hmod. apply Hpp. by apply bit_index.
Qed.

Lemma mask_ok_ext m full full' :
  (∀ p, 0 ≤ p < 256 → full p = full' p) → mask_ok m full → mask_ok m full'.
Proof. intros H [H1 H2]. split; [done|]. intros p Hp. rewrite <-H by done. by apply H2. Qed.

(** The scan finds the highest priority with a thread. *)
Lemma top_bit_spec m full n :
  (n ≤ 4)%nat → mask_ok m full →
  match top_bit n m with
  | None => ∀ p, 0 ≤ p < 64 * Z.of_nat n → full p = false
  | Some p => 0 ≤ p < 64 * Z.of_nat n ∧ full p = true ∧
              ∀ p', p < p' < 64 * Z.of_nat n → full p' = false
  end.
Proof.
  intros Hn Hok. pose proof Hok as [Hw Hb]. induction n as [|n IH]; cbn [top_bit]; [lia|].
  specialize (Hw (Z.of_nat n) ltac:(lia)).
  assert (∀ p, 64 * Z.of_nat n ≤ p < 64 * Z.of_nat (S n) →
    full p = Z.testbit (m (Z.of_nat n)) (p mod 64) ∧ p mod 64 = p - 64 * Z.of_nat n) as Hword.
  { intros p Hp. assert (p / 64 = Z.of_nat n) as Hd.
    { symmetry. apply (Z.div_unique p 64 _ (p - 64 * Z.of_nat n)); lia. }
    rewrite <-Hb, Hd by lia. split; [done|]. pose proof (Z.div_mod p 64). lia. }
  destruct (Z.eqb_spec (m (Z.of_nat n)) 0) as [Hz|Hz].
  - specialize (IH ltac:(lia)).
    assert (∀ p, 64 * Z.of_nat n ≤ p < 64 * Z.of_nat (S n) → full p = false) as Hzero.
    { intros p Hp. destruct (Hword p Hp) as [-> _]. rewrite Hz. apply Z.bits_0. }
    destruct (top_bit n m) as [p|].
    + destruct IH as (I1 & I2 & I3). split; [lia|]. split; [done|]. intros p' Hp'.
      destruct (decide (p' < 64 * Z.of_nat n)); [apply I3; lia|apply Hzero; lia].
    + intros p Hp. destruct (decide (p < 64 * Z.of_nat n)); [apply IH; lia|apply Hzero; lia].
  - assert (0 ≤ Z.log2 (m (Z.of_nat n)) < 64) as Hl.
    { split; [apply Z.log2_nonneg|]. apply Z.log2_lt_pow2; lia. }
    split; [lia|]. split.
    + destruct (Hword (Z.of_nat n * 64 + Z.log2 (m (Z.of_nat n)))) as [-> ->]; [lia|].
      replace (Z.of_nat n * 64 + Z.log2 (m (Z.of_nat n)) - 64 * Z.of_nat n)
        with (Z.log2 (m (Z.of_nat n))) by lia. apply Z.bit_log2. lia.
    + intros p' Hp'. destruct (Hword p') as [-> ->]; [lia|]. apply Z.bits_above_log2; lia.
Qed.

(** ** The representation *)

Definition queues : Type := Z * Z * Z → list N.
Implicit Types (Q : queues) (k : Z * Z * Z).

(** The queue a thread belongs in. *)
Definition key s t : Z * Z * Z :=
  (home_cpu (tasks s t), rq_dom_of (tasks s t), priority (tasks s t)).

Definition full Q c d p : bool := negb (bool_decide (Q (c, d, p) = [])).

Record rq_rep s Q : Prop := RqRep {
  rr_queue : ∀ c q d p, rqs s c = Some q → 0 ≤ d < IRIS_NUM_DOMAINS → 0 ≤ p < 256 →
    chain (nxt s) (rq_head q d p) (Q (c, d, p)) ∧ rq_tail q d p = last (Q (c, d, p));
  rr_mask  : ∀ c q d, rqs s c = Some q → 0 ≤ d < IRIS_NUM_DOMAINS → mask_ok (rq_mask q d) (full Q c d);
  rr_mem   : ∀ k t, t ∈ Q k ↔ rq_queued (tasks s t) = true ∧ key s t = k;
  rr_nodup : ∀ k, NoDup (Q k);
  rr_task  : ∀ t, 0 ≤ priority (tasks s t) < 256 ∧ 0 ≤ domain (tasks s t);
  rr_bound : ∀ t, rq_queued (tasks s t) = true →
    (N.to_nat t < task_bound s)%nat ∧ is_Some (rqs s (home_cpu (tasks s t)));
}.

Lemma rq_dom_range s t : 0 ≤ domain (tasks s t) → 0 ≤ rq_dom_of (tasks s t) < IRIS_NUM_DOMAINS.
Proof. intros. unfold rq_dom_of. destruct (Z.ltb_spec (domain (tasks s t)) IRIS_NUM_DOMAINS); done. Qed.

(** Everything of the state but the queue links. *)
Definition sans_links (k : task) : task := set_next None (set_queued false k).
Definition rq_frame s s' : Prop :=
  (∀ x, sans_links (tasks s' x) = sans_links (tasks s x)) ∧
  task_bound s' = task_bound s ∧ current s' = current s ∧ thread_list s' = thread_list s ∧
  idle_thread s' = idle_thread s ∧ scs s' = scs s ∧ cur_domain s' = cur_domain s ∧
  scheduler_ticks s' = scheduler_ticks s ∧ wall_ticks s' = wall_ticks s.

Lemma rq_frame_refl s : rq_frame s s.
Proof. done. Qed.
Lemma rq_frame_trans s1 s2 s3 : rq_frame s1 s2 → rq_frame s2 s3 → rq_frame s1 s3.
Proof.
  intros (A1 & A2 & A3 & A4 & A5 & A6 & A7 & A8 & A9) (B1 & B2 & B3 & B4 & B5 & B6 & B7 & B8 & B9).
  split; [intros x; by rewrite B1|]. split_and!; congruence.
Qed.

Lemma sans_links_key (k k' : task) : sans_links k = sans_links k' →
  home_cpu k = home_cpu k' ∧ rq_dom_of k = rq_dom_of k' ∧ priority k = priority k' ∧
  domain k = domain k' ∧ state k = state k'.
Proof.
  intros H. unfold rq_dom_of.
  assert (domain k = domain k') as -> by exact (f_equal domain H).
  split_and!; [exact (f_equal home_cpu H)|done|exact (f_equal priority H)|done|exact (f_equal state H)].
Qed.

Lemma rq_frame_key s s' t : rq_frame s s' → key s' t = key s t.
Proof. intros [H _]. destruct (sans_links_key _ _ (H t)) as (E1 & E2 & E3 & _). unfold key. congruence. Qed.

Lemma upd2_spec {A} (f : Z → Z → A) i j v i' j' :
  upd2 f i j v i' j' = if decide ((i', j') = (i, j)) then v else f i' j'.
Proof. unfold upd2, upd_fn. repeat case_decide; naive_solver. Qed.

Lemma tasks_upd t f s x : tasks (upd_task t f s) x = if decide (x = t) then f (tasks s t) else tasks s x.
Proof. done. Qed.

Lemma nxt_upd t f s x : nxt (upd_task t f s) x = if decide (x = t) then rq_next (f (tasks s t)) else nxt s x.
Proof. unfold nxt. rewrite tasks_upd. by case_decide. Qed.

(** A queue changes at one place: the parts of [rq_rep] that follow. *)
Lemma rep_members s s' Q k l :
  rq_rep s Q → rq_frame s s' → NoDup l →
  (∀ t, t ∈ l ↔ rq_queued (tasks s' t) = true ∧ key s t = k) →
  (∀ t, key s t ≠ k → rq_queued (tasks s' t) = rq_queued (tasks s t)) →
  (∀ k' t, t ∈ upd_fn Q k l k' ↔ rq_queued (tasks s' t) = true ∧ key s' t = k') ∧
  (∀ k', NoDup (upd_fn Q k l k')) ∧
  (∀ t, 0 ≤ priority (tasks s' t) < 256 ∧ 0 ≤ domain (tasks s' t)).
Proof.
  intros Hrep Hfr Hnd Hl Hother. split; [|split].
  - intros k' t. rewrite (rq_frame_key s s' t Hfr). destruct (decide (k' = k)) as [->|Hk].
    + rewrite upd_fn_same. apply Hl.
    + rewrite upd_fn_other by done. rewrite (rr_mem _ _ Hrep).
      split; intros [H1 H2]; (split; [|done]); [rewrite Hother|rewrite <-Hother]; congruence.
  - intros k'. unfold upd_fn. case_decide; [done|apply Hrep].
  - intros t. destruct (proj1 Hfr t). destruct (sans_links_key _ _ (proj1 Hfr t)) as (_ & _ & -> & -> & _).
    apply Hrep.
Qed.

(** The bitmap after one queue changed. *)
Lemma full_upd Q c d p l c' d' p' :
  full (upd_fn Q (c, d, p) l) c' d' p' =
    if decide ((c', d', p') = (c, d, p)) then negb (bool_decide (l = [])) else full Q c' d' p'.
Proof. unfold full, upd_fn. case_decide; done. Qed.

Lemma elem_other s Q k k' x : rq_rep s Q → x ∈ Q k → k' ≠ k → x ∉ Q k'.
Proof. intros Hr Hx Hk Hx'. apply (rr_mem _ _ Hr) in Hx, Hx'. naive_solver. Qed.

(** An operation that changes one queue, [(c, d, p)], to [l]: what it has to
    establish. *)
Lemma rep_replace s s' Q c q q' d p l :
  rq_rep s Q → rq_frame s s' → rqs s c = Some q →
  (∀ c', rqs s' c' = if decide (c' = c) then Some q' else rqs s c') →
  NoDup l → (∀ t, t ∈ l ↔ rq_queued (tasks s' t) = true ∧ key s t = (c, d, p)) →
  (∀ t, key s t ≠ (c, d, p) → rq_queued (tasks s' t) = rq_queued (tasks s t) ∧ nxt s' t = nxt s t) →
  (∀ t, t ∈ l → (N.to_nat t < task_bound s)%nat) →
  chain (nxt s') (rq_head q' d p) l → rq_tail q' d p = last l →
  mask_ok (rq_mask q' d) (upd_fn (full Q c d) p (negb (bool_decide (l = [])))) →
  (∀ d' p', (d', p') ≠ (d, p) → rq_head q' d' p' = rq_head q d' p' ∧ rq_tail q' d' p' = rq_tail q d' p') →
  (∀ d', d' ≠ d → rq_mask q' d' = rq_mask q d') →
  rq_rep s' (upd_fn Q (c, d, p) l).
Proof.
  intros Hrep Hfr Hq Hq' Hnd Hmem Hoth Hbnd Hch Htl Hmask Hsame Hmsame.
  destruct (rep_members s s' Q (c, d, p) l Hrep Hfr Hnd Hmem (λ t Ht, proj1 (Hoth t Ht))) as (M1 & M2 & M3).
  split; [| |exact M1|exact M2|exact M3|].
  - intros c' q0 d' p' Hc' Hd' Hp'. rewrite Hq' in Hc'.
    destruct (decide ((c', d', p') = (c, d, p))) as [Heq|Hne].
    + injection Heq as -> -> ->. rewrite decide_True in Hc' by done. injection Hc' as <-.
      rewrite upd_fn_same. done.
    + rewrite upd_fn_other by done.
      assert (∀ o, chain (nxt s) o (Q (c', d', p')) → chain (nxt s') o (Q (c', d', p'))) as Hext.
      { intros o. apply chain_ext. intros x Hx. symmetry. apply Hoth.
        apply (rr_mem _ _ Hrep) in Hx as [_ Hx]. congruence. }
      destruct (decide (c' = c)) as [->|].
      * injection Hc' as <-. destruct (Hsame d' p') as [-> ->]; [congruence|].
        destruct (rr_queue _ _ Hrep c q d' p' Hq Hd' Hp'). split; [by apply Hext|done].
      * destruct (rr_queue _ _ Hrep c' q0 d' p' Hc' Hd' Hp'). split; [by apply Hext|done].
  - intros c' q0 d' Hc' Hd'. rewrite Hq' in Hc'. destruct (decide (c' = c)) as [->|Hne].
    + injection Hc' as <-. destruct (decide (d' = d)) as [->|Hd].
      * eapply mask_ok_ext; [|exact Hmask]. intros p' Hp'. rewrite full_upd. unfold upd_fn.
        case_decide; [subst; by rewrite decide_True|]. rewrite decide_False; congruence.
      * rewrite Hmsame by done. eapply mask_ok_ext; [|by apply (rr_mask _ _ Hrep c q)].
        intros p' Hp'. rewrite full_upd, decide_False; congruence.
    + eapply mask_ok_ext; [|by apply (rr_mask _ _ Hrep c' q0)].
      intros p' Hp'. rewrite full_upd, decide_False; congruence.
  - intros t Ht. destruct Hfr as (Hfr & Hb & _). rewrite Hb, Hq'.
    destruct (sans_links_key _ _ (Hfr t)) as (-> & _).
    destruct (decide (key s t = (c, d, p))) as [Hk|Hk].
    + split; [apply Hbnd, Hmem; done|]. injection Hk as -> _ _. rewrite decide_True by done. eauto.
    + rewrite (proj1 (Hoth t Hk)) in Ht. destruct (rr_bound _ _ Hrep t Ht) as [H1 H2].
      split; [done|]. case_decide; [eauto|done].
Qed.

(** The queue a thread belongs in. *)
Lemma queue_facts s Q t q (c := home_cpu (tasks s t)) (d := rq_dom_of (tasks s t)) (p := priority (tasks s t)) :
  rq_rep s Q → rqs s c = Some q →
  0 ≤ p < 256 ∧ 0 ≤ d < IRIS_NUM_DOMAINS ∧ chain (nxt s) (rq_head q d p) (Q (key s t)) ∧
  rq_tail q d p = last (Q (key s t)) ∧ mask_ok (rq_mask q d) (full Q c d) ∧ NoDup (Q (key s t)) ∧
  ∀ x, x ∈ Q (key s t) → (N.to_nat x < task_bound s)%nat.
Proof.
  intros Hrep Hq. pose proof (rr_task _ _ Hrep t) as [Hp Hd]. apply rq_dom_range in Hd.
  destruct (rr_queue _ _ Hrep c q _ _ Hq Hd Hp) as [Hch Htl]. split; [done|]. split; [done|]. split; [done|].
  split; [done|]. split; [by apply (rr_mask _ _ Hrep)|]. split; [apply Hrep|].
  intros x Hx. apply (rr_mem _ _ Hrep) in Hx as [Hx _]. by apply (rr_bound _ _ Hrep).
Qed.

Lemma link_empty s Q t q (c := home_cpu (tasks s t)) :
  rq_rep s Q → rqs s c = Some q → rq_queued (tasks s t) = false → (N.to_nat t < task_bound s)%nat →
  Q (key s t) = [] →
  rq_rep (rq_link_locked c q t s) (upd_fn Q (key s t) (Q (key s t) ++ [t])) ∧
  rq_frame s (rq_link_locked c q t s).
Proof.
  intros Hrep Hq Hnq Hbnd HL. unfold rq_link_locked. rewrite Hnq. cbv zeta.
  destruct (queue_facts s Q t q Hrep Hq) as (Hp & Hd & Hch & Htl & Hmask & _ & Hqb). fold c in Hch, Htl, Hmask.
  assert (t ∉ Q (key s t)) as Ht by (rewrite (rr_mem _ _ Hrep); intros [? _]; congruence).
  set (d := rq_dom_of (tasks s t)) in *. set (p := priority (tasks s t)) in *. rewrite HL in Hch, Htl, Ht, Hqb |- *.
  inversion Hch as [Hh|]. cbn [app].
  set (s' := rq_live_inc _). assert (rq_frame s s') as Hfr.
  { split; [|done]. intros x. cbn [s' rq_live_inc with_counts tasks put_rq with_rqs]. rewrite tasks_upd.
    case_decide; [by subst|done]. }
  split; [|exact Hfr].
  apply (rep_replace s s' Q c q (set_mask d (mask_word p) (Z.lor (rq_mask q d (mask_word p)) (mask_bit p))
    (set_tail d p (Some t) (set_head d p (Some t) q))) d p [t]); try done.
  - apply NoDup_singleton.
  - intros x. cbn [s' rq_live_inc with_counts tasks put_rq with_rqs]. rewrite tasks_upd, list_elem_of_singleton.
    case_decide as Hx; [subst; done|]. split; [done|]. intros [Hx1 Hx2].
    assert (x ∈ Q (key s t)) as Hin by (apply (rr_mem _ _ Hrep); done). by rewrite HL in Hin; apply not_elem_of_nil in Hin.
  - intros x Hx. change (nxt s' x) with (nxt (upd_task t (λ k : task, set_next None (set_queued true k)) s) x).
    rewrite nxt_upd. cbn [s' rq_live_inc with_counts tasks put_rq with_rqs]. rewrite tasks_upd.
    rewrite !decide_False by (intros ->; by apply Hx). done.
  - intros x ->%list_elem_of_singleton. done.
  - cbn [set_mask set_tail set_head rq_head]. rewrite upd2_spec, decide_True by done. constructor.
    change (nxt s' t) with (nxt (upd_task t (λ k : task, set_next None (set_queued true k)) s) t).
    rewrite nxt_upd, decide_True by done. constructor.
  - cbn [set_mask set_tail set_head rq_tail]. by rewrite upd2_spec, decide_True.
  - cbn [set_mask set_tail set_head rq_mask]. unfold upd2. rewrite upd_fn_same, mask_word_eq, mask_bit_eq.
    by apply mask_ok_set.
  - intros d' p' Hne. cbn [set_mask set_tail set_head rq_head rq_tail]. by rewrite !upd2_spec, !decide_False.
  - intros d' Hne. cbn [set_mask set_tail set_head rq_mask]. unfold upd2. by rewrite upd_fn_other.
Qed.

Lemma link_nonempty s Q t q y l0 (c := home_cpu (tasks s t)) :
  rq_rep s Q → rqs s c = Some q → rq_queued (tasks s t) = false → (N.to_nat t < task_bound s)%nat →
  Q (key s t) = y :: l0 →
  rq_rep (rq_link_locked c q t s) (upd_fn Q (key s t) (Q (key s t) ++ [t])) ∧
  rq_frame s (rq_link_locked c q t s).
Proof.
  intros Hrep Hq Hnq Hbnd HL. unfold rq_link_locked. rewrite Hnq. cbv zeta.
  destruct (queue_facts s Q t q Hrep Hq) as (Hp & Hd & Hch & Htl & Hmask & _ & Hqb). fold c in Hch, Htl, Hmask.
  assert (t ∉ Q (key s t)) as Ht by (rewrite (rr_mem _ _ Hrep); intros [? _]; congruence).
  set (d := rq_dom_of (tasks s t)) in *. set (p := priority (tasks s t)) in *. rewrite HL in Hch, Htl, Ht, Hqb |- *.
  assert (∃ z, last (y :: l0) = Some z) as [z Hz] by (destruct (last (y :: l0)) eqn:E; [eauto|by apply last_None in E]).
  rewrite (chain_head _ _ _ Hch), Htl, Hz. cbn [head].
  assert (z ∈ Q (key s t)) as Hzin by (rewrite HL; by apply last_Some_elem_of).
  pose proof (rr_mem _ _ Hrep (key s t) z) as Hzm. apply Hzm in Hzin as [Hzq Hzk].
  assert (z ≠ t) as Hzt by congruence.
  set (s' := rq_live_inc _). assert (rq_frame s s') as Hfr.
  { split; [|done]. intros x. cbn [s' rq_live_inc with_counts tasks put_rq with_rqs]. rewrite !tasks_upd.
    repeat case_decide; by subst. }
  assert (∀ x, tasks s' x = if decide (x = z) then set_next (Some t) (tasks s z)
    else if decide (x = t) then set_next None (set_queued true (tasks s t)) else tasks s x) as Htasks.
  { intros x. cbn [s' rq_live_inc with_counts tasks put_rq with_rqs]. rewrite !tasks_upd.
    rewrite (decide_False (P := z = t)) by done. done. }
  split; [|exact Hfr]. rewrite <-HL.
  apply (rep_replace s s' Q c q (set_tail d p (Some t) q) d p (Q (key s t) ++ [t])); try done.
  - apply NoDup_app. split; [apply Hrep|]. split; [|apply NoDup_singleton].
    intros x Hx ->%list_elem_of_singleton. by rewrite HL in Hx.
  - intros x. rewrite Htasks, elem_of_app, list_elem_of_singleton, (rr_mem _ _ Hrep).
    case_decide as Hx1; [subst; simpl; naive_solver|]. case_decide as Hx2; [subst; simpl; naive_solver|]. naive_solver.
  - intros x Hx. unfold nxt. rewrite Htasks.
    rewrite (decide_False (P := x = z)) by (intros ->; apply Hx; exact Hzk).
    rewrite (decide_False (P := x = t)) by (intros ->; by apply Hx). done.
  - intros x [Hx|Hx]%elem_of_app; [rewrite HL in Hx; by apply Hqb|apply list_elem_of_singleton in Hx; by subst].
  - eapply chain_ext; [|apply (chain_snoc (nxt s) _ _ z t); [rewrite HL; exact Hch|by rewrite HL|apply Hrep|by rewrite HL]].
    intros x _. unfold nxt, upd_fn. rewrite Htasks. repeat case_decide; done.
  - cbn [set_tail rq_tail]. rewrite upd2_spec, decide_True, last_snoc by done. done.
  - eapply mask_ok_ext; [|exact Hmask]. intros p' Hp'. unfold upd_fn. case_decide as Hpp; [subst p'|done].
    unfold full. change (c, d, p) with (key s t). rewrite HL. rewrite !bool_decide_false; [done| |done].
    by rewrite app_nil; intros [].
  - intros d' p' Hne. cbn [set_tail rq_head rq_tail]. by rewrite upd2_spec, decide_False.
Qed.

(** [rq_link_locked] appends the thread to its queue. *)
Lemma link_spec s Q t q (c := home_cpu (tasks s t)) :
  rq_rep s Q → rqs s c = Some q → rq_queued (tasks s t) = false → (N.to_nat t < task_bound s)%nat →
  rq_rep (rq_link_locked c q t s) (upd_fn Q (key s t) (Q (key s t) ++ [t])) ∧
  rq_frame s (rq_link_locked c q t s).
Proof.
  intros Hrep Hq Hnq Hbnd.
  assert (Q (key s t) = [] ∨ ∃ y l0, Q (key s t) = y :: l0) as [HL|(y & l0 & HL)] by (destruct (Q (key s t)); eauto).
  - by apply link_empty.
  - by eapply link_nonempty.
Qed.

Lemma bounded_length l n : NoDup l → (∀ x, x ∈ l → (N.to_nat x < n)%nat) → (length l ≤ n)%nat.
Proof.
  intros Hnd Hb. rewrite <-(length_seq n 0), <-(length_fmap N.to_nat l).
  apply submseteq_length, NoDup_submseteq.
  - apply NoDup_fmap; [intros x y; apply N2Nat.inj|done].
  - intros y (x & -> & Hx)%list_elem_of_fmap. apply elem_of_seq. specialize (Hb x Hx). lia.
Qed.

(** The queue without one thread. *)
Definition without t l : list N := filter (λ x, x ≠ t) l.

Lemma without_split t l1 l2 : NoDup (l1 ++ t :: l2) → without t (l1 ++ t :: l2) = l1 ++ l2.
Proof.
  intros Hnd. unfold without. rewrite filter_app, filter_cons, decide_False by (intros H; by apply H).
  apply NoDup_app in Hnd as (_ & Hnd & H2). apply NoDup_cons in H2 as [H2 _].
  assert (∀ l, t ∉ l → filter (λ x, x ≠ t) l = l) as Hf.
  { intros l Hl. induction l as [|y l IH]; [done|]. rewrite not_elem_of_cons in Hl.
    rewrite filter_cons, decide_True by naive_solver. f_equal. apply IH. naive_solver. }
  rewrite !Hf; [done|done|]. intros H. apply (Hnd t H). left.
Qed.

Lemma unlink_other s t q c : rq_queued (tasks s t) = false → rq_unlink_locked c q t s = Ret s.
Proof. intros H. unfold rq_unlink_locked. by rewrite H. Qed.

Lemma unlink_heads_spec d p q (f : N → option N) t l1 l2 (ful : Z → bool) :
  0 ≤ p < 256 → chain f (rq_head q d p) (l1 ++ t :: l2) → NoDup (l1 ++ t :: l2) →
  rq_tail q d p = last (l1 ++ t :: l2) → mask_ok (rq_mask q d) ful → ful p = true →
  let q' := unlink_heads d p (last l1) (f t) t q in
  chain (upd_fn_opt f (last l1) (f t)) (rq_head q' d p) (l1 ++ l2) ∧
  rq_tail q' d p = last (l1 ++ l2) ∧
  mask_ok (rq_mask q' d) (upd_fn ful p (negb (bool_decide (l1 ++ l2 = [])))) ∧
  (∀ d' p', (d', p') ≠ (d, p) → rq_head q' d' p' = rq_head q d' p' ∧ rq_tail q' d' p' = rq_tail q d' p') ∧
  (∀ d', d' ≠ d → rq_mask q' d' = rq_mask q d').
Proof.
  intros Hp Hch Hnd Htl Hm Hf q'. set (q1 := match last l1 with None => set_head d p (f t) q | Some _ => q end).
  set (q2 := if decide (rq_tail q1 d p = Some t) then set_tail d p (last l1) q1 else q1).
  assert (rq_head q2 d p = head (l1 ++ l2) ∧ chain (upd_fn_opt f (last l1) (f t)) (rq_head q2 d p) (l1 ++ l2)) as [Hh Hc].
  { assert (rq_head q2 = rq_head q1) as -> by (unfold q2; by case_decide).
    assert (chain (upd_fn_opt f (last l1) (f t)) (rq_head q1 d p) (l1 ++ l2)) as Hc.
    { unfold q1. destruct (last l1) as [x|] eqn:Hx; cbn [upd_fn_opt].
      - by apply (chain_unlink f _ l1 x t l2).
      - apply last_None in Hx as ->. cbn [set_head rq_head app] in *. rewrite upd2_spec, decide_True by done.
        by apply chain_unlink_first in Hch. }
    split; [|exact Hc]. by apply chain_head in Hc. }
  assert (rq_tail q2 d p = last (l1 ++ l2)) as Htl2.
  { assert (rq_tail q1 d p = last (l1 ++ t :: l2)) as Ht1 by (unfold q1; by destruct (last l1)).
    unfold q2. rewrite Ht1. destruct l2 as [|y l2].
    - rewrite last_snoc, decide_True, app_nil_r by done. cbn [set_tail rq_tail].
      by rewrite upd2_spec, decide_True.
    - rewrite last_app_cons, last_cons_cons. rewrite decide_False; [by rewrite Ht1, !last_app_cons, last_cons_cons|].
      intros Hy. apply last_Some_elem_of in Hy. apply NoDup_app in Hnd as (_ & _ & Hnd).
      apply NoDup_cons in Hnd as [Hnd _]. done. }
  assert (rq_mask q2 = rq_mask q) as Hm2 by (unfold q2, q1; case_decide; by destruct (last l1)).
  assert (∀ d' p', (d', p') ≠ (d, p) → rq_head q2 d' p' = rq_head q d' p' ∧ rq_tail q2 d' p' = rq_tail q d' p') as Hs2.
  { intros d' p' Hne. unfold q2, q1. case_decide; destruct (last l1); simpl; rewrite ?upd2_spec, ?decide_False by done; done. }
  change q' with (if decide (rq_head q2 d p = None) then set_mask d (mask_word p)
    (Z.land (rq_mask q2 d (mask_word p)) (u64 (Z.lnot (mask_bit p)))) q2 else q2).
  clearbody q2. case_decide as Hnone; cbn [set_mask rq_head rq_tail rq_mask].
  - rewrite Hnone in Hh. destruct (l1 ++ l2) as [|y l] eqn:Hl; [|done].
    split; [by rewrite <-Hl in *|]. split; [done|]. rewrite Hm2. split; [|split; [done|]].
    + unfold upd2. rewrite upd_fn_same, mask_word_eq, mask_bit_eq. by apply mask_ok_clear.
    + intros d' Hd'. unfold upd2. by rewrite upd_fn_other.
  - split; [done|]. split; [done|]. rewrite Hm2. split; [|done].
    eapply mask_ok_ext; [|exact Hm]. intros p' Hp'. unfold upd_fn. case_decide; [|done]. subst p'.
    rewrite bool_decide_false; [done|]. intros Hl. apply Hnone. by rewrite Hh, Hl.
Qed.


(** [rq_unlink_locked] takes a queued thread out, wherever it is in its queue. *)
Lemma unlink_spec s Q t q (c := home_cpu (tasks s t)) :
  rq_rep s Q → rqs s c = Some q → rq_queued (tasks s t) = true →
  returns (rq_unlink_locked c q t s) (λ s',
    rq_rep s' (upd_fn Q (key s t) (without t (Q (key s t)))) ∧ rq_frame s s' ∧
    rq_queued (tasks s' t) = false ∧ is_Some (rqs s' c)).
Proof.
  intros Hrep Hq Hqd. destruct (queue_facts s Q t q Hrep Hq) as (Hp & Hd & Hch & Htl & Hmask & Hnd & Hqb).
  fold c in Hch, Htl, Hmask. assert (t ∈ Q (key s t)) as Hin by (by apply (rr_mem _ _ Hrep)).
  pose proof (bounded_length _ _ Hnd Hqb) as Hlen.
  apply list_elem_of_split in Hin as (l1 & l2 & HL).
  unfold rq_unlink_locked. rewrite Hqd. cbn [negb]. cbv zeta.
  set (d := rq_dom_of (tasks s t)) in *. set (p := priority (tasks s t)) in *.
  rewrite HL in Hch, Htl, Hnd, Hlen. rewrite length_app in Hlen. simpl in Hlen.
  assert (t ∉ l1) as Ht1.
  { apply NoDup_app in Hnd as (_ & Hnd & _). intros H. apply (Hnd t H). left. }
  assert (t ∉ l2) as Ht2.
  { apply NoDup_app in Hnd as (_ & _ & Hnd). by apply NoDup_cons in Hnd as [? _]. }
  rewrite (find_prev_spec s l1 t l2) by (done || lia). cbn [mbind res_bind].
  rewrite HL, without_split by done.
  replace (match last l1 with Some x => Some x | None => None end) with (last l1) by (by destruct (last l1)).
  change (rq_next (tasks s t)) with (nxt s t). cbn [returns].
  set (s' := rq_live_dec _).
  assert (∀ x, tasks s' x = if decide (x = t) then set_next None (set_queued false (tasks s t))
    else if decide (Some x = last l1) then set_next (nxt s t) (tasks s x) else tasks s x) as Htasks.
  { intros x. cbn [s' rq_live_dec with_counts tasks put_rq with_rqs]. rewrite tasks_upd.
    destruct (last l1) as [y|] eqn:Hy; cbn [put_rq with_rqs tasks].
    - assert (t ≠ y) by (intros ->; apply Ht1; by apply last_Some_elem_of).
      rewrite !tasks_upd, (decide_False (P := t = y)) by done. repeat case_decide; congruence.
    - case_decide; done. }
  assert (∀ x, x ∈ l1 ++ l2 → key s x = key s t ∧ rq_queued (tasks s x) = true) as Hmem.
  { intros x Hx. assert (x ∈ Q (key s t)) as Hx' by (rewrite HL; set_solver).
    apply (rr_mem _ _ Hrep) in Hx'. tauto. }
  assert (rq_frame s s') as Hfr.
  { split; [|by destruct (last l1)]. intros x. rewrite Htasks. repeat case_decide; by subst. }
  destruct (unlink_heads_spec d p q (nxt s) t l1 l2 (full Q c d)) as (U1 & U2 & U3 & U4 & U5); [done..| |].
  { unfold full. change (c, d, p) with (key s t). rewrite HL. by destruct l1. }
  split; [|split; [exact Hfr|split]].
  - apply (rep_replace s s' Q c q (unlink_heads d p (last l1) (nxt s t) t q)); try done.
    + intros c'. by destruct (last l1).
    + apply NoDup_app. apply NoDup_app in Hnd as (N1 & N2 & N3). apply NoDup_cons in N3 as [_ N3].
      split; [done|]. split; [|done]. intros x Hx Hx'. apply (N2 x Hx). by right.
    + intros x. rewrite Htasks. case_decide as Hx; [subst; set_solver|].
      assert (rq_queued (if decide (Some x = last l1) then set_next (nxt s t) (tasks s x) else tasks s x) =
        rq_queued (tasks s x)) as -> by (by case_decide).
      assert (x ∈ l1 ++ l2 ↔ x ∈ Q (key s t)) as -> by (rewrite HL; clear -Hx; set_solver). apply (rr_mem _ _ Hrep).
    + intros x Hx. unfold nxt. rewrite Htasks. rewrite (decide_False (P := x = t)) by (intros ->; by apply Hx).
      rewrite decide_False; [done|]. intros Hl. symmetry in Hl. apply last_Some_elem_of in Hl.
      apply Hx. apply Hmem. set_solver.
    + intros x Hx. apply Hqb. rewrite HL. set_solver.
    + eapply chain_ext; [|exact U1]. intros x Hx. change (nxt s' x) with (rq_next (tasks s' x)). rewrite Htasks.
      rewrite (decide_False (P := x = t)) by set_solver. clear.
      destruct (last l1) as [y|]; cbn [upd_fn_opt]; [|by rewrite decide_False].
      unfold upd_fn. destruct (decide (x = y)) as [->|]; [by rewrite decide_True|].
      rewrite decide_False by congruence. done.
  - rewrite Htasks, decide_True by done. done.
  - destruct (last l1); cbn [s' rq_live_dec with_counts rqs upd_task with_tasks put_rq with_rqs];
      rewrite upd_fn_same; eauto.
Qed.
