(* ===== verification/RunqSpec.v ===== *)
(** * Run queues: the abstract scheduler they refine

    The specification of a run queue is a list of threads per CPU, domain and
    priority; [pq_step] says what each operation does to the lists.  The theorems
    show that the pointers and bitmaps of [Runq] implement it, and what that means
    for the thread the dispatcher gets. *)

From Stdlib Require Import ZArith Lia.
From stdpp Require Import base numbers gmap list.
From S2P Require Import Prelude PmmInv Kschedctx Runq RunqInv.
Local Open Scope Z_scope.
Implicit Types (s : sched) (t x : N) (c d p : Z) (q : CpuRunQueue) (l : list N) (Q : queues).

(** ** The abstract operations *)

Inductive rq_op :=
  | OpEnqueue t | OpRemove t | OpDequeue c | OpSetPriority t p | OpSetDomain t d.

Definition rq_exec (op : rq_op) s : res (option N * sched) :=
  match op with
  | OpEnqueue t => Ret (None, rq_enqueue t s)
  | OpRemove t => s ← rq_remove t s; Ret (None, s)
  | OpDequeue c => rq_dequeue_best c s
  | OpSetPriority t p => s ← sched_set_priority t p s; Ret (None, s)
  | OpSetDomain t d => s ← sched_set_domain t d s; Ret (None, s)
  end.

(** Threads that exist, on CPUs with a run queue, with fields in range. *)
Definition op_valid (op : rq_op) s : Prop :=
  match op with
  | OpEnqueue t | OpRemove t =>
    (N.to_nat t < task_bound s)%nat ∧ is_Some (rqs s (home_cpu (tasks s t)))
  | OpDequeue c => is_Some (rqs s c)
  | OpSetPriority t v | OpSetDomain t v =>
    (N.to_nat t < task_bound s)%nat ∧ is_Some (rqs s (home_cpu (tasks s t))) ∧ 0 ≤ v < 256
  end.

(** The keys of the threads and their queues. *)
Definition pqs : Type := (N → Z * Z * Z) * queues.

Definition push_back (key : N → Z * Z * Z) t Q : queues :=
  if decide (t ∈ Q (key t)) then Q else upd_fn Q (key t) (Q (key t) ++ [t]).
Definition take_out (key : N → Z * Z * Z) t Q : queues :=
  if decide (t ∈ Q (key t)) then upd_fn Q (key t) (without t (Q (key t))) else Q.

(** A thread whose key changes goes to the end of its new queue. *)
Definition move (key key' : N → Z * Z * Z) t Q : queues :=
  if decide (t ∈ Q (key t)) then push_back key' t (take_out key t Q) else Q.
Definition clip d : Z := if d <? IRIS_NUM_DOMAINS then d else 0.

(** [dom] is the current domain. *)
Inductive pq_step (dom : Z) : rq_op → pqs → option N → pqs → Prop :=
  | pq_enqueue t key Q : pq_step dom (OpEnqueue t) (key, Q) None (key, push_back key t Q)
  | pq_remove t key Q : pq_step dom (OpRemove t) (key, Q) None (key, take_out key t Q)
  | pq_dequeue c p t l key Q :
      0 ≤ p < 256 → Q (c, dom, p) = t :: l → (∀ p', p < p' < 256 → Q (c, dom, p') = []) →
      pq_step dom (OpDequeue c) (key, Q) (Some t) (key, upd_fn Q (c, dom, p) l)
  | pq_idle c key Q :
      (∀ p, 0 ≤ p < 256 → Q (c, dom, p) = []) →
      pq_step dom (OpDequeue c) (key, Q) None (key, Q)
  | pq_keep op t v key Q :
      op = OpSetPriority t v ∧ v = (key t).2 ∨ op = OpSetDomain t v ∧ clip v = (key t).1.2 →
      pq_step dom op (key, Q) None (key, Q)
  | pq_priority t p key key' Q :
      (∀ x, key' x = if decide (x = t) then ((key t).1, p) else key x) →
      pq_step dom (OpSetPriority t p) (key, Q) None (key', move key key' t Q)
  | pq_domain t d key key' Q :
      (∀ x, key' x = if decide (x = t) then ((key t).1.1, clip d, (key t).2) else key x) →
      pq_step dom (OpSetDomain t d) (key, Q) None (key', move key key' t Q).

(** ** The operations refine it *)

Lemma rep_queued s Q t : rq_rep s Q → t ∈ Q (key s t) ↔ rq_queued (tasks s t) = true.
Proof. intros Hr. rewrite (rr_mem _ _ Hr). tauto. Qed.

Lemma enqueue_spec s Q t :
  rq_rep s Q → (N.to_nat t < task_bound s)%nat → is_Some (rqs s (home_cpu (tasks s t))) →
  rq_rep (rq_enqueue t s) (push_back (key s) t Q) ∧ rq_frame s (rq_enqueue t s).
Proof.
  intros Hr Hb [q Hq]. unfold rq_enqueue. rewrite Hq. unfold push_back.
  destruct (rq_queued (tasks s t)) eqn:Hqd.
  - rewrite decide_True by (by apply rep_queued). unfold rq_link_locked. rewrite Hqd.
    split; [|done]. by destruct Hr.
  - rewrite decide_False by (rewrite rep_queued by done; congruence). by apply link_spec.
Qed.

Lemma remove_spec s Q t :
  rq_rep s Q → is_Some (rqs s (home_cpu (tasks s t))) →
  returns (rq_remove t s) (λ s', rq_rep s' (take_out (key s) t Q) ∧ rq_frame s s' ∧
    rq_queued (tasks s' t) = false ∧ is_Some (rqs s' (home_cpu (tasks s t)))).
Proof.
  intros Hr [q Hq]. unfold rq_remove. rewrite Hq. unfold take_out.
  destruct (rq_queued (tasks s t)) eqn:Hqd.
  - rewrite decide_True by (by apply rep_queued). by apply unlink_spec.
  - rewrite decide_False by (rewrite rep_queued by done; congruence).
    rewrite unlink_other by done. cbn [returns]. split_and!; done || eauto.
Qed.

Lemma sel_domain_range s : 0 ≤ cur_domain s → 0 ≤ sel_domain s < IRIS_NUM_DOMAINS.
Proof. intros. unfold sel_domain. destruct (Z.leb_spec IRIS_NUM_DOMAINS (cur_domain s)); [done|lia]. Qed.

(** What the bitmap scan finds in terms of the queues. *)
Lemma top_spec s Q c q :
  rq_rep s Q → rqs s c = Some q → 0 ≤ cur_domain s →
  match top_bit 4 (rq_mask q (sel_domain s)) with
  | None => ∀ p, 0 ≤ p < 256 → Q (c, sel_domain s, p) = []
  | Some p => 0 ≤ p < 256 ∧ Q (c, sel_domain s, p) ≠ [] ∧
              ∀ p', p < p' < 256 → Q (c, sel_domain s, p') = []
  end.
Proof.
  intros Hr Hq Hc. pose proof (rr_mask _ _ Hr c q _ Hq (sel_domain_range s Hc)) as Hm.
  pose proof (top_bit_spec _ _ 4 ltac:(done) Hm) as Ht. change (64 * Z.of_nat 4) with 256 in Ht.
  assert (∀ p, full Q c (sel_domain s) p = false → Q (c, sel_domain s, p) = []) as Hf.
  { intros p. unfold full. rewrite negb_false_iff, bool_decide_eq_true. done. }
  destruct (top_bit _ _) as [p|].
  - destruct Ht as (T1 & T2 & T3). split; [done|]. split.
    + unfold full in T2. by rewrite negb_true_iff, bool_decide_eq_false in T2.
    + intros p' Hp'. apply Hf, T3. done.
  - intros p Hp. apply Hf, Ht. done.
Qed.

Lemma dequeue_spec s Q c :
  rq_rep s Q → is_Some (rqs s c) → 0 ≤ cur_domain s →
  returns (rq_dequeue_best c s) (λ '(r, s'),
    (r = None ∧ s' = s ∧ ∀ p, 0 ≤ p < 256 → Q (c, sel_domain s, p) = []) ∨
    ∃ t p l, r = Some t ∧ 0 ≤ p < 256 ∧ Q (c, sel_domain s, p) = t :: l ∧
      (∀ p', p < p' < 256 → Q (c, sel_domain s, p') = []) ∧
      rq_rep s' (upd_fn Q (c, sel_domain s, p) l) ∧ rq_frame s s' ∧ rq_queued (tasks s' t) = false).
Proof.
  intros Hr [q Hq] Hc. unfold rq_dequeue_best. rewrite Hq. cbv zeta.
  pose proof (top_spec s Q c q Hr Hq Hc) as Ht. pose proof (sel_domain_range s Hc) as Hd.
  set (d := sel_domain s) in *.
  destruct (top_bit 4 (rq_mask q d)) as [p|]; [|by left]. destruct Ht as (Hp & Hne & Hmax).
  destruct (rr_queue _ _ Hr c q d p Hq Hd Hp) as [Hch Htl].
  pose proof (rr_nodup _ _ Hr (c, d, p)) as Hnd.
  assert (∀ x, x ∈ Q (c, d, p) → key s x = (c, d, p) ∧ rq_queued (tasks s x) = true ∧ (N.to_nat x < task_bound s)%nat) as Hmem.
  { intros x Hx. apply (rr_mem _ _ Hr) in Hx as [H1 H2]. split; [done|]. split; [done|]. by apply (rr_bound _ _ Hr). }
  destruct (Q (c, d, p)) as [|t l] eqn:HL; [done|].
  rewrite (chain_head _ _ _ Hch). cbn [head of_assert mbind res_bind returns].
  right. exists t, p, l. split; [done|]. split; [done|]. split; [done|]. split; [done|].
  change (rq_next (tasks s t)) with (nxt s t). set (q' := match nxt s t with Some _ => _ | None => _ end).
  set (s' := rq_live_dec _). destruct (Hmem t) as (Htk & Htq & Htb); [left|].
  assert (∀ x, tasks s' x = if decide (x = t) then set_next None (set_queued false (tasks s t)) else tasks s x)
    as Htasks by done.
  assert (rq_frame s s') as Hfr.
  { split; [|done]. intros x. rewrite Htasks. case_decide; [by subst|done]. }
  apply NoDup_cons in Hnd as [Htl' Hnd]. apply chain_unlink_first in Hch as Hch'.
  split; [|split; [exact Hfr|by rewrite Htasks, decide_True]].
  apply (rep_replace s s' Q c q q'); try done.
  - intros x. rewrite Htasks. case_decide as Hx; [subst; simpl; split; [done|intros [? _]; done]|].
    rewrite <-(rr_mem _ _ Hr (c, d, p) x), HL, elem_of_cons. naive_solver.
  - intros x Hx. unfold nxt. rewrite Htasks, decide_False by congruence. done.
  - intros x Hx. apply Hmem. by right.
  - eapply chain_ext; [|replace (rq_head q' d p) with (nxt s t); [exact Hch'|]].
    + intros x Hx. unfold nxt. rewrite Htasks, decide_False by congruence. done.
    + unfold q'. destruct (nxt s t); cbn [set_mask set_tail set_head rq_head]; by rewrite upd2_spec, decide_True.
  - unfold q'. rewrite (chain_head _ _ _ Hch'). destruct l as [|y l]; cbn [head set_mask set_tail set_head rq_tail].
    + by rewrite upd2_spec, decide_True.
    + by rewrite Htl, last_cons_cons.
  - pose proof (rr_mask _ _ Hr c q d Hq Hd) as Hm. unfold q'. rewrite (chain_head _ _ _ Hch').
    destruct l as [|y l]; cbn [head set_mask set_tail set_head rq_mask].
    + unfold upd2. rewrite upd_fn_same. by apply mask_ok_clear.
    + eapply mask_ok_ext; [|exact Hm]. intros p' Hp'. unfold upd_fn. case_decide; [|done]. subst p'.
      unfold full. by rewrite HL.
  - intros d' p' Hne'. unfold q'. destruct (nxt s t); cbn [set_mask set_tail set_head rq_head rq_tail];
      rewrite ?upd2_spec, ?decide_False by done; done.
  - intros d' Hne'. unfold q'. destruct (nxt s t); cbn [set_mask set_tail set_head rq_mask]; [done|].
    unfold upd2. by rewrite upd_fn_other.
Qed.

(** Changing the key of a thread that is not queued. *)
Lemma rep_rekey s Q t (f : task → task) :
  rq_rep s Q → rq_queued (tasks s t) = false →
  let k := tasks s t in
  rq_next (f k) = rq_next k → rq_queued (f k) = rq_queued k → home_cpu (f k) = home_cpu k →
  0 ≤ priority (f k) < 256 → 0 ≤ domain (f k) →
  rq_rep (upd_task t f s) Q.
Proof.
  intros Hr Hq k Hn Hqd Hh Hp Hd.
  assert (∀ x, nxt (upd_task t f s) x = nxt s x) as Hnxt.
  { intros x. rewrite nxt_upd. case_decide; [subst; exact Hn|done]. }
  split.
  - intros c q d p H1 H2 H3. destruct (rr_queue _ _ Hr c q d p H1 H2 H3). split; [|done].
    eapply chain_ext; [|done]. intros x _. by rewrite Hnxt.
  - apply Hr.
  - intros key0 x. rewrite (rr_mem _ _ Hr). unfold key. rewrite tasks_upd.
    case_decide; [subst x; fold k; rewrite Hqd; unfold k; rewrite Hq; naive_solver|done].
  - apply Hr.
  - intros x. rewrite tasks_upd. case_decide; [by fold k|apply Hr].
  - intros x. rewrite tasks_upd. case_decide; [subst x; fold k; rewrite Hqd; unfold k; congruence|apply Hr].
Qed.

Lemma rekey_spec s Q t (f : task → task) (newkey := (home_cpu (tasks s t), rq_dom_of (f (tasks s t)), priority (f (tasks s t)))) :
  rq_rep s Q → (N.to_nat t < task_bound s)%nat → is_Some (rqs s (home_cpu (tasks s t))) →
  (∀ k, rq_next (f k) = rq_next k ∧ rq_queued (f k) = rq_queued k ∧ home_cpu (f k) = home_cpu k) →
  (∀ k k', sans_links k = sans_links k' → sans_links (f k) = sans_links (f k')) →
  0 ≤ priority (f (tasks s t)) < 256 → 0 ≤ domain (f (tasks s t)) →
  returns (sched_rekey t f s) (λ s',
    rq_rep s' (move (key s) (key s') t Q) ∧
    (∀ x, key s' x = if decide (x = t) then newkey else key s x)).
Proof.
  intros Hr Hb [q Hq] Hf Hlinks Hp Hd. unfold sched_rekey. rewrite Hq. cbv zeta.
  destruct (rq_queued (tasks s t)) eqn:Hqd.
  - assert (is_Some (rqs s (home_cpu (tasks s t)))) as Hsome by eauto.
    pose proof (remove_spec s Q t Hr Hsome) as Hrem. unfold rq_remove in Hrem. rewrite Hq in Hrem.
    apply returns_bind. eapply returns_mono; [exact Hrem|]. intros s1 (Hr1 & Hfr1 & Hq1 & [q1 Hq1']).
    destruct (sans_links_key _ _ (proj1 Hfr1 t)) as (Eh & _). pose proof (Hlinks _ _ (proj1 Hfr1 t)) as Hl.
    apply sans_links_key in Hl as (E1 & E2 & E3 & E4 & _).
    assert (rq_rep (upd_task t f s1) (take_out (key s) t Q)) as Hr2.
    { apply rep_rekey; try done; try apply Hf; [by rewrite E3|by rewrite E4]. }
    set (s2 := upd_task t f s1) in *.
    assert (tasks s2 t = f (tasks s1 t)) as Et by (unfold s2; by rewrite tasks_upd, decide_True).
    cbn [rqs s2 upd_task with_tasks]. rewrite Hq1'. cbn [of_assert mbind res_bind returns].
    assert (home_cpu (tasks s2 t) = home_cpu (tasks s t)) as Eh2.
    { rewrite Et. destruct (Hf (tasks s1 t)) as (_ & _ & ->). done. }
    rewrite <-Eh2. pose proof (link_spec s2 (take_out (key s) t Q) t q1 Hr2) as Hlk.
    destruct Hlk as [Hr3 Hfr3].
    { rewrite Eh2. exact Hq1'. }
    { rewrite Et. destruct (Hf (tasks s1 t)) as (_ & -> & _). done. }
    { destruct Hfr1 as (_ & HB & _). cbn [s2 upd_task with_tasks task_bound]. by rewrite HB. }
    set (s3 := rq_link_locked _ q1 t s2) in *.
    assert (∀ x, key (rq_poke t s3) x = if decide (x = t) then newkey else key s x) as Hkey.
    { intros x. change (key (rq_poke t s3) x) with (key s3 x). rewrite (rq_frame_key _ _ x Hfr3).
      unfold key at 1. unfold s2. rewrite tasks_upd. case_decide as Hx.
      - subst x. unfold newkey. destruct (Hf (tasks s1 t)) as (_ & _ & Hh). rewrite E2, E3, Hh, Eh. done.
      - exact (rq_frame_key _ _ x Hfr1). }
    split; [|exact Hkey].
    assert (key s2 t = key (rq_poke t s3) t) as Ek.
    { change (key (rq_poke t s3) t) with (key s3 t). symmetry. by apply rq_frame_key. }
    unfold move. rewrite decide_True by (by apply rep_queued).
    unfold push_back. rewrite <-Ek. rewrite decide_False; [by destruct Hr3|].
    rewrite (rep_queued s2 _ t Hr2), Et. destruct (Hf (tasks s1 t)) as (_ & -> & _). congruence.
  - cbn [mbind res_bind].
    cbn [rqs upd_task with_tasks]. rewrite Hq. cbn [of_assert mbind res_bind returns]. split.
    + unfold move. rewrite decide_False by (rewrite rep_queued by done; congruence). apply rep_rekey; try done; apply Hf.
    + intros x. unfold key at 1. change (with_tasks _ s) with (upd_task t f s). rewrite tasks_upd. case_decide as Hx; [|done]. subst x.
      unfold newkey. destruct (Hf (tasks s t)) as (_ & _ & ->). done.
Qed.

(** C24: The run queues are the priority FIFOs they stand for: every operation
    (enqueue, remove, dequeue of the best, change of priority or domain) on the
    intrusive lists and bitmaps terminates and does what the abstract queues do -
    duplicate enqueues are rejected, a removed thread is taken out wherever it is,
    a thread that changes key moves to the end of its new queue. *)
Theorem rq_refines op s Q :
  rq_rep s Q → op_valid op s → 0 ≤ cur_domain s →
  returns (rq_exec op s) (λ '(r, s'), ∃ Q', rq_rep s' Q' ∧
    ∃ key', (∀ x, key' x = key s' x) ∧ pq_step (sel_domain s) op (key s, Q) r (key', Q')).
Proof.
  intros Hr Hv Hc. destruct op as [t|t|c|t v|t v]; cbn [rq_exec op_valid] in *.
  - destruct Hv as [Hb Hs]. destruct (enqueue_spec s Q t Hr Hb Hs) as [Hr' Hfr]. cbn [returns].
    exists (push_back (key s) t Q). split; [done|]. exists (key s).
    split; [intros x; symmetry; by apply rq_frame_key|constructor].
  - destruct Hv as [Hb Hs]. apply returns_bind. eapply returns_mono; [by apply remove_spec|].
    intros s' (Hr' & Hfr & _). cbn [returns]. exists (take_out (key s) t Q). split; [done|]. exists (key s).
    split; [intros x; symmetry; by apply rq_frame_key|constructor].
  - eapply returns_mono; [by apply dequeue_spec|].
    intros [r s'] [(-> & -> & He)|(t & p & l & -> & Hp & HL & Hmax & Hr' & Hfr & _)].
    + exists Q. split; [done|]. exists (key s). split; [done|]. by constructor.
    + eexists. split; [exact Hr'|]. exists (key s). split; [intros x; symmetry; by apply rq_frame_key|].
      by econstructor.
  - destruct Hv as (Hb & Hs & Hp). unfold sched_set_priority. case_decide as Hv.
    { cbn [mbind res_bind returns]. exists Q. split; [done|]. exists (key s). split; [done|].
      eapply pq_keep. left. split; [done|]. by symmetry. }
    apply returns_bind. pose proof (rr_task _ _ Hr t) as [_ Hd].
    eapply returns_mono; [apply (rekey_spec s Q t (λ k, set_key v (domain k) k)); try done|].
    + intros k k' H. pose proof (f_equal (λ k, set_key v (domain k) k) H) as H'. exact H'.
    + intros s' [Hr' Hk]. cbn [returns]. eexists. split; [exact Hr'|]. exists (key s'). split; [done|].
      by apply pq_priority.
  - destruct Hv as (Hb & Hs & Hp). unfold sched_set_domain. case_decide as Hv.
    { cbn [mbind res_bind returns]. exists Q. split; [done|]. exists (key s). split; [done|].
      eapply pq_keep. right. split; [done|]. unfold clip, key, rq_dom_of. by rewrite Hv. }
    apply returns_bind. pose proof (rr_task _ _ Hr t) as [Hpr _].
    eapply returns_mono; [apply (rekey_spec s Q t (λ k, set_key (priority k) v k)); try done; [|simpl; lia]|].
    + intros k k' H. pose proof (f_equal (λ k, set_key (priority k) v k) H) as H'. exact H'.
    + intros s' [Hr' Hk]. cbn [returns]. eexists. split; [exact Hr'|]. exists (key s'). split; [done|].
      by apply pq_domain.
Qed.

(** The dispatcher gets the right thread: [rq_dequeue_best] on a CPU
    returns a thread that was queued there in the current domain, no thread queued
    there in that domain has a higher priority, and it had been queued longest
    among those of its priority; it returns none only if none is queued.
    [rq_top_priority] is that thread's priority, or -1. *)
Theorem rq_dequeue_best_correct s Q c :
  rq_rep s Q → is_Some (rqs s c) → 0 ≤ cur_domain s →
  returns (rq_dequeue_best c s) (λ '(r, s'),
    let candidate x := rq_queued (tasks s x) = true ∧ home_cpu (tasks s x) = c ∧
                       rq_dom_of (tasks s x) = sel_domain s in
    match r with
    | None => (∀ x, ¬ candidate x) ∧ rq_top_priority c s = -1
    | Some t =>
      candidate t ∧ (∀ x, candidate x → priority (tasks s x) ≤ priority (tasks s t)) ∧
      head (Q (key s t)) = Some t ∧ rq_top_priority c s = priority (tasks s t) ∧
      rq_queued (tasks s' t) = false
    end).
Proof.
  intros Hr Hs Hc. pose proof Hs as [q Hq]. eapply returns_mono; [by apply dequeue_spec|].
  pose proof (top_spec s Q c q Hr Hq Hc) as Ht. unfold rq_top_priority. rewrite Hq.
  intros [r s'] [(-> & -> & He)|(t & p & l & -> & Hp & HL & Hmax & _ & _ & Hdq)].
  - split.
    + intros x (H1 & H2 & H3). assert (x ∈ Q (key s x)) as Hin by (by apply rep_queued).
      unfold key in Hin. rewrite H2, H3, He in Hin by apply Hr. by apply not_elem_of_nil in Hin.
    + destruct (top_bit _ _) as [p|]; [|done]. destruct Ht as (Hp & Hne & _). by rewrite He in Hne.
  - assert (t ∈ Q (c, sel_domain s, p)) as Hin by (rewrite HL; left).
    apply (rr_mem _ _ Hr) in Hin as [H1 H2]. pose proof H2 as Hkey. injection H2 as H2 H3 H4.
    split; [done|]. split; [|split; [by rewrite Hkey, HL|split; [|done]]].
    + intros x (X1 & X2 & X3). assert (x ∈ Q (key s x)) as Hin by (by apply rep_queued).
      unfold key in Hin. rewrite X2, X3 in Hin. rewrite H4.
      destruct (decide (priority (tasks s x) ≤ p)); [done|].
      rewrite Hmax in Hin by (pose proof (rr_task _ _ Hr x); lia). by apply not_elem_of_nil in Hin.
    + destruct (top_bit _ _) as [p'|].
      * destruct Ht as (Hp' & Hne & Hmax'). rewrite H4. destruct (decide (p' < p)) as [Hlt|].
        { by rewrite Hmax' in HL by lia. }
        destruct (decide (p < p')) as [Hlt|]; [by rewrite Hmax in Hne by lia|lia].
      * by rewrite Ht in HL.
Qed.

(** ** Witnesses *)

(** One CPU, no thread queued; thread [t] has priority 100 + [t]. *)
Definition task0 p : task :=
  Task TASK_READY p 0 0 None false 0 None 2 2 false None false false false.
Definition empty_rq : CpuRunQueue := RQ (λ _ _, None) (λ _ _, None) (λ _ _, 0).
Definition sched0 : sched :=
  Sched (λ t, task0 (if decide (t < 100)%N then 100 + Z.of_N t else 0)) 100
    (λ c, if decide (c = 0) then Some empty_rq else None) (λ _, None) [] None
    (λ _, SC 0 0 0 None false 8 0 0 0 0 0 (λ _, Refill 0 0)) 0 0 0 0 0 0 [] (λ _, 0) 0 0 0.

Lemma sched0_rep : rq_rep sched0 (λ _, []).
Proof.
  split.
  - intros c q d p Hq _ _. cbn [sched0 rqs] in Hq. destruct (decide (c = 0)); [|done].
    injection Hq as <-. split; [constructor|done].
  - intros c q d Hq _. cbn [sched0 rqs] in Hq. destruct (decide (c = 0)); [|done].
    injection Hq as <-. split; [done|]. intros p Hp. cbn [empty_rq rq_mask]. by rewrite Z.bits_0.
  - intros k t. split; [by intros ?%not_elem_of_nil|]. intros [H _]. done.
  - intros k. constructor.
  - intros t. cbn [sched0 tasks]. case_decide; simpl; [|lia]. lia.
  - intros t H. done.
Qed.

Lemma rq_refines_witness :
  returns (rq_exec (OpEnqueue 7) sched0) (λ '(r, s'), ∃ Q', rq_rep s' Q' ∧
    ∃ key', (∀ x, key' x = key s' x) ∧ pq_step 0 (OpEnqueue 7) (key sched0, λ _, []) r (key', Q')).
Proof.
  exact (rq_refines (OpEnqueue 7) sched0 (λ _, []) sched0_rep
    (conj (ltac:(vm_compute; lia) : (N.to_nat 7 < task_bound sched0)%nat) (ex_intro _ empty_rq eq_refl)) ltac:(done)).
Defined.

Definition sched1 : sched := rq_enqueue 9 (rq_enqueue 7 sched0).

Lemma sched1_rep : ∃ Q, rq_rep sched1 Q.
Proof.
  destruct (enqueue_spec sched0 (λ _, []) 7 sched0_rep) as [H1 _];
    [vm_compute; lia|by exists empty_rq|].
  destruct (enqueue_spec (rq_enqueue 7 sched0) _ 9 H1) as [H2 _];
    [vm_compute; lia|vm_compute; eauto|]. eauto.
Qed.

Lemma rq_dequeue_best_correct_witness :
  returns (rq_dequeue_best 0 sched1) (λ '(r, s'), r = Some 9%N ∧ rq_queued (tasks s' 9%N) = false).
Proof.
  destruct sched1_rep as [Q HQ].
  pose proof (rq_dequeue_best_correct sched1 Q 0 HQ ltac:(vm_compute; eauto) ltac:(done)) as H.
  assert (rq_top_priority 0 sched1 = 109) as Htop by (vm_compute; reflexivity).
  assert (match rq_dequeue_best 0 sched1 with Ret x => x.1 | _ => None end = Some 9%N) as H9 by (vm_compute; reflexivity).
  destruct (rq_dequeue_best 0 sched1) as [[r s']| |]; [|done..]. cbn [fst] in H9. subst r.
  split; [done|]. apply H.
Defined.
