(* ===== verification/Sched.v ===== *)
(** * The tick and the dispatcher (kernel/core/scheduler/scheduler.c)

    [sched_tick_global] is the half of the timer tick that belongs to the machine
    (clock, domain schedule, replenishment sweep), [sched_tick_local] the half
    that belongs to a core, [sched_handle_idle] what a core does when nothing is
    queued, and [dispatch_outgoing], [pick_loop] and [dispatch_commit] the parts of
    [sched_pick_for_dispatch] that choose the next thread.  A core is named by its
    number; the core with number 0 owns the timer.

    The rest of [sched_pick_for_dispatch] is not modelled here: the deferred
    teardown, the delivery of a timeout fault, the FPU and the page-table base. *)

From Stdlib Require Import ZArith Lia.
From stdpp Require Import base numbers gmap list.
From S2P Require Import Prelude Kschedctx Runq.
Local Open Scope Z_scope.
Implicit Types (s : sched) (t : N) (c d p : Z).

(** [IRIS_V_MAX_CPUS] of the default configuration. *)
Definition MAX_CPUS : nat := 8.

(** The fixed domain schedule: slots of a domain and a length in ticks. *)
Record iris_dom_slot := Slot { slot_domain : Z; slot_ticks : Z }.
Definition dom_schedule : list iris_dom_slot := [Slot 0 0].

Definition upd_sc (i : N) (f : KSchedContext → KSchedContext) s : sched :=
  with_scs (upd_fn (scs s) i (f (scs s i))) s.

(** ** The tick *)

(** The [dom_schedule] array is an argument: the code's own is the default. *)
Definition sched_domain_tick (sch : list iris_dom_slot) s : bool * sched :=
  let n := Z.of_nat (length sch) in
  let slot i := nth (Z.to_nat i) sch (Slot 0 0) in
  if (n <=? 1) && (slot_ticks (slot 0) =? 0) then (false, s) else
  let left := if 0 <? dom_ticks_left s then dom_ticks_left s - 1 else dom_ticks_left s in
  if 0 <? left then (false, with_dom (cur_domain s) (dom_sched_idx s) left (dom_switches s) s) else
  let prev := cur_domain s in
  let idx := u32 (dom_sched_idx s + 1) mod n in
  let next := slot_domain (slot idx) in
  let s := with_dom next idx (slot_ticks (slot idx)) (dom_switches s) s in
  if decide (next = prev) then (false, s)
  else (true, with_dom next idx (slot_ticks (slot idx)) (u64 (dom_switches s + 1)) s).

(** [for (c = 0; c < MAX_CPUS; c++) if (ct) ct->need_resched = 1;], then a
    reschedule request to every other core. *)
Definition resched_all s : sched :=
  let s := foldl (λ s (n : nat), match current s (Z.of_nat n) with
                         | Some t => upd_task t (set_resched true) s
                         | None => s
                         end) s (seq 0 MAX_CPUS) in
  foldl (λ s (n : nat), with_ipi (Z.of_nat n) s) s (seq 1 (MAX_CPUS - 1)).

(** The body of the replenishment sweep. *)
Definition replenish s t : sched :=
  let k := tasks s t in
  if bool_decide (state k = TASK_BUDGET_EXHAUSTED) && negb (wake_tick k =? 0) &&
     (wake_tick k <=? scheduler_ticks s)
  then
    let s := match sched_ctx k with
             | Some i => upd_sc i (λ sc, with_remaining (budget_ticks sc) sc) s
             | None => s
             end in
    task_wakeup t (upd_task t (set_wake 0) s)
  else s.

Definition sched_tick_global (sch : list iris_dom_slot) s : sched :=
  let s := with_clock (u64 (scheduler_ticks s + 1)) (u64 (wall_ticks s + 1)) s in
  let '(changed, s) := sched_domain_tick sch s in
  let s := if changed then resched_all s else s in
  foldl replenish s (thread_list s).

(** The end of [sched_tick_local]: preemption by priority and the time slice. *)
Definition tick_slice c t s : sched :=
  let k := tasks s t in
  let s := if bool_decide (state k = TASK_RUNNING) && (priority k <? rq_top_priority c s)
           then upd_task t (set_resched true) s else s in
  let s := if 0 <? ticks_left (tasks s t)
           then upd_task t (λ k, set_ticks (ticks_left k - 1) k) s else s in
  if ticks_left (tasks s t) =? 0 then upd_task t (set_resched true) s else s.

Definition sched_tick_local c s : sched :=
  let s := if decide (current s c = idle_thread s)
           then with_idle_ticks (upd_fn (idle_ticks s) c (u64 (idle_ticks s c + 1))) s else s in
  match current s c with
  | None => s
  | Some t =>
    let k := tasks s t in
    match sched_ctx k, bool_decide (state k = TASK_RUNNING) with
    | Some i, true =>
      let '(exhausted, sc) := kschedctx_charge_tick (scheduler_ticks s) (scs s i) in
      let s := upd_sc i (λ _, sc) s in
      if exhausted then
        match timeout_ep k with
        | Some _ => upd_task t (λ k, set_resched true (set_pending true k)) s
        | None =>
          let s := upd_sc i kschedctx_flush_run s in
          if negb (kschedctx_has_refill (scs s i)) then upd_task t (set_resched true) s
          else upd_task t (λ k, set_resched true (set_wake 0 (set_state TASK_BUDGET_EXHAUSTED k))) s
        end
      else tick_slice c t s
    | _, _ => tick_slice c t s
    end
  end.

(** ** The dispatcher *)

(** The first walk of [sched_handle_idle]: the nearest deadline. *)
Definition nearest s (min_wake : Z) t : Z :=
  let k := tasks s t in
  let min_wake := if negb (wake_tick k =? 0) && (wake_tick k <? min_wake)
                  then wake_tick k else min_wake in
  match sched_ctx k with
  | Some i =>
    let sc := scs s i in
    if bool_decide (state k = TASK_BUDGET_EXHAUSTED) && (0 <? refill_count sc) then
      let due := r_at (refills sc (refill_head sc)) in
      if due <? min_wake then due else min_wake
    else min_wake
  | None => min_wake
  end.

(** The compare-exchange loop leaves the larger of the clock and the deadline. *)
Definition fast_forward c (min_wake : Z) s : sched :=
  if negb (min_wake =? 2 ^ 64 - 1) && (c =? 0) then
    if scheduler_ticks s <? min_wake then with_clock min_wake (wall_ticks s) s else s
  else s.

(** The body of the second walk: a thread whose budget came back is woken. *)
Definition wake_refilled s t : sched :=
  if decide (idle_thread s = Some t) then s else
  let k := tasks s t in
  match sched_ctx k with
  | Some i =>
    if bool_decide (state k = TASK_BUDGET_EXHAUSTED) then
      let '(gained, sc) := kschedctx_apply_refills (scheduler_ticks s) (scs s i) in
      let s := upd_sc i (λ _, sc) s in
      if gained then task_wakeup t (upd_task t (set_wake 0) s) else s
    else s
  | None => s
  end.

Definition sched_handle_idle c s : res (option N * sched) :=
  let min_wake := foldl (nearest s) (2 ^ 64 - 1) (thread_list s) in
  let s := fast_forward c min_wake s in
  let s := foldl wake_refilled s (thread_list s) in
  rq_dequeue_best c s.

(** What the dispatcher does to the outgoing thread before it lets go of it (a
    dead one also joins the reap queue, which is not part of this state). *)
Definition dispatch_outgoing t s : sched :=
  let s := match sched_ctx (tasks s t) with Some i => upd_sc i kschedctx_flush_run s | None => s end in
  let s := if decide (state (tasks s t) = TASK_RUNNING) then
             let s := upd_task t (set_state TASK_READY) s in
             if decide (idle_thread s = Some t) then s else rq_enqueue t s
           else s in
  upd_task t (set_on_cpu false) s.

(** The choice of the next thread.  A thread its last core still holds is waited
    for without bound: in this sequential model the wait does not end. *)
Fixpoint pick_loop (fuel : nat) c s : res (option N * sched) :=
  match fuel with
  | O => NoFuel
  | S fuel =>
    '(chosen, s) ← rq_dequeue_best c s;
    '(chosen, s) ← (match chosen with Some t => Ret (Some t, s) | None => sched_handle_idle c s end);
    match chosen with
    | None => Ret (None, s)
    | Some t =>
      if on_cpu (tasks s t) then NoFuel else
      let s := upd_task t (set_on_cpu true) s in
      if decide (state (tasks s t) = TASK_SUSPENDED)
      then pick_loop fuel c (upd_task t (set_on_cpu false) s)
      else Ret (Some t, s)
    end
  end.

Definition dispatch_commit c t s : sched :=
  let s := upd_task t (λ k, set_resched false (set_ticks (time_slice k) (set_state TASK_RUNNING k))) s in
  with_current (upd_fn (current s) c (Some t)) s.
