(* ===== verification/SchedSpec.v ===== *)
(** * The tick and the dispatcher: budgets, wake-ups and starvation

    What [Sched] does to the threads of the machine: a running thread is parked
    exactly when its budget is spent; a core with nothing to run moves the clock
    to the nearest deadline and wakes every thread whose budget came back; a
    parked thread is woken by nothing else. *)

From Stdlib Require Import ZArith Lia.
From stdpp Require Import base numbers gmap list.
From S2P Require Import Prelude Ring PmmInv Kschedctx Runq RunqInv RunqSpec Sched.
Local Open Scope Z_scope.
Implicit Types (s : sched) (t u x : N) (c d p : Z) (l : list N) (Q : queues).

(** ** What a wake-up leaves alone *)

Lemma link_tasks c q u s x :
  let s' := rq_link_locked c q u s in
  sans_links (tasks s' x) = sans_links (tasks s x) ∧
  (x ≠ u → rq_queued (tasks s' x) = rq_queued (tasks s x)).
Proof.
  unfold rq_link_locked. destruct (rq_queued (tasks s u)); [done|]. cbv zeta.
  assert (∀ y, sans_links (tasks (upd_task u (λ k, set_next None (set_queued true k)) s) y) = sans_links (tasks s y) ∧
    (y ≠ u → rq_queued (tasks (upd_task u (λ k, set_next None (set_queued true k)) s) y) = rq_queued (tasks s y))) as H.
  { intros y. rewrite tasks_upd. case_decide; [by subst|done]. }
  set (s1 := upd_task _ _ _) in *.
  destruct (rq_head _ _ _); [destruct (rq_tail _ _ _)|];
    cbn [rq_live_inc with_counts put_rq with_rqs tasks]; try apply H.
  rewrite tasks_upd. case_decide as Hx; [subst; apply (H n0)|apply H].
Qed.

Lemma enqueue_frame u s : rq_frame s (rq_enqueue u s).
Proof.
  unfold rq_enqueue. destruct (rqs s _) as [q|]; [|apply rq_frame_refl].
  split; [intros x; apply link_tasks|]. unfold rq_link_locked.
  destruct (rq_queued _); [done|]. destruct (rq_head _ _ _); [destruct (rq_tail _ _ _)|]; done.
Qed.

Lemma enqueue_queued u s x :
  (x ≠ u → rq_queued (tasks (rq_enqueue u s) x) = rq_queued (tasks s x)).
Proof. unfold rq_enqueue. destruct (rqs s _) as [q|]; [|done]. apply link_tasks. Qed.

(** [u] is the thread that changes, [j] its scheduling context: the rest keeps
    its place. *)
Record others (u : N) (j : option N) s s' : Prop := Others {
  ot_task  : ∀ x, x ≠ u → sans_links (tasks s' x) = sans_links (tasks s x) ∧
                          rq_queued (tasks s' x) = rq_queued (tasks s x);
  ot_self  : sched_ctx (tasks s' u) = sched_ctx (tasks s u) ∧ key s' u = key s u ∧
             terminal (tasks s' u) = terminal (tasks s u) ∧ timeout_ep (tasks s' u) = timeout_ep (tasks s u);
  ot_sc    : ∀ i, j ≠ Some i → scs s' i = scs s i;
  ot_rest  : thread_list s' = thread_list s ∧ idle_thread s' = idle_thread s ∧
             scheduler_ticks s' = scheduler_ticks s ∧ task_bound s' = task_bound s ∧
             cur_domain s' = cur_domain s ∧ current s' = current s ∧ wall_ticks s' = wall_ticks s;
}.

Lemma others_refl u j s : others u j s s.
Proof. by split. Qed.

Lemma others_trans u j s1 s2 s3 : others u j s1 s2 → others u j s2 s3 → others u j s1 s3.
Proof.
  intros [A1 A2 A3 A4] [B1 B2 B3 B4]. split.
  - intros x Hx. destruct (A1 x Hx), (B1 x Hx). split; congruence.
  - destruct A2 as (? & ? & ? & ?), B2 as (? & ? & ? & ?). split_and!; congruence.
  - intros i Hi. by rewrite B3, A3.
  - destruct A4 as (? & ? & ? & ? & ? & ? & ?), B4 as (? & ? & ? & ? & ? & ? & ?). split_and!; congruence.
Qed.

Lemma others_sc u i f s : others u (Some i) s (upd_sc i f s).
Proof. split; try done. intros i' Hi. cbn [upd_sc with_scs scs]. apply upd_fn_other. congruence. Qed.

(** A change of fields of one thread that keeps its queue key. *)
Definition keeps (f : task → task) : Prop := ∀ k,
  home_cpu (f k) = home_cpu k ∧ domain (f k) = domain k ∧ priority (f k) = priority k ∧
  rq_next (f k) = rq_next k ∧ rq_queued (f k) = rq_queued k ∧ sched_ctx (f k) = sched_ctx k ∧
  terminal (f k) = terminal k ∧ timeout_ep (f k) = timeout_ep k.

Lemma others_upd u j f s : keeps f → others u j s (upd_task u f s).
Proof.
  intros Hf. destruct (Hf (tasks s u)) as (E1 & E2 & E3 & E4 & E5 & E6 & E7 & E8). split; try done.
  - intros x Hx. by rewrite tasks_upd, decide_False.
  - unfold key, rq_dom_of. rewrite tasks_upd, decide_True by done. rewrite E1, E2, E3. done.
Qed.

Lemma others_enqueue u j s : others u j s (rq_enqueue u s).
Proof.
  pose proof (enqueue_frame u s) as Hf. pose proof Hf as (F1 & F2 & F3 & F4 & F5 & F6 & F7 & F8 & F9).
  split; try done.
  - intros x Hx. split; [apply F1|by apply enqueue_queued].
  - pose proof (F1 u) as Hu. split_and!; [exact (f_equal sched_ctx Hu)|by apply rq_frame_key|
      exact (f_equal terminal Hu)|exact (f_equal timeout_ep Hu)].
  - intros i _. by rewrite F6.
Qed.

Lemma others_wakeup u j s : others u j s (task_wakeup u s).
Proof.
  unfold task_wakeup. case_decide; [apply others_refl|]. destruct (terminal _); [apply others_refl|].
  cbv zeta. apply others_trans with (upd_task u (set_state TASK_READY) s); [by apply others_upd|].
  case_decide; [apply others_refl|].
  eapply others_trans; [apply others_enqueue|]. by split.
Qed.

#[local] Hint Resolve others_refl others_sc others_wakeup : core.

Lemma others_replenish u s : others u (sched_ctx (tasks s u)) s (replenish s u).
Proof.
  unfold replenish. destruct (bool_decide _ && _ && _); [|done]. cbv zeta.
  eapply others_trans; [|apply others_wakeup]. eapply others_trans; [|by apply others_upd].
  destruct (sched_ctx _) as [i|]; eauto.
Qed.

Lemma others_refilled u s : others u (sched_ctx (tasks s u)) s (wake_refilled s u).
Proof.
  unfold wake_refilled. case_decide; [done|]. cbv zeta. destruct (sched_ctx _) as [i|] eqn:Hi; [|done].
  case_bool_decide; [|done]. destruct (kschedctx_apply_refills _ _) as [g sc].
  destruct g; [|apply others_sc].
  eapply others_trans; [apply (others_sc u i (λ _, sc))|]. eapply others_trans; [|apply others_wakeup].
  by apply others_upd.
Qed.

(** ** Sweeps over the thread list *)

Section sweep.
Context (g : sched → N → sched) (Hg : ∀ s u, others u (sched_ctx (tasks s u)) s (g s u)).

(** What a sweep over [l] leaves alone: the threads and contexts not in it. *)
Record spared (l : list N) s s' : Prop := Spared {
  sp_task : ∀ x, x ∉ l → sans_links (tasks s' x) = sans_links (tasks s x) ∧
                         rq_queued (tasks s' x) = rq_queued (tasks s x);
  sp_self : ∀ x, sched_ctx (tasks s' x) = sched_ctx (tasks s x) ∧ key s' x = key s x ∧
                 terminal (tasks s' x) = terminal (tasks s x);
  sp_sc   : ∀ i, (∀ u, u ∈ l → sched_ctx (tasks s u) ≠ Some i) → scs s' i = scs s i;
  sp_rest : thread_list s' = thread_list s ∧ idle_thread s' = idle_thread s ∧
            scheduler_ticks s' = scheduler_ticks s ∧ task_bound s' = task_bound s ∧
            cur_domain s' = cur_domain s ∧ current s' = current s;
}.

Lemma others_self u j s s' x : others u j s s' →
  sched_ctx (tasks s' x) = sched_ctx (tasks s x) ∧ key s' x = key s x ∧
  terminal (tasks s' x) = terminal (tasks s x).
Proof.
  intros Ho. destruct (decide (x = u)) as [->|Hx].
  - destruct (ot_self _ _ _ _ Ho) as (? & ? & ? & _). done.
  - destruct (ot_task _ _ _ _ Ho x Hx) as [H _]. apply sans_links_key in H as Hk. destruct Hk as (E1 & E2 & E3 & _).
    unfold key. rewrite E1, E2, E3. split; [exact (f_equal sched_ctx H)|]. split; [done|exact (f_equal terminal H)].
Qed.

Lemma sweep_spared l s : spared l s (foldl g s l).
Proof.
  revert s. induction l as [|u l IH]; intros s; cbn [foldl].
  - by split.
  - specialize (Hg s u). destruct (IH (g s u)) as [A1 A2 A3 A4]. split.
    + intros x Hx. rewrite not_elem_of_cons in Hx. destruct Hx as [Hxu Hxl].
      destruct (A1 x Hxl) as [-> ->]. by apply Hg.
    + intros x. destruct (A2 x) as (-> & -> & ->). by eapply others_self.
    + intros i Hi. rewrite A3; [apply Hg, Hi; left|]. intros u' Hu'.
      destruct (others_self _ _ _ _ u' Hg) as (-> & _). apply Hi. by right.
    + destruct A4 as (-> & -> & -> & -> & -> & ->).
      destruct (ot_rest _ _ _ _ Hg) as (? & ? & ? & ? & ? & ? & ?). done.
Qed.

(** The state in which the sweep meets thread [t], and what follows it. *)
Lemma sweep_split l s t :
  NoDup l → t ∈ l → ∃ s1 l1 l2, l = l1 ++ t :: l2 ∧ t ∉ l1 ∧ t ∉ l2 ∧
    s1 = foldl g s l1 ∧ spared l1 s s1 ∧ spared l2 (g s1 t) (foldl g s l).
Proof.
  intros Hnd (l1 & l2 & ->)%list_elem_of_split. exists (foldl g s l1), l1, l2.
  apply NoDup_app in Hnd as (N1 & N2 & N3). apply NoDup_cons in N3 as [N3 _].
  split; [done|]. split; [intros H; apply (N2 t H); left|]. split; [done|]. split; [done|].
  split; [apply sweep_spared|]. rewrite foldl_app. cbn [foldl]. apply sweep_spared.
Qed.
End sweep.

(** ** The run queues through a sweep *)

(** Every thread of the list exists and has a run queue. *)
Definition homed s t : Prop := (N.to_nat t < task_bound s)%nat ∧ is_Some (rqs s (home_cpu (tasks s t))).

Lemma rep_keeps s Q u f : keeps f → rq_rep s Q → rq_rep (upd_task u f s) Q.
Proof.
  intros Hf Hr. destruct (Hf (tasks s u)) as (E1 & E2 & E3 & E4 & E5 & _).
  assert (∀ x, nxt (upd_task u f s) x = nxt s x ∧ key (upd_task u f s) x = key s x ∧
    rq_queued (tasks (upd_task u f s) x) = rq_queued (tasks s x) ∧
    home_cpu (tasks (upd_task u f s) x) = home_cpu (tasks s x) ∧
    domain (tasks (upd_task u f s) x) = domain (tasks s x) ∧
    priority (tasks (upd_task u f s) x) = priority (tasks s x)) as Hx.
  { intros x. unfold nxt, key, rq_dom_of. rewrite !tasks_upd. case_decide as Hu; [subst x|done].
    rewrite E1, E2, E3, E4, E5. done. }
  split.
  - intros c q d p H1 H2 H3. destruct (rr_queue _ _ Hr c q d p H1 H2 H3). split; [|done].
    eapply chain_ext; [|done]. intros x _. symmetry. apply Hx.
  - apply Hr.
  - intros k x. destruct (Hx x) as (_ & -> & -> & _). apply Hr.
  - apply Hr.
  - intros x. destruct (Hx x) as (_ & _ & _ & _ & -> & ->). apply Hr.
  - intros x. destruct (Hx x) as (_ & _ & -> & -> & _). apply Hr.
Qed.

Lemma link_rqs c q u s c' : is_Some (rqs s c) → is_Some (rqs s c') → is_Some (rqs (rq_link_locked c q u s) c').
Proof.
  intros Hc Hc'. unfold rq_link_locked. destruct (rq_queued _); [done|].
  destruct (rq_head _ _ _); [destruct (rq_tail _ _ _)|];
    cbn [rq_live_inc with_counts rqs put_rq with_rqs upd_task with_tasks]; try done;
    unfold upd_fn; case_decide; eauto.
Qed.

Lemma enqueue_rqs u s c : is_Some (rqs s c) → is_Some (rqs (rq_enqueue u s) c).
Proof. intros Hc. unfold rq_enqueue. destruct (rqs s (home_cpu _)) eqn:E; [apply link_rqs|]; eauto. Qed.

(** A sweep step keeps the run queues well formed. *)
Definition queue_step s s' : Prop :=
  (∀ Q, rq_rep s Q → ∃ Q', rq_rep s' Q') ∧ (∀ c, is_Some (rqs s c) → is_Some (rqs s' c)).

Lemma queue_step_trans s1 s2 s3 : queue_step s1 s2 → queue_step s2 s3 → queue_step s1 s3.
Proof. intros [A1 A2] [B1 B2]. split; [|eauto]. intros Q HQ. destruct (A1 _ HQ) as [Q' HQ']. eauto. Qed.

Lemma queue_step_upd u f s : keeps f → queue_step s (upd_task u f s).
Proof. intros Hf. split; [|done]. intros Q HQ. exists Q. by apply rep_keeps. Qed.

Lemma queue_step_sc i f s : queue_step s (upd_sc i f s).
Proof. split; [|done]. intros Q HQ. exists Q. by destruct HQ. Qed.

Lemma queue_step_wakeup u s : homed s u → queue_step s (task_wakeup u s).
Proof.
  intros [Hb Hh]. unfold task_wakeup. case_decide; [by split; eauto|]. destruct (terminal _); [by split; eauto|].
  cbv zeta. apply queue_step_trans with (upd_task u (set_state TASK_READY) s); [by apply queue_step_upd|].
  case_decide; [by split; eauto|]. split.
  - intros Q HQ. edestruct enqueue_spec as [Hr _]; [exact HQ|exact Hb| |eexists; destruct Hr; split; eauto].
    rewrite tasks_upd, decide_True by done. exact Hh.
  - intros c Hc. by apply enqueue_rqs.
Qed.

Lemma queue_step_refilled s u : homed s u → queue_step s (wake_refilled s u).
Proof.
  intros Hh. unfold wake_refilled. case_decide; [by split; eauto|]. cbv zeta.
  destruct (sched_ctx _) as [i|]; [|by split; eauto]. case_bool_decide; [|by split; eauto].
  destruct (kschedctx_apply_refills _ _) as [[] sc]; [|apply queue_step_sc].
  eapply queue_step_trans; [apply (queue_step_sc i (λ _, sc))|].
  eapply queue_step_trans; [by apply (queue_step_upd u (set_wake 0))|]. apply queue_step_wakeup.
  destruct Hh as [Hb Hh]. split; [done|]. rewrite tasks_upd, decide_True by done. exact Hh.
Qed.

Lemma homed_step s s' u t j : others u j s s' → queue_step s s' → homed s t → homed s' t.
Proof.
  intros Ho [_ Hq] [Hb Hh]. destruct (others_self u j s s' t Ho) as (_ & Hk & _). injection Hk as Hk _ _.
  split; [|rewrite Hk; by apply Hq]. destruct (ot_rest _ _ _ _ Ho) as (_ & _ & _ & -> & _). done.
Qed.

Lemma refilled_queues l s :
  Forall (homed s) l → queue_step s (foldl wake_refilled s l).
Proof.
  revert s. induction l as [|u l IH]; intros s Hl; cbn [foldl]; [by split; eauto|].
  apply Forall_cons in Hl as [Hu Hl]. pose proof (queue_step_refilled s u Hu) as Hs.
  eapply queue_step_trans; [exact Hs|]. apply IH. eapply Forall_impl; [exact Hl|].
  intros t. eapply homed_step; [apply others_refilled|done].
Qed.

(** ** The idle core *)

(** [t] waits until [n]: a deadline of its own, or the oldest replenishment of the
    context whose budget it spent. *)
Definition deadline s t (n : Z) : Prop :=
  wake_tick (tasks s t) = n ∧ n ≠ 0 ∨
  ∃ i, sched_ctx (tasks s t) = Some i ∧ state (tasks s t) = TASK_BUDGET_EXHAUSTED ∧
       ∃ r rest, pending (scs s i) = r :: rest ∧ r_at r = n.

(** The nearest deadline of all. *)
Definition first_deadline s (n : Z) : Prop :=
  (∃ t, t ∈ thread_list s ∧ deadline s t n) ∧ ∀ t n', t ∈ thread_list s → deadline s t n' → n ≤ n'.

(** A thread parked on its budget that may be woken, and its context. *)
Record parked_on s t (i : N) : Prop := ParkedOn {
  pk_in    : t ∈ thread_list s;
  pk_state : state (tasks s t) = TASK_BUDGET_EXHAUSTED;
  pk_ctx   : sched_ctx (tasks s t) = Some i;
  pk_sc    : sc_ok (scs s i);
  pk_live  : terminal (tasks s t) = false ∧ idle_thread s ≠ Some t;
}.

Record threads_ok s : Prop := ThreadsOk {
  th_nodup : NoDup (thread_list s);
  th_homed : Forall (homed s) (thread_list s);
  th_sc    : ∀ t u i, t ∈ thread_list s → u ∈ thread_list s →
             sched_ctx (tasks s t) = Some i → sched_ctx (tasks s u) = Some i → t = u;
  th_ok    : ∀ t i, t ∈ thread_list s → sched_ctx (tasks s t) = Some i → sc_ok (scs s i);
}.

Lemma pending_head sc : sc_ok sc → 0 < refill_count sc →
  ∃ rest, pending sc = refills sc (refill_head sc) :: rest.
Proof. intros [? _ _ _] Hc. eexists. apply ring_view_pop; lia. Qed.

Lemma pending_count sc r (rest : list KRefill) : sc_ok sc → pending sc = r :: rest → 0 < refill_count sc ∧ r = refills sc (refill_head sc).
Proof.
  intros Hok Hp. pose proof (so_ring _ Hok) as (_ & _ & Hc).
  destruct (decide (refill_count sc = 0)) as [H0|H0].
  { unfold pending in Hp. by rewrite H0, ring_view_nil in Hp. }
  destruct (pending_head sc Hok ltac:(lia)) as [rest' Hr]. rewrite Hr in Hp. split; [lia|congruence].
Qed.

Lemma nearest_spec s m t (m' := nearest s m t) :
  threads_ok s → t ∈ thread_list s →
  m' ≤ m ∧ (m' = m ∨ deadline s t m') ∧ ∀ n, deadline s t n → m' ≤ n.
Proof.
  intros Hok Ht. subst m'. unfold nearest. set (m1 := if negb _ && _ then _ else m).
  assert (m1 ≤ m ∧ (m1 = m ∨ deadline s t m1) ∧ (wake_tick (tasks s t) ≠ 0 → m1 ≤ wake_tick (tasks s t))) as (A1 & A2 & A3).
  { unfold m1, deadline. destruct (Z.eqb_spec (wake_tick (tasks s t)) 0); cbn [negb andb]; [naive_solver lia|].
    destruct (Z.ltb_spec (wake_tick (tasks s t)) m); [|naive_solver lia]. split; [lia|]. naive_solver lia. }
  unfold deadline in *.
  destruct (sched_ctx (tasks s t)) as [i|] eqn:Hi.
  2:{ split; [done|]. split; [naive_solver|]. intros n [[<- Hn]|(i & ? & _)]; [by apply A3|done]. }
  pose proof (th_ok _ Hok t i Ht Hi) as Hsc.
  case_bool_decide as Hs; cbn [andb].
  2:{ split; [done|]. split; [naive_solver|]. intros n [[<- Hn]|(i' & ? & ? & _)]; [by apply A3|done]. }
  destruct (Z.ltb_spec 0 (refill_count (scs s i))) as [Hc|Hc].
  2:{ split; [done|]. split; [naive_solver|]. intros n [[<- Hn]|(i' & [= <-] & _ & r & l & Hp & _)]; [by apply A3|].
      apply pending_count in Hp as [? _]; [lia|done]. }
  destruct (pending_head _ Hsc Hc) as [rest Hp]. set (r := refills _ _) in *.
  assert (∀ n, (wake_tick (tasks s t) = n ∧ n ≠ 0 ∨ ∃ i', Some i = Some i' ∧ state (tasks s t) = TASK_BUDGET_EXHAUSTED ∧
    ∃ r rest, pending (scs s i') = r :: rest ∧ r_at r = n) → m1 ≤ n ∨ n = r_at r) as Hn.
  { intros n [[<- Hn]|(i' & [= <-] & _ & r' & l & Hp' & <-)]; [left; by apply A3|]. right. congruence. }
  destruct (Z.ltb_spec (r_at r) m1) as [Hlt|Hge].
  - split; [lia|]. split; [right; right; eauto 10|]. intros n H. destruct (Hn n H); lia.
  - split; [done|]. split; [destruct A2 as [|[?|(i' & ? & ?)]]; [by left|right; by left|right; right; eauto]|].
    intros n H. destruct (Hn n H); lia.
Qed.

Lemma nearest_all s l m (m' := foldl (nearest s) m l) :
  threads_ok s → l ⊆ thread_list s →
  m' ≤ m ∧ (m' = m ∨ ∃ t, t ∈ l ∧ deadline s t m') ∧ ∀ t n, t ∈ l → deadline s t n → m' ≤ n.
Proof.
  intros Hok. subst m'. revert m. induction l as [|u l IH]; intros m Hl; cbn [foldl].
  { split; [done|]. split; [by left|]. intros t n H. by apply not_elem_of_nil in H. }
  destruct (nearest_spec s m u Hok) as (A1 & A2 & A3); [apply Hl; left|].
  destruct (IH (nearest s m u)) as (B1 & B2 & B3); [intros x Hx; apply Hl; by right|].
  split; [lia|]. split.
  - destruct B2 as [->|(t & ? & ?)]; [|right; exists t; split; [by right|done]].
    destruct A2 as [->|?]; [by left|right]. exists u. split; [left|done].
  - intros t n [->|Ht]%elem_of_cons Hd; [|eauto]. specialize (A3 n Hd). lia.
Qed.

Lemma enqueue_self u s : is_Some (rqs s (home_cpu (tasks s u))) → rq_queued (tasks (rq_enqueue u s) u) = true.
Proof.
  intros [q Hq]. unfold rq_enqueue. rewrite Hq. unfold rq_link_locked.
  destruct (rq_queued (tasks s u)) eqn:E; [done|]. cbv zeta.
  destruct (rq_head _ _ _); [destruct (rq_tail _ _ _)|]; cbn [rq_live_inc with_counts put_rq with_rqs tasks];
    rewrite ?tasks_upd; repeat case_decide; try done; by subst.
Qed.

Lemma wakeup_self u s :
  state (tasks s u) ≠ TASK_DEAD → terminal (tasks s u) = false → idle_thread s ≠ Some u →
  is_Some (rqs s (home_cpu (tasks s u))) →
  state (tasks (task_wakeup u s) u) = TASK_READY ∧ rq_queued (tasks (task_wakeup u s) u) = true.
Proof.
  intros Hs Ht Hi Hq. unfold task_wakeup. rewrite decide_False, Ht, decide_False by done. cbv zeta.
  cbn [with_ipi tasks]. split.
  - destruct (enqueue_frame u (upd_task u (set_state TASK_READY) s)) as [H _]. specialize (H u).
    apply (f_equal state) in H. change (state (sans_links ?k)) with (state k) in H.
    rewrite H, tasks_upd, decide_True by done. done.
  - apply enqueue_self. rewrite tasks_upd, decide_True by done. exact Hq.
Qed.

Lemma taken_due_head now (l d l' rest : list KRefill) (r : KRefill) :
  taken now l d l' → l = r :: rest → d = [] → now < r_at r.
Proof. intros [] Hl Hd; congruence. Qed.

Lemma refilled_parked s t i (s' := wake_refilled s t) :
  parked_on s t i → homed s t →
  ∃ d : list KRefill, taken (scheduler_ticks s) (pending (scs s i)) d (pending (scs s' i)) ∧
    remaining_budget (scs s' i) = remaining_budget (scs s i) + total d ∧
    (d ≠ [] → state (tasks s' t) = TASK_READY ∧ rq_queued (tasks s' t) = true) ∧
    (d = [] → tasks s' t = tasks s t).
Proof.
  intros [_ Hs Hi Hsc [Htm Hidle]] [Hb Hh]. subst s'. unfold wake_refilled.
  rewrite decide_False by done. rewrite Hi, bool_decide_true by done. cbv zeta.
  destruct (apply_spec (scheduler_ticks s) _ Hsc) as (d & g & sc' & -> & Ht & Hg & Hr & _).
  exists d. set (s1 := upd_sc i (λ _, sc') s).
  assert (∀ j, scs (if g then task_wakeup t (upd_task t (set_wake 0) s1) else s1) j = scs s1 j) as ->.
  { intros j. destruct g; [|done]. by rewrite (ot_sc _ _ _ _ (others_wakeup t None _)). }
  assert (scs s1 i = sc') as -> by apply upd_fn_same.
  split; [done|]. split; [done|]. destruct (decide (d = [])) as [->|Hd]; subst g; cbn [negb]; [done|].
  rewrite bool_decide_false by done. cbn [negb]. split; [|done]. intros _.
  apply wakeup_self; rewrite ?tasks_upd, ?decide_True by done; cbn [state set_wake terminal home_cpu]; try done.
  by change (tasks s1 t) with (tasks s t); rewrite Hs.
Qed.

(** The sweep of the idle core, at one parked thread. *)
Lemma sweep_parked s t i (s' := foldl wake_refilled s (thread_list s)) :
  threads_ok s → parked_on s t i →
  ∃ d : list KRefill, taken (scheduler_ticks s) (pending (scs s i)) d (pending (scs s' i)) ∧
    remaining_budget (scs s' i) = remaining_budget (scs s i) + total d ∧
    (d ≠ [] → state (tasks s' t) = TASK_READY ∧ rq_queued (tasks s' t) = true) ∧
    (d = [] → state (tasks s' t) = TASK_BUDGET_EXHAUSTED).
Proof.
  intros Hok Hp. pose proof Hp as [Hin Hs Hi Hsc [Htm Hidle]].
  destruct (sweep_split wake_refilled (λ s u, others_refilled u s) (thread_list s) s t)
    as (s1 & l1 & l2 & Hl & Ht1 & Ht2 & -> & S1 & S2); [apply Hok|done|]. fold s' in S2.
  set (s1 := foldl wake_refilled s l1) in *.
  assert (∀ u, u ∈ l1 ∨ u ∈ l2 → sched_ctx (tasks s u) ≠ Some i) as Hctx.
  { intros u Hu Hui. assert (u = t) as ->; [|tauto].
    apply (th_sc _ Hok u t i); try done. rewrite Hl, elem_of_app, elem_of_cons. tauto. }
  destruct (sp_task _ _ _ S1 t Ht1) as [E1 E1']. destruct (sp_self _ _ _ S1 t) as (C1 & K1 & T1).
  destruct (sp_rest _ _ _ S1) as (L1 & I1 & N1 & B1 & _). 
  assert (scs s1 i = scs s i) as Hsc1 by (apply (sp_sc _ _ _ S1); intros u Hu; apply Hctx; by left).
  assert (parked_on s1 t i) as Hp1.
  { split; [by rewrite L1|..]; rewrite ?C1, ?Hsc1, ?T1, ?I1; try done.
    apply sans_links_key in E1 as (_ & _ & _ & _ & ->). done. }
  assert (homed s1 t) as Hh1.
  { pose proof (proj1 (Forall_forall _ _) (th_homed _ Hok)) as Hall. destruct (Hall t Hin) as [Hb Hh].
    split; [by rewrite B1|]. injection K1 as -> _ _.
    apply refilled_queues; [|done]. apply Forall_forall. intros u Hu. apply Hall. rewrite Hl. apply elem_of_app. by left. }
  destruct (refilled_parked s1 t i Hp1 Hh1) as (d & D1 & D2 & D3 & D4).
  assert (scs s' i = scs (wake_refilled s1 t) i) as ->.
  { apply (sp_sc _ _ _ S2). intros u Hu. destruct (others_self _ _ _ _ u (others_refilled t s1)) as (-> & _).
    destruct (sp_self _ _ _ S1 u) as (-> & _). apply Hctx. by right. }
  destruct (sp_task _ _ _ S2 t Ht2) as [E2 ->]. apply sans_links_key in E2 as (_ & _ & _ & _ & ->).
  rewrite Hsc1, N1 in *. exists d. split; [done|]. split; [done|]. split; [done|]. intros Hd. rewrite D4 by done. apply Hp1.
Qed.

(** C39: A core with nothing to run never leaves the machine asleep. When some
    thread waits for a deadline below 2^64-1, the core that owns the timer sets the
    clock to the nearest one exactly, or leaves it if that is past; any other core,
    and a machine without deadlines, leaves the clock alone. After the sweep of
    either core every thread parked on its budget whose oldest replenishment is due
    is READY with the replenished ticks and either queued or the thread chosen to
    run, while one whose replenishments are all in the future stays parked. *)
Theorem sched_handle_idle_wakes c s Q :
  rq_rep s Q → threads_ok s → is_Some (rqs s c) → 0 ≤ cur_domain s →
  returns (sched_handle_idle c s) (λ '(chosen, s'),
    (c = 0 → ∀ t n, t ∈ thread_list s → deadline s t n → n < 2 ^ 64 - 1 →
       ∃ n', first_deadline s n' ∧ n' ≤ n ∧ scheduler_ticks s' = Z.max (scheduler_ticks s) n') ∧
    (c ≠ 0 ∨ (∀ t n, t ∈ thread_list s → deadline s t n → 2 ^ 64 - 1 ≤ n) → scheduler_ticks s' = scheduler_ticks s) ∧
    ∀ t i, parked_on s t i → ∃ due : list KRefill,
      taken (scheduler_ticks s') (pending (scs s i)) due (pending (scs s' i)) ∧
      remaining_budget (scs s' i) = remaining_budget (scs s i) + total due ∧
      if decide (due = []) then state (tasks s' t) = TASK_BUDGET_EXHAUSTED
      else state (tasks s' t) = TASK_READY ∧ (chosen = Some t ∨ rq_queued (tasks s' t) = true)).
Proof.
  intros Hr Hok Hc Hd. unfold sched_handle_idle. cbv zeta.
  pose proof (nearest_all s (thread_list s) (2 ^ 64 - 1) Hok ltac:(done)) as (M1 & M2 & M3).
  set (m := foldl (nearest s) _ _) in *. set (s1 := fast_forward c m s).
  assert (s1 = with_clock (scheduler_ticks s1) (wall_ticks s) s ∧
    (c = 0 → m < 2 ^ 64 - 1 → scheduler_ticks s1 = Z.max (scheduler_ticks s) m) ∧
    (c ≠ 0 ∨ m = 2 ^ 64 - 1 → scheduler_ticks s1 = scheduler_ticks s)) as (E1 & C1 & C2).
  { unfold s1, fast_forward. destruct (Z.eqb_spec m (2 ^ 64 - 1)), (Z.eqb_spec c 0); cbn [negb andb];
      try (split; [by destruct s|lia]).
    destruct (Z.ltb_spec (scheduler_ticks s) m); (split; [by destruct s|]); [|lia].
    cbn [with_clock scheduler_ticks]. lia. }
  set (n1 := scheduler_ticks s1) in *. clearbody n1 s1. subst s1.
  assert (rq_rep (with_clock n1 (wall_ticks s) s) Q) as Hr1 by (by destruct Hr).
  assert (threads_ok (with_clock n1 (wall_ticks s) s)) as Hok1 by (by destruct Hok).
  set (s1 := with_clock n1 (wall_ticks s) s) in *. set (s2 := foldl wake_refilled s1 (thread_list s1)).
  destruct (refilled_queues (thread_list s1) s1) as [Hq1 Hq2]; [apply Hok1|]. destruct (Hq1 _ Hr1) as [Q2 Hr2].
  fold s2 in Hq2, Hr2. destruct (sp_rest _ _ _ (sweep_spared wake_refilled (λ s u, others_refilled u s) (thread_list s1) s1))
    as (_ & _ & N2 & _ & D2 & _). fold s2 in N2, D2.
  eapply returns_mono; [apply (dequeue_spec s2 Q2 c Hr2); [by apply Hq2|by rewrite D2]|].
  intros [chosen s'] Hcase.
  assert (rq_frame s2 s' ∧ ∀ t, rq_queued (tasks s2 t) = true → chosen = Some t ∨ rq_queued (tasks s' t) = true) as [Hfr Hch].
  { destruct Hcase as [(-> & -> & _)|(x & p & l & -> & Hp & HL & _ & Hr' & Hfr & _)].
    { split; [apply rq_frame_refl|by right]. }
    split; [done|]. intros t Ht. destruct (decide (t = x)) as [->|Hx]; [by left|right].
    assert (t ∈ Q2 (key s2 t)) as Hin by (by apply rep_queued).
    apply (rep_queued s' _ t Hr'). rewrite (rq_frame_key _ _ t Hfr). unfold upd_fn. case_decide as Hk; [|done].
    rewrite Hk, HL, elem_of_cons in Hin. naive_solver. }
  destruct Hfr as (F1 & _ & _ & _ & _ & F6 & _ & F8 & _).
  assert (scheduler_ticks s' = n1) as -> by (rewrite F8, N2; done).
  split; [|split].
  - intros H0 t n Ht Hdl Hn. pose proof (M3 t n Ht Hdl). destruct M2 as [Hm|Hm]; [lia|].
    exists m. split; [by split|]. split; [done|]. apply C1; [done|lia].
  - intros Hno. apply C2. destruct Hno as [?|Hno]; [by left|right]. destruct M2 as [Hm|(t & Ht & Hd')]; [done|].
    specialize (Hno t m Ht Hd'). lia.
  - intros t i Hp. assert (parked_on s1 t i) as Hp1 by (by destruct Hp).
    destruct (sweep_parked s1 t i Hok1 Hp1) as (due & T1 & T2 & T3 & T4). fold s2 in T1, T2, T3, T4.
    exists due. rewrite F6. split; [exact T1|]. split; [exact T2|].
    pose proof (F1 t) as Hst. apply sans_links_key in Hst as (_ & _ & _ & _ & ->).
    destruct (decide (due = [])) as [Hdue|Hdue]; [by apply T4|]. destruct (T3 Hdue) as [-> Hqd]. split; [done|]. by apply Hch.
Qed.

(** ** A parked thread on a busy machine *)

Section parked.
Context (t : N).

(** No run queue and no link leads to [t], no core runs it, and it waits for a
    replenishment: the state [sched_tick_local] and the dispatcher leave it in. *)
Record parked s : Prop := Parked {
  pd_state : state (tasks s t) = TASK_BUDGET_EXHAUSTED ∧ wake_tick (tasks s t) = 0;
  pd_cpu   : ∀ c, current s c ≠ Some t;
  pd_rq    : ∀ c q d p, rqs s c = Some q → rq_head q d p ≠ Some t ∧ rq_tail q d p ≠ Some t;
  pd_next  : ∀ x, rq_next (tasks s x) ≠ Some t;
}.

(** What happens on a machine whose cores have something to run: ticks on any
    core, wake-ups of other threads, and dispatches on a core with a thread queued
    in the current domain. *)
Inductive busy_step : sched → sched → Prop :=
  | busy_tick_global sch s : busy_step s (sched_tick_global sch s)
  | busy_tick_local c s : busy_step s (sched_tick_local c s)
  | busy_wakeup u s : u ≠ t → busy_step s (task_wakeup u s)
  | busy_dispatch c s s1 x s2 :
      s1 = match current s c with Some o => dispatch_outgoing o s | None => s end →
      rq_top_priority c s1 ≠ -1 → pick_loop 1 c s1 = Ret (Some x, s2) →
      busy_step s (dispatch_commit c x s2).

Lemma parked_upd u f s : u ≠ t → (∀ k, rq_next (f k) = rq_next k) → parked s → parked (upd_task u f s).
Proof.
  intros Hu Hf [H1 H2 H3 H4]. split; try done.
  - rewrite tasks_upd, decide_False by done. done.
  - intros x. rewrite tasks_upd. case_decide; [by subst; rewrite Hf|done].
Qed.

Lemma parked_enqueue u s : u ≠ t → parked s → parked (rq_enqueue u s).
Proof.
  intros Hu [H1 H2 H3 H4]. pose proof (enqueue_frame u s) as (F1 & _ & F3 & _).
  assert (state (tasks (rq_enqueue u s) t) = TASK_BUDGET_EXHAUSTED ∧ wake_tick (tasks (rq_enqueue u s) t) = 0) as HS.
  { specialize (F1 t). destruct H1 as [<- <-]. split; [exact (f_equal state F1)|exact (f_equal wake_tick F1)]. }
  split; [done|by rewrite F3|..]; clear HS F1 F3; unfold rq_enqueue; destruct (rqs s (home_cpu _)) as [q|] eqn:Hq; try done;
    unfold rq_link_locked; destruct (rq_queued _); try done; cbv zeta;
    destruct (rq_head q _ _) eqn:Eh; [destruct (rq_tail q _ _) eqn:Et| |destruct (rq_tail q _ _) eqn:Et|];
    cbn [rq_live_inc with_counts put_rq with_rqs rqs tasks].
  - intros c q' d p. unfold upd_fn at 1. case_decide; [|apply H3]. intros [= <-].
    cbn [set_tail rq_head rq_tail]. rewrite upd2_spec. destruct (H3 _ q d p Hq). split; [done|]. case_decide; [congruence|done].
  - exact H3.
  - intros c q' d p. unfold upd_fn at 1. case_decide; [|apply H3]. intros [= <-].
    cbn [set_mask set_tail set_head rq_head rq_tail]. rewrite !upd2_spec. destruct (H3 _ q d p Hq).
    split; case_decide; congruence || done.
  - intros x. rewrite !tasks_upd. repeat case_decide; simpl; congruence || done.
  - intros x. rewrite !tasks_upd. repeat case_decide; simpl; congruence || done.
  - intros x. rewrite !tasks_upd. repeat case_decide; simpl; congruence || done.
Qed.

Lemma parked_sc i f s : parked s → parked (upd_sc i f s).
Proof. intros []. by split. Qed.

Lemma parked_wakeup u s : u ≠ t → parked s → parked (task_wakeup u s).
Proof.
  intros Hu Hp. unfold task_wakeup. case_decide; [done|]. destruct (terminal _); [done|]. cbv zeta.
  assert (parked (upd_task u (set_state TASK_READY) s)) as Hp1 by (by apply parked_upd).
  case_decide; [done|]. apply (parked_enqueue u) in Hp1; [|done]. by destruct Hp1.
Qed.

Lemma parked_replenish s u : parked s → parked (replenish s u).
Proof.
  intros Hp. unfold replenish. destruct (_ && _ && _) eqn:E; [|done]. cbv zeta.
  assert (u ≠ t) as Hu.
  { intros ->. destruct (pd_state s Hp) as [_ Hw]. rewrite Hw in E. by rewrite andb_false_r in E. }
  apply parked_wakeup; [done|]. apply parked_upd; [done..|]. destruct (sched_ctx _); [by apply parked_sc|done].
Qed.

Lemma parked_resched_all s : parked s → parked (resched_all s).
Proof.
  intros Hp. unfold resched_all. set (s1 := foldl _ s _).
  assert (parked s1) as Hp1.
  { subst s1. revert s Hp. induction (seq 0 MAX_CPUS) as [|n l IH]; intros s Hp; cbn [foldl]; [done|].
    apply IH. destruct (current s (Z.of_nat n)) as [u|] eqn:Hu; [|done]. apply parked_upd; [|done..].
    intros ->. by apply (pd_cpu s Hp) in Hu. }
  clearbody s1. revert s1 Hp1. induction (seq 1 (MAX_CPUS - 1)) as [|n l IH]; intros s1 Hp1; cbn [foldl]; [done|].
  apply IH. by destruct Hp1.
Qed.

Lemma parked_tick_global sch s : parked s → parked (sched_tick_global sch s).
Proof.
  intros Hp. unfold sched_tick_global. set (s1 := with_clock _ _ s). assert (parked s1) as Hp1 by (by destruct Hp).
  assert (parked (sched_domain_tick sch s1).2) as Hp2.
  { unfold sched_domain_tick. destruct (_ && _); [done|]. cbv zeta. destruct (0 <? _); [by destruct Hp1|].
    case_decide; by destruct Hp1. }
  destruct (sched_domain_tick sch s1) as [b s2]. cbn [snd] in Hp2.
  set (s3 := if b then _ else _). assert (parked s3) as Hp3 by (unfold s3; destruct b; [by apply parked_resched_all|done]).
  clearbody s3. revert Hp3. generalize (thread_list s3). intros l. revert s3.
  induction l as [|u l IH]; intros s3 Hp3; cbn [foldl]; [done|]. by apply IH, parked_replenish.
Qed.

Lemma parked_tick_slice c u s : u ≠ t → parked s → parked (tick_slice c u s).
Proof.
  intros Hu Hp. unfold tick_slice. cbv zeta. set (s1 := if _ && _ then _ else s).
  assert (parked s1) as Hp1 by (unfold s1; destruct (_ && _); [by apply parked_upd|done]).
  set (s2 := if 0 <? _ then _ else s1).
  assert (parked s2) as Hp2 by (unfold s2; destruct (0 <? _); [by apply parked_upd|done]).
  destruct (_ =? 0); [by apply parked_upd|done].
Qed.

Lemma parked_tick_local c s : parked s → parked (sched_tick_local c s).
Proof.
  intros Hp. unfold sched_tick_local. set (s1 := if decide _ then _ else s).
  assert (parked s1) as Hp1 by (unfold s1; case_decide; [by destruct Hp|done]). clearbody s1. cbv zeta.
  destruct (current s1 c) as [u|] eqn:Hu; [|done].
  assert (u ≠ t) as Hut by (intros ->; by apply (pd_cpu s1 Hp1) in Hu).
  destruct (sched_ctx _) as [i|]; [|by apply parked_tick_slice]. case_bool_decide; [|by apply parked_tick_slice].
  destruct (kschedctx_charge_tick _ _) as [e sc]. assert (parked (upd_sc i (λ _, sc) s1)) as Hp2 by (by apply parked_sc).
  destruct e; [|by apply parked_tick_slice]. destruct (timeout_ep _); [by apply parked_upd|].
  destruct (negb _); apply parked_upd; try done; by apply parked_sc.
Qed.

Lemma parked_outgoing u s : u ≠ t → parked s → parked (dispatch_outgoing u s).
Proof.
  intros Hu Hp. unfold dispatch_outgoing. apply parked_upd; [done..|].
  set (s1 := match sched_ctx _ with Some _ => _ | None => s end).
  assert (parked s1) as Hp1 by (unfold s1; destruct (sched_ctx _); [by apply parked_sc|done]).
  destruct (decide (state (tasks s1 u) = TASK_RUNNING)); [|done]. cbv zeta.
  assert (parked (upd_task u (set_state TASK_READY) s1)) by (by apply parked_upd).
  destruct (decide (idle_thread _ = Some u)); [done|by apply parked_enqueue].
Qed.

Lemma parked_dequeue c s x s' : rq_dequeue_best c s = Ret (Some x, s') → parked s → x ≠ t ∧ parked s'.
Proof.
  intros Hd Hp. unfold rq_dequeue_best in Hd. destruct (rqs s c) as [q|] eqn:Hq; [|done].
  destruct (top_bit _ _) as [p|]; [|done].
  destruct (rq_head q (sel_domain s) p) as [y|] eqn:Hh; [|done]. cbn [of_assert mbind res_bind] in Hd.
  injection Hd as -> <-. assert (x ≠ t) as Hx by (intros ->; by apply (pd_rq s Hp c q _ _ Hq) in Hh).
  split; [done|]. destruct Hp as [H1 H2 H3 H4]. split; [|done|..]; cbn [rq_live_dec with_counts rqs upd_task with_tasks tasks put_rq with_rqs].
  - rewrite upd_fn_other by done. done.
  - intros c' q' d' p'. unfold upd_fn at 1. case_decide; [|apply H3]. intros [= <-]. destruct (H3 c q d' p' Hq).
    destruct (rq_next (tasks s x)) as [z|] eqn:Hn; cbn [set_mask set_tail set_head rq_head rq_tail];
      rewrite !upd2_spec; split; try case_decide; try done. intros [= ->]. by apply (H4 x).
  - intros y. unfold upd_fn. case_decide; [done|apply H4].
Qed.

Lemma parked_step s s' : busy_step s s' → parked s → parked s'.
Proof.
  intros [sch s0|c s0|u s0 Hu|c s0 s1 x s2 -> Htop Hpick] Hp.
  - by apply parked_tick_global.
  - by apply parked_tick_local.
  - by apply parked_wakeup.
  - set (s1 := match current s0 c with Some _ => _ | None => _ end) in *.
    assert (parked s1) as Hp1.
    { unfold s1. destruct (current s0 c) as [o|] eqn:Ho; [|done]. apply parked_outgoing; [|done].
      intros ->. by apply (pd_cpu s0 Hp) in Ho. }
    cbn [pick_loop] in Hpick. destruct (rq_dequeue_best c s1) as [[[y|] s3]| |] eqn:Hd; try done.
    + destruct (parked_dequeue c s1 y s3 Hd Hp1) as [Hy Hp3]. cbn [mbind res_bind] in Hpick.
      destruct (on_cpu _); [discriminate Hpick|].
      destruct (decide (state _ = TASK_SUSPENDED)); [discriminate Hpick|]. injection Hpick as -> <-.
      assert (parked (upd_task x (set_on_cpu true) s3)) as Hp4 by (by apply parked_upd).
      unfold dispatch_commit. cbv zeta.
      assert (∀ f s4, (∀ k, rq_next (f k) = rq_next k) → parked s4 →
        parked (with_current (upd_fn (current (upd_task x f s4)) c (Some x)) (upd_task x f s4))) as Hcur.
      { intros f s4 Hf H. apply (parked_upd x f s4 Hy Hf) in H. destruct H as [A1 A2 A3 A4]. split; try done.
        intros c'. cbn [with_current current]. unfold upd_fn. case_decide; [congruence|apply A2]. }
      by apply Hcur.
    + exfalso. apply Htop. unfold rq_top_priority. unfold rq_dequeue_best in Hd.
      destruct (rqs s1 c) as [q|]; [|done]. destruct (top_bit _ _); [|done].
      by destruct (rq_head q _ _).
Qed.
End parked.

(** C40: A thread parked on its budget is not released by the passing of time
    while its core stays busy.  Whatever its replenishments say and however far the
    clock moves, no sequence of ticks, wake-ups of other threads and dispatches on
    cores with something queued makes it runnable again: the sweep of the tick only
    releases threads with a [wake_tick], which the tick that parks a thread has just
    cleared, and [kschedctx_apply_refills] is called only when a core is idle. *)
Theorem budget_exhausted_starves t s s' :
  parked t s → rtc (busy_step t) s s' →
  state (tasks s' t) = TASK_BUDGET_EXHAUSTED ∧ ∀ c, current s' c ≠ Some t.
Proof.
  intros Hp Hsteps. assert (parked t s') as Hp'.
  { induction Hsteps as [|s1 s2 s3 Hs _ IH]; [done|]. apply IH. by eapply parked_step. }
  split; apply Hp'.
Qed.

(** ** Budget enforcement *)

(** Ticks of core [c] at the times [ns] of the machine's clock. *)
Fixpoint run_ticks c (ns : list Z) s : sched :=
  match ns with
  | [] => s
  | n :: ns => run_ticks c ns (sched_tick_local c (with_clock n (wall_ticks s) s))
  end.

(** [t] runs on core [c] on the budget of context [i]; [h] is its timeout handler. *)
Record runs_on (h : option N) s c t (i : N) : Prop := RunsOn {
  ro_cpu   : current s c = Some t;
  ro_state : state (tasks s t) = TASK_RUNNING;
  ro_ctx   : sched_ctx (tasks s t) = Some i ∧ timeout_ep (tasks s t) = h;
  ro_sc    : sc_ok (scs s i);
}.

(** A change of the running thread that keeps it running. *)
Lemma slice_upd h c t i (f : task → task) s :
  keeps f → (∀ k, state (f k) = state k) → runs_on h s c t i →
  runs_on h (upd_task t f s) c t i ∧ scs (upd_task t f s) = scs s.
Proof.
  intros Hf Hst [R1 R2 R3 R4]. destruct (Hf (tasks s t)) as (_ & _ & _ & _ & _ & E6 & _ & E8).
  split; [|done]. split; try done; rewrite tasks_upd, decide_True by done; rewrite ?Hst, ?E6, ?E8; done.
Qed.

Lemma slice_runs h c t i s (s' := tick_slice c t s) : runs_on h s c t i → runs_on h s' c t i ∧ scs s' = scs s.
Proof.
  intros Hr. subst s'. unfold tick_slice. cbv zeta. set (s1 := if _ && _ then _ else s).
  assert (runs_on h s1 c t i ∧ scs s1 = scs s) as [R1 E1] by (unfold s1; destruct (_ && _); [by apply slice_upd|done]).
  set (s2 := if 0 <? _ then _ else s1).
  assert (runs_on h s2 c t i ∧ scs s2 = scs s1) as [R2 E2] by (unfold s2; destruct (0 <? _); [by apply slice_upd|done]).
  rewrite <-E1, <-E2. destruct (_ =? 0); [by apply slice_upd|done].
Qed.

(** The budget of [t] ran out in a run that began at [start] and consumed [spent]:
    without a handler the thread is parked and its replenishment queued, with one the
    fault is left for the dispatcher and the run stays open. *)
Definition budget_over (h : option N) sc (start spent : Z) t (i : N) s' : Prop :=
  need_resched (tasks s' t) = true ∧ remaining_budget (scs s' i) = 0 ∧
  match h with
  | None => state (tasks s' t) = TASK_BUDGET_EXHAUSTED ∧ wake_tick (tasks s' t) = 0 ∧
      queued (refill_max sc) (Refill (start + period_ticks sc) spent) (pending sc) (pending (scs s' i))
  | Some _ => state (tasks s' t) = TASK_RUNNING ∧ timeout_pending (tasks s' t) = true ∧
      pending (scs s' i) = pending sc ∧ consumed_run (scs s' i) = spent ∧ consume_start (scs s' i) = start
  end.

(** One tick of a running thread: it is charged, and stopped when that was the
    last tick of its budget. *)
Lemma tick_spec h n s c t i (sc := scs s i) (s' := sched_tick_local c (with_clock n (wall_ticks s) s)) :
  runs_on h s c t i → 0 < remaining_budget sc → 0 ≤ n < 2 ^ 63 → 0 ≤ consume_start sc < 2 ^ 63 →
  let start := if decide (consumed_run sc = 0) then n else consume_start sc in
  if decide (remaining_budget sc = 1)
  then budget_over h sc start (consumed_run sc + 1) t i s'
  else runs_on h s' c t i ∧ remaining_budget (scs s' i) = remaining_budget sc - 1 ∧
       consumed_run (scs s' i) = consumed_run sc + 1 ∧ consume_start (scs s' i) = start ∧
       pending (scs s' i) = pending sc ∧ period_ticks (scs s' i) = period_ticks sc ∧
       refill_max (scs s' i) = refill_max sc.
Proof.
  intros [R1 R2 [R3 R3'] R4] Hrem Hn Hst start. change (sc_ok sc) in R4. subst s'. unfold sched_tick_local.
  set (s1 := if decide (current _ c = _) then _ else _).
  assert (tasks s1 = tasks s ∧ scs s1 = scs s ∧ current s1 = current s ∧ scheduler_ticks s1 = n) as (E1 & E2 & E3 & E4)
    by (unfold s1; by case_decide). clearbody s1. cbv zeta. rewrite E3, R1, E1, R3, R2, E4, E2, R3'.
  rewrite bool_decide_true by done.
  destruct (charge_spec n sc R4 Hrem) as (sc1 & Hch & Hok1 & _ & Hp1 & Hr1 & Hc1 & Hs1 & Hb1 & Hpe1).
  fold start in Hs1. fold sc. rewrite Hch.
  assert (refill_max sc1 = refill_max sc) as Hm1.
  { apply (f_equal snd) in Hch. cbn [snd] in Hch. subst sc1. unfold kschedctx_charge_tick.
    rewrite (proj2 (Z.ltb_lt _ _)) by done. cbn [snd]. by destruct (_ =? 0). }
  case_decide as Hone; [rewrite bool_decide_true by done; destruct h as [ep|]|rewrite bool_decide_false by done].
  - unfold budget_over. change (tasks (upd_task t ?f ?a) t) with (upd_fn (tasks a) t (f (tasks a t)) t). rewrite upd_fn_same.
    cbn [upd_task with_tasks upd_sc with_scs scs tasks]. rewrite upd_fn_same, E1. split_and!; try done. lia.
  - assert (0 ≤ start < 2 ^ 63) as Hstart by (unfold start; case_decide; lia).
    pose proof (so_parts _ R4) as (_ & Hc0 & _).
    destruct (flush_spec sc1 Hok1) as (Q1 & _ & _ & Q4 & _ & _ & _ & Q8); [lia|by rewrite Hs1|].
    cbn [upd_sc with_scs scs]. rewrite !upd_fn_same, Q8. cbn [negb].
    unfold budget_over. change (tasks (upd_task t ?f ?a) t) with (upd_fn (tasks a) t (f (tasks a t)) t). rewrite upd_fn_same.
    cbn [upd_task with_tasks scs upd_sc with_scs]. rewrite !upd_fn_same. split; [done|]. split; [lia|]. split; [done|]. split; [done|].
    rewrite Hs1, Hc1, Hp1, Hpe1, Hm1 in Q1. exact Q1.
  - set (s2 := upd_sc i (λ _, sc1) s1).
    assert (runs_on h s2 c t i) as Hr2.
    { split; cbn [s2 upd_sc with_scs current tasks scs]; rewrite ?E3, ?E1, ?upd_fn_same; try done. }
    destruct (slice_runs h c t i s2 Hr2) as [Hr3 Hsc3]. split; [exact Hr3|]. rewrite Hsc3.
    cbn [s2 upd_sc with_scs scs]. rewrite upd_fn_same. done.
Qed.

(** C26: Budgets are enforced to the tick.  A thread with [b] ticks of budget left
    runs for exactly [b] more ticks of its core, whatever its core's queue and its
    time slice do: after fewer it is still running with what is left.  The [b]-th
    tick leaves no budget and asks for a reschedule.  Without a timeout
    handler it parks the thread and queues one replenishment for all that the run
    consumed, due a period after the run began; with a handler the thread is not
    parked: the timeout fault is marked for the dispatcher and the run, with all
    it consumed and its start, stays open with no replenishment queued. *)
Theorem sched_budget_enforced h ns n0 c s t i (sc := scs s i) (s' := run_ticks c (n0 :: ns) s) :
  runs_on h s c t i → Forall (λ n, 0 ≤ n < 2 ^ 63) (n0 :: ns) → 0 ≤ consume_start sc < 2 ^ 63 →
  Z.of_nat (length (n0 :: ns)) ≤ remaining_budget sc →
  if decide (Z.of_nat (length (n0 :: ns)) < remaining_budget sc)
  then state (tasks s' t) = TASK_RUNNING ∧
       remaining_budget (scs s' i) = remaining_budget sc - Z.of_nat (length (n0 :: ns))
  else budget_over h sc (if decide (consumed_run sc = 0) then n0 else consume_start sc)
         (consumed_run sc + remaining_budget sc) t i s'.
Proof.
  subst sc s'. revert n0 s. induction ns as [|n1 ns IH]; intros n0 s Hr Hns Hst Hlen;
    apply Forall_cons in Hns as [Hn0 Hns]; pose proof (tick_spec h n0 s c t i Hr ltac:(simpl in Hlen; lia) Hn0 Hst) as Ht;
    cbv zeta in Ht; set (s1 := sched_tick_local c _) in *.
  - change (run_ticks c [n0] s) with s1. cbn [length] in *. destruct (decide (remaining_budget (scs s i) = 1)) as [Hb|Hb].
    + rewrite decide_False by lia. rewrite Hb. exact Ht.
    + rewrite decide_True by lia. destruct Ht as ([_ ? _ _] & T2 & _). split; [done|]. lia.
  - change (run_ticks c (n0 :: n1 :: ns) s) with (run_ticks c (n1 :: ns) s1).
    assert (length (n0 :: n1 :: ns) = S (length (n1 :: ns))) as El by done. rewrite El in *.
    rewrite decide_False in Ht by (cbn [length] in Hlen; lia). destruct Ht as (T1 & T2 & T3 & T4 & T5 & T6 & T7).
    pose proof (so_parts _ (ro_sc _ _ _ _ _ Hr)) as (_ & Hc0 & _).
    specialize (IH n1 s1 T1 Hns). unfold budget_over in IH |- *. rewrite T2, T4, T5, T6, T7 in IH.
    rewrite (decide_False (P := consumed_run (scs s1 i) = 0)) in IH by lia. rewrite T3 in IH.
    assert (0 ≤ (if decide (consumed_run (scs s i) = 0) then n0 else consume_start (scs s i)) < 2 ^ 63) as Hs1
      by (case_decide; lia).
    specialize (IH Hs1 ltac:(lia)). cbv zeta in IH |- *.
    destruct (decide (Z.of_nat (S (length (n1 :: ns))) < remaining_budget (scs s i))) as [Hlt|Hge].
    + rewrite decide_True in IH by lia. destruct IH as [I1 I2]. split; [done|]. lia.
    + rewrite decide_False in IH by lia.
      replace (consumed_run (scs s i) + remaining_budget (scs s i)) with
        (consumed_run (scs s i) + 1 + (remaining_budget (scs s i) - 1)) by lia. exact IH.
Qed.

(** ** Witnesses *)

(** Thread 7 on a budget of 2 ticks in 10: running on it, and parked with the two
    ticks due back at time 11. *)
Definition sc_full : KSchedContext := SC 2 10 2 (Some 7%N) true 8 0 0 0 0 0 (λ _, Refill 0 0).
Definition sc_spent : KSchedContext :=
  SC 2 10 0 (Some 7%N) true 8 0 1 0 0 2 (upd_fn (λ _, Refill 0 0) 0 (Refill 11 2)).
Definition machine (st : task_state_t) (sc : KSchedContext) (cur : option N) : sched :=
  Sched (λ t, if decide (t = 7%N)
              then Task st 107 0 0 None false 0 (Some 0%N) 2 2 false None false false false
              else task0 50) 100
    (λ c, if decide (c = 0) then Some empty_rq else None) (λ c, if decide (c = 0) then cur else None)
    [7%N] None (λ _, sc) 0 5 5 0 0 0 [] (λ _, 0) 0 0 0.

Lemma machine_rep st sc cur : rq_rep (machine st sc cur) (λ _, []).
Proof.
  split.
  - intros c q d p Hq _ _. cbn [machine rqs] in Hq. destruct (decide (c = 0)); [|done].
    injection Hq as <-. split; [constructor|done].
  - intros c q d Hq _. cbn [machine rqs] in Hq. destruct (decide (c = 0)); [|done].
    injection Hq as <-. split; [done|]. intros p Hp. cbn [empty_rq rq_mask]. by rewrite Z.bits_0.
  - intros k t. split; [by intros ?%not_elem_of_nil|]. intros [H _]. revert H. cbn [machine tasks]. by case_decide.
  - intros k. constructor.
  - intros t. cbn [machine tasks]. case_decide; simpl; lia.
  - intros t. cbn [machine tasks]. by case_decide.
Qed.

Lemma sc_full_ok : sc_ok sc_full.
Proof. split; [cbn; lia|cbn; lia| |done]. split; [done|]. split; [done|]. by constructor. Qed.

Lemma sc_spent_pending : pending sc_spent = [Refill 11 2].
Proof. reflexivity. Qed.

Lemma sc_spent_ok : sc_ok sc_spent.
Proof.
  split; [cbn; lia|cbn; lia| |].
  - rewrite sc_spent_pending. split_and!; [done..|]. apply Forall_singleton. done.
  - unfold worth. rewrite sc_spent_pending. done.
Qed.

Definition asleep : sched := machine TASK_BUDGET_EXHAUSTED sc_spent None.

Lemma sched_handle_idle_wakes_witness :
  returns (sched_handle_idle 0 asleep) (λ '(chosen, s'),
    scheduler_ticks s' = 11 ∧ state (tasks s' 7%N) = TASK_READY).
Proof.
  assert (threads_ok asleep) as Hok.
  { split.
    - repeat constructor. by intros ?%not_elem_of_nil.
    - apply Forall_singleton. split; [vm_compute; lia|eexists; reflexivity].
    - intros t u i ->%list_elem_of_singleton ->%list_elem_of_singleton. done.
    - intros t i _ _. apply sc_spent_ok. }
  assert (parked_on asleep 7 0) as Hp.
  { split; [by apply list_elem_of_singleton|done|done|apply sc_spent_ok|done]. }
  assert (∀ n, deadline asleep 7 n → n = 11) as Hdl.
  { intros n [[<- H]|(i & _ & _ & r & rest & H & <-)]; [done|].
    change (scs asleep i) with sc_spent in H. rewrite sc_spent_pending in H. by injection H as <- _. }
  eapply returns_mono; [apply (sched_handle_idle_wakes 0 asleep (λ _, []));
    [apply machine_rep|exact Hok|by eexists|done]|].
  intros [chosen s'] (Hc & _ & Hw).
  destruct (Hc eq_refl 7%N 11) as (n' & [(t' & ->%list_elem_of_singleton & Hn') _] & _ & Hle);
    [by apply list_elem_of_singleton| |done|].
  { right. exists 0%N. split; [done|]. split; [done|]. by exists (Refill 11 2), []. }
  apply Hdl in Hn' as ->. split; [exact Hle|].
  destruct (Hw 7%N 0%N Hp) as (due & Ht & _ & Hst).
  destruct (decide (due = [])) as [He|_]; [|by destruct Hst].
  pose proof (taken_due_head _ _ _ _ [] (Refill 11 2) Ht sc_spent_pending He) as Hlt. cbn [r_at] in Hlt. lia.
Defined.

(** Thread 9 runs without a context; after twenty ticks the clock is past the
    replenishment of thread 7. *)
Definition busy : sched := machine TASK_BUDGET_EXHAUSTED sc_spent (Some 9%N).
Definition tick s : sched := sched_tick_local 0 (sched_tick_global dom_schedule s).

Lemma budget_exhausted_starves_witness :
  state (tasks (Nat.iter 20 tick busy) 7%N) = TASK_BUDGET_EXHAUSTED ∧
  scheduler_ticks (Nat.iter 20 tick busy) = 25.
Proof.
  split; [|vm_compute; reflexivity].
  apply (budget_exhausted_starves 7 busy).
  - split; [done|..].
    + intros c. cbn [busy machine current]. by case_decide.
    + intros c q d p Hq. cbn [busy machine rqs] in Hq. destruct (decide (c = 0)); [|done].
      injection Hq as <-. done.
    + intros x. cbn [busy machine tasks]. by case_decide.
  - generalize 20%nat. intros n. induction n as [|n IH]; [apply rtc_refl|].
    apply rtc_r with (sched_tick_global dom_schedule (Nat.iter n tick busy)); [|exact (busy_tick_local 7 0 _)].
    eapply rtc_r; [exact IH|apply busy_tick_global].
Defined.

Definition running : sched := machine TASK_RUNNING sc_full (Some 7%N).

Lemma sched_budget_enforced_witness :
  state (tasks (run_ticks 0 [6; 7] running) 7%N) = TASK_BUDGET_EXHAUSTED.
Proof.
  assert (runs_on None running 0 7 0) as Hr by (split; [done|done|done|apply sc_full_ok]).
  assert (budget_over None sc_full 6 2 7 0 (run_ticks 0 [6; 7] running)) as (_ & _ & H & _); [|exact H].
  apply (sched_budget_enforced None [7] 6 0 running 7 0 Hr); [|done|done].
  apply Forall_cons. split; [done|]. by apply Forall_singleton.
Defined.
