(* ===== verification/Wq.v ===== *)
(** * Intrusive FIFO queues of threads

    Notifications and endpoints queue waiting threads the same way: a head and a
    tail pointer in the object, one link per thread in the thread.  This file has
    the two surgeries the code performs on such a queue and the walk that finds
    where to perform them, with the queue as a list as their specification. *)

From Stdlib Require Import ZArith Lia.
From stdpp Require Import base numbers gmap list.
From S2P Require Import Prelude RunqInv.
Implicit Types (nx : N → option N) (h tl o prev : option N) (t w x : N) (l : list N).

(** [for (w = head; w; prev = w, w = w->next) if (p(w)) break;] *)
Fixpoint wq_find (fuel : nat) (p : N → bool) nx prev o : res (option N * option N) :=
  match fuel with
  | O => NoFuel
  | S fuel =>
    match o with
    | None => Ret (prev, None)
    | Some w => if p w then Ret (prev, Some w) else wq_find fuel p nx (Some w) (nx w)
    end
  end.

(** Taking [w], whose predecessor is [prev], out of the queue. *)
Definition wq_cut nx h tl prev w : (N → option N) * option N * option N :=
  let next := nx w in
  let nx' := match prev with Some q => upd_fn nx q next | None => nx end in
  let h' := match prev with Some _ => h | None => next end in
  let tl' := if decide (tl = Some w) then prev else tl in
  (upd_fn nx' w None, h', tl').

(** Putting [t] at the end. *)
Definition wq_add nx h tl t : (N → option N) * option N * option N :=
  let nx' := upd_fn nx t None in
  match tl with
  | Some q => (upd_fn nx' q (Some t), h, Some t)
  | None => (nx', Some t, Some t)
  end.

(** The queue is the list [l]. *)
Record wq_rep nx h tl l : Prop := WqRep {
  wq_chain : chain nx h l;
  wq_last  : tl = last l;
  wq_nodup : NoDup l;
}.

Lemma wq_empty nx : wq_rep nx None None [].
Proof. split; [constructor|done|constructor]. Qed.

Lemma wq_find_some p nx l1 x l2 fuel prev o :
  chain nx o (l1 ++ x :: l2) → Forall (λ y, p y = false) l1 → p x = true → (length l1 < fuel)%nat →
  wq_find fuel p nx prev o = Ret (match last l1 with Some y => Some y | None => prev end, Some x).
Proof.
  revert fuel prev o. induction l1 as [|y l1 IH]; intros fuel prev o Hc Hf Hx Hl; inversion Hc; subst;
    (destruct fuel as [|fuel]; [simpl in Hl; lia|]); cbn [wq_find]; [by rewrite Hx|].
  apply Forall_cons in Hf as [-> Hf]. rewrite (IH fuel (Some y)); [|done..|simpl in Hl; lia].
  destruct l1 as [|z l1]; [done|]. rewrite last_cons_cons. destruct (last (z :: l1)) eqn:E; [done|].
  by apply last_None in E.
Qed.

Lemma wq_find_none p nx l fuel prev o :
  chain nx o l → Forall (λ y, p y = false) l → (length l < fuel)%nat →
  ∃ q, wq_find fuel p nx prev o = Ret (q, None).
Proof.
  revert fuel prev o. induction l as [|y l IH]; intros fuel prev o Hc Hf Hl; inversion Hc; subst;
    (destruct fuel as [|fuel]; [simpl in Hl; lia|]); cbn [wq_find]; [by eexists|].
  apply Forall_cons in Hf as [-> Hf]. apply IH; [done..|simpl in Hl; lia].
Qed.

(** The first element that satisfies [p], with what is before and after it. *)
Lemma first_split (p : N → bool) l :
  Forall (λ y, p y = false) l ∨
  ∃ l1 x l2, l = l1 ++ x :: l2 ∧ Forall (λ y, p y = false) l1 ∧ p x = true.
Proof.
  induction l as [|y l IH]; [by left|]. destruct (p y) eqn:Hy.
  - right. by exists [], y, l.
  - destruct IH as [IH|(l1 & x & l2 & -> & H1 & H2)]; [left; by constructor|].
    right. exists (y :: l1), x, l2. split; [done|]. split; [by constructor|done].
Qed.

Lemma wq_cut_rep nx h tl l1 w l2 nx' h' tl' :
  wq_rep nx h tl (l1 ++ w :: l2) → wq_cut nx h tl (last l1) w = (nx', h', tl') →
  wq_rep nx' h' tl' (l1 ++ l2) ∧ nx' w = None ∧
  ∀ x, x ≠ w → last l1 ≠ Some x → nx' x = nx x.
Proof.
  intros [Hc Htl Hnd] Hcut. unfold wq_cut in Hcut. injection Hcut as <- <- <-.
  assert (w ∉ l1 ++ l2) as Hw.
  { apply NoDup_app in Hnd as (_ & H1 & H2). apply NoDup_cons in H2 as [H2 _]. intros [H|H]%elem_of_app; [|done].
    apply (H1 w H). left. }
  assert (NoDup (l1 ++ l2)) as Hnd'.
  { apply NoDup_app in Hnd as (N1 & N2 & N3). apply NoDup_cons in N3 as [_ N3]. apply NoDup_app.
    split; [done|]. split; [|done]. intros y Hy Hy'. apply (N2 y Hy). by right. }
  assert (chain (upd_fn (match last l1 with Some q => upd_fn nx q (nx w) | None => nx end) w None)
    (match last l1 with Some _ => h | None => nx w end) (l1 ++ l2)) as Hc'.
  { eapply chain_ext; [intros y Hy; symmetry; apply upd_fn_other; congruence|].
    destruct (last l1) as [q|] eqn:Hq; [by eapply chain_unlink|].
    apply last_None in Hq as ->. by apply chain_unlink_first in Hc. }
  split; [|split; [apply upd_fn_same|]].
  - split; [done| |done]. rewrite Htl. destruct (decide (last (l1 ++ w :: l2) = Some w)) as [Hl|Hl].
    + destruct l2 as [|z l2]; [by rewrite app_nil_r|]. exfalso. rewrite last_app_cons, last_cons_cons in Hl.
      apply Hw, elem_of_app. right. by apply last_Some_elem_of.
    + destruct l2 as [|z l2]; [by rewrite last_app_cons in Hl|]. by rewrite !last_app_cons, last_cons_cons.
  - intros x Hx Hlast. rewrite upd_fn_other by done. destruct (last l1) as [q|]; [|done].
    apply upd_fn_other. congruence.
Qed.

Lemma wq_add_rep nx h tl l t nx' h' tl' :
  wq_rep nx h tl l → t ∉ l → wq_add nx h tl t = (nx', h', tl') →
  wq_rep nx' h' tl' (l ++ [t]) ∧ nx' t = None ∧ ∀ x, x ≠ t → last l ≠ Some x → nx' x = nx x.
Proof.
  intros [Hc -> Hnd] Ht Hadd. unfold wq_add in Hadd.
  assert (NoDup (l ++ [t])) as Hnd'.
  { apply NoDup_app. split; [done|]. split; [|apply NoDup_singleton]. intros y Hy ->%list_elem_of_singleton. done. }
  destruct (last l) as [q|] eqn:Hq; injection Hadd as <- <- <-.
  - assert (q ≠ t) by (intros ->; apply Ht; by apply last_Some_elem_of).
    split; [|split; [by rewrite upd_fn_other, upd_fn_same|]].
    + split; [by apply chain_snoc|by rewrite last_snoc|done].
    + intros x Hx Hl. rewrite !upd_fn_other by congruence. done.
  - apply last_None in Hq as ->. split; [|split; [apply upd_fn_same|]].
    + split; [|done|done]. constructor. rewrite upd_fn_same. constructor.
    + intros x Hx _. by rewrite upd_fn_other.
Qed.

(** A queue none of whose threads changed its link. *)
Lemma wq_frame nx nx' h tl l : (∀ x, x ∈ l → nx' x = nx x) → wq_rep nx h tl l → wq_rep nx' h tl l.
Proof. intros Hx [Hc Hl Hn]. split; [|done|done]. eapply chain_ext; [|done]. intros x Hin. symmetry. by apply Hx. Qed.
