(* ===== verification/Ipc.v ===== *)
(** * The state of inter-process communication

    Notifications (kernel/new_core/include/iris/nc/knotification.h), endpoints
    (kendpoint.h), the interrupt routing table (kernel/core/irq/irq_routing.c) and
    the fields of [struct task] they use, over the scheduler state of [Runq].  A
    field of a thread is a function from the thread's name; objects are named by
    numbers too. *)

From Stdlib Require Import ZArith Lia.
From stdpp Require Import base numbers gmap list.
From S2P Require Import Prelude Rights Runq.
Local Open Scope Z_scope.

Record KNotification := Ntf {
  signal_bits  : Z;               (* _Atomic uint64_t *)
  n_closed     : bool;
  waiter_count : Z;
  bound_tcb    : option N;
  queue_head   : option N;
  queue_tail   : option N;
  live_prev    : option N;
  live_next    : option N;
}.

Definition set_bits v k := Ntf v (n_closed k) (waiter_count k) (bound_tcb k) (queue_head k) (queue_tail k) (live_prev k) (live_next k).
Definition set_closed k := Ntf (signal_bits k) true (waiter_count k) (bound_tcb k) (queue_head k) (queue_tail k) (live_prev k) (live_next k).
Definition set_bound v k := Ntf (signal_bits k) (n_closed k) (waiter_count k) v (queue_head k) (queue_tail k) (live_prev k) (live_next k).
Definition set_queue c h t k := Ntf (signal_bits k) (n_closed k) c (bound_tcb k) h t (live_prev k) (live_next k).
Definition set_live p n k := Ntf (signal_bits k) (n_closed k) (waiter_count k) (bound_tcb k) (queue_head k) (queue_tail k) p n.

Inductive ep_state_t := EP_STATE_IDLE | EP_STATE_SEND | EP_STATE_RECV.
Record KEndpoint := Ep {
  ep_state : ep_state_t;
  ep_closed : bool;
  ep_head : option N;             (* queue_head *)
  ep_tail : option N;             (* queue_tail *)
}.

(** The message waiting in a thread. *)
Record ipc_stage := Stage {
  label : Z; words : list Z; word_count : Z; buf_len : Z; attached_handle : Z;
  attached_rights : Z; sender_badge : Z; attached_cap : Z; attached_cap_rights : Z;
}.
Definition IRIS_MSG_NO_CAP : Z := 0.
Definition IRIS_MSG_LABEL_NOTIFICATION : Z := 0xF0000002.
Definition IRQ_ROUTE_MAX : nat := 16.

Record ipc := Ipc {
  sch           : sched;
  ntfs          : N → KNotification;
  eps           : N → KEndpoint;
  live_head     : option N;
  knotif_live   : Z;
  nrefs         : N → Z;           (* lifecycle references of a notification *)
  irq_table     : nat → option N;  (* irq_table[i].notif *)
  irq_masked    : nat → bool;      (* the interrupt controller's mask *)
  notif_next    : N → option N;    (* fields of struct task, from here on *)
  notif_queued  : N → Z;
  bound_notif   : N → option N;
  ep_next       : N → option N;
  blocking_ep   : N → option N;
  ipc_msg       : N → ipc_stage;
  ipc_msg_ready : N → bool;
  ipc_ep_closed : N → bool;
  trefs         : N → Z;           (* lifecycle references of the thread *)
}.
Implicit Types s : ipc.

Definition with_sch v s := Ipc v (ntfs s) (eps s) (live_head s) (knotif_live s) (nrefs s) (irq_table s)
  (irq_masked s) (notif_next s) (notif_queued s) (bound_notif s) (ep_next s) (blocking_ep s) (ipc_msg s)
  (ipc_msg_ready s) (ipc_ep_closed s) (trefs s).
Definition with_ntfs v s := Ipc (sch s) v (eps s) (live_head s) (knotif_live s) (nrefs s) (irq_table s)
  (irq_masked s) (notif_next s) (notif_queued s) (bound_notif s) (ep_next s) (blocking_ep s) (ipc_msg s)
  (ipc_msg_ready s) (ipc_ep_closed s) (trefs s).
Definition with_eps v s := Ipc (sch s) (ntfs s) v (live_head s) (knotif_live s) (nrefs s) (irq_table s)
  (irq_masked s) (notif_next s) (notif_queued s) (bound_notif s) (ep_next s) (blocking_ep s) (ipc_msg s)
  (ipc_msg_ready s) (ipc_ep_closed s) (trefs s).
Definition with_live h c s := Ipc (sch s) (ntfs s) (eps s) h c (nrefs s) (irq_table s)
  (irq_masked s) (notif_next s) (notif_queued s) (bound_notif s) (ep_next s) (blocking_ep s) (ipc_msg s)
  (ipc_msg_ready s) (ipc_ep_closed s) (trefs s).
Definition with_nrefs v s := Ipc (sch s) (ntfs s) (eps s) (live_head s) (knotif_live s) v (irq_table s)
  (irq_masked s) (notif_next s) (notif_queued s) (bound_notif s) (ep_next s) (blocking_ep s) (ipc_msg s)
  (ipc_msg_ready s) (ipc_ep_closed s) (trefs s).
Definition with_irq t m s := Ipc (sch s) (ntfs s) (eps s) (live_head s) (knotif_live s) (nrefs s) t
  m (notif_next s) (notif_queued s) (bound_notif s) (ep_next s) (blocking_ep s) (ipc_msg s)
  (ipc_msg_ready s) (ipc_ep_closed s) (trefs s).
Definition with_nq n q s := Ipc (sch s) (ntfs s) (eps s) (live_head s) (knotif_live s) (nrefs s) (irq_table s)
  (irq_masked s) n q (bound_notif s) (ep_next s) (blocking_ep s) (ipc_msg s)
  (ipc_msg_ready s) (ipc_ep_closed s) (trefs s).
Definition with_bnotif v s := Ipc (sch s) (ntfs s) (eps s) (live_head s) (knotif_live s) (nrefs s) (irq_table s)
  (irq_masked s) (notif_next s) (notif_queued s) v (ep_next s) (blocking_ep s) (ipc_msg s)
  (ipc_msg_ready s) (ipc_ep_closed s) (trefs s).
Definition with_epq n b s := Ipc (sch s) (ntfs s) (eps s) (live_head s) (knotif_live s) (nrefs s) (irq_table s)
  (irq_masked s) (notif_next s) (notif_queued s) (bound_notif s) n b (ipc_msg s)
  (ipc_msg_ready s) (ipc_ep_closed s) (trefs s).
Definition with_msg m r s := Ipc (sch s) (ntfs s) (eps s) (live_head s) (knotif_live s) (nrefs s) (irq_table s)
  (irq_masked s) (notif_next s) (notif_queued s) (bound_notif s) (ep_next s) (blocking_ep s) m
  r (ipc_ep_closed s) (trefs s).
Definition with_epclosed v s := Ipc (sch s) (ntfs s) (eps s) (live_head s) (knotif_live s) (nrefs s) (irq_table s)
  (irq_masked s) (notif_next s) (notif_queued s) (bound_notif s) (ep_next s) (blocking_ep s) (ipc_msg s)
  (ipc_msg_ready s) v (trefs s).
Definition with_trefs v s := Ipc (sch s) (ntfs s) (eps s) (live_head s) (knotif_live s) (nrefs s) (irq_table s)
  (irq_masked s) (notif_next s) (notif_queued s) (bound_notif s) (ep_next s) (blocking_ep s) (ipc_msg s)
  (ipc_msg_ready s) (ipc_ep_closed s) v.

(** [n->field = v] through a setter; the scheduler's view of a thread. *)
Definition upd_ntf n (f : KNotification → KNotification) s : ipc := with_ntfs (upd_fn (ntfs s) n (f (ntfs s n))) s.
Definition on_sch (f : sched → sched) s : ipc := with_sch (f (sch s)) s.
Definition st s t : task_state_t := state (tasks (sch s) t).
Definition waitfuel s : nat := S (task_bound (sch s)).

(** [kobject_retain] and [kobject_release] of a thread.  Releasing the last
    reference destroys the thread, which is outside this state: the model stops
    there, and the theorems show that a queued thread never gets there. *)
Definition tcb_retain t s : ipc := with_trefs (upd_fn (trefs s) t (u32 (trefs s t + 1))) s.
Definition tcb_release t s : res ipc :=
  if trefs s t <=? 1 then Panic else Ret (with_trefs (upd_fn (trefs s) t (trefs s t - 1)) s).
