(* ===== verification/IpcMsg.v ===== *)
(** * The message ABI (kernel/include/iris/ipc_msg.h)

    A message is a MessageInfo word and four message registers, and for a longer
    payload the bytes of the thread's registered IPC buffer.  This file has the
    packing of the words, the two functions of syscall_endpoint.c that move a
    message between a thread's registers and its staging ([ipc_msg_load],
    [ipc_msg_store]), and the three that move the payload. *)

From Stdlib Require Import ZArith Lia.
From stdpp Require Import base numbers gmap list.
From S2P Require Import Prelude Rights Ipc.
Local Open Scope Z_scope.

Definition IRIS_MSG_WORDS : Z := 4.
Definition IRIS_IPC_BUF_SIZE : Z := 256.
Definition IRIS_MI_LEN_MASK : Z := 0xF.
Definition IRIS_MI_EXTRA_SHIFT : Z := 4.
Definition IRIS_MI_EXTRA_MASK : Z := 0xFF.
Definition IRIS_MI_BUF_SHIFT : Z := 12.
Definition IRIS_MI_BUF_MASK : Z := 0x1FFF.
Definition IRIS_MI_LABEL_SHIFT : Z := 25.
Definition IRIS_CAPW_RIGHTS_SHIFT : Z := 32.

(** Argument and return words. *)
Definition IRIS_MSGA_INFO : nat := 1.
Definition IRIS_MSGA_MR0 : nat := 2.
Definition IRIS_MSGA_MR1 : nat := 3.
Definition IRIS_MSGA_MR2 : nat := 4.
Definition IRIS_MSGA_MR3 : nat := 5.
Definition IRIS_MSGA_CAP : nat := 6.
Definition IRIS_MSGA_RECV : nat := 7.
Definition IRIS_MSGR_BADGE : nat := 0.
Definition IRIS_MSGR_INFO : nat := 1.
Definition IRIS_MSGR_CAP : nat := 2.
Definition IRIS_MSGR_MR0 : nat := 3.
Definition IRIS_MSGR_MR1 : nat := 4.
Definition IRIS_MSGR_MR2 : nat := 5.
Definition IRIS_MSGR_MR3 : nat := 6.

Definition iris_mi (lbl len extra buf : Z) : Z :=
  Z.lor (Z.lor (Z.lor (u64 (Z.shiftl lbl IRIS_MI_LABEL_SHIFT))
                      (Z.shiftl (Z.land buf IRIS_MI_BUF_MASK) IRIS_MI_BUF_SHIFT))
               (Z.shiftl (Z.land extra IRIS_MI_EXTRA_MASK) IRIS_MI_EXTRA_SHIFT))
        (Z.land len IRIS_MI_LEN_MASK).
Definition iris_mi_label (mi : Z) : Z := Z.shiftr mi IRIS_MI_LABEL_SHIFT.
Definition iris_mi_len (mi : Z) : Z := Z.land mi IRIS_MI_LEN_MASK.
Definition iris_mi_extra (mi : Z) : Z := Z.land (Z.shiftr mi IRIS_MI_EXTRA_SHIFT) IRIS_MI_EXTRA_MASK.
Definition iris_mi_buf (mi : Z) : Z := Z.land (Z.shiftr mi IRIS_MI_BUF_SHIFT) IRIS_MI_BUF_MASK.

Definition iris_capw (cptr rights : Z) : Z :=
  Z.lor (Z.land cptr 0xFFFFFFFF) (u64 (Z.shiftl rights IRIS_CAPW_RIGHTS_SHIFT)).
Definition iris_capw_cptr (w : Z) : Z := Z.land w 0xFFFFFFFF.
Definition iris_capw_rights (w : Z) : Z := u32 (Z.shiftr w IRIS_CAPW_RIGHTS_SHIFT).

(** ** Registers and staging *)

(** [ipc_msg_load]: the staging filled from [t->sc_arg]. *)
Definition ipc_msg_load (sc_arg : nat → Z) : ipc_stage :=
  let a := λ n, sc_arg (1 + n)%nat in
  let mi := a IRIS_MSGA_INFO in
  let wc := iris_mi_len mi in
  let cw := if iris_mi_extra mi =? 0 then 0 else a IRIS_MSGA_CAP in
  Stage (iris_mi_label mi)
    [a IRIS_MSGA_MR0; a IRIS_MSGA_MR1; a IRIS_MSGA_MR2; a IRIS_MSGA_MR3]
    (if IRIS_MSG_WORDS <? wc then IRIS_MSG_WORDS else wc)
    (iris_mi_buf mi)
    (iris_capw_cptr cw) (iris_capw_rights cw)
    0 (iris_capw_cptr cw) (iris_capw_rights cw).

Definition word (m : ipc_stage) (i : nat) : Z := nth i (words m) 0.

(** [ipc_msg_store_ext]: the seven return words written over [t->sc_ret]. *)
Definition ipc_msg_store_ext (m : ipc_stage) (caps : Z) (r : nat → Z) : nat → Z :=
  let r := upd_fn r IRIS_MSGR_INFO (iris_mi (label m) (word_count m) caps (buf_len m)) in
  let r := upd_fn r IRIS_MSGR_BADGE (sender_badge m) in
  let r := upd_fn r IRIS_MSGR_MR0 (word m 0) in
  let r := upd_fn r IRIS_MSGR_MR1 (word m 1) in
  let r := upd_fn r IRIS_MSGR_MR2 (word m 2) in
  let r := upd_fn r IRIS_MSGR_MR3 (word m 3) in
  upd_fn r IRIS_MSGR_CAP (attached_handle m).

Definition ipc_msg_store (m : ipc_stage) (r : nat → Z) : nat → Z :=
  ipc_msg_store_ext m
    (if attached_cap m =? IRIS_MSG_NO_CAP then 0 else Z.land (attached_cap_rights m) IRIS_MI_EXTRA_MASK) r.

Definition ipc_msg_store_reply (m : ipc_stage) (r : nat → Z) : nat → Z :=
  ipc_msg_store_ext m
    (if attached_handle m =? IRIS_MSG_NO_CAP then 0 else Z.land (attached_rights m) IRIS_MI_EXTRA_MASK) r.

(** Stores to single fields of the staging. *)
Definition st_handle v m := Stage (label m) (words m) (word_count m) (buf_len m) v
  (attached_rights m) (sender_badge m) (attached_cap m) (attached_cap_rights m).
Definition st_cap v m := Stage (label m) (words m) (word_count m) (buf_len m) (attached_handle m)
  (attached_rights m) (sender_badge m) v (attached_cap_rights m).
Definition st_crights v m := Stage (label m) (words m) (word_count m) (buf_len m) (attached_handle m)
  (attached_rights m) (sender_badge m) (attached_cap m) v.
Definition st_hrights v m := Stage (label m) (words m) (word_count m) (buf_len m) (attached_handle m)
  v (sender_badge m) (attached_cap m) (attached_cap_rights m).
Definition st_badge v m := Stage (label m) (words m) (word_count m) (buf_len m) (attached_handle m)
  (attached_rights m) v (attached_cap m) (attached_cap_rights m).
Definition st_buf v m := Stage (label m) (words m) (word_count m) v (attached_handle m)
  (attached_rights m) (sender_badge m) (attached_cap m) (attached_cap_rights m).

(** ** The bulk payload *)

(** The frame registered as a thread's IPC buffer. *)
Record ipc_frame := IpcFrame { paddr : Z; fsize : Z }.

Definition ipc_buf_capacity (b : option ipc_frame) : Z :=
  match b with
  | None => IRIS_IPC_BUF_SIZE
  | Some f => if 0xFFFFFFFF <? fsize f then 0xFFFFFFFF else fsize f
  end.

(** The code, and the staging with the length agreed on. *)
Definition ipc_stage_out (b : option ipc_frame) (m : ipc_stage) : iris_error_t * ipc_stage :=
  let n := buf_len m in
  if n =? 0 then (IRIS_OK, m)
  else
    let n := if ipc_buf_capacity b <? n then ipc_buf_capacity b else n in
    match b with
    | None => (IRIS_ERR_INVALID_ARG, m)
    | Some _ => (IRIS_OK, st_buf n m)
    end.

(** [for (i = 0; i < n; i++) dst[i] = src[i];], byte by byte upwards. *)
Fixpoint copy_loop (k : nat) (i dst src : Z) (mem : Z → Z) : Z → Z :=
  match k with
  | O => mem
  | S k => copy_loop k (i + 1) dst src (upd_fn mem (dst + i) (mem (src + i)))
  end.
Definition copy_kbuf (dst src n : Z) (mem : Z → Z) : Z → Z := copy_loop (Z.to_nat n) 0 dst src mem.

(** The receiver's [buf_len] and the memory, when the sender's [buf_len] is [n]. *)
Definition ipc_transfer_bulk (sb rb : option ipc_frame) (n : Z) (m : ipc_stage) (mem : Z → Z)
    : ipc_stage * (Z → Z) :=
  if n =? 0 then (m, mem)
  else match sb, rb with
  | Some s, Some d =>
      let n := if ipc_buf_capacity rb <? n then ipc_buf_capacity rb else n in
      (st_buf n m, copy_kbuf (paddr d) (paddr s) n mem)
  | _, _ => (st_buf n m, mem)
  end.

Definition ipc_transfer_reply (sb cb : option ipc_frame) (n : Z) (m : ipc_stage) (mem : Z → Z)
    : ipc_stage * (Z → Z) :=
  if n =? 0 then (m, mem)
  else match sb, cb with
  | Some s, Some d =>
      let n := if ipc_buf_capacity sb <? n then ipc_buf_capacity sb else n in
      let n := if ipc_buf_capacity cb <? n then ipc_buf_capacity cb else n in
      (st_buf n m, copy_kbuf (paddr d) (paddr s) n mem)
  | _, _ => (st_buf 0 m, mem)
  end.

(** ** Round trips *)

Lemma mask_mod x k : 0 ≤ k → Z.land x (Z.ones k) = x mod 2 ^ k.
Proof. intros. by apply Z.land_ones. Qed.

(** The fields of the word are its digits. *)
Lemma iris_mi_digits lbl len extra buf :
  iris_mi lbl len extra buf =
    (((lbl mod 2 ^ 39) * 2 ^ 13 + buf mod 2 ^ 13) * 2 ^ 8 + extra mod 2 ^ 8) * 2 ^ 4 + len mod 2 ^ 4.
Proof.
  unfold iris_mi. change IRIS_MI_BUF_MASK with (Z.ones 13). change IRIS_MI_EXTRA_MASK with (Z.ones 8).
  change IRIS_MI_LEN_MASK with (Z.ones 4). rewrite !mask_mod, !Z.shiftl_mul_pow2 by done.
  unfold IRIS_MI_LABEL_SHIFT, IRIS_MI_BUF_SHIFT, IRIS_MI_EXTRA_SHIFT.
  assert (u64 (lbl * 2 ^ 25) = (lbl mod 2 ^ 39) * 2 ^ 13 * 2 ^ 12) as ->.
  { unfold wrap. change (2 ^ 64) with (2 ^ 39 * 2 ^ 25). rewrite Z.mul_mod_distr_r by lia. lia. }
  rewrite <-!Z.shiftl_mul_pow2, <-Z.shiftl_lor, !Z.shiftl_mul_pow2 by done.
  pose proof (Z.mod_pos_bound buf (2 ^ 13)). pose proof (Z.mod_pos_bound extra (2 ^ 8)).
  pose proof (Z.mod_pos_bound len (2 ^ 4)). rewrite (lor_disjoint _ _ 13) by lia.
  change (2 ^ 12) with (2 ^ 8 * 2 ^ 4). rewrite Z.mul_assoc.
  rewrite <-!(Z.shiftl_mul_pow2 _ 4), <-Z.shiftl_lor, !Z.shiftl_mul_pow2 by done.
  rewrite (lor_disjoint _ _ 8), (lor_disjoint _ _ 4) by lia. done.
Qed.

(** a MessageInfo carries its four fields apart and whole.  Reading a field
    of a packed word gives back what was packed, cut to the field's width
    (label 39 bits, length 4, capability 8, payload 13); and every 64-bit word is
    the packing of its own fields, so no bit of it is outside them. *)
Theorem mi_roundtrip lbl len extra buf mi :
  let w := iris_mi lbl len extra buf in
  iris_mi_label w = lbl mod 2 ^ 39 ∧ iris_mi_len w = len mod 2 ^ 4 ∧
  iris_mi_extra w = extra mod 2 ^ 8 ∧ iris_mi_buf w = buf mod 2 ^ 13 ∧
  (0 ≤ mi < 2 ^ 64 → iris_mi (iris_mi_label mi) (iris_mi_len mi) (iris_mi_extra mi) (iris_mi_buf mi) = mi).
Proof.
  cbv zeta. rewrite !iris_mi_digits. unfold iris_mi_label, iris_mi_len, iris_mi_extra, iris_mi_buf.
  change IRIS_MI_BUF_MASK with (Z.ones 13). change IRIS_MI_EXTRA_MASK with (Z.ones 8).
  change IRIS_MI_LEN_MASK with (Z.ones 4). rewrite !mask_mod, !Z.shiftr_div_pow2 by done.
  unfold IRIS_MI_LABEL_SHIFT, IRIS_MI_BUF_SHIFT, IRIS_MI_EXTRA_SHIFT.
  split_and!; Z.to_euclidean_division_equations; lia.
Qed.

Lemma mi_roundtrip_witness :
  iris_mi_label (iris_mi 0x1234 2 1 100) = 0x1234 ∧
  iris_mi (iris_mi_label 0x24A864012) (iris_mi_len 0x24A864012) (iris_mi_extra 0x24A864012)
    (iris_mi_buf 0x24A864012) = 0x24A864012.
Proof.
  destruct (mi_roundtrip 0x1234 2 1 100 0x24A864012) as (H1 & _ & _ & _ & H2).
  split; [rewrite H1; vm_compute; reflexivity|apply H2; lia].
Defined.

(** ** Widths *)

(** A staged message fits its fields: [uint32_t] lengths and CPtrs, [uint64_t]
    words, no more words than there are registers. *)
Record typed_msg (m : ipc_stage) : Prop := TypedMsg {
  ty_label  : 0 ≤ label m < 2 ^ 39;
  ty_words  : length (words m) = 4%nat ∧ Forall (λ w, 0 ≤ w < 2 ^ 64) (words m);
  ty_count  : 0 ≤ word_count m ≤ IRIS_MSG_WORDS;
  ty_buf    : 0 ≤ buf_len m < 2 ^ 13;
  ty_handle : 0 ≤ attached_handle m < 2 ^ 32 ∧ 0 ≤ attached_rights m < 2 ^ 32;
  ty_badge  : 0 ≤ sender_badge m < 2 ^ 64;
  ty_cap    : 0 ≤ attached_cap m < 2 ^ 32 ∧ 0 ≤ attached_cap_rights m < 2 ^ 32;
}.

Lemma land_ones_bound x k : 0 ≤ k → 0 ≤ Z.land x (Z.ones k) < 2 ^ k.
Proof. intros Hk. rewrite Z.land_ones by done. apply Z.mod_pos_bound. lia. Qed.

Lemma typed_load (a : nat → Z) : (∀ n, 0 ≤ a n < 2 ^ 64) → typed_msg (ipc_msg_load a).
Proof.
  intros Ha. unfold ipc_msg_load. cbv zeta beta. set (mi := a (1 + IRIS_MSGA_INFO)%nat).
  assert (0 ≤ mi < 2 ^ 64) as Hmi by apply Ha.
  set (cw := if iris_mi_extra mi =? 0 then 0 else a (1 + IRIS_MSGA_CAP)%nat).
  assert (0 ≤ iris_capw_cptr cw < 2 ^ 32 ∧ 0 ≤ iris_capw_rights cw < 2 ^ 32) as [H1 H2].
  { split; [apply (land_ones_bound cw 32); lia|]. unfold iris_capw_rights, wrap. apply Z.mod_pos_bound. lia. }
  split; cbn [label words word_count buf_len attached_handle attached_rights sender_badge attached_cap attached_cap_rights].
  - unfold iris_mi_label, IRIS_MI_LABEL_SHIFT. rewrite Z.shiftr_div_pow2 by lia.
    split; [apply Z.div_pos; lia|apply Z.div_lt_upper_bound; lia].
  - split; [done|]. repeat (constructor; [apply Ha|]). constructor.
  - pose proof (land_ones_bound mi 4 ltac:(lia)) as Hl. change (Z.ones 4) with IRIS_MI_LEN_MASK in Hl. fold (iris_mi_len mi) in Hl.
    unfold IRIS_MSG_WORDS. destruct (Z.ltb_spec 4 (iris_mi_len mi)); lia.
  - apply (land_ones_bound _ 13). lia.
  - by split.
  - lia.
  - by split.
Qed.

Lemma typed_store_ext m caps (r : nat → Z) :
  typed_msg m → (∀ n, 0 ≤ r n < 2 ^ 64) → ∀ n, 0 ≤ ipc_msg_store_ext m caps r n < 2 ^ 64.
Proof.
  intros [T1 [T2 T2'] T3 T4 T5 T6 T7] Hr n. unfold ipc_msg_store_ext, word.
  assert (∀ i, 0 ≤ nth i (words m) 0 < 2 ^ 64) as Hw.
  { intros i. destruct (decide (i < length (words m))%nat) as [Hi|Hi]; [|rewrite nth_overflow by lia; lia].
    rewrite List.Forall_forall in T2'. apply T2', nth_In, Hi. }
  assert (0 ≤ iris_mi (label m) (word_count m) caps (buf_len m) < 2 ^ 64) as Hmi.
  { rewrite iris_mi_digits. Z.to_euclidean_division_equations. lia. }
  unfold upd_fn. repeat (case_decide; [first [apply Hw|exact Hmi|exact T6|lia]|]). apply Hr.
Qed.

Lemma typed_buf m n : typed_msg m → 0 ≤ n < 2 ^ 13 → typed_msg (st_buf n m).
Proof. intros [] Hn. by split. Qed.

(** C37: messages keep their widths.  Whatever a thread has in its 64-bit
    registers, the staged message fits every field of [struct IpcMsgStage] and
    names at most four words; staging the payload and moving it to the receiver
    keep that, whatever frames are registered; and the words handed back are
    64-bit words again. *)
Theorem ipc_msg_typed (a r : nat → Z) (sb rb : option ipc_frame) (mem : Z → Z) :
  (∀ n, 0 ≤ a n < 2 ^ 64) → (∀ n, 0 ≤ r n < 2 ^ 64) → (∀ f, sb = Some f ∨ rb = Some f → 0 ≤ fsize f) →
  let m := ipc_msg_load a in
  typed_msg m ∧ typed_msg (ipc_stage_out sb m).2 ∧ typed_msg (ipc_transfer_bulk sb rb (buf_len m) m mem).1 ∧
  typed_msg (ipc_transfer_reply sb rb (buf_len m) m mem).1 ∧
  ∀ n, 0 ≤ ipc_msg_store m r n < 2 ^ 64 ∧ 0 ≤ ipc_msg_store_reply m r n < 2 ^ 64.
Proof.
  intros Ha Hr Hf m. pose proof (typed_load a Ha) as Hm. fold m in Hm. pose proof (ty_buf _ Hm) as Hb.
  assert (∀ b n, b = sb ∨ b = rb → 0 ≤ n < 2 ^ 13 →
    0 ≤ (if ipc_buf_capacity b <? n then ipc_buf_capacity b else n) < 2 ^ 13) as Hcap.
  { intros b n Hbs Hn. destruct (Z.ltb_spec (ipc_buf_capacity b) n); [|done]. split; [|lia]. destruct b as [f|]; cbn; [|done].
    assert (0 ≤ fsize f) by (apply Hf; destruct Hbs; auto). destruct (_ <? _); lia. }
  split; [exact Hm|]. split; [|split; [|split]].
  - unfold ipc_stage_out. destruct (_ =? 0); [exact Hm|]. destruct sb; [|exact Hm]. apply typed_buf; [exact Hm|]. apply Hcap; auto.
  - unfold ipc_transfer_bulk. destruct (_ =? 0); [exact Hm|]. destruct sb; [destruct rb|]; apply typed_buf; try exact Hm; try exact Hb.
    apply Hcap; auto.
  - unfold ipc_transfer_reply. destruct (_ =? 0); [exact Hm|]. destruct sb; [destruct rb|]; apply typed_buf; try exact Hm; try lia.
    apply Hcap; [auto|]. apply Hcap; auto.
  - intros n. split; apply typed_store_ext; [exact Hm|exact Hr|exact Hm|exact Hr].
Qed.

Lemma ipc_msg_typed_witness :
  typed_msg (ipc_msg_load (λ _, 2 ^ 64 - 1)) ∧ word_count (ipc_msg_load (λ _, 2 ^ 64 - 1)) = 4.
Proof.
  split; [|vm_compute; reflexivity].
  apply (ipc_msg_typed (λ _, 2 ^ 64 - 1) (λ _, 0) None None (λ _, 0)); [lia|lia|]. by intros f [?|?].
Defined.

(** ** Where the payload goes *)

Lemma copy_loop_out k : ∀ i dst src mem x, (x < dst + i ∨ dst + i + Z.of_nat k ≤ x) → copy_loop k i dst src mem x = mem x.
Proof.
  induction k as [|k IH]; intros i dst src mem x Hx; [done|]. cbn [copy_loop]. rewrite IH by lia.
  apply upd_fn_other. lia.
Qed.

Lemma copy_loop_in k : ∀ i dst src mem j,
  (∀ x, src + i ≤ x < src + i + Z.of_nat k → ¬ dst + i ≤ x < dst + i + Z.of_nat k) →
  i ≤ j < i + Z.of_nat k → copy_loop k i dst src mem (dst + j) = mem (src + j).
Proof.
  induction k as [|k IH]; intros i dst src mem j Hd Hj; [lia|]. cbn [copy_loop].
  destruct (decide (j = i)) as [->|Hji].
  - rewrite copy_loop_out by lia. apply upd_fn_same.
  - rewrite IH; [|intros x Hx; specialize (Hd x); lia|lia]. apply upd_fn_other.
    specialize (Hd (src + j)). lia.
Qed.

(** A copy of [n] bytes changes [n] bytes of [d], and is a copy when the frames are apart. *)
Lemma copy_confined (s d : ipc_frame) n mem :
  0 ≤ n →
  (∀ x, ¬ paddr d ≤ x < paddr d + n → copy_kbuf (paddr d) (paddr s) n mem x = mem x) ∧
  (paddr s + n ≤ paddr d ∨ paddr d + n ≤ paddr s →
   ∀ i, 0 ≤ i < n → copy_kbuf (paddr d) (paddr s) n mem (paddr d + i) = mem (paddr s + i)).
Proof.
  intros Hn. unfold copy_kbuf. split.
  - intros x Hx. apply copy_loop_out. lia.
  - intros Hd i Hi. apply copy_loop_in; lia.
Qed.

Lemma clip_min a b : (if a <? b then a else b) = Z.min a b.
Proof. destruct (Z.ltb_spec a b); lia. Qed.
Lemma capacity_min f : ipc_buf_capacity (Some f) = Z.min 0xFFFFFFFF (fsize f).
Proof. apply clip_min. Qed.

Definition apart (s d : ipc_frame) : Prop := paddr s + fsize s ≤ paddr d ∨ paddr d + fsize d ≤ paddr s.

(** What a transfer of [n] bytes from [sb] to [rb] did to the memory: as many bytes as
    both frames hold moved, and only they. *)
Definition confined (sb rb : option ipc_frame) (n : Z) (m' : ipc_stage) (mem mem' : Z → Z) : Prop :=
  match sb, rb with
  | Some s, Some d =>
      buf_len m' = Z.min n (Z.min (fsize s) (fsize d)) ∧
      (∀ x, ¬ paddr d ≤ x < paddr d + buf_len m' → mem' x = mem x) ∧
      (apart s d → ∀ i, 0 ≤ i < buf_len m' → mem' (paddr d + i) = mem (paddr s + i))
  | _, _ => mem' = mem
  end.

Lemma copy_is_confined s d n k m' mem :
  0 ≤ k → k = Z.min n (Z.min (fsize s) (fsize d)) → buf_len m' = k →
  confined (Some s) (Some d) n m' mem (copy_kbuf (paddr d) (paddr s) k mem).
Proof.
  intros H0 Hk Hm. destruct (copy_confined s d k mem H0) as [C1 C2]. unfold confined. rewrite Hm.
  split; [exact Hk|]. split; [exact C1|]. unfold apart. intros Hd. apply C2. lia.
Qed.

(** C36: the payload goes from the sender's buffer to the receiver's and nowhere
    else. Between non-empty frames, a message of [n] bytes staged by [ipc_stage_out]
    and transferred (send, call), or a reply of [n] bytes, moves exactly as many
    bytes as are announced and both registered frames hold, so none is read past the
    end of the sender's frame; it changes no other byte of physical memory, reports
    that number, and, when the two frames do not overlap, the bytes moved are the
    sender's first ones. For overlapping frames nothing is said of the values. With
    a frame missing on either side no byte moves. *)
Theorem ipc_transfer_confined (sb rb : option ipc_frame) m0 m mem (n := buf_len m0) :
  0 < n < 2 ^ 32 → (∀ f, sb = Some f ∨ rb = Some f → 0 < fsize f) →
  (∀ m1, ipc_stage_out sb m0 = (IRIS_OK, m1) →
   let '(m', mem') := ipc_transfer_bulk sb rb (buf_len m1) m mem in confined sb rb n m' mem mem') ∧
  (let '(m', mem') := ipc_transfer_reply sb rb n m mem in confined sb rb n m' mem mem').
Proof.
  intros Hn Hf. unfold ipc_stage_out, ipc_transfer_bulk, ipc_transfer_reply. fold n. rewrite (proj2 (Z.eqb_neq n 0)) by lia.
  split; [intros m1|]; (destruct sb as [s|]; [|done]).
  - intros [= <-]. cbn [buf_len st_buf]. destruct rb as [d|]; [|by destruct (_ =? 0)].
    pose proof (Hf s (or_introl eq_refl)). pose proof (Hf d (or_intror eq_refl)). rewrite !capacity_min, !clip_min.
    rewrite (proj2 (Z.eqb_neq _ 0)) by lia. apply copy_is_confined; [lia..|reflexivity].
  - destruct rb as [d|]; [|done]. pose proof (Hf s (or_introl eq_refl)). pose proof (Hf d (or_intror eq_refl)).
    rewrite !capacity_min, !clip_min. apply copy_is_confined; [lia..|reflexivity].
Qed.

Lemma ipc_transfer_confined_witness :
  let m0 := st_buf 5 (ipc_msg_load (λ _, 0)) in
  let near := Some (IpcFrame 0x1000 64) in let far := Some (IpcFrame 0x2000 3) in
  (ipc_transfer_bulk near far 5 m0 (λ a, a)).2 0x2002 = 0x1002 ∧
  (ipc_transfer_bulk near far 5 m0 (λ a, a)).2 0x2003 = 0x2003 ∧
  buf_len (ipc_transfer_reply far near 5 m0 (λ a, a)).1 = 3 ∧
  (ipc_transfer_reply far near 5 m0 (λ a, a)).2 0x1003 = 0x1003.
Proof.
  intros m0 near far.
  destruct (ipc_transfer_confined near far m0 m0 (λ a, a)) as [Hb _]; [done|by intros f [[= <-]|[= <-]]|].
  destruct (ipc_transfer_confined far near m0 m0 (λ a, a)) as [_ (R1 & R2 & _)]; [done|by intros f [[= <-]|[= <-]]|].
  destruct (Hb m0 eq_refl) as (_ & B2 & B3).
  split; [refine (B3 _ 2 _); [left; cbn; lia|cbn; lia]|]. split; [apply B2; cbn; lia|]. split; [exact R1|apply R2; cbn; lia].
Defined.
