(* ===== verification/Knotification.v ===== *)
(** * Notifications (kernel/new_core/src/knotification.c)

    A notification is a word of signal bits and a FIFO of waiting threads.  Each
    function that holds [n->base.lock] from its first access to its last is one
    step; [knotification_wait_step] takes the lock twice and touches the bits
    between, so it is the composition of three steps ([wait_leave], [wait_take],
    [wait_park]), which [KnotifWake] interleaves.  The delivery to a bound thread
    ([kendpoint_deliver_notification], kernel/core/syscall/syscall_endpoint.c) and
    the interrupt routes (kernel/core/irq/irq_routing.c) are modelled with it. *)

From Stdlib Require Import ZArith Lia.
From stdpp Require Import base numbers gmap list.
From S2P Require Import Prelude Rights Runq Wq Ipc.
Local Open Scope Z_scope.
Implicit Types (s : ipc) (n m t : N).

(** ** The registry of live notifications *)

Definition knotif_live_link n s : ipc :=
  let s := upd_ntf n (set_live None (live_head s)) s in
  let s := match live_head s with
           | Some h => upd_ntf h (λ k, set_live (Some n) (live_next k) k) s
           | None => s
           end in
  with_live (Some n) (knotif_live s) s.

Definition knotif_live_unlink n s : ipc :=
  let k := ntfs s n in
  let s := match live_prev k with
           | Some p => upd_ntf p (λ j, set_live (live_prev j) (live_next k) j) s
           | None => with_live (live_next k) (knotif_live s) s
           end in
  let s := match live_next k with
           | Some q => upd_ntf q (λ j, set_live (live_prev k) (live_next j) j) s
           | None => s
           end in
  upd_ntf n (set_live None None) s.

(** ** The waiter queue *)

Definition knotif_waiters_enqueue n t s : res (iris_error_t * ipc) :=
  let k := ntfs s n in
  if bool_decide (is_Some (notif_next s t)) || bool_decide (queue_tail k = Some t) then Ret (IRIS_OK, s) else
  '(_, found) ← wq_find (waitfuel s) (λ w, bool_decide (w = t)) (notif_next s) None (queue_head k);
  match found with
  | Some _ => Ret (IRIS_OK, s)
  | None =>
    let '(nx, h, tl) := wq_add (notif_next s) (queue_head k) (queue_tail k) t in
    let s := with_nq nx (upd_fn (notif_queued s) t (u32 (notif_queued s t + 1))) s in
    Ret (IRIS_OK, upd_ntf n (set_queue (u32 (waiter_count k + 1)) h tl) s)
  end.

(** [if (x) x--;] *)
Definition dec0 (x : Z) : Z := if x =? 0 then x else x - 1.

(** The common part of the removals: [w], found behind [prev], leaves the queue. *)
Definition leave_queue n (prev : option N) w s : ipc :=
  let k := ntfs s n in
  let '(nx, h, tl) := wq_cut (notif_next s) (queue_head k) (queue_tail k) prev w in
  let s := with_nq nx (upd_fn (notif_queued s) w (dec0 (notif_queued s w))) s in
  upd_ntf n (set_queue (dec0 (waiter_count k)) h tl) s.

Definition knotif_waiters_remove n t s : res ipc :=
  '(prev, found) ← wq_find (waitfuel s) (λ w, bool_decide (w = t)) (notif_next s) None (queue_head (ntfs s n));
  match found with
  | None => Ret s
  | Some w => Ret (leave_queue n prev w s)
  end.

Definition knotif_waiters_wake_one n s : res (bool * ipc) :=
  '(prev, found) ← wq_find (waitfuel s) (λ w, bool_decide (st s w = TASK_BLOCKED_IRQ)) (notif_next s) None
                     (queue_head (ntfs s n));
  match found with
  | None => Ret (false, s)
  | Some w => Ret (true, on_sch (task_wakeup w) (leave_queue n prev w s))
  end.

(** [while (w) { ... }] of [knotif_waiters_wake_all]. *)
Fixpoint wake_all_loop (fuel : nat) (o : option N) s : res ipc :=
  match fuel with
  | O => NoFuel
  | S fuel =>
    match o with
    | None => Ret s
    | Some w =>
      let next := notif_next s w in
      let s := with_nq (upd_fn (notif_next s) w None) (upd_fn (notif_queued s) w (dec0 (notif_queued s w))) s in
      let s := if bool_decide (st s w = TASK_BLOCKED_IRQ)
               then on_sch (task_wakeup w) (with_epclosed (upd_fn (ipc_ep_closed s) w true) s) else s in
      wake_all_loop fuel next s
    end
  end.

Definition knotif_waiters_wake_all n s : res ipc :=
  let w := queue_head (ntfs s n) in
  wake_all_loop (waitfuel s) w (upd_ntf n (set_queue 0 None None) s).

(** ** References and lifetime *)

Definition knotification_destroy_ut n s : ipc :=
  let s := knotif_live_unlink n s in with_live (live_head s) (u32 (knotif_live s - 1)) s.

Definition knotif_retain n s : ipc := with_nrefs (upd_fn (nrefs s) n (u32 (nrefs s n + 1))) s.
(** [kobject_release] of a notification. *)
Definition knotification_free n s : res ipc :=
  if nrefs s n <? 1 then Panic else
  let s := with_nrefs (upd_fn (nrefs s) n (nrefs s n - 1)) s in
  Ret (if nrefs s n =? 0 then knotification_destroy_ut n s else s).

Definition knotification_alloc_at (mem : option N) s : option N * ipc :=
  match mem with
  | None => (None, s)
  | Some n =>
    (* the carve zeroed the storage; [kobject_init] sets the reference count *)
    let s := with_nrefs (upd_fn (nrefs s) n 1) (upd_ntf n (λ _, Ntf 0 false 0 None None None None None) s) in
    let s := knotif_live_link n s in
    (Some n, with_live (live_head s) (u32 (knotif_live s + 1)) s)
  end.

(** ** Bound threads *)

Definition knotification_bind (n t : option N) s : iris_error_t * ipc :=
  match n, t with
  | Some n, Some t =>
    let k := ntfs s n in
    if n_closed k then (IRIS_ERR_CLOSED, s) else
    if bool_decide (is_Some (bound_tcb k)) && negb (bool_decide (bound_tcb k = Some t)) then (IRIS_ERR_ALREADY_EXISTS, s) else
    if bool_decide (is_Some (bound_notif s t)) && negb (bool_decide (bound_notif s t = Some n)) then (IRIS_ERR_ALREADY_EXISTS, s) else
    if bool_decide (bound_tcb k = Some t) then (IRIS_ERR_ALREADY_EXISTS, s) else
    (IRIS_OK, with_bnotif (upd_fn (bound_notif s) t (Some n)) (upd_ntf n (set_bound (Some t)) (knotif_retain n s)))
  | _, _ => (IRIS_ERR_INVALID_ARG, s)
  end.

Definition knotification_unbind n s : res ipc :=
  let t := bound_tcb (ntfs s n) in
  let s := upd_ntf n (set_bound None) s in
  match t with
  | None => Ret s
  | Some t =>
    let s := if decide (bound_notif s t = Some n) then with_bnotif (upd_fn (bound_notif s) t None) s else s in
    knotification_free n s
  end.

Definition knotification_unbind_task t s : res ipc :=
  match bound_notif s t with None => Ret s | Some n => knotification_unbind n s end.

(** [kendpoint_deliver_notification]: a thread blocked receiving on an endpoint
    leaves its queue with the bits as a message.  The second check of the thread's
    state, under the lock, is the first one's again in this sequential model. *)
Definition unqueue_ep t (e : N) s : res (option ipc) :=
  let k := eps s e in
  if decide (ep_head k = Some t) then
    let h := ep_next s t in
    let k' := match h with
              | None => Ep EP_STATE_IDLE (ep_closed k) None None
              | Some _ => Ep (ep_state k) (ep_closed k) h (ep_tail k)
              end in
    Ret (Some (with_eps (upd_fn (eps s) e k') s))
  else
    '(_, prev) ← wq_find (waitfuel s) (λ q, bool_decide (ep_next s q = Some t)) (ep_next s) None (ep_head k);
    match prev with
    | None => Ret None
    | Some q =>
      let tl := if decide (ep_tail k = Some t) then Some q else ep_tail k in
      let stt := match ep_head k with None => EP_STATE_IDLE | Some _ => ep_state k end in
      let s := with_epq (upd_fn (ep_next s) q (ep_next s t)) (blocking_ep s) s in
      Ret (Some (with_eps (upd_fn (eps s) e (Ep stt (ep_closed k) (ep_head k) tl)) s))
    end.

Definition kendpoint_deliver_notification t (bits : Z) s : res (bool * ipc) :=
  match blocking_ep s t with
  | None => Ret (false, s)
  | Some e =>
    if negb (bool_decide (st s t = TASK_BLOCKED_RECV)) then Ret (false, s) else
    r ← unqueue_ep t e s;
    match r with
    | None => Ret (false, s)
    | Some s =>
      let s := with_epq (upd_fn (ep_next s) t None) (upd_fn (blocking_ep s) t None) s in
      let s := with_msg (upd_fn (ipc_msg s) t
                 (Stage IRIS_MSG_LABEL_NOTIFICATION [bits; 0; 0; 0] 1 0 IRIS_MSG_NO_CAP 0 0 IRIS_MSG_NO_CAP 0))
                 (upd_fn (ipc_msg_ready s) t true) s in
      let s := with_epclosed (upd_fn (ipc_ep_closed s) t false) s in
      let s := on_sch (task_wakeup t) s in
      s ← tcb_release t s;
      Ret (true, s)
    end
  end.

(** ** Signalling and waiting *)

Definition or_bits n (bits : Z) s : ipc := upd_ntf n (λ k, set_bits (Z.lor (signal_bits k) bits) k) s.
(** [atomic_exchange(&n->signal_bits, 0)] *)
Definition take_bits n s : Z * ipc := (signal_bits (ntfs s n), upd_ntf n (set_bits 0) s).

Definition knotification_signal n (bits : Z) s : res ipc :=
  if n_closed (ntfs s n) then Ret s else
  let s := or_bits n bits s in
  '(woke, s) ← knotif_waiters_wake_one n s;
  match (if (woke : bool) then None else bound_tcb (ntfs s n)) with
  | None => Ret s
  | Some bound =>
    let s := tcb_retain bound s in
    let '(got, s) := take_bits n s in
    s ← (if got =? 0 then Ret s else
         '(delivered, s) ← kendpoint_deliver_notification bound got s;
         Ret (if (delivered : bool) then s else or_bits n got s));
    tcb_release bound s
  end.

Definition knotification_take_pending (n : option N) s : Z * ipc :=
  match n with None => (0, s) | Some n => take_bits n s end.

Definition knotification_poll n s : Z * ipc :=
  if signal_bits (ntfs s n) =? 0 then (0, s) else take_bits n s.

(** The three steps of [knotification_wait_step] for the running thread [t]. *)
Definition wait_leave n t s : res ipc := knotif_waiters_remove n t s.
Definition wait_take n s : Z * ipc := if signal_bits (ntfs s n) =? 0 then (0, s) else take_bits n s.
Definition wait_park n t s : res (iris_error_t * ipc) :=
  if negb (signal_bits (ntfs s n) =? 0) then Ret (IRIS_ERR_WOULD_BLOCK, s) else
  if n_closed (ntfs s n) then Ret (IRIS_ERR_CLOSED, s) else
  '(r, s) ← knotif_waiters_enqueue n t s;
  if negb (bool_decide (r = IRIS_OK)) then Ret (r, s) else
  Ret (IRIS_ERR_WOULD_BLOCK, on_sch (upd_task t (set_state TASK_BLOCKED_IRQ)) s).

(** Result: the code, and the bits on [IRIS_OK]. *)
Definition knotification_wait_step n t s : res (iris_error_t * Z * ipc) :=
  s ← wait_leave n t s;
  let '(got, s) := wait_take n s in
  if negb (got =? 0) then Ret (IRIS_OK, got, s) else
  '(r, s) ← wait_park n t s;
  Ret (r, 0, s).

(** [while (n)] over the registry. *)
Fixpoint cancel_loop (fuel : nat) (o : option N) t s : res ipc :=
  match fuel with
  | O => NoFuel
  | S fuel =>
    match o with
    | None => Ret s
    | Some n =>
      let next := live_next (ntfs s n) in
      s ← knotif_waiters_remove n t s;
      cancel_loop fuel next t s
    end
  end.
(** [fuel] is a bound on the number of live notifications. *)
Definition knotification_cancel_waiter (fuel : nat) t s : res ipc := cancel_loop fuel (live_head s) t s.

(** ** Interrupt routes *)

Definition pic_set_irq_mask (irq : nat) (m : bool) s : ipc := with_irq (irq_table s) (upd_fn (irq_masked s) irq m) s.
Definition set_route (irq : nat) (v : option N) s : ipc := with_irq (upd_fn (irq_table s) irq v) (irq_masked s) s.

Definition irq_routing_register_notification (irq : nat) (notif : option N) s : res ipc :=
  if (IRQ_ROUTE_MAX <=? irq)%nat then Ret s else
  let s := match notif with Some n => knotif_retain n s | None => s end in
  let old := irq_table s irq in
  let s := set_route irq notif s in
  s ← (match old with Some o => knotification_free o s | None => Ret s end);
  Ret (if (irq <? 16)%nat then pic_set_irq_mask irq (bool_decide (notif = None)) s else s).

Definition irq_routing_signal (irq : nat) s : res (Z * ipc) :=
  if (IRQ_ROUTE_MAX <=? irq)%nat then Ret (-1, s) else
  match irq_table s irq with
  | None => Ret (-1, s)
  | Some n =>
    s ← knotification_signal n (Z.shiftl 1 (Z.of_nat irq)) (knotif_retain n s);
    s ← knotification_free n s;
    Ret (0, s)
  end.

Definition irq_routing_clear (irq : nat) s : res (Z * ipc) :=
  if (IRQ_ROUTE_MAX <=? irq)%nat then Ret (0, s) else
  match irq_table s irq with
  | None => Ret (0, s)
  | Some o =>
    s ← knotification_free o (set_route irq None s);
    Ret (1, if (irq <? 16)%nat then pic_set_irq_mask irq true s else s)
  end.

(** The body of the loop of [irq_routing_unregister_notification]. *)
Definition unroute n (i : nat) s : res ipc :=
  if decide (irq_table s i = Some n) then
    s ← knotification_free n (set_route i None s);
    Ret (if (i <? 16)%nat then pic_set_irq_mask i true s else s)
  else Ret s.
Fixpoint unroute_loop n (l : list nat) s : res ipc :=
  match l with [] => Ret s | i :: l => s ← unroute n i s; unroute_loop n l s end.
Definition irq_routing_unregister_notification n s : res ipc := unroute_loop n (seq 0 IRQ_ROUTE_MAX) s.

Definition knotification_close n s : res ipc :=
  s ← knotif_waiters_wake_all n (upd_ntf n set_closed s);
  s ← irq_routing_unregister_notification n s;
  knotification_unbind n s.
