(* ===== verification/KnotifSpec.v ===== *)
(** * Notifications: the queues as lists

    [ntf_ok s W] says that the waiter queue of every notification [n] is the list
    [W n], and that a thread is in at most one queue.  The lemmas give the effect of
    each operation of [Knotification] on the lists; [knotification_refines] collects
    them against an abstract notification. *)

From Stdlib Require Import ZArith Lia.
From stdpp Require Import base numbers gmap list.
From S2P Require Import Prelude Rights Runq RunqInv RunqSpec SchedSpec Wq Ipc Knotification.
Local Open Scope Z_scope.
Implicit Types (s : ipc) (n m t w x : N) (l : list N) (W : N → list N).

Record ntf_ok s W : Prop := NtfOk {
  nk_queue : ∀ n, wq_rep (notif_next s) (queue_head (ntfs s n)) (queue_tail (ntfs s n)) (W n);
  nk_count : ∀ n, waiter_count (ntfs s n) = Z.of_nat (length (W n));
  nk_one   : ∀ n m t, t ∈ W n → t ∈ W m → n = m;
  nk_in    : ∀ n t, t ∈ W n → notif_queued s t = 1 ∧ (N.to_nat t < task_bound (sch s))%nat;
  nk_out   : ∀ t, (∀ n, t ∉ W n) → notif_queued s t = 0 ∧ notif_next s t = None;
  nk_bound : Z.of_nat (task_bound (sch s)) < 2 ^ 32;
}.

(** What a change of the queue of [n] leaves alone. *)
Definition queue_only n s s' : Prop :=
  sch s' = sch s ∧ (∀ m, m ≠ n → ntfs s' m = ntfs s m) ∧
  signal_bits (ntfs s' n) = signal_bits (ntfs s n) ∧ n_closed (ntfs s' n) = n_closed (ntfs s n) ∧
  bound_tcb (ntfs s' n) = bound_tcb (ntfs s n).

Lemma queue_length s W n : ntf_ok s W → (length (W n) < waitfuel s)%nat.
Proof.
  intros Hok. unfold waitfuel. apply Nat.lt_succ_r. apply bounded_length; [apply Hok|].
  intros x Hx. by apply (nk_in _ _ Hok n).
Qed.

Lemma leave_queue_spec s W n l1 w l2 (s' := leave_queue n (last l1) w s) :
  ntf_ok s W → W n = l1 ++ w :: l2 →
  ntf_ok s' (upd_fn W n (l1 ++ l2)) ∧ queue_only n s s'.
Proof.
  intros Hok HW. subst s'. pose proof (nk_queue _ _ Hok n) as Hq. rewrite HW in Hq. unfold leave_queue.
  destruct (wq_cut _ _ _ (last l1) w) as [[nx h] tl] eqn:Hcut.
  destruct (wq_cut_rep _ _ _ _ _ _ _ _ _ Hq Hcut) as (Hrep & Hw & Hother).
  assert (w ∈ W n) as Hin by (rewrite HW; apply elem_of_app; right; left).
  assert (∀ x, x ∈ l1 ++ l2 → x ∈ W n ∧ x ≠ w) as Hsub.
  { intros x Hx. split; [rewrite HW; set_solver|]. intros ->. pose proof (wq_nodup _ _ _ _ Hq) as Hnd.
    apply NoDup_app in Hnd as (_ & N2 & N3). apply NoDup_cons in N3 as [N3 _]. apply elem_of_app in Hx as [Hx|Hx]; [|done].
    apply (N2 w Hx). left. }
  assert (∀ x, x ∈ W n → x ∈ l1 ++ l2 ∨ x = w) as Hsup by (intros x; rewrite HW; set_solver).
  assert (∀ x, last l1 = Some x → x ∈ W n) as Hlast.
  { intros x Hx%last_Some_elem_of. rewrite HW. apply elem_of_app. by left. }
  split.
  2:{ unfold queue_only. cbn [upd_ntf with_ntfs with_nq sch ntfs]. split; [done|]. split; [intros m Hm; by apply upd_fn_other|].
      rewrite upd_fn_same. done. }
  split; cbn [upd_ntf with_ntfs with_nq sch ntfs notif_next notif_queued].
  - intros m. destruct (decide (m = n)) as [->|Hm]; [by rewrite !upd_fn_same|]. rewrite !upd_fn_other by done.
    eapply wq_frame; [|apply Hok]. intros x Hx. apply Hother.
    + intros ->. apply Hm. by apply (nk_one _ _ Hok m n w).
    + intros Hl. apply Hm. apply (nk_one _ _ Hok m n x); [done|by apply Hlast].
  - intros m. destruct (decide (m = n)) as [->|Hm]; [|rewrite !upd_fn_other by done; apply Hok].
    rewrite !upd_fn_same. cbn [set_queue waiter_count]. rewrite (nk_count _ _ Hok), HW, !length_app. unfold dec0. cbn [length].
    destruct (Z.eqb_spec (Z.of_nat (length l1 + S (length l2))) 0); lia.
  - intros m m' x Hx Hx'. apply (nk_one _ _ Hok m m' x); unfold upd_fn in Hx, Hx'; repeat case_decide; subst; try done; by apply Hsub.
  - intros m x Hx. assert (x ∈ W m ∧ x ≠ w) as [Hxm Hxw].
    { destruct (decide (m = n)) as [->|Hm]; [rewrite upd_fn_same in Hx; by apply Hsub|].
      rewrite upd_fn_other in Hx by done. split; [done|]. intros ->. apply Hm. by apply (nk_one _ _ Hok m n w). }
    rewrite upd_fn_other by done. by apply (nk_in _ _ Hok m).
  - intros x Hx. destruct (decide (x = w)) as [->|Hxw].
    + rewrite upd_fn_same. destruct (nk_in _ _ Hok n w Hin) as [-> _]. done.
    + rewrite upd_fn_other by done. rewrite Hother; [apply (nk_out _ _ Hok)|done|].
      * intros m Hm. apply (Hx m). unfold upd_fn. case_decide; [subst|done]. destruct (Hsup x Hm); [done|by subst].
      * intros Hl. apply (Hx n). rewrite upd_fn_same. destruct (Hsup x (Hlast x Hl)); [done|by subst].
  - apply Hok.
Qed.

Lemma remove_waiter s W n t :
  ntf_ok s W →
  returns (knotif_waiters_remove n t s) (λ s', ntf_ok s' (upd_fn W n (without t (W n))) ∧ queue_only n s s').
Proof.
  intros Hok. unfold knotif_waiters_remove. pose proof (nk_queue _ _ Hok n) as Hq. pose proof (queue_length s W n Hok) as Hl.
  destruct (first_split (λ w, bool_decide (w = t)) (W n)) as [Hnone|(l1 & x & l2 & HW & H1 & Hx)].
  - destruct (wq_find_none _ _ _ (waitfuel s) None _ (wq_chain _ _ _ _ Hq) Hnone Hl) as [q ->].
    cbn [mbind res_bind returns]. split; [|done].
    assert (without t (W n) = W n) as ->.
    { unfold without. clear -Hnone. induction Hnone as [|y l Hy _ IH]; [done|]. apply bool_decide_eq_false in Hy.
      rewrite filter_cons, decide_True by done. by rewrite IH. }
    assert (∀ m, upd_fn W n (W n) m = W m) as HE by (intros m; unfold upd_fn; case_decide; by subst).
    destruct Hok as [O1 O2 O3 O4 O5 O6]. split; try done.
    + intros m. rewrite HE. apply O1. + intros m. rewrite HE. apply O2. + intros m m' y. rewrite !HE. apply O3.
    + intros m y. rewrite HE. apply O4. + intros y Hy. apply O5. intros m. rewrite <-HE. apply Hy.
  - apply bool_decide_eq_true in Hx as ->. pose proof (wq_chain _ _ _ _ Hq) as Hc. rewrite HW in Hc, Hl.
    rewrite length_app in Hl. erewrite wq_find_some; [|exact Hc|done|by apply bool_decide_true|lia].
    cbn [mbind res_bind returns].
    assert (match last l1 with Some y => Some y | None => None end = last l1) as -> by (by destruct (last l1)).
    rewrite HW, without_split by (rewrite <-HW; apply Hq). by apply leave_queue_spec.
Qed.

Lemma enqueue_waiter s W n t :
  ntf_ok s W → (∀ m, t ∉ W m) → (N.to_nat t < task_bound (sch s))%nat →
  returns (knotif_waiters_enqueue n t s) (λ '(r, s'),
    r = IRIS_OK ∧ ntf_ok s' (upd_fn W n (W n ++ [t])) ∧ queue_only n s s').
Proof.
  intros Hok Ht Hb. unfold knotif_waiters_enqueue. pose proof (nk_queue _ _ Hok n) as Hq.
  destruct (nk_out _ _ Hok t Ht) as [Hq0 Hn0]. pose proof (queue_length s W n Hok) as Hl.
  rewrite Hn0, bool_decide_false by (by intros []). rewrite bool_decide_false; [cbn [orb]|].
  2:{ rewrite (wq_last _ _ _ _ Hq). intros H%last_Some_elem_of. by apply (Ht n). }
  destruct (wq_find_none (λ w, bool_decide (w = t)) _ _ (waitfuel s) None _ (wq_chain _ _ _ _ Hq)) as [q ->]; [|done|].
  { apply Forall_forall. intros y Hy. apply bool_decide_false. intros ->. by apply (Ht n). }
  cbn [mbind res_bind]. destruct (wq_add _ _ _ t) as [[nx h] tl] eqn:Hadd.
  destruct (wq_add_rep _ _ _ _ _ _ _ _ Hq (Ht n) Hadd) as (Hrep & Hw & Hother). cbn [returns].
  split; [done|]. split.
  2:{ unfold queue_only. cbn [upd_ntf with_ntfs with_nq sch ntfs]. split; [done|]. split; [intros m Hm; by apply upd_fn_other|].
      rewrite upd_fn_same. done. }
  assert (∀ m y, y ∈ upd_fn W n (W n ++ [t]) m ↔ y ∈ W m ∨ m = n ∧ y = t) as Hmem.
  { intros m y. unfold upd_fn. case_decide; [subst; set_solver|naive_solver]. }
  split; cbn [upd_ntf with_ntfs with_nq sch ntfs notif_next notif_queued].
  - intros m. destruct (decide (m = n)) as [->|Hm]; [by rewrite !upd_fn_same|]. rewrite !upd_fn_other by done.
    eapply wq_frame; [|apply Hok]. intros x Hx. apply Hother; [intros ->; by apply (Ht m)|].
    intros H%last_Some_elem_of. apply Hm. by apply (nk_one _ _ Hok m n x).
  - intros m. destruct (decide (m = n)) as [->|Hm]; [|rewrite !upd_fn_other by done; apply Hok].
    rewrite !upd_fn_same. cbn [set_queue waiter_count]. rewrite (nk_count _ _ Hok), length_app. cbn [length].
    assert (length (W n ++ [t]) ≤ task_bound (sch s))%nat as Hlen.
    { apply bounded_length; [apply Hrep|]. intros x [Hx| ->%list_elem_of_singleton]%elem_of_app; [|done].
      by apply (nk_in _ _ Hok n). }
    rewrite length_app in Hlen. cbn [length] in Hlen. pose proof (nk_bound _ _ Hok). rewrite u32_id by lia. lia.
  - intros m m' x. rewrite !Hmem. intros [Hx|[E1 E2]] [Hx'|[E1' E2']]; subst; try done.
    + by eapply (nk_one _ _ Hok).
    + by apply Ht in Hx.
    + by apply Ht in Hx'.
  - intros m x. rewrite Hmem. intros [Hx|[-> ->]].
    + rewrite upd_fn_other by (intros ->; by apply (Ht m)). by apply (nk_in _ _ Hok m).
    + rewrite upd_fn_same, Hq0. done.
  - intros x Hx. assert (x ≠ t) as Hxt by (intros ->; apply (Hx n), Hmem; by right).
    rewrite upd_fn_other by done. rewrite Hother; [apply (nk_out _ _ Hok)|done|].
    + intros m Hm. apply (Hx m), Hmem. by left.
    + intros H%last_Some_elem_of. apply (Hx n), Hmem. by left.
  - apply Hok.
Qed.

(** Changes that leave the queues alone. *)
Lemma ok_sch s W (f : sched → sched) :
  task_bound (f (sch s)) = task_bound (sch s) → ntf_ok s W → ntf_ok (on_sch f s) W.
Proof.
  intros Hf [O1 O2 O3 O4 O5 O6]. split; cbn [on_sch with_sch ntfs notif_next notif_queued sch]; rewrite ?Hf; done.
Qed.

Definition keeps_queue (f : KNotification → KNotification) : Prop :=
  ∀ k, queue_head (f k) = queue_head k ∧ queue_tail (f k) = queue_tail k ∧ waiter_count (f k) = waiter_count k.

Lemma ok_ntf s W n f : keeps_queue f → ntf_ok s W → ntf_ok (upd_ntf n f s) W.
Proof.
  intros Hf [O1 O2 O3 O4 O5 O6]. destruct (Hf (ntfs s n)) as (E1 & E2 & E3).
  split; cbn [upd_ntf with_ntfs ntfs notif_next notif_queued sch]; try done.
  - intros m. unfold upd_fn. case_decide; [subst; rewrite E1, E2|]; apply O1.
  - intros m. unfold upd_fn. case_decide; [subst; rewrite E3|]; apply O2.
Qed.

Lemma wakeup_bound t (σ : sched) : task_bound (task_wakeup t σ) = task_bound σ.
Proof. by destruct (ot_rest _ _ _ _ (others_wakeup t None σ)) as (_ & _ & _ & ? & _). Qed.

Definition blocked s w : bool := bool_decide (st s w = TASK_BLOCKED_IRQ).

(** The first blocked waiter leaves the queue and wakes. *)
Lemma wake_one_spec s W n :
  ntf_ok s W →
  returns (knotif_waiters_wake_one n s) (λ '(woke, s'),
    woke = false ∧ s' = s ∧ Forall (λ w, blocked s w = false) (W n) ∨
    ∃ l1 w l2, woke = true ∧ W n = l1 ++ w :: l2 ∧ Forall (λ w, blocked s w = false) l1 ∧ blocked s w = true ∧
      ntf_ok s' (upd_fn W n (l1 ++ l2)) ∧ sch s' = task_wakeup w (sch s) ∧
      queue_only n s (with_sch (sch s) s')).
Proof.
  intros Hok. unfold knotif_waiters_wake_one. pose proof (nk_queue _ _ Hok n) as Hq. pose proof (queue_length s W n Hok) as Hl.
  change (λ w, bool_decide (st s w = TASK_BLOCKED_IRQ)) with (blocked s).
  destruct (first_split (blocked s) (W n)) as [Hnone|(l1 & w & l2 & HW & H1 & Hx)].
  - destruct (wq_find_none _ _ _ (waitfuel s) None _ (wq_chain _ _ _ _ Hq) Hnone Hl) as [q ->].
    cbn [mbind res_bind returns]. by left.
  - pose proof (wq_chain _ _ _ _ Hq) as Hc. rewrite HW in Hc, Hl. rewrite length_app in Hl.
    erewrite wq_find_some; [|exact Hc|done|done|lia]. cbn [mbind res_bind returns].
    assert (match last l1 with Some y => Some y | None => None end = last l1) as -> by (by destruct (last l1)).
    destruct (leave_queue_spec s W n l1 w l2 Hok HW) as [Hok' (F1 & F2)].
    right. exists l1, w, l2. split; [done|]. split; [done|]. split; [done|]. split; [done|].
    split; [apply ok_sch; [apply wakeup_bound|done]|].
    cbn [on_sch with_sch sch]. rewrite F1. split; [done|]. split; [done|]. exact F2.
Qed.

(** The threads of [l] leave, and the blocked ones wake. *)
Definition wake_each l (σ : sched) : sched :=
  foldl (λ σ w, if bool_decide (state (tasks σ w) = TASK_BLOCKED_IRQ) then task_wakeup w σ else σ) σ l.

Lemma wake_each_bound l σ : task_bound (wake_each l σ) = task_bound σ.
Proof.
  unfold wake_each. revert σ. induction l as [|w l IH]; intros σ; cbn [foldl]; [done|].
  rewrite IH. case_bool_decide; [apply wakeup_bound|done].
Qed.

Lemma wake_all_loop_spec l fuel o s :
  chain (notif_next s) o l → NoDup l → (length l < fuel)%nat →
  returns (wake_all_loop fuel o s) (λ s',
    ntfs s' = ntfs s ∧ sch s' = wake_each l (sch s) ∧ irq_table s' = irq_table s ∧
    (∀ x, notif_next s' x = if decide (x ∈ l) then None else notif_next s x) ∧
    (∀ x, notif_queued s' x = if decide (x ∈ l) then dec0 (notif_queued s x) else notif_queued s x)).
Proof.
  revert fuel o s. induction l as [|w l IH]; intros fuel o s Hc Hnd Hl; inversion Hc; subst;
    (destruct fuel as [|fuel]; [simpl in Hl; lia|]); cbn [wake_all_loop].
  { cbn [returns]. split; [done|]. split; [done|]. split; [done|].
    split; intros x; rewrite decide_False by apply not_elem_of_nil; done. }
  apply NoDup_cons in Hnd as [Hw Hnd]. set (s1 := with_nq _ _ s).
  set (s2 := if bool_decide (st s1 w = TASK_BLOCKED_IRQ) then _ else s1).
  assert (sch s2 = (if bool_decide (state (tasks (sch s) w) = TASK_BLOCKED_IRQ) then task_wakeup w (sch s) else sch s) ∧
    ntfs s2 = ntfs s ∧ irq_table s2 = irq_table s ∧ notif_next s2 = upd_fn (notif_next s) w None ∧
    notif_queued s2 = upd_fn (notif_queued s) w (dec0 (notif_queued s w))) as (E1 & E2 & E3 & E4 & E5).
  { unfold s2, st. change (sch s1) with (sch s). by case_bool_decide. }
  eapply returns_mono; [apply (IH fuel (notif_next s w) s2); [|done|simpl in Hl; lia]|].
  { eapply chain_ext; [|eassumption]. intros x Hx. rewrite E4, upd_fn_other by congruence. done. }
  intros s' (F1 & F2 & F3 & F4 & F5). rewrite F1, F2, F3, E1, E2, E3. split; [done|]. split; [done|]. split; [done|].
  split; intros x; [rewrite F4, E4|rewrite F5, E5]; unfold upd_fn;
    destruct (decide (x = w)) as [->|Hx];
    rewrite ?(decide_False (P := w ∈ l)), ?(decide_True (P := w ∈ w :: l)) by (done || left); try done;
    destruct (decide (x ∈ l)); rewrite ?(decide_True (P := x ∈ w :: l)), ?(decide_False (P := x ∈ w :: l))
      by (rewrite elem_of_cons; tauto); done.
Qed.

Lemma wake_all_spec s W n :
  ntf_ok s W →
  returns (knotif_waiters_wake_all n s) (λ s', ntf_ok s' (upd_fn W n []) ∧ sch s' = wake_each (W n) (sch s) ∧
    ntfs s' = upd_fn (ntfs s) n (set_queue 0 None None (ntfs s n)) ∧ irq_table s' = irq_table s).
Proof.
  intros Hok. unfold knotif_waiters_wake_all. set (s1 := upd_ntf n _ s). pose proof (nk_queue _ _ Hok n) as Hq.
  eapply returns_mono; [apply (wake_all_loop_spec (W n)); [apply Hq|apply Hq|]|].
  { by apply (queue_length s W n). }
  intros s' (F1 & F2 & F3 & F4 & F5). split; [|by rewrite F1, F2, F3].
  assert (∀ m x, x ∈ upd_fn W n [] m ↔ x ∈ W m ∧ m ≠ n) as Hmem.
  { intros m x. unfold upd_fn. case_decide; [|naive_solver]. subst. split; [by intros ?%not_elem_of_nil|naive_solver]. }
  split.
  - intros m. rewrite F1. cbn [s1 upd_ntf with_ntfs ntfs]. destruct (decide (m = n)) as [->|Hm].
    { rewrite !upd_fn_same. apply wq_empty. }
    rewrite !upd_fn_other by done. eapply wq_frame; [|apply Hok]. intros x Hx. rewrite F4.
    rewrite decide_False; [done|]. intros Hx'. apply Hm. by apply (nk_one _ _ Hok m n x).
  - intros m. rewrite F1. cbn [s1 upd_ntf with_ntfs ntfs]. destruct (decide (m = n)) as [->|Hm].
    { rewrite !upd_fn_same. done. }
    rewrite !upd_fn_other by done. apply Hok.
  - intros m m' x [Hx _]%Hmem [Hx' _]%Hmem. by eapply (nk_one _ _ Hok).
  - intros m x [Hx Hm]%Hmem. rewrite F5, F2, wake_each_bound, decide_False; [by apply (nk_in _ _ Hok m)|].
    intros Hx'. apply Hm. by apply (nk_one _ _ Hok m n x).
  - intros x Hx. rewrite F4, F5. destruct (decide (x ∈ W n)) as [Hin|Hin].
    + change (notif_queued s1 x) with (notif_queued s x). destruct (nk_in _ _ Hok n x Hin) as [-> _]. done.
    + apply (nk_out _ _ Hok). intros m Hm. destruct (decide (m = n)) as [->|Hne]; [done|]. by apply (Hx m), Hmem.
  - rewrite F2, wake_each_bound. apply Hok.
Qed.

(** ** The abstract notification *)

Record anotif := AN { a_bits : Z; a_closed : bool; a_queue : list N }.
Definition view s W n : anotif := AN (signal_bits (ntfs s n)) (n_closed (ntfs s n)) (W n).

Inductive ntf_op := OpSignal (bits : Z) | OpWait (t : N) | OpPoll | OpClose.
Inductive ntf_res := RNone | RBits (bits : Z) | RErr (e : iris_error_t).

Definition ntf_exec (op : ntf_op) n s : res (ntf_res * ipc) :=
  match op with
  | OpSignal bits => s ← knotification_signal n bits s; Ret (RNone, s)
  | OpWait t =>
    '(e, got, s) ← knotification_wait_step n t s;
    Ret (if bool_decide (e = IRIS_OK) then RBits got else RErr e, s)
  | OpPoll => let '(got, s) := knotification_poll n s in Ret (RBits got, s)
  | OpClose => s ← knotification_close n s; Ret (RNone, s)
  end.

(** [a_step blk op a r a' ws]: on an abstract notification [a], whose waiters are
    blocked as [blk] says, [op] returns [r], leaves [a'] and wakes the blocked
    threads of [ws]. *)
Inductive a_step (blk : N → bool) : ntf_op → anotif → ntf_res → anotif → list N → Prop :=
  | a_signal_closed b bits q :
      a_step blk (OpSignal b) (AN bits true q) RNone (AN bits true q) []
  | a_signal_pending b bits q :
      Forall (λ w, blk w = false) q →
      a_step blk (OpSignal b) (AN bits false q) RNone (AN (Z.lor bits b) false q) []
  | a_signal_wake b bits q1 w q2 :
      Forall (λ w, blk w = false) q1 → blk w = true →
      a_step blk (OpSignal b) (AN bits false (q1 ++ w :: q2)) RNone (AN (Z.lor bits b) false (q1 ++ q2)) [w]
  | a_wait_take t bits c q :
      bits ≠ 0 → a_step blk (OpWait t) (AN bits c q) (RBits bits) (AN 0 c (without t q)) []
  | a_wait_closed t q :
      a_step blk (OpWait t) (AN 0 true q) (RErr IRIS_ERR_CLOSED) (AN 0 true (without t q)) []
  | a_wait_park t q :
      a_step blk (OpWait t) (AN 0 false q) (RErr IRIS_ERR_WOULD_BLOCK) (AN 0 false (without t q ++ [t])) []
  | a_poll bits c q : a_step blk OpPoll (AN bits c q) (RBits bits) (AN 0 c q) []
  | a_close bits c q : a_step blk OpClose (AN bits c q) RNone (AN bits true []) q.

(** What the operation does to the scheduler's threads. *)
Definition sched_after (op : ntf_op) (r : ntf_res) (ws : list N) (σ : sched) : sched :=
  match op, r with
  | OpWait t, RErr IRIS_ERR_WOULD_BLOCK => upd_task t (set_state TASK_BLOCKED_IRQ) σ
  | _, _ => wake_each ws σ
  end.

(** The notification has no bound thread and no interrupt route; a thread that
    waits is not queued on another notification. *)
Definition op_fits (op : ntf_op) n s W : Prop :=
  match op with
  | OpSignal _ => bound_tcb (ntfs s n) = None
  | OpWait t => (N.to_nat t < task_bound (sch s))%nat ∧ ∀ m, m ≠ n → t ∉ W m
  | OpPoll => True
  | OpClose => bound_tcb (ntfs s n) = None ∧ ∀ i, irq_table s i ≠ Some n
  end.

Lemma elem_without t x l : x ∈ without t l ↔ x ∈ l ∧ x ≠ t.
Proof. unfold without. rewrite list_elem_of_filter. tauto. Qed.

Lemma unroute_none n (l : list nat) s : (∀ i, irq_table s i ≠ Some n) → unroute_loop n l s = Ret s.
Proof.
  intros H. induction l as [|i l IH]; [done|]. cbn [unroute_loop]. unfold unroute.
  rewrite decide_False by apply H. exact IH.
Qed.

(** The three operations, one by one. *)
Lemma signal_spec s W n b :
  ntf_ok s W → bound_tcb (ntfs s n) = None →
  returns (knotification_signal n b s) (λ s', ∃ W' ws,
    ntf_ok s' W' ∧ (∀ m, m ≠ n → W' m = W m ∧ ntfs s' m = ntfs s m) ∧
    a_step (blocked s) (OpSignal b) (view s W n) RNone (view s' W' n) ws ∧ sch s' = wake_each ws (sch s) ∧
    bound_tcb (ntfs s' n) = None).
Proof.
  intros Hok Hb. unfold knotification_signal. destruct (n_closed (ntfs s n)) eqn:Hc.
  { cbn [returns]. exists W, []. split; [done|]. split; [done|]. split; [|done].
    unfold view. rewrite Hc. constructor. }
  cbv zeta. set (s1 := or_bits n b s). assert (ntf_ok s1 W) as Hok1 by (by apply ok_ntf).
  assert (ntfs s1 n = set_bits (Z.lor (signal_bits (ntfs s n)) b) (ntfs s n)) as En by apply upd_fn_same.
  assert (∀ m, m ≠ n → ntfs s1 m = ntfs s m) as Em by (intros m Hm; by apply upd_fn_other).
  apply returns_bind. eapply returns_mono; [by apply wake_one_spec|].
  intros [woke s2] [(-> & -> & Hnone)|(l1 & w & l2 & -> & HW & Hl1 & Hw & Hok2 & Hs2 & Hfr)].
  - assert (bound_tcb (ntfs s1 n) = None) as Hb1 by (by rewrite En). rewrite Hb1. cbn [returns].
    exists W, []. split; [done|]. split; [by intros m Hm; rewrite Em|]. split; [|done].
    unfold view. rewrite En, Hc. cbn [set_bits signal_bits n_closed]. rewrite Hc. by constructor.
  - cbn [returns]. exists (upd_fn W n (l1 ++ l2)), [w]. split; [done|]. destruct Hfr as (_ & F2 & F3 & F4 & F5).
    cbn [with_sch ntfs] in F2, F3, F4, F5.
    split; [intros m Hm; rewrite upd_fn_other, F2, Em by done; done|]. split; [|split].
    + unfold view. rewrite F3, F4, En, HW, upd_fn_same. cbn [set_bits signal_bits n_closed]. rewrite Hc.
      by apply a_signal_wake.
    + rewrite Hs2. unfold wake_each. cbn [foldl]. unfold blocked, st in Hw. change (sch s1) with (sch s) in Hw |- *.
      by rewrite Hw.
    + rewrite F5, En. exact Hb.
Qed.

Lemma park_spec s W n t :
  ntf_ok s W → (∀ m, t ∉ W m) → (N.to_nat t < task_bound (sch s))%nat →
  returns (wait_park n t s) (λ '(r, s'),
    let bits := signal_bits (ntfs s n) in
    bits ≠ 0 ∧ r = IRIS_ERR_WOULD_BLOCK ∧ s' = s ∨
    bits = 0 ∧ n_closed (ntfs s n) = true ∧ r = IRIS_ERR_CLOSED ∧ s' = s ∨
    bits = 0 ∧ n_closed (ntfs s n) = false ∧ r = IRIS_ERR_WOULD_BLOCK ∧
      ntf_ok s' (upd_fn W n (W n ++ [t])) ∧ sch s' = upd_task t (set_state TASK_BLOCKED_IRQ) (sch s) ∧
      queue_only n s (with_sch (sch s) s')).
Proof.
  intros Hok Ht Hb. unfold wait_park. destruct (Z.eqb_spec (signal_bits (ntfs s n)) 0) as [H0|H0]; cbn [negb].
  2:{ cbn [returns]. by left. }
  destruct (n_closed (ntfs s n)); [cbn [returns]; right; by left|].
  apply returns_bind. eapply returns_mono; [by apply enqueue_waiter|]. intros [r s'] (-> & Hok' & (G1 & G2)).
  rewrite bool_decide_true by done. cbn [negb returns]. right; right. split; [done|]. split; [done|]. split; [done|].
  split; [by apply ok_sch|]. split; [cbn [on_sch with_sch sch]; by rewrite G1|]. split; [done|]. exact G2.
Qed.

Lemma wait_spec s W n t :
  ntf_ok s W → (N.to_nat t < task_bound (sch s))%nat → (∀ m, m ≠ n → t ∉ W m) →
  returns (knotification_wait_step n t s) (λ '(e, got, s'), ∃ W',
    let r := if bool_decide (e = IRIS_OK) then RBits got else RErr e in
    ntf_ok s' W' ∧ (∀ m, m ≠ n → W' m = W m ∧ ntfs s' m = ntfs s m) ∧
    a_step (blocked s) (OpWait t) (view s W n) r (view s' W' n) [] ∧
    sch s' = sched_after (OpWait t) r [] (sch s)).
Proof.
  intros Hok Ht Hother. unfold knotification_wait_step, wait_leave.
  apply returns_bind. eapply returns_mono; [by apply remove_waiter|]. intros s1 [Hok1 (F1 & F2 & F3 & F4 & F5)].
  set (W1 := upd_fn W n (without t (W n))) in *.
  assert (∀ m, m ≠ n → W1 m = W m) as HW1 by (intros m Hm; by apply upd_fn_other).
  assert (∀ m, t ∉ W1 m) as Ht1.
  { intros m. destruct (decide (m = n)) as [->|Hm]; [|by rewrite HW1; [apply Hother|]].
    unfold W1. rewrite upd_fn_same, elem_without. naive_solver. }
  assert (view s W n = AN (signal_bits (ntfs s1 n)) (n_closed (ntfs s1 n)) (W n)) as Hv
    by (unfold view; by rewrite F3, F4).
  unfold wait_take. destruct (Z.eqb_spec (signal_bits (ntfs s1 n)) 0) as [H0|H0].
  - cbn [negb Z.eqb]. apply returns_bind. eapply returns_mono; [apply (park_spec s1 W1 n t Hok1 Ht1); by rewrite F1|].
    intros [r s2] [(? & _)|[(_ & Hc & -> & ->)|(_ & Hc & -> & Hok2 & G1 & (_ & G2 & G3 & G4 & _))]]; [done| |];
      cbn [returns]; rewrite bool_decide_false by done; cbv zeta.
    + exists W1. split; [done|]. split; [intros m Hm; rewrite HW1, F2 by done; done|]. split; [|exact F1].
      rewrite Hv, H0, Hc. unfold view. rewrite H0, Hc. unfold W1. rewrite upd_fn_same. apply a_wait_closed.
    + cbn [with_sch ntfs] in G2, G3, G4. exists (upd_fn W1 n (W1 n ++ [t])). split; [done|].
      split; [intros m Hm; rewrite upd_fn_other, HW1, G2, F2 by done; done|]. split; [|by rewrite G1, F1].
      rewrite Hv, H0, Hc. unfold view. rewrite G3, G4, upd_fn_same, H0, Hc. unfold W1. rewrite upd_fn_same. apply a_wait_park.
  - cbn [take_bits]. rewrite (proj2 (Z.eqb_neq _ _) H0). cbn [negb returns]. exists W1. rewrite bool_decide_true by done. cbv zeta.
    split; [by apply ok_ntf|]. split; [|split; [|exact F1]].
    + intros m Hm. cbn [upd_ntf with_ntfs ntfs]. rewrite HW1, upd_fn_other, F2 by done. done.
    + rewrite Hv. unfold view. cbn [upd_ntf with_ntfs ntfs]. rewrite upd_fn_same. cbn [set_bits signal_bits n_closed].
      unfold W1. rewrite upd_fn_same. by apply a_wait_take.
Qed.

(** C31: A notification is the word of bits and the FIFO of waiters it stands for, as
    long as no thread is bound to it when it is signalled or closed and no interrupt is
    routed to it when it is closed: every operation terminates, with no bound of the
    model met, and does what the abstract notification does.  A signal on an open one
    adds its bits and wakes exactly the first blocked waiter; one attempt to wait,
    by a thread that waits on no other notification, takes every pending bit at once,
    reports CLOSED, or parks the thread at the end of the queue; a poll takes
    the bits; closing wakes every blocked waiter; other notifications and their waiters
    are untouched.  With a bound thread waiting on an endpoint a signal hands it
    the bits instead, which is a property of its own. *)
Theorem knotification_refines op n s W :
  ntf_ok s W → op_fits op n s W →
  returns (ntf_exec op n s) (λ '(r, s'), ∃ W' ws,
    ntf_ok s' W' ∧ (∀ m, m ≠ n → W' m = W m ∧ ntfs s' m = ntfs s m) ∧
    a_step (blocked s) op (view s W n) r (view s' W' n) ws ∧
    sch s' = sched_after op r ws (sch s)).
Proof.
  intros Hok Hfit. destruct op as [b|t| |]; cbn [ntf_exec op_fits] in *.
  - apply returns_bind. eapply returns_mono; [by apply signal_spec|]. intros s' (W' & ws & H1 & H2 & H3 & H4 & _).
    cbn [returns]. by exists W', ws.
  - destruct Hfit as [Ht Hoth]. apply returns_bind. eapply returns_mono; [by apply wait_spec|].
    intros [[e got] s'] (W' & H1 & H2 & H3 & H4). cbn [returns]. by exists W', [].
  - unfold knotification_poll. destruct (Z.eqb_spec (signal_bits (ntfs s n)) 0) as [H0|H0]; cbn [take_bits returns]; exists W, [].
    + split; [done|]. split; [done|]. split; [|done]. unfold view. rewrite H0. constructor.
    + split; [by apply ok_ntf|]. split; [|split; [|done]].
      * intros m Hm. cbn [upd_ntf with_ntfs ntfs]. by rewrite upd_fn_other.
      * unfold view. cbn [upd_ntf with_ntfs ntfs]. rewrite upd_fn_same. constructor.
  - destruct Hfit as [Hb Hr]. unfold knotification_close. apply returns_bind, returns_bind.
    set (s1 := upd_ntf n set_closed s). assert (ntf_ok s1 W) as Hok1 by (by apply ok_ntf).
    assert (ntfs s1 n = set_closed (ntfs s n)) as En by apply upd_fn_same.
    eapply returns_mono; [by apply wake_all_spec|]. intros s2 (Hok2 & Hs2 & Hn2 & Hi2).
    unfold irq_routing_unregister_notification. rewrite unroute_none by (by rewrite Hi2).
    cbn [mbind res_bind]. unfold knotification_unbind.
    assert (bound_tcb (ntfs s2 n) = None) as Hb2 by (by rewrite Hn2, upd_fn_same, En). rewrite Hb2.
    cbn [returns]. exists (upd_fn W n []), (W n). split; [by apply ok_ntf|].
    split; [|split; [|exact Hs2]].
    + intros m Hm. cbn [upd_ntf with_ntfs ntfs]. rewrite upd_fn_other, upd_fn_other, Hn2, upd_fn_other by done.
      split; [done|]. by apply upd_fn_other.
    + unfold view. cbn [upd_ntf with_ntfs ntfs]. rewrite !upd_fn_same. cbn [set_bound signal_bits n_closed].
      rewrite Hn2, upd_fn_same, En. cbn [set_queue set_closed signal_bits n_closed]. apply a_close.
Qed.

(** ** Witness *)

(** No notification in use, threads and run queues as in [RunqSpec.sched0]. *)
Definition ipc0 : ipc :=
  Ipc RunqSpec.sched0 (λ _, Ntf 0 false 0 None None None None None) (λ _, Ep EP_STATE_IDLE false None None)
    None 0 (λ _, 1) (λ _, None) (λ _, true) (λ _, None) (λ _, 0) (λ _, None) (λ _, None) (λ _, None)
    (λ _, Stage 0 [] 0 0 0 0 0 0 0) (λ _, false) (λ _, false) (λ _, 1).

Lemma ipc0_ok : ntf_ok ipc0 (λ _, []).
Proof.
  split; try done.
  - intros n. apply wq_empty.
  - intros n m t H. by apply not_elem_of_nil in H.
  - intros n t H. by apply not_elem_of_nil in H.
Qed.

Lemma knotification_refines_witness :
  returns (ntf_exec (OpWait 7) 3 ipc0) (λ '(r, s'), r = RErr IRIS_ERR_WOULD_BLOCK ∧
    ∃ W' : N → list N, ntf_ok s' W' ∧ W' 3%N = [7%N]).
Proof.
  pose proof (knotification_refines (OpWait 7) 3 ipc0 (λ _, []) ipc0_ok
    (conj (ltac:(vm_compute; lia) : (N.to_nat 7 < task_bound (sch ipc0))%nat)
       (λ m _, not_elem_of_nil 7%N))) as H.
  destruct (ntf_exec (OpWait 7) 3 ipc0) as [[r s']| |]; [|done..]. destruct H as (W' & ws & H1 & _ & H2 & _).
  change (view ipc0 (λ _, []) 3) with (AN 0 false []) in H2. inversion H2; subst; try done.
  split; [done|]. exists W'. done.
Defined.
