(* ===== verification/KnotifWake.v ===== *)
(** * Notifications: no wake-up is lost

    Any number of threads wait on a notification while others signal, poll and
    close it, on any number of cores.  The atomic sections of the code (the ranges
    under [n->base.lock] and the single atomic accesses to [signal_bits]) are the
    steps, interleaved in any order; a waiting thread is wherever its own program
    counter [wpc] says. *)

From Stdlib Require Import ZArith Lia.
From stdpp Require Import base numbers gmap list relations.
From S2P Require Import Prelude Rights Runq RunqInv SchedSpec Wq Ipc Knotification KnotifSpec.
Local Open Scope Z_scope.
Implicit Types (s : ipc) (n m t u w x : N) (W : N → list N).

(** Where a thread is in [knotification_wait_step]. *)
Inductive wpc :=
  | WIdle       (* not waiting, or returned *)
  | WLeft       (* out of the queue, before the load of the bits *)
  | WLoaded     (* the load saw bits, before the exchange *)
  | WEmpty      (* saw none, before the locked section *)
  | WParked     (* queued and blocked *)
  | WRetry.     (* runnable; the dispatcher re-executes the call *)
#[global] Instance wpc_eq_dec : EqDecision wpc.
Proof. solve_decision. Defined.

Record config := Cfg { c_ipc : ipc; c_pc : N → wpc }.

(** The threads a step made runnable re-execute. *)
Definition rouse (pc : N → wpc) s' t : wpc :=
  if decide (pc t = WParked ∧ st s' t ≠ TASK_BLOCKED_IRQ) then WRetry else pc t.

Section interleaving.
Context (n : N).

(** The steps of thread [t]. *)
Inductive tstep t : config → config → Prop :=
  | ts_start s pc s' :
      pc t = WRetry ∨ pc t = WIdle ∧ notif_queued s t = 0 ∧ (N.to_nat t < task_bound (sch s))%nat →
      wait_leave n t s = Ret s' → tstep t (Cfg s pc) (Cfg s' (upd_fn pc t WLeft))
  | ts_load s pc :
      pc t = WLeft →
      tstep t (Cfg s pc) (Cfg s (upd_fn pc t (if signal_bits (ntfs s n) =? 0 then WEmpty else WLoaded)))
  | ts_exchange s pc :
      pc t = WLoaded →
      tstep t (Cfg s pc) (Cfg (take_bits n s).2 (upd_fn pc t (if (take_bits n s).1 =? 0 then WEmpty else WIdle)))
  | ts_park s pc r s' :
      pc t = WEmpty → wait_park n t s = Ret (r, s') →
      tstep t (Cfg s pc) (Cfg s' (upd_fn pc t
        (if decide (r = IRIS_ERR_WOULD_BLOCK)
         then (if signal_bits (ntfs s n) =? 0 then WParked else WRetry) else WIdle))).

Inductive wstep : config → config → Prop :=
  | ws_thread t c c' : tstep t c c' → wstep c c'
  | ws_signal b s pc s' :
      knotification_signal n b s = Ret s' → wstep (Cfg s pc) (Cfg s' (rouse pc s'))
  | ws_poll s pc : wstep (Cfg s pc) (Cfg (knotification_poll n s).2 pc)
  | ws_close s pc s' :      (* the locked section of [knotification_close] *)
      knotif_waiters_wake_all n (upd_ntf n set_closed s) = Ret s' → wstep (Cfg s pc) (Cfg s' (rouse pc s'))
  | ws_resume t s pc :      (* a suspended waiter is resumed while still queued *)
      pc t = WParked → wstep (Cfg s pc) (Cfg (on_sch (task_wakeup t) s) (rouse pc (on_sch (task_wakeup t) s)))
  | ws_other f s pc :       (* the scheduler, on threads this notification does not block *)
      task_bound (f (sch s)) = task_bound (sch s) →
      (∀ t, terminal (tasks (f (sch s)) t) = terminal (tasks (sch s) t) ∧
            (state (tasks (f (sch s)) t) = TASK_BLOCKED_IRQ ↔ state (tasks (sch s) t) = TASK_BLOCKED_IRQ)) →
      wstep (Cfg s pc) (Cfg (on_sch f s) pc).

(** The invariant. *)
Record winv (c : config) W : Prop := WInv {
  wi_ok     : ntf_ok (c_ipc c) W;
  wi_parked : ∀ t, c_pc c t = WParked → t ∈ W n ∧ st (c_ipc c) t = TASK_BLOCKED_IRQ;
  wi_queued : ∀ t, t ∈ W n → c_pc c t = WParked ∨ c_pc c t = WRetry ∧ st (c_ipc c) t ≠ TASK_BLOCKED_IRQ;
  wi_other  : ∀ t m, m ≠ n → t ∈ W m → c_pc c t = WIdle;
  wi_bound  : ∀ t, c_pc c t ≠ WIdle → (N.to_nat t < task_bound (sch (c_ipc c)))%nat;
  wi_live   : ∀ t, terminal (tasks (sch (c_ipc c)) t) = false;
  wi_unbound : bound_tcb (ntfs (c_ipc c) n) = None;
  wi_wake   : signal_bits (ntfs (c_ipc c) n) ≠ 0 → (∃ t, c_pc c t = WParked) →
              ∃ u, c_pc c u ≠ WIdle ∧ c_pc c u ≠ WParked;
}.

Lemma upd_pc pc t (v : wpc) x : upd_fn pc t v x = if decide (x = t) then v else pc x.
Proof. done. Qed.

(** A thread that is neither idle nor parked, nor about to retry, is in no queue. *)
Lemma not_queued c W t : winv c W → c_pc c t ≠ WIdle → c_pc c t ≠ WParked → c_pc c t ≠ WRetry → ∀ m, t ∉ W m.
Proof.
  intros Hi H1 H2 H3 m Hm. destruct (decide (m = n)) as [->|Hmn].
  - destruct (wi_queued _ _ Hi t Hm) as [?|[? _]]; done.
  - by apply (wi_other _ _ Hi t m) in Hm.
Qed.

(** Changes of the bits and of one program counter. *)
Lemma inv_bits s pc W t v f :
  winv (Cfg s pc) W → keeps_queue f → (∀ k, bound_tcb (f k) = bound_tcb k) →
  pc t ≠ WIdle → pc t ≠ WParked → pc t ≠ WRetry → v ≠ WParked →
  (signal_bits (f (ntfs s n)) = 0 ∨ signal_bits (f (ntfs s n)) = signal_bits (ntfs s n) ∧ v ≠ WIdle) →
  winv (Cfg (upd_ntf n f s) (upd_fn pc t v)) W.
Proof.
  intros Hi Hf Hfb H1 H2 H3 Hv Hb. pose proof (not_queued _ _ t Hi H1 H2 H3) as Hnq.
  destruct Hi as [I1 I2 I3 I4 I5 I6 I7 I8]. cbn [c_ipc c_pc] in *.
  split; cbn [c_ipc c_pc upd_ntf with_ntfs ntfs sch]; rewrite ?upd_fn_same.
  - by apply ok_ntf.
  - intros x. rewrite upd_pc. case_decide; [done|]. apply I2.
  - intros x Hx. rewrite upd_pc. case_decide; [subst; by apply Hnq in Hx|]. by apply I3.
  - intros x m Hm Hx. rewrite upd_pc. case_decide; [subst; by apply Hnq in Hx|]. by eapply I4.
  - intros x. rewrite upd_pc. case_decide; [subst; intros _; by apply I5|]. apply I5.
  - done.
  - by rewrite Hfb.
  - destruct Hb as [->|[-> Hv']]; [done|]. intros H0 [x Hx]. exists t. by rewrite upd_pc, decide_True.
Qed.

Lemma upd_ntf_id s : ∀ W pc, winv (Cfg (upd_ntf n (λ k, k) s) pc) W → winv (Cfg s pc) W.
Proof.
  assert (∀ m, ntfs (upd_ntf n (λ k, k) s) m = ntfs s m) as HE.
  { intros m. cbn [upd_ntf with_ntfs ntfs]. unfold upd_fn. case_decide; by subst. }
  intros W pc [[O1 O2 O3 O4 O5 O6] I2 I3 I4 I5 I6 I7 I8]. cbn [c_ipc c_pc] in *.
  split; cbn [c_ipc c_pc]; rewrite <-?HE; try done.
  split; try done; intros m; rewrite <-HE; [apply O1|apply O2].
Qed.

(** What waking threads does to the states of threads. *)
Lemma wakeup_state w (σ : sched) x :
  (∀ t, terminal (tasks σ t) = false) →
  terminal (tasks (task_wakeup w σ) x) = false ∧
  (x ≠ w → state (tasks (task_wakeup w σ) x) = state (tasks σ x)) ∧
  (state (tasks σ w) = TASK_BLOCKED_IRQ → state (tasks (task_wakeup w σ) w) ≠ TASK_BLOCKED_IRQ).
Proof.
  intros Hl. pose proof (others_wakeup w None σ) as Ho. split_and!.
  - destruct (others_self _ _ _ _ x Ho) as (_ & _ & ->). apply Hl.
  - intros Hx. destruct (ot_task _ _ _ _ Ho x Hx) as [H _]. by apply sans_links_key in H as (_ & _ & _ & _ & ->).
  - intros Hs. unfold task_wakeup. rewrite Hs, decide_False, Hl by done. cbv zeta.
    assert (state (tasks (upd_task w (set_state TASK_READY) σ) w) = TASK_READY) as Hr
      by (by rewrite tasks_upd, decide_True).
    destruct (decide (idle_thread _ = Some w)); [by rewrite Hr|]. cbn [with_ipi tasks].
    destruct (enqueue_frame w (upd_task w (set_state TASK_READY) σ)) as [H _]. specialize (H w).
    apply sans_links_key in H as (_ & _ & _ & _ & ->). by rewrite Hr.
Qed.

Lemma wake_each_state l (σ : sched) x :
  (∀ t, terminal (tasks σ t) = false) →
  terminal (tasks (wake_each l σ) x) = false ∧
  (x ∉ l → state (tasks (wake_each l σ) x) = state (tasks σ x)) ∧
  (x ∈ l ∨ state (tasks σ x) ≠ TASK_BLOCKED_IRQ → state (tasks (wake_each l σ) x) ≠ TASK_BLOCKED_IRQ).
Proof.
  unfold wake_each. revert σ. induction l as [|w l IH]; intros σ Hl; cbn [foldl].
  { split; [apply Hl|]. split; [done|]. intros [H|H]; [by apply not_elem_of_nil in H|done]. }
  set (σ1 := if bool_decide _ then _ else σ).
  assert (∀ y, terminal (tasks σ1 y) = false ∧ (y ≠ w → state (tasks σ1 y) = state (tasks σ y)) ∧
    state (tasks σ1 w) ≠ TASK_BLOCKED_IRQ) as H1.
  { intros y. unfold σ1. case_bool_decide as Hb; [|done]. destruct (wakeup_state w σ y Hl) as (A1 & A2 & A3).
    split; [done|]. split; [done|]. by apply A3. }
  destruct (IH σ1) as (B1 & B2 & B3); [intros t; apply H1|]. split; [done|]. split.
  - rewrite not_elem_of_cons. intros [Hx Hxl]. rewrite B2 by done. by apply H1.
  - rewrite elem_of_cons. intros Hx. apply B3. destruct (decide (x = w)) as [->|Hxw]; [right; apply (H1 w)|].
    destruct (H1 x) as (_ & -> & _); [|done]. naive_solver.
Qed.

(** ** Each step keeps the invariant *)

Lemma start_inv s pc s' t W :
  winv (Cfg s pc) W →
  pc t = WRetry ∨ pc t = WIdle ∧ notif_queued s t = 0 ∧ (N.to_nat t < task_bound (sch s))%nat →
  wait_leave n t s = Ret s' → ∃ W', winv (Cfg s' (upd_fn pc t WLeft)) W'.
Proof.
  intros Hi Hpc Hrun. pose proof (remove_waiter s W n t (wi_ok _ _ Hi)) as Hrem. unfold wait_leave in Hrun.
  rewrite Hrun in Hrem. destruct Hrem as [Hok (F1 & F2 & F3 & F4 & F5)]. exists (upd_fn W n (without t (W n))).
  destruct Hi as [I1 I2 I3 I4 I5 I6 I7 I8]. cbn [c_ipc c_pc] in *.
  assert (∀ m, m ≠ n → t ∉ W m) as Hoth.
  { intros m Hm Hin. destruct Hpc as [Hp|(_ & H0 & _)]; [rewrite (I4 t m) in Hp by done; done|].
    destruct (nk_in _ _ I1 m t Hin) as [H1 _]. congruence. }
  split; cbn [c_ipc c_pc]; unfold st; rewrite ?F1, ?F5; try done.
  - intros x. rewrite upd_pc, upd_fn_same, elem_without. case_decide; [done|]. intros Hx. destruct (I2 x Hx). done.
  - intros x. rewrite upd_pc, upd_fn_same, elem_without. intros [Hx Hxt]. rewrite decide_False by done. by apply I3.
  - intros x m Hm. rewrite upd_pc, upd_fn_other by done. case_decide; [subst; intros Hx; by apply Hoth in Hx|]. by apply I4.
  - intros x. rewrite upd_pc. case_decide; [|apply I5]. subst. intros _. destruct Hpc as [Hp|(_ & _ & Hp)]; [|done].
    apply I5. by rewrite Hp.
  - intros _ _. exists t. by rewrite upd_pc, decide_True.
Qed.

Lemma park_inv s pc r s' t W :
  winv (Cfg s pc) W → pc t = WEmpty → wait_park n t s = Ret (r, s') →
  ∃ W', winv (Cfg s' (upd_fn pc t
    (if decide (r = IRIS_ERR_WOULD_BLOCK) then (if signal_bits (ntfs s n) =? 0 then WParked else WRetry) else WIdle))) W'.
Proof.
  intros Hi Hpc Hrun. assert (∀ m, t ∉ W m) as Hnq by (apply (not_queued _ _ _ Hi); cbn [c_pc]; by rewrite Hpc).
  pose proof (wi_bound _ _ Hi t) as Hb. cbn [c_ipc c_pc] in Hb.
  pose proof (park_spec s W n t (wi_ok _ _ Hi) Hnq ltac:(apply Hb; by rewrite Hpc)) as Hp. rewrite Hrun in Hp.
  destruct Hp as [(H0 & -> & ->)|[(H0 & Hc & -> & ->)|(H0 & Hc & -> & Hok & Hs & (_ & F2 & F3 & F4 & F5))]].
  - rewrite decide_True by done. rewrite (proj2 (Z.eqb_neq _ _) H0). exists W. apply upd_ntf_id.
    apply inv_bits; cbn [c_ipc c_pc]; rewrite ?Hpc; try done. by right.
  - rewrite decide_False by done. exists W. apply upd_ntf_id. apply inv_bits; cbn [c_ipc c_pc]; rewrite ?Hpc; try done. by left.
  - rewrite decide_True by done. rewrite H0. cbn [Z.eqb]. exists (upd_fn W n (W n ++ [t])).
    cbn [with_sch ntfs] in F2, F3, F4, F5. destruct Hi as [I1 I2 I3 I4 I5 I6 I7 I8]. cbn [c_ipc c_pc] in *.
    assert (∀ x, x ≠ t → st s' x = st s x) as Hst by (intros x Hx; unfold st; by rewrite Hs, tasks_upd, decide_False).
    split; cbn [c_ipc c_pc].
    + done.
    + intros x. rewrite upd_pc, upd_fn_same, elem_of_app, list_elem_of_singleton. case_decide as Hx.
      * subst. intros _. split; [by right|]. unfold st. by rewrite Hs, tasks_upd, decide_True.
      * intros Hp. destruct (I2 x Hp). rewrite Hst by done. split; [by left|done].
    + intros x. rewrite upd_pc, upd_fn_same, elem_of_app, list_elem_of_singleton. intros Hx.
      destruct (decide (x = t)) as [->|Hxt]; [by left|]. rewrite Hst by done. apply I3. naive_solver.
    + intros x m Hm. rewrite upd_pc, upd_fn_other by done. case_decide; [subst; intros Hx; by apply Hnq in Hx|]. by apply I4.
    + intros x. rewrite upd_pc, Hs. case_decide; [subst; intros _; apply I5; by rewrite Hpc|apply I5].
    + intros x. rewrite Hs, tasks_upd. case_decide; [subst; apply I6|apply I6].
    + by rewrite F5.
    + by rewrite F3, H0.
Qed.

(** A step that wakes threads of the queue of [n]: those that are still blocked
    afterwards are the ones in the new queue. *)
Lemma rouse_inv s pc W s' W' l :
  winv (Cfg s pc) W → ntf_ok s' W' → sch s' = wake_each l (sch s) → (∀ m, m ≠ n → W' m = W m) →
  (∀ x, x ∈ W n → x ∈ W' n ∨ x ∈ l) → (∀ x, x ∈ W' n → x ∈ W n) → bound_tcb (ntfs s' n) = None →
  (signal_bits (ntfs s' n) ≠ 0 → (∃ t, rouse pc s' t = WParked) →
     ∃ u, rouse pc s' u ≠ WIdle ∧ rouse pc s' u ≠ WParked) →
  winv (Cfg s' (rouse pc s')) W'.
Proof.
  intros [I1 I2 I3 I4 I5 I6 I7 I8] Hok Hs Hoth Hsup Hsub Hb Hw. cbn [c_ipc c_pc] in *.
  assert (∀ x, terminal (tasks (sch s') x) = false ∧ (x ∉ l → st s' x = st s x) ∧
    (x ∈ l ∨ st s x ≠ TASK_BLOCKED_IRQ → st s' x ≠ TASK_BLOCKED_IRQ)) as Hst.
  { intros x. unfold st. rewrite Hs. by apply wake_each_state. }
  assert (∀ x, rouse pc s' x = WParked → pc x = WParked ∧ st s' x = TASK_BLOCKED_IRQ) as Hr.
  { intros x. unfold rouse. destruct (decide _) as [|Hn]; [done|]. intros Hp. split; [done|].
    destruct (decide (st s' x = TASK_BLOCKED_IRQ)); [done|]. exfalso. by apply Hn. }
  assert (∀ x, rouse pc s' x = pc x ∨ rouse pc s' x = WRetry ∧ pc x = WParked ∧ st s' x ≠ TASK_BLOCKED_IRQ) as Hr'.
  { intros x. unfold rouse. destruct (decide _) as [[? ?]|]; [by right|by left]. }
  split; cbn [c_ipc c_pc]; try done.
  - intros x [Hp Hbl]%Hr. split; [|done]. destruct (I2 x Hp) as [Hin _]. destruct (Hsup x Hin) as [|Hl]; [done|].
    exfalso. destruct (Hst x) as (_ & _ & H). by apply H; [left|].
  - intros x Hx%Hsub. destruct (Hr' x) as [->|(-> & _ & ?)]; [|by right].
    destruct (I3 x Hx) as [Hp|[Hp Hnb]].
    + destruct (decide (st s' x = TASK_BLOCKED_IRQ)) as [|Hnb]; [by left|].
      destruct (Hr' x) as [He|(He & _)]; unfold rouse in He; rewrite decide_True in He by done; [congruence|].
      left. done.
    + right. split; [done|]. apply Hst. by right.
  - intros x m Hm. rewrite Hoth by done. intros Hx. pose proof (I4 x m Hm Hx) as Hp.
    destruct (Hr' x) as [->|(_ & Hp' & _)]; [done|congruence].
  - intros x Hx. rewrite Hs, wake_each_bound. apply I5. destruct (Hr' x) as [<-|(_ & -> & _)]; done.
  - intros x. apply Hst.
Qed.

(** A woken thread is on its way. *)
Lemma rouse_woken pc s' w : pc w = WParked → st s' w ≠ TASK_BLOCKED_IRQ → rouse pc s' w = WRetry.
Proof. intros. unfold rouse. by rewrite decide_True. Qed.

Lemma rouse_parked pc s' x : rouse pc s' x = WParked → pc x = WParked.
Proof. unfold rouse. by destruct (decide _). Qed.

Lemma signal_inv s pc s' b W :
  winv (Cfg s pc) W → knotification_signal n b s = Ret s' → ∃ W', winv (Cfg s' (rouse pc s')) W'.
Proof.
  intros Hi Hrun. pose proof (signal_spec s W n b (wi_ok _ _ Hi) (wi_unbound _ _ Hi)) as Hs. rewrite Hrun in Hs.
  destruct Hs as (W' & ws & Hok & Hoth & Ha & Hsch & Hb). exists W'.
  pose proof Hi as [I1 I2 I3 I4 I5 I6 I7 I8]. cbn [c_ipc c_pc] in *.
  remember (view s W n) as a eqn:Ea. remember (view s' W' n) as a' eqn:Ea'. remember (OpSignal b) as op eqn:Eop.
  assert (∀ m, m ≠ n → W' m = W m) as HW by (intros m Hm; by apply Hoth).
  destruct Ha as [b' bits q|b' bits q Hq|b' bits q1 w q2 Hq1 Hw| | | | |]; try done; injection Ea as A1 A2 A3; injection Ea' as B1 B2 B3.
  - eapply rouse_inv; [exact Hi|done|exact Hsch|done|rewrite <-A3, <-B3; by left|by rewrite <-A3, <-B3|done|].
    rewrite <-B1, A1. intros H0 [x Hx%rouse_parked]. destruct (I8 H0) as [u Hu]; [by exists x|]. exists u.
    unfold rouse. destruct (decide _) as [[Hp _]|]; [|done]. naive_solver.
  - eapply rouse_inv; [exact Hi|done|exact Hsch|done|rewrite <-A3, <-B3; by left|by rewrite <-A3, <-B3|done|].
    intros _ [x Hx%rouse_parked]. exfalso. destruct (I2 x Hx) as [Hin Hbl]. rewrite <-A3 in Hin.
    rewrite Forall_forall in Hq. specialize (Hq x Hin). cbv beta in Hq. unfold blocked in Hq. apply bool_decide_eq_false in Hq. done.
  - assert (w ∈ W n) as Hin by (rewrite <-A3; apply elem_of_app; right; left).
    unfold blocked in Hw. apply bool_decide_eq_true in Hw.
    assert (pc w = WParked) as Hpw by (destruct (I3 w Hin) as [|[_ ?]]; done).
    eapply rouse_inv; [exact Hi|done|exact Hsch|done| | |done|].
    + intros x. rewrite <-A3, <-B3, list_elem_of_singleton, !elem_of_app, elem_of_cons. tauto.
    + intros x. rewrite <-A3, <-B3, !elem_of_app, elem_of_cons. tauto.
    + intros _ _. exists w. rewrite rouse_woken; [done|done|]. unfold st. rewrite Hsch.
      apply wake_each_state; [done|]. left. by apply list_elem_of_singleton.
Qed.

Lemma close_inv s pc s' W :
  winv (Cfg s pc) W → knotif_waiters_wake_all n (upd_ntf n set_closed s) = Ret s' →
  ∃ W', winv (Cfg s' (rouse pc s')) W'.
Proof.
  intros Hi Hrun. set (s1 := upd_ntf n set_closed s) in *.
  assert (ntf_ok s1 W) as Hok1 by (apply ok_ntf; [done|apply Hi]).
  pose proof (wake_all_spec s1 W n Hok1) as Hs. rewrite Hrun in Hs. destruct Hs as (Hok & Hsch & Hn & _).
  exists (upd_fn W n []). pose proof (wi_unbound _ _ Hi) as Hb. cbn [c_ipc] in Hb.
  eapply rouse_inv; [exact Hi|done|exact Hsch|by intros m Hm; apply upd_fn_other|by right| | |].
  - intros x. rewrite upd_fn_same. by intros ?%not_elem_of_nil.
  - rewrite Hn, upd_fn_same. cbn [set_queue bound_tcb s1 upd_ntf with_ntfs ntfs]. by rewrite upd_fn_same.
  - intros _ [x Hx]. exfalso. pose proof Hx as Hp%rouse_parked. destruct (wi_parked _ _ Hi x Hp) as [Hin _].
    revert Hx. rewrite rouse_woken; [done|done|]. unfold st. rewrite Hsch. apply wake_each_state; [apply Hi|by left].
Qed.

Lemma resume_inv s pc t W (s' := on_sch (task_wakeup t) s) :
  winv (Cfg s pc) W → pc t = WParked → winv (Cfg s' (rouse pc s')) W.
Proof.
  intros Hi Hpc. destruct (wi_parked _ _ Hi t Hpc) as [Hin Hbl]. cbn [c_ipc] in Hbl. unfold st in Hbl.
  assert (sch s' = wake_each [t] (sch s)) as Hs.
  { unfold wake_each. cbn [foldl]. by rewrite bool_decide_true. }
  eapply rouse_inv; [exact Hi| |exact Hs|done|by left|done|apply Hi|].
  - apply ok_sch; [apply wakeup_bound|apply Hi].
  - intros _ _. exists t. rewrite rouse_woken; [done|done|]. unfold st. rewrite Hs.
    apply wake_each_state; [apply Hi|]. left. by apply list_elem_of_singleton.
Qed.

Lemma poll_inv s pc W : winv (Cfg s pc) W → winv (Cfg (knotification_poll n s).2 pc) W.
Proof.
  intros Hi. unfold knotification_poll. destruct (signal_bits (ntfs s n) =? 0); [done|].
  destruct Hi as [I1 I2 I3 I4 I5 I6 I7 I8]. cbn [c_ipc c_pc take_bits snd] in *.
  split; cbn [c_ipc c_pc]; try done; [by apply ok_ntf|..];
    cbn [upd_ntf with_ntfs ntfs]; rewrite upd_fn_same; done.
Qed.

Lemma other_inv (f : sched → sched) s pc W :
  winv (Cfg s pc) W → task_bound (f (sch s)) = task_bound (sch s) →
  (∀ t, terminal (tasks (f (sch s)) t) = terminal (tasks (sch s) t) ∧
        (state (tasks (f (sch s)) t) = TASK_BLOCKED_IRQ ↔ state (tasks (sch s) t) = TASK_BLOCKED_IRQ)) →
  winv (Cfg (on_sch f s) pc) W.
Proof.
  intros [I1 I2 I3 I4 I5 I6 I7 I8] Hb Hf. cbn [c_ipc c_pc] in *.
  split; cbn [c_ipc c_pc]; unfold st in *; cbn [on_sch with_sch sch ntfs]; try done.
  - by apply ok_sch.
  - intros x Hx. destruct (Hf x) as [_ ->]. by apply I2.
  - intros x Hx. destruct (Hf x) as [_ ->]. by apply I3.
  - rewrite Hb. done.
  - intros x. destruct (Hf x) as [-> _]. apply I6.
Qed.

Lemma tstep_inv t c c' W : winv c W → tstep t c c' → ∃ W', winv c' W'.
Proof.
  intros Hi Hs. destruct Hs as [s pc s' Hpc Hrun|s pc Hpc|s pc Hpc|s pc r s' Hpc Hrun].
  - by eapply start_inv.
  - exists W. apply upd_ntf_id. apply inv_bits; cbn [c_ipc c_pc]; rewrite ?Hpc; try done; [by destruct (_ =? 0)|].
    right. split; [done|]. by destruct (_ =? 0).
  - exists W. cbn [take_bits fst snd]. apply inv_bits; rewrite ?Hpc; try done; [by destruct (_ =? 0)|]. by left.
  - by eapply park_inv.
Qed.

Lemma wstep_inv c c' W : winv c W → wstep c c' → ∃ W', winv c' W'.
Proof.
  intros Hi Hs. destruct Hs as [t c c' Ht|b s pc s' Hr|s pc|s pc s' Hr|t s pc Hp|f s pc Hb Hf].
  - by eapply tstep_inv.
  - by eapply signal_inv.
  - exists W. by apply poll_inv.
  - by eapply close_inv.
  - exists W. by apply resume_inv.
  - exists W. by apply other_inv.
Qed.

Lemma wsteps_inv c c' : rtc wstep c c' → ∀ W, winv c W → ∃ W', winv c' W'.
Proof.
  induction 1 as [|c1 c2 c3 Hs _ IH]; intros W Hi; [by exists W|].
  destruct (wstep_inv _ _ _ Hi Hs) as [W' Hi']. by apply (IH W').
Qed.

(** ** A thread on its way takes the bits, alone, in at most five steps *)

Lemma pass_load s pc u W :
  winv (Cfg s pc) W → signal_bits (ntfs s n) ≠ 0 → pc u = WLeft ∨ pc u = WLoaded →
  ∃ c', rtc (tstep u) (Cfg s pc) c' ∧ signal_bits (ntfs (c_ipc c') n) = 0 ∧ c_pc c' u = WIdle.
Proof.
  intros Hi H0 Hpc.
  assert (∀ pc, pc u = WLoaded → ∃ c', tstep u (Cfg s pc) c' ∧ signal_bits (ntfs (c_ipc c') n) = 0 ∧ c_pc c' u = WIdle) as Hx.
  { intros pc' Hp. eexists. split; [by apply ts_exchange|]. cbn [take_bits fst snd c_ipc c_pc upd_ntf with_ntfs ntfs].
    rewrite (proj2 (Z.eqb_neq _ _) H0), !upd_fn_same. done. }
  destruct Hpc as [Hp|Hp].
  - destruct (Hx (upd_fn pc u WLoaded)) as (c' & H1 & H2); [apply upd_fn_same|]. exists c'. split; [|done].
    eapply rtc_l; [by apply ts_load|]. rewrite (proj2 (Z.eqb_neq _ _) H0). by apply rtc_once.
  - destruct (Hx pc Hp) as (c' & H1 & H2). exists c'. split; [by apply rtc_once|done].
Qed.

Lemma pass_retry s pc u W :
  winv (Cfg s pc) W → signal_bits (ntfs s n) ≠ 0 → pc u = WRetry →
  ∃ c', rtc (tstep u) (Cfg s pc) c' ∧ signal_bits (ntfs (c_ipc c') n) = 0 ∧ c_pc c' u = WIdle.
Proof.
  intros Hi H0 Hp. pose proof (remove_waiter s W n u (wi_ok _ _ Hi)) as Hrem.
  destruct (knotif_waiters_remove n u s) as [s'| |] eqn:Hrun; [|done..]. destruct Hrem as [_ (_ & _ & F3 & _)].
  destruct (start_inv s pc s' u W Hi) as [W' Hi']; [by left|done|].
  destruct (pass_load s' (upd_fn pc u WLeft) u W' Hi') as (c' & H1 & H2); [by rewrite F3|left; apply upd_fn_same|].
  exists c'. split; [|done]. eapply rtc_l; [|exact H1]. apply ts_start; [by left|done].
Qed.

Lemma pass_all c u W :
  winv c W → signal_bits (ntfs (c_ipc c) n) ≠ 0 → c_pc c u ≠ WIdle → c_pc c u ≠ WParked →
  ∃ c', rtc (tstep u) c c' ∧ signal_bits (ntfs (c_ipc c') n) = 0 ∧ c_pc c' u = WIdle.
Proof.
  destruct c as [s pc]. intros Hi H0 H1 H2. cbn [c_ipc c_pc] in *. destruct (pc u) eqn:Hp; try done.
  - eapply pass_load; eauto.
  - eapply pass_load; eauto.
  - assert (∀ m, u ∉ W m) as Hnq by (apply (not_queued _ _ _ Hi); cbn [c_pc]; by rewrite Hp).
    pose proof (wi_bound _ _ Hi u) as Hb. cbn [c_ipc c_pc] in Hb.
    pose proof (park_spec s W n u (wi_ok _ _ Hi) Hnq ltac:(apply Hb; by rewrite Hp)) as Hpk.
    destruct (wait_park n u s) as [[r s']| |] eqn:Hrun; [|done..].
    destruct Hpk as [(_ & -> & ->)|[(? & _)|(? & _)]]; [|done..].
    pose proof (ts_park u s pc _ _ Hp Hrun) as Hstep. destruct (park_inv s pc _ s u W Hi Hp Hrun) as [W' Hi'].
    rewrite decide_True in Hstep, Hi' by done. rewrite (proj2 (Z.eqb_neq _ _) H0) in Hstep, Hi'.
    destruct (pass_retry s (upd_fn pc u WRetry) u W' Hi' H0) as (c' & R1 & R2); [apply upd_fn_same|].
    exists c'. split; [|done]. by eapply rtc_l.
  - eapply pass_retry; eauto.
Qed.
End interleaving.

(** The notification is open for business: nobody waits, no thread is bound to it
    or being torn down. *)
Record quiet n s W : Prop := Quiet {
  qt_ok    : ntf_ok s W;
  qt_none  : W n = [];
  qt_live  : ∀ t, terminal (tasks (sch s) t) = false;
  qt_free  : bound_tcb (ntfs s n) = None;
}.

(** C21: No wake-up is lost on a notification without a bound thread, while no thread
    is being killed.  From a state with an empty queue, however the atomic sections of
    any number of waiting threads interleave with signals, polls, closing, spurious
    resumptions and the scheduler: whenever bits are pending while some thread is
    blocked waiting for them, another thread is already on its way to collect them - it
    was woken or never blocked - and running alone it has them after finitely many of
    its own steps.  The two conditions are needed.  A signal is one locked section only
    when no thread is bound: with one, the bits are taken out and put back
    outside the lock.  And a woken thread that is killed before it runs leaves the
    bits pending with the other waiters asleep. *)
Theorem knotification_no_lost_wakeup n s W c :
  quiet n s W → rtc (wstep n) (Cfg s (λ _, WIdle)) c →
  signal_bits (ntfs (c_ipc c) n) ≠ 0 → (∃ t, c_pc c t = WParked) →
  ∃ u c', c_pc c u ≠ WIdle ∧ c_pc c u ≠ WParked ∧ rtc (tstep n u) c c' ∧
    signal_bits (ntfs (c_ipc c') n) = 0 ∧ c_pc c' u = WIdle.
Proof.
  intros [Q1 Q2 Q3 Q4] Hsteps H0 Hp.
  assert (winv n (Cfg s (λ _, WIdle)) W) as Hi.
  { split; cbn [c_ipc c_pc]; try done; [|by intros _ [t Ht]]. intros t. rewrite Q2. by intros ?%not_elem_of_nil. }
  destruct (wsteps_inv n _ _ Hsteps W Hi) as [W' Hi']. destruct (wi_wake _ _ _ Hi' H0 Hp) as (u & Hu1 & Hu2).
  destruct (pass_all n c u W' Hi' H0 Hu1 Hu2) as (c' & H1 & H2 & H3). by exists u, c'.
Qed.

(** ** Witness: threads 7 and 9 park, and one signal wakes thread 7 *)

Definition got (d : ipc) (m : res ipc) : ipc := match m with Ret s => s | _ => d end.
Definition got2 (d : iris_error_t * ipc) (m : res (iris_error_t * ipc)) := match m with Ret p => p | _ => d end.
Lemma got_ret {A} (f : res A → A) (m : res A) :
  (∀ a, f (Ret a) = a) → match m with Ret _ => true | _ => false end = true → m = Ret (f m).
Proof. intros Hf. destruct m; [by rewrite Hf|done..]. Qed.

Definition ps0 (c : config) t : config :=
  Cfg (got (c_ipc c) (wait_leave 3 t (c_ipc c))) (upd_fn (c_pc c) t WLeft).
Definition ps1 (c : config) t : config :=
  Cfg (c_ipc c) (upd_fn (c_pc c) t (if signal_bits (ntfs (c_ipc c) 3) =? 0 then WEmpty else WLoaded)).
Definition ps2 (c : config) t : config :=
  let p := got2 (IRIS_OK, c_ipc c) (wait_park 3 t (c_ipc c)) in
  Cfg p.2 (upd_fn (c_pc c) t (if decide (p.1 = IRIS_ERR_WOULD_BLOCK)
     then (if signal_bits (ntfs (c_ipc c) 3) =? 0 then WParked else WRetry) else WIdle)).
Definition two_parked : config :=
  ps2 (ps1 (ps0 (ps2 (ps1 (ps0 (Cfg ipc0 (λ _, WIdle)) 7%N) 7%N) 7%N) 9%N) 9%N) 9%N.
Definition one_woken : config :=
  let s' := got (c_ipc two_parked) (knotification_signal 3 1 (c_ipc two_parked)) in
  Cfg s' (rouse (c_pc two_parked) s').

Lemma parks c t :
  c_pc c t = WIdle → notif_queued (c_ipc c) t = 0 → (N.to_nat t < task_bound (sch (c_ipc c)))%nat →
  match wait_leave 3 t (c_ipc c) with Ret _ => true | _ => false end = true →
  c_pc (ps1 (ps0 c t) t) t = WEmpty →
  match wait_park 3 t (c_ipc (ps1 (ps0 c t) t)) with Ret _ => true | _ => false end = true →
  rtc (wstep 3) c (ps2 (ps1 (ps0 c t) t) t).
Proof.
  intros H1 H2 H3 H4 H5 H6. apply rtc_l with (ps0 c t); [|apply rtc_l with (ps1 (ps0 c t) t); [|apply rtc_once]].
  - destruct c as [s pc]. apply (ws_thread 3 t), ts_start; [by right|]. by apply got_ret.
  - apply (ws_thread 3 t). refine (ts_load 3 t (c_ipc (ps0 c t)) (c_pc (ps0 c t)) _). apply upd_fn_same.
  - apply (ws_thread 3 t). set (c1 := ps1 (ps0 c t) t) in *.
    destruct c1 as [s1 pc1]. cbn [c_ipc c_pc] in *. unfold ps2. cbn [c_ipc c_pc].
    apply (ts_park 3 t s1 pc1); [done|]. rewrite <-surjective_pairing. by apply got_ret.
Qed.

Lemma signals c (s' := got (c_ipc c) (knotification_signal 3 1 (c_ipc c))) :
  match knotification_signal 3 1 (c_ipc c) with Ret _ => true | _ => false end = true →
  wstep 3 c (Cfg s' (rouse (c_pc c) s')).
Proof. intros H. destruct c as [s pc]. apply (ws_signal 3 1). by apply got_ret. Qed.

Lemma knotification_no_lost_wakeup_witness :
  signal_bits (ntfs (c_ipc one_woken) 3) = 1 ∧ c_pc one_woken 9%N = WParked ∧
  ∃ u c', c_pc one_woken u ≠ WIdle ∧ c_pc one_woken u ≠ WParked ∧ rtc (tstep 3 u) one_woken c' ∧
    signal_bits (ntfs (c_ipc c') 3) = 0 ∧ c_pc c' u = WIdle.
Proof.
  assert (signal_bits (ntfs (c_ipc one_woken) 3) = 1) as Hb by (vm_compute; reflexivity).
  assert (c_pc one_woken 9%N = WParked) as Hp by (vm_compute; reflexivity).
  split; [done|]. split; [done|].
  apply (knotification_no_lost_wakeup 3 ipc0 (λ _, [])).
  - split; [apply ipc0_ok|done| |done]. intros t. cbn [ipc0 sch RunqSpec.sched0 tasks]. by case_decide.
  - etrans; [apply (parks (Cfg ipc0 (λ _, WIdle)) 7); vm_compute; first [reflexivity|lia]|].
    etrans; [apply (parks (ps2 (ps1 (ps0 (Cfg ipc0 (λ _, WIdle)) 7%N) 7%N) 7%N) 9); vm_compute; first [reflexivity|lia]|].
    apply rtc_once. apply (signals two_parked). vm_compute. reflexivity.
  - by rewrite Hb.
  - by exists 9%N.
Defined.
