(* ===== verification/IrqDelivery.v ===== *)
(** * Interrupts and signals to a bound thread

    A signal that finds no waiter goes to the thread bound to the notification,
    even while that thread is blocked receiving on an endpoint.  This file proves
    the removal of a thread from the middle of an endpoint's queue and composes it
    with the signal and with the interrupt route in front of it. *)

From Stdlib Require Import ZArith Lia.
From stdpp Require Import base numbers gmap list.
From S2P Require Import Prelude Rights Runq RunqInv RunqSpec SchedSpec Wq Ipc Knotification KnotifSpec.
Local Open Scope Z_scope.
Implicit Types (s : ipc) (n m t w x : N) (e : N) (l E : list N) (W : N → list N).

Lemma chain_mid (f : N → option N) o l1 y l2 : chain f o (l1 ++ y :: l2) → f y = head l2.
Proof.
  revert o. induction l1 as [|z l1 IH]; intros o Hc; inversion Hc as [|? ? Hc']; subst.
  - by apply chain_head in Hc'.
  - by apply (IH (f z)).
Qed.

(** The predecessor of [t] is the only thread whose link leads to it. *)
Lemma find_before nx h tl l1 q t l2 fuel prev :
  wq_rep nx h tl ((l1 ++ [q]) ++ t :: l2) → (length (l1 ++ [q]) < fuel)%nat →
  ∃ p', wq_find fuel (λ x, bool_decide (nx x = Some t)) nx prev h = Ret (p', Some q).
Proof.
  intros [Hc _ Hnd] Hl. rewrite <-app_assoc in Hc, Hnd. cbn [app] in Hc, Hnd.
  eexists. eapply wq_find_some; [exact Hc| | |rewrite length_app in Hl; lia].
  - apply Forall_forall. intros y (a & b & ->)%list_elem_of_split. apply bool_decide_false.
    rewrite <-app_assoc in Hc, Hnd. cbn [app] in Hc, Hnd. apply chain_mid in Hc as ->. intros Hh.
    apply NoDup_app in Hnd as (_ & _ & Hnd). apply NoDup_cons in Hnd as [_ Hnd].
    destruct b as [|z b]; cbn [app head] in Hh; injection Hh as ->.
    + apply NoDup_cons in Hnd as [Hnd _]. apply Hnd. left.
    + apply NoDup_cons in Hnd as [Hnd _]. apply Hnd. apply elem_of_app. right. right. left.
  - apply bool_decide_true. by apply (chain_mid _ h l1 q (t :: l2)).
Qed.

(** What leaving an endpoint's queue does to its head, tail and links. *)
Record ep_left e t E s s' : Prop := EpLeft {
  el_queue : wq_rep (upd_fn (ep_next s') t None) (ep_head (eps s' e)) (ep_tail (eps s' e)) (without t E);
  el_idle  : without t E = [] → ep_state (eps s' e) = EP_STATE_IDLE;
  el_state : without t E ≠ [] → ep_state (eps s' e) = ep_state (eps s e);
  el_same  : s' = with_eps (eps s') (with_epq (ep_next s') (blocking_ep s) s);
  el_eps   : ∀ d, d ≠ e → eps s' d = eps s d;
  el_links : ∀ x, x ∉ E → ep_next s' x = ep_next s x;
  el_close : ep_closed (eps s' e) = ep_closed (eps s e);
}.

Lemma unqueue_spec s e t E :
  wq_rep (ep_next s) (ep_head (eps s e)) (ep_tail (eps s e)) E → t ∈ E →
  (∀ x, x ∈ E → (N.to_nat x < task_bound (sch s))%nat) →
  returns (unqueue_ep t e s) (λ r, ∃ s', r = Some s' ∧ ep_left e t E s s').
Proof.
  intros Hq (l1 & l2 & ->)%list_elem_of_split Hb.
  assert (without t (l1 ++ t :: l2) = l1 ++ l2) as Hwo by (apply without_split; apply Hq).
  destruct (wq_cut (ep_next s) (ep_head (eps s e)) (ep_tail (eps s e)) (last l1) t) as [[nx h] tl] eqn:Hcut.
  destruct (wq_cut_rep _ _ _ _ _ _ _ _ _ Hq Hcut) as (Hrep & _). unfold wq_cut in Hcut.
  unfold unqueue_ep. destruct (decide (ep_head (eps s e) = Some t)) as [Hh|Hh].
  - assert (l1 = []) as ->.
    { destruct l1 as [|y l1]; [done|]. pose proof (wq_chain _ _ _ _ Hq) as Hc. inversion Hc; subst.
      rewrite Hh in *. pose proof (wq_nodup _ _ _ _ Hq) as Hnd. simplify_eq.
      apply NoDup_cons in Hnd as [Hnd _]. exfalso. apply Hnd. apply elem_of_app. right. left. }
    cbn [last] in Hcut. injection Hcut as <- <- <-. cbn [app] in *. cbn [returns].
    pose proof (chain_mid _ _ [] t l2 (wq_chain _ _ _ _ Hq)) as Hn.
    pose proof (wq_last _ _ _ _ Hq) as Htl.
    eexists. split; [done|]. split; cbn [with_eps eps ep_next]; rewrite ?upd_fn_same, ?Hwo.
    + rewrite Hn in *. destruct l2 as [|y l2]; cbn [head ep_head ep_tail] in *.
      * rewrite Htl in Hrep. cbn [last] in Hrep. by rewrite decide_True in Hrep.
      * rewrite Htl in Hrep |- *. rewrite last_cons_cons in Hrep |- *.
        rewrite decide_False in Hrep; [done|]. intros Hl%last_Some_elem_of.
        pose proof (wq_nodup _ _ _ _ Hq) as Hnd. by apply NoDup_cons in Hnd as [Hnd _].
    + intros ->. by rewrite Hn.
    + intros Hne. rewrite Hn. by destruct l2.
    + by destruct s.
    + intros d Hd. by apply upd_fn_other.
    + done.
    + by destruct (ep_next s t).
  - destruct l1 as [|q l1 _] using rev_ind.
    { pose proof (wq_chain _ _ _ _ Hq) as Hc. apply chain_head in Hc. done. }
    destruct (find_before _ _ _ _ _ _ _ (waitfuel s) None Hq) as [p' ->].
    { unfold waitfuel. apply Nat.lt_succ_r. apply bounded_length.
      - pose proof (wq_nodup _ _ _ _ Hq) as Hnd. by apply NoDup_app in Hnd as (Hnd & _).
      - intros x Hx. apply Hb. apply elem_of_app. by left. }
    rewrite last_snoc in Hcut. injection Hcut as <- <- <-. cbn [mbind res_bind returns].
    eexists. split; [done|].
    destruct (ep_head (eps s e)) as [hd|] eqn:Hhd.
    2:{ pose proof (wq_chain _ _ _ _ Hq) as Hc. apply chain_head in Hc. by destruct l1. }
    split; cbn [with_eps eps ep_next with_epq]; rewrite ?upd_fn_same, ?Hwo; cbn [ep_head ep_tail ep_state].
    + exact Hrep.
    + by destruct l1.
    + done.
    + by destruct s.
    + intros d Hd. by apply upd_fn_other.
    + intros x Hx. apply upd_fn_other. intros ->. apply Hx. apply elem_of_app. left. apply elem_of_app. right. left.
    + done.
Qed.

(** [t] is blocked receiving on endpoint [e], whose queue is [E]; the queue holds a
    reference on it beside its own. *)
Record in_endpoint s t e E : Prop := InEndpoint {
  ie_on    : blocking_ep s t = Some e;
  ie_state : st s t = TASK_BLOCKED_RECV;
  ie_queue : wq_rep (ep_next s) (ep_head (eps s e)) (ep_tail (eps s e)) E;
  ie_in    : t ∈ E;
  ie_bound : ∀ x, x ∈ E → (N.to_nat x < task_bound (sch s))%nat;
  ie_refs  : 2 ≤ trefs s t;
}.

(** The message a signal arrives as. *)
Definition notification_msg (bits : Z) : ipc_stage :=
  Stage IRIS_MSG_LABEL_NOTIFICATION [bits; 0; 0; 0] 1 0 IRIS_MSG_NO_CAP 0 0 IRIS_MSG_NO_CAP 0.

(** [t] left the endpoint with [bits], its reference given back. *)
Record delivered s t e E (bits : Z) s' : Prop := Delivered {
  dl_msg   : ipc_msg s' t = notification_msg bits ∧ ipc_msg_ready s' t = true;
  dl_wake  : sch s' = task_wakeup t (sch s) ∧ blocking_ep s' t = None;
  dl_queue : wq_rep (ep_next s') (ep_head (eps s' e)) (ep_tail (eps s' e)) (without t E);
  dl_idle  : without t E = [] → ep_state (eps s' e) = EP_STATE_IDLE;
  dl_refs  : trefs s' t = trefs s t - 1;
  dl_same  : ntfs s' = ntfs s ∧ nrefs s' = nrefs s ∧ irq_table s' = irq_table s;
}.

Lemma deliver_spec s t e E bits :
  in_endpoint s t e E →
  returns (kendpoint_deliver_notification t bits s) (λ '(d, s'), d = true ∧ delivered s t e E bits s').
Proof.
  intros [I1 I2 I3 I4 I5 I6]. unfold kendpoint_deliver_notification. rewrite I1, bool_decide_true by done. cbn [negb].
  apply returns_bind. eapply returns_mono; [by apply unqueue_spec|]. intros r (s1 & -> & [L1 L2 L3 L4 L5 _ _]).
  cbv zeta. unfold tcb_release. set (s2 := on_sch (task_wakeup t) _).
  assert (sch s2 = task_wakeup t (sch s) ∧ trefs s2 = trefs s ∧ ntfs s2 = ntfs s ∧ nrefs s2 = nrefs s ∧
    irq_table s2 = irq_table s) as (E1 & E2 & E3 & E4 & E5) by (unfold s2; by rewrite L4).
  rewrite E2, (proj2 (Z.leb_gt _ _)) by lia. cbn [mbind res_bind returns]. split; [done|].
  split; cbn [with_trefs ipc_msg ipc_msg_ready sch blocking_ep ep_next eps ntfs nrefs irq_table trefs];
    rewrite ?upd_fn_same; try done.
  - unfold s2. cbn [on_sch with_sch with_epclosed with_msg ipc_msg ipc_msg_ready]. by rewrite !upd_fn_same.
  - split; [done|]. unfold s2. cbn [on_sch with_sch with_epclosed with_msg with_epq blocking_ep]. by rewrite upd_fn_same.
Qed.

(** A signal that finds no blocked waiter, on a notification bound to [t]: [w] says
    whether [t] is blocked receiving on an endpoint. *)
Definition bound_signal s t n (bits : Z) (w : option (N * list N)) s' : Prop :=
  match w with
  | Some (e, E) =>
    ipc_msg s' t = notification_msg bits ∧ ipc_msg_ready s' t = true ∧ sch s' = task_wakeup t (sch s) ∧
    blocking_ep s' t = None ∧ trefs s' t = trefs s t - 1 ∧ signal_bits (ntfs s' n) = 0 ∧
    wq_rep (ep_next s') (ep_head (eps s' e)) (ep_tail (eps s' e)) (without t E) ∧
    (without t E = [] → ep_state (eps s' e) = EP_STATE_IDLE)
  | None =>
    sch s' = sch s ∧ ipc_msg s' = ipc_msg s ∧ trefs s' t = trefs s t ∧ signal_bits (ntfs s' n) = bits
  end.

Lemma signal_bound s W n t (b : Z) (w : option (N * list N)) (bits := Z.lor (signal_bits (ntfs s n)) b) :
  ntf_ok s W → Forall (λ x, blocked s x = false) (W n) → n_closed (ntfs s n) = false →
  bound_tcb (ntfs s n) = Some t → bits ≠ 0 → 1 ≤ trefs s t < 2 ^ 32 - 1 →
  match w with Some (e, E) => in_endpoint s t e E | None => st s t ≠ TASK_BLOCKED_RECV end →
  returns (knotification_signal n b s) (λ s', bound_signal s t n bits w s' ∧ nrefs s' = nrefs s ∧ irq_table s' = irq_table s).
Proof.
  intros Hok Hnb Hc Hb H0 Hr Hw. unfold knotification_signal. rewrite Hc. cbv zeta. set (s1 := or_bits n b s).
  assert (ntf_ok s1 W) as Hok1 by (by apply ok_ntf).
  assert (ntfs s1 n = set_bits bits (ntfs s n)) as En by apply upd_fn_same.
  apply returns_bind. eapply returns_mono; [apply (wake_one_spec s1 W n Hok1)|].
  intros [woke s2] [(-> & -> & _)|(l1 & x & l2 & _ & HW & _ & Hx & _)].
  2:{ exfalso. rewrite HW in Hnb. apply Forall_app in Hnb as [_ Hnb]. apply Forall_cons in Hnb as [Hnb _].
      unfold blocked, st in Hx, Hnb. change (sch s1) with (sch s) in Hx. congruence. }
  assert (bound_tcb (ntfs s1 n) = Some t) as -> by (by rewrite En). cbn [take_bits].
  set (s2 := tcb_retain t s1). change (ntfs s2 n) with (ntfs s1 n). rewrite En. cbn [set_bits signal_bits].
  rewrite (proj2 (Z.eqb_neq _ _) H0). set (s3 := upd_ntf n (set_bits 0) s2).
  assert (trefs s3 t = trefs s t + 1) as Ht3.
  { unfold s3, s2. cbn [upd_ntf with_ntfs tcb_retain with_trefs trefs s1 or_bits]. rewrite upd_fn_same. apply u32_id. lia. }
  assert (signal_bits (ntfs s3 n) = 0) as Hb3 by (unfold s3; cbn [upd_ntf with_ntfs ntfs]; by rewrite upd_fn_same).
  apply returns_bind, returns_bind. destruct w as [[e E]|].
  - assert (in_endpoint s3 t e E) as Hie.
    { destruct Hw as [I1 I2 I3 I4 I5 I6]. split; try done. rewrite Ht3. lia. }
    eapply returns_mono; [by apply deliver_spec|]. intros [d s4] [-> [D1 [D2 D2'] D3 D4 D5 (D6 & D7 & D8)]]. cbn [returns].
    unfold tcb_release. rewrite D5, Ht3, (proj2 (Z.leb_gt _ _)) by (destruct Hw; lia). cbn [returns].
    split; [|split; [exact D7|exact D8]]. unfold bound_signal.
    cbn [with_trefs ipc_msg ipc_msg_ready sch blocking_ep trefs ntfs ep_next eps].
    rewrite upd_fn_same, D6. destruct D1 as [-> ->]. rewrite D2. split; [done|]. split; [done|]. split; [done|]. split; [done|].
    split; [lia|]. done.
  - unfold kendpoint_deliver_notification. change (blocking_ep s3 t) with (blocking_ep s t).
    change (st s3 t) with (st s t). rewrite bool_decide_false by done. cbn [negb].
    destruct (blocking_ep s t) as [e|]; cbn [returns mbind res_bind]; unfold tcb_release;
      change (trefs (or_bits n bits s3) t) with (trefs s3 t); rewrite Ht3, (proj2 (Z.leb_gt _ _)) by lia; cbn [returns];
      (split; [|done]); unfold bound_signal; cbn [with_trefs sch ipc_msg trefs ntfs or_bits upd_ntf with_ntfs];
      rewrite !upd_fn_same; (split; [done|]); (split; [done|]); (split; [lia|]);
      change (upd_fn (ntfs s2) n _ n) with (ntfs s3 n); cbn [set_bits signal_bits]; rewrite Hb3; by rewrite Z.lor_0_l.
Qed.

(** C32: An interrupt reaches its driver and no signal is lost.  When the line is
    routed to a notification on which nobody waits and which is bound to a thread,
    the interrupt either takes that thread out of the endpoint it is blocked on -
    wherever it stands in that queue, which stays well formed - with every pending
    bit as its message, or, when the thread is not blocked there, leaves all the
    bits pending; references taken on the way are given back. *)
Theorem irq_reaches_bound_thread (irq : nat) s W n t (w : option (N * list N))
    (bits := Z.lor (signal_bits (ntfs s n)) (Z.shiftl 1 (Z.of_nat irq))) :
  (irq < IRQ_ROUTE_MAX)%nat → irq_table s irq = Some n → 1 ≤ nrefs s n < 2 ^ 32 - 1 →
  ntf_ok s W → Forall (λ x, blocked s x = false) (W n) → n_closed (ntfs s n) = false →
  bound_tcb (ntfs s n) = Some t → 0 ≤ signal_bits (ntfs s n) → 1 ≤ trefs s t < 2 ^ 32 - 1 →
  match w with Some (e, E) => in_endpoint s t e E | None => st s t ≠ TASK_BLOCKED_RECV end →
  returns (irq_routing_signal irq s) (λ '(r, s'), r = 0 ∧ nrefs s' n = nrefs s n ∧ bound_signal s t n bits w s').
Proof.
  intros Hirq Hn Hnr Hok Hnb Hc Hb Hpos Hr Hw. unfold irq_routing_signal.
  rewrite (proj2 (Nat.leb_gt _ _)) by done. rewrite Hn. set (s1 := knotif_retain n s).
  assert (nrefs s1 n = nrefs s n + 1) as Hn1.
  { unfold s1, knotif_retain. cbn [with_nrefs nrefs]. rewrite upd_fn_same. apply u32_id. lia. }
  assert (bits ≠ 0) as Hbits.
  { intros H0. apply Z.lor_eq_0_iff in H0 as [_ H0]. rewrite Z.shiftl_1_l in H0. pose proof (Z.pow_pos_nonneg 2 (Z.of_nat irq)). lia. }
  apply returns_bind. eapply returns_mono.
  { apply (signal_bound s1 W n t (Z.shiftl 1 (Z.of_nat irq)) w); try done.
    - by destruct Hok.
    - destruct w as [[e E]|]; [by destruct Hw|done]. }
  intros s2 (Hs & Hn2 & _). unfold knotification_free. rewrite Hn2, Hn1, (proj2 (Z.ltb_ge _ _)) by lia.
  set (s3 := with_nrefs _ s2). assert (nrefs s3 n = nrefs s n) as Hn3.
  { unfold s3. cbn [with_nrefs nrefs]. rewrite upd_fn_same. lia. }
  rewrite Hn3, (proj2 (Z.eqb_neq _ _)) by lia. cbn [mbind res_bind returns]. split; [done|]. split; [done|].
  destruct w as [[e E]|]; exact Hs.
Qed.

(** ** Witness: thread 7, second of three in the queue of endpoint 1, line 3 *)

Definition recv_task : task :=
  Task TASK_BLOCKED_RECV 100 0 0 None false 0 None 2 2 false None false false false.
Definition bound_ipc : ipc :=
  Ipc (with_tasks (λ t, if decide (t ∈ [5%N; 7%N; 9%N]) then recv_task else tasks sched0 t) sched0)
    (λ _, Ntf 1 false 0 (Some 7%N) None None None None)
    (λ _, Ep EP_STATE_RECV false (Some 5%N) (Some 9%N))
    None 0 (λ _, 1) (λ i, if decide (i = 3%nat) then Some 2%N else None) (λ _, false)
    (λ _, None) (λ _, 0) (λ _, None)
    (λ t, if decide (t = 5%N) then Some 7%N else if decide (t = 7%N) then Some 9%N else None)
    (λ _, Some 1%N) (λ _, Stage 0 [] 0 0 0 0 0 0 0) (λ _, false) (λ _, false) (λ _, 2).

Lemma irq_reaches_bound_thread_witness :
  returns (irq_routing_signal 3 bound_ipc) (λ '(r, s'),
    ipc_msg s' 7%N = notification_msg 9 ∧ state (tasks (sch s') 7%N) = TASK_READY ∧
    wq_rep (ep_next s') (ep_head (eps s' 1%N)) (ep_tail (eps s' 1%N)) [5%N; 9%N]).
Proof.
  assert (in_endpoint bound_ipc 7 1 [5%N; 7%N; 9%N]) as Hie.
  { split; try done.
    - split; [|done|].
      + constructor. change (ep_next bound_ipc 5) with (Some 7%N). constructor.
        change (ep_next bound_ipc 7) with (Some 9%N). constructor. constructor.
      + apply (bool_decide_unpack _). vm_compute. exact I.
    - right. left.
    - intros x Hx. repeat (apply elem_of_cons in Hx as [->|Hx]; [vm_compute; lia|]).
      by apply not_elem_of_nil in Hx. }
  assert (ntf_ok bound_ipc (λ _, [])) as Hok.
  { split; try done; [intros n; apply wq_empty|..]; intros n; intros; by match goal with H : _ ∈ [] |- _ => apply not_elem_of_nil in H end. }
  eapply returns_mono; [apply (irq_reaches_bound_thread 3 bound_ipc (λ _, []) 2 7 (Some (1%N, [5%N; 7%N; 9%N])));
    [vm_compute; lia|done|done|exact Hok|constructor|done|done|done|done|exact Hie]|].
  intros [r s'] (_ & _ & (H1 & _ & H3 & _ & _ & _ & H7 & _)). split; [exact H1|].
  split; [rewrite H3; vm_compute; reflexivity|exact H7].
Defined.
