(* ===== verification/Endpoint.v ===== *)
(** * Endpoints and replies: the operations

    kernel/core/syscall/syscall_endpoint.c, kernel/core/syscall/syscall_reply.c,
    kernel/new_core/src/kendpoint.c and kernel/new_core/src/kreply.c: synchronous
    message passing between threads.  The state joins the capability layer of
    [Kobject] (the references and the slots a message may carry), the queues and
    the scheduler of [Ipc], the fields of [struct task] that hold a message in
    flight, the reply objects and the physical memory of the IPC buffers.

    A function holds [ep->lock] (or [rp->lock]) over its critical section and does
    the rest outside; the model runs a handler as one step.  A handler that blocks
    returns [Park]: the thread is queued, its continuation is in its fields, and
    the syscall is entered again with [sc_reentry] set when it is woken.  Fault
    records and thread kills belong to other components and are recorded. *)

From Stdlib Require Import ZArith Lia.
From stdpp Require Import base numbers gmap list.
From S2P Require Import Prelude Rights Kobject Kcnode Cspace IpcCap Kschedctx Runq Wq Ipc Knotification IpcMsg.
Local Open Scope Z_scope.

#[global] Instance ep_state_eq_dec : EqDecision ep_state_t.
Proof. solve_decision. Defined.

(** ** State *)

(** [struct task], the fields of a message in flight. *)
Record ep_task := EpTask {
  troot          : task_root;       (* cspace_root and its guard *)
  sc_arg         : nat → Z;
  sc_ret         : nat → Z;
  sc_reentry     : bool;
  sc_held        : option N;        (* the endpoint a parked syscall holds *)
  ipc_buffer     : option ipc_frame;
  ep_cap_obj     : option N;
  ep_cap_rights  : Z;
  ep_cap_badge   : Z;
  ep_cap_src_cn  : option N;
  ep_cap_src_idx : N;
  ep_recv_slot   : Z;
  ep_call_mode   : bool;
  ep_fault_call  : bool;
  ep_reply_obj   : option N;
  ep_reply_val   : Z;
  pending_kreply : option N;
}.

Definition put_arg v e := EpTask (troot e) v (sc_ret e) (sc_reentry e) (sc_held e) (ipc_buffer e)
  (ep_cap_obj e) (ep_cap_rights e) (ep_cap_badge e) (ep_cap_src_cn e) (ep_cap_src_idx e)
  (ep_recv_slot e) (ep_call_mode e) (ep_fault_call e) (ep_reply_obj e) (ep_reply_val e) (pending_kreply e).
Definition put_ret v e := EpTask (troot e) (sc_arg e) v (sc_reentry e) (sc_held e) (ipc_buffer e)
  (ep_cap_obj e) (ep_cap_rights e) (ep_cap_badge e) (ep_cap_src_cn e) (ep_cap_src_idx e)
  (ep_recv_slot e) (ep_call_mode e) (ep_fault_call e) (ep_reply_obj e) (ep_reply_val e) (pending_kreply e).
Definition put_held v e := EpTask (troot e) (sc_arg e) (sc_ret e) (sc_reentry e) v (ipc_buffer e)
  (ep_cap_obj e) (ep_cap_rights e) (ep_cap_badge e) (ep_cap_src_cn e) (ep_cap_src_idx e)
  (ep_recv_slot e) (ep_call_mode e) (ep_fault_call e) (ep_reply_obj e) (ep_reply_val e) (pending_kreply e).
Definition put_cap o r b e := EpTask (troot e) (sc_arg e) (sc_ret e) (sc_reentry e) (sc_held e) (ipc_buffer e)
  o r b (ep_cap_src_cn e) (ep_cap_src_idx e)
  (ep_recv_slot e) (ep_call_mode e) (ep_fault_call e) (ep_reply_obj e) (ep_reply_val e) (pending_kreply e).
Definition put_src cn i e := EpTask (troot e) (sc_arg e) (sc_ret e) (sc_reentry e) (sc_held e) (ipc_buffer e)
  (ep_cap_obj e) (ep_cap_rights e) (ep_cap_badge e) cn i
  (ep_recv_slot e) (ep_call_mode e) (ep_fault_call e) (ep_reply_obj e) (ep_reply_val e) (pending_kreply e).
Definition put_slot v e := EpTask (troot e) (sc_arg e) (sc_ret e) (sc_reentry e) (sc_held e) (ipc_buffer e)
  (ep_cap_obj e) (ep_cap_rights e) (ep_cap_badge e) (ep_cap_src_cn e) (ep_cap_src_idx e)
  v (ep_call_mode e) (ep_fault_call e) (ep_reply_obj e) (ep_reply_val e) (pending_kreply e).
Definition put_call v e := EpTask (troot e) (sc_arg e) (sc_ret e) (sc_reentry e) (sc_held e) (ipc_buffer e)
  (ep_cap_obj e) (ep_cap_rights e) (ep_cap_badge e) (ep_cap_src_cn e) (ep_cap_src_idx e)
  (ep_recv_slot e) v (ep_fault_call e) (ep_reply_obj e) (ep_reply_val e) (pending_kreply e).
Definition put_fault v e := EpTask (troot e) (sc_arg e) (sc_ret e) (sc_reentry e) (sc_held e) (ipc_buffer e)
  (ep_cap_obj e) (ep_cap_rights e) (ep_cap_badge e) (ep_cap_src_cn e) (ep_cap_src_idx e)
  (ep_recv_slot e) (ep_call_mode e) v (ep_reply_obj e) (ep_reply_val e) (pending_kreply e).
Definition put_reply o v e := EpTask (troot e) (sc_arg e) (sc_ret e) (sc_reentry e) (sc_held e) (ipc_buffer e)
  (ep_cap_obj e) (ep_cap_rights e) (ep_cap_badge e) (ep_cap_src_cn e) (ep_cap_src_idx e)
  (ep_recv_slot e) (ep_call_mode e) (ep_fault_call e) o v (pending_kreply e).
Definition put_pending v e := EpTask (troot e) (sc_arg e) (sc_ret e) (sc_reentry e) (sc_held e) (ipc_buffer e)
  (ep_cap_obj e) (ep_cap_rights e) (ep_cap_badge e) (ep_cap_src_cn e) (ep_cap_src_idx e)
  (ep_recv_slot e) (ep_call_mode e) (ep_fault_call e) (ep_reply_obj e) (ep_reply_val e) v.

(** [struct KReply]. *)
Record KReply := Reply {
  r_caller   : option N;
  r_staged   : bool;
  donated_sc : option N;
  donated_to : option N;
}.

Record ek := Ek {
  kc     : kstate;
  ip     : ipc;
  th     : N → ep_task;
  rps    : N → KReply;
  phys   : Z → Z;                  (* physical memory, by byte *)
  faults : list (N * bool);        (* kfault_resolve(task, killed) *)
  kills  : list N;                 (* task_kill_external(task) *)
}.
Implicit Types (s : ek) (t u : N).

Definition with_kc v s := Ek v (ip s) (th s) (rps s) (phys s) (faults s) (kills s).
Definition with_ip v s := Ek (kc s) v (th s) (rps s) (phys s) (faults s) (kills s).
Definition with_th v s := Ek (kc s) (ip s) v (rps s) (phys s) (faults s) (kills s).
Definition with_rps v s := Ek (kc s) (ip s) (th s) v (phys s) (faults s) (kills s).
Definition with_phys v s := Ek (kc s) (ip s) (th s) (rps s) v (faults s) (kills s).
Definition with_fk f k s := Ek (kc s) (ip s) (th s) (rps s) (phys s) f k.

(** [t->field = v]; the staging of [t]; a step of the capability layer; a step of
    the queues. *)
Definition upd_th t (f : ep_task → ep_task) s : ek := with_th (upd_fn (th s) t (f (th s t))) s.
Definition on_ip (f : ipc → ipc) s : ek := with_ip (f (ip s)) s.
Definition msg s t : ipc_stage := ipc_msg (ip s) t.
Definition put_msg t m s : ek := on_ip (λ i, with_msg (upd_fn (ipc_msg i) t m) (ipc_msg_ready i) i) s.
Definition put_ready t v s : ek := on_ip (λ i, with_msg (ipc_msg i) (upd_fn (ipc_msg_ready i) t v) i) s.
Definition put_closed t v s : ek := on_ip (λ i, with_epclosed (upd_fn (ipc_ep_closed i) t v) i) s.
Definition put_state t v s : ek := on_ip (on_sch (upd_task t (set_state v))) s.
Definition wake t s : ek := on_ip (on_sch (task_wakeup t)) s.
Definition do_kc (f : kstate → res kstate) s : res ek := κ ← f (kc s); Ret (with_kc κ s).
Definition rel o s : res ek := do_kc (release o) s.
Definition rel_opt (o : option N) s : res ek := match o with Some o => rel o s | None => Ret s end.
Definition thold t s : ek := on_ip (tcb_retain t) s.
Definition tput t s : res ek := i ← tcb_release t (ip s); Ret (with_ip i s).
Definition cspace_of s t : option N := cspace_root (troot (th s t)).

(** What a syscall returns; [Park] is [syscall_request_restart]. *)
Inductive sysret := Err (e : iris_error_t) | Ok (v : Z) | Park.

(** ** The queue of an endpoint *)

(** [t = ep->queue_head; ep->queue_head = t->ep_next; ...; t->ep_next = 0;
    t->blocking_ep = 0].  A null head is a null dereference. *)
Definition ep_dequeue (ep : N) s : res (N * ek) :=
  let i := ip s in
  let k := eps i ep in
  match ep_head k with
  | None => Panic
  | Some t =>
      let k' := match ep_next i t with
                | None => Ep EP_STATE_IDLE (ep_closed k) None None
                | h => Ep (ep_state k) (ep_closed k) h (ep_tail k)
                end in
      let i := with_eps (upd_fn (eps i) ep k') i in
      let i := with_epq (upd_fn (ep_next i) t None) (upd_fn (blocking_ep i) t None) i in
      Ret (t, with_ip i s)
  end.

(** The thread goes to the end of the queue, which holds it, and blocks. *)
Definition ep_enqueue (ep : N) (stt : ep_state_t) t (b : task_state_t) s : ek :=
  let i := ip s in
  let k := eps i ep in
  let '(nx, h, tl) := wq_add (ep_next i) (ep_head k) (ep_tail k) t in
  let i := with_eps (upd_fn (eps i) ep (Ep stt (ep_closed k) h tl)) i in
  let i := with_epq nx (upd_fn (blocking_ep i) t (Some ep)) i in
  put_state t b (thold t (with_ip i s)).

(** ** Reply objects (kreply.c) *)

Definition upd_rp (r : N) (f : KReply → KReply) s : ek := with_rps (upd_fn (rps s) r (f (rps s r))) s.

Definition kfault_resolve t (killed : bool) s : ek := with_fk (faults s ++ [(t, killed)]) (kills s) s.
Definition task_kill_external t s : ek := with_fk (faults s) (kills s ++ [t]) s.

Definition kreply_abandon_caller (caller : option N) s : ek :=
  match caller with
  | None => s
  | Some c =>
      if ep_fault_call (th s c) then
        let s := kfault_resolve c true (upd_th c (put_fault false) s) in
        if terminal (tasks (sch (ip s)) c) then s else task_kill_external c s
      else wake c (put_closed c true s)
  end.

Definition kreply_obj_close (r : N) s : res ek :=
  let caller := r_caller (rps s r) in
  let s := upd_rp r (λ k, Reply None false (donated_sc k) (donated_to k)) s in
  let s := kreply_abandon_caller caller s in
  match caller with Some c => tput c s | None => Ret s end.

Definition kreply_alloc_at (mem : option N) s : option N * ek :=
  match mem with
  | None => (None, s)
  | Some r => (Some r, upd_rp r (λ _, Reply None false None None) (with_kc (kobject_init r KOBJ_REPLY 0 (kc s)) s))
  end.

Definition kreply_stage (r : N) s : iris_error_t * ek :=
  let k := rps s r in
  if r_staged k || bool_decide (is_Some (r_caller k)) then (IRIS_ERR_BUSY, s)
  else (IRIS_OK, upd_rp r (λ k, Reply (r_caller k) true (donated_sc k) (donated_to k)) s).

Definition kreply_unstage (r : N) s : ek :=
  let k := rps s r in
  if r_staged k && bool_decide (r_caller k = None)
  then upd_rp r (λ k, Reply (r_caller k) false (donated_sc k) (donated_to k)) s else s.

Definition kreply_bind_caller (r : N) caller s : iris_error_t * ek :=
  let k := rps s r in
  if negb (r_staged k) || bool_decide (is_Some (r_caller k)) then (IRIS_ERR_BUSY, s)
  else (IRIS_OK, thold caller (upd_rp r (λ k, Reply (Some caller) false (donated_sc k) (donated_to k)) s)).

(** [t->sched_ctx] and its accounting. *)
Definition set_sched_ctx v k := Task (state k) (priority k) (domain k) (home_cpu k) (rq_next k) (rq_queued k)
  (wake_tick k) v (ticks_left k) (time_slice k) (need_resched k) (timeout_ep k)
  (timeout_pending k) (on_cpu k) (terminal k).
Definition sctx s t : option N := sched_ctx (tasks (sch (ip s)) t).
Definition put_sctx t v s : ek := on_ip (on_sch (upd_task t (set_sched_ctx v))) s.
Definition flush_sc (i : N) s : ek :=
  on_ip (on_sch (λ c, with_scs (upd_fn (scs c) i (kschedctx_flush_run (scs c i))) c)) s.

Definition kreply_note_donation (r sc to : N) s : ek :=
  upd_rp r (λ k, Reply (r_caller k) (r_staged k) (Some sc) (Some to)) s.

Definition kreply_donate_on_call (r : N) sender receiver s : ek :=
  match sctx s receiver, sctx s sender with
  | None, Some sc =>
      let s := flush_sc sc s in
      let s := put_sctx receiver (Some sc) (put_sctx sender None s) in
      kreply_note_donation r sc receiver s
  | _, _ => s
  end.

Definition kreply_return_donation (r : N) (back_to : option N) s : res ek :=
  let sc := donated_sc (rps s r) in
  let to := donated_to (rps s r) in
  let s := upd_rp r (λ k, Reply (r_caller k) (r_staged k) None None) s in
  let s := match to with Some u => thold u s | None => s end in
  match sc with
  | None => match to with Some u => tput u s | None => Ret s end
  | Some sc =>
      let s := flush_sc sc s in
      match to with
      | None => Ret s
      | Some u =>
          if negb (bool_decide (sctx s u = Some sc)) then Ret s
          else
            let s := put_sctx u None s in
            s ← (match back_to with
                 | Some c => match sctx s c with None => Ret (put_sctx c (Some sc) s) | Some _ => rel sc s end
                 | None => rel sc s
                 end);
            tput u s
      end
  end.

Definition kreply_cancel_caller (r : N) s : res ek :=
  let caller := r_caller (rps s r) in
  let s := upd_rp r (λ k, Reply None (r_staged k) (donated_sc k) (donated_to k)) s in
  s ← kreply_return_donation r caller s;
  let s := kreply_abandon_caller caller s in
  match caller with Some c => tput c s | None => Ret s end.

(** ** Staging a transfer *)

(** The C locals [xfer_obj], [xfer_rights], [xfer_badge], [xfer_src_cn],
    [xfer_src_idx]: all null or a peeked capability. *)
Abbreviation xfer := (option staged).

Definition stage_peek t (cptr rts : Z) s : res ((iris_error_t + xfer) * ek) :=
  if cptr =? IRIS_MSG_NO_CAP then Ret (inr None, s)
  else
    '(r, κ) ← syscall_ipc_stage_cap_peek_badged (cspace_of s t) cptr rts (kc s);
    Ret (match r with inl e => inl e | inr c => inr (Some c) end, with_kc κ s).

(** [if (xfer_obj) { kobject_release(xfer_obj); syscall_ipc_stage_cap_release(...); }] *)
Definition stage_abort (x : xfer) s : res ek :=
  match x with
  | None => Ret s
  | Some c =>
      s ← rel (cap_obj c) s;
      do_kc (syscall_ipc_stage_cap_release (Some (cap_src_cn c))) s
  end.

(** [syscall_ipc_deliver_cap_routed(u, ...); ...; syscall_ipc_stage_cap_release(...)]:
    the discriminator, with [u]'s declaration consumed. *)
Definition deliver_to u (obj : option N) (rts b : Z) (cn : option N) (i : N) s : res (Z * ek) :=
  '(v, slot, κ) ← syscall_ipc_deliver_cap_routed (cspace_of s u) (ep_recv_slot (th s u)) obj rts b cn i (kc s);
  Ret (v, upd_th u (put_slot slot) (with_kc κ s)).
Definition drop_src (cn : option N) s : res ek := do_kc (syscall_ipc_stage_cap_release cn) s.

(** ** Sending *)

(** The receiver's copy of the message, the reply and cap fields cleared. *)
Definition clean_msg (m : ipc_stage) : ipc_stage := st_cap IRIS_MSG_NO_CAP (st_handle IRIS_MSG_NO_CAP m).

Definition bulk_to sender receiver s : ek :=
  let '(m, mem) := ipc_transfer_bulk (ipc_buffer (th s sender)) (ipc_buffer (th s receiver))
                     (buf_len (msg s sender)) (msg s receiver) (phys s) in
  with_phys mem (put_msg receiver m s).

(** [Some r]: done, with the syscall's result. *)
Definition ep_send_fastpath t ep s : res (option sysret * ek) :=
  let k := eps (ip s) ep in
  if ep_closed k || negb (bool_decide (ep_state k = EP_STATE_RECV)) then Ret (None, s)
  else
    '(u, s) ← ep_dequeue ep s;
    let s := put_ready u true (put_msg u (clean_msg (msg s t)) s) in
    s ← tput u (wake u s);
    s ← rel ep s;
    Ret (Some (Ok 0), s).

Definition ep_send_complete t s : res (sysret * ek) :=
  s ← rel_opt (sc_held (th s t)) s;
  let s := upd_th t (put_held None) s in
  s ← (match ep_cap_src_cn (th s t) with
       | None => Ret s
       | Some cn => s ← drop_src (Some cn) s; Ret (upd_th t (put_src None 0%N) s)
       end);
  if ipc_ep_closed (ip s) t then Ret (Err IRIS_ERR_CLOSED, put_closed t false s) else Ret (Ok 0, s).

(** The rendezvous of a sender with the receiver at the head of the queue; the
    message is in [t]'s staging, [x] is what it carries.  Shared by EP_SEND and
    EP_NB_SEND. *)
Definition send_rendezvous t ep (x : xfer) s : res (sysret * ek) :=
  '(u, s) ← ep_dequeue ep s;
  let s := put_ready u true (put_msg u (clean_msg (msg s t)) s) in
  let s := bulk_to t u s in
  s ← (match x with
       | None => Ret s
       | Some c =>
           '(v, s) ← deliver_to u (Some (cap_obj c)) (cap_rights c) (cap_badge c)
                       (Some (cap_src_cn c)) (cap_src_idx c) s;
           let s := put_msg u (st_crights (cap_rights c) (st_cap v (st_handle v (msg s u)))) s in
           drop_src (Some (cap_src_cn c)) s
       end);
  s ← tput u (wake u s);
  s ← rel ep s;
  Ret (Ok 0, s).

(** Queue as a sender, with the staged capability in the thread, and park. *)
Definition send_park t ep (x : xfer) s : ek :=
  let s := put_closed t false (put_ready t false s) in
  let s := upd_th t (λ e,
    match x with
    | None => put_src None 0%N (put_cap None 0 0 e)
    | Some c => put_src (Some (cap_src_cn c)) (cap_src_idx c)
                  (put_cap (Some (cap_obj c)) (cap_rights c) (cap_badge c) e)
    end) s in
  upd_th t (put_held (Some ep)) (ep_enqueue ep EP_STATE_SEND t TASK_BLOCKED_SEND s).

(** [attached_handle] of the staged message, cleared once it is peeked. *)
Definition peek_attached t s : res ((iris_error_t + xfer) * ek) :=
  let m := msg s t in
  '(r, s) ← stage_peek t (attached_handle m) (attached_rights m) s;
  Ret (r, match r with
          | inr (Some _) => put_msg t (st_handle IRIS_MSG_NO_CAP (msg s t)) s
          | _ => s
          end).

(** Resolution, load, badge stamp: the start of every send. *)
Definition send_enter t (arg0 : Z) s : res ((iris_error_t + N) * ek) :=
  '(r, κ) ← cspace_resolve_only_endpoint_badged (Some (troot (th s t))) (cspace_of s t) arg0 RIGHT_WRITE (kc s);
  let s := with_kc κ s in
  match r with
  | inl e => Ret (inl e, s)
  | inr (ep, _, badge) => Ret (inr ep, put_msg t (st_badge badge (ipc_msg_load (sc_arg (th s t)))) s)
  end.

Definition stage_out t s : iris_error_t * ek :=
  let '(e, m) := ipc_stage_out (ipc_buffer (th s t)) (msg s t) in (e, put_msg t m s).

Definition sys_ep_send t (arg0 : Z) s : res (sysret * ek) :=
  if bool_decide (cspace_of s t = None) then Ret (Err IRIS_ERR_INVALID_ARG, s)
  else if sc_reentry (th s t) then ep_send_complete t s
  else
    '(r, s) ← send_enter t arg0 s;
    match r with
    | inl e => Ret (Err e, s)
    | inr ep =>
        '(f, s) ← (if (attached_handle (msg s t) =? IRIS_MSG_NO_CAP) && (buf_len (msg s t) =? 0)
                   then ep_send_fastpath t ep s else Ret (None, s));
        match f with
        | Some r => Ret (r, s)
        | None =>
            let '(e, s) := stage_out t s in
            if negb (bool_decide (e = IRIS_OK)) then s ← rel ep s; Ret (Err IRIS_ERR_INVALID_ARG, s)
            else
              '(p, s) ← peek_attached t s;
              match p with
              | inl e => s ← rel ep s; Ret (Err e, s)
              | inr x =>
                  let k := eps (ip s) ep in
                  if ep_closed k then
                    s ← stage_abort x s; s ← rel ep s; Ret (Err IRIS_ERR_CLOSED, s)
                  else if bool_decide (ep_state k = EP_STATE_RECV) then send_rendezvous t ep x s
                  else Ret (Park, send_park t ep x s)
              end
        end
    end.

Definition sys_ep_nb_send t (arg0 : Z) s : res (sysret * ek) :=
  if bool_decide (cspace_of s t = None) then Ret (Err IRIS_ERR_INVALID_ARG, s)
  else
    '(r, s) ← send_enter t arg0 s;
    match r with
    | inl e => Ret (Err e, s)
    | inr ep =>
        let '(e, s) := stage_out t s in
        if negb (bool_decide (e = IRIS_OK)) then s ← rel ep s; Ret (Err IRIS_ERR_INVALID_ARG, s)
        else
          '(p, s) ← peek_attached t s;
          match p with
          | inl e => s ← rel ep s; Ret (Err e, s)
          | inr x =>
              let k := eps (ip s) ep in
              if ep_closed k then
                s ← stage_abort x s; s ← rel ep s; Ret (Err IRIS_ERR_CLOSED, s)
              else if negb (bool_decide (ep_state k = EP_STATE_RECV)) then
                s ← stage_abort x s; s ← rel ep s; Ret (Err IRIS_ERR_WOULD_BLOCK, s)
              else send_rendezvous t ep x s
          end
    end.

(** ** Receiving *)

Definition ep_recv_reply_stage t (reply_arg : Z) s : res (iris_error_t * ek) :=
  let s := upd_th t (put_reply None 0) s in
  if reply_arg =? 0 then Ret (IRIS_OK, s)
  else
    '(r, κ) ← cspace_resolve_only_reply (Some (troot (th s t))) (cspace_of s t) reply_arg RIGHT_WRITE (kc s);
    let s := with_kc κ s in
    match r with
    | inl e => Ret (e, s)
    | inr (rp, _, _) =>
        let '(e, s) := kreply_stage rp s in
        if negb (bool_decide (e = IRIS_OK)) then s ← rel rp s; Ret (e, s)
        else Ret (IRIS_OK, upd_th t (put_reply (Some rp) (u32 reply_arg)) s)
    end.

Definition ep_recv_reply_unstage t s : res ek :=
  match ep_reply_obj (th s t) with
  | None => Ret s
  | Some rp => rel rp (kreply_unstage rp (upd_th t (put_reply None 0) s))
  end.

(** [Some v]: bound, and [v] is what [attached_out] gets. *)
Definition ep_bind_call_reply receiver sender s : option Z * ek :=
  match ep_reply_obj (th s receiver) with
  | None => (None, s)
  | Some rp =>
      let '(e, s) := kreply_bind_caller rp sender s in
      if negb (bool_decide (e = IRIS_OK)) then (None, s)
      else
        let s := kreply_donate_on_call rp sender receiver s in
        let s := upd_th sender (put_pending (Some rp)) s in
        let v := ep_reply_val (th s receiver) in
        (Some v, upd_th receiver (put_reply None 0) s)
  end.

Definition ep_recv_fastpath t ep s : res (bool * ek) :=
  let k := eps (ip s) ep in
  if ep_closed k || negb (bool_decide (ep_state k = EP_STATE_SEND)) then Ret (false, s)
  else match ep_head k with
  | None => Panic
  | Some h =>
      if bool_decide (is_Some (ep_cap_obj (th s h))) || negb (buf_len (msg s h) =? 0) || ep_call_mode (th s h)
      then Ret (false, s)
      else
        '(u, s) ← ep_dequeue ep s;
        let s := put_msg t (clean_msg (msg s u)) s in
        s ← tput u (wake u s);
        Ret (true, s)
  end.

Definition store_msg t s : ek := upd_th t (λ e, put_ret (ipc_msg_store (msg s t) (sc_ret e)) e) s.

(** Taking the message of the sender [u].  [full] says whether the discriminator
    of a plain send goes to [attached_cap] too, as EP_RECV does and EP_NB_RECV
    does not. *)
Definition take_message (full : bool) t u s : res ek :=
  let s := put_msg t (clean_msg (msg s u)) s in
  let s := bulk_to u t s in
  let e := th s u in
  let s := upd_th u (λ e, put_src None 0%N (put_cap None 0 0 e)) s in
  let s := put_msg t (st_cap IRIS_MSG_NO_CAP (msg s t)) s in
  s ← (match ep_cap_obj e with
       | None => Ret s
       | Some _ =>
           '(v, s) ← deliver_to t (ep_cap_obj e) (ep_cap_rights e) (ep_cap_badge e)
                       (ep_cap_src_cn e) (ep_cap_src_idx e) s;
           let s := put_msg t (if ep_call_mode e then st_crights (ep_cap_rights e) (st_cap v (msg s t))
                               else if full then st_crights (ep_cap_rights e) (st_cap v (st_handle v (msg s t)))
                               else st_handle v (msg s t)) s in
           drop_src (ep_cap_src_cn e) s
       end);
  Ret (upd_th t (put_slot 0) s).

(** What becomes of the sender: a caller waits for its reply, a sender is done. *)
Definition take_sender t u s : ek :=
  if ep_call_mode (th s u) then
    let s := upd_th u (put_call false) s in
    match ep_bind_call_reply t u s with
    | (Some v, s) => put_state u TASK_BLOCKED_REPLY (put_msg t (st_handle v (msg s t)) s)
    | (None, s) => wake u (put_closed u true s)
    end
  else wake u s.

Definition take_rendezvous (full : bool) t ep s : res (sysret * ek) :=
  '(u, s) ← ep_dequeue ep s;
  s ← take_message full t u s;
  s ← tput u (take_sender t u s);
  s ← ep_recv_reply_unstage t s;
  s ← rel ep s;
  Ret (Ok 0, store_msg t s).

Definition ep_recv_complete t s : res (sysret * ek) :=
  s ← rel_opt (sc_held (th s t)) s;
  let s := upd_th t (λ e, put_slot 0 (put_held None e)) s in
  s ← ep_recv_reply_unstage t s;
  if ipc_ep_closed (ip s) t then Ret (Err IRIS_ERR_CLOSED, put_closed t false s)
  else Ret (Ok 0, store_msg t s).

Definition recv_park t ep s : ek :=
  let s := put_closed t false (put_ready t false s) in
  upd_th t (put_held (Some ep)) (ep_enqueue ep EP_STATE_RECV t TASK_BLOCKED_RECV s).

(** Resolution, slot declaration, reply staging: the start of every receive. *)
Definition recv_enter t (arg0 arg1 arg2 : Z) s : res ((iris_error_t + N) * ek) :=
  '(r, κ) ← cspace_resolve_only_endpoint (Some (troot (th s t))) (cspace_of s t) arg0 RIGHT_READ (kc s);
  let s := with_kc κ s in
  match r with
  | inl e => Ret (inl e, s)
  | inr (ep, _, _) =>
      '(e, slot, κ) ← syscall_ipc_recv_slot_declare (cspace_of s t) (u32 arg1) (kc s);
      let s := upd_th t (put_slot slot) (with_kc κ s) in
      if negb (bool_decide (e = IRIS_OK)) then s ← rel ep s; Ret (inl e, s)
      else
        '(e, s) ← ep_recv_reply_stage t arg2 s;
        if negb (bool_decide (e = IRIS_OK)) then s ← rel ep s; Ret (inl e, s)
        else Ret (inr ep, s)
  end.

(** The message of a bound notification found signalled on the way in. *)
Definition pending_msg (got : Z) : ipc_stage :=
  Stage IRIS_MSG_LABEL_NOTIFICATION [got; 0; 0; 0] 1 0 IRIS_MSG_NO_CAP 0 0 IRIS_MSG_NO_CAP 0.

Definition sys_ep_recv t (arg0 arg1 arg2 : Z) s : res (sysret * ek) :=
  if bool_decide (cspace_of s t = None) then Ret (Err IRIS_ERR_INVALID_ARG, s)
  else if sc_reentry (th s t) then ep_recv_complete t s
  else
    '(r, s) ← recv_enter t arg0 arg1 arg2 s;
    match r with
    | inl e => Ret (Err e, s)
    | inr ep =>
        '(f, s) ← ep_recv_fastpath t ep s;
        if (f : bool) then
          s ← ep_recv_reply_unstage t (upd_th t (put_slot 0) s);
          s ← rel ep s;
          Ret (Ok 0, store_msg t s)
        else
          let '(got, i) := knotification_take_pending (bound_notif (ip s) t) (ip s) in
          let s := with_ip i s in
          if negb (got =? 0) then
            s ← ep_recv_reply_unstage t s;
            let s := upd_th t (put_slot 0) s in
            s ← rel ep s;
            Ret (Ok 0, store_msg t (put_msg t (pending_msg got) s))
          else
            let k := eps (ip s) ep in
            if ep_closed k then
              s ← ep_recv_reply_unstage t s; s ← rel ep s; Ret (Err IRIS_ERR_CLOSED, s)
            else if bool_decide (ep_state k = EP_STATE_SEND) then
              match ep_head k with
              | None => Panic
              | Some h =>
                  if ep_call_mode (th s h) && bool_decide (ep_reply_obj (th s t) = None)
                  then s ← rel ep s; Ret (Err IRIS_ERR_NOT_SUPPORTED, s)
                  else take_rendezvous true t ep s
              end
            else Ret (Park, recv_park t ep s)
    end.

Definition sys_ep_nb_recv t (arg0 arg1 arg2 : Z) s : res (sysret * ek) :=
  if bool_decide (cspace_of s t = None) then Ret (Err IRIS_ERR_INVALID_ARG, s)
  else
    '(r, s) ← recv_enter t arg0 arg1 arg2 s;
    match r with
    | inl e => Ret (Err e, s)
    | inr ep =>
        let k := eps (ip s) ep in
        if ep_closed k || negb (bool_decide (ep_state k = EP_STATE_SEND)) then
          s ← ep_recv_reply_unstage t (upd_th t (put_slot 0) s);
          s ← rel ep s;
          Ret (Err (if ep_closed k then IRIS_ERR_CLOSED else IRIS_ERR_WOULD_BLOCK), s)
        else match ep_head k with
        | None => Panic
        | Some h =>
            if ep_call_mode (th s h) && bool_decide (ep_reply_obj (th s t) = None)
            then s ← rel ep (upd_th t (put_slot 0) s); Ret (Err IRIS_ERR_NOT_SUPPORTED, s)
            else take_rendezvous false t ep s
        end
    end.

(** ** Call and reply (syscall_reply.c) *)

Definition peek_call t s : res ((iris_error_t + xfer) * ek) :=
  let m := msg s t in
  '(r, s) ← stage_peek t (attached_cap m) (attached_cap_rights m) s;
  Ret (r, match r with inr _ => put_msg t (st_cap IRIS_MSG_NO_CAP (msg s t)) s | inl _ => s end).

(** The receiver is at the head of the queue with a reply object staged. *)
Definition call_rendezvous t ep (x : xfer) s : res (sysret * ek) :=
  '(u, s) ← ep_dequeue ep s;
  let s := put_ready u true (put_msg u (clean_msg (msg s t)) s) in
  let s := upd_th t (put_call false) (bulk_to t u s) in
  s ← (match x with
       | None => Ret s
       | Some c =>
           '(v, s) ← deliver_to u (Some (cap_obj c)) (cap_rights c) (cap_badge c)
                       (Some (cap_src_cn c)) (cap_src_idx c) s;
           let s := put_msg u (st_crights (cap_rights c) (st_cap v (msg s u))) s in
           drop_src (Some (cap_src_cn c)) s
       end);
  match ep_bind_call_reply u t s with
  | (None, s) => s ← tput u (wake u s); s ← rel ep s; Ret (Err IRIS_ERR_CLOSED, s)
  | (Some v, s) =>
      let s := put_msg u (st_handle v (msg s u)) s in
      s ← tput u (wake u s);
      Ret (Park, upd_th t (put_held (Some ep)) (put_state t TASK_BLOCKED_REPLY s))
  end.

Definition ep_call_complete t s : res (sysret * ek) :=
  s ← (match ep_cap_src_cn (th s t) with
       | None => Ret s
       | Some cn => s ← drop_src (Some cn) s; Ret (upd_th t (put_src None 0%N) s)
       end);
  s ← rel_opt (sc_held (th s t)) s;
  let s := upd_th t (put_held None) s in
  s ← rel_opt (pending_kreply (th s t)) s;
  let s := upd_th t (λ e, put_slot 0 (put_pending None e)) s in
  if ipc_ep_closed (ip s) t then Ret (Err IRIS_ERR_CLOSED, put_closed t false s)
  else Ret (Ok 0, upd_th t (λ e, put_ret (ipc_msg_store_reply (msg s t) (sc_ret e)) e) s).

Definition call_locked t ep (x : xfer) s : res (sysret * ek) :=
  let s := put_closed t false (upd_th t (put_call true) s) in
  let k := eps (ip s) ep in
  if ep_closed k then
    s ← stage_abort x (upd_th t (put_call false) s); s ← rel ep s; Ret (Err IRIS_ERR_CLOSED, s)
  else if bool_decide (ep_state k = EP_STATE_RECV) then
    match ep_head k with
    | None => Panic
    | Some h =>
        if bool_decide (ep_reply_obj (th s h) = None) then
          s ← stage_abort x (upd_th t (put_call false) s); s ← rel ep s; Ret (Err IRIS_ERR_NOT_SUPPORTED, s)
        else call_rendezvous t ep x s
    end
  else Ret (Park, send_park t ep x s).

Definition sys_ep_call t (arg0 : Z) s : res (sysret * ek) :=
  if bool_decide (cspace_of s t = None) then Ret (Err IRIS_ERR_INVALID_ARG, s)
  else if sc_reentry (th s t) then ep_call_complete t s
  else
    '(r, s) ← send_enter t arg0 s;
    match r with
    | inl e => Ret (Err e, s)
    | inr ep =>
        let call_recv := sc_arg (th s t) (1 + IRIS_MSGA_RECV)%nat in
        if negb (call_recv =? 0) && negb (cspace_value_is_cptr call_recv)
        then s ← rel ep s; Ret (Err IRIS_ERR_INVALID_ARG, s)
        else
          '(e, slot, κ) ← syscall_ipc_recv_slot_declare (cspace_of s t) (u32 call_recv) (kc s);
          let s := upd_th t (put_slot slot) (with_kc κ s) in
          if negb (bool_decide (e = IRIS_OK)) then s ← rel ep s; Ret (Err e, s)
          else
            let s := put_msg t (st_handle IRIS_MSG_NO_CAP (msg s t)) s in
            '(p, s) ← peek_call t s;
            match p with
            | inl e => s ← rel ep s; Ret (Err e, s)
            | inr x =>
                let '(e, s) := stage_out t s in
                if negb (bool_decide (e = IRIS_OK)) then s ← rel ep s; Ret (Err IRIS_ERR_INVALID_ARG, s)
                else call_locked t ep x s
            end
    end.

(** Once the caller [c] has been taken out of the reply object. *)
Definition reply_fault t rp c (x : xfer) s : res (sysret * ek) :=
  s ← stage_abort x (upd_th c (put_fault false) s);
  s ← kreply_return_donation rp (Some c) s;
  s ← rel_opt (pending_kreply (th s c)) s;
  let s := upd_th c (put_pending None) s in
  let s := wake c (kfault_resolve c false s) in
  s ← tput c s;
  s ← rel rp s;
  Ret (Ok 0, s).

Definition reply_deliver t rp c (reply_msg : ipc_stage) (x : xfer) s : res (sysret * ek) :=
  let s := put_msg c (st_badge 0 (clean_msg reply_msg)) s in
  s ← (match x with
       | None => Ret s
       | Some k =>
           '(v, s) ← deliver_to c (Some (cap_obj k)) (cap_rights k) (cap_badge k)
                       (Some (cap_src_cn k)) (cap_src_idx k) s;
           let s := put_msg c (st_hrights (cap_rights k) (st_handle v (msg s c))) s in
           drop_src (Some (cap_src_cn k)) s
       end);
  let '(m, mem) := ipc_transfer_reply (ipc_buffer (th s t)) (ipc_buffer (th s c))
                     (buf_len reply_msg) (msg s c) (phys s) in
  let s := with_phys mem (put_msg c m s) in
  s ← kreply_return_donation rp (Some c) s;
  s ← rel_opt (pending_kreply (th s c)) s;
  let s := wake c (upd_th c (put_pending None) s) in
  s ← tput c s;
  s ← rel rp s;
  Ret (Ok 0, s).

Definition sys_reply t (arg0 : Z) s : res (sysret * ek) :=
  if arg0 =? 0 then Ret (Err IRIS_ERR_INVALID_ARG, s)
  else if bool_decide (cspace_of s t = None) then Ret (Err IRIS_ERR_INVALID_ARG, s)
  else
    '(r, κ) ← cspace_resolve_only_reply (Some (troot (th s t))) (cspace_of s t) arg0 RIGHT_WRITE (kc s);
    let s := with_kc κ s in
    match r with
    | inl e => Ret (Err e, s)
    | inr (rp, _, _) =>
        let m := ipc_msg_load (sc_arg (th s t)) in
        let s := put_msg t m s in
        '(p, s) ← stage_peek t (attached_handle m) (attached_rights m) s;
        match p with
        | inl e => s ← rel rp s; Ret (Err e, s)
        | inr x =>
            let m := match x with Some _ => st_handle IRIS_MSG_NO_CAP m | None => m end in
            let caller := r_caller (rps s rp) in
            let s := upd_rp rp (λ k, Reply None (r_staged k) (donated_sc k) (donated_to k)) s in
            match caller with
            | None => s ← stage_abort x s; s ← rel rp s; Ret (Err IRIS_ERR_NOT_FOUND, s)
            | Some c =>
                if ep_fault_call (th s c) then reply_fault t rp c x s
                else reply_deliver t rp c m x s
            end
        end
    end.

(** [sc_arg[..] &= ~(0xFF << 4)]: the reply half carries no capability. *)
Definition sys_reply_recv t (arg0 arg2 : Z) s : res (sysret * ek) :=
  let recv := sc_arg (th s t) (1 + IRIS_MSGA_RECV)%nat in
  if sc_reentry (th s t) then sys_ep_recv t arg2 recv arg0 s
  else
    let s := upd_th t (λ e, put_arg (upd_fn (sc_arg e) (1 + IRIS_MSGA_INFO)%nat
               (Z.ldiff (sc_arg e (1 + IRIS_MSGA_INFO)%nat)
                  (Z.shiftl IRIS_MI_EXTRA_MASK IRIS_MI_EXTRA_SHIFT))) e) s in
    '(r, s) ← sys_reply t arg0 s;
    match r with
    | Err e => Ret (Err e, s)
    | _ => sys_ep_recv t arg2 (sc_arg (th s t) (1 + IRIS_MSGA_RECV)%nat) arg0 s
    end.

(** ** Faults *)

(** The result is whether the fault was delivered or queued. *)
Definition kendpoint_fault_call t ep (m : ipc_stage) s : res (bool * ek) :=
  let s := put_msg t (st_buf 0 (clean_msg m)) s in
  let s := put_closed t false (put_ready t false s) in
  let s := upd_th t (λ e, put_fault true (put_call true (put_slot 0 (put_src None 0%N (put_cap None 0 0 e))))) s in
  let k := eps (ip s) ep in
  if ep_closed k then Ret (false, upd_th t (λ e, put_fault false (put_call false e)) s)
  else
    let ready := bool_decide (ep_state k = EP_STATE_RECV) &&
      match ep_head k with Some h => bool_decide (is_Some (ep_reply_obj (th s h))) | None => false end in
    if ready then
      '(u, s) ← ep_dequeue ep s;
      let s := put_ready u true (put_msg u (st_cap IRIS_MSG_NO_CAP (msg s t)) s) in
      let s := upd_th t (put_call false) s in
      match ep_bind_call_reply u t s with
      | (Some v, s) =>
          let s := put_msg u (st_handle v (msg s u)) s in
          let s := wake u (put_state t TASK_BLOCKED_REPLY s) in
          s ← tput u s;
          Ret (true, s)
      | (None, s) =>
          s ← tput u (wake u s);
          Ret (false, upd_th t (put_fault false) s)
      end
    else Ret (true, ep_enqueue ep EP_STATE_SEND t TASK_BLOCKED_SEND s).

(** ** Cancelling and closing *)

Definition kendpoint_cancel_waiter t s : res ek :=
  match blocking_ep (ip s) t with
  | None => Ret s
  | Some ep =>
      r ← unqueue_ep t ep (ip s);
      let removed := bool_decide (is_Some r) in
      let i := match r with Some i => i | None => ip s end in
      let i := with_epq (upd_fn (ep_next i) t None) (upd_fn (blocking_ep i) t None) i in
      let s := with_ip i s in
      let e := th s t in
      let s := upd_th t (λ e, put_fault false (put_src None 0%N (put_cap None 0 0 e))) s in
      s ← rel_opt (ep_cap_obj e) s;
      s ← drop_src (ep_cap_src_cn e) s;
      if removed then tput t s else Ret s
  end.

Definition ep_drop_staged_cap t s : res ek :=
  match ep_cap_obj (th s t) with
  | None => Ret s
  | Some o => rel o (upd_th t (put_cap None 0 0) s)
  end.

(** The walk of [kendpoint_obj_close]: every waiter leaves the queue, onto the
    kill list if it is a faulting thread and the wake list otherwise. *)
Fixpoint close_walk (fuel : nat) (o : option N) (wl kl : option N) s : res (option N * option N * ek) :=
  match fuel with
  | O => NoFuel
  | S fuel =>
    match o with
    | None => Ret (wl, kl, s)
    | Some t =>
        let nxt := ep_next (ip s) t in
        let s := on_ip (λ i, with_epq (upd_fn (ep_next i) t None) (upd_fn (blocking_ep i) t None) i) s in
        let s := put_closed t true s in
        if ep_fault_call (th s t) then
          let s := upd_th t (λ e, put_call false (put_fault false e)) s in
          let s := on_ip (λ i, with_epq (upd_fn (ep_next i) t kl) (blocking_ep i) i) s in
          close_walk fuel nxt wl (Some t) s
        else
          let s := on_ip (λ i, with_epq (upd_fn (ep_next i) t wl) (blocking_ep i) i) s in
          close_walk fuel nxt (Some t) kl s
    end
  end.

Fixpoint close_wake (fuel : nat) (o : option N) s : res ek :=
  match fuel with
  | O => NoFuel
  | S fuel =>
    match o with
    | None => Ret s
    | Some w =>
        let nxt := ep_next (ip s) w in
        let s := on_ip (λ i, with_epq (upd_fn (ep_next i) w None) (blocking_ep i) i) s in
        s ← ep_drop_staged_cap w s;
        s ← tput w (wake w s);
        close_wake fuel nxt s
    end
  end.

Fixpoint close_kill (fuel : nat) (o : option N) s : res ek :=
  match fuel with
  | O => NoFuel
  | S fuel =>
    match o with
    | None => Ret s
    | Some k =>
        let nxt := ep_next (ip s) k in
        let s := on_ip (λ i, with_epq (upd_fn (ep_next i) k None) (blocking_ep i) i) s in
        s ← ep_drop_staged_cap k s;
        s ← tput k (task_kill_external k (kfault_resolve k true s));
        close_kill fuel nxt s
    end
  end.

Definition ep_fuel s : nat := waitfuel (ip s).

Definition kendpoint_obj_close ep s : res ek :=
  let k := eps (ip s) ep in
  let s := on_ip (λ i, with_eps (upd_fn (eps i) ep (Ep (ep_state k) true (ep_head k) (ep_tail k))) i) s in
  '(wl, kl, s) ← close_walk (ep_fuel s) (ep_head k) None None s;
  let s := on_ip (λ i, with_eps (upd_fn (eps i) ep (Ep EP_STATE_IDLE true None None)) i) s in
  s ← close_wake (ep_fuel s) wl s;
  close_kill (ep_fuel s) kl s.

Definition kendpoint_alloc_at (mem : option N) s : option N * ek :=
  match mem with
  | None => (None, s)
  | Some ep =>
      let s := with_kc (kobject_init ep KOBJ_ENDPOINT 0 (kc s)) s in
      (Some ep, on_ip (λ i, with_eps (upd_fn (eps i) ep (Ep EP_STATE_IDLE false None None)) i) s)
  end.

(** The walk of [sys_ep_cancel_badged_sends]: the senders with the badge leave
    the queue, chained through [notif_next]. *)
Fixpoint cancel_walk (fuel : nat) (ep : N) (badge : Z) (prev w woken : option N) (n : Z) s
    : res (option N * Z * ek) :=
  match fuel with
  | O => NoFuel
  | S fuel =>
    match w with
    | None => Ret (woken, n, s)
    | Some t =>
        let next := ep_next (ip s) t in
        if negb (sender_badge (msg s t) =? badge) then cancel_walk fuel ep badge (Some t) next woken n s
        else
          let k := eps (ip s) ep in
          let '(nx, h, tl) := wq_cut (ep_next (ip s)) (ep_head k) (ep_tail k) prev t in
          let s := on_ip (λ i, with_epq nx (upd_fn (blocking_ep i) t None)
                                 (with_eps (upd_fn (eps i) ep (Ep (ep_state k) (ep_closed k) h tl)) i)) s in
          let s := upd_th t (put_call false) (put_closed t true s) in
          let s := on_ip (λ i, with_nq (upd_fn (notif_next i) t woken) (notif_queued i) i) s in
          cancel_walk fuel ep badge prev next (Some t) (u32 (n + 1)) s
    end
  end.

Fixpoint cancel_wake (fuel : nat) (o : option N) s : res ek :=
  match fuel with
  | O => NoFuel
  | S fuel =>
    match o with
    | None => Ret s
    | Some w =>
        let nxt := notif_next (ip s) w in
        let s := on_ip (λ i, with_nq (upd_fn (notif_next i) w None) (notif_queued i) i) s in
        let e := th s w in
        let s := upd_th w (λ e, put_src None 0%N (put_cap None 0 0 e)) s in
        s ← rel_opt (ep_cap_obj e) s;
        s ← drop_src (ep_cap_src_cn e) s;
        s ← tput w (wake w s);
        cancel_wake fuel nxt s
    end
  end.

Definition sys_ep_cancel_badged_sends t (arg0 badge : Z) s : res (sysret * ek) :=
  if bool_decide (cspace_of s t = None) then Ret (Err IRIS_ERR_INVALID_ARG, s)
  else
    '(r, κ) ← cspace_resolve_only_endpoint_badged (Some (troot (th s t))) (cspace_of s t) arg0 RIGHT_WRITE (kc s);
    let s := with_kc κ s in
    match r with
    | inl e => Ret (Err e, s)
    | inr (ep, _, inv_badge) =>
        if negb (inv_badge =? 0) then s ← rel ep s; Ret (Err IRIS_ERR_ACCESS_DENIED, s)
        else
          let k := eps (ip s) ep in
          '(woken, n, s) ← (if bool_decide (ep_state k = EP_STATE_SEND)
                            then cancel_walk (ep_fuel s) ep badge None (ep_head k) None 0 s
                            else Ret (None, 0, s));
          let k := eps (ip s) ep in
          let s := if bool_decide (ep_state k = EP_STATE_SEND) && bool_decide (ep_head k = None)
                   then on_ip (λ i, with_eps (upd_fn (eps i) ep (Ep EP_STATE_IDLE (ep_closed k) None None)) i) s
                   else s in
          s ← cancel_wake (ep_fuel s) woken s;
          s ← rel ep s;
          Ret (Ok n, s)
    end.
