(* ===== verification/EndpointInv.v ===== *)
(** * Endpoints: what holds what

    Two invariants of the state of [Endpoint], with one lemma per building block
    of the handlers.

    [acct ll la s]: every lifecycle reference the endpoint code holds is recorded
    in a thread (a staged capability and its source CNode, the endpoint of a parked
    syscall, a staged or bound reply object, a scheduling context) or is one of
    the running handler's locals [ll]; likewise the active references and [la].
    Together with what the rest of the kernel holds ([ext], [exta]) and the slots
    they are exactly the counts, which is [kinv].

    [qok s q]: the queue of endpoint [e] is the list [q e], all of its threads
    are blocked in the direction the endpoint's state says, and a thread is in a
    queue exactly when its [blocking_ep] says so. *)

From Stdlib Require Import ZArith Lia.
From stdpp Require Import base numbers gmap list.
From S2P Require Import Prelude Rights Forest Mdb Cdt Kobject Kcnode KcnodeInv KcnodeInstall Cspace IpcCap.
From S2P Require Import Kschedctx Runq RunqInv RunqSpec SchedSpec Wq Ipc Knotification IpcMsg Endpoint.
Local Open Scope Z_scope.
Implicit Types (s : ek) (t u o : N) (κ : kstate).

(** ** Counting *)

Definition olist {A} (x : option A) : list A := match x with Some a => [a] | None => [] end.

Definition is1 (x o : N) : Z := if decide (o = x) then 1 else 0.
Definition cnt (l : list N) o : Z := foldr (λ x a, is1 x o + a) 0 l.
Definition tot (f : N → Z) (l : list N) : Z := foldr (λ t a, f t + a) 0 l.

Lemma cnt_nil o : cnt [] o = 0.
Proof. done. Qed.
Lemma cnt_cons x l o : cnt (x :: l) o = is1 x o + cnt l o.
Proof. done. Qed.

Lemma cnt_app l1 l2 o : cnt (l1 ++ l2) o = cnt l1 o + cnt l2 o.
Proof. unfold cnt. induction l1 as [|x l1 IH]; simpl; [lia|]. rewrite IH. lia. Qed.

Lemma cnt_bounds l o : 0 ≤ cnt l o ≤ Z.of_nat (length l).
Proof. induction l as [|x l IH]; simpl; [lia|]. unfold is1 in *. case_decide; lia. Qed.

Lemma cnt_perm l1 l2 o : l1 ≡ₚ l2 → cnt l1 o = cnt l2 o.
Proof. unfold cnt. induction 1; simpl; lia. Qed.

Lemma cnt_out l o : o ∉ l → cnt l o = 0.
Proof.
  induction l as [|x l IH]; [done|]. intros [H1 H2]%not_elem_of_cons. simpl. rewrite IH by done.
  unfold is1. by rewrite decide_False.
Qed.

Lemma tot_ext f g l : (∀ t, t ∈ l → g t = f t) → tot g l = tot f l.
Proof.
  unfold tot. induction l as [|x l IH]; intros H; [done|]. simpl. rewrite H by left. rewrite IH; [done|].
  intros t Ht. apply H. by right.
Qed.

Lemma tot_upd f g l t : NoDup l → t ∈ l → (∀ u, u ≠ t → g u = f u) → tot g l = tot f l - f t + g t.
Proof.
  intros Hnd. revert t. induction Hnd as [|x l Hx Hnd IH]; intros t Ht Hg; [by apply not_elem_of_nil in Ht|].
  unfold tot. simpl. fold (tot f l) (tot g l). destruct (decide (t = x)) as [->|Hne].
  - rewrite (tot_ext f g l); [lia|]. intros u Hu. apply Hg. by intros ->.
  - apply elem_of_cons in Ht as [?|Ht]; [done|]. rewrite (IH t Ht Hg), (Hg x) by congruence. lia.
Qed.

Lemma tot_upd2 f g l t u : NoDup l → t ∈ l → u ∈ l → t ≠ u → (∀ x, x ≠ t → x ≠ u → g x = f x) →
  tot g l = tot f l - f t - f u + g t + g u.
Proof.
  intros Hnd Ht Hu Hne Hg. set (h := λ x, if decide (x = t) then g t else f x).
  rewrite (tot_upd h g l u Hnd Hu), (tot_upd f h l t Hnd Ht); unfold h.
  - rewrite decide_True, decide_False by done. lia.
  - intros x Hx. by rewrite decide_False.
  - intros x Hx. case_decide as E; [by rewrite E|by apply Hg].
Qed.

Lemma tot_bounds f l c : 0 ≤ c → (∀ t, 0 ≤ f t ≤ c) → 0 ≤ tot f l ≤ c * Z.of_nat (length l).
Proof.
  intros Hc H. unfold tot. induction l as [|x l IH]; cbn [foldr length]; [lia|]. specialize (H x).
  rewrite Nat2Z.inj_succ. lia.
Qed.

(** ** Accounting *)

(** The references recorded in thread [t]. *)
Definition held s t : list N :=
  let e := th s t in
  olist (ep_cap_obj e) ++ olist (ep_cap_src_cn e) ++ olist (sc_held e) ++
  olist (ep_reply_obj e) ++ olist (pending_kreply e) ++ olist (sctx s t).
Definition helda s t : list N := olist (ep_cap_src_cn (th s t)).

Record world := World {
  L     : list N;        (* the threads *)
  ext   : N → Z;         (* lifecycle references held elsewhere *)
  exta  : N → Z;         (* active references held elsewhere *)
}.

Record world_ok (W : world) : Prop := WorldOk {
  w_nodup : NoDup (L W);
  w_len   : Z.of_nat (length (L W)) ≤ 2 ^ 24;
  w_ext   : ∀ o, 0 ≤ ext W o ≤ 2 ^ 28;
  w_exta  : ∀ o, 0 ≤ exta W o ≤ 2 ^ 28;
}.

Definition baseL W s o : Z := ext W o + tot (λ t, cnt (held s t) o) (L W).
Definition baseA W s o : Z := exta W o + tot (λ t, cnt (helda s t) o) (L W).

Record acct W (ll la : list N) s : Prop := Acct {
  ac_kinv : kinv (λ o, baseL W s o + cnt ll o) (λ o, baseA W s o + cnt la o) (kc s);
  ac_mem  : Z.of_nat (size (mem (mdb (kc s)))) ≤ 2 ^ 30;
}.

Section acct.
Context (W : world) (HW : world_ok W).
Implicit Types (ll la : list N).

Lemma olist_len {A} (x : option A) : (length (olist x) ≤ 1)%nat.
Proof. destruct x; simpl; lia. Qed.

Lemma base_bounds s o : 0 ≤ ext W o ≤ baseL W s o ∧ 0 ≤ exta W o ≤ baseA W s o ∧
  baseL W s o ≤ 2 ^ 29 ∧ baseA W s o ≤ 2 ^ 29.
Proof.
  pose proof (w_ext _ HW o). pose proof (w_exta _ HW o). pose proof (w_len _ HW). unfold baseL, baseA.
  assert (∀ t, 0 ≤ cnt (held s t) o ≤ 6) as B1.
  { intros t. pose proof (cnt_bounds (held s t) o). unfold held in *. rewrite !length_app in *.
    pose proof (olist_len (ep_cap_obj (th s t))). pose proof (olist_len (ep_cap_src_cn (th s t))).
    pose proof (olist_len (sc_held (th s t))). pose proof (olist_len (ep_reply_obj (th s t))).
    pose proof (olist_len (pending_kreply (th s t))). pose proof (olist_len (sctx s t)). lia. }
  assert (∀ t, 0 ≤ cnt (helda s t) o ≤ 6) as B2.
  { intros t. pose proof (cnt_bounds (helda s t) o). pose proof (olist_len (ep_cap_src_cn (th s t))).
    unfold helda in *. lia. }
  pose proof (tot_bounds _ (L W) 6 ltac:(lia) B1). pose proof (tot_bounds _ (L W) 6 ltac:(lia) B2). lia.
Qed.

Lemma acct_pos ll la s : ∀ x, 0 ≤ baseL W s x + cnt ll x ∧ 0 ≤ baseA W s x + cnt la x.
Proof. intros x. pose proof (base_bounds s x). pose proof (cnt_bounds ll x). pose proof (cnt_bounds la x). lia. Qed.

Lemma acct_room ll la s :
  acct W ll la s → (length ll ≤ 8)%nat → (length la ≤ 8)%nat → xfer_headroom (kc s).
Proof.
  intros [Hκ Hm] H1 H2 o k Hk. destruct (ki_refs _ _ _ Hκ o k Hk) as (E1 & E2 & _).
  pose proof (base_bounds s o). pose proof (cnt_bounds ll o). pose proof (cnt_bounds la o).
  pose proof (anames_le_names (mdb (kc s)) o).
  assert (names (mdb (kc s)) o ≤ size (mem (mdb (kc s))))%nat.
  { unfold names. apply subseteq_size. intros x. rewrite elem_of_filter. tauto. }
  assert (0 ≤ KcnodeInv.queued (kc s) o ≤ 1) by (unfold KcnodeInv.queued; case_decide; lia).
  change (2 ^ 32) with 4294967296. change (2 ^ 30) with 1073741824 in *. change (2 ^ 29) with 536870912 in *. lia.
Qed.

(** Moving a reference between the locals and a thread, or nowhere: what is
    counted does not change. *)
Lemma acct_move ll la ll' la' s s' :
  acct W ll la s → kc s' = kc s →
  (∀ o, baseL W s' o + cnt ll' o = baseL W s o + cnt ll o) →
  (∀ o, baseA W s' o + cnt la' o = baseA W s o + cnt la o) → acct W ll' la' s'.
Proof. intros [Hκ Hm] Hk H1 H2. split; rewrite Hk; [|done]. by eapply kinv_ext; [exact H1|exact H2|]. Qed.

(** The threads record the same references. *)
Definition same_held s s' : Prop := ∀ t, held s' t = held s t ∧ helda s' t = helda s t.

Lemma same_base s s' o : same_held s s' → baseL W s' o = baseL W s o ∧ baseA W s' o = baseA W s o.
Proof.
  intros H. unfold baseL, baseA. split; f_equal; apply tot_ext; intros t _; destruct (H t) as [E1 E2]; by rewrite ?E1, ?E2.
Qed.

Lemma acct_same ll la s s' : acct W ll la s → kc s' = kc s → same_held s s' → acct W ll la s'.
Proof.
  intros Ha Hk Hs. eapply acct_move; [exact Ha|exact Hk|..]; intros o; destruct (same_base s s' o Hs); lia.
Qed.

(** One thread's record changes. *)
Lemma base_upd s s' t o :
  t ∈ L W → (∀ u, u ≠ t → held s' u = held s u ∧ helda s' u = helda s u) →
  baseL W s' o = baseL W s o - cnt (held s t) o + cnt (held s' t) o ∧
  baseA W s' o = baseA W s o - cnt (helda s t) o + cnt (helda s' t) o.
Proof.
  intros Ht H. unfold baseL, baseA.
  rewrite (tot_upd (λ u, cnt (held s u) o) (λ u, cnt (held s' u) o) (L W) t), (tot_upd (λ u, cnt (helda s u) o) (λ u, cnt (helda s' u) o) (L W) t);
    [lia|apply HW|done|..|apply HW|done|]; intros u Hu; destruct (H u Hu) as [E1 E2]; by rewrite ?E1, ?E2.
Qed.

Lemma acct_upd ll la ll' la' s s' t :
  acct W ll la s → t ∈ L W → kc s' = kc s →
  (∀ u, u ≠ t → held s' u = held s u ∧ helda s' u = helda s u) →
  (∀ o, cnt (held s' t) o + cnt ll' o = cnt (held s t) o + cnt ll o) →
  (∀ o, cnt (helda s' t) o + cnt la' o = cnt (helda s t) o + cnt la o) → acct W ll' la' s'.
Proof.
  intros Ha Ht Hk Ho H1 H2. eapply acct_move; [exact Ha|exact Hk|..]; intros o;
    destruct (base_upd s s' t o Ht Ho); specialize (H1 o); specialize (H2 o); lia.
Qed.

(** Two threads' records change. *)
Lemma acct_upd2 ll la ll' la' s s' t u :
  acct W ll la s → t ∈ L W → u ∈ L W → t ≠ u → kc s' = kc s →
  (∀ v, v ≠ t → v ≠ u → held s' v = held s v ∧ helda s' v = helda s v) →
  (∀ o, cnt (held s' t) o + cnt (held s' u) o + cnt ll' o = cnt (held s t) o + cnt (held s u) o + cnt ll o) →
  (∀ o, cnt (helda s' t) o + cnt (helda s' u) o + cnt la' o = cnt (helda s t) o + cnt (helda s u) o + cnt la o) →
  acct W ll' la' s'.
Proof.
  intros Ha Ht Hu Hne Hk Ho H1 H2. eapply acct_move; [exact Ha|exact Hk|..]; intros o; unfold baseL, baseA.
  - rewrite (tot_upd2 (λ x, cnt (held s x) o) (λ x, cnt (held s' x) o) (L W) t u); [specialize (H1 o); lia|apply HW|done..|].
    intros x Hx Hy. by destruct (Ho x Hx Hy) as [-> _].
  - rewrite (tot_upd2 (λ x, cnt (helda s x) o) (λ x, cnt (helda s' x) o) (L W) t u); [specialize (H2 o); lia|apply HW|done..|].
    intros x Hx Hy. by destruct (Ho x Hx Hy) as [_ ->].
Qed.
End acct.

(** A step of the capability layer. *)
Definition kc_only s s' : Prop := s' = with_kc (kc s') s.

Lemma kc_only_held s s' : kc_only s s' → same_held s s'.
Proof. intros H. rewrite H. by intros t. Qed.

Lemma live_root_mono κ hl ha hl' ha' (root : option N) :
  (∀ x, hl x ≤ hl' x) → (∀ x, ha x ≤ ha' x) → live_root κ hl ha root → live_root κ hl' ha' root.
Proof.
  intros Hl Ha. destruct root as [r|]; [|done]. intros [[H1 H2]|H]; [left|by right].
  specialize (Hl r). specialize (Ha r). lia.
Qed.

Ltac cnt_lia := intros; unfold hold, nil_refs in *; cbn [olist app] in *;
  repeat first [rewrite cnt_app|rewrite cnt_cons|rewrite cnt_nil]; unfold is1; repeat case_decide; subst; try done; lia.

Section steps.
Context (W : world) (HW : world_ok W).
Implicit Types (ll la : list N).

(** The root of a thread is anchored by what the endpoint code does not touch. *)
Definition root_ok s t : Prop := live_root (kc s) (ext W) (exta W) (cspace_of s t).

Lemma root_base ll la s t :
  root_ok s t → live_root (kc s) (λ o, baseL W s o + cnt ll o) (λ o, baseA W s o + cnt la o) (cspace_of s t).
Proof.
  apply live_root_mono; intros x; destruct (base_bounds W HW s x) as (? & ? & _);
    [pose proof (cnt_bounds ll x)|pose proof (cnt_bounds la x)]; lia.
Qed.

Lemma acct_id ll la s : acct W ll la s → acct W ll la (with_kc (kc s) s).
Proof. by destruct s. Qed.

Lemma acct_shrink ll la s κ' :
  kinv (λ o, baseL W s o + cnt ll o) (λ o, baseA W s o + cnt la o) κ' →
  mem (mdb κ') ⊆ mem (mdb (kc s)) → Z.of_nat (size (mem (mdb (kc s)))) ≤ 2 ^ 30 → acct W ll la (with_kc κ' s).
Proof. intros Hκ Hm Hs. split; [exact Hκ|]. simpl. pose proof (subseteq_size _ _ Hm). lia. Qed.

Lemma rel_acct ll la o s :
  acct W (o :: ll) la s → returns (rel o s) (λ s', acct W ll la s' ∧ kc_only s s' ∧ kshrinks (kc s) (kc s')).
Proof.
  intros [Hκ Hm]. unfold rel, do_kc. apply returns_bind.
  eapply returns_mono; [apply (release_spec (λ x, baseL W s x + cnt ll x) (λ x, baseA W s x + cnt la x) (λ _, False))|].
  - eapply kinv_ext; [..|exact Hκ]; cnt_lia.
  - apply (acct_pos W HW ll la s).
  - intros κ' [Hκ' Hs _]. split; [|split; [reflexivity|exact Hs]]. apply acct_shrink; [exact Hκ'|apply Hs|exact Hm].
Qed.

Lemma rel_opt_acct ll la (x : option N) s :
  acct W (olist x ++ ll) la s →
  returns (rel_opt x s) (λ s', acct W ll la s' ∧ kc_only s s' ∧ kshrinks (kc s) (kc s')).
Proof. destruct x as [o|]; [apply rel_acct|]. intros Ha. split; [exact Ha|]. split; [by destruct s|reflexivity]. Qed.

Lemma drop_src_acct ll la (cn : option N) s :
  acct W (olist cn ++ ll) (olist cn ++ la) s →
  returns (drop_src cn s) (λ s', acct W ll la s' ∧ kc_only s s' ∧ kshrinks (kc s) (kc s')).
Proof.
  destruct cn as [cn|]; [|intros Ha; split; [apply acct_id, Ha|]; split; reflexivity].
  intros [Hκ Hm]. unfold drop_src, do_kc, syscall_ipc_stage_cap_release. apply returns_bind.
  eapply returns_mono; [apply (put_refs_spec (λ x, baseL W s x + cnt ll x) (λ x, baseA W s x + cnt la x))|].
  - eapply kinv_ext; [..|exact Hκ]; intros x; cbn [olist app]; cnt_lia.
  - apply (acct_pos W HW ll la s).
  - apply (acct_pos W HW ll la s).
  - intros κ' [Hκ' Hs]. split; [|split; [reflexivity|exact Hs]]. apply acct_shrink; [exact Hκ'|apply Hs|exact Hm].
Qed.

Lemma stage_abort_acct ll la (x : xfer) s :
  acct W (match x with Some c => cap_obj c :: cap_src_cn c :: ll | None => ll end)
         (match x with Some c => cap_src_cn c :: la | None => la end) s →
  returns (stage_abort x s) (λ s', acct W ll la s' ∧ kc_only s s' ∧ kshrinks (kc s) (kc s')).
Proof.
  destruct x as [c|]; [|intros Ha; split; [exact Ha|]; split; [by destruct s|reflexivity]].
  intros Ha. apply returns_bind. eapply returns_mono; [apply rel_acct; exact Ha|].
  intros s1 (A1 & K1 & S1). eapply returns_mono; [apply (drop_src_acct ll la (Some _)); exact A1|].
  intros s2 (A2 & K2 & S2). split; [exact A2|]. split; [rewrite K2, K1; by destruct s|etransitivity; [exact S1|exact S2]].
Qed.

(** The counts moved by a walk, as locals. *)
Lemma acct_shifted ll la ll' la' dl da s κ' :
  acct W ll la s → (length ll ≤ 8)%nat → (length la ≤ 8)%nat → shifted (kc s) dl da κ' →
  (∀ o, 0 ≤ dl o ≤ 4) → (∀ o, 0 ≤ da o ≤ 4) → (∀ o, objs (kc s) o = None → dl o = 0) →
  (∀ o, cnt ll' o = cnt ll o + dl o) → (∀ o, cnt la' o = cnt la o + da o) →
  acct W ll' la' (with_kc κ' s).
Proof.
  intros Ha H1 H2 Hs B1 B2 Hd E1 E2. pose proof (acct_room W HW _ _ _ Ha H1 H2) as Hr. destruct Ha as [Hκ Hm].
  apply acct_shrink; [|by rewrite (sh_mdb _ _ _ _ Hs)|exact Hm].
  eapply shifted_kinv_ext; [exact Hκ|exact Hr|exact Hs|exact B1|exact B2|exact Hd|..]; intros o; rewrite ?E1, ?E2; lia.
Qed.

Lemma acct_same_counts ll la s κ' :
  acct W ll la s → (length ll ≤ 8)%nat → (length la ≤ 8)%nat → shifted (kc s) nil_refs nil_refs κ' →
  acct W ll la (with_kc κ' s).
Proof. intros Ha H1 H2 Hs. eapply acct_shifted; [exact Ha|exact H1|exact H2|exact Hs|..]; cnt_lia. Qed.

(** What a resolver of the syscall layer found. *)
Definition found κ tag (self : option task_root) (root : option N) (cptr req : Z) o (b : Z) : Prop :=
  ∃ cn i k, cspace_value_is_cptr cptr = true ∧ cspace_lookup self root cptr κ = inr (cn, i) ∧
    object (mdb κ) (InNode cn i) = Some o ∧ objs κ o = Some k ∧ otype k = tag ∧
    rights_check (rights (mdb κ) (InNode cn i)) req = true ∧ b = badge (mdb κ) (InNode cn i).

Lemma resolve_acct ll la tag self cptr req s t :
  acct W ll la s → (length ll ≤ 8)%nat → (length la ≤ 8)%nat → root_ok s t → req ≠ RIGHT_NONE →
  returns (resolve_only false tag self (cspace_of s t) cptr req (kc s)) (λ '(r, κ'), mdb κ' = mdb (kc s) ∧
    match r with
    | inl _ => acct W ll la (with_kc κ' s)
    | inr (o, _, b) => acct W (o :: ll) la (with_kc κ' s) ∧ found (kc s) tag self (cspace_of s t) cptr req o b
    end).
Proof.
  intros Ha H1 H2 Hroot Hreq. pose proof (acct_room W HW _ _ _ Ha H1 H2) as Hr.
  pose proof (root_base ll la s t Hroot) as Hlr. pose proof (ac_kinv _ _ _ _ Ha) as Hκ.
  destruct (kinv_le _ _ _ Hκ) as [Hl Hla].
  pose proof (root_published _ _ _ _ _ _ Hκ Hl Hla Hlr) as Hp. clear Hlr.
  unfold root_ok in Hroot. destruct (cspace_of s t) as [root|].
  2: { split; [reflexivity|]. apply acct_id, Ha. }
  destruct Hp as (kr & Hk & Hkr & Hka).
  eapply returns_mono; [eapply resolve_only_spec; [exact Hκ|eapply xfer_walk; [exact Hκ|exact Hr]|exact Hk|exact Hkr|exact Hka]|].
  intros [r κ'] Hpost. destruct (cspace_value_is_cptr cptr) eqn:Hcp; [|destruct Hpost as [-> ->]; split; [reflexivity|apply acct_id, Ha]].
  destruct (cspace_lookup self (Some root) cptr (kc s)) as [e|[cn i]] eqn:Hlk.
  { destruct Hpost as [-> Hs]. split; [apply Hs|eapply acct_same_counts; eassumption]. }
  destruct Hpost as (o & k & Ho & Hko & Hpost). case_decide as Ht; [|destruct Hpost as [-> Hs]; split; [apply Hs|eapply acct_same_counts; eassumption]].
  rewrite (proj2 (Z.eqb_neq _ _) Hreq) in Hpost. cbn [negb andb] in Hpost.
  destruct (rights_check _ req) eqn:Hrc; cbn [negb] in Hpost;
    [|destruct Hpost as [-> Hs]; split; [apply Hs|eapply acct_same_counts; eassumption]].
  destruct Hpost as [-> Hs]. split; [apply Hs|]. split.
  - eapply acct_shifted; [exact Ha|exact H1|exact H2|exact Hs|cnt_lia|cnt_lia| |cnt_lia|cnt_lia].
    intros x Hx. unfold hold, nil_refs. case_decide; [|done]. subst. congruence.
  - exists cn, i, k. by split_and!.
Qed.
(** What a peek leaves in the locals. *)
Definition xl (x : xfer) : list N := match x with Some c => [cap_obj c; cap_src_cn c] | None => [] end.
Definition xa (x : xfer) : list N := match x with Some c => [cap_src_cn c] | None => [] end.

Lemma stage_peek_acct ll la t cptr rts s :
  acct W ll la s → (length ll ≤ 6)%nat → (length la ≤ 6)%nat → root_ok s t →
  returns (stage_peek t cptr rts s) (λ '(r, s'), kc_only s s' ∧ mdb (kc s') = mdb (kc s) ∧
    match r with
    | inl _ => acct W ll la s'
    | inr x => acct W (xl x ++ ll) (xa x ++ la) s' ∧
        match x with
        | None => cptr = IRIS_MSG_NO_CAP
        | Some c => stage_verdict (kc s) (cspace_of s t) cptr rts = inr c
        end
    end).
Proof.
  intros Ha H1 H2 Hroot. unfold stage_peek. destruct (Z.eqb_spec cptr IRIS_MSG_NO_CAP) as [->|Hne].
  { split; [by destruct s|]. split; [reflexivity|]. split; [exact Ha|reflexivity]. }
  pose proof (acct_room W HW _ _ _ Ha ltac:(lia) ltac:(lia)) as Hr. apply returns_bind.
  eapply returns_mono; [apply (stage_cap_spec _ _ _ _ _ _ (ac_kinv _ _ _ _ Ha) Hr (root_base ll la s t Hroot))|].
  intros [r κ'] (Hv & Hm & Hpost). split; [reflexivity|]. split; [exact Hm|]. destruct r as [e|c].
  - eapply acct_same_counts; [exact Ha|lia|lia|exact Hpost].
  - split; [|by symmetry]. destruct Hpost as [Hκ _].
    apply acct_shrink; [|by rewrite Hm|apply Ha]. eapply kinv_ext; [..|exact Hκ]; intros x;
      unfold hl_staged, ha_staged; cbn [xl xa]; cnt_lia.
Qed.

(** The code that decides a delivery, and what it does. *)
Definition deliver_post s u (xo : N) (r b : Z) (cn : option N) (i : N) (v : Z) κ' : Prop :=
  match deliver_dest (kc s) (cspace_of s u) (ep_recv_slot (th s u)) xo r cn i with
  | Some dst => v = ep_recv_slot (th s u) ∧ delivered (kc s) xo r b cn i dst κ'
  | None => v = NO_CAP ∧ kshrinks (kc s) κ'
  end.

Lemma deliver_acct ll la u xo r b (cn : option N) i s :
  acct W (xo :: ll) la s → (length ll ≤ 7)%nat → (length la ≤ 8)%nat → root_ok s u →
  returns (deliver_to u (Some xo) r b cn i s) (λ '(v, s'),
    acct W ll la s' ∧ (∃ slot, s' = upd_th u (put_slot slot) (with_kc (kc s') s)) ∧
    deliver_post s u xo r b cn i v (kc s')).
Proof.
  intros Ha H1 H2 Hroot. pose proof (acct_room W HW _ _ _ Ha ltac:(simpl; lia) ltac:(lia)) as Hr.
  unfold deliver_to, deliver_post. apply returns_bind.
  eapply returns_mono; [apply (deliver_cap_spec (λ x, baseL W s x + cnt ll x) (λ x, baseA W s x + cnt la x))|].
  - eapply kinv_ext; [..|apply (ac_kinv _ _ _ _ Ha)]; cnt_lia.
  - apply (acct_pos W HW ll la s).
  - exact Hr.
  - apply (root_base ll la s u Hroot).
  - intros [[v slot] κ'] (Hκ & Hm & _ & Hpost). split; [|split; [by exists slot|exact Hpost]].
    assert (acct W ll la (with_kc κ' s)) as Ha' by (apply acct_shrink; [exact Hκ|exact Hm|apply Ha]).
    eapply acct_same; [exact Ha'|reflexivity|]. intros t. unfold held, helda, upd_th. cbn.
    unfold upd_fn. by case_decide; subst.
Qed.

Lemma declare_acct ll la t declared s :
  acct W ll la s → (length ll ≤ 8)%nat → (length la ≤ 8)%nat → root_ok s t →
  returns (syscall_ipc_recv_slot_declare (cspace_of s t) declared (kc s)) (λ '(e, slot, κ'),
    acct W ll la (with_kc κ' s) ∧ mdb κ' = mdb (kc s) ∧
    (e, slot) = declare_verdict (kc s) (cspace_of s t) declared).
Proof.
  intros Ha H1 H2 Hroot. pose proof (acct_room W HW _ _ _ Ha H1 H2) as Hr.
  eapply returns_mono; [eapply (recv_slot_declare_spec _ _ _ _ _ (ac_kinv _ _ _ _ Ha))|].
  - eapply xfer_walk; [apply (ac_kinv _ _ _ _ Ha)|exact Hr].
  - apply (root_base ll la s t Hroot).
  - intros [[e slot] κ'] [He Hs]. split; [eapply acct_same_counts; eassumption|]. split; [apply Hs|exact He].
Qed.
End steps.
