(* ===== verification/EndpointQueue.v ===== *)
(** * Endpoints: the queues as lists

    [qok i q]: the queue of endpoint [e] is the list [q e]; it is empty exactly
    when the endpoint is idle, all of its threads are blocked in the direction the
    endpoint's state says, a thread is in a queue exactly when its [blocking_ep]
    says so, the queue holds a reference on each of them, and a closed endpoint has
    none.  One lemma per operation on a queue. *)

From Stdlib Require Import ZArith Lia.
From stdpp Require Import base numbers gmap list.
From S2P Require Import Prelude Rights Kobject Runq RunqInv RunqSpec SchedSpec Wq Ipc Knotification KnotifSpec KnotifWake IrqDelivery.
From S2P Require Import IpcMsg Endpoint.
Local Open Scope Z_scope.
Implicit Types (s : ek) (i : ipc) (t u x : N) (e : N) (q : N → list N).

Definition blocked_as (k : ep_state_t) : task_state_t :=
  match k with EP_STATE_SEND => TASK_BLOCKED_SEND | EP_STATE_RECV => TASK_BLOCKED_RECV | EP_STATE_IDLE => TASK_READY end.

Record qok i q : Prop := QOk {
  q_rep  : ∀ e, wq_rep (ep_next i) (ep_head (eps i e)) (ep_tail (eps i e)) (q e);
  q_idle : ∀ e, ep_state (eps i e) = EP_STATE_IDLE ↔ q e = [];
  q_dir  : ∀ e t, t ∈ q e → st i t = blocked_as (ep_state (eps i e));
  q_on   : ∀ e t, t ∈ q e ↔ blocking_ep i t = Some e;
  q_refs : ∀ e t, t ∈ q e → 2 ≤ trefs i t < 2 ^ 31 ∧ (N.to_nat t < task_bound (sch i))%nat;
  q_open : ∀ e, ep_closed (eps i e) = true → q e = [];
}.

(** Queues and what the threads in them show. *)
Definition q_same i i' : Prop :=
  eps i' = eps i ∧ ep_next i' = ep_next i ∧ blocking_ep i' = blocking_ep i ∧
  (∀ t, is_Some (blocking_ep i t) → st i' t = st i t ∧ trefs i' t = trefs i t) ∧
  task_bound (sch i') = task_bound (sch i).

Lemma qok_same i i' q : q_same i i' → qok i q → qok i' q.
Proof.
  intros (E1 & E2 & E3 & E4 & E5) [Q1 Q2 Q3 Q4 Q5 Q6]. split; rewrite ?E1, ?E2, ?E3, ?E5; try done.
  - intros e t Ht. destruct (E4 t) as [-> _]; [rewrite (proj1 (Q4 e t) Ht); done|by apply Q3].
  - intros e t Ht. destruct (E4 t) as [_ ->]; [rewrite (proj1 (Q4 e t) Ht); done|by apply (Q5 e)].
Qed.

Lemma q_same_fields i i' :
  eps i' = eps i → ep_next i' = ep_next i → blocking_ep i' = blocking_ep i → sch i' = sch i → trefs i' = trefs i →
  q_same i i'.
Proof. intros E1 E2 E3 E4 E5. unfold q_same, st. by rewrite E1, E2, E3, E4, E5. Qed.

Lemma qok_ext i q q' : (∀ e, q' e = q e) → qok i q → qok i q'.
Proof.
  intros H [Q1 Q2 Q3 Q4 Q5 Q6]. split; intros e; rewrite H; [apply Q1|apply Q2|apply Q3|apply Q4|apply Q5|apply Q6].
Qed.

Lemma q_other i q e d t : qok i q → t ∈ q e → t ∈ q d → e = d.
Proof. intros Hq H1 H2. apply (q_on _ _ Hq) in H1. apply (q_on _ _ Hq) in H2. congruence. Qed.

Lemma q_out i q t e : qok i q → blocking_ep i t = None → t ∉ q e.
Proof. intros Hq Ht Hin. apply (q_on _ _ Hq) in Hin. congruence. Qed.

Lemma wakeup_sched u (σ : sched) x :
  x ≠ u → state (tasks (task_wakeup u σ) x) = state (tasks σ x).
Proof.
  intros Hx. destruct (ot_task _ _ _ _ (others_wakeup u None σ) x Hx) as [H _].
  by apply sans_links_key in H as (_ & _ & _ & _ & ->).
Qed.

Lemma wakeup_ctx u (σ : sched) x : sched_ctx (tasks (task_wakeup u σ) x) = sched_ctx (tasks σ x).
Proof. by destruct (others_self _ _ _ _ x (others_wakeup u None σ)) as (-> & _). Qed.

(** Waking a thread that is in no queue. *)
Lemma wake_q_same s u : blocking_ep (ip s) u = None → q_same (ip s) (ip (wake u s)).
Proof.
  intros Hu. split; [done|]. split; [done|]. split; [done|]. split; [|apply wakeup_bound].
  intros t [e Ht]. split; [|done]. apply wakeup_sched. congruence.
Qed.

Lemma tput_spec s u : 2 ≤ trefs (ip s) u →
  tput u s = Ret (with_ip (with_trefs (upd_fn (trefs (ip s)) u (trefs (ip s) u - 1)) (ip s)) s).
Proof. intros H. unfold tput, tcb_release. rewrite (proj2 (Z.leb_gt _ _)) by lia. done. Qed.

(** The head of a queue leaves it. *)
Definition q_only s s' : Prop :=
  ∃ es nx bl, s' = with_ip (with_epq nx bl (with_eps es (ip s))) s.

Lemma ep_dequeue_spec s q e :
  qok (ip s) q → ep_state (eps (ip s) e) ≠ EP_STATE_IDLE →
  ∃ u l s', q e = u :: l ∧ ep_head (eps (ip s) e) = Some u ∧ ep_dequeue e s = Ret (u, s') ∧
    qok (ip s') (upd_fn q e l) ∧ q_only s s' ∧ blocking_ep (ip s') u = None ∧
    (∀ x, x ≠ u → blocking_ep (ip s') x = blocking_ep (ip s) x).
Proof.
  intros Hq Hne. pose proof (q_rep _ _ Hq e) as Hr.
  destruct (q e) as [|u l] eqn:He; [by apply (q_idle _ _ Hq) in He|].
  assert (ep_head (eps (ip s) e) = Some u) as Hh by (pose proof (chain_head _ _ _ (wq_chain _ _ _ _ Hr)); done).
  destruct (wq_cut (ep_next (ip s)) (ep_head (eps (ip s) e)) (ep_tail (eps (ip s) e)) (last []) u) as [[nx h] tl] eqn:Hcut.
  destruct (wq_cut_rep _ _ _ [] _ _ _ _ _ Hr Hcut) as (Hrep & _ & Hother). cbn [app] in Hrep.
  unfold wq_cut in Hcut. cbn [last] in Hcut. injection Hcut as <- <- <-.
  pose proof (chain_mid _ _ [] u l (wq_chain _ _ _ _ Hr)) as Hn. pose proof (wq_last _ _ _ _ Hr) as Htl.
  exists u, l. eexists. split; [done|]. split; [done|]. unfold ep_dequeue. rewrite Hh. split; [reflexivity|].
  split; [|split; [do 3 eexists; reflexivity|]; cbn; split; [apply upd_fn_same|intros x Hx; by apply upd_fn_other]].
  assert (NoDup (u :: l)) as Hnd by apply Hr. apply NoDup_cons in Hnd as [Hul Hnd].
  assert (∀ d x, x ∈ upd_fn q e l d → x ∈ q d ∧ x ≠ u) as Hsub.
  { intros d x. destruct (decide (d = e)) as [->|Hd]; [rewrite upd_fn_same|rewrite upd_fn_other by done].
    - rewrite He. intros Hx. split; [by right|]. by intros ->.
    - intros Hx. split; [done|]. intros ->. apply Hd. apply (q_other _ _ _ _ u Hq Hx). rewrite He. left. }
  split; cbn [ip with_ip with_epq with_eps eps ep_next blocking_ep sch trefs].
  - intros d. destruct (decide (d = e)) as [->|Hd]; [rewrite !(upd_fn_same _ e)|rewrite !(upd_fn_other _ e) by done].
    + rewrite Hn in Hrep |- *. rewrite Htl in Hrep |- *. destruct l as [|y l]; cbn [head ep_head ep_tail] in *.
      * cbn [last] in Hrep. by rewrite decide_True in Hrep.
      * rewrite last_cons_cons in Hrep |- *. rewrite decide_False in Hrep; [done|].
        intros Hl%last_Some_elem_of. done.
    + eapply wq_frame; [|apply Hq]. intros x Hx. apply upd_fn_other. intros ->. apply Hd.
      apply (q_other _ _ _ _ u Hq Hx). rewrite He. left.
  - intros d. destruct (decide (d = e)) as [->|Hd]; [rewrite !upd_fn_same|rewrite !upd_fn_other by done; apply Hq]. rewrite Hn.
    destruct l as [|y l]; cbn [head ep_state]; [done|]. by split; [intros ?|].
  - intros d x Hx. destruct (Hsub d x Hx) as [Hx' _]. apply (q_dir _ _ Hq) in Hx' as Hst. unfold st in *.
    cbn [sch with_epq with_eps]. rewrite Hst.
    destruct (decide (d = e)) as [->|Hd]; [rewrite (upd_fn_same q) in Hx; rewrite upd_fn_same|by rewrite upd_fn_other].
    rewrite Hn. destruct l; [by apply not_elem_of_nil in Hx|done].
  - intros d x. destruct (decide (x = u)) as [->|Hx].
    + rewrite (upd_fn_same _ u). split; [|done]. intros Hin. by destruct (Hsub d u Hin).
    + rewrite (upd_fn_other _ u) by done. rewrite <-(q_on _ _ Hq).
      destruct (decide (d = e)) as [->|Hd]; [rewrite upd_fn_same|by rewrite upd_fn_other]. rewrite He.
      rewrite elem_of_cons. split; [by right|]. by intros [?|?].
  - intros d x Hx. destruct (Hsub d x Hx) as [Hx' _]. by apply (q_refs _ _ Hq d).
  - intros d. destruct (decide (d = e)) as [->|Hd]; [rewrite !upd_fn_same|rewrite !upd_fn_other by done; apply Hq].
    assert (ep_closed (match ep_next (ip s) u with
      | None => Ep EP_STATE_IDLE (ep_closed (eps (ip s) e)) None None
      | h => Ep (ep_state (eps (ip s) e)) (ep_closed (eps (ip s) e)) h (ep_tail (eps (ip s) e)) end) =
      ep_closed (eps (ip s) e)) as -> by (by destruct (ep_next (ip s) u)).
    intros Hc. apply (q_open _ _ Hq) in Hc. congruence.
Qed.

(** A thread joins the end of a queue and blocks. *)
Definition joins e stt t s s' : Prop :=
  ∃ es nx bl, s' = with_ip (on_sch (upd_task t (set_state (blocked_as stt)))
                    (tcb_retain t (with_epq nx bl (with_eps es (ip s))))) s.

Lemma ep_enqueue_spec s q e stt t (s' := ep_enqueue e stt t (blocked_as stt) s) :
  qok (ip s) q → stt ≠ EP_STATE_IDLE → ep_state (eps (ip s) e) = EP_STATE_IDLE ∨ ep_state (eps (ip s) e) = stt →
  ep_closed (eps (ip s) e) = false → blocking_ep (ip s) t = None → 1 ≤ trefs (ip s) t < 2 ^ 31 - 1 →
  (N.to_nat t < task_bound (sch (ip s)))%nat →
  qok (ip s') (upd_fn q e (q e ++ [t])) ∧ joins e stt t s s'.
Proof.
  intros Hq Hstt Hes Hcl Hb Hrf Hbd. subst s'. unfold ep_enqueue.
  destruct (wq_add _ _ _ t) as [[nx h] tl] eqn:Hadd.
  destruct (wq_add_rep _ _ _ _ _ _ _ _ (q_rep _ _ Hq e) (q_out _ _ t e Hq Hb) Hadd) as (Hrep & _ & Hother).
  split; [|do 3 eexists; reflexivity].
  assert (∀ d x, x ∈ upd_fn q e (q e ++ [t]) d → x ≠ t ∧ x ∈ q d ∨ x = t ∧ d = e) as Hsub.
  { intros d x. destruct (decide (d = e)) as [->|Hd]; [rewrite upd_fn_same|rewrite upd_fn_other by done].
    - intros [Hx| ->%list_elem_of_singleton]%elem_of_app; [left|by right]. split; [|done]. intros ->. by apply (q_out _ _ t e Hq Hb).
    - intros Hx. left. split; [|done]. intros ->. by apply (q_out _ _ t d Hq Hb). }
  assert (∀ x, x ≠ t → x ∈ q e → blocked_as (ep_state (eps (ip s) e)) = blocked_as stt) as Hdir.
  { intros x _ Hx. destruct Hes as [He| ->]; [|done]. apply (q_idle _ _ Hq) in He. rewrite He in Hx. by apply not_elem_of_nil in Hx. }
  split; cbn [ip put_state thold on_ip with_ip on_sch with_sch tcb_retain with_trefs with_epq with_eps eps ep_next blocking_ep sch trefs].
  - intros d. destruct (decide (d = e)) as [->|Hd]; [by rewrite !(upd_fn_same _ e)|rewrite !(upd_fn_other _ e) by done].
    eapply wq_frame; [|apply Hq]. intros x Hx. apply Hother.
    + intros ->. by apply (q_out _ _ t d Hq Hb).
    + intros Hl%last_Some_elem_of. apply Hd. by apply (q_other _ _ _ _ x Hq Hx).
  - intros d. destruct (decide (d = e)) as [->|Hd]; [rewrite !upd_fn_same|rewrite !upd_fn_other by done; apply Hq].
    cbn [ep_state]. split; [done|]. intros H. by destruct (q e).
  - intros d x Hx. unfold st. cbn [on_sch with_sch sch tcb_retain with_trefs with_epq with_eps].
    destruct (Hsub d x Hx) as [[Hne Hin]|[-> ->]].
    + rewrite tasks_upd, decide_False by done. pose proof (q_dir _ _ Hq d x Hin) as Hst. unfold st in Hst. rewrite Hst.
      destruct (decide (d = e)) as [->|Hd]; [rewrite upd_fn_same|by rewrite upd_fn_other]. by apply (Hdir x).
    + by rewrite tasks_upd, decide_True, upd_fn_same.
  - intros d x. destruct (decide (x = t)) as [->|Hx].
    + rewrite (upd_fn_same _ t). split.
      * intros Hin. destruct (Hsub d t Hin) as [[? _]|[_ ->]]; done.
      * intros [= <-]. rewrite upd_fn_same. apply elem_of_app. right. left.
    + rewrite (upd_fn_other _ t) by done. rewrite <-(q_on _ _ Hq).
      destruct (decide (d = e)) as [->|Hd]; [rewrite upd_fn_same|by rewrite upd_fn_other].
      rewrite elem_of_app. split; [|by left]. intros [?|Ht%list_elem_of_singleton]; done.
  - intros d x Hx. destruct (Hsub d x Hx) as [[Hne Hin]|[-> ->]].
    + rewrite upd_fn_other by done. by apply (q_refs _ _ Hq d).
    + rewrite upd_fn_same, u32_id by lia. split; [lia|done].
  - intros d. destruct (decide (d = e)) as [->|Hd]; [rewrite !upd_fn_same; by rewrite Hcl|rewrite !upd_fn_other by done; apply Hq].
Qed.

(** A thread leaves the middle of a queue ([unqueue_ep] and the stores behind it). *)
Lemma unqueue_qok s q e t :
  qok (ip s) q → blocking_ep (ip s) t = Some e →
  ∃ i, unqueue_ep t e (ip s) = Ret (Some i) ∧
    let s' := with_ip (with_epq (upd_fn (ep_next i) t None) (upd_fn (blocking_ep i) t None) i) s in
    qok (ip s') (upd_fn q e (without t (q e))) ∧ q_only s s' ∧ blocking_ep (ip s') t = None.
Proof.
  intros Hq Hb. assert (t ∈ q e) as Hin by (by apply (q_on _ _ Hq)).
  assert (∀ x, x ∈ q e → (N.to_nat x < task_bound (sch (ip s)))%nat) as Hbd by (intros x Hx; by apply (q_refs _ _ Hq e)).
  pose proof (unqueue_spec _ _ _ _ (q_rep _ _ Hq e) Hin Hbd) as Hu.
  apply returns_Ret in Hu as (r & Hu & i & -> & [L1 L2 L3 L4 L5 L6 L7]). exists i. split; [exact Hu|]. cbv zeta.
  assert (∀ d x, x ∈ upd_fn q e (without t (q e)) d ↔ x ∈ q d ∧ x ≠ t) as Hsub.
  { intros d x. destruct (decide (d = e)) as [->|Hd]; [rewrite upd_fn_same; apply elem_without|rewrite upd_fn_other by done].
    split; [|tauto]. intros Hx. split; [done|]. intros ->. apply Hd. by apply (q_other _ _ _ _ t Hq Hx). }
  assert (sch i = sch (ip s) ∧ trefs i = trefs (ip s) ∧ blocking_ep i = blocking_ep (ip s)) as (E1 & E2 & E3)
    by (rewrite L4; done).
  assert (∀ d x, d ≠ e → x ∈ q d → x ≠ t ∧ x ∉ q e) as Hnx.
  { intros d x Hd Hx. split; [intros ->|]; [|intros Hxe]; apply Hd; by apply (q_other _ _ _ _ _ Hq Hx). }
  assert (∀ d, d ≠ e → eps i d = eps (ip s) d) as Hed by exact L5.
  assert (ep_closed (eps i e) = false) as Hcl.
  { rewrite L7. destruct (ep_closed (eps (ip s) e)) eqn:Hc; [|done]. apply (q_open _ _ Hq) in Hc.
    rewrite Hc in Hin. by apply not_elem_of_nil in Hin. }
  split; [|split; [exists (eps i), (upd_fn (ep_next i) t None), (upd_fn (blocking_ep i) t None); by rewrite L4|apply upd_fn_same]].
  split; cbn [ip with_ip with_epq eps ep_next blocking_ep sch trefs]; rewrite ?E1, ?E2, ?E3.
  - intros d. destruct (decide (d = e)) as [->|Hd]; [by rewrite upd_fn_same|rewrite upd_fn_other, Hed by done].
    eapply wq_frame; [|apply Hq]. intros x Hx. destruct (Hnx d x Hd Hx). rewrite upd_fn_other by done. by apply L6.
  - intros d. destruct (decide (d = e)) as [->|Hd]; [rewrite upd_fn_same|rewrite upd_fn_other, Hed by done; apply Hq].
    split; [|exact L2]. intros Hi. destruct (without t (q e)) eqn:Hw; [done|]. rewrite L3 in Hi by done.
    apply (q_idle _ _ Hq) in Hi. rewrite Hi in Hin. by apply not_elem_of_nil in Hin.
  - intros d x [Hx Hxt]%Hsub. unfold st. cbn [with_epq sch]. rewrite E1.
    pose proof (q_dir _ _ Hq d x Hx) as Hst. unfold st in Hst. rewrite Hst.
    destruct (decide (d = e)) as [->|Hd]; [|by rewrite Hed]. rewrite L3; [done|].
    intros Hw. pose proof (proj2 (elem_without t x (q e)) (conj Hx Hxt)) as H. rewrite Hw in H. by apply not_elem_of_nil in H.
  - intros d x. rewrite Hsub. destruct (decide (x = t)) as [->|Hx].
    + rewrite upd_fn_same. split; [by intros []|done].
    + rewrite upd_fn_other by done. rewrite (q_on _ _ Hq). tauto.
  - intros d x [Hx _]%Hsub. by apply (q_refs _ _ Hq d).
  - intros d. destruct (decide (d = e)) as [->|Hd]; [by rewrite Hcl|rewrite upd_fn_other, Hed by done; apply Hq].
Qed.
