(* ===== verification/EndpointSend.v ===== *)
(** * Sending on an endpoint

    EP_SEND and EP_NB_SEND against the queue as a list: a send hands its message
    to the first receiver and nobody else, or waits at the end of the queue, or
    fails with nothing changed; whatever it does, the references are exact. *)

From Stdlib Require Import ZArith Lia.
From stdpp Require Import base numbers gmap list.
From S2P Require Import Prelude Rights Forest Mdb Cdt Kobject Kcnode KcnodeInv KcnodeInstall Cspace IpcCap.
From S2P Require Import Kschedctx Runq RunqInv RunqSpec SchedSpec Wq Ipc Knotification IpcMsg Endpoint EndpointInv EndpointQueue.
Local Open Scope Z_scope.
Implicit Types (s : ek) (t u o ep : N) (κ : kstate) (q : N → list N).

Section frames.
Context (W : world).

(** Steps that touch neither the capability layer nor a recorded reference. *)
Lemma acct_ip ll la s i :
  acct W ll la s → (∀ t, sched_ctx (tasks (sch i) t) = sctx s t) → acct W ll la (with_ip i s).
Proof.
  intros Ha Hi. eapply acct_same; [exact Ha|reflexivity|]. intros t. unfold held, helda, sctx. cbn [th ip with_ip].
  by rewrite Hi.
Qed.

Lemma acct_sch ll la s i : acct W ll la s → sch i = sch (ip s) → acct W ll la (with_ip i s).
Proof. intros Ha Hi. apply acct_ip; [exact Ha|]. intros t. by rewrite Hi. Qed.

Lemma acct_wake ll la s u : acct W ll la s → acct W ll la (wake u s).
Proof. intros Ha. apply acct_ip; [exact Ha|]. intros t. apply wakeup_ctx. Qed.

(** Fields of a thread that record no reference. *)
Definition keeps_held (f : ep_task → ep_task) : Prop := ∀ e,
  ep_cap_obj (f e) = ep_cap_obj e ∧ ep_cap_src_cn (f e) = ep_cap_src_cn e ∧ sc_held (f e) = sc_held e ∧
  ep_reply_obj (f e) = ep_reply_obj e ∧ pending_kreply (f e) = pending_kreply e.

Lemma acct_field ll la s u f : keeps_held f → acct W ll la s → acct W ll la (upd_th u f s).
Proof.
  intros Hf Ha. eapply acct_same; [exact Ha|reflexivity|]. intros t. unfold held, helda, sctx, upd_th. cbn [th ip with_th].
  destruct (decide (t = u)) as [->|Ht]; [rewrite upd_fn_same|by rewrite upd_fn_other].
  destruct (Hf (th s u)) as (-> & -> & -> & -> & ->). done.
Qed.

Lemma acct_phys ll la s mem : acct W ll la s → acct W ll la (with_phys mem s).
Proof. intros Ha. eapply acct_same; [exact Ha|reflexivity|]. by intros t. Qed.
End frames.

(** The part of a message the kernel does not touch on the way. *)
Definition same_payload (m m' : ipc_stage) : Prop :=
  label m' = label m ∧ words m' = words m ∧ word_count m' = word_count m ∧ sender_badge m' = sender_badge m.

Lemma bulk_to_spec t u s :
  ∃ m mem, bulk_to t u s = with_phys mem (put_msg u m s) ∧ same_payload (msg s u) m ∧
    attached_handle m = attached_handle (msg s u) ∧ attached_cap m = attached_cap (msg s u).
Proof.
  unfold bulk_to, ipc_transfer_bulk. destruct (_ =? 0).
  { exists (msg s u), (phys s). by split_and!. }
  destruct (ipc_buffer (th s t)); [destruct (ipc_buffer (th s u))|];
    (do 2 eexists; split; [reflexivity|by split_and!]).
Qed.

(** The message of [t] is in the hands of [u], which runs again. *)
Record handed t u s s' : Prop := Handed {
  hd_msg   : same_payload (msg s t) (msg s' u) ∧ ipc_msg_ready (ip s') u = true;
  hd_other : ∀ v, v ≠ u → msg s' v = msg s v;
  hd_wake  : sch (ip s') = task_wakeup u (sch (ip s));
  hd_refs  : trefs (ip s') = upd_fn (trefs (ip s)) u (trefs (ip s) u - 1);
  hd_th    : (∀ v, v ≠ u → th s' v = th s v) ∧ ∃ slot, th s' u = put_slot slot (th s u);
  hd_rps   : rps s' = rps s;
}.

(** What the receiver got of the capability the message carried; [g] is the field
    of the message that tells it. *)
Definition carried_in (g : ipc_stage → Z) u (x : xfer) s s' : Prop :=
  match x with
  | None => g (msg s' u) = IRIS_MSG_NO_CAP ∧ kshrinks (kc s) (kc s')
  | Some c => ∃ κ, deliver_post s u (cap_obj c) (cap_rights c) (cap_badge c) (Some (cap_src_cn c)) (cap_src_idx c)
                     (g (msg s' u)) κ ∧ kshrinks κ (kc s')
  end.
Abbreviation carried := (carried_in attached_cap).

(** The message staged for [u] changed, and its receive slot. *)
Record hand_frame u s s' : Prop := HandFrame {
  hf_th  : (∀ v, v ≠ u → th s' v = th s v) ∧ ∃ slot, th s' u = put_slot slot (th s u);
  hf_msg : (∀ v, v ≠ u → msg s' v = msg s v) ∧ same_payload (msg s u) (msg s' u);
  hf_ip  : sch (ip s') = sch (ip s) ∧ trefs (ip s') = trefs (ip s) ∧ eps (ip s') = eps (ip s) ∧
           ep_next (ip s') = ep_next (ip s) ∧ blocking_ep (ip s') = blocking_ep (ip s) ∧
           ipc_msg_ready (ip s') = ipc_msg_ready (ip s) ∧ ipc_ep_closed (ip s') = ipc_ep_closed (ip s);
  hf_rps : rps s' = rps s;
}.

Lemma hand_frame_q u s s' : hand_frame u s s' → q_same (ip s) (ip s').
Proof.
  intros [_ _ (E1 & E2 & E3 & E4 & E5 & _) _]. split; [exact E3|]. split; [exact E4|]. split; [exact E5|].
  unfold st. rewrite E1, E2. by split.
Qed.

Lemma put_slot_id e : put_slot (ep_recv_slot e) e = e.
Proof. by destruct e. Qed.

Section send.
Context (W : world) (HW : world_ok W).

(** The capability of a message goes to [u]: the locals of the stage are spent. *)
Lemma hand_cap g ll la u (x : xfer) (f : Z → staged → ipc_stage → ipc_stage) s :
  acct W (xl x ++ ll) (xa x ++ la) s → (length ll ≤ 4)%nat → (length la ≤ 4)%nat → root_ok W s u →
  (∀ v c m, same_payload m (f v c m) ∧ g (f v c m) = v) →
  g (msg s u) = IRIS_MSG_NO_CAP →
  returns (match x with
           | None => Ret s
           | Some c =>
               '(v, s) ← deliver_to u (Some (cap_obj c)) (cap_rights c) (cap_badge c)
                           (Some (cap_src_cn c)) (cap_src_idx c) s;
               let s := put_msg u (f v c (msg s u)) s in
               drop_src (Some (cap_src_cn c)) s
           end) (λ s', acct W ll la s' ∧ carried_in g u x s s' ∧ hand_frame u s s').
Proof.
  intros Ha H1 H2 Hr Hf Hc. destruct x as [c|].
  2: { split; [exact Ha|]. split; [by split|]. split; try done. split; [done|]. exists (ep_recv_slot (th s u)). by rewrite put_slot_id. }
  cbn [xl xa app] in Ha. apply returns_bind.
  eapply returns_mono; [eapply (deliver_acct W HW _ _ u); [exact Ha|simpl; lia|simpl; lia|exact Hr]|].
  intros [v s1] (A1 & [slot Hs1] & Hp). cbv zeta.
  assert (acct W (cap_src_cn c :: ll) (cap_src_cn c :: la) (put_msg u (f v c (msg s1 u)) s1)) as A2
    by (apply acct_sch; [exact A1|reflexivity]).
  eapply returns_mono; [apply (drop_src_acct W HW ll la (Some _) _ A2)|].
  intros s2 (A3 & K & Hs). split; [exact A3|]. destruct (Hf v c (msg s1 u)) as [Hpl Hv].
  assert (msg s1 = msg s) as Hm1 by (rewrite Hs1; reflexivity).
  split.
  - exists (kc s1). split; [|exact Hs]. rewrite K. unfold msg at 1, put_msg, on_ip. cbn [ip with_ip with_kc with_msg ipc_msg].
    by rewrite upd_fn_same, Hv.
  - rewrite K, Hs1. unfold msg in Hpl |- *. rewrite Hs1 in Hpl. split; cbn; try done.
    + split; [intros w Hw; by rewrite upd_fn_other|]. exists slot. by rewrite upd_fn_same.
    + split; [intros w Hw; by rewrite upd_fn_other|]. rewrite upd_fn_same. exact Hpl.
Qed.
Lemma carried_mono g u x s s1 s2 :
  carried_in g u x s s1 → kshrinks (kc s1) (kc s2) → g (msg s2 u) = g (msg s1 u) → carried_in g u x s s2.
Proof.
  intros Hc Hs Hm. unfold carried_in in *. rewrite Hm. destruct x as [c|].
  - destruct Hc as (κ & Hp & Hk). exists κ. split; [exact Hp|]. etransitivity; [exact Hk|exact Hs].
  - destruct Hc as [Hc Hk]. split; [exact Hc|]. etransitivity; [exact Hk|exact Hs].
Qed.

(** Waking a dequeued thread and giving the queue's reference back. *)
Lemma wake_put ll la q u s :
  acct W ll la s → qok (ip s) q → blocking_ep (ip s) u = None → 2 ≤ trefs (ip s) u →
  ∃ s', tput u (wake u s) = Ret s' ∧ acct W ll la s' ∧ qok (ip s') q ∧
    s' = with_ip (with_trefs (upd_fn (trefs (ip s)) u (trefs (ip s) u - 1)) (with_sch (task_wakeup u (sch (ip s))) (ip s))) s.
Proof.
  intros Ha Hq Hb Hr. eexists. split; [apply (tput_spec (wake u s) u Hr)|]. split.
  - apply (acct_sch W _ _ (wake u s)); [by apply acct_wake|reflexivity].
  - split; [|reflexivity]. eapply qok_same; [|exact Hq].
    destruct (wake_q_same s u Hb) as (E1 & E2 & E3 & E4 & E5). split; [exact E1|]. split; [exact E2|]. split; [exact E3|].
    split; [|exact E5]. intros v Hv. split; [apply (E4 v Hv)|]. cbn. apply upd_fn_other. intros ->. rewrite Hb in Hv. by destruct Hv.
Qed.

(** The rendezvous: the first receiver, and it alone, has the message. *)
Definition rendezvous t ep (x : xfer) q s s' : Prop := ∃ u l,
  q ep = u :: l ∧ qok (ip s') (upd_fn q ep l) ∧ handed t u s s' ∧ carried u x s s'.

Lemma send_rendezvous_spec s q t ep (x : xfer) :
  acct W (xl x ++ [ep]) (xa x) s → qok (ip s) q → ep_state (eps (ip s) ep) = EP_STATE_RECV →
  blocking_ep (ip s) t = None → (∀ u, u ∈ q ep → root_ok W s u) →
  returns (send_rendezvous t ep x s) (λ '(r, s'), r = Ok 0 ∧ acct W [] [] s' ∧ rendezvous t ep x q s s').
Proof.
  intros Ha Hq Hst Ht Hroot.
  destruct (ep_dequeue_spec s q ep Hq) as (u & l & s1 & Hql & _ & Hd & Hq1 & (es & nx & bl & ->) & Hu & _); [by rewrite Hst|].
  assert (u ∈ q ep) as Hin by (rewrite Hql; left). destruct (q_refs _ _ Hq _ _ Hin) as [Hrf _].
  assert (u ≠ t) as Hut by (intros ->; by apply (q_out _ _ t ep Hq Ht)).
  unfold send_rendezvous. rewrite Hd. cbn [mbind res_bind]. cbv zeta. set (s1 := with_ip _ s) in *.
  set (s2 := put_ready u true _). destruct (bulk_to_spec t u s2) as (m & pm & -> & Hpl & Hah & Hac).
  set (s3 := with_phys pm (put_msg u m s2)).
  assert (acct W (xl x ++ [ep]) (xa x) s3) as A3 by (apply acct_phys, (acct_sch W _ _ s); [exact Ha|reflexivity]).
  assert (qok (ip s3) (upd_fn q ep l)) as Hq3 by (apply (qok_same (ip s1)); [by apply q_same_fields|exact Hq1]).
  assert (msg s2 u = clean_msg (msg s t)) as Hm2 by (unfold s2; cbn; apply upd_fn_same).
  assert (msg s3 u = m) as Hm3 by (unfold s3; cbn; apply upd_fn_same).
  apply returns_bind. eapply returns_mono;
    [apply (hand_cap attached_cap [ep] [] u x (λ v c m, st_crights (cap_rights c) (st_cap v (st_handle v m))) s3)|].
  - rewrite app_nil_r. exact A3.
  - simpl. lia.
  - simpl. lia.
  - apply (Hroot u Hin).
  - intros v c m0. by split_and!.
  - rewrite Hm3, Hac, Hm2. reflexivity.
  - intros s4 (A4 & Hca & [[T1 T2] [M1 M2] (I1 & I2 & I3 & I4 & I5 & I6 & I7) R1]).
    assert (qok (ip s4) (upd_fn q ep l)) as Hq4 by (apply (qok_same (ip s3)); [by apply q_same_fields|exact Hq3]).
    destruct (wake_put [ep] [] (upd_fn q ep l) u s4 A4 Hq4) as (s5 & -> & A5 & Hq5 & Hs5);
      [by rewrite I5|by rewrite I2; apply Hrf|]. cbn [mbind res_bind].
    apply returns_bind. eapply returns_mono; [apply (rel_acct W HW _ _ _ _ A5)|].
    intros s6 (A6 & K6 & S6). split; [reflexivity|]. split; [exact A6|]. exists u, l. split; [exact Hql|].
    split; [by rewrite K6|]. split.
    + rewrite K6, Hs5. split; cbn; try done.
      * rewrite I6. split; [|unfold s3, s2; cbn; apply upd_fn_same]. unfold same_payload. change (ipc_msg (ip s4) u) with (msg s4 u).
        destruct M2 as (-> & -> & -> & ->). rewrite Hm3. destruct Hpl as (-> & -> & -> & ->). rewrite Hm2. by split_and!.
      * intros v Hv. change (ipc_msg (ip s4) v) with (msg s4 v). rewrite M1 by done. unfold s3, s2. cbn. by rewrite !upd_fn_other.
      * by rewrite I1.
      * by rewrite I2.
    + apply (carried_mono attached_cap u x s3 s4); [exact Hca|rewrite Hs5 in S6; exact S6|by rewrite K6, Hs5].
Qed.
End send.

(** ** The handlers *)

(** The message a thread's registers describe, with the badge of the capability
    it invoked. *)
Definition sent s t (b : Z) : ipc_stage := st_badge b (ipc_msg_load (sc_arg (th s t))).

(** A staged capability is one the sender's slot held with the transfer right,
    with no more rights and the same badge. *)
Definition cap_sound (σ : mdb_state) (x : xfer) : Prop :=
  match x with
  | None => True
  | Some c => let p := InNode (cap_src_cn c) (cap_src_idx c) in
      object σ p = Some (cap_obj c) ∧ rights_check (rights σ p) RIGHT_TRANSFER = true ∧
      rights_le (cap_rights c) (rights σ p) ∧ cap_rights c ≠ RIGHT_NONE ∧ cap_badge c = badge σ p
  end.

Lemma verdict_sound κ (root : option N) cptr rts c :
  stage_verdict κ root cptr rts = inr c → cap_sound (mdb κ) (Some c).
Proof.
  unfold stage_verdict. destruct (negb _); [done|]. destruct (cspace_lookup_slot _ _ _) as [|[cn i]]; [done|].
  destruct (object _ _) as [xo|] eqn:Ho; [|done]. destruct (rights_check _ RIGHT_TRANSFER) eqn:Hr; [|done]. cbn [negb].
  destruct (Z.eqb_spec (rights_reduce (rights (mdb κ) (InNode cn i)) rts) RIGHT_NONE) as [|Hne]; [done|].
  intros [= <-]. cbn. split_and!; try done. apply rights_reduce_le.
Qed.

(** A thread that runs: queued nowhere, with nothing in flight. *)
Record running W s t : Prop := Running {
  rn_free  : blocking_ep (ip s) t = None;
  rn_clean : ep_cap_obj (th s t) = None ∧ ep_cap_src_cn (th s t) = None ∧ sc_held (th s t) = None ∧
             ep_reply_obj (th s t) = None ∧ pending_kreply (th s t) = None;
  rn_in    : t ∈ L W ∧ (N.to_nat t < task_bound (sch (ip s)))%nat;
  rn_refs  : 1 ≤ trefs (ip s) t < 2 ^ 31 - 1;
  rn_root  : root_ok W s t;
}.

(** On the way in: the thread's own message and reference counts change. *)
Record entered t s s' : Prop := Entered {
  en_th  : th s' = th s;
  en_rps : rps s' = rps s;
  en_msg : ∀ v, v ≠ t → msg s' v = msg s v;
  en_ip  : sch (ip s') = sch (ip s) ∧ trefs (ip s') = trefs (ip s) ∧ eps (ip s') = eps (ip s) ∧
           ep_next (ip s') = ep_next (ip s) ∧ blocking_ep (ip s') = blocking_ep (ip s) ∧
           ipc_msg_ready (ip s') = ipc_msg_ready (ip s) ∧ ipc_ep_closed (ip s') = ipc_ep_closed (ip s);
  en_mdb : mdb (kc s') = mdb (kc s);
}.

#[global] Instance entered_preorder t : PreOrder (entered t).
Proof.
  split.
  - intros s. split; [done|done|done| |done]. by split_and!.
  - intros s1 s2 s3 [A1 A2 A3 (A4 & A5 & A6 & A7 & A8 & A9 & A10) A11] [B1 B2 B3 (B4 & B5 & B6 & B7 & B8 & B9 & B10) B11].
    split; [congruence|congruence| |split_and!; congruence|congruence]. intros v Hv. by rewrite B3, A3.
Qed.

Lemma entered_msg t m s : entered t s (put_msg t m s).
Proof.
  split; [done|done| |by split_and!|done]. intros v Hv. unfold msg, put_msg. cbn. by rewrite upd_fn_other.
Qed.

Lemma entered_kc t s s' : kc_only s s' → mdb (kc s') = mdb (kc s) → entered t s s'.
Proof. intros K Hm. split; [by rewrite K..|intros; by rewrite K|rewrite K; by split_and!|exact Hm]. Qed.

Lemma entered_q t s s' q : entered t s s' → qok (ip s) q → qok (ip s') q.
Proof. intros [_ _ _ (E1 & E2 & E3 & E4 & E5 & _) _]. apply qok_same. by apply q_same_fields. Qed.

Lemma entered_root W t s s' u : entered t s s' → root_ok W s u → root_ok W s' u.
Proof.
  intros [E1 _ _ _ E2]. unfold root_ok, cspace_of, live_root, anchored. rewrite E1, E2. done.
Qed.

Lemma entered_running W t s s' u : entered t s s' → running W s u → running W s' u.
Proof.
  intros He [R1 R2 R3 R4 R5]. pose proof (entered_root W t s s' u He R5).
  destruct He as [E1 _ _ (E2 & E3 & E4 & E5 & E6 & _) _]. split; [|rewrite E1; exact R2| | |done].
  - by rewrite E6.
  - by rewrite E2.
  - by rewrite E3.
Qed.

Lemma msg_put t m s : msg (put_msg t m s) t = m.
Proof. unfold msg, put_msg. cbn. apply upd_fn_same. Qed.

Section handlers.
Context (W : world) (HW : world_ok W).

Lemma send_enter_spec s t arg0 :
  acct W [] [] s → running W s t →
  returns (send_enter t arg0 s) (λ '(r, s'), entered t s s' ∧
    match r with
    | inl _ => acct W [] [] s'
    | inr ep => ∃ b, acct W [ep] [] s' ∧ msg s' t = sent s t b ∧
        found (kc s) KOBJ_ENDPOINT (Some (troot (th s t))) (cspace_of s t) arg0 RIGHT_WRITE ep b
    end).
Proof.
  intros Ha Hrn. unfold send_enter. apply returns_bind.
  eapply returns_mono; [apply (resolve_acct W HW [] [] KOBJ_ENDPOINT (Some (troot (th s t))) arg0 RIGHT_WRITE s t Ha);
    [simpl; lia|simpl; lia|apply Hrn|done]|].
  intros [[e|[[ep rts] b]] κ'] [Hm Hp].
  - split; [by apply entered_kc|exact Hp].
  - split; [etransitivity; [by apply (entered_kc t s (with_kc κ' s))|apply entered_msg]|].
    exists b. destruct Hp as [Hp Hf]. split; [|split; [apply msg_put|exact Hf]].
    apply (acct_sch W _ _ (with_kc κ' s)); [exact Hp|reflexivity].
Qed.

Lemma acct_msg ll la t m s : acct W ll la s → acct W ll la (put_msg t m s).
Proof. intros Ha. apply (acct_sch W _ _ s); [exact Ha|reflexivity]. Qed.

Lemma stage_out_spec ll la s t e s' :
  stage_out t s = (e, s') → acct W ll la s →
  acct W ll la s' ∧ entered t s s' ∧ same_payload (msg s t) (msg s' t).
Proof.
  unfold stage_out. destruct (ipc_stage_out _ _) as [e' m] eqn:Hm. intros [= -> <-] Ha.
  split; [by apply acct_msg|]. split; [apply entered_msg|]. rewrite msg_put. revert Hm. unfold ipc_stage_out.
  destruct (_ =? 0); [by intros [= _ <-]|]. destruct (ipc_buffer _); by intros [= _ <-].
Qed.

Lemma peek_attached_spec ll la s t :
  acct W ll la s → (length ll ≤ 6)%nat → (length la ≤ 6)%nat → root_ok W s t →
  returns (peek_attached t s) (λ '(r, s'), entered t s s' ∧ same_payload (msg s t) (msg s' t) ∧
    match r with
    | inl _ => acct W ll la s'
    | inr x => acct W (xl x ++ ll) (xa x ++ la) s' ∧ cap_sound (mdb (kc s)) x
    end).
Proof.
  intros Ha H1 H2 Hr. unfold peek_attached. apply returns_bind.
  eapply returns_mono; [apply (stage_peek_acct W HW ll la t _ _ s Ha H1 H2 Hr)|].
  intros [r s1] (K & Hm & Hp). pose proof (entered_kc t _ _ K Hm) as He.
  assert (msg s1 t = msg s t) as Hms by (by rewrite K).
  destruct r as [e|[c|]].
  - split; [exact He|]. split; [by rewrite Hms|exact Hp].
  - destruct Hp as [Hp Hv]. split; [etransitivity; [exact He|apply entered_msg]|].
    split; [rewrite msg_put, Hms; by split_and!|]. split; [by apply acct_msg|by eapply verdict_sound].
  - destruct Hp as [Hp _]. split; [exact He|]. split; [by rewrite Hms|]. by split.
Qed.
(** What a blocked sender keeps: the message, the capability and the endpoint. *)
Record send_parked t ep (x : xfer) s s' : Prop := SendParked {
  sp_state : st (ip s') t = TASK_BLOCKED_SEND;
  sp_msg   : ∀ v, msg s' v = msg s v;
  sp_held  : sc_held (th s' t) = Some ep;
  sp_cap   : (ep_cap_obj (th s' t), ep_cap_rights (th s' t), ep_cap_badge (th s' t), ep_cap_src_cn (th s' t), ep_cap_src_idx (th s' t)) =
    match x with
    | Some c => (Some (cap_obj c), cap_rights c, cap_badge c, Some (cap_src_cn c), cap_src_idx c)
    | None => (None, 0, 0, None, 0%N)
    end;
  sp_call  : ep_call_mode (th s' t) = ep_call_mode (th s t) ∧ ep_fault_call (th s' t) = ep_fault_call (th s t);
  sp_other : ∀ v, v ≠ t → th s' v = th s v ∧ st (ip s') v = st (ip s) v;
  sp_kc    : kc s' = kc s;
}.

Lemma send_park_spec s q t ep (x : xfer) (s' := send_park t ep x s) :
  acct W (xl x ++ [ep]) (xa x) s → running W s t → qok (ip s) q →
  ep_closed (eps (ip s) ep) = false → ep_state (eps (ip s) ep) ≠ EP_STATE_RECV →
  acct W [] [] s' ∧ qok (ip s') (upd_fn q ep (q ep ++ [t])) ∧ send_parked t ep x s s'.
Proof.
  intros Ha [R1 (C1 & C2 & C3 & C4 & C5) [R3 R3'] R4 R5] Hq Hcl Hst. subst s'. unfold send_park.
  set (f := λ e, match x with None => _ | Some c => _ end).
  set (s1 := upd_th t f (put_closed t false (put_ready t false s))).
  assert (qok (ip s1) q) as Hq1 by (apply (qok_same (ip s)); [by apply q_same_fields|exact Hq]).
  assert (ep_state (eps (ip s1) ep) = EP_STATE_IDLE ∨ ep_state (eps (ip s1) ep) = EP_STATE_SEND) as Hdir.
  { change (eps (ip s1)) with (eps (ip s)). destruct (ep_state (eps (ip s) ep)) eqn:E; [by left|by right|done]. }
  destruct (ep_enqueue_spec s1 q ep EP_STATE_SEND t Hq1 ltac:(discriminate) Hdir Hcl R1 R4 R3') as [Hq2 (es & nx & bl & Hs2)].
  change (blocked_as EP_STATE_SEND) with TASK_BLOCKED_SEND in *. set (s2 := ep_enqueue ep _ t _ s1) in *.
  assert (th s2 = upd_fn (th s) t (f (th s t)) ∧ kc s2 = kc s) as [Ht2 Hk2] by (rewrite Hs2; done).
  assert (∀ v, sctx s2 v = sctx s v) as Hc2.
  { intros v. rewrite Hs2. unfold sctx. cbn. unfold upd_task. cbn. destruct (decide (v = t)) as [->|];
      [by rewrite upd_fn_same|by rewrite upd_fn_other]. }
  split; [|split; [exact Hq2|]].
  - eapply (acct_upd W HW _ _ _ _ s _ t Ha R3).
    + exact Hk2.
    + intros v Hv. unfold held, helda, upd_th. cbn [th with_th]. rewrite upd_fn_other by done.
      change (sctx (with_th _ s2) v) with (sctx s2 v). rewrite Hc2, Ht2, upd_fn_other by done. done.
    + intros o. unfold held, upd_th. cbn [th with_th]. rewrite upd_fn_same.
      change (sctx (with_th _ s2) t) with (sctx s2 t). rewrite Hc2, Ht2, upd_fn_same, C1, C2, C3, C4, C5.
      destruct x as [c|]; cbn [f put_held put_src put_cap ep_cap_obj ep_cap_src_cn sc_held ep_reply_obj pending_kreply olist xl];
        rewrite ?C4, ?C5; cbn [olist]; cnt_lia.
    + intros o. unfold helda, upd_th. cbn [th with_th]. rewrite upd_fn_same, Ht2, upd_fn_same, C2.
      destruct x as [c|]; cbn [f put_held put_src put_cap ep_cap_src_cn olist xa]; cnt_lia.
  - assert (∀ v, st (ip s2) v = if decide (v = t) then TASK_BLOCKED_SEND else st (ip s) v) as Hst2.
    { intros v. rewrite Hs2. unfold st. cbn. unfold upd_task. cbn. destruct (decide (v = t)) as [->|];
        [by rewrite upd_fn_same|by rewrite upd_fn_other]. }
    split; unfold upd_th; cbn [th ip kc with_th].
    + by rewrite Hst2, decide_True.
    + intros v. rewrite Hs2. done.
    + by rewrite upd_fn_same.
    + rewrite upd_fn_same, Ht2, upd_fn_same. by destruct x.
    + rewrite upd_fn_same, Ht2, upd_fn_same. by destruct x.
    + intros v Hv. rewrite upd_fn_other, Ht2, upd_fn_other, Hst2, decide_False by done. done.
    + exact Hk2.
Qed.
Lemma ep_send_fastpath_spec s q t ep :
  acct W [ep] [] s → qok (ip s) q → blocking_ep (ip s) t = None →
  returns (ep_send_fastpath t ep s) (λ '(f, s'),
    match f with
    | None => s' = s
    | Some r => r = Ok 0 ∧ acct W [] [] s' ∧ ep_state (eps (ip s) ep) = EP_STATE_RECV ∧ rendezvous t ep None q s s'
    end).
Proof.
  intros Ha Hq Ht. unfold ep_send_fastpath. destruct (ep_closed _); [reflexivity|]. cbn [orb].
  destruct (decide (ep_state (eps (ip s) ep) = EP_STATE_RECV)) as [Hst|Hst];
    [rewrite bool_decide_true by done|rewrite bool_decide_false by done; reflexivity]. cbn [negb].
  destruct (ep_dequeue_spec s q ep Hq) as (u & l & s1 & Hql & _ & -> & Hq1 & (es & nx & bl & ->) & Hu & _); [by rewrite Hst|].
  assert (u ∈ q ep) as Hin by (rewrite Hql; left). destruct (q_refs _ _ Hq _ _ Hin) as [Hrf _].
  cbn [mbind res_bind]. cbv zeta. set (s2 := put_ready u true _).
  assert (acct W [ep] [] s2) as A2 by (apply (acct_sch W _ _ s); [exact Ha|reflexivity]).
  assert (qok (ip s2) (upd_fn q ep l)) as Hq2 by (eapply qok_same; [|exact Hq1]; by apply q_same_fields).
  destruct (wake_put W [ep] [] (upd_fn q ep l) u s2 A2 Hq2 Hu (proj1 Hrf)) as (s3 & -> & A3 & Hq3 & Hs3). cbn [mbind res_bind].
  apply returns_bind. eapply returns_mono; [apply (rel_acct W HW _ _ _ _ A3)|].
  intros s4 (A4 & K4 & S4). split; [reflexivity|]. split; [exact A4|]. split; [exact Hst|]. exists u, l. split; [exact Hql|].
  split; [by rewrite K4|].
  assert (msg s4 u = clean_msg (msg s t)) as Hm by (rewrite K4, Hs3; unfold msg, s2; cbn; apply upd_fn_same).
  split; [|split; [rewrite Hm; reflexivity|rewrite Hs3 in S4; exact S4]].
  split; try (rewrite K4, Hs3; reflexivity).
  - rewrite Hm. split; [by split_and!|]. rewrite K4, Hs3. cbn. apply upd_fn_same.
  - intros v Hv. rewrite K4, Hs3. unfold msg, s2. cbn. by rewrite upd_fn_other.
  - rewrite K4, Hs3. split; [done|]. exists (ep_recv_slot (th s u)). by rewrite put_slot_id.
Qed.

(** A refused send: the endpoint, the threads and the other messages are as they
    were, and no capability appeared. *)
Definition refused t q s s' : Prop := ∃ s1, entered t s s1 ∧ kc_only s1 s' ∧ kshrinks (kc s1) (kc s') ∧ qok (ip s') q.

Definition send_result t (arg0 : Z) q s (r : sysret) s' : Prop :=
  match r with
  | Err _ => refused t q s s'
  | _ => ∃ ep b x s1,
      found (kc s) KOBJ_ENDPOINT (Some (troot (th s t))) (cspace_of s t) arg0 RIGHT_WRITE ep b ∧
      cap_sound (mdb (kc s)) x ∧ entered t s s1 ∧ same_payload (sent s t b) (msg s1 t) ∧
      match r with
      | Park => ep_state (eps (ip s) ep) ≠ EP_STATE_RECV ∧ qok (ip s') (upd_fn q ep (q ep ++ [t])) ∧ send_parked t ep x s1 s'
      | _ => ep_state (eps (ip s) ep) = EP_STATE_RECV ∧ rendezvous t ep x q s1 s'
      end
  end.

(** Giving up with the locals [ll] and [la] still held. *)
Lemma back_out t q s s1 ep (x : xfer) e :
  acct W (xl x ++ [ep]) (xa x) s1 → entered t s s1 → qok (ip s) q →
  returns (s ← stage_abort x s1; s ← rel ep s; Ret (Err e, s)) (λ '(r, s'), r = Err e ∧ acct W [] [] s' ∧ refused t q s s').
Proof.
  intros Ha He Hq. apply returns_bind.
  eapply returns_mono; [apply (stage_abort_acct W HW [ep] [] x s1)|].
  { destruct x; exact Ha. }
  intros s2 (A2 & K2 & S2). apply returns_bind. eapply returns_mono; [apply (rel_acct W HW _ _ _ _ A2)|].
  intros s3 (A3 & K3 & S3). split; [reflexivity|]. split; [exact A3|]. exists s1. split; [exact He|].
  assert (kc_only s1 s3) as K by (rewrite K3, K2; reflexivity). split; [exact K|]. split; [etransitivity; [exact S2|exact S3]|].
  rewrite K. exact (entered_q t s s1 q He Hq).
Qed.

Lemma same_payload_trans m1 m2 m3 : same_payload m1 m2 → same_payload m2 m3 → same_payload m1 m3.
Proof. unfold same_payload. intros (-> & -> & -> & ->) (-> & -> & -> & ->). by split_and!. Qed.

(** From the staging of the payload on; [nb] is the non-blocking variant. *)
Lemma send_staged t arg0 q s s1 ep b (nb : bool) (K : xfer → ek → res (sysret * ek)) :
  acct W [ep] [] s1 → entered t s s1 → qok (ip s) q → running W s t → (∀ e u, u ∈ q e → root_ok W s u) →
  msg s1 t = sent s t b →
  found (kc s) KOBJ_ENDPOINT (Some (troot (th s t))) (cspace_of s t) arg0 RIGHT_WRITE ep b →
  (∀ x s, K x s =
    let k := eps (ip s) ep in
    if ep_closed k then s ← stage_abort x s; s ← rel ep s; Ret (Err IRIS_ERR_CLOSED, s)
    else if bool_decide (ep_state k = EP_STATE_RECV) then send_rendezvous t ep x s
    else if nb then s ← stage_abort x s; s ← rel ep s; Ret (Err IRIS_ERR_WOULD_BLOCK, s)
    else Ret (Park, send_park t ep x s)) →
  returns (let '(e, s) := stage_out t s1 in
    if negb (bool_decide (e = IRIS_OK)) then s ← rel ep s; Ret (Err IRIS_ERR_INVALID_ARG, s)
    else
      '(p, s) ← peek_attached t s;
      match p with
      | inl e => s ← rel ep s; Ret (Err e, s)
      | inr x => K x s
      end) (λ '(r, s'), acct W [] [] s' ∧ send_result t arg0 q s r s' ∧ (nb = true → r ≠ Park)).
Proof.
  intros Ha He Hq Hrn Hroots Hm Hf HK. destruct (stage_out t s1) as [e s2] eqn:Hso.
  destruct (stage_out_spec _ _ _ _ _ _ Hso Ha) as (A2 & E2 & P2).
  assert (∀ s e, acct W [ep] [] s → entered t s1 s →
    returns (s' ← rel ep s; Ret (Err e, s')) (λ '(r, s'), r = Err e ∧ acct W [] [] s' ∧ refused t q s1 s')) as Hgive.
  { intros s0 e0 A0 E0. apply (back_out t q s1 s0 ep None); [exact A0|exact E0|by apply (entered_q t s)]. }
  assert (∀ r s', (∃ e, r = Err e ∧ acct W [] [] s' ∧ refused t q s1 s') →
    acct W [] [] s' ∧ send_result t arg0 q s r s' ∧ (nb = true → r ≠ Park)) as Herr.
  { intros r s' (e0 & -> & A' & s0 & R1 & R2). split; [exact A'|]. split; [|done]. exists s0.
    split; [by etransitivity|exact R2]. }
  case_bool_decide; cbn [negb].
  2: { eapply returns_mono; [by apply Hgive|]. intros [r s'] Hr. apply Herr. eauto. }
  apply returns_bind. eapply returns_mono; [apply (peek_attached_spec [ep] [] s2 t A2)|].
  { simpl. lia. } { simpl. lia. } { eapply entered_root; [|apply Hrn]. by etransitivity. }
  assert (entered t s s2) as E02 by (by etransitivity).
  intros [p s3] (E3 & P3 & Hp). assert (entered t s s3) as E03 by (by etransitivity).
  assert (entered t s1 s3) as E13 by (by etransitivity).
  destruct p as [e3|x].
  { eapply returns_mono; [by apply Hgive|]. intros [r s'] Hr. apply Herr. eauto. }
  destruct Hp as [A3 Hsound]. rewrite app_nil_r in A3. rewrite HK. cbv zeta.
  assert (eps (ip s3) = eps (ip s)) as Hep by apply E03.
  assert (qok (ip s3) q) as Hq3 by (by apply (entered_q t s)).
  assert (same_payload (sent s t b) (msg s3 t)) as Hpl by (rewrite <-Hm; by eapply same_payload_trans).
  rewrite (en_mdb _ _ _ E02) in Hsound.
  destruct (ep_closed (eps (ip s3) ep)) eqn:Hcl.
  { eapply returns_mono; [apply (back_out t q s1 s3 ep x _ A3 E13); by apply (entered_q t s)|]. intros [r s'] Hr. apply Herr. eauto. }
  rewrite Hep in Hcl |- *. destruct (decide (ep_state (eps (ip s) ep) = EP_STATE_RECV)) as [Hst|Hst].
  - rewrite bool_decide_true by done.
    eapply returns_mono; [apply (send_rendezvous_spec W HW s3 q t ep x A3 Hq3)|].
    + by rewrite Hep.
    + apply (entered_running W t s s3 t E03 Hrn).
    + intros u Hu. eapply entered_root; [exact E03|by eapply Hroots].
    + intros [r s'] (-> & A' & Hrv). split; [exact A'|]. split; [|done]. exists ep, b, x, s3. by split_and!.
  - rewrite bool_decide_false by done. destruct nb.
    + eapply returns_mono; [apply (back_out t q s1 s3 ep x _ A3 E13); by apply (entered_q t s)|]. intros [r s'] Hr. apply Herr. eauto.
    + destruct (send_park_spec s3 q t ep x A3 (entered_running W t s s3 t E03 Hrn) Hq3) as (A4 & Hq4 & Hpk);
        [by rewrite Hep|by rewrite Hep|].
      split; [exact A4|]. split; [|done]. exists ep, b, x, s3. by split_and!.
Qed.

(** What a caller may assume: a consistent kernel, a running thread that enters
    the kernel afresh, queued threads with live CSpaces. *)
Record at_entry q s t : Prop := AtEntry {
  ae_acct  : acct W [] [] s;
  ae_q     : qok (ip s) q;
  ae_run   : running W s t;
  ae_fresh : sc_reentry (th s t) = false;
  ae_cs    : cspace_of s t ≠ None;
  ae_roots : ∀ e u, u ∈ q e → root_ok W s u;
}.

Lemma refused_enter t q s s' : entered t s s' → qok (ip s) q → refused t q s s'.
Proof.
  intros He Hq. exists s'. split; [exact He|]. split; [by destruct s'|]. split; [reflexivity|].
  exact (entered_q t s s' q He Hq).
Qed.

Lemma send_spec q s t arg0 :
  at_entry q s t →
  returns (sys_ep_send t arg0 s) (λ '(r, s'), acct W [] [] s' ∧ send_result t arg0 q s r s').
Proof.
  intros [Ha Hq Hrn Hre Hcs Hroots]. unfold sys_ep_send. rewrite bool_decide_false, Hre by exact Hcs.
  apply returns_bind. eapply returns_mono; [apply (send_enter_spec s t arg0 Ha Hrn)|].
  intros [[e|ep] s1] [He Hp]; [split; [exact Hp|apply refused_enter; [exact He|exact Hq]]|].
  destruct Hp as (b & A1 & Hm & Hf). apply returns_bind.
  pose proof (entered_q t s s1 q He Hq) as Hq1.
  eapply (returns_mono _ (λ '(f, s2), match f with
    | None => s2 = s1
    | Some r => r = Ok 0 ∧ acct W [] [] s2 ∧ ep_state (eps (ip s1) ep) = EP_STATE_RECV ∧ rendezvous t ep None q s1 s2
    end)).
  { destruct (_ && _); [|reflexivity]. apply ep_send_fastpath_spec; [exact A1|exact Hq1|].
    apply (rn_free _ _ _ (entered_running W t s s1 t He Hrn)). }
  intros [[r|] s2] Hfast; [destruct Hfast as (-> & A2 & Hst & Hrv)|subst s2].
  - split; [exact A2|]. exists ep, b, None, s1. split; [exact Hf|]. split; [exact I|]. split; [exact He|].
    split; [rewrite Hm; done|]. destruct (en_ip _ _ _ He) as (_ & _ & E & _). rewrite E in Hst. by split.
  - eapply returns_mono; [apply (send_staged t arg0 q s s1 ep b false _ A1 He Hq Hrn Hroots Hm Hf); reflexivity|].
    intros [r s'] (A' & Hr & _). by split.
Qed.

Lemma nb_send_spec q s t arg0 :
  at_entry q s t →
  returns (sys_ep_nb_send t arg0 s) (λ '(r, s'), acct W [] [] s' ∧ send_result t arg0 q s r s' ∧ r ≠ Park).
Proof.
  intros [Ha Hq Hrn Hre Hcs Hroots]. unfold sys_ep_nb_send. rewrite bool_decide_false by exact Hcs.
  apply returns_bind. eapply returns_mono; [apply (send_enter_spec s t arg0 Ha Hrn)|].
  intros [[e|ep] s1] [He Hp]; [split; [exact Hp|split; [apply refused_enter; [exact He|exact Hq]|done]]|].
  destruct Hp as (b & A1 & Hm & Hf).
  eapply returns_mono; [apply (send_staged t arg0 q s s1 ep b true _ A1 He Hq Hrn Hroots Hm Hf);
    intros x s0; cbv zeta; destruct (ep_closed _); [reflexivity|]; by case_bool_decide|].
  intros [r s'] (A' & Hr & Hn). split; [exact A'|]. split; [exact Hr|by apply Hn].
Qed.
End handlers.
