(* ===== verification/EndpointRecv.v ===== *)
(** * Receiving on an endpoint

    EP_RECV and EP_NB_RECV against the queue as a list: a receive takes the
    message of the first sender and nobody else's, or the signals pending on the
    bound notification, or waits at the end of the queue, or fails with every
    queue as it was.  A sender in a call is left waiting on the reply object the
    receiver staged, with its scheduling context lent to the receiver. *)

From Stdlib Require Import ZArith Lia.
From stdpp Require Import base numbers gmap list.
From S2P Require Import Prelude Rights Forest Mdb Cdt Kobject Kcnode KcnodeInv KcnodeInstall Cspace IpcCap.
From S2P Require Import Kschedctx Runq RunqInv RunqSpec SchedSpec Wq Ipc Knotification IpcMsg.
From S2P Require Import Endpoint EndpointInv EndpointQueue EndpointSend.
Local Open Scope Z_scope.
Implicit Types (s : ek) (t u o ep : N) (κ : kstate) (q : N → list N).

(** ** Entering and leaving *)

(** Only the receiver's own declaration and staging change, and capabilities may
    only go away. *)
Record rframe t s s' : Prop := RFrame {
  rf_th   : ∀ v, v ≠ t → th s' v = th s v;
  rf_t    : ∃ slot ro rv, th s' t = put_reply ro rv (put_slot slot (th s t));
  rf_ip   : ip s' = with_ntfs (ntfs (ip s')) (ip s) ∧ ∀ n, ntfs (ip s') n = ntfs (ip s) n;
  rf_caps : cdt_shrinks (abs (mdb (kc s))) (abs (mdb (kc s')));
  rf_rps  : ∀ r, r_caller (rps s' r) = r_caller (rps s r) ∧ donated_sc (rps s' r) = donated_sc (rps s r) ∧
            donated_to (rps s' r) = donated_to (rps s r);
}.

#[global] Instance rframe_preorder t : PreOrder (rframe t).
Proof.
  split.
  - intros s. split; [done| |split; [by destruct (ip s)|done]|reflexivity|done]. exists (ep_recv_slot (th s t)), (ep_reply_obj (th s t)), (ep_reply_val (th s t)).
    by destruct (th s t).
  - intros s1 s2 s3 [A1 (a & b & c & A2) [A3 A6] A4 A5] [B1 (a' & b' & c' & B2) [B3 B6] B4 B5]. split.
    + intros v Hv. by rewrite B1, A1.
    + exists a', b', c'. rewrite B2, A2. done.
    + split; [rewrite B3, A3; done|intros n; by rewrite B6, A6].
    + etransitivity; [exact A4|exact B4].
    + intros r. destruct (B5 r) as (-> & -> & ->). apply A5.
Qed.

Lemma rframe_kc t s s' : kc_only s s' → cdt_shrinks (abs (mdb (kc s))) (abs (mdb (kc s'))) → rframe t s s'.
Proof.
  intros K Hc. split; [by rewrite K| |rewrite K; cbn; by destruct (ip s)|exact Hc|by rewrite K]. rewrite K. cbn.
  exists (ep_recv_slot (th s t)), (ep_reply_obj (th s t)), (ep_reply_val (th s t)). by destruct (th s t).
Qed.

Lemma rframe_mdb t s κ' : mdb κ' = mdb (kc s) → rframe t s (with_kc κ' s).
Proof. intros Hm. apply rframe_kc; [reflexivity|]. cbn [kc with_kc]. by rewrite Hm. Qed.

Lemma rframe_slot t s slot : rframe t s (upd_th t (put_slot slot) s).
Proof.
  split; [intros v Hv; by apply upd_fn_other| |cbn; by destruct (ip s)|reflexivity|done]. cbn. rewrite upd_fn_same.
  exists slot, (ep_reply_obj (th s t)), (ep_reply_val (th s t)). by destruct (th s t).
Qed.

Lemma rframe_reply t s ro rv : rframe t s (upd_th t (put_reply ro rv) s).
Proof.
  split; [intros v Hv; by apply upd_fn_other| |cbn; by destruct (ip s)|reflexivity|done]. cbn. rewrite upd_fn_same.
  exists (ep_recv_slot (th s t)), ro, rv. by destruct (th s t).
Qed.

Lemma rframe_stage t s r v :
  rframe t s (upd_rp r (λ k, Reply (r_caller k) v (donated_sc k) (donated_to k)) s).
Proof.
  split; [done| |cbn; by destruct (ip s)|reflexivity|].
  - exists (ep_recv_slot (th s t)), (ep_reply_obj (th s t)), (ep_reply_val (th s t)). cbn. by destruct (th s t).
  - intros r'. cbn. unfold upd_fn. by case_decide; subst.
Qed.

Section recv.
Context (W : world) (HW : world_ok W).

Lemma acct_rps ll la s f : acct W ll la s → acct W ll la (with_rps f s).
Proof. intros Ha. eapply acct_same; [exact Ha|reflexivity|]. by intros t. Qed.

Lemma rframe_root t s s' u : rframe t s s' → mdb (kc s') = mdb (kc s) → root_ok W s u → root_ok W s' u.
Proof.
  intros Hf Hm. unfold root_ok, cspace_of, live_root, anchored. rewrite Hm.
  assert (troot (th s' u) = troot (th s u)) as ->; [|done].
  destruct (decide (u = t)) as [->|Hu]; [destruct (rf_t _ _ _ Hf) as (a & b & c & ->); done|by rewrite (rf_th _ _ _ Hf)].
Qed.

Lemma acct_slot ll la s u v : acct W ll la s → acct W ll la (upd_th u (put_slot v) s).
Proof. apply acct_field. by intros e. Qed.

(** A reference the thread records becomes a local, or the other way round. *)
Lemma acct_reply ll la s t (ro : option N) rv :
  t ∈ L W → acct W (olist ro ++ ll) la s → ep_reply_obj (th s t) = None → acct W ll la (upd_th t (put_reply ro rv) s).
Proof.
  intros Ht Ha Hn. eapply (acct_upd W HW _ _ _ _ s _ t Ha Ht); [reflexivity|..].
  - intros v Hv. unfold held, helda, upd_th, sctx. cbn [th ip with_th]. by rewrite upd_fn_other.
  - intros o. unfold held, upd_th, sctx. cbn [th ip with_th]. rewrite upd_fn_same, Hn. cbn. cnt_lia.
  - intros o. unfold helda, upd_th. cbn [th with_th]. by rewrite upd_fn_same.
Qed.

Lemma acct_unreply ll la s t :
  t ∈ L W → acct W ll la s → acct W (olist (ep_reply_obj (th s t)) ++ ll) la (upd_th t (put_reply None 0) s).
Proof.
  intros Ht Ha. eapply (acct_upd W HW _ _ _ _ s _ t Ha Ht); [reflexivity|..].
  - intros v Hv. unfold held, helda, upd_th, sctx. cbn [th ip with_th]. by rewrite upd_fn_other.
  - intros o. unfold held, upd_th, sctx. cbn [th ip with_th]. rewrite upd_fn_same. cbn. cnt_lia.
  - intros o. unfold helda, upd_th. cbn [th with_th]. by rewrite upd_fn_same.
Qed.

Lemma unstage_spec ll la s t :
  acct W ll la s → t ∈ L W →
  returns (ep_recv_reply_unstage t s) (λ s', acct W ll la s' ∧ rframe t s s' ∧ kshrinks (kc s) (kc s')).
Proof.
  intros Ha Ht. unfold ep_recv_reply_unstage. pose proof (acct_unreply ll la s t Ht Ha) as A1.
  destruct (ep_reply_obj (th s t)) as [rp|] eqn:Hr; [|split; [exact Ha|split; reflexivity]].
  set (s1 := upd_th t (put_reply None 0) s) in *.
  assert (acct W (rp :: ll) la (kreply_unstage rp s1) ∧ rframe t s (kreply_unstage rp s1) ∧
    kc (kreply_unstage rp s1) = kc s) as (A2 & F2 & K2).
  { unfold kreply_unstage. pose proof (rframe_reply t s None 0) as F1. fold s1 in F1. destruct (_ && _).
    - split; [by apply acct_rps|]. split; [|reflexivity]. etransitivity; [exact F1|apply rframe_stage].
    - split; [exact A1|]. split; [exact F1|reflexivity]. }
  eapply returns_mono; [apply (rel_acct W HW _ _ _ _ A2)|].
  intros s2 (A3 & K & S). split; [exact A3|]. split; [|rewrite <-K2; exact S].
  etransitivity; [exact F2|]. apply rframe_kc; [exact K|apply S].
Qed.

(** The reply object a receive has staged is free, and its own. *)
Definition reply_ready (arg : Z) s t : Prop :=
  match ep_reply_obj (th s t) with
  | None => True
  | Some rp => r_staged (rps s rp) = true ∧ r_caller (rps s rp) = None ∧ ep_reply_val (th s t) = u32 arg
  end.

Lemma reply_stage_spec ll la s t arg :
  acct W ll la s → (length ll ≤ 8)%nat → (length la ≤ 8)%nat → running W s t →
  returns (ep_recv_reply_stage t arg s) (λ '(e, s'), acct W ll la s' ∧ rframe t s s' ∧
    (e = IRIS_OK → mdb (kc s') = mdb (kc s) ∧ reply_ready arg s' t)).
Proof.
  intros Ha H1 H2 [_ (_ & _ & _ & Hn & _) [Ht _] _ Hroot]. unfold ep_recv_reply_stage.
  set (s0 := upd_th t (put_reply None 0) s).
  assert (acct W ll la s0) as A0 by (apply acct_reply; [exact Ht|exact Ha|exact Hn]).
  assert (ep_reply_obj (th s0 t) = None) as Hn0 by (cbn; by rewrite upd_fn_same).
  pose proof (rframe_reply t s None 0) as F0. fold s0 in F0.
  destruct (arg =? 0).
  { split; [exact A0|]. split; [exact F0|]. intros _. split; [reflexivity|]. unfold reply_ready. by rewrite Hn0. }
  apply returns_bind. eapply returns_mono;
    [apply (resolve_acct W HW ll la KOBJ_REPLY (Some (troot (th s0 t))) arg RIGHT_WRITE s0 t A0 H1 H2);
      [by apply (rframe_root t s)|done]|].
  intros [r κ'] [Hm Hp]. cbv zeta. pose proof (rframe_mdb t s0 κ' Hm) as F1.
  assert (rframe t s (with_kc κ' s0)) as F01 by (etransitivity; [exact F0|exact F1]).
  destruct r as [e|[[rp rr] b]].
  { split; [exact Hp|]. split; [exact F01|]. intros ->. split; [exact Hm|]. unfold reply_ready. cbn [th with_kc]. by rewrite Hn0. }
  destruct Hp as [Hp _]. unfold kreply_stage. cbn [rps with_kc].
  destruct (r_staged (rps s0 rp) || _) eqn:Hb; cbn [negb].
  - rewrite bool_decide_false by done. cbn [negb]. apply returns_bind. eapply returns_mono; [apply (rel_acct W HW _ _ _ _ Hp)|].
    intros s2 (A2 & K & S). split; [exact A2|]. split; [|discriminate]. etransitivity; [exact F01|]. apply rframe_kc; [exact K|apply S].
  - rewrite bool_decide_true by done. cbn [negb]. set (s2 := upd_rp rp _ _).
    assert (acct W (rp :: ll) la s2) as A2 by (apply acct_rps; exact Hp).
    split; [apply acct_reply; [exact Ht|exact A2|exact Hn0]|]. split.
    + etransitivity; [exact F01|]. etransitivity; [apply (rframe_stage t _ rp true)|]. apply rframe_reply.
    + intros _. split; [exact Hm|]. unfold reply_ready. cbn. rewrite upd_fn_same. cbn. rewrite !upd_fn_same. cbn.
      apply orb_false_iff in Hb as [_ Hb%bool_decide_eq_false]. split; [done|]. split; [|done].
      change (rps s0 rp) with (rps s rp) in Hb. apply eq_None_not_Some. exact Hb.
Qed.

(** What the receiver's own record may be once it has entered. *)
Lemma rframe_clean t s s' : rframe t s s' → running W s t →
  ep_cap_obj (th s' t) = None ∧ ep_cap_src_cn (th s' t) = None ∧ sc_held (th s' t) = None ∧ pending_kreply (th s' t) = None.
Proof. intros Hf [_ (C1 & C2 & C3 & _ & C5) _ _ _]. destruct (rf_t _ _ _ Hf) as (a & b & c & ->). by split_and!. Qed.

Lemma recv_enter_spec s t arg0 arg1 arg2 :
  acct W [] [] s → running W s t →
  returns (recv_enter t arg0 arg1 arg2 s) (λ '(r, s'), rframe t s s' ∧
    match r with
    | inl _ => acct W [] [] s'
    | inr ep => acct W [ep] [] s' ∧ mdb (kc s') = mdb (kc s) ∧ reply_ready arg2 s' t ∧
        ∃ b, found (kc s) KOBJ_ENDPOINT (Some (troot (th s t))) (cspace_of s t) arg0 RIGHT_READ ep b
    end).
Proof.
  intros Ha Hrn. unfold recv_enter. apply returns_bind.
  eapply returns_mono; [apply (resolve_acct W HW [] [] KOBJ_ENDPOINT (Some (troot (th s t))) arg0 RIGHT_READ s t Ha);
    [simpl; lia|simpl; lia|apply Hrn|done]|].
  intros [[e|[[ep rts] b]] κ'] [Hm Hp]; cbv zeta; [split; [by apply rframe_mdb|exact Hp]|].
  destruct Hp as [A1 Hf]. pose proof (rframe_mdb t s κ' Hm) as F1. set (s1 := with_kc κ' s) in *.
  apply returns_bind. eapply returns_mono; [apply (declare_acct W HW [ep] [] t (u32 arg1) s1 A1);
    [simpl; lia|simpl; lia|apply (rframe_root t s s1 t F1 Hm), Hrn]|].
  intros [[e slot] κ2] (A2 & Hm2 & _). set (s2 := upd_th t (put_slot slot) (with_kc κ2 s1)).
  assert (acct W [ep] [] s2) as A2' by (apply acct_slot; exact A2).
  assert (rframe t s s2) as F2.
  { etransitivity; [exact F1|]. etransitivity; [by apply (rframe_mdb t s1 κ2)|apply rframe_slot]. }
  assert (mdb (kc s2) = mdb (kc s)) as Hm20 by (cbn; rewrite Hm2; exact Hm).
  assert (∀ s0 e0, acct W [ep] [] s0 → rframe t s s0 → returns (s ← rel ep s0; Ret (inl e0 : iris_error_t + N, s))
    (λ '(r, s'), rframe t s s' ∧ match r with inl _ => acct W [] [] s' | inr _ => False end)) as Hgive.
  { intros s0 e0 A0 F0. apply returns_bind. eapply returns_mono; [apply (rel_acct W HW _ _ _ _ A0)|].
    intros s9 (A9 & K & S). split; [|exact A9]. etransitivity; [exact F0|]. apply rframe_kc; [exact K|apply S]. }
  destruct (bool_decide (e = IRIS_OK)); cbn [negb].
  2: { eapply returns_mono; [apply (Hgive s2 e A2' F2)|]. intros [[]]; [exact id|by intros []]. }
  assert (running W s2 t) as Hrn2.
  { destruct Hrn as [R1 (C1 & C2 & C3 & C4 & C5) R3 R4 R5]. split.
    - exact R1.
    - destruct (rf_t _ _ _ (rframe_slot t (with_kc κ2 s1) slot)) as (a & b' & c & _). cbn. rewrite upd_fn_same. by split_and!.
    - exact R3.
    - exact R4.
    - by apply (rframe_root t s s2 t F2 Hm20). }
  apply returns_bind. eapply returns_mono; [apply (reply_stage_spec [ep] [] s2 t arg2 A2'); [simpl; lia|simpl; lia|exact Hrn2]|].
  intros [e2 s3] (A3 & F3 & Hok). assert (rframe t s s3) as F03 by (etransitivity; [exact F2|exact F3]).
  case_bool_decide as He; cbn [negb].
  - destruct (Hok He) as [Hm3 Hr]. split; [exact F03|]. split; [exact A3|]. split; [by rewrite Hm3|]. split; [exact Hr|by exists b].
  - eapply returns_mono; [apply (Hgive s3 e2 A3 F03)|]. intros [[]]; [exact id|by intros []].
Qed.
End recv.

(** ** The call: reply object and scheduling context *)

(** The scheduling context of [u] is on loan to [t], noted in the reply object. *)
Definition lends rp t u s s' : Prop :=
  match sctx s t, sctx s u with
  | None, Some sc => sctx s' t = Some sc ∧ sctx s' u = None ∧ (∀ v, v ≠ t → v ≠ u → sctx s' v = sctx s v) ∧
                     donated_sc (rps s' rp) = Some sc ∧ donated_to (rps s' rp) = Some t
  | _, _ => (∀ v, sctx s' v = sctx s v) ∧
            donated_sc (rps s' rp) = donated_sc (rps s rp) ∧ donated_to (rps s' rp) = donated_to (rps s rp)
  end.

Record bound rp t u s s' : Prop := Bound {
  bd_caller : r_caller (rps s' rp) = Some u ∧ r_staged (rps s' rp) = false;
  bd_rps    : ∀ r, r ≠ rp → rps s' r = rps s r;
  bd_t      : th s' t = put_reply None 0 (th s t);
  bd_u      : th s' u = put_pending (Some rp) (th s u);
  bd_th     : ∀ v, v ≠ t → v ≠ u → th s' v = th s v;
  bd_lend   : lends rp t u s s';
  bd_ip     : trefs (ip s') = upd_fn (trefs (ip s)) u (u32 (trefs (ip s) u + 1)) ∧ msg s' = msg s ∧
              eps (ip s') = eps (ip s) ∧ ep_next (ip s') = ep_next (ip s) ∧ blocking_ep (ip s') = blocking_ep (ip s) ∧
              ipc_ep_closed (ip s') = ipc_ep_closed (ip s);
  bd_st     : (∀ v, st (ip s') v = st (ip s) v) ∧ task_bound (sch (ip s')) = task_bound (sch (ip s));
  bd_kc     : kc s' = kc s;
}.

Lemma sctx_put v x s w : sctx (put_sctx v x s) w = if decide (w = v) then x else sctx s w.
Proof. unfold sctx. cbn. unfold upd_task. cbn. unfold upd_fn. by case_decide; subst. Qed.

Lemma st_put v x s w : st (ip (put_sctx v x s)) w = st (ip s) w.
Proof. unfold st. cbn. unfold upd_task. cbn. unfold upd_fn. by case_decide; subst. Qed.

Lemma donate_lends rp t u s : t ≠ u → lends rp t u s (kreply_donate_on_call rp u t s).
Proof.
  intros Hne. unfold lends, kreply_donate_on_call. destruct (sctx s t) eqn:E1; [done|].
  destruct (sctx s u) as [sc|] eqn:E2; [|done].
  change (sctx (kreply_note_donation rp sc t ?x)) with (sctx x). rewrite !sctx_put.
  split; [by rewrite decide_True|]. split; [by rewrite decide_False, decide_True|].
  split; [|cbn; rewrite !upd_fn_same; by split]. intros v H1 H2.
  change (sctx (kreply_note_donation rp sc t ?x)) with (sctx x). by rewrite !sctx_put, !decide_False.
Qed.

(** A loan changes nothing else. *)
Lemma donate_frame rp t u s (s' := kreply_donate_on_call rp u t s) :
  th s' = th s ∧ kc s' = kc s ∧ (∀ r, r ≠ rp → rps s' r = rps s r) ∧
  (∀ r, r_caller (rps s' r) = r_caller (rps s r) ∧ r_staged (rps s' r) = r_staged (rps s r)) ∧
  (trefs (ip s') = trefs (ip s) ∧ msg s' = msg s ∧ eps (ip s') = eps (ip s) ∧ ep_next (ip s') = ep_next (ip s) ∧
   blocking_ep (ip s') = blocking_ep (ip s) ∧ ipc_ep_closed (ip s') = ipc_ep_closed (ip s)) ∧
  (∀ v, st (ip s') v = st (ip s) v) ∧ task_bound (sch (ip s')) = task_bound (sch (ip s)).
Proof.
  subst s'. unfold kreply_donate_on_call. destruct (sctx s t); [by split_and!|]. destruct (sctx s u) as [sc|]; [|by split_and!].
  split; [done|]. split; [done|]. split; [intros r Hr; by apply upd_fn_other|].
  split; [intros r; cbn; unfold upd_fn; by case_decide; subst|]. split; [by split_and!|]. split; [|done].
  intros v. change (ip (kreply_note_donation rp sc t ?x)) with (ip x). by rewrite !st_put.
Qed.

Lemma bind_spec rp t u s :
  t ≠ u → ep_reply_obj (th s t) = Some rp → r_staged (rps s rp) = true → r_caller (rps s rp) = None →
  ∃ s', ep_bind_call_reply t u s = (Some (ep_reply_val (th s t)), s') ∧ bound rp t u s s'.
Proof.
  intros Hne Ho Hs Hc. unfold ep_bind_call_reply. rewrite Ho. unfold kreply_bind_caller. rewrite Hs, Hc.
  cbn [negb orb]. rewrite bool_decide_false by (by intros [? ?]). rewrite bool_decide_true by done. cbn [negb].
  set (s1 := thold u _). pose proof (donate_lends rp t u s1 Hne) as Hl.
  destruct (donate_frame rp t u s1) as (D1 & D2 & D3 & D4 & D5 & D6 & D7).
  set (s2 := kreply_donate_on_call rp u t s1) in *. exists (upd_th t (put_reply None 0) (upd_th u (put_pending (Some rp)) s2)).
  split; [cbn; by rewrite D1, upd_fn_other|]. destruct (D4 rp) as [D8 D9]. destruct D5 as (E1 & E2 & E3 & E4 & E5 & E6).
  split; cbn [th ip kc rps upd_th with_th].
  - rewrite D8, D9. cbn. by rewrite upd_fn_same.
  - intros r Hr. rewrite D3 by done. by apply upd_fn_other.
  - by rewrite upd_fn_same, upd_fn_other, D1.
  - by rewrite upd_fn_other, upd_fn_same, D1.
  - intros v H1 H2. by rewrite !upd_fn_other, D1.
  - unfold lends in *. change (sctx s1) with (sctx s) in Hl. destruct (sctx s t); [|destruct (sctx s u); [exact Hl|]];
      (split; [apply Hl|]; cbn [rps upd_th with_th]; destruct Hl as (_ & -> & ->); cbn; by rewrite upd_fn_same).
  - rewrite E1, E3, E4, E5, E6. split; [done|]. split; [exact E2|done].
  - split; [exact D6|exact D7].
  - exact D2.
Qed.

Section take.
Context (W : world) (HW : world_ok W).

(** The reply object moves from the receiver to the caller, the scheduling
    context from the caller to the receiver. *)
Lemma bound_acct ll la rp t u s s' :
  acct W ll la s → bound rp t u s s' → t ∈ L W → u ∈ L W → t ≠ u →
  ep_reply_obj (th s t) = Some rp → pending_kreply (th s u) = None → acct W ll la s'.
Proof.
  intros Ha Hb Ht Hu Hne Hr Hp. pose proof (bd_lend _ _ _ _ _ Hb) as Hl.
  eapply (acct_upd2 W HW _ _ _ _ s s' t u Ha Ht Hu Hne (bd_kc _ _ _ _ _ Hb)).
  - intros v H1 H2. unfold held, helda. rewrite (bd_th _ _ _ _ _ Hb v H1 H2). split; [|done]. do 5 f_equal.
    unfold lends in Hl. destruct (sctx s t); [by destruct Hl as [-> _]|]. destruct (sctx s u); [|by destruct Hl as [-> _]].
    destruct Hl as (_ & _ & -> & _); done.
  - intros o. unfold held. rewrite (bd_t _ _ _ _ _ Hb), (bd_u _ _ _ _ _ Hb).
    cbn [put_reply put_pending ep_cap_obj ep_cap_src_cn sc_held ep_reply_obj pending_kreply]. rewrite Hr, Hp.
    assert (cnt (olist (sctx s' t)) o + cnt (olist (sctx s' u)) o = cnt (olist (sctx s t)) o + cnt (olist (sctx s u)) o) as Hc.
    { unfold lends in Hl. destruct (sctx s t) eqn:E1; [destruct Hl as [Hl _]; by rewrite !Hl, E1|].
      destruct (sctx s u) eqn:E2; [destruct Hl as (-> & -> & _); cbn; lia|destruct Hl as [Hl _]; by rewrite !Hl, E1, E2]. }
    rewrite !cnt_app. cbn [olist]. rewrite !cnt_nil. lia.
  - intros o. unfold helda. by rewrite (bd_t _ _ _ _ _ Hb), (bd_u _ _ _ _ _ Hb).
Qed.

(** What a queued sender records: a thread of the system, whose staged capability
    has its source or nothing, bound to no reply object yet. *)
Definition staged_in (e : ep_task) : xfer :=
  match ep_cap_obj e, ep_cap_src_cn e with
  | Some o, Some cn => Some (Staged o (ep_cap_rights e) (ep_cap_badge e) cn (ep_cap_src_idx e))
  | _, _ => None
  end.
Record sender_ok s u : Prop := SenderOk {
  so_in   : u ∈ L W;
  so_cap  : is_Some (ep_cap_obj (th s u)) ↔ is_Some (ep_cap_src_cn (th s u));
  so_free : pending_kreply (th s u) = None;
}.

(** The field of the receiver's message that tells about the capability. *)
Definition cap_field (e : ep_task) : ipc_stage → Z := if ep_call_mode e then attached_cap else attached_handle.
Definition no_cap (e : ep_task) : ep_task := put_src None 0%N (put_cap None 0 0 e).

Record msg_taken t u s s' : Prop := MsgTaken {
  mt_msg   : same_payload (msg s u) (msg s' t);
  mt_other : ∀ v, v ≠ t → msg s' v = msg s v;
  mt_cap   : carried_in (cap_field (th s u)) t (staged_in (th s u)) s s';
  mt_u     : th s' u = no_cap (th s u);
  mt_t     : th s' t = put_slot 0 (th s t);
  mt_th    : ∀ v, v ≠ t → v ≠ u → th s' v = th s v;
  mt_ip    : sch (ip s') = sch (ip s) ∧ trefs (ip s') = trefs (ip s) ∧ eps (ip s') = eps (ip s) ∧
             ep_next (ip s') = ep_next (ip s) ∧ blocking_ep (ip s') = blocking_ep (ip s) ∧
             ipc_ep_closed (ip s') = ipc_ep_closed (ip s);
  mt_rps   : rps s' = rps s;
}.

Lemma clear_cap_acct ll la s u :
  acct W ll la s → sender_ok s u →
  acct W (xl (staged_in (th s u)) ++ ll) (xa (staged_in (th s u)) ++ la) (upd_th u no_cap s).
Proof.
  intros Ha [Hu Hc _]. eapply (acct_upd W HW _ _ _ _ s _ u Ha Hu); [reflexivity|..].
  - intros v Hv. unfold held, helda, upd_th, sctx. cbn [th ip with_th]. by rewrite upd_fn_other.
  - intros o. unfold held, upd_th, sctx, staged_in. cbn [th ip with_th]. rewrite upd_fn_same.
    unfold no_cap. cbn [put_src put_cap ep_cap_obj ep_cap_src_cn sc_held ep_reply_obj pending_kreply].
    destruct (ep_cap_obj (th s u)), (ep_cap_src_cn (th s u)); cbn [xl xa cap_obj cap_src_cn];
      [cnt_lia|by destruct (proj1 Hc); [by eexists|]|by destruct (proj2 Hc); [by eexists|]|done].
  - intros o. unfold helda, upd_th, staged_in. cbn [th with_th]. rewrite upd_fn_same. unfold no_cap. cbn [put_src ep_cap_src_cn].
    destruct (ep_cap_obj (th s u)), (ep_cap_src_cn (th s u)); cbn [xl xa cap_obj cap_src_cn];
      [cnt_lia|by destruct (proj1 Hc); [by eexists|]|by destruct (proj2 Hc); [by eexists|]|done].
Qed.

Lemma carried_from g t x s s1 s' :
  carried_in g t x s1 s' → kc s1 = kc s → th s1 t = th s t → carried_in g t x s s'.
Proof.
  intros Hc Hk Ht. unfold carried_in, deliver_post, cspace_of in *. rewrite Hk, Ht in Hc. exact Hc.
Qed.

Lemma take_message_spec (full : bool) ll la t u s :
  acct W ll la s → (length ll ≤ 4)%nat → (length la ≤ 4)%nat → t ≠ u → root_ok W s t → sender_ok s u →
  returns (take_message full t u s) (λ s', acct W ll la s' ∧ msg_taken t u s s').
Proof.
  intros Ha H1 H2 Hne Hr Hso. unfold take_message. cbv zeta. set (s2 := put_msg t _ s).
  destruct (bulk_to_spec u t s2) as (m & pm & -> & Hpl & Hah & Hac). set (s3 := with_phys pm (put_msg t m s2)).
  change (th s3 u) with (th s u). fold no_cap. set (e := th s u). set (s4 := upd_th u _ s3).
  assert (acct W (xl (staged_in e) ++ ll) (xa (staged_in e) ++ la) s4) as A4.
  { apply (clear_cap_acct ll la s3 u); [|by destruct Hso; split]. apply acct_phys, acct_msg, acct_msg, Ha. }
  set (s5 := put_msg t (st_cap IRIS_MSG_NO_CAP (msg s4 t)) s4).
  pose proof (acct_msg W _ _ t (st_cap IRIS_MSG_NO_CAP (msg s4 t)) s4 A4) as A5. fold s5 in A5.
  assert (msg s4 t = m) as Hm4 by (cbn; apply upd_fn_same).
  assert (msg s5 t = st_cap IRIS_MSG_NO_CAP m) as Hm5 by (unfold s5; rewrite msg_put, Hm4; reflexivity).
  assert (msg s2 t = clean_msg (msg s u)) as Hm2 by apply msg_put.
  assert (cap_field e (msg s5 t) = IRIS_MSG_NO_CAP) as Hcf.
  { rewrite Hm5. unfold cap_field. destruct (ep_call_mode e); [done|]. cbn. rewrite Hah, Hm2. done. }
  set (f := λ v (c : staged) m, if ep_call_mode e then st_crights (cap_rights c) (st_cap v m)
              else if full then st_crights (cap_rights c) (st_cap v (st_handle v m)) else st_handle v m).
  apply returns_bind.
  eapply (returns_mono _ (λ s', acct W ll la s' ∧ carried_in (cap_field e) t (staged_in e) s5 s' ∧ hand_frame t s5 s')).
  - assert (root_ok W s5 t) as Hr5.
    { unfold root_ok, cspace_of in *. cbn. by rewrite upd_fn_other. }
    pose proof (hand_cap W HW (cap_field e) ll la t (staged_in e) f s5 A5 H1 H2 Hr5) as Hh.
    unfold staged_in in Hh |- *. destruct Hso as [_ Hc _]. fold e in Hc.
    destruct (ep_cap_obj e) as [xo|], (ep_cap_src_cn e) as [cn|]; [..|by destruct (proj2 Hc)|];
      [|by destruct (proj1 Hc)|]; (apply Hh; [|exact Hcf]); intros v c m0; unfold f, cap_field;
      destruct (ep_call_mode e); [by split_and!| |by split_and!|]; by destruct full.
  - intros s6 (A6 & Hca & Hf). split; [by apply acct_slot|].
    destruct Hf as [[T1 [slot T2]] [M1 M2] (I1 & I2 & I3 & I4 & I5 & _ & I7) R1].
    assert (th s5 t = th s t) as Ht5 by (cbn; by rewrite upd_fn_other).
    split; cbn [th ip kc rps upd_th with_th].
    + change (msg (upd_th t (put_slot 0) s6) t) with (msg s6 t). rewrite Hm5 in M2. eapply same_payload_trans; [|exact M2].
      rewrite Hm2 in Hpl. exact Hpl.
    + intros v Hv. change (msg (upd_th t (put_slot 0) s6) v) with (msg s6 v). rewrite M1 by done. cbn. by rewrite !upd_fn_other.
    + apply (carried_from _ _ _ s s5); [|reflexivity|exact Ht5]. apply (carried_mono _ _ _ s5 s6); [exact Hca|reflexivity|reflexivity].
    + rewrite upd_fn_other, T1 by congruence. cbn. by rewrite upd_fn_same.
    + rewrite upd_fn_same, T2, Ht5. done.
    + intros v H3 H4. rewrite upd_fn_other, T1 by done. cbn. by rewrite upd_fn_other.
    + rewrite I1, I2, I3, I4, I5, I7. by split_and!.
    + exact R1.
Qed.

(** What became of the sender. *)
Definition answered (arg : Z) t u s s' : Prop :=
  if ep_call_mode (th s u) then ∃ rp,
    ep_reply_obj (th s t) = Some rp ∧ r_caller (rps s' rp) = Some u ∧ pending_kreply (th s' u) = Some rp ∧
    st (ip s') u = TASK_BLOCKED_REPLY ∧ attached_handle (msg s' t) = u32 arg ∧ lends rp t u s s' ∧
    trefs (ip s') u = trefs (ip s) u
  else sch (ip s') = task_wakeup u (sch (ip s)) ∧ trefs (ip s') u = trefs (ip s) u - 1.

Record sender_left t u s s' : Prop := SenderLeft {
  sl_kc   : kc s' = kc s;
  sl_msg  : (∀ v, v ≠ t → msg s' v = msg s v) ∧ same_payload (msg s t) (msg s' t) ∧
            cap_field (th s u) (msg s' t) = cap_field (th s u) (msg s t);
  sl_t    : ∃ ro rv, th s' t = put_reply ro rv (th s t);
  sl_th   : ∀ v, v ≠ t → v ≠ u → th s' v = th s v;
}.

Lemma take_sender_spec ll la q arg t u s :
  acct W ll la s → qok (ip s) q → t ≠ u → t ∈ L W → u ∈ L W → blocking_ep (ip s) u = None →
  2 ≤ trefs (ip s) u < 2 ^ 31 → pending_kreply (th s u) = None →
  reply_ready arg s t → (ep_call_mode (th s u) = true → ep_reply_obj (th s t) ≠ None) →
  ∃ s', tput u (take_sender t u s) = Ret s' ∧ acct W ll la s' ∧ qok (ip s') q ∧
    answered arg t u s s' ∧ sender_left t u s s'.
Proof.
  intros Ha Hq Hne Ht Hu Hb Hr Hp Hrd Hc. unfold take_sender, answered. destruct (ep_call_mode (th s u)) eqn:Hcm.
  2: { destruct (wake_put W ll la q u s Ha Hq Hb ltac:(lia)) as (s' & Hw & A' & Hq' & ->). eexists. split; [exact Hw|].
    split; [exact A'|]. split; [exact Hq'|]. split; [split; [reflexivity|cbn; by rewrite upd_fn_same]|].
    split; try done. exists (ep_reply_obj (th s t)), (ep_reply_val (th s t)). cbn. by destruct (th s t). }
  unfold reply_ready in Hrd. destruct (ep_reply_obj (th s t)) as [rp|] eqn:Hrp; [|by destruct (Hc eq_refl)].
  destruct Hrd as (Hs & Hcl & Hv). set (s1 := upd_th u (put_call false) s).
  assert (th s1 t = th s t) as Ht1 by (cbn; by rewrite upd_fn_other).
  destruct (bind_spec rp t u s1 Hne) as (s2 & -> & Hbd); [by rewrite Ht1|exact Hs|exact Hcl|].
  assert (acct W ll la s2) as A2.
  { eapply (bound_acct ll la rp t u s1 s2); [|exact Hbd|exact Ht|exact Hu|exact Hne|by rewrite Ht1|].
    - apply acct_field; [by intros e|exact Ha].
    - cbn. by rewrite upd_fn_same. }
  destruct Hbd as [[B1 _] B2 B3 B4 B5 B6 (E1 & E2 & E3 & E4 & E5 & E6) [B8 B9] B10].
  set (s3 := put_state u _ _).
  assert (trefs (ip s3) u = trefs (ip s) u + 1) as Hr3.
  { unfold s3. cbn. rewrite E1. cbn. rewrite upd_fn_same. apply u32_id. lia. }
  eexists. split; [apply tput_spec; rewrite Hr3; lia|]. split; [|split; [|split]].
  - apply acct_sch; [|reflexivity]. apply acct_ip; [by apply acct_msg|]. intros v. cbn. unfold upd_task, sctx. cbn. unfold upd_fn. by case_decide; subst.
  - apply (qok_same (ip s)); [|exact Hq]. split; [exact E3|]. split; [exact E4|]. split; [exact E5|]. split; [|exact B9].
    intros v [e Hv0]. assert (v ≠ u) as Hvu by congruence. split.
    + unfold st. cbn. unfold upd_task. cbn. rewrite upd_fn_other by done. apply B8.
    + cbn. rewrite E1. by rewrite !upd_fn_other.
  - exists rp. split; [done|]. split; [exact B1|]. split; [cbn; by rewrite B4|].
    split; [unfold st; cbn; unfold upd_task; cbn; by rewrite upd_fn_same|].
    split; [cbn; rewrite upd_fn_same; cbn; rewrite upd_fn_other by done; exact Hv|]. split; [|cbn; rewrite E1, !upd_fn_same; cbn; rewrite u32_id by lia; lia].
    unfold lends in *. change (sctx s1) with (sctx s) in B6. change (rps s1) with (rps s) in B6.
    assert (∀ v, sctx (with_ip (with_trefs (upd_fn (trefs (ip s3)) u (trefs (ip s3) u - 1)) (ip s3)) s3) v = sctx s2 v) as Hsc.
    { intros v. unfold sctx. cbn. unfold upd_task. cbn. unfold upd_fn. by case_decide; subst. }
    destruct (sctx s t); [split; [intros v; rewrite Hsc|]; apply B6|]. destruct (sctx s u); [|split; [intros v; rewrite Hsc|]; apply B6].
    rewrite !Hsc. destruct B6 as (F1 & F2 & F3 & F4). split; [exact F1|]. split; [exact F2|]. split; [|exact F4].
    intros v H1 H2. rewrite Hsc. by apply F3.
  - split.
    + exact B10.
    + assert (∀ v, msg s2 v = msg s v) as Hms by (intros v; exact (f_equal (λ f, f v) E2)).
      unfold msg. cbn. split; [intros v Hv'; rewrite upd_fn_other by done; apply Hms|]. rewrite upd_fn_same, Hms. split; [by split_and!|]. unfold cap_field. by rewrite Hcm.
    + exists None, 0. cbn. by rewrite B3, Ht1.
    + intros v H1 H2. cbn. rewrite B5 by done. cbn. by rewrite upd_fn_other.
Qed.

(** The way out of a successful receive. *)
Definition leaves t s s' : Prop := ∃ s1, rframe t s s1 ∧ kshrinks (kc s) (kc s1) ∧ s' = store_msg t s1.

Lemma leave_spec t ep s :
  acct W [ep] [] s → t ∈ L W →
  returns (s ← ep_recv_reply_unstage t s; s ← rel ep s; Ret (Ok 0, store_msg t s))
    (λ '(r, s'), r = Ok 0 ∧ acct W [] [] s' ∧ leaves t s s').
Proof.
  intros Ha Ht. apply returns_bind. eapply returns_mono; [apply (unstage_spec W HW [ep] [] s t Ha Ht)|].
  intros s1 (A1 & F1 & S1). apply returns_bind. eapply returns_mono; [apply (rel_acct W HW _ _ _ _ A1)|].
  intros s2 (A2 & K2 & S2). split; [reflexivity|]. split; [apply acct_field; [by intros e|exact A2]|].
  exists s2. split; [|split; [etransitivity; [exact S1|exact S2]|reflexivity]].
  etransitivity; [exact F1|]. apply rframe_kc; [exact K2|apply S2].
Qed.

(** The message of [u] is in [t]'s registers. *)
Record received (arg : Z) t u s s' : Prop := Received {
  rc_msg    : same_payload (msg s u) (msg s' t);
  rc_ret    : sc_ret (th s' t) = ipc_msg_store (msg s' t) (sc_ret (th s t));
  rc_other  : ∀ v, v ≠ t → msg s' v = msg s v;
  rc_cap    : carried_in (cap_field (th s u)) t (staged_in (th s u)) s s';
  rc_sender : answered arg t u s s';
  rc_th     : ∀ v, v ≠ t → v ≠ u → th s' v = th s v;
}.

Lemma leaves_frame t s s' : leaves t s s' →
  (∀ v, v ≠ t → th s' v = th s v) ∧ msg s' = msg s ∧
  sc_ret (th s' t) = ipc_msg_store (msg s t) (sc_ret (th s t)) ∧ kshrinks (kc s) (kc s') ∧ q_same (ip s) (ip s').
Proof.
  intros (s1 & [F1 (a & b & c & F2) [F3 _] _ _] & S & ->).
  assert (msg s1 = msg s) as Hm by (unfold msg; by rewrite F3).
  split; [intros v Hv; cbn; rewrite upd_fn_other by done; by apply F1|]. split; [exact Hm|].
  split; [cbn; rewrite upd_fn_same; cbn; by rewrite Hm, F2|]. split; [exact S|].
  cbn. rewrite F3. by apply q_same_fields.
Qed.

Lemma answered_leaves arg t u s s1 s' : t ≠ u → answered arg t u s s1 → leaves t s1 s' → answered arg t u s s'.
Proof.
  intros Hne Ha Hl. destruct (leaves_frame _ _ _ Hl) as (T1 & M1 & _). destruct Hl as (s2 & [_ _ [F3 _] _ F5] & _ & ->).
  unfold answered in *. cbn [ip store_msg upd_th with_th rps]. rewrite F3. destruct (ep_call_mode _); [|exact Ha].
  destruct Ha as (rp & H1 & H2 & H3 & H4 & H5 & H6 & H7). exists rp. split; [exact H1|]. destruct (F5 rp) as (E1 & E2 & E3).
  split; [by rewrite E1|]. split; [rewrite T1 by congruence; exact H3|]. split; [exact H4|]. split; [by rewrite M1|].
  split; [|exact H7]. unfold lends, sctx in *. cbn [ip rps store_msg upd_th with_th]. rewrite F3, E2, E3. exact H6.
Qed.

Lemma answered_from arg t u s s1 s' :
  answered arg t u s1 s' → ep_call_mode (th s1 u) = ep_call_mode (th s u) → ep_reply_obj (th s1 t) = ep_reply_obj (th s t) →
  sch (ip s1) = sch (ip s) → rps s1 = rps s → trefs (ip s1) = trefs (ip s) → answered arg t u s s'.
Proof.
  intros Ha E1 E2 E3 E4 E5. unfold answered, lends, sctx in *. rewrite E1, E2, E3, E4, E5 in Ha. exact Ha.
Qed.

Lemma take_rendezvous_spec full arg s q t ep :
  acct W [ep] [] s → qok (ip s) q → ep_state (eps (ip s) ep) = EP_STATE_SEND → t ∈ L W → blocking_ep (ip s) t = None →
  root_ok W s t → (∀ u, u ∈ q ep → sender_ok s u) → reply_ready arg s t →
  (∀ h, ep_head (eps (ip s) ep) = Some h → ep_call_mode (th s h) = true → ep_reply_obj (th s t) ≠ None) →
  returns (take_rendezvous full t ep s) (λ '(r, s'), r = Ok 0 ∧ acct W [] [] s' ∧
    ∃ u l, q ep = u :: l ∧ qok (ip s') (upd_fn q ep l) ∧ received arg t u s s').
Proof.
  intros Ha Hq Hst Ht Hbt Hr Hso Hrd Hhd. unfold take_rendezvous.
  destruct (ep_dequeue_spec s q ep Hq) as (u & l & s1 & Hql & Hh & Hd & Hq1 & (es & nx & bl & E1) & Hu & _); [by rewrite Hst|].
  assert (u ∈ q ep) as Hin by (rewrite Hql; left). destruct (q_refs _ _ Hq _ _ Hin) as [Hrf _].
  assert (t ≠ u) as Hne by (intros <-; by apply (q_out _ _ t ep Hq Hbt)).
  rewrite Hd. cbn [mbind res_bind]. destruct (Hso u Hin) as [So1 So2 So3].
  assert (acct W [ep] [] s1) as A1 by (rewrite E1; apply (acct_sch W _ _ s); [exact Ha|reflexivity]).
  apply returns_bind. eapply returns_mono; [apply (take_message_spec full [ep] [] t u s1 A1);
    [simpl; lia|simpl; lia|exact Hne|by rewrite E1|by rewrite E1]|].
  intros s2 (A2 & [M1 M2 M3 M4 M5 M6 (I1 & I2 & I3 & I4 & I5 & I6) M8]).
  assert (qok (ip s2) (upd_fn q ep l)) as Hq2 by (apply (qok_same (ip s1)); [by apply q_same_fields|exact Hq1]).
  assert (ep_reply_obj (th s2 t) = ep_reply_obj (th s t) ∧ ep_reply_val (th s2 t) = ep_reply_val (th s t)) as [Er Ev]
    by (rewrite M5, E1; done).
  assert (ep_call_mode (th s2 u) = ep_call_mode (th s u)) as Ec by (rewrite M4, E1; done).
  assert (rps s2 = rps s) as Ep by (rewrite M8, E1; done).
  assert (trefs (ip s2) = trefs (ip s) ∧ sch (ip s2) = sch (ip s)) as [Et Es] by (rewrite I2, I1, E1; done).
  destruct (take_sender_spec [ep] [] (upd_fn q ep l) arg t u s2 A2 Hq2 Hne Ht So1) as (s3 & -> & A3 & Hq3 & Hans & [L1 (L2 & L3 & L4) (ro & rv & L5) L6]).
  { by rewrite I5. } { by rewrite Et. } { rewrite M4, E1. exact So3. }
  { unfold reply_ready in *. rewrite Er, Ev, Ep. exact Hrd. }
  { rewrite Ec, Er. by apply Hhd. }
  cbn [mbind res_bind]. eapply returns_mono; [apply (leave_spec t ep s3 A3 Ht)|].
  intros [r s'] (-> & A' & Hl). split; [reflexivity|]. split; [exact A'|]. exists u, l. split; [exact Hql|].
  destruct (leaves_frame _ _ _ Hl) as (T1 & T2 & T3 & T4 & T5). split; [by apply (qok_same (ip s3))|].
  assert (cap_field (th s2 u) = cap_field (th s u)) as Hcf by (unfold cap_field; by rewrite Ec).
  assert (msg s1 = msg s ∧ th s1 = th s ∧ kc s1 = kc s) as (N1 & N2 & N3) by (rewrite E1; done).
  split.
  - rewrite T2. eapply same_payload_trans; [|exact L3]. rewrite <-N1. exact M1.
  - rewrite T3, T2, L5, M5, N2. done.
  - intros v Hv. by rewrite T2, L2, M2, N1.
  - apply (carried_mono _ _ _ s s2); [|rewrite <-L1; exact T4|by rewrite T2, <-Hcf, L4].
    apply (carried_from _ _ _ s s1); [by rewrite <-N2|exact N3|by rewrite N2].
  - eapply answered_leaves; [exact Hne|by apply (answered_from arg t u s s2)|exact Hl].
  - intros v H1 H2. rewrite T1, L6, M6 by done. by rewrite N2.
Qed.

(** The fast path: a plain message with nothing attached. *)
Lemma recv_fastpath_spec arg s q t ep :
  acct W [ep] [] s → qok (ip s) q → t ∈ L W → blocking_ep (ip s) t = None →
  returns (ep_recv_fastpath t ep s) (λ '(f, s1),
    if (f : bool) then returns (s ← ep_recv_reply_unstage t (upd_th t (put_slot 0) s1); s ← rel ep s; Ret (Ok 0, store_msg t s))
      (λ '(r, s'), r = Ok 0 ∧ acct W [] [] s' ∧ ep_state (eps (ip s) ep) = EP_STATE_SEND ∧
        ∃ u l, q ep = u :: l ∧ qok (ip s') (upd_fn q ep l) ∧ received arg t u s s')
    else s1 = s).
Proof.
  intros Ha Hq Ht Hbt. unfold ep_recv_fastpath. destruct (ep_closed _); [reflexivity|]. cbn [orb].
  destruct (decide (ep_state (eps (ip s) ep) = EP_STATE_SEND)) as [Hst|Hst];
    [rewrite bool_decide_true by done|rewrite bool_decide_false by done; reflexivity]. cbn [negb].
  destruct (ep_dequeue_spec s q ep Hq) as (u & l & s1 & Hql & Hh & Hd & Hq1 & (es & nx & bl & E1) & Hu & _); [by rewrite Hst|].
  assert (u ∈ q ep) as Hin by (rewrite Hql; left). destruct (q_refs _ _ Hq _ _ Hin) as [Hrf _].
  assert (t ≠ u) as Hne by (intros <-; by apply (q_out _ _ t ep Hq Hbt)).
  rewrite Hh, Hd. destruct (ep_cap_obj (th s u)) eqn:Hco; [rewrite bool_decide_true by done; reflexivity|].
  rewrite bool_decide_false by (by intros [? ?]). destruct (negb (buf_len _ =? 0)); [reflexivity|].
  destruct (ep_call_mode (th s u)) eqn:Hcm; [reflexivity|]. cbn [orb mbind res_bind]. cbv zeta. set (s2 := put_msg t _ s1).
  assert (acct W [ep] [] s2) as A2 by (unfold s2; rewrite E1; apply (acct_sch W _ _ s); [exact Ha|reflexivity]).
  assert (qok (ip s2) (upd_fn q ep l)) as Hq2 by (apply (qok_same (ip s1)); [by apply q_same_fields|exact Hq1]).
  destruct (wake_put W [ep] [] (upd_fn q ep l) u s2 A2 Hq2 Hu) as (s3 & -> & A3 & Hq3 & E3);
    [unfold s2; rewrite E1; apply Hrf|]. cbn [mbind res_bind].
  match goal with |- returns (Ret _) ?P => change (P (true, s3)) end. cbv beta iota.
  eapply returns_mono; [apply (leave_spec t ep (upd_th t (put_slot 0) s3)); [by apply acct_slot|exact Ht]|].
  intros [r s'] (-> & A' & Hl). split; [reflexivity|]. split; [exact A'|]. split; [exact Hst|]. exists u, l. split; [exact Hql|].
  pose proof (λ b, answered_leaves arg t u s _ s' Hne b Hl) as Hal.
  destruct (leaves_frame _ _ _ Hl) as (T1 & T2 & T3 & T4 & T5). split; [apply (qok_same (ip s3)); [exact T5|exact Hq3]|].
  assert (msg s' t = clean_msg (msg s u)) as Hm by (rewrite T2, E3; unfold s2, msg; cbn; rewrite upd_fn_same, E1; done).
  assert (kc s3 = kc s ∧ th s3 = th s ∧ msg s3 = msg s2) as (K3 & N3 & M3) by (rewrite E3; unfold s2; rewrite E1; done).
  split.
  - rewrite Hm. by split_and!.
  - rewrite T3, T2. cbn. rewrite upd_fn_same, N3. done.
  - intros v Hv. rewrite T2. change (msg s3 v = msg s v). rewrite M3. unfold s2, msg. cbn. rewrite upd_fn_other, E1 by done. done.
  - unfold carried_in, staged_in, cap_field. rewrite Hco, Hcm, Hm. split; [done|]. rewrite <-K3. exact T4.
  - apply Hal. unfold answered. rewrite Hcm. cbn [ip upd_th with_th]. rewrite E3. unfold s2. rewrite E1. cbn. by rewrite upd_fn_same.
  - intros v H1 H2. rewrite T1 by done. cbn. by rewrite upd_fn_other, N3.
Qed.

(** What a blocked receiver keeps. *)
Record recv_parked t ep s s' : Prop := RecvParked {
  pk_state : st (ip s') t = TASK_BLOCKED_RECV;
  pk_msg   : ∀ v, msg s' v = msg s v;
  pk_t     : th s' t = put_held (Some ep) (th s t);
  pk_other : ∀ v, v ≠ t → th s' v = th s v ∧ st (ip s') v = st (ip s) v;
  pk_kc    : kc s' = kc s;
  pk_rps   : rps s' = rps s;
}.

Lemma recv_park_spec s q t ep (s' := recv_park t ep s) :
  acct W [ep] [] s → qok (ip s) q → t ∈ L W → (N.to_nat t < task_bound (sch (ip s)))%nat →
  blocking_ep (ip s) t = None → 1 ≤ trefs (ip s) t < 2 ^ 31 - 1 → sc_held (th s t) = None →
  ep_closed (eps (ip s) ep) = false → ep_state (eps (ip s) ep) ≠ EP_STATE_SEND →
  acct W [] [] s' ∧ qok (ip s') (upd_fn q ep (q ep ++ [t])) ∧ recv_parked t ep s s'.
Proof.
  intros Ha Hq Ht Hbd Hb Hrf Hh Hcl Hst. subst s'. unfold recv_park. set (s1 := put_closed t false (put_ready t false s)).
  assert (qok (ip s1) q) as Hq1 by (apply (qok_same (ip s)); [by apply q_same_fields|exact Hq]).
  assert (ep_state (eps (ip s1) ep) = EP_STATE_IDLE ∨ ep_state (eps (ip s1) ep) = EP_STATE_RECV) as Hdir.
  { change (eps (ip s1)) with (eps (ip s)). destruct (ep_state (eps (ip s) ep)) eqn:E; [by left|done|by right]. }
  destruct (ep_enqueue_spec s1 q ep EP_STATE_RECV t Hq1 ltac:(discriminate) Hdir Hcl Hb Hrf Hbd) as [Hq2 (es & nx & bl & Hs2)].
  change (blocked_as EP_STATE_RECV) with TASK_BLOCKED_RECV in *. set (s2 := ep_enqueue ep _ t _ s1) in *.
  assert (th s2 = th s ∧ kc s2 = kc s ∧ rps s2 = rps s ∧ msg s2 = msg s) as (Ht2 & Hk2 & Hr2 & Hm2) by (rewrite Hs2; done).
  assert (∀ v, sctx s2 v = sctx s v ∧ st (ip s2) v = if decide (v = t) then TASK_BLOCKED_RECV else st (ip s) v) as Hc2.
  { intros v. rewrite Hs2. unfold sctx, st. cbn. unfold upd_task. cbn. destruct (decide (v = t)) as [->|];
      [by rewrite upd_fn_same|by rewrite upd_fn_other]. }
  split; [|split; [exact Hq2|]].
  - eapply (acct_upd W HW _ _ _ _ s _ t Ha Ht); [exact Hk2|..].
    + intros v Hv. unfold held, helda, upd_th. cbn [th with_th]. rewrite upd_fn_other by done.
      change (sctx (with_th _ s2) v) with (sctx s2 v). destruct (Hc2 v) as [-> _]. by rewrite Ht2.
    + intros o. unfold held, upd_th. cbn [th with_th]. rewrite upd_fn_same, Ht2.
      change (sctx (with_th _ s2) t) with (sctx s2 t). destruct (Hc2 t) as [-> _].
      cbn [put_held ep_cap_obj ep_cap_src_cn sc_held ep_reply_obj pending_kreply]. rewrite Hh. cnt_lia.
    + intros o. unfold helda, upd_th. cbn [th with_th]. by rewrite upd_fn_same, Ht2.
  - split; unfold upd_th; cbn [th ip kc rps with_th].
    + destruct (Hc2 t) as [_ ->]. by rewrite decide_True.
    + intros v. change (msg s2 v = msg s v). by rewrite Hm2.
    + by rewrite upd_fn_same, Ht2.
    + intros v Hv. rewrite upd_fn_other, Ht2 by done. split; [done|]. destruct (Hc2 v) as [_ ->]. by rewrite decide_False.
    + exact Hk2.
    + exact Hr2.
Qed.

(** ** The handlers *)

Lemma rframe_q t s s' q : rframe t s s' → qok (ip s) q → qok (ip s') q.
Proof. intros [_ _ [E _] _ _]. rewrite E. apply qok_same. by apply q_same_fields. Qed.

Lemma rframe_trans t s1 s2 s3 : rframe t s1 s2 → rframe t s2 s3 → rframe t s1 s3.
Proof. intros H1 H2. etransitivity; [exact H1|exact H2]. Qed.

(** Signals pending on the bound notification are taken. *)
Definition notified t q s s' : Prop := ∃ n,
  bound_notif (ip s) t = Some n ∧ signal_bits (ntfs (ip s) n) ≠ 0 ∧ signal_bits (ntfs (ip s') n) = 0 ∧
  msg s' t = pending_msg (signal_bits (ntfs (ip s) n)) ∧
  sc_ret (th s' t) = ipc_msg_store (msg s' t) (sc_ret (th s t)) ∧ (∀ v, v ≠ t → msg s' v = msg s v) ∧ qok (ip s') q.

Definition no_signal s t : Prop := ∀ n, bound_notif (ip s) t = Some n → signal_bits (ntfs (ip s) n) = 0.

Definition recv_result t (arg0 arg2 : Z) q s (r : sysret) s' : Prop :=
  match r with
  | Err _ => rframe t s s'
  | _ => ∃ ep b s1,
      found (kc s) KOBJ_ENDPOINT (Some (troot (th s t))) (cspace_of s t) arg0 RIGHT_READ ep b ∧
      rframe t s s1 ∧ reply_ready arg2 s1 t ∧
      match r with
      | Park => ep_state (eps (ip s) ep) ≠ EP_STATE_SEND ∧ no_signal s t ∧
                qok (ip s') (upd_fn q ep (q ep ++ [t])) ∧ recv_parked t ep s1 s'
      | _ => (ep_state (eps (ip s) ep) = EP_STATE_SEND ∧
              ∃ u l, q ep = u :: l ∧ qok (ip s') (upd_fn q ep l) ∧ received arg2 t u s1 s') ∨ notified t q s1 s'
      end
  end.

(** The bound notification is looked at. *)
Lemma take_pending_spec s t got i :
  knotification_take_pending (bound_notif (ip s) t) (ip s) = (got, i) →
  i = with_ntfs (ntfs i) (ip s) ∧
  ((got = 0 ∧ no_signal s t ∧ ∀ n, ntfs i n = ntfs (ip s) n) ∨
   (got ≠ 0 ∧ ∃ n, bound_notif (ip s) t = Some n ∧ got = signal_bits (ntfs (ip s) n) ∧ signal_bits (ntfs i n) = 0)).
Proof.
  unfold knotification_take_pending, no_signal. destruct (bound_notif (ip s) t) as [n|].
  - unfold take_bits. intros [= <- <-]. split; [reflexivity|].
    destruct (Z.eqb_spec (signal_bits (ntfs (ip s) n)) 0) as [H0|H0]; [left|right].
    + split; [exact H0|]. split; [by intros ? [= <-]|]. intros m. cbn. destruct (decide (m = n)) as [->|Hm];
        [rewrite upd_fn_same|by rewrite upd_fn_other]. destruct (ntfs (ip s) n). cbn in *. by rewrite H0.
    + split; [exact H0|]. exists n. split; [done|]. split; [done|]. cbn. by rewrite upd_fn_same.
  - intros [= <- <-]. split; [by destruct (ip s)|]. left. by split_and!.
Qed.

Lemma recv_refuse t ep s e :
  acct W [ep] [] s → returns (s ← rel ep s; Ret (Err e, s)) (λ '(r, s'), r = Err e ∧ acct W [] [] s' ∧ rframe t s s').
Proof.
  intros Ha. apply returns_bind. eapply returns_mono; [apply (rel_acct W HW _ _ _ _ Ha)|].
  intros s' (A' & K & S). split; [reflexivity|]. split; [exact A'|]. apply rframe_kc; [exact K|apply S].
Qed.

Lemma recv_unstage_refuse t ep s e :
  acct W [ep] [] s → t ∈ L W →
  returns (s ← ep_recv_reply_unstage t s; s ← rel ep s; Ret (Err e, s))
    (λ '(r, s'), r = Err e ∧ acct W [] [] s' ∧ rframe t s s').
Proof.
  intros Ha Ht. apply returns_bind. eapply returns_mono; [apply (unstage_spec W HW [ep] [] s t Ha Ht)|].
  intros s1 (A1 & F1 & _). eapply returns_mono; [apply (recv_refuse t ep s1 e A1)|].
  intros [r s'] (-> & A' & F'). split; [reflexivity|]. split; [exact A'|]. by apply (rframe_trans t s s1).
Qed.

Lemma recv_notified t ep q s n bits i :
  acct W [ep] [] s → t ∈ L W → qok (ip s) q → bound_notif (ip s) t = Some n → bits = signal_bits (ntfs (ip s) n) →
  bits ≠ 0 → i = with_ntfs (ntfs i) (ip s) → signal_bits (ntfs i n) = 0 →
  returns (s ← ep_recv_reply_unstage t (with_ip i s); s ← rel ep (upd_th t (put_slot 0) s);
           Ret (Ok 0, store_msg t (put_msg t (pending_msg bits) s)))
    (λ '(r, s'), r = Ok 0 ∧ acct W [] [] s' ∧ notified t q s s').
Proof.
  intros Ha Ht Hq Hn Hb H0 Hi Hz. apply returns_bind.
  eapply returns_mono; [apply (unstage_spec W HW [ep] [] (with_ip i s) t); [apply acct_sch; [exact Ha|by rewrite Hi]|exact Ht]|].
  intros s1 (A1 & [F1 (a & b & c & F2) [F3 F4] _ _] & _). apply returns_bind.
  eapply returns_mono; [apply (rel_acct W HW _ _ _ _ (acct_slot W _ _ s1 t 0 A1))|].
  intros s2 (A2 & K & _). split; [reflexivity|]. split; [apply acct_field; [by intros e|by apply acct_msg]|].
  exists n. split; [exact Hn|]. subst bits. split; [exact H0|]. rewrite K. cbn. rewrite !upd_fn_same. cbn in *.
  split; [by rewrite F4|]. split; [done|]. split; [rewrite F2; done|]. split.
  - intros v Hv. unfold msg. cbn. rewrite upd_fn_other, F3, Hi by done. done.
  - apply (qok_same (ip s)); [|exact Hq]. apply q_same_fields; cbn; rewrite F3, Hi; done.
Qed.

Lemma rframe_sender t s s' u : rframe t s s' → u ≠ t → sender_ok s u → sender_ok s' u.
Proof. intros Hf Hu [H1 H2 H3]. split; rewrite ?(rf_th _ _ _ Hf u Hu); done. Qed.

Definition senders_ok q s : Prop := ∀ e u, u ∈ q e → ep_state (eps (ip s) e) = EP_STATE_SEND → sender_ok s u.

(** Taking the message, in the state [s1] the receive has entered. *)
Lemma recv_take full t arg2 q s s1 ep :
  acct W [ep] [] s1 → qok (ip s) q → running W s t → senders_ok q s → rframe t s s1 → mdb (kc s1) = mdb (kc s) →
  reply_ready arg2 s1 t → ep_state (eps (ip s1) ep) = EP_STATE_SEND →
  (∀ h, ep_head (eps (ip s1) ep) = Some h → ep_call_mode (th s1 h) = true → ep_reply_obj (th s1 t) ≠ None) →
  returns (take_rendezvous full t ep s1) (λ '(r, s'), r = Ok 0 ∧ acct W [] [] s' ∧
    ep_state (eps (ip s) ep) = EP_STATE_SEND ∧
    ∃ u l, q ep = u :: l ∧ qok (ip s') (upd_fn q ep l) ∧ received arg2 t u s1 s').
Proof.
  intros Ha Hq Hrn Hso Hf Hm Hrd Hst Hhd. pose proof (rframe_q t s s1 q Hf Hq) as Hq1.
  destruct (rf_ip _ _ _ Hf) as [Hi _]. rewrite Hi in Hst. change (ep_state (eps (ip s) ep) = EP_STATE_SEND) in Hst.
  eapply returns_mono; [apply (take_rendezvous_spec full arg2 s1 q t ep Ha Hq1)|].
  - by rewrite Hi.
  - apply Hrn.
  - rewrite Hi. apply Hrn.
  - apply (rframe_root W t s s1 t Hf Hm), Hrn.
  - intros u Hu. apply (rframe_sender t s); [exact Hf| |by eapply Hso].
    intros ->. by apply (q_out _ _ t ep Hq (rn_free _ _ _ Hrn)).
  - exact Hrd.
  - exact Hhd.
  - intros [r s'] (-> & A' & Hx). split; [reflexivity|]. split; [exact A'|]. split; [exact Hst|exact Hx].
Qed.

(** Under the lock: nothing came from the fast path or the notification. *)
Lemma recv_locked_spec t arg0 arg2 q s s2 ep b :
  acct W [ep] [] s2 → qok (ip s) q → running W s t → senders_ok q s → rframe t s s2 → mdb (kc s2) = mdb (kc s) →
  reply_ready arg2 s2 t → no_signal s t →
  found (kc s) KOBJ_ENDPOINT (Some (troot (th s t))) (cspace_of s t) arg0 RIGHT_READ ep b →
  returns (let k := eps (ip s2) ep in
    if ep_closed k then s ← ep_recv_reply_unstage t s2; s ← rel ep s; Ret (Err IRIS_ERR_CLOSED, s)
    else if bool_decide (ep_state k = EP_STATE_SEND) then
      match ep_head k with
      | None => Panic
      | Some h =>
          if ep_call_mode (th s2 h) && bool_decide (ep_reply_obj (th s2 t) = None)
          then s ← rel ep s2; Ret (Err IRIS_ERR_NOT_SUPPORTED, s)
          else take_rendezvous true t ep s2
      end
    else Ret (Park, recv_park t ep s2)) (λ '(r, s'), acct W [] [] s' ∧ recv_result t arg0 arg2 q s r s').
Proof.
  intros A2 Hq Hrn Hso F02 Hm Hrd Hns Hfo. cbv zeta. destruct (rf_ip _ _ _ F02) as [Hi Hn].
  destruct (rn_in _ _ _ Hrn) as [R3 R3']. assert (eps (ip s2) = eps (ip s)) as He2 by (by rewrite Hi).
  assert (∀ r s', (∃ e0, r = Err e0 ∧ acct W [] [] s' ∧ rframe t s2 s') →
    acct W [] [] s' ∧ recv_result t arg0 arg2 q s r s') as Herr.
  { intros r s' (e0 & -> & A' & F'). split; [exact A'|]. by apply (rframe_trans t s s2). }
  destruct (ep_closed (eps (ip s2) ep)) eqn:Hcl.
  { eapply returns_mono; [apply (recv_unstage_refuse t ep s2 _ A2 R3)|]. intros [r s'] Hr. apply Herr. eauto. }
  case_bool_decide as Hst.
  - destruct (ep_head (eps (ip s2) ep)) as [h|] eqn:Hh.
    2: { exfalso. pose proof (q_rep _ _ Hq ep) as Hr. rewrite He2 in Hh, Hst. rewrite (chain_head _ _ _ (wq_chain _ _ _ _ Hr)) in Hh.
      destruct (q ep) eqn:Hqe; [|done]. apply (q_idle _ _ Hq) in Hqe. congruence. }
    destruct (ep_call_mode (th s2 h) && _) eqn:Hcm.
    { eapply returns_mono; [apply (recv_refuse t ep s2 _ A2)|]. intros [r s'] Hr. apply Herr. eauto. }
    eapply returns_mono; [eapply (recv_take true t arg2 q s s2 ep A2 Hq Hrn Hso F02 Hm Hrd Hst)|].
    + rewrite Hh. intros h' [= <-] Hc Hro. rewrite Hc, Hro in Hcm. discriminate Hcm.
    + intros [r s'] (-> & A' & Hs' & Hx). split; [exact A'|]. exists ep, b, s2. split; [exact Hfo|]. split; [exact F02|].
      split; [exact Hrd|]. left. split; [exact Hs'|exact Hx].
  - destruct (recv_park_spec s2 q t ep A2) as (A3 & Hq3 & Hpk).
    + by apply (rframe_q t s).
    + exact R3.
    + rewrite Hi. exact R3'.
    + rewrite Hi. apply Hrn.
    + rewrite Hi. apply Hrn.
    + apply (rframe_clean W t s s2 F02 Hrn).
    + exact Hcl.
    + exact Hst.
    + split; [exact A3|]. exists ep, b, s2. split; [exact Hfo|]. split; [exact F02|]. split; [exact Hrd|].
      rewrite He2 in Hst. split; [exact Hst|]. split; [exact Hns|]. split; [exact Hq3|exact Hpk].
Qed.

Lemma recv_spec q s t arg0 arg1 arg2 :
  at_entry W q s t → senders_ok q s →
  returns (sys_ep_recv t arg0 arg1 arg2 s) (λ '(r, s'), acct W [] [] s' ∧ recv_result t arg0 arg2 q s r s').
Proof.
  intros [Ha Hq Hrn Hre Hcs _] Hso. unfold sys_ep_recv. rewrite bool_decide_false, Hre by exact Hcs.
  apply returns_bind. eapply returns_mono; [apply (recv_enter_spec W HW s t arg0 arg1 arg2 Ha Hrn)|].
  intros [[e|ep] s1] [Hf Hp]; [split; [exact Hp|exact Hf]|]. destruct Hp as (A1 & Hm & Hrd & b & Hfo).
  pose proof (rframe_q t s s1 q Hf Hq) as Hq1. destruct (rf_ip _ _ _ Hf) as [Hi Hn].
  assert (blocking_ep (ip s1) t = None) as Hb1 by (rewrite Hi; apply Hrn). destruct (rn_in _ _ _ Hrn) as [R3 _].
  apply returns_bind. eapply returns_mono; [apply (recv_fastpath_spec arg2 s1 q t ep A1 Hq1 R3 Hb1)|].
  intros [[] s1'] Hx.
  { eapply returns_mono; [exact Hx|]. intros [r s'] (-> & A' & Hst & Hu). split; [exact A'|]. exists ep, b, s1.
    split; [exact Hfo|]. split; [exact Hf|]. split; [exact Hrd|]. left. rewrite Hi in Hst. split; [exact Hst|exact Hu]. }
  subst s1'. destruct (knotification_take_pending _ _) as [got i] eqn:Hg.
  destruct (take_pending_spec s1 t got i Hg) as [Ei [(-> & Hns & Hnf)|(H0 & n & Hbn & -> & Hz)]].
  2: { rewrite (proj2 (Z.eqb_neq _ _) H0). cbn [negb].
    eapply returns_mono; [apply (recv_notified t ep q s1 n _ i A1 R3 Hq1 Hbn eq_refl H0 Ei Hz)|].
    intros [r s'] (-> & A' & Hnt). split; [exact A'|]. exists ep, b, s1. split; [exact Hfo|]. split; [exact Hf|].
    split; [exact Hrd|]. right. exact Hnt. }
  cbn [Z.eqb negb]. apply (recv_locked_spec t arg0 arg2 q s (with_ip i s1) ep b).
  - apply acct_sch; [exact A1|by rewrite Ei].
  - exact Hq.
  - exact Hrn.
  - exact Hso.
  - apply (rframe_trans t s s1); [exact Hf|]. split; [done| |split; [exact Ei|exact Hnf]|reflexivity|done].
    apply (rf_t _ _ _ (reflexivity s1 : rframe t s1 s1)).
  - exact Hm.
  - exact Hrd.
  - intros n Hb. rewrite <-Hn. apply Hns. rewrite Hi. exact Hb.
  - exact Hfo.
Qed.

Lemma nb_recv_spec q s t arg0 arg1 arg2 :
  at_entry W q s t → senders_ok q s →
  returns (sys_ep_nb_recv t arg0 arg1 arg2 s) (λ '(r, s'), acct W [] [] s' ∧ recv_result t arg0 arg2 q s r s' ∧ r ≠ Park).
Proof.
  intros [Ha Hq Hrn Hre Hcs _] Hso. unfold sys_ep_nb_recv. rewrite bool_decide_false by exact Hcs.
  apply returns_bind. eapply returns_mono; [apply (recv_enter_spec W HW s t arg0 arg1 arg2 Ha Hrn)|].
  intros [[e|ep] s1] [Hf Hp]; [split; [exact Hp|split; [exact Hf|done]]|]. destruct Hp as (A1 & Hm & Hrd & b & Hfo).
  destruct (rf_ip _ _ _ Hf) as [Hi Hn]. destruct (rn_in _ _ _ Hrn) as [R3 _]. cbv zeta.
  set (s2 := upd_th t (put_slot 0) s1). assert (rframe t s1 s2) as F2 by apply rframe_slot.
  assert (acct W [ep] [] s2) as A2 by (by apply acct_slot).
  assert (∀ r s', (∃ e0, r = Err e0 ∧ acct W [] [] s' ∧ rframe t s2 s') →
    acct W [] [] s' ∧ recv_result t arg0 arg2 q s r s' ∧ r ≠ Park) as Herr.
  { intros r s' (e0 & -> & A' & F'). split; [exact A'|]. split; [|done].
    apply (rframe_trans t s s1); [exact Hf|]. by apply (rframe_trans t s1 s2). }
  destruct (ep_closed _ || _) eqn:Hcs'.
  { eapply returns_mono; [apply (recv_unstage_refuse t ep s2 _ A2 R3)|]. intros [r s'] Hr. apply Herr. eauto. }
  apply orb_false_iff in Hcs' as [Hcl Hst%negb_false_iff%bool_decide_eq_true].
  destruct (ep_head (eps (ip s1) ep)) as [h|] eqn:Hh.
  2: { exfalso. pose proof (q_rep _ _ Hq ep) as Hr. rewrite Hi in Hh, Hst. cbn in Hh, Hst.
    rewrite (chain_head _ _ _ (wq_chain _ _ _ _ Hr)) in Hh.
    destruct (q ep) eqn:Hqe; [|done]. apply (q_idle _ _ Hq) in Hqe. congruence. }
  destruct (ep_call_mode (th s1 h) && _) eqn:Hcm.
  { eapply returns_mono; [apply (recv_refuse t ep s2 _ A2)|]. intros [r s'] Hr. apply Herr. eauto. }
  eapply returns_mono; [eapply (recv_take false t arg2 q s s1 ep A1 Hq Hrn Hso Hf Hm Hrd Hst)|].
  - rewrite Hh. intros h' [= <-] Hc Hro. rewrite Hc, Hro in Hcm. discriminate Hcm.
  - intros [r s'] (-> & A' & Hs' & Hx). split; [exact A'|]. split; [|done]. exists ep, b, s1. split; [exact Hfo|].
    split; [exact Hf|]. split; [exact Hrd|]. left. split; [exact Hs'|exact Hx].
Qed.
End take.
