(* ===== verification/EndpointReply.v ===== *)
(** * Calling and replying

    REPLY and EP_CALL.  A reply object answers its caller once: the caller gets the
    message, its scheduling context comes back from the thread it was lent to, it
    runs again, and a second reply finds nobody. *)

From Stdlib Require Import ZArith Lia.
From stdpp Require Import base numbers gmap list.
From S2P Require Import Prelude Rights Forest Mdb Cdt Kobject Kcnode KcnodeInv KcnodeInstall Cspace IpcCap.
From S2P Require Import Kschedctx Runq RunqInv RunqSpec SchedSpec Wq Ipc Knotification IpcMsg.
From S2P Require Import Endpoint EndpointInv EndpointQueue EndpointSend EndpointRecv.
Local Open Scope Z_scope.
Implicit Types (s : ek) (t u c o ep rp : N) (κ : kstate) (q : N → list N).

(** ** Returning a loan *)

(** Everything but the scheduling contexts and the references of one thread. *)
Record loan_frame rp s s' : Prop := LoanFrame {
  lf_th  : th s' = th s;
  lf_rps : (∀ r, r ≠ rp → rps s' r = rps s r) ∧ r_caller (rps s' rp) = r_caller (rps s rp) ∧
           donated_sc (rps s' rp) = None ∧ donated_to (rps s' rp) = None;
  lf_ip  : msg s' = msg s ∧ eps (ip s') = eps (ip s) ∧ ep_next (ip s') = ep_next (ip s) ∧
           blocking_ep (ip s') = blocking_ep (ip s) ∧ ipc_ep_closed (ip s') = ipc_ep_closed (ip s);
  lf_st  : (∀ v, st (ip s') v = st (ip s) v) ∧ task_bound (sch (ip s')) = task_bound (sch (ip s));
  lf_kc  : kshrinks (kc s) (kc s');
}.

(** The loan of [rp] goes back to [c]. *)
Definition loan_back rp c s s' : Prop :=
  match donated_sc (rps s rp), donated_to (rps s rp) with
  | Some sc, Some u =>
      if decide (sctx s u = Some sc) then
        ∀ v, sctx s' v = if decide (v = u) then None
                         else if decide (v = c) then match sctx s c with None => Some sc | x => x end else sctx s v
      else ∀ v, sctx s' v = sctx s v
  | _, _ => ∀ v, sctx s' v = sctx s v
  end.

(** The references on threads: one too many is left on a borrower that no longer
    has the context. *)
Definition loan_refs rp s s' : Prop := ∀ v, trefs (ip s') v = trefs (ip s) v +
  match donated_sc (rps s rp), donated_to (rps s rp) with
  | Some sc, Some u => if decide (v = u ∧ sctx s u ≠ Some sc) then 1 else 0
  | _, _ => 0
  end.

(** The references on threads after an answer: the binding's on the caller is given
    back, and nothing else changes but what [loan_refs] leaves. *)
Definition answer_refs rp c s s' : Prop := ∀ v, trefs (ip s') v = trefs (ip s) v - (if decide (v = c) then 1 else 0) +
  match donated_sc (rps s rp), donated_to (rps s rp) with
  | Some sc, Some u => if decide (v = u ∧ sctx s u ≠ Some sc) then 1 else 0
  | _, _ => 0
  end.

Lemma answer_refs_from rp c s s1 s' :
  trefs (ip s1) = trefs (ip s) → sch (ip s1) = sch (ip s) → donated_sc (rps s1 rp) = donated_sc (rps s rp) →
  donated_to (rps s1 rp) = donated_to (rps s rp) → answer_refs rp c s1 s' → answer_refs rp c s s'.
Proof. unfold answer_refs, sctx. by intros -> -> -> ->. Qed.

Section reply.
Context (W : world) (HW : world_ok W).

(** The loan recorded in a reply object. *)
Definition loan_ok rp c s : Prop :=
  match donated_sc (rps s rp), donated_to (rps s rp) with
  | Some _, Some u => u ∈ L W ∧ u ≠ c ∧ 1 ≤ trefs (ip s) u < 2 ^ 31 - 1
  | None, None => True
  | _, _ => False
  end.

Lemma acct_sctx ll ll' la s t v :
  acct W ll la s → t ∈ L W → (∀ o, cnt (olist v) o + cnt ll' o = cnt (olist (sctx s t)) o + cnt ll o) →
  acct W ll' la (put_sctx t v s).
Proof.
  intros Ha Ht Hv. eapply (acct_upd W HW _ _ _ _ s _ t Ha Ht); [reflexivity|..].
  - intros w Hw. unfold held, helda. rewrite sctx_put, decide_False by done. done.
  - intros o. specialize (Hv o). unfold held. rewrite sctx_put, decide_True by done. cbn [th put_sctx on_ip with_ip].
    rewrite !cnt_app. lia.
  - done.
Qed.

Lemma put_sctx_frame t v s : th (put_sctx t v s) = th s ∧ rps (put_sctx t v s) = rps s ∧ kc (put_sctx t v s) = kc s ∧
  trefs (ip (put_sctx t v s)) = trefs (ip s).
Proof. done. Qed.

Lemma no_loan_spec rp s s1 :
  s1 = upd_rp rp (λ k, Reply (r_caller k) (r_staged k) None None) s → loan_frame rp s s1 ∧ (∀ v, sctx s1 v = sctx s v) ∧ trefs (ip s1) = trefs (ip s).
Proof.
  intros ->. split; [|done]. split; try done. cbn. rewrite upd_fn_same. split; [|done]. intros r Hr. by apply upd_fn_other.
Qed.

(** A step of the scheduling contexts and the reference counts. *)
Lemma loan_step rp s s1 s2 :
  loan_frame rp s s1 → th s2 = th s1 → rps s2 = rps s1 →
  msg s2 = msg s1 → eps (ip s2) = eps (ip s1) → ep_next (ip s2) = ep_next (ip s1) →
  blocking_ep (ip s2) = blocking_ep (ip s1) → ipc_ep_closed (ip s2) = ipc_ep_closed (ip s1) →
  (∀ v, st (ip s2) v = st (ip s1) v) → task_bound (sch (ip s2)) = task_bound (sch (ip s1)) →
  kshrinks (kc s1) (kc s2) → loan_frame rp s s2.
Proof.
  intros [F1 F2 (F3 & F4 & F5 & F6 & F7) [F8 F9] F10] E1 E2 E3 E4 E5 E6 E7 E8 E9 E10. split.
  - congruence.
  - by rewrite E2.
  - rewrite E3, E4, E5, E6, E7. by split_and!.
  - split; [intros v; by rewrite E8|congruence].
  - etransitivity; [exact F10|exact E10].
Qed.

Lemma return_donation_spec ll la rp c s :
  acct W ll la s → c ∈ L W → loan_ok rp c s →
  returns (kreply_return_donation rp (Some c) s) (λ s', acct W ll la s' ∧ loan_frame rp s s' ∧ loan_back rp c s s' ∧ loan_refs rp s s').
Proof.
  intros Ha Hc Hl. unfold kreply_return_donation, loan_back, loan_refs, loan_ok in *.
  destruct (no_loan_spec rp s _ eq_refl) as (F1 & C1 & T1). set (s1 := upd_rp rp _ s) in *.
  assert (acct W ll la s1) as A1 by (by apply acct_rps).
  destruct (donated_sc (rps s rp)) as [sc|], (donated_to (rps s rp)) as [u|]; [|by destruct Hl..|].
  2: { split; [exact A1|]. split; [exact F1|]. split; [exact C1|]. intros v. rewrite T1. lia. }
  destruct Hl as (Hu & Huc & Hr). set (s3 := flush_sc sc (thold u s1)).
  assert (acct W ll la s3) as A3 by (apply acct_ip; [apply acct_ip; [exact A1|done]|done]).
  assert (loan_frame rp s s3) as F3 by (by apply (loan_step rp s s1)).
  assert (∀ v, sctx s3 v = sctx s v) as C3 by exact C1.
  assert (trefs (ip s3) = upd_fn (trefs (ip s)) u (trefs (ip s) u + 1)) as T3.
  { cbn. rewrite u32_id by lia. done. }
  rewrite C3. destruct (decide (sctx s u = Some sc)) as [Hsc|Hsc].
  2: { rewrite bool_decide_false by done. cbn [negb]. split; [exact A3|]. split; [exact F3|]. split; [exact C3|].
    intros v. rewrite T3. unfold upd_fn. destruct (decide (v = u)) as [->|]; [rewrite decide_True by done; lia|].
    rewrite decide_False by tauto. lia. }
  rewrite bool_decide_true by done. cbn [negb]. set (s4 := put_sctx u None s3).
  assert (acct W (sc :: ll) la s4) as A4 by (apply (acct_sctx ll); [exact A3|exact Hu|intros o; rewrite C3, Hsc; cnt_lia]).
  assert (loan_frame rp s s4) as F4 by (apply (loan_step rp s s3); try done; intros v; apply st_put).
  assert (sctx s4 c = sctx s c) as C4 by (unfold s4; rewrite sctx_put, decide_False by done; apply C3).
  apply returns_bind.
  eapply (returns_mono _ (λ s5, acct W ll la s5 ∧ loan_frame rp s s5 ∧ trefs (ip s5) = trefs (ip s3) ∧
    ∀ v, sctx s5 v = if decide (v = u) then None
                     else if decide (v = c) then match sctx s c with None => Some sc | x => x end else sctx s v)).
  - rewrite C4. destruct (sctx s c) as [sc'|] eqn:Hsc'.
    + eapply returns_mono; [apply (rel_acct W HW _ _ _ _ A4)|]. intros s5 (A5 & K & S). split; [exact A5|].
      split; [|split; [by rewrite K|]].
      * apply (loan_step rp s s4); try (rewrite K; reflexivity); [exact F4|exact S].
      * intros v. rewrite K. change (sctx (with_kc (kc s5) s4) v) with (sctx s4 v). unfold s4. rewrite sctx_put, C3.
        destruct (decide (v = u)); [done|]. destruct (decide (v = c)) as [->|]; [by rewrite Hsc'|done].
    + split; [apply (acct_sctx (sc :: ll)); [exact A4|exact Hc|intros o; rewrite C4; cnt_lia]|].
      split; [apply (loan_step rp s s4); try done; intros v; apply st_put|]. split; [done|].
      intros v. rewrite sctx_put. unfold s4. rewrite sctx_put, C3. destruct (decide (v = c)) as [->|]; [by rewrite decide_False|done].
  - intros s5 (A5 & F5 & T5 & C5). rewrite tput_spec by (rewrite T5, T3, upd_fn_same; lia).
    split; [apply acct_sch; [exact A5|reflexivity]|]. split; [by apply (loan_step rp s s5)|]. split; [exact C5|].
    intros v. cbn. rewrite T5, T3. rewrite (decide_False (P := v = u ∧ _)) by tauto. unfold upd_fn.
    destruct (decide (v = u)) as [->|]; [rewrite decide_True by done|]; lia.
Qed.

(** A recorded reference is released and then forgotten. *)
Lemma rel_then ll la (x : option N) (f : ek → ek) s :
  (∀ κ s, f (with_kc κ s) = with_kc κ (f s)) → kc (f s) = kc s → acct W (olist x ++ ll) la (f s) →
  returns (rel_opt x s) (λ s1, acct W ll la (f s1) ∧ kc_only s s1 ∧ kshrinks (kc s) (kc s1)).
Proof.
  intros Hf Hk Ha. destruct x as [o|]; [|split; [exact Ha|]; split; [by destruct s|reflexivity]].
  pose proof (rel_acct W HW _ _ _ _ Ha) as Hr. cbn [rel_opt]. unfold rel, do_kc in *. rewrite Hk in Hr.
  destruct (release o (kc s)) as [κ| | ]; [|exact Hr..]. cbn in *. destruct Hr as (A & _ & S).
  split; [rewrite Hf; exact A|]. split; [reflexivity|exact S].
Qed.

(** A caller that waits on [rp]. *)
Record caller_ok rp c s : Prop := CallerOk {
  co_in    : c ∈ L W;
  co_free  : blocking_ep (ip s) c = None;
  co_reply : pending_kreply (th s c) = Some rp;
  co_refs  : 2 ≤ trefs (ip s) c < 2 ^ 31;
  co_loan  : loan_ok rp c s;
}.

Lemma forget_pending ll la s c :
  acct W ll la s → c ∈ L W →
  acct W (olist (pending_kreply (th s c)) ++ ll) la (upd_th c (put_pending None) s).
Proof.
  intros Ha Hc. eapply (acct_upd W HW _ _ _ _ s _ c Ha Hc); [reflexivity|..].
  - intros v Hv. unfold held, helda, upd_th, sctx. cbn [th ip with_th]. by rewrite upd_fn_other.
  - intros o. unfold held, upd_th, sctx. cbn [th ip with_th]. rewrite upd_fn_same.
    cbn [put_pending ep_cap_obj ep_cap_src_cn sc_held ep_reply_obj pending_kreply]. cnt_lia.
  - intros o. unfold helda, upd_th. cbn [th with_th]. by rewrite upd_fn_same.
Qed.

Definition woken c s s' : Prop :=
  ∃ σ, sch (ip s') = task_wakeup c σ ∧ ∀ v, state (tasks σ v) = st (ip s) v.

(** The end of a reply: loan, reply object, wake-up. *)
Record settled rp c s s' : Prop := Settled {
  se_once : r_caller (rps s' rp) = r_caller (rps s rp) ∧ ∀ r, r ≠ rp → rps s' r = rps s r;
  se_loan : loan_back rp c s s' ∧ donated_sc (rps s' rp) = None ∧ donated_to (rps s' rp) = None;
  se_wake : woken c s s';
  se_th   : th s' c = put_pending None (th s c) ∧ ∀ v, v ≠ c → th s' v = th s v;
  se_msg  : msg s' = msg s;
  se_kc   : kshrinks (kc s) (kc s');
  se_refs : answer_refs rp c s s';
}.

Lemma loan_qok rp c q s s' : loan_frame rp s s' → loan_refs rp s s' → loan_ok rp c s → qok (ip s) q → qok (ip s') q.
Proof.
  intros [_ _ (_ & E1 & E2 & E3 & _) [E4 E5] _] Hr Hl [Q1 Q2 Q3 Q4 Q5 Q6]. split; rewrite ?E1, ?E2, ?E3, ?E5; try done.
  - intros e v Hv. rewrite E4. by apply Q3.
  - intros e v Hv. destruct (Q5 e v Hv) as [H1 H2]. split; [|exact H2]. rewrite Hr. unfold loan_ok in Hl.
    destruct (donated_sc _), (donated_to _) as [u|]; try lia. case_decide as Hd; [|lia]. destruct Hd as [-> _]. lia.
Qed.

(** [fin] is what the handler does on its way, to fields nobody counts. *)
Lemma settle_spec (fin : ek → ek) q rp c s :
  acct W [rp] [] s → qok (ip s) q → caller_ok rp c s →
  (∀ s, kc (fin s) = kc s ∧ ip (fin s) = ip s ∧ th (fin s) = th s ∧ rps (fin s) = rps s) →
  returns (s ← kreply_return_donation rp (Some c) s;
           s ← rel_opt (pending_kreply (th s c)) s;
           s ← tput c (wake c (fin (upd_th c (put_pending None) s)));
           s ← rel rp s; Ret (Ok 0, s))
    (λ '(r, s'), r = Ok 0 ∧ acct W [] [] s' ∧ qok (ip s') q ∧ settled rp c s s').
Proof.
  intros Ha Hq [Hc Hb Hp Hr Hl] Hfin. apply returns_bind.
  eapply returns_mono; [apply (return_donation_spec [rp] [] rp c s Ha Hc Hl)|].
  intros s1 (A1 & F1 & B1 & R1). pose proof (loan_qok rp c q s s1 F1 R1 Hl Hq) as Hq1.
  destruct F1 as [F1 [F2 F3] (F4 & F5 & F6 & F7 & F8) [F9 F10] F11].
  assert (trefs (ip s1) c = trefs (ip s) c) as Hrc.
  { rewrite R1. unfold loan_ok in Hl. destruct (donated_sc _), (donated_to _) as [u|]; try lia. rewrite decide_False; [lia|].
    intros [-> _]. by destruct Hl as (_ & ? & _). }
  apply returns_bind. eapply returns_mono; [apply (rel_then [rp] [] _ (upd_th c (put_pending None)) s1);
    [done|done|by apply forget_pending]|].
  intros s2 (A2 & K2 & S2). set (s3 := fin (upd_th c (put_pending None) s2)).
  destruct (Hfin (upd_th c (put_pending None) s2)) as (G1 & G2 & G3 & G4). fold s3 in G1, G2, G3, G4.
  assert (ip s3 = ip s1) as Hi3 by (rewrite G2; cbn; by rewrite K2).
  assert (acct W [rp] [] s3) as A3.
  { eapply acct_same; [exact A2|exact G1|]. intros v. unfold held, helda, sctx. by rewrite G2, G3. }
  destruct (wake_put W [rp] [] q c s3 A3) as (s4 & -> & A4 & Hq4 & E4); [by rewrite Hi3|rewrite Hi3, F7; exact Hb|rewrite Hi3, Hrc; apply Hr|].
  cbn [mbind res_bind]. apply returns_bind. eapply returns_mono; [apply (rel_acct W HW _ _ _ _ A4)|].
  intros s5 (A5 & K5 & S5). split; [reflexivity|]. split; [exact A5|]. split; [by rewrite K5|].
  assert (rps s3 = rps s1 ∧ th s3 = upd_fn (th s) c (put_pending None (th s c))) as [Hp3 Ht3].
  { rewrite G4, G3. cbn. rewrite K2. cbn. by rewrite F1. }
  split.
  - rewrite K5, E4. cbn. rewrite Hp3. destruct F3 as (-> & _). by split.
  - rewrite K5, E4. cbn. rewrite Hp3. split; [|apply F3]. unfold loan_back in *.
    assert (∀ v, sctx (with_kc (kc s5) (with_ip (with_trefs (upd_fn (trefs (ip s3)) c (trefs (ip s3) c - 1))
      (with_sch (task_wakeup c (sch (ip s3))) (ip s3))) s3)) v = sctx s1 v) as Hsc.
    { intros v. unfold sctx. cbn. by rewrite wakeup_ctx, Hi3. }
    destruct (donated_sc (rps s rp)), (donated_to (rps s rp)); [destruct (decide _)|..]; intros v; rewrite Hsc; apply B1.
  - exists (sch (ip s3)). split; [by rewrite K5, E4|]. intros v. rewrite Hi3. apply F9.
  - rewrite K5, E4. cbn. rewrite Ht3, upd_fn_same. split; [done|]. intros v Hv. by rewrite upd_fn_other.
  - rewrite K5, E4. unfold msg. cbn. rewrite Hi3. exact F4.
  - etransitivity; [exact F11|]. etransitivity; [exact S2|]. rewrite E4 in S5. cbn in S5. rewrite G1 in S5. exact S5.
  - intros v. rewrite K5, E4. cbn. rewrite Hi3. unfold upd_fn. specialize (R1 v). destruct (decide (v = c)) as [->|]; lia.
Qed.

(** The caller has its answer. *)
Record replied rp c (m : ipc_stage) (x : xfer) s s' : Prop := Replied {
  rd_msg   : same_payload (st_badge 0 m) (msg s' c);
  rd_other : ∀ v, v ≠ c → msg s' v = msg s v;
  rd_cap   : carried_in attached_handle c x s s';
  rd_once  : r_caller (rps s' rp) = r_caller (rps s rp) ∧ ∀ r, r ≠ rp → rps s' r = rps s r;
  rd_loan  : loan_back rp c s s' ∧ donated_sc (rps s' rp) = None;
  rd_wake  : woken c s s';
  rd_th    : pending_kreply (th s' c) = None ∧ ∀ v, v ≠ c → th s' v = th s v;
  rd_refs  : answer_refs rp c s s';
}.

Lemma transfer_reply_spec sb cb n m mem :
  ∃ m' mem', ipc_transfer_reply sb cb n m mem = (m', mem') ∧ same_payload m m' ∧ attached_handle m' = attached_handle m.
Proof.
  unfold ipc_transfer_reply. destruct (n =? 0); [by do 2 eexists|].
  destruct sb; [destruct cb|]; (do 2 eexists; split; [reflexivity|by split_and!]).
Qed.

Lemma reply_deliver_spec q t rp c m (x : xfer) s :
  acct W (xl x ++ [rp]) (xa x) s → qok (ip s) q → caller_ok rp c s → root_ok W s c →
  returns (reply_deliver t rp c m x s)
    (λ '(r, s'), r = Ok 0 ∧ acct W [] [] s' ∧ qok (ip s') q ∧ replied rp c m x s s').
Proof.
  intros Ha Hq Hco Hr. unfold reply_deliver. set (s1 := put_msg c _ s).
  assert (msg s1 c = st_badge 0 (clean_msg m)) as Hm1 by apply msg_put. apply returns_bind.
  eapply returns_mono; [apply (hand_cap W HW attached_handle [rp] [] c x (λ v k m, st_hrights (cap_rights k) (st_handle v m)) s1)|].
  - rewrite app_nil_r. by apply acct_msg.
  - simpl. lia.
  - simpl. lia.
  - exact Hr.
  - intros v k m0. by split_and!.
  - rewrite Hm1. reflexivity.
  - intros s2 (A2 & Hca & [[T1 [slot T2]] [M1 M2] (I1 & I2 & I3 & I4 & I5 & _) Hrp]).
    destruct (transfer_reply_spec (ipc_buffer (th s2 t)) (ipc_buffer (th s2 c)) (buf_len m) (msg s2 c) (phys s2))
      as (m' & mem' & -> & Hpl & Hah). set (s3 := with_phys mem' (put_msg c m' s2)).
    assert (msg s3 c = m') as Hm3 by (cbn; apply upd_fn_same).
    assert (qok (ip s3) q) as Hq3 by (apply (qok_same (ip s)); [by apply q_same_fields|exact Hq]).
    assert (caller_ok rp c s3) as Hco3.
    { destruct Hco as [O1 O2 O3 O4 O5]. split; [exact O1|cbn; by rewrite I5|cbn; by rewrite T2|cbn; by rewrite I2|].
      unfold loan_ok in *. cbn. rewrite Hrp, I2. exact O5. }
    eapply returns_mono; [apply (settle_spec (λ s, s) q rp c s3); [by apply acct_phys, acct_msg|exact Hq3|exact Hco3|done]|].
    intros [r s'] (-> & A' & Hq' & [E1 [E2 E3] [σ E4] [E5 E6] E7 E8 E9]). split; [reflexivity|]. split; [exact A'|]. split; [exact Hq'|].
    split.
    + rewrite E7, Hm3. eapply same_payload_trans; [|exact Hpl]. eapply same_payload_trans; [|exact M2]. rewrite Hm1. by split_and!.
    + intros v Hv. rewrite E7. unfold msg. cbn. rewrite upd_fn_other by done. change (msg s2 v = msg s v). rewrite M1 by done.
      unfold s1, msg. cbn. by rewrite upd_fn_other.
    + apply (carried_from _ _ _ s s1); [|reflexivity|reflexivity].
      apply (carried_mono _ _ _ s1 s2); [exact Hca|exact E8|by rewrite E7, Hm3].
    + change (rps s3) with (rps s2) in E1. rewrite Hrp in E1. exact E1.
    + split; [|apply E3]. unfold loan_back, sctx in *. change (rps s3) with (rps s2) in E2. change (sch (ip s3)) with (sch (ip s2)) in E2.
      rewrite Hrp, I1 in E2. exact E2.
    + exists σ. destruct E4 as [E4 E4']. split; [exact E4|]. intros v. rewrite E4'. unfold st. cbn. by rewrite I1.
    + rewrite E5. split; [done|]. intros v Hv. rewrite E6 by done. cbn. by apply T1.
    + apply (answer_refs_from rp c s s3); [exact I2|exact I1|cbn; by rewrite Hrp..|exact E9].
Qed.

(** A faulting thread runs again, with whatever the handler's reply carried dropped. *)
Lemma reply_fault_spec q t rp c (x : xfer) s :
  acct W (xl x ++ [rp]) (xa x) s → qok (ip s) q → caller_ok rp c s →
  returns (reply_fault t rp c x s) (λ '(r, s'), r = Ok 0 ∧ acct W [] [] s' ∧ qok (ip s') q ∧
    woken c s s' ∧ loan_back rp c s s' ∧ r_caller (rps s' rp) = r_caller (rps s rp) ∧
    ep_fault_call (th s' c) = false ∧ pending_kreply (th s' c) = None ∧ kshrinks (kc s) (kc s') ∧ answer_refs rp c s s').
Proof.
  intros Ha Hq Hco. unfold reply_fault. set (s1 := upd_th c (put_fault false) s). apply returns_bind.
  eapply returns_mono; [apply (stage_abort_acct W HW [rp] [] x s1)|].
  { destruct x; (apply acct_field; [by intros e|exact Ha]). }
  intros s2 (A2 & K2 & S2).
  assert (caller_ok rp c s2) as Hco2.
  { destruct Hco as [O1 O2 O3 O4 O5]. rewrite K2. split; [exact O1|exact O2|cbn; by rewrite upd_fn_same|exact O4|exact O5]. }
  assert (qok (ip s2) q) as Hq2 by (by rewrite K2).
  eapply returns_mono; [apply (settle_spec (kfault_resolve c false) q rp c s2 A2 Hq2 Hco2); by intros s0|].
  intros [r s'] (-> & A' & Hq' & [E1 [E2 E3] [σ E4] [E5 E6] E7 E8 E9]). split; [reflexivity|]. split; [exact A'|]. split; [exact Hq'|].
  rewrite K2 in E1, E2, E4, E5, E9. split; [by exists σ|]. split; [exact E2|]. split; [apply E1|]. rewrite E5. cbn. rewrite upd_fn_same.
  split; [done|]. split; [done|]. split; [etransitivity; [exact S2|exact E8]|]. by apply (answer_refs_from rp c s _ s') in E9.
Qed.

(** ** REPLY *)

Definition take_caller rp s : ek := upd_rp rp (λ k, Reply None (r_staged k) (donated_sc k) (donated_to k)) s.

Definition callers_ok t s : Prop := ∀ rp c, r_caller (rps s rp) = Some c → caller_ok rp c s ∧ root_ok W s c ∧ c ≠ t.

Definition reply_result t (arg0 : Z) q s (r : sysret) s' : Prop :=
  match r with
  | Err _ => (∀ rp, rps s' rp = rps s rp) ∧ ∃ s1, entered t s s1 ∧ ip s' = ip s1 ∧ th s' = th s1 ∧ kshrinks (kc s1) (kc s')
  | Park => False
  | Ok _ => ∃ rp b c x m s1,
      found (kc s) KOBJ_REPLY (Some (troot (th s t))) (cspace_of s t) arg0 RIGHT_WRITE rp b ∧
      r_caller (rps s rp) = Some c ∧ r_caller (rps s' rp) = None ∧ cap_sound (mdb (kc s)) x ∧ entered t s s1 ∧
      same_payload (ipc_msg_load (sc_arg (th s t))) m ∧ qok (ip s') q ∧ answer_refs rp c s s' ∧
      if ep_fault_call (th s c) then
        woken c s1 s' ∧ loan_back rp c s1 s' ∧ ep_fault_call (th s' c) = false ∧ kshrinks (kc s1) (kc s')
      else replied rp c m x (take_caller rp s1) s'
  end.

Lemma take_caller_ok rp c t s s1 :
  entered t s s1 → caller_ok rp c s → root_ok W s c →
  caller_ok rp c (take_caller rp s1) ∧ root_ok W (take_caller rp s1) c.
Proof.
  intros He [O1 O2 O3 O4 O5] Hr. pose proof (entered_root W t s s1 c He Hr) as Hr1.
  destruct He as [E1 E2 _ (E3 & E4 & _ & _ & E5 & _) _]. split; [|exact Hr1]. split; cbn.
  - exact O1.
  - by rewrite E5.
  - by rewrite E1.
  - by rewrite E4.
  - unfold loan_ok in *. cbn. rewrite upd_fn_same. cbn. rewrite E2, E4. exact O5.
Qed.

Lemma take_caller_id rp s : r_caller (rps s rp) = None → ∀ r, rps (take_caller rp s) r = rps s r.
Proof.
  intros Hn r. cbn. destruct (decide (r = rp)) as [->|]; [|by rewrite upd_fn_other]. rewrite upd_fn_same.
  destruct (rps s rp). cbn in *. by subst.
Qed.

(** The caller is there: it gets the message, or its fault is resolved. *)
Lemma reply_answer q s t arg0 rp b c m (x : xfer) s1 :
  qok (ip s) q → entered t s s1 → r_caller (rps s rp) = Some c → caller_ok rp c s → root_ok W s c →
  found (kc s) KOBJ_REPLY (Some (troot (th s t))) (cspace_of s t) arg0 RIGHT_WRITE rp b →
  cap_sound (mdb (kc s)) x → same_payload (ipc_msg_load (sc_arg (th s t))) m →
  acct W (xl x ++ [rp]) (xa x) (take_caller rp s1) →
  returns (if ep_fault_call (th s c) then reply_fault t rp c x (take_caller rp s1)
           else reply_deliver t rp c m x (take_caller rp s1))
    (λ '(r, s'), acct W [] [] s' ∧ reply_result t arg0 q s r s').
Proof.
  intros Hq E3 Hc Hco Hroot Hf Hsx Hpl A4. destruct (take_caller_ok rp c t s s1 E3 Hco Hroot) as [Hco4 Hroot4].
  assert (qok (ip (take_caller rp s1)) q) as Hq4 by (exact (entered_q t s s1 q E3 Hq)).
  assert (r_caller (rps (take_caller rp s1) rp) = None) as Hn by (cbn; by rewrite upd_fn_same).
  assert (∀ s', answer_refs rp c (take_caller rp s1) s' → answer_refs rp c s s') as Hrf.
  { intros s'. destruct E3 as [_ G1 _ (G2 & G3 & _) _]. by apply answer_refs_from; cbn; rewrite ?upd_fn_same; cbn; rewrite ?G1. }
  destruct (ep_fault_call (th s c)) eqn:Hfc.
  - eapply returns_mono; [apply (reply_fault_spec q t rp c x _ A4 Hq4 Hco4)|].
    intros [r s'] (-> & A' & Hq' & B1 & B2 & B3 & B4 & B5 & B6 & B7). split; [exact A'|]. exists rp, b, c, x, m, s1.
    split; [exact Hf|]. split; [exact Hc|]. split; [congruence|]. split; [exact Hsx|]. split; [exact E3|]. split; [exact Hpl|].
    split; [exact Hq'|]. split; [by apply Hrf|]. rewrite Hfc. split; [exact B1|]. split; [|split; [exact B4|exact B6]].
    unfold loan_back in B2. cbn in B2. rewrite upd_fn_same in B2. exact B2.
  - eapply returns_mono; [apply (reply_deliver_spec q t rp c m x _ A4 Hq4 Hco4 Hroot4)|].
    intros [r s'] (-> & A' & Hq' & B). split; [exact A'|]. exists rp, b, c, x, m, s1.
    split; [exact Hf|]. split; [exact Hc|]. split; [rewrite (proj1 (rd_once _ _ _ _ _ _ B)); exact Hn|]. split; [exact Hsx|].
    split; [exact E3|]. split; [exact Hpl|]. split; [exact Hq'|]. split; [apply Hrf, B|]. rewrite Hfc. exact B.
Qed.

Lemma sys_reply_spec q s t arg0 :
  at_entry W q s t → callers_ok t s → arg0 ≠ 0 →
  returns (sys_reply t arg0 s) (λ '(r, s'), acct W [] [] s' ∧ reply_result t arg0 q s r s').
Proof.
  intros [Ha Hq Hrn Hre Hcs _] Hcl H0. unfold sys_reply. rewrite (proj2 (Z.eqb_neq _ _) H0), bool_decide_false by exact Hcs.
  assert (∀ rp s1 s2 e, entered t s s1 → ip s2 = ip s1 → th s2 = th s1 → kshrinks (kc s1) (kc s2) → (∀ r, rps s2 r = rps s r) →
    acct W [rp] [] s2 → returns (s ← rel rp s2; Ret (Err e, s)) (λ '(r, s'), acct W [] [] s' ∧ reply_result t arg0 q s r s')) as Hgive.
  { intros rp s1 s2 e He Hi Ht Hs Hrp A2. apply returns_bind. eapply returns_mono; [apply (rel_acct W HW _ _ _ _ A2)|].
    intros s3 (A3 & K3 & S3). split; [exact A3|]. split; [intros r; rewrite K3; apply Hrp|]. exists s1.
    split; [exact He|]. split; [by rewrite K3|]. split; [by rewrite K3|]. etransitivity; [exact Hs|exact S3]. }
  apply returns_bind. eapply returns_mono; [apply (resolve_acct W HW [] [] KOBJ_REPLY (Some (troot (th s t))) arg0 RIGHT_WRITE s t Ha);
    [simpl; lia|simpl; lia|apply Hrn|done]|].
  intros [r κ'] [Hm Hp]. cbv zeta. set (s1 := with_kc κ' s). assert (entered t s s1) as E1 by (by apply entered_kc).
  destruct r as [e|[[rp rts] b]].
  { split; [exact Hp|]. split; [done|]. exists s1. split; [exact E1|]. split_and!; reflexivity. }
  destruct Hp as [A1 Hf]. set (m := ipc_msg_load _). set (s2 := put_msg t m s1).
  assert (entered t s s2) as E2 by (etransitivity; [exact E1|apply entered_msg]).
  apply returns_bind. eapply returns_mono; [apply (stage_peek_acct W HW [rp] [] t (attached_handle m) (attached_rights m) s2);
    [by apply acct_msg|simpl; lia|simpl; lia|apply (entered_root W t s s2 t E2), Hrn]|].
  intros [p s3] (K3 & Hm3 & Hp). assert (entered t s s3) as E3 by (etransitivity; [exact E2|by apply entered_kc]).
  assert (∀ r, rps s3 r = rps s r) as Hr3 by (intros r; by rewrite K3).
  destruct p as [e|x].
  { apply (Hgive rp s3 s3 e E3); [done|done|reflexivity|exact Hr3|exact Hp]. }
  destruct Hp as [A3 Hv]. rewrite app_nil_r in A3. fold (take_caller rp s3).
  assert (cap_sound (mdb (kc s)) x) as Hsx.
  { rewrite <-(en_mdb _ _ _ E2). destruct x as [k|]; [|exact I]. by eapply verdict_sound. }
  assert (acct W (xl x ++ [rp]) (xa x) (take_caller rp s3)) as A4 by (by apply acct_rps).
  destruct (r_caller (rps s3 rp)) as [c|] eqn:Hc.
  2: { apply returns_bind. eapply returns_mono; [apply (stage_abort_acct W HW [rp] [] x (take_caller rp s3)); by destruct x|].
    intros s5 (A5 & K5 & S5). apply (Hgive rp s3 s5 _ E3); [by rewrite K5|by rewrite K5|exact S5| |exact A5].
    intros r. rewrite K5. cbn [rps with_kc]. rewrite take_caller_id by exact Hc. apply Hr3. }
  rewrite Hr3 in Hc. destruct (Hcl rp c Hc) as (Hco & Hroot & Hct).
  cbn [th take_caller upd_rp with_rps]. assert (th s3 c = th s c) as -> by (by rewrite (en_th _ _ _ E3)).
  apply (reply_answer q s t arg0 rp b c); [exact Hq|exact E3|exact Hc|exact Hco|exact Hroot|exact Hf|exact Hsx| |exact A4].
  destruct x; by split_and!.
Qed.
End reply.
