(* ===== verification/EndpointCall.v ===== *)
(** * Calling on an endpoint

    EP_CALL: the caller's message goes to the first receiver, whose staged reply
    object is bound to the caller and whose time is the caller's from then on, or
    the caller waits in the queue as a sender in a call. *)

From Stdlib Require Import ZArith Lia.
From stdpp Require Import base numbers gmap list.
From S2P Require Import Prelude Rights Forest Mdb Cdt Kobject Kcnode KcnodeInv KcnodeInstall Cspace IpcCap.
From S2P Require Import Kschedctx Runq RunqInv RunqSpec SchedSpec Wq Ipc Knotification IpcMsg.
From S2P Require Import Endpoint EndpointInv EndpointQueue EndpointSend EndpointRecv EndpointReply.
Local Open Scope Z_scope.
Implicit Types (s : ek) (t u c o ep rp : N) (κ : kstate) (q : N → list N).

(** The caller's own message, declaration and flags change, and counts. *)
Record cframe t s s' : Prop := CFrame {
  cf_th  : ∀ v, v ≠ t → th s' v = th s v;
  cf_t   : ∃ slot cm, th s' t = put_call cm (put_slot slot (th s t));
  cf_rps : rps s' = rps s;
  cf_msg : ∀ v, v ≠ t → msg s' v = msg s v;
  cf_ip  : sch (ip s') = sch (ip s) ∧ trefs (ip s') = trefs (ip s) ∧ eps (ip s') = eps (ip s) ∧
           ep_next (ip s') = ep_next (ip s) ∧ blocking_ep (ip s') = blocking_ep (ip s);
  cf_mdb : mdb (kc s') = mdb (kc s);
}.

#[global] Instance cframe_preorder t : PreOrder (cframe t).
Proof.
  split.
  - intros s. split; [done| |done|done|by split_and!|done]. exists (ep_recv_slot (th s t)), (ep_call_mode (th s t)). by destruct (th s t).
  - intros s1 s2 s3 [A1 (a & b & A2) A3 A4 (A5 & A6 & A7 & A8 & A9) A10] [B1 (a' & b' & B2) B3 B4 (B5 & B6 & B7 & B8 & B9) B10]. split.
    + intros v Hv. by rewrite B1, A1.
    + exists a', b'. rewrite B2, A2. done.
    + congruence.
    + intros v Hv. by rewrite B4, A4.
    + split_and!; congruence.
    + congruence.
Qed.

Lemma cframe_entered t s s' : entered t s s' → cframe t s s'.
Proof.
  intros [E1 E2 E3 (E4 & E5 & E6 & E7 & E8 & _) E9]. split; [intros; by rewrite E1| |exact E2|exact E3|by split_and!|exact E9].
  exists (ep_recv_slot (th s t)), (ep_call_mode (th s t)). rewrite E1. by destruct (th s t).
Qed.

Lemma cframe_field t s (slot : Z) (cm : bool) :
  cframe t s (upd_th t (put_slot slot) s) ∧ cframe t s (upd_th t (put_call cm) s).
Proof.
  split; (split; [intros v Hv; by apply upd_fn_other| |done|done|by split_and!|done]); cbn; rewrite upd_fn_same.
  - exists slot, (ep_call_mode (th s t)). by destruct (th s t).
  - exists (ep_recv_slot (th s t)), cm. by destruct (th s t).
Qed.

Lemma cframe_closed t s b : cframe t s (put_closed t b s).
Proof.
  split; [done| |done|done|by split_and!|done]. exists (ep_recv_slot (th s t)), (ep_call_mode (th s t)). cbn. by destruct (th s t).
Qed.

Lemma cframe_q t s s' q : cframe t s s' → qok (ip s) q → qok (ip s') q.
Proof. intros [_ _ _ _ (E1 & E2 & E3 & E4 & E5) _]. apply qok_same. by apply q_same_fields. Qed.

Section call.
Context (W : world) (HW : world_ok W).

Lemma cframe_root t s s' u : cframe t s s' → root_ok W s u → root_ok W s' u.
Proof.
  intros [E1 (a & b & E2) _ _ _ E6]. unfold root_ok, cspace_of, live_root, anchored. rewrite E6.
  assert (troot (th s' u) = troot (th s u)) as ->; [|done].
  destruct (decide (u = t)) as [->|Hu]; [by rewrite E2|by rewrite E1].
Qed.

Lemma cframe_running t s s' : cframe t s s' → running W s t → running W s' t.
Proof.
  intros Hf [R1 R2 R3 R4 R5]. pose proof (cframe_root t s s' t Hf R5). destruct Hf as [E1 (a & b & E2) _ _ (E3 & E4 & E5 & E6 & E7) _].
  split; [by rewrite E7|rewrite E2; exact R2|by rewrite E3|by rewrite E4|done].
Qed.

(** A queued receiver: a thread of the system with a live CSpace. *)
Record receiver_ok s u : Prop := ReceiverOk { ro_in : u ∈ L W; ro_root : root_ok W s u }.

(** A reply object that can be bound: still staged, and nobody's yet. *)
Definition bindable s rp : Prop := r_staged (rps s rp) = true ∧ r_caller (rps s rp) = None.
#[local] Instance bindable_dec s rp : Decision (bindable s rp).
Proof. unfold bindable. apply _. Defined.

(** The call is in the hands of [u]. *)
Record called t u ep rp (x : xfer) s s' : Prop := Called {
  cl_msg   : same_payload (msg s t) (msg s' u) ∧ attached_handle (msg s' u) = ep_reply_val (th s u);
  cl_other : ∀ v, v ≠ u → msg s' v = msg s v;
  cl_cap   : carried_in attached_cap u x s s';
  cl_bound : r_caller (rps s' rp) = Some t ∧ (∀ r, r ≠ rp → rps s' r = rps s r);
  cl_lend  : lends rp u t s s';
  cl_t     : pending_kreply (th s' t) = Some rp ∧ sc_held (th s' t) = Some ep ∧ st (ip s') t = TASK_BLOCKED_REPLY;
  cl_wake  : ∃ σ, (∀ v, state (tasks σ v) = st (ip s) v) ∧ ∀ v, v ≠ t → st (ip s') v = state (tasks (task_wakeup u σ) v);
  cl_th    : ep_reply_obj (th s' u) = None ∧ ∀ v, v ≠ t → v ≠ u → th s' v = th s v;
}.

Lemma bound_q rp u t s s' : bound rp u t s s' → blocking_ep (ip s) t = None → q_same (ip s) (ip s').
Proof.
  intros Hb Ht. destruct (bd_ip _ _ _ _ _ Hb) as (E1 & _ & E3 & E4 & E5 & _). destruct (bd_st _ _ _ _ _ Hb) as [B1 B2].
  split; [exact E3|]. split; [exact E4|]. split; [exact E5|]. split; [|exact B2]. intros v [e Hv]. split; [apply B1|].
  rewrite E1. apply upd_fn_other. congruence.
Qed.

(** The caller blocks, with the endpoint recorded in it. *)
Lemma call_block q ep t s (s' := upd_th t (put_held (Some ep)) (put_state t TASK_BLOCKED_REPLY s)) :
  acct W [ep] [] s → t ∈ L W → sc_held (th s t) = None → qok (ip s) q → blocking_ep (ip s) t = None →
  acct W [] [] s' ∧ qok (ip s') q ∧ (∀ v, sctx s' v = sctx s v) ∧
  ∀ v, st (ip s') v = if decide (v = t) then TASK_BLOCKED_REPLY else st (ip s) v.
Proof.
  intros Ha Ht Hh Hq Hb. subst s'.
  assert (∀ v, sctx (put_state t TASK_BLOCKED_REPLY s) v = sctx s v ∧
    st (ip (put_state t TASK_BLOCKED_REPLY s)) v = if decide (v = t) then TASK_BLOCKED_REPLY else st (ip s) v) as Hc.
  { intros v. unfold sctx, st. cbn. unfold upd_task. cbn. unfold upd_fn. by case_decide; subst. }
  split; [|split; [|split]].
  - eapply (acct_upd W HW _ _ _ _ s _ t Ha Ht); [reflexivity|..].
    + intros v Hv. unfold held, helda, upd_th. cbn [th with_th]. rewrite upd_fn_other by done.
      change (sctx (with_th _ ?x) v) with (sctx x v). destruct (Hc v) as [-> _]. done.
    + intros o. unfold held, upd_th. cbn [th with_th]. rewrite upd_fn_same.
      change (sctx (with_th _ ?x) t) with (sctx x t). destruct (Hc t) as [-> _].
      cbn [th put_state on_ip with_ip put_held ep_cap_obj ep_cap_src_cn sc_held ep_reply_obj pending_kreply]. rewrite Hh. cnt_lia.
    + intros o. unfold helda, upd_th. cbn [th with_th]. by rewrite upd_fn_same.
  - apply (qok_same (ip s)); [|exact Hq]. split; [done|]. split; [done|]. split; [done|]. split; [|done].
    intros v [e Hv]. split; [|done]. destruct (Hc v) as [_ H]. rewrite decide_False in H by congruence. exact H.
  - intros v. apply Hc.
  - intros v. apply Hc.
Qed.

(** The receiver [u] was taken off the queue and has the message, but the reply
    object it had staged could not be bound. *)
Record stranded t u rp (x : xfer) s s' : Prop := Stranded {
  sd_msg   : same_payload (msg s t) (msg s' u);
  sd_other : ∀ v, v ≠ u → msg s' v = msg s v;
  sd_cap   : carried_in attached_cap u x s s';
  sd_rps   : rps s' = rps s;
  sd_wake  : ∃ σ, (∀ v, state (tasks σ v) = st (ip s) v) ∧ ∀ v, st (ip s') v = state (tasks (task_wakeup u σ) v);
  sd_th    : ep_reply_obj (th s' u) = Some rp ∧ th s' t = put_call false (th s t) ∧ ∀ v, v ≠ t → v ≠ u → th s' v = th s v;
}.

(** The end of a rendezvous, once the message is with [u]. *)
#[local] Notation call_end t u ep s0 := (match ep_bind_call_reply u t s0 with
  | (None, s) => s ← tput u (wake u s); s ← rel ep s; Ret (Err IRIS_ERR_CLOSED, s)
  | (Some v, s) =>
      let s := put_msg u (st_handle v (msg s u)) s in
      s ← tput u (wake u s);
      Ret (Park, upd_th t (put_held (Some ep)) (put_state t TASK_BLOCKED_REPLY s))
  end).

(** What binding and blocking do, once the message is with [u]. *)
Record call_bound t u ep rp s s' : Prop := CallBound {
  cb_msg   : same_payload (msg s u) (msg s' u) ∧ attached_cap (msg s' u) = attached_cap (msg s u) ∧
             attached_handle (msg s' u) = ep_reply_val (th s u);
  cb_other : ∀ v, v ≠ u → msg s' v = msg s v;
  cb_kc    : kc s' = kc s;
  cb_bound : r_caller (rps s' rp) = Some t ∧ (∀ r, r ≠ rp → rps s' r = rps s r);
  cb_lend  : lends rp u t s s';
  cb_t     : pending_kreply (th s' t) = Some rp ∧ sc_held (th s' t) = Some ep ∧ st (ip s') t = TASK_BLOCKED_REPLY;
  cb_wake  : ∃ σ, (∀ v, state (tasks σ v) = st (ip s) v) ∧ ∀ v, v ≠ t → st (ip s') v = state (tasks (task_wakeup u σ) v);
  cb_th    : ep_reply_obj (th s' u) = None ∧ ∀ v, v ≠ t → v ≠ u → th s' v = th s v;
}.

Lemma lends_same rp u t s s1 s' :
  lends rp u t s s1 → (∀ v, sctx s' v = sctx s1 v) → rps s' rp = rps s1 rp → lends rp u t s s'.
Proof.
  intros Hl Hs Hr. unfold lends in *. rewrite Hr. destruct (sctx s u); [|destruct (sctx s t)].
  - split; [intros v; rewrite Hs|]; apply Hl.
  - rewrite !Hs. destruct Hl as (H1 & H2 & H3 & H4). split; [exact H1|]. split; [exact H2|]. split; [|exact H4].
    intros v H5 H6. rewrite Hs. by apply H3.
  - split; [intros v; rewrite Hs|]; apply Hl.
Qed.

Lemma call_bind_spec q t u ep rp s :
  acct W [ep] [] s → qok (ip s) q → u ≠ t → u ∈ L W → t ∈ L W →
  ep_reply_obj (th s u) = Some rp → bindable s rp →
  pending_kreply (th s t) = None → sc_held (th s t) = None →
  blocking_ep (ip s) t = None → blocking_ep (ip s) u = None → 2 ≤ trefs (ip s) u →
  returns (call_end t u ep s)
    (λ '(r, s'), r = Park ∧ acct W [] [] s' ∧ qok (ip s') q ∧ call_bound t u ep rp s s').
Proof.
  intros A4 Hq4 Hut Hu Ht Hrp [Hsg Hcl] Hp Hh Hbt Hbu Hrf. destruct (bind_spec rp u t s Hut Hrp Hsg Hcl) as (s5 & -> & Hbd).
  pose proof (bound_acct W HW [ep] [] rp u t s s5 A4 Hbd Hu Ht Hut Hrp Hp) as A5.
  pose proof (qok_same _ _ _ (bound_q rp u t s s5 Hbd Hbt) Hq4) as Hq5.
  destruct Hbd as [[B1 _] B2 B3 B4 B5 B6 (F1 & F2 & F3 & F4 & F5 & F6) [B8 B9] B10]. cbv zeta. set (s6 := put_msg u _ s5).
  assert (qok (ip s6) q) as Hq6 by (apply (qok_same (ip s5)); [by apply q_same_fields|exact Hq5]).
  destruct (wake_put W [ep] [] q u s6) as (s7 & -> & A7 & Hq7 & E7);
    [by apply acct_msg|exact Hq6|by cbn; rewrite F5|by cbn; rewrite F1, upd_fn_other|]. cbn [mbind res_bind].
  assert (kc s7 = kc s ∧ th s7 = th s5 ∧ rps s7 = rps s5 ∧ msg s7 = msg s6) as (K7 & T7 & P7 & M7) by (rewrite E7; by split_and!).
  assert (∀ v, st (ip s7) v = state (tasks (task_wakeup u (sch (ip s5))) v) ∧ sctx s7 v = sctx s5 v) as Hst7.
  { intros v. rewrite E7. unfold st, sctx. cbn. by rewrite wakeup_ctx. }
  destruct (call_block q ep t s7 A7 Ht) as (A8 & Hq8 & C8 & S8);
    [rewrite T7, B4; exact Hh|exact Hq7|rewrite E7; cbn; by rewrite F5|].
  split; [reflexivity|]. split; [exact A8|]. split; [exact Hq8|].
  assert (msg s6 u = st_handle (ep_reply_val (th s u)) (msg s u)) as Hm6 by (unfold s6; rewrite msg_put, F2; done).
  split; cbn [th rps kc upd_th with_th put_state on_ip with_ip].
  - change (msg (upd_th ?a ?b (put_state ?c ?d s7)) u) with (msg s7 u). rewrite M7, Hm6. by split_and!.
  - intros v Hv. change (msg (upd_th ?a ?b (put_state ?c ?d s7)) v) with (msg s7 v). rewrite M7. unfold s6, msg. cbn.
    rewrite upd_fn_other by done. change (msg s5 v = msg s v). by rewrite F2.
  - exact K7.
  - rewrite P7. split; [exact B1|exact B2].
  - apply (lends_same rp u t s s5); [exact B6| |by cbn; rewrite P7]. intros v. rewrite C8. apply Hst7.
  - rewrite upd_fn_same, T7, B4. split; [done|]. split; [done|]. rewrite S8. by rewrite decide_True.
  - exists (sch (ip s5)). split; [exact B8|]. intros v Hv. rewrite S8, decide_False by done. apply Hst7.
  - rewrite upd_fn_other, T7, B3 by done. split; [done|]. intros v H1 H2. rewrite upd_fn_other by done. by apply B5.
Qed.

(** Binding after the delivery. *)
Lemma called_from t u ep rp (x : xfer) s s4 s' :
  same_payload (msg s t) (msg s4 u) ∧ (∀ v, v ≠ u → msg s4 v = msg s v) ∧ (∀ v, v ≠ t → v ≠ u → th s4 v = th s v) →
  ep_reply_val (th s4 u) = ep_reply_val (th s u) → rps s4 = rps s →
  (∀ v, st (ip s4) v = st (ip s) v ∧ sctx s4 v = sctx s v) →
  (∀ s', kshrinks (kc s4) (kc s') → attached_cap (msg s' u) = attached_cap (msg s4 u) → carried_in attached_cap u x s s') →
  call_bound t u ep rp s4 s' → called t u ep rp x s s'.
Proof.
  intros (M1 & M2 & M3) Hv Hr Hsc Hcar [(D1 & D2 & D3) D4 D5 D6 D7 D8 D9 D10]. split.
  - split; [by eapply same_payload_trans|by rewrite D3].
  - intros v H. by rewrite D4, M2.
  - apply Hcar; [by rewrite D5|exact D2].
  - rewrite <-Hr. exact D6.
  - unfold lends in *. rewrite <-Hr. destruct (Hsc u) as [_ <-], (Hsc t) as [_ <-].
    destruct (sctx s4 u); [|destruct (sctx s4 t)].
    + split; [intros v; destruct (Hsc v) as [_ <-]|]; apply D7.
    + destruct D7 as (G1 & G2 & G3 & G4). split; [exact G1|]. split; [exact G2|]. split; [|exact G4].
      intros v H1 H2. destruct (Hsc v) as [_ <-]. by apply G3.
    + split; [intros v; destruct (Hsc v) as [_ <-]|]; apply D7.
  - exact D8.
  - destruct D9 as (σ & G1 & G2). exists σ. split; [|exact G2]. intros v. rewrite G1. apply Hsc.
  - split; [apply D10|]. intros v H1 H2. rewrite (proj2 D10) by done. by apply M3.
Qed.

Lemma call_strand_spec q t u ep rp s :
  acct W [ep] [] s → qok (ip s) q → ep_reply_obj (th s u) = Some rp → ¬ bindable s rp →
  blocking_ep (ip s) u = None → 2 ≤ trefs (ip s) u →
  returns (call_end t u ep s) (λ '(r, s'), r = Err IRIS_ERR_CLOSED ∧ acct W [] [] s' ∧ qok (ip s') q ∧
    th s' = th s ∧ rps s' = rps s ∧ (∀ v, msg s' v = msg s v) ∧ kshrinks (kc s) (kc s') ∧
    ∀ v, st (ip s') v = state (tasks (task_wakeup u (sch (ip s))) v)).
Proof.
  intros Ha Hq Hrp Hnb Hb Hrf. unfold ep_bind_call_reply, kreply_bind_caller. rewrite Hrp.
  assert (negb (r_staged (rps s rp)) || bool_decide (is_Some (r_caller (rps s rp))) = true) as ->.
  { unfold bindable in Hnb. destruct (r_staged _), (r_caller _); try done. by destruct Hnb. }
  rewrite (bool_decide_false (IRIS_ERR_BUSY = IRIS_OK)) by done. cbn [negb].
  destruct (wake_put W [ep] [] q u s Ha Hq Hb Hrf) as (s1 & -> & A1 & Hq1 & E1). cbn [mbind res_bind].
  apply returns_bind. eapply returns_mono; [apply (rel_acct W HW _ _ _ _ A1)|].
  intros s2 (A2 & K2 & S2). split; [done|]. split; [exact A2|]. rewrite E1 in K2, S2. rewrite K2. split; [by rewrite E1 in Hq1|].
  split; [done|]. split; [done|]. split; [done|]. split; [exact S2|done].
Qed.

(** The first receiver has the message, and is off the queue. *)
Lemma call_rendezvous_spec s q t ep (x : xfer) :
  acct W (xl x ++ [ep]) (xa x) s → qok (ip s) q → ep_state (eps (ip s) ep) = EP_STATE_RECV → running W s t →
  (∀ u, u ∈ q ep → receiver_ok s u) →
  (∀ h, ep_head (eps (ip s) ep) = Some h → ep_reply_obj (th s h) ≠ None) →
  returns (call_rendezvous t ep x s) (λ '(r, s'), acct W [] [] s' ∧
    ∃ u l rp, q ep = u :: l ∧ qok (ip s') (upd_fn q ep l) ∧ ep_reply_obj (th s u) = Some rp ∧
      if decide (bindable s rp) then r = Park ∧ called t u ep rp x s s'
      else r = Err IRIS_ERR_CLOSED ∧ stranded t u rp x s s').
Proof.
  intros Ha Hq Hst [R1 (_ & _ & C3 & _ & C5) [R3 _] R4 _] Hro Hhd. unfold call_rendezvous.
  destruct (ep_dequeue_spec s q ep Hq) as (u & l & s1 & Hql & Hh & -> & Hq1 & (es & nx & bl & E1) & Hu & Hbl); [by rewrite Hst|].
  assert (u ∈ q ep) as Hin by (rewrite Hql; left). destruct (q_refs _ _ Hq _ _ Hin) as [Hrf _].
  assert (u ≠ t) as Hut by (intros ->; by apply (q_out _ _ t ep Hq R1)).
  destruct (Hro u Hin) as [Hu1 Hu2]. specialize (Hhd u Hh). destruct (ep_reply_obj (th s u)) as [rp|] eqn:Hrp; [|done].
  cbn [mbind res_bind]. cbv zeta. set (s2 := put_ready u true _).
  destruct (bulk_to_spec t u s2) as (m & pm & -> & Hpl & Hah & Hac).
  set (s3 := upd_th t (put_call false) (with_phys pm (put_msg u m s2))).
  assert (acct W (xl x ++ [ep]) (xa x) s3) as A3.
  { apply acct_field; [by intros e|]. apply acct_phys, acct_msg. unfold s2. rewrite E1.
    apply (acct_sch W _ _ s); [exact Ha|reflexivity]. }
  assert (qok (ip s3) (upd_fn q ep l)) as Hq3 by (apply (qok_same (ip s1)); [by apply q_same_fields|exact Hq1]).
  assert (msg s2 u = clean_msg (msg s t)) as Hm2 by (unfold s2; rewrite E1; cbn; apply upd_fn_same).
  assert (msg s3 u = m) as Hm3 by (unfold s3; cbn; apply upd_fn_same).
  assert (th s3 u = th s u ∧ kc s3 = kc s ∧ rps s3 = rps s) as (T3 & K3 & P3)
    by (unfold s3, s2; rewrite E1; cbn; by rewrite upd_fn_other).
  apply returns_bind. eapply returns_mono;
    [apply (hand_cap W HW attached_cap [ep] [] u x (λ v k m, st_crights (cap_rights k) (st_cap v m)) s3)|].
  { rewrite app_nil_r. exact A3. } { simpl. lia. } { simpl. lia. }
  { unfold root_ok, cspace_of in *. rewrite T3, K3. exact Hu2. } { intros v k m0. by split_and!. }
  { rewrite Hm3, Hac, Hm2. reflexivity. }
  intros s4 (A4 & Hca & [[T1 [slot T2]] [M1 M2] (I1 & I2 & I3 & I4 & I5 & I6 & I7) Hrp4]).
  assert (qok (ip s4) (upd_fn q ep l)) as Hq4 by (apply (qok_same (ip s3)); [by apply q_same_fields|exact Hq3]).
  assert (th s4 t = put_call false (th s t)) as Tt4 by (rewrite T1 by done; unfold s3, s2; rewrite E1; cbn; by rewrite upd_fn_same).
  assert (blocking_ep (ip s4) t = None) as Hbt by (rewrite I5; unfold s3, s2; cbn; rewrite Hbl by done; exact R1).
  assert (blocking_ep (ip s4) u = None ∧ 2 ≤ trefs (ip s4) u ∧ ep_reply_obj (th s4 u) = Some rp) as (Hbu & Hr4 & Ho4).
  { split; [by rewrite I5|]. split; [rewrite I2; unfold s3, s2; rewrite E1; apply Hrf|by rewrite T2, T3]. }
  assert (bindable s4 rp ↔ bindable s rp) as Hbi by (unfold bindable; by rewrite Hrp4, P3).
  assert (∀ v, st (ip s4) v = st (ip s) v ∧ sctx s4 v = sctx s v) as Hsc.
  { intros v. unfold st, sctx. rewrite I1. unfold s3, s2. rewrite E1. done. }
  assert (same_payload (msg s t) (msg s4 u)) as Hpay.
  { eapply same_payload_trans; [|exact M2]. rewrite Hm3. eapply same_payload_trans; [|exact Hpl]. rewrite Hm2. by split_and!. }
  assert (∀ v, v ≠ u → msg s4 v = msg s v) as Hms.
  { intros v Hv. rewrite M1 by done. unfold s3, s2. rewrite E1. unfold msg. cbn. by rewrite !upd_fn_other. }
  assert (∀ v, v ≠ t → v ≠ u → th s4 v = th s v) as Hth.
  { intros v H1 H2. rewrite T1 by done. unfold s3, s2. rewrite E1. cbn. by rewrite upd_fn_other. }
  assert (∀ s', kshrinks (kc s4) (kc s') → attached_cap (msg s' u) = attached_cap (msg s4 u) → carried_in attached_cap u x s s') as Hcar.
  { intros s' H1 H2. apply (carried_from _ _ _ s s3); [|exact K3|exact T3]. by apply (carried_mono _ _ _ s3 s4). }
  destruct (decide (bindable s rp)) as [Hbd|Hbd].
  - eapply returns_mono; [apply (call_bind_spec (upd_fn q ep l) t u ep rp s4 A4 Hq4 Hut Hu1 R3 Ho4 (proj2 Hbi Hbd));
      [by rewrite Tt4|by rewrite Tt4|exact Hbt|exact Hbu|exact Hr4]|].
    intros [r s'] (-> & A' & Hq' & Hcb). split; [exact A'|]. exists u, l, rp. rewrite decide_True by exact Hbd.
    split; [exact Hql|]. split; [exact Hq'|]. split; [exact Hrp|]. split; [reflexivity|].
    apply (called_from t u ep rp x s s4 s'); [by split_and!|by rewrite T2, T3|by rewrite Hrp4, P3|exact Hsc|exact Hcar|exact Hcb].
  - eapply returns_mono; [apply (call_strand_spec (upd_fn q ep l) t u ep rp s4 A4 Hq4 Ho4 (λ H, Hbd (proj1 Hbi H)) Hbu Hr4)|].
    intros [r s'] (-> & A' & Hq' & D1 & D2 & D3 & D4 & D5). split; [exact A'|]. exists u, l, rp. rewrite decide_False by exact Hbd.
    split; [exact Hql|]. split; [exact Hq'|]. split; [exact Hrp|]. split; [reflexivity|]. split.
    + by rewrite D3.
    + intros v Hv. rewrite D3. by apply Hms.
    + by apply Hcar; [|rewrite D3].
    + by rewrite D2, Hrp4, P3.
    + exists (sch (ip s4)). split; [intros v; apply Hsc|exact D5].
    + rewrite D1. split; [exact Ho4|]. split; [exact Tt4|exact Hth].
Qed.

(** ** The handler *)

(** The capability invoked, what the message carries, and the message staged. *)
Definition call_begun t (arg0 : Z) s ep b (x : xfer) s1 : Prop :=
  found (kc s) KOBJ_ENDPOINT (Some (troot (th s t))) (cspace_of s t) arg0 RIGHT_WRITE ep b ∧
  cap_sound (mdb (kc s)) x ∧ cframe t s s1 ∧ same_payload (sent s t b) (msg s1 t).

Definition call_result t (arg0 : Z) q s (r : sysret) s' : Prop :=
  match r with
  | Err e =>
      (∃ s1, cframe t s s1 ∧ kc_only s1 s' ∧ kshrinks (kc s1) (kc s') ∧ qok (ip s') q) ∨
      e = IRIS_ERR_CLOSED ∧ ∃ ep b x s1 u l rp, call_begun t arg0 s ep b x s1 ∧
        ep_state (eps (ip s) ep) = EP_STATE_RECV ∧ q ep = u :: l ∧ ep_reply_obj (th s u) = Some rp ∧ ¬ bindable s rp ∧
        qok (ip s') (upd_fn q ep l) ∧ stranded t u rp x s1 s'
  | Ok _ => False
  | Park => ∃ ep b x s1, call_begun t arg0 s ep b x s1 ∧
      if decide (ep_state (eps (ip s) ep) = EP_STATE_RECV) then
        ∃ u l rp, q ep = u :: l ∧ qok (ip s') (upd_fn q ep l) ∧ ep_reply_obj (th s u) = Some rp ∧ bindable s rp ∧
          called t u ep rp x s1 s'
      else qok (ip s') (upd_fn q ep (q ep ++ [t])) ∧ send_parked t ep x s1 s' ∧ ep_call_mode (th s' t) = true
  end.

Definition receivers_ok q s : Prop := ∀ e u, u ∈ q e → ep_state (eps (ip s) e) = EP_STATE_RECV → receiver_ok s u.

Lemma cframe_receiver t s s' u : cframe t s s' → u ≠ t → receiver_ok s u → receiver_ok s' u.
Proof.
  intros Hf Hu [H1 H2]. split; [exact H1|by apply (cframe_root t s)].
Qed.

(** Giving up with the locals still held. *)
Lemma call_back_out t q s s1 ep (x : xfer) e :
  acct W (xl x ++ [ep]) (xa x) s1 → cframe t s s1 → qok (ip s) q →
  returns (s ← stage_abort x s1; s ← rel ep s; Ret (Err e, s))
    (λ '(r, s'), acct W [] [] s' ∧ r = Err e ∧ ∃ s1, cframe t s s1 ∧ kc_only s1 s' ∧ kshrinks (kc s1) (kc s') ∧ qok (ip s') q).
Proof.
  intros Ha He Hq. apply returns_bind.
  eapply returns_mono; [apply (stage_abort_acct W HW [ep] [] x s1); destruct x; exact Ha|].
  intros s2 (A2 & K2 & S2). apply returns_bind. eapply returns_mono; [apply (rel_acct W HW _ _ _ _ A2)|].
  intros s3 (A3 & K3 & S3). split; [exact A3|]. split; [reflexivity|]. exists s1. split; [exact He|].
  assert (kc_only s1 s3) as K by (rewrite K3, K2; reflexivity). split; [exact K|]. split; [etransitivity; [exact S2|exact S3]|].
  rewrite K. exact (cframe_q t s s1 q He Hq).
Qed.

Lemma call_locked_spec t arg0 q s s1 ep b (x : xfer) :
  acct W (xl x ++ [ep]) (xa x) s1 → cframe t s s1 → qok (ip s) q → running W s t → receivers_ok q s →
  found (kc s) KOBJ_ENDPOINT (Some (troot (th s t))) (cspace_of s t) arg0 RIGHT_WRITE ep b →
  cap_sound (mdb (kc s)) x → same_payload (sent s t b) (msg s1 t) →
  returns (call_locked t ep x s1) (λ '(r, s'), acct W [] [] s' ∧ call_result t arg0 q s r s').
Proof.
  intros Ha Hf Hq Hrn Hro Hfo Hx Hpl. unfold call_locked. cbv zeta.
  set (s2 := put_closed t false (upd_th t (put_call true) s1)).
  assert (cframe t s s2) as F2.
  { etransitivity; [exact Hf|]. etransitivity; [apply (cframe_field t s1 0 true)|apply cframe_closed]. }
  assert (acct W (xl x ++ [ep]) (xa x) s2) as A2.
  { apply (acct_sch W _ _ (upd_th t (put_call true) s1)); [apply acct_field; [by intros e|exact Ha]|reflexivity]. }
  assert (∀ e, returns (s ← stage_abort x (upd_th t (put_call false) s2); s ← rel ep s; Ret (Err e, s))
    (λ '(r, s'), acct W [] [] s' ∧ call_result t arg0 q s r s')) as Hgive.
  { intros e. eapply returns_mono; [apply (call_back_out t q s (upd_th t (put_call false) s2) ep x e);
      [apply acct_field; [by intros e0|exact A2]|etransitivity; [exact F2|apply (cframe_field t s2 0 false)]|exact Hq]|].
    intros [r s'] (A' & -> & H). split; [exact A'|by left]. }
  assert (eps (ip s2) = eps (ip s)) as He by apply F2. pose proof (cframe_running t s s2 F2 Hrn) as Hrn2.
  pose proof (cframe_q t s s2 q F2 Hq) as Hq2. assert (call_begun t arg0 s ep b x s2) as Hbg by by split_and!.
  destruct (ep_closed (eps (ip s2) ep)) eqn:Hcl; [apply Hgive|]. case_bool_decide as Hst.
  - destruct (ep_head (eps (ip s2) ep)) as [h|] eqn:Hh.
    2: { exfalso. pose proof (q_rep _ _ Hq2 ep) as Hr. rewrite (chain_head _ _ _ (wq_chain _ _ _ _ Hr)) in Hh.
      destruct (q ep) eqn:Hqe; [|done]. apply (q_idle _ _ Hq2) in Hqe. congruence. }
    case_bool_decide as Hn; [apply Hgive|]. eapply returns_mono; [apply (call_rendezvous_spec s2 q t ep x A2 Hq2 Hst Hrn2)|].
    + intros u Hu. apply (cframe_receiver t s); [exact F2| |].
      * intros ->. by apply (q_out _ _ t ep Hq2 (rn_free _ _ _ Hrn2)).
      * rewrite He in Hst. by apply (Hro ep).
    + rewrite Hh. by intros h' [= <-].
    + intros [r s'] (A' & u & l & rp & Hql & Hq' & Hrp & Hcd). split; [exact A'|]. rewrite He in Hst.
      assert (ep_reply_obj (th s u) = Some rp) as Hrp1.
      { rewrite <-(cf_th _ _ _ F2); [exact Hrp|]. intros ->. apply (q_out _ _ t ep Hq2 (rn_free _ _ _ Hrn2)). rewrite Hql. left. }
      assert (bindable s2 rp ↔ bindable s rp) as Hbi by (unfold bindable; by rewrite (cf_rps _ _ _ F2)).
      destruct (decide (bindable s2 rp)) as [Hb|Hb]; destruct Hcd as [-> Hcd].
      * exists ep, b, x, s2. rewrite decide_True by exact Hst. split; [exact Hbg|]. exists u, l, rp. by rewrite <-Hbi.
      * right. split; [done|]. exists ep, b, x, s2, u, l, rp. by rewrite <-Hbi.
  - destruct (send_park_spec W HW s2 q t ep x A2 Hrn2 Hq2 Hcl Hst) as (A4 & Hq4 & Hpk).
    split; [exact A4|]. exists ep, b, x, s2. split; [exact Hbg|]. rewrite He in Hst. rewrite decide_False by exact Hst. split; [exact Hq4|]. split; [exact Hpk|].
    destruct (sp_call _ _ _ _ _ Hpk) as [-> _]. cbn. by rewrite upd_fn_same.
Qed.

Lemma stage_out_ok s t e s' : ipc_buffer (th s t) ≠ None → stage_out t s = (e, s') → e = IRIS_OK.
Proof.
  intros Hb. unfold stage_out, ipc_stage_out. destruct (_ =? 0); [by intros [= <- _]|].
  destruct (ipc_buffer (th s t)); [by intros [= <- _]|done].
Qed.

Lemma peek_call_spec ll la s t :
  acct W ll la s → (length ll ≤ 6)%nat → (length la ≤ 6)%nat → root_ok W s t →
  returns (peek_call t s) (λ '(r, s'), entered t s s' ∧ same_payload (msg s t) (msg s' t) ∧
    match r with
    | inl _ => acct W ll la s'
    | inr x => acct W (xl x ++ ll) (xa x ++ la) s' ∧ cap_sound (mdb (kc s)) x
    end).
Proof.
  intros Ha H1 H2 Hr. unfold peek_call. apply returns_bind.
  eapply returns_mono; [apply (stage_peek_acct W HW ll la t _ _ s Ha H1 H2 Hr)|].
  intros [r s1] (K & Hm & Hp). pose proof (entered_kc t _ _ K Hm) as He.
  assert (msg s1 t = msg s t) as Hms by (by rewrite K).
  destruct r as [e|x]; [split; [exact He|]; split; [by rewrite Hms|exact Hp]|].
  destruct Hp as [Hp Hv]. split; [etransitivity; [exact He|apply entered_msg]|].
  split; [rewrite msg_put, Hms; by split_and!|]. split; [by apply acct_msg|].
  destruct x as [c|]; [by eapply verdict_sound|exact I].
Qed.

Lemma call_spec q s t arg0 :
  at_entry W q s t → receivers_ok q s → ipc_buffer (th s t) ≠ None →
  returns (sys_ep_call t arg0 s) (λ '(r, s'), acct W [] [] s' ∧ call_result t arg0 q s r s').
Proof.
  intros [Ha Hq Hrn Hre Hcs _] Hro Hbuf. unfold sys_ep_call. rewrite bool_decide_false, Hre by exact Hcs.
  apply returns_bind. eapply returns_mono; [apply (send_enter_spec W HW s t arg0 Ha Hrn)|].
  intros [[e|ep] s1] [He Hp].
  { split; [exact Hp|]. left. exists s1. split; [by apply cframe_entered|]. split; [by destruct s1|]. split; [reflexivity|].
    exact (entered_q t s s1 q He Hq). }
  destruct Hp as (b & A1 & Hm & Hf). pose proof (cframe_entered t s s1 He) as F1. cbv zeta.
  assert (∀ s2 e, acct W [ep] [] s2 → cframe t s s2 → returns (s ← rel ep s2; Ret (Err e, s))
    (λ '(r, s'), acct W [] [] s' ∧ call_result t arg0 q s r s')) as Hgive.
  { intros s2 e A2 F2. eapply returns_mono; [apply (call_back_out t q s s2 ep None e A2 F2 Hq)|].
    intros [r s'] (A' & -> & H). split; [exact A'|by left]. }
  destruct (_ && _); [by apply Hgive|]. apply returns_bind.
  eapply returns_mono; [apply (declare_acct W HW [ep] [] t _ s1 A1); [simpl; lia|simpl; lia|apply (cframe_root t s s1 t F1), Hrn]|].
  intros [[e slot] κ] (A2 & Hm2 & _). cbv zeta. set (s2 := upd_th t (put_slot slot) (with_kc κ s1)).
  assert (cframe t s s2) as F2.
  { etransitivity; [exact F1|]. etransitivity; [apply cframe_entered, (entered_kc t s1 (with_kc κ s1)); [reflexivity|exact Hm2]|].
    apply (cframe_field t (with_kc κ s1) slot true). }
  assert (acct W [ep] [] s2) as A2' by (apply acct_slot; exact A2).
  destruct (bool_decide (e = IRIS_OK)); cbn [negb]; [|by apply Hgive].
  set (s3 := put_msg t (st_handle IRIS_MSG_NO_CAP (msg s2 t)) s2).
  assert (cframe t s s3) as F3 by (etransitivity; [exact F2|apply cframe_entered, entered_msg]).
  assert (msg s3 t = st_handle IRIS_MSG_NO_CAP (sent s t b)) as Hm3 by (unfold s3; rewrite msg_put; unfold s2; cbn; by rewrite <-Hm).
  apply returns_bind. eapply returns_mono; [apply (peek_call_spec [ep] [] s3 t);
    [by apply acct_msg|simpl; lia|simpl; lia|apply (cframe_root t s s3 t F3), Hrn]|].
  intros [p s4] (E4 & P4 & Hp). assert (cframe t s s4) as F4 by (etransitivity; [exact F3|by apply cframe_entered]).
  destruct p as [e4|x]; [by apply Hgive|]. destruct Hp as [A4 Hx]. rewrite app_nil_r in A4.
  destruct (stage_out t s4) as [e5 s5] eqn:Hso. destruct (stage_out_spec W _ _ _ _ _ _ Hso A4) as (A5 & E5 & P5).
  assert (ipc_buffer (th s4 t) ≠ None) as Hb4 by (destruct (cf_t _ _ _ F4) as (a & c & ->); exact Hbuf).
  pose proof (stage_out_ok s4 t e5 s5 Hb4 Hso) as ->. rewrite bool_decide_true by done. cbn [negb].
  apply (call_locked_spec t arg0 q s s5 ep b x A5); [|exact Hq|exact Hrn|exact Hro|exact Hf| |].
  - etransitivity; [exact F4|by apply cframe_entered].
  - rewrite <-(cf_mdb _ _ _ F3). exact Hx.
  - eapply same_payload_trans; [|exact P5]. eapply same_payload_trans; [|exact P4]. rewrite Hm3. by split_and!.
Qed.
End call.
