(* ===== verification/EndpointClose.v ===== *)
(** * Leaving a queue early

    A wait ends without a rendezvous when the thread is cancelled, when the
    endpoint is closed and when a badge is revoked.  Each of these takes threads
    out of a queue, drops the capabilities their messages carried and wakes them
    with an error; the references stay exact. *)

From Stdlib Require Import ZArith Lia.
From stdpp Require Import base numbers gmap list.
From S2P Require Import Prelude Rights Forest Mdb Cdt Kobject Kcnode KcnodeInv KcnodeInstall Cspace IpcCap.
From S2P Require Import Kschedctx Runq RunqInv RunqSpec SchedSpec Wq Ipc Knotification KnotifSpec KnotifWake IrqDelivery IpcMsg.
From S2P Require Import Endpoint EndpointInv EndpointQueue EndpointSend EndpointRecv EndpointReply.
Local Open Scope Z_scope.
Implicit Types (s : ek) (t u c o ep rp w x : N) (κ : kstate) (q : N → list N).

(** Waking a live thread makes it ready. *)
Lemma wake_ready w (σ : sched) :
  state (tasks σ w) ≠ TASK_DEAD → terminal (tasks σ w) = false → state (tasks (task_wakeup w σ) w) = TASK_READY.
Proof.
  intros Hs Ht. unfold task_wakeup. rewrite decide_False, Ht by done. cbv zeta.
  assert (state (tasks (upd_task w (set_state TASK_READY) σ) w) = TASK_READY) as Hr by (by rewrite tasks_upd, decide_True).
  destruct (decide (idle_thread _ = Some w)); [exact Hr|]. cbn [with_ipi tasks].
  destruct (enqueue_frame w (upd_task w (set_state TASK_READY) σ)) as [H _]. specialize (H w).
  apply sans_links_key in H as (_ & _ & _ & _ & ->). exact Hr.
Qed.

(** The link of a thread that is in no queue. *)
Lemma qok_link i q w (v : option N) :
  qok i q → blocking_ep i w = None → qok (with_epq (upd_fn (ep_next i) w v) (blocking_ep i) i) q.
Proof.
  intros [Q1 Q2 Q3 Q4 Q5 Q6] Hb. split; cbn; try done. intros e. eapply wq_frame; [|apply Q1].
  intros x Hx. apply upd_fn_other. intros ->. apply Q4 in Hx. congruence.
Qed.

Section leave.
Context (W : world) (HW : world_ok W).

(** ** Cancelling one thread *)

Record cancelled t s s' : Prop := Cancelled {
  ca_free : blocking_ep (ip s') t = None;
  ca_th   : ep_cap_obj (th s' t) = None ∧ ep_cap_src_cn (th s' t) = None ∧ ep_fault_call (th s' t) = false ∧
            sc_held (th s' t) = sc_held (th s t);
  ca_refs : trefs (ip s') = upd_fn (trefs (ip s)) t (trefs (ip s) t - 1);
  ca_rest : (∀ v, v ≠ t → th s' v = th s v) ∧ sch (ip s') = sch (ip s) ∧ msg s' = msg s ∧ rps s' = rps s;
  ca_kc   : kshrinks (kc s) (kc s');
}.

Lemma cancel_waiter_spec ll la q e t s :
  acct W ll la s → qok (ip s) q → t ∈ L W → blocking_ep (ip s) t = Some e →
  returns (kendpoint_cancel_waiter t s) (λ s', acct W ll la s' ∧
    qok (ip s') (upd_fn q e (without t (q e))) ∧ cancelled t s s').
Proof.
  intros Ha Hq Ht Hb. unfold kendpoint_cancel_waiter. rewrite Hb.
  destruct (unqueue_qok s q e t Hq Hb) as (i & -> & Hq1 & (es & nx & bl & Hs1) & Hb1). cbn [mbind res_bind].
  rewrite bool_decide_true by done. cbv zeta. set (s1 := with_ip _ s) in *. clearbody s1.
  set (f := λ e, put_fault false (put_src None 0%N (put_cap None 0 0 e))). set (k := th s1 t).
  assert (t ∈ q e) as Hin by (by apply (q_on _ _ Hq)). destruct (q_refs _ _ Hq _ _ Hin) as [Hrf _].
  assert (acct W (olist (ep_cap_obj k) ++ olist (ep_cap_src_cn k) ++ ll) (olist (ep_cap_src_cn k) ++ la) (upd_th t f s1)) as A2.
  { assert (acct W ll la s1) as A1 by (rewrite Hs1; apply acct_sch; [exact Ha|reflexivity]).
    eapply (acct_upd W HW _ _ _ _ s1 _ t A1 Ht); [reflexivity|..].
    - intros v Hv. unfold held, helda, upd_th, sctx. cbn [th ip with_th]. by rewrite upd_fn_other.
    - intros o. unfold held, upd_th, sctx. cbn [th ip with_th]. rewrite upd_fn_same. fold k.
      unfold f. cbn [put_fault put_src put_cap ep_cap_obj ep_cap_src_cn sc_held ep_reply_obj pending_kreply]. cnt_lia.
    - intros o. unfold helda, upd_th. cbn [th with_th]. rewrite upd_fn_same. fold k. unfold f. cbn [put_fault put_src ep_cap_src_cn]. cnt_lia. }
  apply returns_bind. eapply returns_mono; [apply (rel_opt_acct W HW _ _ _ _ A2)|]. intros s3 (A3 & K3 & S3).
  apply returns_bind. eapply returns_mono; [apply (drop_src_acct W HW _ _ _ _ A3)|]. intros s4 (A4 & K4 & S4).
  assert (kc_only (upd_th t f s1) s4) as K by (rewrite K4, K3; reflexivity).
  assert (ip s4 = ip s1) as Hi4 by (by rewrite K). assert (trefs (ip s1) = trefs (ip s)) as Hr1 by (by rewrite Hs1).
  rewrite tput_spec by (rewrite Hi4, Hr1; apply Hrf). split; [apply acct_sch; [exact A4|reflexivity]|].
  split; [apply (qok_same (with_trefs (upd_fn (trefs (ip s4)) t (trefs (ip s4) t - 1)) (ip s1)))|].
  - by rewrite Hi4; apply q_same_fields.
  - apply (qok_same (ip s1)); [|exact Hq1]. split; [done|]. split; [done|]. split; [done|]. split; [|done].
    intros v [d Hv]. split; [done|]. cbn. rewrite Hi4. apply upd_fn_other. congruence.
  - split; cbn.
    + by rewrite Hi4.
    + rewrite K. cbn. rewrite upd_fn_same. rewrite Hs1. by split_and!.
    + by rewrite Hi4, Hr1.
    + rewrite K. cbn. rewrite Hs1. split; [intros v Hv; by rewrite upd_fn_other|]. by split_and!.
    + etransitivity; [|exact S4]. change (kc s) with (kc (with_ip (with_epq nx bl (with_eps es (ip s))) s)).
      rewrite <-Hs1. exact S3.
Qed.
End leave.

(** ** Closing an endpoint *)

(** The walk: every thread of [l] leaves the queue and learns that the endpoint
    closed; [F] tells which of them are faulting threads. *)
Definition unfault (e : ep_task) : ep_task := put_call false (put_fault false e).

Record walked (F : N → bool) (l : list N) s s' : Prop := Walked {
  wk_ip : eps (ip s') = eps (ip s) ∧ sch (ip s') = sch (ip s) ∧ trefs (ip s') = trefs (ip s) ∧ msg s' = msg s;
  wk_bl : ∀ x, blocking_ep (ip s') x = if decide (x ∈ l) then None else blocking_ep (ip s) x;
  wk_cl : ∀ x, ipc_ep_closed (ip s') x = if decide (x ∈ l) then true else ipc_ep_closed (ip s) x;
  wk_th : ∀ x, th s' x = if decide (x ∈ l ∧ F x = true) then unfault (th s x) else th s x;
  wk_nx : ∀ x, x ∉ l → ep_next (ip s') x = ep_next (ip s) x;
  wk_kc : kc s' = kc s ∧ rps s' = rps s ∧ kills s' = kills s ∧ faults s' = faults s;
}.

Lemma walked_nil F s : walked F [] s s.
Proof.
  assert (∀ x : N, x ∉ []) as Hn by (intros x; apply not_elem_of_nil).
  split; [done|..|done|done]; intros x; rewrite decide_False; try done; [apply Hn..|]. intros [H _]. by apply Hn in H.
Qed.

Lemma walked_cons F t l s s1 s2 : t ∉ l → walked F [t] s s1 → walked F l s1 s2 → walked F (t :: l) s s2.
Proof.
  intros Ht [(A1 & A2 & A3 & A4) A5 A6 A7 A8 (A9 & A10 & A11 & A12)] [(B1 & B2 & B3 & B4) B5 B6 B7 B8 (B9 & B10 & B11 & B12)].
  assert (∀ x, x ∈ [t] ↔ x = t) as Hs by (intros x; apply list_elem_of_singleton).
  split.
  - split_and!; congruence.
  - intros x. rewrite B5, A5. destruct (decide (x ∈ l)); [by rewrite decide_True by (by right)|].
    destruct (decide (x ∈ [t])) as [H|H]; rewrite Hs in H; [rewrite decide_True by (subst; left)|rewrite decide_False by (rewrite elem_of_cons; tauto)]; done.
  - intros x. rewrite B6, A6. destruct (decide (x ∈ l)); [by rewrite decide_True by (by right)|].
    destruct (decide (x ∈ [t])) as [H|H]; rewrite Hs in H; [rewrite decide_True by (subst; left)|rewrite decide_False by (rewrite elem_of_cons; tauto)]; done.
  - intros x. rewrite B7, A7. destruct (decide (x = t)) as [->|Hx].
    + rewrite decide_False by tauto. destruct (F t) eqn:E.
      * by rewrite !decide_True by (split; [left|done]).
      * by rewrite !decide_False by (by intros [_ ?]).
    + rewrite (decide_False (P := x ∈ [t] ∧ _)) by (rewrite Hs; tauto).
      destruct (decide (x ∈ l ∧ F x = true)) as [[H1 H2]|H]; [rewrite decide_True by (split; [by right|done]); done|].
      rewrite decide_False; [done|]. rewrite elem_of_cons. tauto.
  - intros x [H1 H2]%not_elem_of_cons. rewrite B8, A8; [done|by rewrite Hs|done].
  - split_and!; congruence.
Qed.

Definition calm (F : N → bool) (l : list N) : list N := filter (λ x, F x = false) l.
Definition faulty (F : N → bool) (l : list N) : list N := filter (λ x, F x = true) l.

(** One waiter leaves the queue and goes to the head [h] of a list. *)
Lemma close_walk_one (F : N → bool) t h s s1 s2 :
  s1 = (let s := put_closed t true (on_ip (λ i, with_epq (upd_fn (ep_next i) t None) (upd_fn (blocking_ep i) t None) i) s) in
        if F t then upd_th t unfault s else s) →
  s2 = on_ip (λ i, with_epq (upd_fn (ep_next i) t h) (blocking_ep i) i) s1 →
  walked F [t] s s2 ∧ (∀ v, v ≠ t → ep_next (ip s2) v = ep_next (ip s) v) ∧ ep_next (ip s2) t = h.
Proof.
  intros Hs1 ->. split; [|destruct (F t); subst s1; (split; [intros v Hv; cbn; by rewrite !upd_fn_other|cbn; apply upd_fn_same])].
  assert (∀ x, x ∈ [t] ↔ x = t) as Hs by (intros x; apply list_elem_of_singleton).
  split; try (destruct (F t); subst s1; cbn; by split_and!); intros x.
  1,2: destruct (decide (x = t)) as [->|Hx]; [rewrite decide_True by left|rewrite decide_False by (by rewrite Hs)];
      destruct (F t); subst s1; cbn; rewrite ?upd_fn_same, ?upd_fn_other by done; done.
  - destruct (decide (x = t)) as [->|Hx]; [|rewrite decide_False by (rewrite Hs; tauto)].
    + destruct (F t) eqn:E; subst s1; cbn; [rewrite decide_True by (split; [left|done]); by rewrite upd_fn_same|].
      by rewrite decide_False by (by intros [_ ?]).
    + destruct (F t); subst s1; cbn; rewrite ?upd_fn_other by done; done.
  - rewrite Hs. intros Hx. destruct (F t); subst s1; cbn; rewrite !upd_fn_other by done; done.
Qed.

Lemma close_walk_spec (F : N → bool) l : ∀ fuel (o wl kl : option N) lw lk s,
  chain (ep_next (ip s)) o l → chain (ep_next (ip s)) wl lw → chain (ep_next (ip s)) kl lk →
  NoDup (l ++ lw ++ lk) → (length l < fuel)%nat → (∀ x, x ∈ l → ep_fault_call (th s x) = F x) →
  ∃ wl' kl' s', close_walk fuel o wl kl s = Ret (wl', kl', s') ∧
    chain (ep_next (ip s')) wl' (reverse (calm F l) ++ lw) ∧ chain (ep_next (ip s')) kl' (reverse (faulty F l) ++ lk) ∧
    walked F l s s'.
Proof.
  induction l as [|t l IH]; intros fuel o wl kl lw lk s Hc Hw Hk Hnd Hl HF; inversion Hc; subst;
    (destruct fuel as [|fuel]; [simpl in Hl; lia|]); cbn [close_walk].
  { exists wl, kl, s. split; [done|]. split; [exact Hw|]. split; [exact Hk|apply walked_nil]. }
  cbn [app] in Hnd. apply NoDup_cons in Hnd as [Htn Hnd]. cbv zeta.
  set (s1 := put_closed t true _). change (ep_fault_call (th s1 t)) with (ep_fault_call (th s t)). rewrite (HF t) by left.
  assert (∀ s2 wl1 kl1 lw1 lk1, walked F [t] s s2 → chain (ep_next (ip s2)) (ep_next (ip s) t) l →
    chain (ep_next (ip s2)) wl1 lw1 → chain (ep_next (ip s2)) kl1 lk1 → NoDup (l ++ lw1 ++ lk1) →
    ∃ wl' kl' s', close_walk fuel (ep_next (ip s) t) wl1 kl1 s2 = Ret (wl', kl', s') ∧
      chain (ep_next (ip s')) wl' (reverse (calm F l) ++ lw1) ∧ chain (ep_next (ip s')) kl' (reverse (faulty F l) ++ lk1) ∧
      walked F (t :: l) s s') as Hgo.
  { intros s2 wl1 kl1 lw1 lk1 W1 C1 C2 C3 N1.
    destruct (IH fuel _ wl1 kl1 lw1 lk1 s2 C1 C2 C3 N1) as (wl' & kl' & s' & -> & D1 & D2 & D3); [simpl in Hl; lia| |].
    - intros x Hx. rewrite (wk_th _ _ _ _ W1), decide_False; [apply HF; by right|].
      intros [->%list_elem_of_singleton _]. apply Htn, elem_of_app. by left.
    - exists wl', kl', s'. split; [done|]. split; [exact D1|]. split; [exact D2|]. apply (walked_cons F t l s s2); [|exact W1|exact D3].
      intros Hx. apply Htn, elem_of_app. by left. }
  assert (∀ (h : option N) l0 s2, t ∉ l0 → (∀ v, v ≠ t → ep_next (ip s2) v = ep_next (ip s) v) →
    chain (ep_next (ip s)) h l0 → chain (ep_next (ip s2)) h l0) as Hce.
  { intros h l0 s2 Ht0 Hx Hch. eapply chain_ext; [|exact Hch]. intros v Hv. symmetry. apply Hx. congruence. }
  rewrite !elem_of_app in Htn. unfold calm, faulty in *.
  destruct (F t) eqn:HFt.
  - match goal with |- context [close_walk fuel _ wl (Some t) ?z] => set (s2 := z) end.
    destruct (close_walk_one F t kl s _ s2 eq_refl ltac:(cbv zeta; rewrite HFt; reflexivity)) as (W1 & X1 & X2).
    destruct (Hgo s2 wl (Some t) lw (t :: lk) W1) as (wl' & kl' & s' & Hr & D1 & D2 & D3).
    + apply Hce; [tauto|exact X1|done].
    + apply Hce; [tauto|exact X1|done].
    + constructor. rewrite X2. apply Hce; [tauto|exact X1|done].
    + rewrite app_assoc, <-Permutation_middle, <-app_assoc. apply NoDup_cons. split; [rewrite !elem_of_app; tauto|done].
    + exists wl', kl', s'. split; [exact Hr|]. rewrite filter_cons_False by congruence. split; [exact D1|].
      rewrite filter_cons_True, reverse_cons, <-app_assoc by done. split; [exact D2|exact D3].
  - match goal with |- context [close_walk fuel _ (Some t) kl ?z] => set (s2 := z) end.
    destruct (close_walk_one F t wl s _ s2 eq_refl ltac:(cbv zeta; rewrite HFt; reflexivity)) as (W1 & X1 & X2).
    destruct (Hgo s2 (Some t) kl (t :: lw) lk W1) as (wl' & kl' & s' & Hr & D1 & D2 & D3).
    + apply Hce; [tauto|exact X1|done].
    + constructor. rewrite X2. apply Hce; [tauto|exact X1|done].
    + apply Hce; [tauto|exact X1|done].
    + cbn [app]. rewrite <-Permutation_middle. apply NoDup_cons. split; [rewrite !elem_of_app; tauto|done].
    + exists wl', kl', s'. split; [exact Hr|]. rewrite filter_cons_True, reverse_cons, <-app_assoc by done. split; [exact D1|].
      rewrite filter_cons_False by congruence. split; [exact D2|exact D3].
Qed.

(** Both lists of [kendpoint_obj_close] are run down the same way. *)
Definition let_go (kill : bool) w s : ek :=
  if kill then task_kill_external w (kfault_resolve w true s) else wake w s.

Fixpoint drain (kill : bool) (fuel : nat) (o : option N) s : res ek :=
  match fuel with
  | O => NoFuel
  | S fuel =>
    match o with
    | None => Ret s
    | Some w =>
        let nxt := ep_next (ip s) w in
        let s := on_ip (λ i, with_epq (upd_fn (ep_next i) w None) (blocking_ep i) i) s in
        s ← ep_drop_staged_cap w s;
        s ← tput w (let_go kill w s);
        drain kill fuel nxt s
    end
  end.

Lemma close_drain fuel : ∀ (o : option N) s, close_wake fuel o s = drain false fuel o s ∧ close_kill fuel o s = drain true fuel o s.
Proof.
  induction fuel as [|fuel IH]; intros o s; [done|]. cbn [close_wake close_kill drain]. destruct o as [w|]; [|done]. cbv zeta.
  destruct (ep_drop_staged_cap w _) as [s1| |]; [|done..]. cbn [mbind res_bind let_go]. split.
  - destruct (tput w _) as [s2| |]; [|done..]. apply (IH (ep_next (ip s) w) s2).
  - destruct (tput w _) as [s2| |]; [|done..]. apply (IH (ep_next (ip s) w) s2).
Qed.

Definition uncap (e : ep_task) : ep_task := match ep_cap_obj e with None => e | Some _ => put_cap None 0 0 e end.

Lemma uncap_none e : ep_cap_obj (uncap e) = None.
Proof. unfold uncap. by destruct (ep_cap_obj e) eqn:E. Qed.

Record drained (kill : bool) (l : list N) s s' : Prop := Drained {
  dr_th   : ∀ x, th s' x = if decide (x ∈ l) then uncap (th s x) else th s x;
  dr_refs : ∀ x, trefs (ip s') x = trefs (ip s) x - (if decide (x ∈ l) then 1 else 0);
  dr_ip   : eps (ip s') = eps (ip s) ∧ blocking_ep (ip s') = blocking_ep (ip s) ∧ msg s' = msg s ∧
            ipc_ep_closed (ip s') = ipc_ep_closed (ip s);
  dr_nx   : ∀ x, x ∉ l → ep_next (ip s') x = ep_next (ip s) x;
  dr_sch  : sch (ip s') = if kill then sch (ip s) else foldl (λ σ w, task_wakeup w σ) (sch (ip s)) l;
  dr_fk   : kills s' = kills s ++ (if kill then l else []) ∧ faults s' = faults s ++ (if kill then (λ w, (w, true)) <$> l else []);
  dr_rps  : rps s' = rps s;
  dr_kc   : kshrinks (kc s) (kc s');
}.

Section drain.
Context (W : world) (HW : world_ok W).

Lemma drop_staged_spec ll la w s :
  acct W ll la s → w ∈ L W →
  returns (ep_drop_staged_cap w s) (λ s', acct W ll la s' ∧ (∀ x, th s' x = if decide (x = w) then uncap (th s x) else th s x) ∧
    kshrinks (kc s) (kc s') ∧ s' = Ek (kc s') (ip s) (th s') (rps s) (phys s) (faults s) (kills s)).
Proof.
  intros Ha Hw. unfold ep_drop_staged_cap, uncap. destruct (ep_cap_obj (th s w)) as [o|] eqn:Ho.
  - assert (acct W (o :: ll) la (upd_th w (put_cap None 0 0) s)) as A1.
    { eapply (acct_upd W HW _ _ _ _ s _ w Ha Hw); [reflexivity|..].
      - intros v Hv. unfold held, helda, upd_th, sctx. cbn [th ip with_th]. by rewrite upd_fn_other.
      - intros x. unfold held, upd_th, sctx. cbn [th ip with_th]. rewrite upd_fn_same, Ho.
        cbn [put_cap ep_cap_obj ep_cap_src_cn sc_held ep_reply_obj pending_kreply]. cnt_lia.
      - intros x. unfold helda, upd_th. cbn [th with_th]. by rewrite upd_fn_same. }
    eapply returns_mono; [apply (rel_acct W HW _ _ _ _ A1)|]. intros s' (A' & K & S). split; [exact A'|].
    split; [|split; [exact S|by rewrite K]]. rewrite K. cbn. intros x. unfold upd_fn.
    destruct (decide (x = w)) as [->|]; [by rewrite Ho|done].
  - split; [exact Ha|]. split; [|split; [reflexivity|by destruct s]]. intros x. destruct (decide (x = w)) as [->|]; [by rewrite Ho|done].
Qed.

Lemma drain_spec (kill : bool) ll la q l : ∀ fuel (o : option N) s,
  chain (ep_next (ip s)) o l → NoDup l → (length l < fuel)%nat → acct W ll la s → qok (ip s) q →
  (∀ w, w ∈ l → w ∈ L W ∧ blocking_ep (ip s) w = None ∧ 2 ≤ trefs (ip s) w) →
  returns (drain kill fuel o s) (λ s', acct W ll la s' ∧ qok (ip s') q ∧ drained kill l s s').
Proof.
  induction l as [|w l IH]; intros fuel o s Hc Hnd Hl Ha Hq Hw; inversion Hc; subst;
    (destruct fuel as [|fuel]; [simpl in Hl; lia|]); cbn [drain].
  { split; [exact Ha|]. split; [exact Hq|]. split; try done; try (intros x; rewrite decide_False by (apply not_elem_of_nil); lia || done).
    - by destruct kill.
    - destruct kill; by rewrite !app_nil_r. }
  apply NoDup_cons in Hnd as [Hwl Hnd]. destruct (Hw w ltac:(left)) as (W1 & W2 & W3). cbv zeta.
  set (s1 := on_ip _ s). assert (acct W ll la s1) as A1 by (apply acct_sch; [exact Ha|reflexivity]).
  pose proof (qok_link (ip s) q w None Hq W2) as Hq1. fold (ip s1) in Hq1.
  apply returns_bind. eapply returns_mono; [apply (drop_staged_spec ll la w s1 A1 W1)|].
  intros s2 (A2 & T2 & S2 & E2). set (s3 := let_go kill w s2).
  assert (acct W ll la s3 ∧ th s3 = th s2 ∧ kc s3 = kc s2 ∧ rps s3 = rps s2 ∧
    ip s3 = with_sch (if kill then sch (ip s1) else task_wakeup w (sch (ip s1))) (ip s1) ∧
    kills s3 = kills s ++ (if kill then [w] else []) ∧ faults s3 = faults s ++ (if kill then [(w, true)] else [])) as (A3 & T3 & K3 & P3 & I3 & L3 & F3).
  { unfold s3, let_go. destruct kill.
    - split; [eapply acct_same; [exact A2|reflexivity|by intros x]|]. rewrite E2. cbn. by split_and!.
    - split; [by apply acct_wake|]. rewrite E2. cbn. rewrite !app_nil_r. by split_and!. }
  assert (trefs (ip s3) = trefs (ip s)) as Hr3 by (by rewrite I3).
  rewrite tput_spec by (rewrite Hr3; exact W3). cbn [mbind res_bind]. set (s4 := with_ip _ s3).
  assert (blocking_ep (ip s4) = blocking_ep (ip s) ∧ eps (ip s4) = eps (ip s) ∧ ep_next (ip s4) = upd_fn (ep_next (ip s)) w None ∧
    msg s4 = msg s ∧ ipc_ep_closed (ip s4) = ipc_ep_closed (ip s)) as (B4 & E4 & N4 & M4 & C4) by (unfold msg; cbn; rewrite I3; done).
  assert (∀ x, x ∈ l → x ≠ w) as Hxw by (intros x Hx ->; done).
  eapply returns_mono; [apply (IH fuel (ep_next (ip s) w) s4)|].
  - rewrite N4. eapply chain_ext; [|done]. intros x Hx. symmetry. apply upd_fn_other. by apply Hxw.
  - exact Hnd.
  - simpl in Hl. lia.
  - apply acct_sch; [exact A3|reflexivity].
  - apply (qok_same (ip s1)); [|exact Hq1]. split; [by cbn; rewrite I3|]. split; [by cbn; rewrite I3|]. split; [by cbn; rewrite I3|].
    split; [|cbn; rewrite I3; destruct kill; [done|apply wakeup_bound]]. intros x [d Hx].
    assert (x ≠ w) as Hne by (intros ->; cbn in Hx; congruence). split; [|cbn; rewrite I3; by apply upd_fn_other].
    unfold st. cbn. rewrite I3. destruct kill; [done|]. by apply wakeup_sched.
  - intros x Hx. destruct (Hw x ltac:(by right)) as (X1 & X2 & X3). split; [exact X1|]. split; [by rewrite B4|].
    cbn. rewrite Hr3, upd_fn_other by (by apply Hxw). exact X3.
  - intros s' (A' & Hq' & [D1 D2 (D3 & D4 & D5 & D6) D7 D8 D9 D10 D11]). split; [exact A'|]. split; [exact Hq'|].
    assert (∀ x, th s4 x = if decide (x = w) then uncap (th s x) else th s x) as T4 by (intros x; cbn; rewrite T3; apply T2).
    split.
    + intros x. rewrite D1, T4. destruct (decide (x = w)) as [->|Hx].
      * rewrite decide_False by done. by rewrite decide_True by left.
      * destruct (decide (x ∈ l)); [by rewrite decide_True by (by right)|]. rewrite decide_False; [done|]. rewrite elem_of_cons. tauto.
    + intros x. rewrite D2. cbn. rewrite Hr3. destruct (decide (x = w)) as [->|Hx].
      * rewrite upd_fn_same, decide_False by done. rewrite decide_True by left. lia.
      * rewrite upd_fn_other by done. destruct (decide (x ∈ l)); [by rewrite decide_True by (by right)|].
        rewrite decide_False; [done|]. rewrite elem_of_cons. tauto.
    + rewrite D3, D4, D5, D6. by split_and!.
    + intros x [X1 X2]%not_elem_of_cons. rewrite D7, N4 by done. by apply upd_fn_other.
    + rewrite D8. cbn. rewrite I3. by destruct kill.
    + destruct D9 as [-> ->]. cbn. rewrite L3, F3. destruct kill; [|by rewrite !app_nil_r]. by rewrite <-!app_assoc.
    + rewrite D10. cbn. rewrite P3, E2. done.
    + etransitivity; [|exact D11]. cbn. rewrite K3. exact S2.
Qed.

Lemma wake_all_state l : ∀ (σ : sched) x,
  NoDup l → (∀ w, w ∈ l → state (tasks σ w) ≠ TASK_DEAD ∧ terminal (tasks σ w) = false) →
  state (tasks (foldl (λ σ w, task_wakeup w σ) σ l) x) = if decide (x ∈ l) then TASK_READY else state (tasks σ x).
Proof.
  induction l as [|w l IH]; intros σ x Hnd Hw; cbn [foldl]; [by rewrite decide_False by apply not_elem_of_nil|].
  apply NoDup_cons in Hnd as [Hwl Hnd]. rewrite IH; [|exact Hnd|].
  - destruct (decide (x ∈ l)) as [Hx|Hx]; [by rewrite decide_True by (by right)|]. destruct (decide (x = w)) as [->|Hne].
    + rewrite decide_True by left. destruct (Hw w ltac:(left)). by apply wake_ready.
    + rewrite decide_False by (rewrite elem_of_cons; tauto). by apply wakeup_sched.
  - intros v Hv. destruct (Hw v ltac:(by right)) as [H1 H2]. rewrite wakeup_sched by (intros ->; done). split; [exact H1|].
    destruct (others_self _ _ _ _ v (others_wakeup w None σ)) as (_ & _ & ->). exact H2.
Qed.

Lemma wake_all_bound l : ∀ σ : sched, task_bound (foldl (λ σ w, task_wakeup w σ) σ l) = task_bound σ.
Proof. induction l as [|w l IH]; intros σ; [done|]. cbn [foldl]. by rewrite IH, wakeup_bound. Qed.

(** The queue is gone and every thread of it knows. *)
Record torn_down q e s s' : Prop := TornDown {
  td_q     : qok (ip s') (upd_fn q e []);
  td_shut  : ep_closed (eps (ip s') e) = true;
  td_waits : ∀ w, w ∈ q e → blocking_ep (ip s') w = None ∧ ipc_ep_closed (ip s') w = true ∧ ep_cap_obj (th s' w) = None ∧
               if ep_fault_call (th s w) then w ∈ kills s' ∧ ep_fault_call (th s' w) = false
               else st (ip s') w = TASK_READY;
  td_other : ∀ x, x ∉ q e → th s' x = th s x ∧ st (ip s') x = st (ip s) x;
  td_refs  : ∀ x, trefs (ip s') x = trefs (ip s) x - (if decide (x ∈ q e) then 1 else 0);
  td_kills : ∀ x, x ∈ kills s' → x ∈ kills s ∨ x ∈ q e ∧ ep_fault_call (th s x) = true;
  td_rest  : msg s' = msg s ∧ rps s' = rps s;
  td_kc    : kshrinks (kc s) (kc s');
}.

(** The state between the walk and the lists: the endpoint is idle and closed. *)
Lemma walked_qok F q e s s1 s2 :
  qok (ip s) q → walked F (q e) s1 s2 → ip s1 = with_eps (eps (ip s1)) (ip s) → (∀ d, d ≠ e → eps (ip s1) d = eps (ip s) d) →
  qok (with_eps (upd_fn (eps (ip s2)) e (Ep EP_STATE_IDLE true None None)) (ip s2)) (upd_fn q e []).
Proof.
  intros Hq [(A1 & A2 & A3 & _) A4 _ _ A5 _] Hi He. destruct Hq as [Q1 Q2 Q3 Q4 Q5 Q6] eqn:Hq0.
  assert (∀ d x, x ∈ upd_fn q e [] d ↔ d ≠ e ∧ x ∈ q d) as Hsub.
  { intros d x. destruct (decide (d = e)) as [->|Hd]; [rewrite upd_fn_same|rewrite upd_fn_other by done; tauto].
    split; [intros H; by apply not_elem_of_nil in H|by intros []]. }
  assert (∀ d x, d ≠ e → x ∈ q d → x ∉ q e) as Hne by (intros d x Hd Hx Hx'; apply Hd; by apply (q_other _ _ _ _ x Hq Hx)).
  split; cbn [eps with_eps ep_next blocking_ep sch trefs].
  - intros d. destruct (decide (d = e)) as [->|Hd]; [rewrite !upd_fn_same; apply wq_empty|rewrite !upd_fn_other by done].
    rewrite A1, He by done. eapply wq_frame; [|apply Q1]. intros x Hx. rewrite A5 by (by eapply Hne). by rewrite Hi.
  - intros d. destruct (decide (d = e)) as [->|Hd]; [by rewrite !upd_fn_same|rewrite !upd_fn_other, A1, He by done; apply Q2].
  - intros d x [Hd Hx]%Hsub. rewrite upd_fn_other, A1, He by done. unfold st. cbn. rewrite A2, Hi. by apply Q3.
  - intros d x. rewrite Hsub, A4. destruct (decide (x ∈ q e)) as [Hx|Hx].
    + split; [|done]. intros [Hd Hx']. by destruct (Hne d x Hd Hx').
    + rewrite Hi. cbn. rewrite Q4. split; [by intros []|]. intros H. split; [|done]. intros ->. by apply Hx, Q4.
  - intros d x [Hd Hx]%Hsub. rewrite A2, A3, Hi. by apply (Q5 d).
  - intros d. destruct (decide (d = e)) as [->|Hd]; [by rewrite !upd_fn_same|rewrite !upd_fn_other, A1, He by done; apply Q6].
Qed.

(** The three passes together. *)
Lemma torn_down_intro q e s s1 s2 s3 s4 s5 (F := λ x, ep_fault_call (th s x)) :
  s1 = on_ip (λ i, with_eps (upd_fn (eps i) e (Ep (ep_state (eps (ip s) e)) true (ep_head (eps (ip s) e)) (ep_tail (eps (ip s) e)))) i) s →
  walked F (q e) s1 s2 → s3 = on_ip (λ i, with_eps (upd_fn (eps i) e (Ep EP_STATE_IDLE true None None)) i) s2 →
  drained false (reverse (calm F (q e))) s3 s4 → drained true (reverse (faulty F (q e))) s4 s5 →
  qok (ip s5) (upd_fn q e []) → NoDup (q e) →
  (∀ w, w ∈ q e → st (ip s) w ≠ TASK_DEAD ∧ terminal (tasks (sch (ip s)) w) = false) → torn_down q e s s5.
Proof.
  intros E1 [(A1 & A2 & A3 & A4) A5 A6 A7 A8 (A9 & A10 & A11 & A12)] E3
    [B1 B2 (B3 & B4 & B5 & B6) B7 B8 [B9 _] B11 B12] [C1 C2 (C3 & C4 & C5 & C6) C7 C8 [C9 _] C11 C12] Hq Hnd Hw.
  assert (∀ x, x ∈ reverse (calm F (q e)) ↔ F x = false ∧ x ∈ q e) as Ec by (intros x; unfold calm; by rewrite elem_of_reverse, list_elem_of_filter).
  assert (∀ x, x ∈ reverse (faulty F (q e)) ↔ F x = true ∧ x ∈ q e) as Ef by (intros x; unfold faulty; by rewrite elem_of_reverse, list_elem_of_filter).
  assert (∀ x, th s3 x = if decide (x ∈ q e ∧ F x = true) then unfault (th s x) else th s x) as T3 by (rewrite E3, E1 in *; exact A7).
  assert (sch (ip s3) = sch (ip s) ∧ kills s3 = kills s) as [S3 L3] by (rewrite E3, E1 in *; done).
  assert (∀ x, st (ip s5) x = if decide (x ∈ reverse (calm F (q e))) then TASK_READY else st (ip s) x) as Hst.
  { intros x. unfold st. rewrite C8, B8, S3. apply wake_all_state; [rewrite reverse_Permutation; by apply NoDup_filter|].
    intros w [_ Hin]%Ec. by apply Hw. }
  split.
  - exact Hq.
  - rewrite C3, B3, E3. cbn. by rewrite upd_fn_same.
  - intros w Hin. rewrite C4, B4, C6, B6, E3. cbn. rewrite A5, A6, !decide_True by done. split; [done|]. split; [done|].
    rewrite C1, B1, T3, Hst, C9. destruct (ep_fault_call (th s w)) eqn:HF.
    + rewrite (decide_True (P := w ∈ reverse (faulty F (q e)))) by (by rewrite Ef).
      rewrite (decide_False (P := w ∈ reverse (calm F (q e)))) by (rewrite Ec; unfold F; rewrite HF; by intros [? _]).
      rewrite decide_True by done. split; [apply uncap_none|]. split; [apply elem_of_app; right; by rewrite Ef|].
      unfold uncap, unfault. cbn. by destruct (ep_cap_obj (th s w)).
    + rewrite (decide_False (P := w ∈ reverse (faulty F (q e)))) by (rewrite Ef; unfold F; rewrite HF; by intros [? _]).
      rewrite (decide_True (P := w ∈ reverse (calm F (q e)))) by (by rewrite Ec).
      rewrite decide_False by (unfold F; rewrite HF; by intros [_ ?]). split; [apply uncap_none|].
      rewrite ?decide_True by (by rewrite Ec). reflexivity.
  - intros x Hx. rewrite C1, B1, T3, Hst, !decide_False by (rewrite ?Ec, ?Ef; tauto). done.
  - intros x. rewrite C2, B2, E3. cbn. rewrite A3, E1. cbn. destruct (decide (x ∈ q e)) as [Hx|Hx].
    + destruct (F x) eqn:HF; [rewrite (decide_False (P := x ∈ reverse (calm F (q e)))) by (rewrite Ec, HF; by intros [? _])
        |rewrite (decide_True (P := x ∈ reverse (calm F (q e)))) by (by rewrite Ec)].
      * rewrite decide_True by (by rewrite Ef). lia.
      * rewrite decide_False by (rewrite Ef, HF; by intros [? _]). lia.
    + rewrite !decide_False by (rewrite ?Ec, ?Ef; tauto). lia.
  - intros x. rewrite C9, B9, L3, app_nil_r, elem_of_app, Ef. unfold F. tauto.
  - rewrite C5, B5, C11, B11, E3. unfold msg in *. cbn. rewrite A10, E1. split; [|done]. rewrite E1 in A4. exact A4.
  - etransitivity; [|exact C12]. replace (kc s) with (kc s3); [exact B12|]. rewrite E3. cbn. rewrite A9, E1. done.
Qed.

Lemma obj_close_spec ll la q e s :
  acct W ll la s → qok (ip s) q →
  (∀ w, w ∈ q e → w ∈ L W ∧ st (ip s) w ≠ TASK_DEAD ∧ terminal (tasks (sch (ip s)) w) = false) →
  returns (kendpoint_obj_close e s) (λ s', acct W ll la s' ∧ torn_down q e s s').
Proof.
  intros Ha Hq Hw. unfold kendpoint_obj_close. cbv zeta. set (F := λ x, ep_fault_call (th s x)). set (s1 := on_ip _ s).
  pose proof (q_rep _ _ Hq e) as [Hc _ Hnd].
  assert (length (q e) < ep_fuel s)%nat as Hfu.
  { unfold ep_fuel, waitfuel. apply Nat.lt_succ_r, bounded_length; [exact Hnd|]. intros x Hx. by apply (q_refs _ _ Hq e). }
  destruct (close_walk_spec F (q e) (ep_fuel s1) (ep_head (eps (ip s) e)) None None [] [] s1) as (wl & kl & s2 & -> & Cw & Ck & Hwk);
    [exact Hc|constructor|constructor|by rewrite !app_nil_r|exact Hfu|done|].
  cbn [mbind res_bind]. rewrite !app_nil_r in Cw, Ck. set (s3 := on_ip _ s2).
  assert (qok (ip s3) (upd_fn q e [])) as Hq3.
  { apply (walked_qok F q e s s1 s2 Hq Hwk); [reflexivity|]. intros d Hd. cbn. by rewrite upd_fn_other. }
  pose proof Hwk as [(A1 & A2 & A3 & A4) A5 A6 A7 A8 (A9 & A10 & A11 & A12)].
  assert (acct W ll la s3) as A.
  { apply acct_sch; [|reflexivity]. eapply acct_same; [exact Ha|exact A9|]. intros x. unfold held, helda, sctx.
    rewrite A2, A7. by case_decide. }
  assert (∀ x, x ∈ reverse (calm F (q e)) ↔ F x = false ∧ x ∈ q e) as Ec by (intros x; unfold calm; by rewrite elem_of_reverse, list_elem_of_filter).
  assert (∀ x, x ∈ reverse (faulty F (q e)) ↔ F x = true ∧ x ∈ q e) as Ef by (intros x; unfold faulty; by rewrite elem_of_reverse, list_elem_of_filter).
  assert (NoDup (reverse (calm F (q e))) ∧ NoDup (reverse (faulty F (q e)))) as [Nc Nf] by (split; rewrite reverse_Permutation; apply NoDup_filter, Hnd).
  assert (length (reverse (calm F (q e))) < ep_fuel s3 ∧ length (reverse (faulty F (q e))) < ep_fuel s3)%nat as [Lc Lf].
  { unfold ep_fuel, waitfuel in *. cbn. rewrite A2. cbn. rewrite !length_reverse.
    pose proof (length_filter (λ x, F x = false) (q e)). pose proof (length_filter (λ x, F x = true) (q e)). unfold calm, faulty. lia. }
  assert (∀ w, w ∈ q e → w ∈ L W ∧ blocking_ep (ip s3) w = None ∧ 2 ≤ trefs (ip s3) w) as Hw3.
  { intros w Hin. split; [by apply Hw|]. cbn. rewrite A5, A3, decide_True by done. split; [done|]. by apply (q_refs _ _ Hq e). }
  apply returns_bind. rewrite (proj1 (close_drain _ _ _)).
  eapply returns_mono; [apply (drain_spec false ll la (upd_fn q e []) _ (ep_fuel s3) wl s3 Cw Nc Lc A Hq3); intros w [_ Hin]%Ec; by apply Hw3|].
  intros s4 (A4' & Hq4 & D4).
  assert (chain (ep_next (ip s4)) kl (reverse (faulty F (q e)))) as Ck4.
  { eapply chain_ext; [|exact Ck]. intros x Hx. symmetry. apply (dr_nx _ _ _ _ D4). rewrite Ec. apply Ef in Hx as [Hx _]. by intros [? _]; congruence. }
  rewrite (proj2 (close_drain _ _ _)).
  eapply returns_mono; [apply (drain_spec true ll la (upd_fn q e []) _ (ep_fuel s4) kl s4 Ck4 Nf)|].
  - unfold ep_fuel, waitfuel in *. rewrite (dr_sch _ _ _ _ D4), wake_all_bound. exact Lf.
  - exact A4'.
  - exact Hq4.
  - intros w [Hf Hin]%Ef. destruct (Hw3 w Hin) as (H1 & H2 & H3). split; [exact H1|].
    split; [by rewrite (proj1 (proj2 (dr_ip _ _ _ _ D4)))|]. rewrite (dr_refs _ _ _ _ D4), decide_False; [lia|].
    rewrite Ec. by intros [? _]; congruence.
  - intros s5 (A5' & Hq5 & D5). split; [exact A5'|].
    apply (torn_down_intro q e s s1 s2 s3 s4 s5); [reflexivity|exact Hwk|reflexivity|exact D4|exact D5|exact Hq5|exact Hnd|].
    intros w Hin. apply (Hw w Hin).
Qed.
End drain.
