(* ===== verification/EndpointCancel.v ===== *)
(** * Revoking a badge

    EP_CANCEL_BADGED_SENDS: the senders that came through a capability with the
    given badge leave the queue, the others stay in their order; the cancelled
    ones lose the capability they were sending and wake with an error. *)

From Stdlib Require Import ZArith Lia.
From stdpp Require Import base numbers gmap list.
From S2P Require Import Prelude Rights Forest Mdb Cdt Kobject Kcnode KcnodeInv KcnodeInstall Cspace IpcCap.
From S2P Require Import Kschedctx Runq RunqInv RunqSpec SchedSpec Wq Ipc Knotification KnotifSpec KnotifWake IrqDelivery IpcMsg.
From S2P Require Import Endpoint EndpointInv EndpointQueue EndpointSend EndpointRecv EndpointReply EndpointClose.
Local Open Scope Z_scope.
Implicit Types (s : ek) (t u c o ep rp w x : N) (κ : kstate) (q : N → list N).

Definition hit (b : Z) (m : N → ipc_stage) (x : N) : bool := sender_badge (m x) =? b.
Definition gone (P : N → bool) (l : list N) : list N := filter (λ x, P x = true) l.
Definition kept (P : N → bool) (l : list N) : list N := filter (λ x, P x = false) l.

(** The walk: what became of the threads of [g], which left the queue. *)
Record culled ep (g : list N) s s' : Prop := Culled {
  cu_ip : sch (ip s') = sch (ip s) ∧ trefs (ip s') = trefs (ip s) ∧ msg s' = msg s;
  cu_ep : (∀ d, d ≠ ep → eps (ip s') d = eps (ip s) d) ∧ ep_state (eps (ip s') ep) = ep_state (eps (ip s) ep) ∧
          ep_closed (eps (ip s') ep) = ep_closed (eps (ip s) ep);
  cu_bl : ∀ x, blocking_ep (ip s') x = if decide (x ∈ g) then None else blocking_ep (ip s) x;
  cu_cl : ∀ x, ipc_ep_closed (ip s') x = if decide (x ∈ g) then true else ipc_ep_closed (ip s) x;
  cu_th : ∀ x, th s' x = if decide (x ∈ g) then put_call false (th s x) else th s x;
  cu_kc : kc s' = kc s ∧ rps s' = rps s;
}.

Lemma culled_nil ep s : culled ep [] s s.
Proof. split; try done; intros x; by rewrite decide_False by apply not_elem_of_nil. Qed.

Lemma culled_cons ep t g s s1 s2 : t ∉ g → culled ep [t] s s1 → culled ep g s1 s2 → culled ep (t :: g) s s2.
Proof.
  intros Ht [(A1 & A2 & A3) (A4 & A5 & A6) A7 A8 A9 [A10 A11]] [(B1 & B2 & B3) (B4 & B5 & B6) B7 B8 B9 [B10 B11]].
  assert (∀ x, x ∈ [t] ↔ x = t) as Hs by (intros x; apply list_elem_of_singleton).
  split; [split_and!; congruence|split; [intros d Hd; by rewrite B4, A4|split; congruence]|..|split; congruence];
    intros x; rewrite ?B7, ?A7, ?B8, ?A8, ?B9, ?A9; destruct (decide (x = t)) as [->|Hx];
    rewrite ?(decide_True (P := t ∈ [t])), ?(decide_True (P := t ∈ t :: g)) by left;
    rewrite ?(decide_False (P := t ∈ g)) by done; try done;
    rewrite (decide_False (P := x ∈ [t])) by (by rewrite Hs);
    (destruct (decide (x ∈ g)); [by rewrite decide_True by (by right)|rewrite decide_False by (rewrite elem_of_cons; tauto)]; done).
Qed.

Lemma u32_add a b : u32 (u32 a + b) = u32 (a + b).
Proof. unfold wrap. by rewrite Z.add_mod_idemp_l. Qed.

Lemma cancel_walk_spec (b : Z) ep l : ∀ fuel p (woken : option N) lw n s (P := hit b (msg s)),
  wq_rep (ep_next (ip s)) (ep_head (eps (ip s) ep)) (ep_tail (eps (ip s) ep)) (p ++ l) →
  chain (notif_next (ip s)) woken lw → NoDup (l ++ lw) → (length l < fuel)%nat →
  ∃ woken' s', cancel_walk fuel ep b (last p) (head l) woken (u32 n) s =
      Ret (woken', u32 (n + Z.of_nat (length (gone P l))), s') ∧
    wq_rep (ep_next (ip s')) (ep_head (eps (ip s') ep)) (ep_tail (eps (ip s') ep)) (p ++ kept P l) ∧
    chain (notif_next (ip s')) woken' (reverse (gone P l) ++ lw) ∧
    (∀ x, x ∉ p ++ l → ep_next (ip s') x = ep_next (ip s) x) ∧ culled ep (gone P l) s s'.
Proof.
  induction l as [|t l IH]; intros fuel p woken lw n s P Hrep Hch Hnd Hl; (destruct fuel as [|fuel]; [simpl in Hl; lia|]); cbn [cancel_walk head].
  { exists woken, s. unfold gone, kept. cbn [filter list_filter length]. rewrite Z.add_0_r.
    split; [done|]. split; [exact Hrep|]. split; [exact Hch|]. split; [done|apply culled_nil]. }
  pose proof (chain_mid _ _ p t l (wq_chain _ _ _ _ Hrep)) as Hn. cbn [app] in Hnd. apply NoDup_cons in Hnd as [Htn Hnd].
  unfold gone, kept. change (negb (sender_badge (msg s t) =? b)) with (negb (P t)). rewrite Hn.
  destruct (P t) eqn:HP; cbn [negb].
  - destruct (wq_cut (ep_next (ip s)) (ep_head (eps (ip s) ep)) (ep_tail (eps (ip s) ep)) (last p) t) as [[nx h] tl] eqn:Hcut.
    destruct (wq_cut_rep _ _ _ _ _ _ _ _ _ Hrep Hcut) as (Hrep1 & _ & Hoth). cbv zeta.
    match goal with |- context [cancel_walk fuel ep b (last p) (head l) (Some t) _ ?z] => set (s1 := z) end.
    assert (culled ep [t] s s1) as C1.
    { assert (∀ x, x ∈ [t] ↔ x = t) as Hs by (intros x; apply list_elem_of_singleton).
      split; cbn; [done|rewrite upd_fn_same; split; [intros d Hd; by apply upd_fn_other|done]|..|done];
        intros x; destruct (decide (x = t)) as [->|Hx]; rewrite ?upd_fn_same, ?upd_fn_other by done;
        [by rewrite decide_True by left|by rewrite decide_False by (by rewrite Hs)|by rewrite decide_True by left
        |by rewrite decide_False by (by rewrite Hs)|by rewrite decide_True by left|by rewrite decide_False by (by rewrite Hs)]. }
    destruct (IH fuel p (Some t) (t :: lw) (n + 1) s1) as (woken' & s' & Hr & R1 & R2 & R3 & R4).
    + cbn. rewrite upd_fn_same. exact Hrep1.
    + constructor. cbn. rewrite upd_fn_same. eapply chain_ext; [|exact Hch]. intros x Hx. symmetry. apply upd_fn_other.
      intros ->. apply Htn, elem_of_app. by right.
    + rewrite <-Permutation_middle. by apply NoDup_cons.
    + simpl in Hl. lia.
    + change (hit b (msg s1)) with P in *. unfold gone, kept in *.
      exists woken', s'. rewrite u32_add. split; [rewrite Hr, filter_cons_True by done; cbn [length]; by rewrite Nat2Z.inj_succ, <-Z.add_1_l, Z.add_assoc|].
      rewrite filter_cons_False by congruence. split; [exact R1|]. rewrite filter_cons_True, reverse_cons, <-app_assoc by done.
      split; [exact R2|]. split.
      * intros x Hx. rewrite elem_of_app, elem_of_cons in Hx. rewrite R3 by (rewrite elem_of_app; tauto). cbn.
        apply Hoth; [tauto|]. intros Hla%last_Some_elem_of. tauto.
      * apply (culled_cons ep t _ s s1); [|exact C1|exact R4]. rewrite list_elem_of_filter. intros [_ Hx]. apply Htn, elem_of_app. by left.
  - destruct (IH fuel (p ++ [t]) woken lw n s) as (woken' & s' & Hr & R1 & R2 & R3 & R4).
    + by rewrite <-app_assoc.
    + exact Hch.
    + exact Hnd.
    + simpl in Hl. lia.
    + rewrite last_snoc in Hr. unfold gone, kept in *. exists woken', s'.
      rewrite filter_cons_False by congruence. split; [exact Hr|]. rewrite filter_cons_True by done.
      rewrite <-app_assoc in R1. split; [exact R1|]. split; [exact R2|]. split; [|exact R4].
      intros x Hx. apply R3. by rewrite <-app_assoc.
Qed.

(** The cancelled threads, woken one by one. *)
Record freed (l : list N) s s' : Prop := Freed {
  fr_th   : ∀ x, th s' x = if decide (x ∈ l) then no_cap (th s x) else th s x;
  fr_refs : ∀ x, trefs (ip s') x = trefs (ip s) x - (if decide (x ∈ l) then 1 else 0);
  fr_ip   : eps (ip s') = eps (ip s) ∧ blocking_ep (ip s') = blocking_ep (ip s) ∧ msg s' = msg s ∧
            ipc_ep_closed (ip s') = ipc_ep_closed (ip s);
  fr_sch  : sch (ip s') = foldl (λ σ w, task_wakeup w σ) (sch (ip s)) l;
  fr_rps  : rps s' = rps s;
  fr_kc   : kshrinks (kc s) (kc s');
}.

Section cancel.
Context (W : world) (HW : world_ok W).

Lemma drop_both_spec ll la w s (e := th s w) :
  acct W ll la s → w ∈ L W →
  returns (rel_opt (ep_cap_obj e) (upd_th w no_cap s)) (λ s1, returns (drop_src (ep_cap_src_cn e) s1)
    (λ s', acct W ll la s' ∧ kc_only (upd_th w no_cap s) s' ∧ kshrinks (kc s) (kc s'))).
Proof.
  intros Ha Hw.
  assert (acct W (olist (ep_cap_obj e) ++ olist (ep_cap_src_cn e) ++ ll) (olist (ep_cap_src_cn e) ++ la) (upd_th w no_cap s)) as A1.
  { eapply (acct_upd W HW _ _ _ _ s _ w Ha Hw); [reflexivity|..].
    - intros v Hv. unfold held, helda, upd_th, sctx. cbn [th ip with_th]. by rewrite upd_fn_other.
    - intros o. unfold held, upd_th, sctx. cbn [th ip with_th]. rewrite upd_fn_same. fold e.
      unfold no_cap. cbn [put_src put_cap ep_cap_obj ep_cap_src_cn sc_held ep_reply_obj pending_kreply]. cnt_lia.
    - intros o. unfold helda, upd_th. cbn [th with_th]. rewrite upd_fn_same. fold e. unfold no_cap. cbn [put_src ep_cap_src_cn]. cnt_lia. }
  eapply returns_mono; [apply (rel_opt_acct W HW _ _ _ _ A1)|]. intros s3 (A3 & K3 & S3).
  eapply returns_mono; [apply (drop_src_acct W HW _ _ _ _ A3)|]. intros s4 (A4 & K4 & S4).
  split; [exact A4|]. split; [rewrite K4, K3; reflexivity|]. etransitivity; [exact S3|exact S4].
Qed.

Lemma cancel_wake_spec ll la q l : ∀ fuel (o : option N) s,
  chain (notif_next (ip s)) o l → NoDup l → (length l < fuel)%nat → acct W ll la s → qok (ip s) q →
  (∀ w, w ∈ l → w ∈ L W ∧ blocking_ep (ip s) w = None ∧ 2 ≤ trefs (ip s) w) →
  returns (cancel_wake fuel o s) (λ s', acct W ll la s' ∧ qok (ip s') q ∧ freed l s s').
Proof.
  induction l as [|w l IH]; intros fuel o s Hc Hnd Hl Ha Hq Hw; inversion Hc as [|w' l' Hc']; subst;
    (destruct fuel as [|fuel]; [simpl in Hl; lia|]); cbn [cancel_wake].
  { split; [exact Ha|]. split; [exact Hq|]. split; try done; intros x; rewrite decide_False by apply not_elem_of_nil; lia. }
  apply NoDup_cons in Hnd as [Hwl Hnd]. destruct (Hw w ltac:(left)) as (W1 & W2 & W3). cbv zeta.
  set (s1 := on_ip _ s). assert (acct W ll la s1) as A1 by (apply acct_sch; [exact Ha|reflexivity]). fold no_cap.
  pose proof (drop_both_spec ll la w s1 A1 W1) as Hd. cbv zeta in Hd. change (th s1 w) with (th s w) in *.
  change (upd_th w (λ e, put_src None 0%N (put_cap None 0 0 e)) s1) with (upd_th w no_cap s1).
  apply returns_bind. eapply returns_mono; [exact Hd|]. intros s2 Hd2. cbv beta in Hd2.
  apply returns_bind. eapply returns_mono; [exact Hd2|]. intros s3 (A3 & K3 & S3).
  assert (qok (ip s3) q) as Hq3 by (rewrite K3; apply (qok_same (ip s)); [by apply q_same_fields|exact Hq]).
  destruct (wake_put W ll la q w s3 A3 Hq3) as (s4 & -> & A4 & Hq4 & E4); [by rewrite K3|by rewrite K3|]. cbn [mbind res_bind].
  assert (∀ x, x ∈ l → x ≠ w) as Hxw by (intros x Hx ->; done).
  assert (∀ x, th s4 x = if decide (x = w) then no_cap (th s x) else th s x) as T4.
  { intros x. rewrite E4, K3. cbn. unfold upd_fn. by case_decide; subst. }
  assert (notif_next (ip s4) = upd_fn (notif_next (ip s)) w None ∧ blocking_ep (ip s4) = blocking_ep (ip s) ∧ eps (ip s4) = eps (ip s) ∧
    msg s4 = msg s ∧ ipc_ep_closed (ip s4) = ipc_ep_closed (ip s) ∧ sch (ip s4) = task_wakeup w (sch (ip s)) ∧ rps s4 = rps s ∧
    trefs (ip s4) = upd_fn (trefs (ip s)) w (trefs (ip s) w - 1)) as (N4 & B4 & P4 & M4 & C4 & S4 & R4 & F4)
    by (rewrite E4, K3; done).
  eapply returns_mono; [apply (IH fuel (notif_next (ip s) w) s4)|].
  - rewrite N4. eapply chain_ext; [|exact Hc']. intros x Hx. symmetry. apply upd_fn_other. by apply Hxw.
  - exact Hnd.
  - simpl in Hl. lia.
  - exact A4.
  - exact Hq4.
  - intros x Hx. destruct (Hw x ltac:(by right)) as (X1 & X2 & X3). rewrite B4, F4, upd_fn_other by (by apply Hxw). done.
  - intros s' (A' & Hq' & [D1 D2 (D3 & D4 & D5 & D6) D7 D8 D9]). split; [exact A'|]. split; [exact Hq'|]. split.
    + intros x. rewrite D1, T4. destruct (decide (x = w)) as [->|Hx].
      * rewrite decide_False by done. by rewrite decide_True by left.
      * destruct (decide (x ∈ l)); [by rewrite decide_True by (by right)|]. rewrite decide_False; [done|]. rewrite elem_of_cons. tauto.
    + intros x. rewrite D2, F4. destruct (decide (x = w)) as [->|Hx].
      * rewrite upd_fn_same, decide_False by done. rewrite decide_True by left. lia.
      * rewrite upd_fn_other by done. destruct (decide (x ∈ l)); [by rewrite decide_True by (by right)|].
        rewrite decide_False; [done|]. rewrite elem_of_cons. tauto.
    + rewrite D3, D4, D5, D6. by split_and!.
    + rewrite D7, S4. done.
    + by rewrite D8.
    + etransitivity; [exact S3|]. assert (kc s3 = kc s4) as -> by (by rewrite E4). exact D9.
Qed.

(** After the walk, and the store of the idle state when nobody is left. *)
Definition settle_idle ep s : ek :=
  let k := eps (ip s) ep in
  if bool_decide (ep_state k = EP_STATE_SEND) && bool_decide (ep_head k = None)
  then on_ip (λ i, with_eps (upd_fn (eps i) ep (Ep EP_STATE_IDLE (ep_closed k) None None)) i) s else s.

Lemma culled_qok P ep q s s1 :
  qok (ip s) q → ep_state (eps (ip s) ep) = EP_STATE_SEND → culled ep (gone P (q ep)) s s1 →
  wq_rep (ep_next (ip s1)) (ep_head (eps (ip s1) ep)) (ep_tail (eps (ip s1) ep)) (kept P (q ep)) →
  (∀ x, x ∉ q ep → ep_next (ip s1) x = ep_next (ip s) x) →
  qok (ip (settle_idle ep s1)) (upd_fn q ep (kept P (q ep))).
Proof.
  intros Hq Hst [(A1 & A2 & A3) (A4 & A5 & A6) A7 _ _ _] Hrep Hnx. destruct Hq as [Q1 Q2 Q3 Q4 Q5 Q6] eqn:Hq0.
  assert (∀ x, x ∈ gone P (q ep) ↔ P x = true ∧ x ∈ q ep) as Eg by (intros x; unfold gone; by rewrite list_elem_of_filter).
  assert (∀ d x, x ∈ upd_fn q ep (kept P (q ep)) d ↔ x ∈ q d ∧ x ∉ gone P (q ep)) as Hsub.
  { intros d x. rewrite Eg. destruct (decide (d = ep)) as [->|Hd]; [rewrite upd_fn_same; unfold kept; rewrite list_elem_of_filter|rewrite upd_fn_other by done].
    - destruct (P x); naive_solver.
    - split; [|tauto]. intros Hx. split; [done|]. intros [_ Hx']. apply Hd. by apply (q_other _ _ _ _ x Hq Hx). }
  assert (kept P (q ep) = [] ↔ ep_head (eps (ip s1) ep) = None) as Hemp.
  { rewrite (chain_head _ _ _ (wq_chain _ _ _ _ Hrep)). by destruct (kept P (q ep)). }
  assert (∀ d, wq_rep (ep_next (ip s1)) (ep_head (eps (ip (settle_idle ep s1)) d)) (ep_tail (eps (ip (settle_idle ep s1)) d)) (upd_fn q ep (kept P (q ep)) d) ∧
    (ep_state (eps (ip (settle_idle ep s1)) d) = EP_STATE_IDLE ↔ upd_fn q ep (kept P (q ep)) d = []) ∧
    (upd_fn q ep (kept P (q ep)) d ≠ [] → ep_state (eps (ip (settle_idle ep s1)) d) = ep_state (eps (ip s) d)) ∧
    ep_closed (eps (ip (settle_idle ep s1)) d) = ep_closed (eps (ip s) d)) as He.
  { intros d. unfold settle_idle. rewrite A5, Hst, bool_decide_true by done. cbn [andb].
    destruct (decide (d = ep)) as [->|Hd]; [rewrite upd_fn_same|rewrite upd_fn_other by done].
    - case_bool_decide as Hh; cbn; rewrite ?upd_fn_same; cbn.
      + apply Hemp in Hh. rewrite Hh. split; [apply wq_empty|]. by rewrite A6.
      + rewrite A5, A6, Hst. split; [exact Hrep|]. split; [split; [done|by intros ?%Hemp]|done].
    - assert (wq_rep (ep_next (ip s1)) (ep_head (eps (ip s) d)) (ep_tail (eps (ip s) d)) (q d)) as Hr.
      { eapply wq_frame; [|apply Q1]. intros x Hx. apply Hnx. intros Hx'. apply Hd. by apply (q_other _ _ _ _ x Hq Hx). }
      case_bool_decide; cbn; rewrite ?upd_fn_other, A4 by done; (split; [exact Hr|]; split; [apply Q2|done]). }
  assert (ip (settle_idle ep s1) = with_eps (eps (ip (settle_idle ep s1))) (ip s1)) as Hi.
  { unfold settle_idle. destruct (_ && _); [done|by destruct (ip s1)]. }
  rewrite Hi. split; cbn [with_eps eps ep_next blocking_ep sch trefs].
  - intros d. apply He.
  - intros d. apply He.
  - intros d x Hx. destruct (He d) as (_ & _ & H & _). rewrite H by (intros H0; rewrite H0 in Hx; by apply not_elem_of_nil in Hx).
    apply Hsub in Hx as [Hx _]. unfold st. cbn. rewrite A1. by apply Q3.
  - intros d x. rewrite Hsub, A7. destruct (decide (x ∈ gone P (q ep))); [split; [by intros []|done]|]. rewrite Q4. tauto.
  - intros d x [Hx _]%Hsub. rewrite A1, A2. by apply (Q5 d).
  - intros d Hcl. destruct (He d) as (_ & _ & _ & H). rewrite H in Hcl. apply Q6 in Hcl.
    destruct (decide (d = ep)) as [->|Hd]; [rewrite upd_fn_same|by rewrite upd_fn_other]. unfold kept. by rewrite Hcl.
Qed.

(** The senders of [g] are out, the rest as it was. *)
Record expelled (g : list N) s s' : Prop := Expelled {
  ex_gone  : ∀ w, w ∈ g → blocking_ep (ip s') w = None ∧ ipc_ep_closed (ip s') w = true ∧ st (ip s') w = TASK_READY ∧
               ep_cap_obj (th s' w) = None ∧ ep_cap_src_cn (th s' w) = None ∧ ep_call_mode (th s' w) = false;
  ex_other : ∀ x, x ∉ g → th s' x = th s x ∧ st (ip s') x = st (ip s) x ∧ ipc_ep_closed (ip s') x = ipc_ep_closed (ip s) x;
  ex_refs  : ∀ x, trefs (ip s') x = trefs (ip s) x - (if decide (x ∈ g) then 1 else 0);
  ex_rest  : msg s' = msg s ∧ rps s' = rps s;
  ex_kc    : kshrinks (kc s) (kc s');
}.

Lemma expelled_intro ep (g l : list N) s s1 s2 :
  culled ep g s s1 → freed l (settle_idle ep s1) s2 → l ≡ₚ g → NoDup g →
  (∀ w, w ∈ g → st (ip s) w ≠ TASK_DEAD ∧ terminal (tasks (sch (ip s)) w) = false) → expelled g s s2.
Proof.
  intros [(A1 & A2 & A3) _ A5 A6 A7 [A8 A9]] [B1 B2 (B3 & B4 & B5 & B6) B7 B8 B9] Hl Hnd Hw.
  assert (∀ x, x ∈ l ↔ x ∈ g) as Hlg by (intros x; by rewrite Hl).
  assert (sch (ip (settle_idle ep s1)) = sch (ip s1) ∧ trefs (ip (settle_idle ep s1)) = trefs (ip s1) ∧
    blocking_ep (ip (settle_idle ep s1)) = blocking_ep (ip s1) ∧ ipc_ep_closed (ip (settle_idle ep s1)) = ipc_ep_closed (ip s1) ∧
    msg (settle_idle ep s1) = msg s1 ∧ th (settle_idle ep s1) = th s1 ∧ kc (settle_idle ep s1) = kc s1 ∧
    rps (settle_idle ep s1) = rps s1) as (E1 & E2 & E3 & E4 & E5 & E6 & E7 & E8)
    by (unfold settle_idle; destruct (_ && _); done).
  assert (∀ x, st (ip s2) x = if decide (x ∈ l) then TASK_READY else st (ip s) x) as Hst.
  { intros x. unfold st. rewrite B7, E1, A1. apply wake_all_state; [by rewrite Hl|]. intros w Hin. apply Hw. by apply Hlg. }
  split.
  - intros w Hin. rewrite B4, B6, E3, E4, A5, A6, Hst, B1, E6, A7, !decide_True by (by rewrite ?Hlg). done.
  - intros x Hx. rewrite B1, E6, A7, Hst, B6, E4, A6, !decide_False by (by rewrite ?Hlg). done.
  - intros x. rewrite B2, E2, A2. destruct (decide (x ∈ g)); [rewrite decide_True by (by apply Hlg)|rewrite decide_False by (by rewrite Hlg)]; done.
  - rewrite B5, E5, A3, B8, E8, A9. done.
  - rewrite <-A8, <-E7. exact B9.
Qed.

Definition cancel_result t (arg0 b : Z) q s (r : sysret) s' : Prop :=
  match r with
  | Err _ => ip s' = ip s ∧ th s' = th s ∧ rps s' = rps s ∧ cdt_shrinks (abs (mdb (kc s))) (abs (mdb (kc s')))
  | Park => False
  | Ok n => ∃ ep s1,
      found (kc s) KOBJ_ENDPOINT (Some (troot (th s t))) (cspace_of s t) arg0 RIGHT_WRITE ep 0 ∧ entered t s s1 ∧
      let P := hit b (msg s) in
      let g := if decide (ep_state (eps (ip s) ep) = EP_STATE_SEND) then gone P (q ep) else [] in
      n = u32 (Z.of_nat (length g)) ∧ expelled g s1 s' ∧
      qok (ip s') (upd_fn q ep (if decide (ep_state (eps (ip s) ep) = EP_STATE_SEND) then kept P (q ep) else q ep))
  end.

(** The queue of an endpoint with senders is culled; any other is left alone. *)
Lemma cancel_queue_spec q s s0 ep b (SEND := ep_state (eps (ip s) ep) = EP_STATE_SEND)
    (g := if decide SEND then gone (hit b (msg s)) (q ep) else []) :
  qok (ip s) q → ip s0 = ip s →
  ∃ woken s1,
    (if bool_decide (ep_state (eps (ip s0) ep) = EP_STATE_SEND)
     then cancel_walk (ep_fuel s0) ep b None (ep_head (eps (ip s0) ep)) None 0 s0 else Ret (None, 0, s0)) =
      Ret (woken, u32 (Z.of_nat (length g)), s1) ∧
    chain (notif_next (ip s1)) woken (reverse g) ∧ culled ep g s0 s1 ∧ (∀ x, x ∈ g → x ∈ q ep) ∧ NoDup g ∧
    qok (ip (settle_idle ep s1)) (upd_fn q ep (if decide SEND then kept (hit b (msg s)) (q ep) else q ep)).
Proof.
  intros Hq Hi. pose proof (q_rep _ _ Hq ep) as Hrep. subst g SEND. assert (msg s = msg s0) as Hms by (unfold msg; by rewrite Hi).
  rewrite <-Hi in *. clear Hi. rewrite Hms. destruct (decide (ep_state (eps (ip s0) ep) = EP_STATE_SEND)) as [Hst|Hst].
  - rewrite bool_decide_true by done.
    destruct (cancel_walk_spec b ep (q ep) (ep_fuel s0) [] None [] 0 s0) as (woken & s1 & Hr & R1 & R2 & R3 & R4);
      [exact Hrep|constructor|rewrite app_nil_r; apply Hrep| |].
    { unfold ep_fuel, waitfuel. apply Nat.lt_succ_r, bounded_length; [apply Hrep|]. intros x Hx. by apply (q_refs _ _ Hq ep). }
    exists woken, s1. rewrite app_nil_r in R2. cbn [last app] in Hr, R1, R3.
    rewrite (chain_head _ _ _ (wq_chain _ _ _ _ Hrep)). split; [exact Hr|]. split; [exact R2|]. split; [exact R4|].
    split; [unfold gone; intros x [_ Hx]%list_elem_of_filter; exact Hx|]. split; [apply NoDup_filter, Hrep|].
    apply (culled_qok (hit b (msg s0)) ep q s0 s1); [exact Hq|exact Hst|exact R4|exact R1|exact R3].
  - rewrite bool_decide_false by done. exists None, s0. split; [done|]. split; [constructor|].
    split; [apply culled_nil|]. split; [intros x Hx; by apply not_elem_of_nil in Hx|]. split; [constructor|].
    unfold settle_idle. rewrite bool_decide_false by done. cbn [andb].
    eapply qok_ext; [|exact Hq]. intros d. destruct (decide (d = ep)) as [->|]; [by rewrite upd_fn_same|by rewrite upd_fn_other].
Qed.

Lemma cancel_badged_spec q s t arg0 b :
  at_entry W q s t →
  (∀ e w, w ∈ q e → w ∈ L W ∧ st (ip s) w ≠ TASK_DEAD ∧ terminal (tasks (sch (ip s)) w) = false) →
  returns (sys_ep_cancel_badged_sends t arg0 b s) (λ '(r, s'), acct W [] [] s' ∧ cancel_result t arg0 b q s r s').
Proof.
  intros [Ha Hq Hrn _ Hcs _] Hw. unfold sys_ep_cancel_badged_sends. rewrite bool_decide_false by exact Hcs.
  apply returns_bind. eapply returns_mono; [apply (resolve_acct W HW [] [] KOBJ_ENDPOINT (Some (troot (th s t))) arg0 RIGHT_WRITE s t Ha);
    [simpl; lia|simpl; lia|apply Hrn|done]|].
  intros [r κ'] [Hm Hp]. cbv zeta. set (s0 := with_kc κ' s).
  destruct r as [e|[[ep rts] ib]]; [split; [exact Hp|]; split_and!; [done..|]; cbn; by rewrite Hm|]. destruct Hp as [A0 Hf].
  destruct (Z.eqb_spec ib 0) as [->|Hib]; cbn [negb].
  2: { apply returns_bind. eapply returns_mono; [apply (rel_acct W HW _ _ _ _ A0)|]. intros s1 (A1 & K1 & S1). split; [exact A1|].
    split; [by rewrite K1|]. split; [by rewrite K1|]. split; [by rewrite K1|]. cbn. rewrite <-Hm. apply S1. }
  assert (entered t s s0) as E0 by (by apply entered_kc).
  destruct (cancel_queue_spec q s s0 ep b Hq eq_refl) as (woken & s1 & -> & Hch & Hcu & Hgq & Hnd & Hq1).
  cbn [mbind res_bind]. set (g := if decide _ then gone _ _ else []) in *.
  change (if bool_decide _ && bool_decide _ then _ else s1) with (settle_idle ep s1).
  pose proof Hcu as [(A1 & A2 & A3) _ A5 _ A7 [A8 _]].
  assert (ip (settle_idle ep s1) = with_eps (eps (ip (settle_idle ep s1))) (ip s1) ∧ th (settle_idle ep s1) = th s1 ∧ kc (settle_idle ep s1) = kc s1) as (Hi & Ht & Hk).
  { unfold settle_idle. destruct (_ && _); [done|by destruct (ip s1)]. }
  assert (acct W [ep] [] (settle_idle ep s1)) as A.
  { eapply acct_same; [exact A0|by rewrite Hk, A8|]. intros x. unfold held, helda, sctx. rewrite Ht, Hi.
    cbn [sch with_eps]. rewrite A1, A7. destruct (decide (x ∈ g)); split; reflexivity. }
  apply returns_bind. eapply returns_mono; [eapply (cancel_wake_spec [ep] [] _ (reverse g) (ep_fuel (settle_idle ep s1)) woken _)|].
  - rewrite Hi. exact Hch.
  - by rewrite reverse_Permutation.
  - unfold ep_fuel, waitfuel. rewrite Hi, length_reverse. cbn. rewrite A1. apply Nat.lt_succ_r, bounded_length; [exact Hnd|].
    intros x Hx. by apply (q_refs _ _ Hq ep), Hgq.
  - exact A.
  - exact Hq1.
  - intros w Hin. rewrite elem_of_reverse in Hin. split; [by apply (Hw ep), Hgq|]. rewrite Hi. cbn. rewrite A5, A2, decide_True by done.
    split; [done|]. by apply (q_refs _ _ Hq ep), Hgq.
  - intros s2 (A' & Hq2 & Hfr). apply returns_bind. eapply returns_mono; [apply (rel_acct W HW _ _ _ _ A')|].
    intros s3 (A3' & K3 & S3). split; [exact A3'|]. exists ep, s0. split; [exact Hf|]. split; [exact E0|]. cbv zeta. fold g.
    split; [done|]. split; [|by rewrite K3].
    assert (expelled g s0 s2) as [X1 X2 X3 X4 X5].
    { apply (expelled_intro ep g (reverse g) s0 s1); [exact Hcu|exact Hfr|apply reverse_Permutation|exact Hnd|].
      intros w Hin. apply (Hw ep w), Hgq, Hin. }
    rewrite K3. split; [exact X1|exact X2|exact X3|exact X4|]. etransitivity; [exact X5|exact S3].
Qed.
End cancel.
