(* ===== verification/EndpointResume.v ===== *)
(** * Coming back from a wait

    A parked syscall is entered again when its thread is woken.  The second half
    of EP_SEND, EP_RECV and EP_CALL gives back every reference the thread still
    records and reports what happened; the thread is then ready to enter the
    kernel afresh. *)

From Stdlib Require Import ZArith Lia.
From stdpp Require Import base numbers gmap list.
From S2P Require Import Prelude Rights Forest Mdb Cdt Kobject Kcnode KcnodeInv KcnodeInstall Cspace IpcCap.
From S2P Require Import Kschedctx Runq RunqInv RunqSpec SchedSpec Wq Ipc Knotification IpcMsg.
From S2P Require Import Endpoint EndpointInv EndpointQueue EndpointSend EndpointRecv EndpointReply.
Local Open Scope Z_scope.
Implicit Types (s : ek) (t u o ep rp : N) (κ : kstate) (q : N → list N).

(** Only [t]'s own record and the capabilities it let go change. *)
Record rframe1 t s s' : Prop := RFrame1 {
  r1_th  : ∀ v, v ≠ t → th s' v = th s v;
  r1_t   : troot (th s' t) = troot (th s t) ∧ sc_reentry (th s' t) = sc_reentry (th s t);
  r1_ip  : eps (ip s') = eps (ip s) ∧ ep_next (ip s') = ep_next (ip s) ∧ blocking_ep (ip s') = blocking_ep (ip s) ∧
           sch (ip s') = sch (ip s) ∧ trefs (ip s') = trefs (ip s) ∧ msg s' = msg s;
  r1_kc  : kshrinks (kc s) (kc s');
}.

#[global] Instance rframe1_preorder t : PreOrder (rframe1 t).
Proof.
  split.
  - intros s. split; [done|done|by split_and!|reflexivity].
  - intros s1 s2 s3 [A1 [A2 A2'] (A3 & A4 & A5 & A6 & A7 & A8) A9] [B1 [B2 B2'] (B3 & B4 & B5 & B6 & B7 & B8) B9]. split.
    + intros v Hv. by rewrite B1, A1.
    + split; congruence.
    + split_and!; congruence.
    + etransitivity; [exact A9|exact B9].
Qed.

Lemma r1_kc_only t s s' : kc_only s s' → kshrinks (kc s) (kc s') → rframe1 t s s'.
Proof. intros K S. split; [by rewrite K|by rewrite K|rewrite K; by split_and!|exact S]. Qed.

Lemma r1_field t s f : (∀ e, troot (f e) = troot e ∧ sc_reentry (f e) = sc_reentry e) → rframe1 t s (upd_th t f s).
Proof.
  intros Hf. split; [intros v Hv; by apply upd_fn_other|cbn; rewrite upd_fn_same; apply Hf|by split_and!|reflexivity].
Qed.

Lemma r1_closed t s b : rframe1 t s (put_closed t b s).
Proof. split; [done|done|by split_and!|reflexivity]. Qed.

Section resume.
Context (W : world) (HW : world_ok W).

(** A reference is released, then its record cleared by [f]. *)
Lemma clear_ref (x : option N) t (f : ep_task → ep_task) s :
  acct W [] [] s → t ∈ L W → (∀ e, troot (f e) = troot e ∧ sc_reentry (f e) = sc_reentry e) →
  (∀ o, cnt (held (upd_th t f s) t) o + cnt (olist x) o = cnt (held s t) o) → helda (upd_th t f s) t = helda s t →
  returns (rel_opt x s) (λ s1, acct W [] [] (upd_th t f s1) ∧ rframe1 t s (upd_th t f s1) ∧ kc_only s s1).
Proof.
  intros Ha Ht Hf Hc Hca. eapply returns_mono; [apply (rel_then W HW [] [] x (upd_th t f) s); [done|done|]|].
  - eapply (acct_upd W HW _ _ _ _ s _ t Ha Ht); [reflexivity|..].
    + intros v Hv. unfold held, helda, upd_th, sctx. cbn [th ip with_th]. by rewrite upd_fn_other.
    + intros o. specialize (Hc o). rewrite app_nil_r, cnt_nil. lia.
    + intros o. by rewrite Hca.
  - intros s1 (A1 & K & S). split; [exact A1|]. split; [|exact K].
    etransitivity; [by apply (r1_kc_only t s s1)|by apply r1_field].
Qed.

Definition unsrc (s : ek) t : res ek :=
  match ep_cap_src_cn (th s t) with
  | None => Ret s
  | Some cn => s ← drop_src (Some cn) s; Ret (upd_th t (put_src None 0%N) s)
  end.

Lemma unsrc_spec t s :
  acct W [] [] s → t ∈ L W →
  returns (unsrc s t) (λ s1, acct W [] [] s1 ∧ rframe1 t s s1 ∧ ip s1 = ip s ∧ ∃ i, th s1 t = put_src None i (th s t)).
Proof.
  intros Ha Ht. unfold unsrc. destruct (ep_cap_src_cn (th s t)) as [cn|] eqn:Hcn.
  2: { split; [exact Ha|]. split; [reflexivity|]. split; [done|]. exists (ep_cap_src_idx (th s t)). destruct (th s t). cbn in *. by subst. }
  set (f := put_src None 0%N).
  assert (acct W [cn] [cn] (upd_th t f s)) as A1.
  { eapply (acct_upd W HW _ _ _ _ s _ t Ha Ht); [reflexivity|..].
    - intros v Hv. unfold held, helda, upd_th, sctx. cbn [th ip with_th]. by rewrite upd_fn_other.
    - intros o. unfold held, upd_th, sctx. cbn [th ip with_th]. rewrite upd_fn_same, Hcn. unfold f.
      cbn [put_src ep_cap_obj ep_cap_src_cn sc_held ep_reply_obj pending_kreply]. cnt_lia.
    - intros o. unfold helda, upd_th. cbn [th with_th]. rewrite upd_fn_same, Hcn. unfold f. cbn [put_src ep_cap_src_cn]. cnt_lia. }
  pose proof (drop_src_acct W HW [] [] (Some cn) _ A1) as Hd. unfold drop_src, do_kc in *. cbn [kc upd_th with_th] in Hd.
  destruct (syscall_ipc_stage_cap_release (Some cn) (kc s)) as [κ| |]; [|exact Hd..]. cbn in Hd |- *. destruct Hd as (A2 & _ & S).
  split; [exact A2|]. split; [|split; [done|exists 0%N; by rewrite upd_fn_same]].
  etransitivity; [apply (r1_kc_only t s (with_kc κ s)); [reflexivity|exact S]|by apply r1_field].
Qed.

(** ** The three second halves *)

(** Nothing in flight. *)
Definition clean (e : ep_task) : Prop :=
  ep_cap_obj e = None ∧ ep_cap_src_cn e = None ∧ sc_held e = None ∧ ep_reply_obj e = None ∧ pending_kreply e = None.

(** The syscall has its result and the thread nothing left from the wait. *)
Definition resumed t s (r : sysret) s' : Prop :=
  acct W [] [] s' ∧ rframe1 t s s' ∧ clean (th s' t) ∧
  r = (if ipc_ep_closed (ip s) t then Err IRIS_ERR_CLOSED else Ok 0).

Lemma resumed_intro t s s1 (fin : ek → ek) :
  acct W [] [] s1 → rframe1 t s s1 → clean (th s1 t) → ipc_ep_closed (ip s1) t = ipc_ep_closed (ip s) t →
  acct W [] [] (fin s1) → rframe1 t s1 (fin s1) → clean (th (fin s1) t) →
  returns (if ipc_ep_closed (ip s1) t then Ret (Err IRIS_ERR_CLOSED, put_closed t false s1) else Ret (Ok 0, fin s1))
    (λ '(r, s'), resumed t s r s').
Proof.
  intros A1 F1 C1 Hc A2 F2 C2. unfold resumed. rewrite Hc. destruct (ipc_ep_closed (ip s) t).
  - split; [apply acct_sch; [exact A1|reflexivity]|]. split; [etransitivity; [exact F1|apply r1_closed]|]. by split.
  - split; [exact A2|]. split; [etransitivity; [exact F1|exact F2]|]. by split.
Qed.

Lemma unheld f t s :
  (∀ e, ep_cap_obj (f e) = ep_cap_obj e ∧ ep_cap_src_cn (f e) = ep_cap_src_cn e ∧ sc_held (f e) = None ∧
        ep_reply_obj (f e) = ep_reply_obj e ∧ pending_kreply (f e) = pending_kreply e) →
  ∀ o, cnt (held (upd_th t f s) t) o + cnt (olist (sc_held (th s t))) o = cnt (held s t) o.
Proof.
  intros Hf o. unfold held, upd_th, sctx. cbn [th ip with_th]. rewrite upd_fn_same.
  destruct (Hf (th s t)) as (-> & -> & -> & -> & ->). cnt_lia.
Qed.

Lemma send_complete_spec t s :
  acct W [] [] s → t ∈ L W → ep_cap_obj (th s t) = None → ep_reply_obj (th s t) = None → pending_kreply (th s t) = None →
  returns (ep_send_complete t s) (λ '(r, s'), resumed t s r s').
Proof.
  intros Ha Ht H1 H2 H3. unfold ep_send_complete. apply returns_bind.
  eapply returns_mono; [apply (clear_ref (sc_held (th s t)) t (put_held None) s Ha Ht); [done|by apply unheld|]|].
  { unfold helda. cbn. by rewrite upd_fn_same. }
  intros s1 (A1 & F1 & K1). cbv zeta. set (s2 := upd_th t (put_held None) s1) in *. fold (unsrc s2 t).
  assert (th s2 t = put_held None (th s t) ∧ ip s2 = ip s) as [T2 I2] by (unfold s2; cbn; rewrite upd_fn_same, K1; done).
  apply returns_bind. eapply returns_mono; [apply (unsrc_spec t s2 A1 Ht)|]. intros s3 (A3 & F3 & I3 & i & T3).
  assert (clean (th s3 t)) as C3 by (rewrite T3, T2; by split_and!).
  apply (resumed_intro t s s3 (λ s, s)); [exact A3|etransitivity; [exact F1|exact F3]|exact C3|by rewrite I3, I2|exact A3|reflexivity|exact C3].
Qed.

Lemma unstage_clears t s s' : ep_recv_reply_unstage t s = Ret s' → ep_reply_obj (th s' t) = None.
Proof.
  unfold ep_recv_reply_unstage. destruct (ep_reply_obj (th s t)) as [rp|] eqn:Hr; [|by intros [= <-]].
  unfold rel, do_kc, kreply_unstage. destruct (_ && _); (destruct (release rp _) as [κ| |]; [|done..]); cbn; intros [= <-]; cbn; by rewrite upd_fn_same.
Qed.

Lemma recv_complete_spec t s :
  acct W [] [] s → t ∈ L W → ep_cap_obj (th s t) = None → ep_cap_src_cn (th s t) = None → pending_kreply (th s t) = None →
  returns (ep_recv_complete t s) (λ '(r, s'), resumed t s r s' ∧
    (r = Ok 0 → sc_ret (th s' t) = ipc_msg_store (msg s t) (sc_ret (th s t)))).
Proof.
  intros Ha Ht H1 H2 H3. unfold ep_recv_complete. set (f := λ e, put_slot 0 (put_held None e)). apply returns_bind.
  eapply returns_mono; [apply (clear_ref (sc_held (th s t)) t f s Ha Ht); [done|by apply unheld|]|].
  { unfold helda. cbn. by rewrite upd_fn_same. }
  intros s1 (A1 & F1 & K1). cbv zeta. set (s2 := upd_th t f s1) in *.
  assert (th s2 t = f (th s t) ∧ ip s2 = ip s) as [T2 I2] by (unfold s2; cbn; rewrite upd_fn_same, K1; done).
  pose proof (unstage_spec W HW [] [] s2 t A1 Ht) as Hu. apply returns_bind.
  destruct (ep_recv_reply_unstage t s2) as [s3| |] eqn:Hun; [|exact Hu..]. destruct Hu as (A3 & [R1 (a & b & c & R2) [R3 R3'] _ R5] & S3).
  assert (rframe1 t s2 s3) as F3.
  { split; [exact R1|rewrite R2; done|rewrite R3; unfold msg; rewrite R3; by split_and!|exact S3]. }
  assert (clean (th s3 t)) as C3.
  { pose proof (unstage_clears t s2 s3 Hun) as Hr. rewrite R2, T2 in Hr |- *. by split_and!. }
  assert (msg s3 = msg s) as Hm by (unfold msg; rewrite R3, I2; done).
  assert (ipc_ep_closed (ip s3) t = ipc_ep_closed (ip s) t) as Hcl by (rewrite R3, I2; done).
  pose proof (resumed_intro t s s3 (store_msg t)) as Hri. cbv zeta.
  assert (returns (if ipc_ep_closed (ip s3) t then Ret (Err IRIS_ERR_CLOSED, put_closed t false s3) else Ret (Ok 0, store_msg t s3))
    (λ '(r, s'), resumed t s r s')) as Hres.
  { apply Hri; [exact A3|etransitivity; [exact F1|exact F3]|exact C3|exact Hcl| |by apply r1_field|].
    - apply acct_field; [by intros e|exact A3].
    - cbn. rewrite upd_fn_same. exact C3. }
  cbn [returns]. destruct (ipc_ep_closed (ip s3) t); (split; [exact Hres|]); [done|]. intros _. cbn. rewrite upd_fn_same. cbn.
  by rewrite Hm, R2, T2.
Qed.

Lemma call_complete_spec t s :
  acct W [] [] s → t ∈ L W → ep_cap_obj (th s t) = None → ep_reply_obj (th s t) = None →
  returns (ep_call_complete t s) (λ '(r, s'), resumed t s r s' ∧
    (r = Ok 0 → sc_ret (th s' t) = ipc_msg_store_reply (msg s t) (sc_ret (th s t)))).
Proof.
  intros Ha Ht H1 H2. unfold ep_call_complete. fold (unsrc s t). apply returns_bind.
  eapply returns_mono; [apply (unsrc_spec t s Ha Ht)|]. intros s1 (A1 & F1 & I1 & i & T1). apply returns_bind.
  eapply returns_mono; [apply (clear_ref (sc_held (th s1 t)) t (put_held None) s1 A1 Ht); [done|by apply unheld|]|].
  { unfold helda. cbn. by rewrite upd_fn_same. }
  intros s2 (A2 & F2 & K2). cbv zeta. set (s3 := upd_th t (put_held None) s2) in *.
  assert (th s3 t = put_held None (th s1 t) ∧ ip s3 = ip s1) as [T3 I3] by (unfold s3; cbn; rewrite upd_fn_same, K2; done).
  set (f := λ e, put_slot 0 (put_pending None e)). apply returns_bind.
  eapply returns_mono; [apply (clear_ref (pending_kreply (th s3 t)) t f s3 A2 Ht); [done|..]|].
  { intros o. unfold held, upd_th, sctx. cbn [th ip with_th]. rewrite upd_fn_same. unfold f.
    cbn [put_slot put_pending ep_cap_obj ep_cap_src_cn sc_held ep_reply_obj pending_kreply]. cnt_lia. }
  { unfold helda. cbn. by rewrite upd_fn_same. }
  intros s4 (A4 & F4 & K4). set (s5 := upd_th t f s4) in *.
  assert (th s5 t = f (th s3 t) ∧ ip s5 = ip s) as [T5 I5] by (unfold s5; cbn [th ip upd_th with_th]; rewrite upd_fn_same, K4; cbn [th ip with_kc]; rewrite I3, I1; done).
  assert (clean (th s5 t)) as C5 by (rewrite T5, T3, T1; by split_and!).
  set (fin := λ s, upd_th t (λ e, put_ret (ipc_msg_store_reply (msg s t) (sc_ret e)) e) s).
  assert (returns (if ipc_ep_closed (ip s5) t then Ret (Err IRIS_ERR_CLOSED, put_closed t false s5) else Ret (Ok 0, fin s5))
    (λ '(r, s'), resumed t s r s')) as Hres.
  { apply (resumed_intro t s s5 fin); [exact A4| |exact C5|by rewrite I5| |by apply r1_field|].
    - etransitivity; [exact F1|]. etransitivity; [exact F2|exact F4].
    - apply acct_field; [by intros e|exact A4].
    - unfold fin. cbn. rewrite upd_fn_same. exact C5. }
  change (upd_th t (λ e, put_ret (ipc_msg_store_reply (msg s5 t) (sc_ret e)) e) s5) with (fin s5).
  destruct (ipc_ep_closed (ip s5) t); (split; [exact Hres|]); [done|]. intros _. unfold fin. cbn [th upd_th with_th].
  rewrite upd_fn_same. cbn [put_ret sc_ret]. assert (msg s5 t = msg s t) as -> by (unfold msg; by rewrite I5). rewrite T5, T3, T1. done.
Qed.
End resume.
