(* ===== verification/EndpointSpec.v ===== *)
(** * Endpoints: what the syscalls promise

    The properties of EP_SEND, EP_RECV, EP_CALL, REPLY and of the operations that
    end a wait, each with a concrete kernel it applies to, and the places where the
    code falls short of its own rules. *)

From Stdlib Require Import ZArith Lia.
From stdpp Require Import base numbers gmap list.
From S2P Require Import Prelude Rights Forest Mdb Cdt Kobject Kcnode KcnodeInv KcnodeInstall Cspace IpcCap KcnodeBoot.
From S2P Require Import Kschedctx Runq RunqInv RunqSpec SchedSpec Wq Ipc Knotification KnotifSpec IpcMsg.
From S2P Require Import Endpoint EndpointInv EndpointQueue EndpointSend EndpointRecv EndpointReply EndpointCall.
From S2P Require Import EndpointClose EndpointCancel EndpointResume.
Local Open Scope Z_scope.
Implicit Types (s : ek) (t u o ep rp : N) (κ : kstate) (q : N → list N).

(** ** A client and a server

    Thread 4 has CNode 1 as its root, with the endpoint 7 at CPtr 5 (badge 9);
    thread 5 has CNode 2, with the endpoint at CPtr 1 and the reply object 8 at
    CPtr 3.  The kernel is built by running the capability layer. *)

Definition call_cspace : kstate :=
  put 2 3 8 RW 0 None (put 1 5 7 15 9 None (kobject_init 8 KOBJ_REPLY 0 deep_cspace)).

Lemma call_cspace_kinv : kinv (hold (hold boot_hl 2 1) 8 1) none_held call_cspace.
Proof.
  apply put_kinv; [|vm_compute; reflexivity]. apply put_kinv; [|vm_compute; reflexivity].
  apply kobject_init_kinv; [exact deep_cspace_kinv|vm_compute; reflexivity|reflexivity|exact I|done].
Qed.

Definition regs : nat → Z := λ n, if decide (n = 8%nat) then 0 else Z.of_nat n.
Definition mk_task (root : N) (held reply pend : option N) (slot : Z) (re : bool) : ep_task :=
  EpTask (TaskRoot (Some root) 0 0) regs (λ _, 0) re held (Some (IpcFrame (4096 * Z.of_N root) 4096))
    None 0 0 None 0 slot false false reply 3 pend.

(** The thread [t], if any, waits on the endpoint in state [k]. *)
Definition mk_ip (k : ep_state_t) (t : option N) : ipc :=
  let σ := match t with Some t => upd_task t (set_state (blocked_as k)) sched0 | None => sched0 end in
  Ipc σ (λ _, Ntf 0 false 0 None None None None None)
    (λ e, if decide (e = 7%N) then Ep (if t then k else EP_STATE_IDLE) false t t else Ep EP_STATE_IDLE false None None)
    None 0 (λ _, 1) (λ _, None) (λ _, true) (λ _, None) (λ _, 0) (λ _, None) (λ _, None)
    (λ x, if decide (t = Some x) then Some 7%N else None)
    (λ _, Stage 0 [0; 0; 0; 0] 0 0 0 0 9 0 0) (λ _, false) (λ _, false) (λ _, 2).

Definition mk_ek (i : ipc) (e4 e5 : ep_task) (r : KReply) : ek :=
  Ek call_cspace i (λ t, if decide (t = 4%N) then e4 else if decide (t = 5%N) then e5 else mk_task 1 None None None 0 false)
    (λ x, if decide (x = 8%N) then r else Reply None false None None) (λ a, a) [] [].

(** The server waits, with the reply object staged. *)
Definition serving : ek :=
  mk_ek (mk_ip EP_STATE_RECV (Some 5%N)) (mk_task 1 None None None 0 false) (mk_task 2 (Some 7%N) (Some 8%N) None 0 false)
    (Reply None true None None).
(** The client waits to send. *)
Definition sending : ek :=
  mk_ek (mk_ip EP_STATE_SEND (Some 4%N)) (mk_task 1 (Some 7%N) None None 0 false) (mk_task 2 None None None 0 false)
    (Reply None false None None).
(** The client has called and waits for the answer; [woken]: it has it. *)
Definition called_ek (woken : bool) : ek :=
  mk_ek (mk_ip EP_STATE_IDLE None) (mk_task 1 (Some 7%N) None (Some 8%N) 0 woken) (mk_task 2 None None None 0 false)
    (Reply (Some 4%N) false None None).

Definition two_threads (free : bool) : world :=
  World [4%N; 5%N] (if free then hold (hold none_held 1 1) 2 1 else hold (hold (hold none_held 1 1) 2 1) 8 1) none_held.

Lemma two_threads_ok free : world_ok (two_threads free).
Proof.
  split.
  - apply (bool_decide_unpack _). vm_compute. exact I.
  - vm_compute. discriminate.
  - intros o. unfold two_threads. cbn. unfold hold, none_held. destruct free; repeat case_decide; lia.
  - intros o. cbn. unfold none_held. lia.
Qed.

Lemma demo_acct free s l4 l5 :
  kc s = call_cspace → held s 4 = l4 → held s 5 = l5 → helda s 4 = [] → helda s 5 = [] →
  (∀ o, ext (two_threads free) o + (cnt l4 o + (cnt l5 o + 0)) = hold (hold boot_hl 2 1) 8 1 o) →
  acct (two_threads free) [] [] s.
Proof.
  intros Hk E4 E5 F4 F5 Hl. split; rewrite Hk; [|vm_compute; discriminate].
  eapply kinv_ext; [..|exact call_cspace_kinv]; intros o; rewrite cnt_nil; unfold baseL, baseA, two_threads; cbn [L ext exta tot foldr].
  - specialize (Hl o). rewrite E4, E5. cbn [two_threads ext] in Hl. lia.
  - rewrite F4, F5. unfold none_held. reflexivity.
Qed.

Ltac count_refs := intros o; unfold two_threads, boot_hl, none_held; cbn; unfold is1, hold; repeat case_decide; subst; try done; lia.

Lemma serving_acct : acct (two_threads true) [] [] serving.
Proof. apply (demo_acct true _ [] [7%N; 8%N]); [reflexivity..|count_refs]. Qed.
Lemma sending_acct : acct (two_threads false) [] [] sending.
Proof. apply (demo_acct false _ [7%N] []); [reflexivity..|count_refs]. Qed.
Lemma called_acct w : acct (two_threads true) [] [] (called_ek w).
Proof. apply (demo_acct true _ [7%N; 8%N] []); [reflexivity..|count_refs]. Qed.

Definition one_queue (t : option N) : N → list N := λ e, if decide (e = 7%N) then olist t else [].

Lemma mk_ip_qok k (t : option N) :
  (is_Some t → k ≠ EP_STATE_IDLE) → (∀ x, t = Some x → (N.to_nat x < 100)%nat) → qok (mk_ip k t) (one_queue t).
Proof.
  intros Hk Ht. split; unfold one_queue.
  - intros e. cbn. case_decide; [|apply wq_empty]. destruct t as [x|]; [|apply wq_empty]. split; [|done|apply NoDup_singleton].
    constructor. constructor.
  - intros e. cbn. case_decide; [|done]. destruct t; [|done]. cbn. split; [|done]. intros Hi. by destruct Hk.
  - intros e x Hx. case_decide; [|by apply not_elem_of_nil in Hx]. destruct t as [y|]; [|by apply not_elem_of_nil in Hx].
    apply list_elem_of_singleton in Hx as ->. subst e. unfold st. cbn. unfold upd_task. cbn. by rewrite upd_fn_same.
  - intros e x. cbn. destruct (decide (e = 7%N)) as [->|He].
    + destruct t as [y|]; cbn; [rewrite list_elem_of_singleton|split; [by intros ?%not_elem_of_nil|done]].
      case_decide; naive_solver.
    + split; [by intros ?%not_elem_of_nil|]. case_decide; congruence.
  - intros e x Hx. case_decide; [|by apply not_elem_of_nil in Hx]. destruct t as [y|]; [|by apply not_elem_of_nil in Hx].
    apply list_elem_of_singleton in Hx as ->. cbn. split; [lia|by apply Ht].
  - intros e. cbn. by case_decide.
Qed.

Lemma demo_root free s t (cn : N) :
  kc s = call_cspace → cspace_of s t = Some cn → cn = 1%N ∨ cn = 2%N → root_ok (two_threads free) s t.
Proof.
  intros Hk Hc Hn. unfold root_ok. rewrite Hk, Hc. right. destruct Hn as [->| ->].
  - exists (InNode 2 2). split; [vm_compute; reflexivity|done].
  - exists (InNode 1 4). split; [vm_compute; reflexivity|done].
Qed.

Lemma demo_entry free q s t (cn : N) :
  acct (two_threads free) [] [] s → qok (ip s) q → kc s = call_cspace → cspace_of s t = Some cn → cn = 1%N ∨ cn = 2%N →
  t = 4%N ∨ t = 5%N → blocking_ep (ip s) t = None → clean (th s t) → trefs (ip s) t = 2 → task_bound (sch (ip s)) = 100%nat →
  sc_reentry (th s t) = false → (∀ e u, u ∈ q e → root_ok (two_threads free) s u) → at_entry (two_threads free) q s t.
Proof.
  intros Ha Hq Hk Hc Hn Ht Hb Hcl Hr Htb Hre Hroots. split; [exact Ha|exact Hq| |exact Hre|by rewrite Hc|exact Hroots].
  split; [exact Hb|exact Hcl| |rewrite Hr; lia|exact (demo_root free s t cn Hk Hc Hn)].
  rewrite Htb. destruct Ht as [->| ->]; (split; [apply (bool_decide_unpack _); vm_compute; exact I|lia]).
Qed.

Lemma one_queue_in (t x e : N) : x ∈ one_queue (Some t) e → x = t ∧ e = 7%N.
Proof. unfold one_queue. case_decide; [intros ->%list_elem_of_singleton; done|by intros ?%not_elem_of_nil]. Qed.

Lemma serving_entry : at_entry (two_threads true) (one_queue (Some 5%N)) serving 4.
Proof.
  apply (demo_entry true _ _ _ 1); [exact serving_acct| |reflexivity|reflexivity|by left|by left|reflexivity|done|reflexivity|reflexivity|reflexivity|].
  - apply mk_ip_qok; [discriminate|]. intros x [= <-]. vm_compute. lia.
  - intros e u [-> _]%one_queue_in. apply (demo_root true _ _ 2); [reflexivity|reflexivity|by right].
Qed.

Lemma sending_entry : at_entry (two_threads false) (one_queue (Some 4%N)) sending 5.
Proof.
  apply (demo_entry false _ _ _ 2); [exact sending_acct| |reflexivity|reflexivity|by right|by right|reflexivity|done|reflexivity|reflexivity|reflexivity|].
  - apply mk_ip_qok; [discriminate|]. intros x [= <-]. vm_compute. lia.
  - intros e u [-> _]%one_queue_in. apply (demo_root false _ _ 1); [reflexivity|reflexivity|by left].
Qed.

Lemma called_entry : at_entry (two_threads true) (one_queue None) (called_ek false) 5.
Proof.
  apply (demo_entry true _ _ _ 2); [apply called_acct| |reflexivity|reflexivity|by right|by right|reflexivity|done|reflexivity|reflexivity|reflexivity|].
  - apply mk_ip_qok; [by intros [? ?]|done].
  - intros e u. unfold one_queue. case_decide; by intros ?%not_elem_of_nil.
Qed.

(** ** Sending *)



(** ** Receiving *)

(** C4: a receive takes the first message, the pending signals, or waits.  EP_RECV and
    EP_NB_RECV always return.  On success the receiver has, in its registers, the
    message of the first sender, who alone left the queue: a plain sender runs
    again, a caller waits on the reply object the receiver staged, which it
    alone can be answered through, with its scheduling context lent to the receiver
    when that had none; or else the receiver has all the signals pending on its bound
    notification, and they are cleared.  Otherwise it waits at the end of the queue
    (EP_NB_RECV never does) or nothing but its own staging changed.  In every case
    no reference is lost or forged. *)
Theorem sys_ep_recv_refines W q s t arg0 arg1 arg2 :
  world_ok W → at_entry W q s t → senders_ok W q s →
  returns (sys_ep_recv t arg0 arg1 arg2 s) (λ '(r, s'), acct W [] [] s' ∧ recv_result t arg0 arg2 q s r s') ∧
  returns (sys_ep_nb_recv t arg0 arg1 arg2 s) (λ '(r, s'), acct W [] [] s' ∧ recv_result t arg0 arg2 q s r s' ∧ r ≠ Park).
Proof. intros HW He Hs. split; [by apply recv_spec|by apply nb_recv_spec]. Qed.

Lemma sending_senders : senders_ok (two_threads false) (one_queue (Some 4%N)) sending.
Proof.
  intros e u [-> ->]%one_queue_in _. split; [|by split; intros [? ?]|done]. apply (bool_decide_unpack _). vm_compute. exact I.
Qed.

Lemma sys_ep_recv_refines_witness :
  ('(r, s') ← sys_ep_recv 5 1 0 3 sending; Ret (r, sc_ret (th s' 5) IRIS_MSGR_BADGE, st (ip s') 4)) = Ret (Ok 0, 9, TASK_READY) ∧
  returns (sys_ep_recv 5 1 0 3 sending) (λ '(r, s'), acct (two_threads false) [] [] s' ∧
    recv_result 5 1 3 (one_queue (Some 4%N)) sending r s').
Proof.
  split; [vm_compute; reflexivity|].
  exact (proj1 (sys_ep_recv_refines (two_threads false) (one_queue (Some 4%N)) sending 5 1 0 3 (two_threads_ok false)
    sending_entry sending_senders)).
Defined.

(** ** Calling and replying *)

(** C12: a call leaves the caller waiting for its answer, or is refused.  EP_CALL by a
    thread with an IPC buffer, in a system whose waiting receivers are threads with a
    live CSpace, always returns.  Accepted, the caller waits: either in the queue
    as a sender in a call, or on the reply object the first receiver had staged, and
    then that receiver, off the queue and woken, has the message with the badge of the
    invoked capability and the CPtr of the reply object, and the caller's scheduling
    context when it had none.  A refused call leaves the queues and the other threads
    alone, with one exception, which is exactly when that reply object is no
    longer staged or has a caller already: the answer is CLOSED, but the first
    receiver is off the queue and woken with the message, the reply objects being as
    they were.  In every case the reference counts of the kernel objects the capability
    layer holds are exact; references on threads are not counted. *)
Theorem sys_ep_call_refines W q s t arg0 :
  world_ok W → at_entry W q s t → receivers_ok W q s → ipc_buffer (th s t) ≠ None →
  returns (sys_ep_call t arg0 s) (λ '(r, s'), acct W [] [] s' ∧ call_result t arg0 q s r s').
Proof. intros HW He Hr Hb. by apply call_spec. Qed.

Lemma serving_receivers : receivers_ok (two_threads true) (one_queue (Some 5%N)) serving.
Proof.
  intros e u [-> ->]%one_queue_in _. split; [apply (bool_decide_unpack _); vm_compute; exact I|].
  apply (demo_root true _ _ 2); [reflexivity|reflexivity|by right].
Qed.

Lemma sys_ep_call_refines_witness :
  ('(r, s') ← sys_ep_call 4 5 serving; Ret (r, r_caller (rps s' 8%N), st (ip s') 4, attached_handle (msg s' 5))) =
    Ret (Park, Some 4%N, TASK_BLOCKED_REPLY, 3) ∧
  returns (sys_ep_call 4 5 serving) (λ '(r, s'), acct (two_threads true) [] [] s' ∧
    call_result 4 5 (one_queue (Some 5%N)) serving r s').
Proof.
  split; [vm_compute; reflexivity|].
  apply (sys_ep_call_refines (two_threads true) (one_queue (Some 5%N)) serving 4 5 (two_threads_ok true) serving_entry serving_receivers).
  discriminate.
Defined.



(** C35: a woken syscall gives back what it held and leaves the thread clean.  Entered
    again, EP_SEND, EP_RECV and EP_CALL always return, with the error of a closed
    endpoint exactly when the thread was told of it and otherwise with the message in
    the registers; the thread records nothing any more - neither the endpoint nor a
    source CNode nor a reply object - and every reference it recorded is released. *)
Theorem ep_resume_clean W s t arg0 arg1 arg2 :
  world_ok W → acct W [] [] s → t ∈ L W → sc_reentry (th s t) = true → cspace_of s t ≠ None → ep_cap_obj (th s t) = None →
  (ep_reply_obj (th s t) = None → pending_kreply (th s t) = None →
   returns (sys_ep_send t arg0 s) (λ '(r, s'), resumed W t s r s')) ∧
  (ep_cap_src_cn (th s t) = None → pending_kreply (th s t) = None →
   returns (sys_ep_recv t arg0 arg1 arg2 s) (λ '(r, s'), resumed W t s r s' ∧
     (r = Ok 0 → sc_ret (th s' t) = ipc_msg_store (msg s t) (sc_ret (th s t))))) ∧
  (ep_reply_obj (th s t) = None →
   returns (sys_ep_call t arg0 s) (λ '(r, s'), resumed W t s r s' ∧
     (r = Ok 0 → sc_ret (th s' t) = ipc_msg_store_reply (msg s t) (sc_ret (th s t))))).
Proof.
  intros HW Ha Ht Hre Hcs H1. unfold sys_ep_send, sys_ep_recv, sys_ep_call. rewrite !bool_decide_false, Hre by exact Hcs.
  split; [intros; by apply send_complete_spec|]. split; [intros; by apply recv_complete_spec|intros; by apply call_complete_spec].
Qed.

Lemma ep_resume_clean_witness :
  returns (sys_ep_call 4 5 (called_ek true)) (λ '(r, s'), r = Ok 0 ∧ clean (th s' 4)).
Proof.
  assert (returns (sys_ep_call 4 5 (called_ek true)) (λ '(r, s'), resumed (two_threads true) 4 (called_ek true) r s' ∧
    (r = Ok 0 → sc_ret (th s' 4%N) = ipc_msg_store_reply (msg (called_ek true) 4) (sc_ret (th (called_ek true) 4))))) as H.
  { apply (ep_resume_clean (two_threads true) (called_ek true) 4 5 0 0 (two_threads_ok true) (called_acct true));
      [apply (bool_decide_unpack _); vm_compute; exact I|reflexivity|discriminate|reflexivity|reflexivity]. }
  eapply returns_mono; [exact H|]. intros [r s'] [(_ & _ & Hc & Hr) _]. split; [exact Hr|exact Hc].
Defined.

(** ** The end of a wait *)

(** cancelling a wait takes out one thread.  The thread leaves its endpoint's queue
    from wherever it stands, the others keep their order; the capability it was
    sending, its source and the queue's reference on the thread are released, and
    nothing else changes. *)
Theorem kendpoint_cancel_waiter_exact W q e t s :
  world_ok W → acct W [] [] s → qok (ip s) q → t ∈ L W → blocking_ep (ip s) t = Some e →
  returns (kendpoint_cancel_waiter t s) (λ s', acct W [] [] s' ∧
    qok (ip s') (upd_fn q e (without t (q e))) ∧ cancelled t s s').
Proof. intros HW Ha Hq Ht Hb. by apply cancel_waiter_spec. Qed.

Lemma kendpoint_cancel_waiter_exact_witness :
  returns (kendpoint_cancel_waiter 4 sending) (λ s', blocking_ep (ip s') 4%N = None ∧ trefs (ip s') 4%N = 1).
Proof.
  eapply returns_mono; [apply (kendpoint_cancel_waiter_exact (two_threads false) (one_queue (Some 4%N)) 7 4 sending (two_threads_ok false) sending_acct)|].
  - apply sending_entry.
  - apply (bool_decide_unpack _). vm_compute. exact I.
  - reflexivity.
  - intros s' (_ & _ & [H1 _ H2 _ _]). split; [exact H1|]. rewrite H2. reflexivity.
Defined.

(** C33: closing an endpoint lets nobody wait on.  [kendpoint_obj_close] always returns;
    afterwards the queue is empty and stays so, every thread that was in it has been told,
    has lost the capability it was sending, and runs again - or, if it had faulted,
    is handed to the thread killer - and no other thread changed. *)
Theorem kendpoint_obj_close_wakes_all W q e s :
  world_ok W → acct W [] [] s → qok (ip s) q →
  (∀ w, w ∈ q e → w ∈ L W ∧ st (ip s) w ≠ TASK_DEAD ∧ terminal (tasks (sch (ip s)) w) = false) →
  returns (kendpoint_obj_close e s) (λ s', acct W [] [] s' ∧ torn_down q e s s').
Proof. intros HW Ha Hq Hw. by apply obj_close_spec. Qed.

Lemma kendpoint_obj_close_wakes_all_witness :
  returns (kendpoint_obj_close 7 serving) (λ s', st (ip s') 5%N = TASK_READY ∧ ipc_ep_closed (ip s') 5%N = true).
Proof.
  eapply returns_mono; [apply (kendpoint_obj_close_wakes_all (two_threads true) (one_queue (Some 5%N)) 7 serving (two_threads_ok true) serving_acct)|].
  - apply serving_entry.
  - intros w [-> _]%one_queue_in. split; [apply (bool_decide_unpack _); vm_compute; exact I|]. split; [vm_compute; discriminate|reflexivity].
  - intros s' (_ & H). destruct (td_waits _ _ _ _ H 5%N ltac:(left)) as (_ & H1 & _ & H2). split; [exact H2|exact H1].
Defined.

(** C34: revoking a badge expels exactly its senders.  EP_CANCEL_BADGED_SENDS through an
    unbadged capability with the write right removes from the queue exactly the
    senders whose message carries the badge, tells and wakes them, and releases what
    they were sending; the others keep their order and their state, and the number
    returned is the number removed.  Through a badged capability, or on any error,
    nothing but capabilities that died meanwhile changes. *)
Theorem sys_ep_cancel_badged_exact W q s t arg0 b :
  world_ok W → at_entry W q s t →
  (∀ e w, w ∈ q e → w ∈ L W ∧ st (ip s) w ≠ TASK_DEAD ∧ terminal (tasks (sch (ip s)) w) = false) →
  returns (sys_ep_cancel_badged_sends t arg0 b s) (λ '(r, s'), acct W [] [] s' ∧ cancel_result t arg0 b q s r s').
Proof. intros HW He Hw. by apply cancel_badged_spec. Qed.

Lemma sys_ep_cancel_badged_exact_witness :
  ('(r, s') ← sys_ep_cancel_badged_sends 5 1 9 sending; Ret (r, st (ip s') 4)) = Ret (Ok 1, TASK_READY) ∧
  ('(r, s') ← sys_ep_cancel_badged_sends 5 1 8 sending; Ret (r, st (ip s') 4)) = Ret (Ok 0, TASK_BLOCKED_SEND) ∧
  returns (sys_ep_cancel_badged_sends 5 1 9 sending) (λ '(r, s'), acct (two_threads false) [] [] s').
Proof.
  split; [vm_compute; reflexivity|]. split; [vm_compute; reflexivity|].
  eapply returns_mono; [apply (sys_ep_cancel_badged_exact (two_threads false) (one_queue (Some 4%N)) sending 5 1 9 (two_threads_ok false) sending_entry)|].
  - intros e w [-> _]%one_queue_in. split; [apply (bool_decide_unpack _); vm_compute; exact I|]. split; [vm_compute; discriminate|reflexivity].
  - intros [r s'] [H _]. exact H.
Defined.

(** ** Where the code falls short *)

(** A fault can put a sender in a queue of receivers.  When the first receiver of an
    endpoint has staged no reply object, [kendpoint_fault_call] queues the faulting
    thread behind it and calls the whole queue senders: the receiver, still waiting
    to receive, heads a queue of senders.  The next receive takes it for one: it is
    given the receiver's old message, and the receiver is woken with none. *)
Theorem kendpoint_fault_call_mixes_queue :
  let s := upd_th 5 (put_reply None 0) serving in
  qok (ip s) (one_queue (Some 5%N)) ∧
  ('(d, s1) ← kendpoint_fault_call 4 7 (Stage 77 [1; 2; 3; 4] 4 0 0 0 0 0 0) s;
   Ret (d, ep_state (eps (ip s1) 7%N), st (ip s1) 5, st (ip s1) 4, ep_head (eps (ip s1) 7%N), ep_next (ip s1) 5%N)) =
    Ret (true, EP_STATE_SEND, TASK_BLOCKED_RECV, TASK_BLOCKED_SEND, Some 5%N, Some 4%N) ∧
  ('(d, s1) ← kendpoint_fault_call 4 7 (Stage 77 [1; 2; 3; 4] 4 0 0 0 0 0 0) s;
   '(r, s2) ← sys_ep_recv 6 5 0 0 s1;
   Ret (r, st (ip s2) 5, ipc_msg_ready (ip s2) 5%N, label (msg s2 6%N))) = Ret (Ok 0, TASK_READY, false, 0).
Proof.
  split; [apply mk_ip_qok; [discriminate|]; intros x [= <-]; vm_compute; lia|]. vm_compute. split; reflexivity.
Qed.

(** The counts of an object. *)
Definition counts s o : option (Z * Z) := (λ k, (refcount k, active_refs k)) <$> objs (kc s) o.

(** A call refused for want of a buffer keeps what it staged.  A caller without an IPC
    buffer that announces a payload and sends a capability gets an error, and the
    references EP_CALL took on the capability's object and on its source CNode are
    never given back: each such call adds one to their counts.  EP_SEND refuses the
    same message with the counts as they were. *)
Theorem sys_ep_call_leaks_stage :
  let info := iris_mi 0 1 1 16 in
  let args := λ n : nat, if decide (n = 2%nat) then info else if decide (n = 7%nat) then iris_capw 5 1 else 0 in
  let s := upd_th 4 (λ e, EpTask (troot e) args (sc_ret e) false None None None 0 0 None 0 0 false false None 0 None) serving in
  acct (two_threads true) [] [] s ∧ (counts s 7, counts s 1) = (Some (4, 3), Some (2, 1)) ∧
  ('(r, s') ← sys_ep_call 4 5 s; Ret (r, counts s' 7, counts s' 1)) = Ret (Err IRIS_ERR_INVALID_ARG, Some (5, 3), Some (3, 2)) ∧
  ('(r, s') ← sys_ep_send 4 5 s; Ret (r, counts s' 7, counts s' 1)) = Ret (Err IRIS_ERR_INVALID_ARG, counts s 7, counts s 1).
Proof.
  split; [apply (demo_acct true _ [] [7%N; 8%N]); [reflexivity..|count_refs]|]. vm_compute. split_and!; reflexivity.
Qed.

(** A loan is not always returned whole.  When a reply object is closed with a
    caller bound, the caller is woken but its scheduling context stays with the
    borrower, while cancelling the same binding returns it; and when the borrower no
    longer has the context, returning the loan leaves a reference on the borrower
    that nothing gives back. *)
Theorem kreply_loan_left_behind :
  let s := put_sctx 5 (Some 30%N) (upd_rp 8 (λ _, Reply (Some 4%N) false (Some 30%N) (Some 5%N)) (called_ek false)) in
  (s' ← kreply_obj_close 8 s; Ret (st (ip s') 4, ipc_ep_closed (ip s') 4%N, sctx s' 4, sctx s' 5, donated_sc (rps s' 8%N))) =
    Ret (TASK_READY, true, None, Some 30%N, Some 30%N) ∧
  (s' ← kreply_cancel_caller 8 s; Ret (st (ip s') 4, ipc_ep_closed (ip s') 4%N, sctx s' 4, sctx s' 5, donated_sc (rps s' 8%N))) =
    Ret (TASK_READY, true, Some 30%N, None, None) ∧
  (s' ← kreply_return_donation 8 (Some 4%N) (put_sctx 5 None s); Ret (trefs (ip s') 5%N)) = Ret (trefs (ip s) 5%N + 1).
Proof. vm_compute. split_and!; reflexivity. Qed.
