(* ===== verification/Slist.v ===== *)
(** * Singly linked lists edited through a link pointer

    [find_node] is [for (n = head; n; n = n->next) if (p(n)) ...] and [unlink] is
    the walk [while ( *link) { if ( *link == x) { *link = x->next; break; } link =
    &( *link)->next; }].  A list is the [chain] of its link field. *)

From Stdlib Require Import ZArith Lia.
From stdpp Require Import base numbers list sets.
From S2P Require Import Prelude.

Section slist.
Context {A : Type} `{EqDecision A}.
Implicit Types (nx : A → option A) (x y p : A) (h : option A) (l : list A).

Fixpoint find_node (fuel : nat) (P : A → bool) nx h : res (option A) :=
  match fuel with
  | O => NoFuel
  | S fuel =>
      match h with
      | None => Ret None
      | Some x => if P x then Ret (Some x) else find_node fuel P nx (nx x)
      end
  end.

(** [x] after the node [p]. *)
Fixpoint unlink_from (fuel : nat) nx p x : res (A → option A) :=
  match fuel with
  | O => NoFuel
  | S fuel =>
      match nx p with
      | None => Ret nx
      | Some y => if decide (y = x) then Ret (upd_fn nx p (nx x)) else unlink_from fuel nx y x
      end
  end.

(** The new head and the new links. *)
Definition unlink (fuel : nat) nx h x : res (option A * (A → option A)) :=
  match h with
  | None => Ret (None, nx)
  | Some y =>
      if decide (y = x) then Ret (nx x, nx)
      else nx ← unlink_from fuel nx y x; Ret (Some y, nx)
  end.

Lemma find_node_spec P nx h l fuel :
  chain nx h l → length l < fuel → find_node fuel P nx h = Ret (head (filter (λ x, P x = true) l)).
Proof.
  intros Hc. revert fuel. induction Hc as [|x l Hc IH]; intros [|fuel] Hl; simpl in Hl |- *; try lia; [done|].
  destruct (P x) eqn:HP; [by rewrite filter_cons_True|].
  rewrite filter_cons_False by congruence. apply IH. lia.
Qed.

Lemma chain_suffix nx h l x k : chain nx h (l ++ x :: k) → chain nx (Some x) (x :: k).
Proof.
  revert h. induction l as [|y l IH]; intros h Hc; simpl in Hc; inversion Hc as [|? ? Hc']; subst; [done|]. by eapply IH.
Qed.

(** A walk that ends visits no node twice. *)
Lemma chain_nodup nx h l : chain nx h l → NoDup l.
Proof.
  intros Hc. induction Hc as [|x l Hc IH]; constructor; [|done]. intros (l1 & l2 & ->)%list_elem_of_split.
  assert (chain nx (Some x) (x :: l1 ++ x :: l2)) as H1 by (by constructor).
  pose proof (chain_suffix nx (nx x) l1 x l2 Hc) as H2. pose proof (chain_fun _ _ _ _ H1 H2) as E.
  apply (f_equal length) in E. simpl in E. rewrite length_app in E. simpl in E. lia.
Qed.

Lemma filter_head_in {P : A → bool} {l x} : head (filter (λ x, P x = true) l) = Some x → x ∈ l ∧ P x = true.
Proof.
  intros H. destruct (filter (λ x, P x = true) l) as [|y k] eqn:E; [done|]. injection H as ->.
  assert (x ∈ filter (λ x, P x = true) l) as [? ?]%list_elem_of_filter by (rewrite E; left). done.
Qed.

Lemma filter_head_none {P : A → bool} {l} : head (filter (λ x, P x = true) l) = None → ∀ x, x ∈ l → P x = false.
Proof.
  intros H x Hx. destruct (P x) eqn:E; [|done]. assert (x ∈ filter (λ x, P x = true) l) as Hin by (by apply list_elem_of_filter).
  destruct (filter _ l); [by apply not_elem_of_nil in Hin|done].
Qed.

Lemma filter_other x l : x ∉ l → filter (λ y, y ≠ x) l = l.
Proof.
  induction l as [|z l IH]; [done|]. intros [Hz Hl]%not_elem_of_cons. rewrite filter_cons_True by done. by rewrite IH.
Qed.

Lemma unlink_from_spec nx p x l fuel :
  chain nx (nx p) l → NoDup (p :: l) → length l < fuel →
  ∃ nx', unlink_from fuel nx p x = Ret nx' ∧ chain nx' (nx' p) (filter (λ y, y ≠ x) l) ∧
    (∀ y, y ∉ p :: l → nx' y = nx y) ∧ (x ∈ l → nx' x = nx x) ∧ (x ∉ l → nx' = nx).
Proof.
  revert p fuel. induction l as [|z l IH]; intros p fuel Hc Hnd Hl; (destruct fuel as [|fuel]; [simpl in Hl; lia|]); simpl.
  - inversion Hc as [E|]; subst. exists nx. split; [done|]. split; [rewrite <-E; constructor|]. set_solver.
  - inversion Hc as [|? ? Hc' E]; subst. rewrite <-?E. apply NoDup_cons in Hnd as [Hp Hnd].
    destruct (decide (z = x)) as [->|Hz].
    + apply NoDup_cons in Hnd as [Hx _]. exists (upd_fn nx p (nx x)). split; [done|].
      rewrite filter_cons_False, upd_fn_same by (by intros ?).
      split; [|split; [intros y Hy; apply upd_fn_other; set_solver|split; [intros _; apply upd_fn_other; set_solver|set_solver]]].
      assert (filter (λ y, y ≠ x) l = l) as -> by (by apply filter_other).
      apply (chain_ext nx); [|done]. intros y Hy. symmetry. apply upd_fn_other. set_solver.
    + destruct (IH z fuel Hc' Hnd) as (nx' & -> & Hch & Hoff & Hx & Hno); [simpl in Hl; lia|].
      exists nx'. split; [done|]. rewrite filter_cons_True by done. rewrite (Hoff p) by set_solver. rewrite <-E.
      split; [by constructor|]. split; [intros y Hy; apply Hoff; set_solver|].
      split; [intros Hin; apply Hx; set_solver|intros Hin; apply Hno; set_solver].
Qed.

Lemma unlink_removes nx h x l fuel :
  chain nx h l → NoDup l → length l < fuel →
  ∃ h' nx', unlink fuel nx h x = Ret (h', nx') ∧ chain nx' h' (filter (λ y, y ≠ x) l) ∧
    (∀ y, y ∉ l → nx' y = nx y) ∧ (x ∈ l → nx' x = nx x) ∧ (x ∉ l → nx' = nx ∧ h' = h).
Proof.
  intros Hc Hnd Hl. unfold unlink. inversion Hc as [|z l' Hc']; subst.
  - exists None, nx. split; [done|]. split; [constructor|]. set_solver.
  - destruct (decide (z = x)) as [->|Hz].
    + exists (nx x), nx. split; [done|]. rewrite filter_cons_False by (by intros ?).
      apply NoDup_cons in Hnd as [Hx _].
      assert (filter (λ y, y ≠ x) l' = l') as -> by (by apply filter_other).
      split; [done|]. set_solver.
    + destruct (unlink_from_spec nx z x l' fuel Hc' Hnd) as (nx' & -> & Hch & Hoff & Hx & Hno); [simpl in Hl; lia|].
      exists (Some z), nx'. split; [done|]. rewrite filter_cons_True by done. split; [by constructor|].
      split; [done|]. split; [intros Hin; apply Hx; set_solver|]. intros Hin. split; [apply Hno; set_solver|done].
Qed.
End slist.
