(* ===== verification/Paging.v ===== *)
(** * Page tables (kernel/arch/x86_64/paging.c)

    Physical memory is a function from the address of an aligned 64-bit word to the
    word; [phys_to_ptr] is the identity, since the kernel window shows the same
    memory at another address.  A table is the physical address of its page and
    [tbl[idx]] is [rd m tbl idx].  The functions that only edit a walk are functions
    of the memory; those that take pages from or give pages to the allocator, or
    invalidate a translation, have the state [pgs].  Interrupt masking and the
    contents of control registers are not modelled. *)

From Stdlib Require Import ZArith Lia.
From stdpp Require Import base numbers list.
From S2P Require Import Prelude Pmm.
Local Open Scope Z_scope.

(** ** Entries (kernel/include/iris/paging.h) *)

Definition PAGE_PRESENT : Z := 2 ^ 0.
Definition PAGE_WRITABLE : Z := 2 ^ 1.
Definition PAGE_USER : Z := 2 ^ 2.
Definition PAGE_PWT : Z := 2 ^ 3.
Definition PAGE_PCD : Z := 2 ^ 4.
Definition PAGE_HUGE : Z := 2 ^ 7.
Definition PAGE_NX : Z := 2 ^ 63.
Definition PAGE_PA_MASK : Z := 0x000FFFFFFFFFF000.
Definition PAGE_PA_MASK_2M : Z := 0x000FFFFFFFE00000.

Definition PAGE_SIZE : Z := 4096.
Definition HUGE_SIZE : Z := 2 * 1024 * 1024.
Definition ENTRIES : Z := 512.
Definition KERNEL_VIRT_BASE : Z := 0xFFFFFFFF80000000.
Definition KERNEL_PHYS_WINDOW_BASE : Z := 0xFFFF800000000000.
Definition KERNEL_PHYS_BASE : Z := 0x200000.
Definition KERNEL_VIRT_TEXT : Z := KERNEL_VIRT_BASE + KERNEL_PHYS_BASE.
Definition USER_SHARED_PML4_INDEX : Z := 0.
Definition USER_PRIVATE_PML4_INDEX : Z := 1.
Definition USER_PRIVATE_BASE : Z := 0x0000008000000000.
Definition USER_SPACE_TOP : Z := 0x0000800000000000.
Definition IDENTITY_MAP_END : Z := 64 * 1024 * 1024.
Definition PHYS_WINDOW_END : Z := 4 * 1024 * 1024 * 1024.

Definition PML4_IDX (v : Z) : Z := Z.land (Z.shiftr v 39) 0x1FF.
Definition PDPT_IDX (v : Z) : Z := Z.land (Z.shiftr v 30) 0x1FF.
Definition PD_IDX (v : Z) : Z := Z.land (Z.shiftr v 21) 0x1FF.
Definition PT_IDX (v : Z) : Z := Z.land (Z.shiftr v 12) 0x1FF.

(** [e & flag] as a condition, and the address in an entry. *)
Definition has (e flag : Z) : bool := negb (Z.land e flag =? 0).
Definition pa (e : Z) : Z := Z.land e PAGE_PA_MASK.

(** ** Memory *)

Abbreviation memory := (Z → Z).
Implicit Types (m : memory) (virt : Z).

Definition rd m (tbl idx : Z) : Z := m (tbl + 8 * idx).
Definition wr (tbl idx v : Z) m : memory := upd_fn m (tbl + 8 * idx) v.
Definition zero_table (tbl : Z) m : memory := for_up ENTRIES (λ i m, wr tbl i 0 m) m.

(** ** Walks that only read *)

Definition ACCESS : Z := Z.lor PAGE_PRESENT (Z.lor PAGE_WRITABLE PAGE_USER).

(** [None] is -1; [Some flags] is 0 with [*out_flags = flags]. *)
Definition paging_query_access_root m cr3 virt : option Z :=
  let effective := ACCESS in
  let e := rd m cr3 (PML4_IDX virt) in
  if negb (has e PAGE_PRESENT) then None else
  let effective := Z.land effective (Z.land e ACCESS) in
  let e := rd m (pa e) (PDPT_IDX virt) in
  if negb (has e PAGE_PRESENT) then None else
  let effective := Z.land effective (Z.land e ACCESS) in
  let e := rd m (pa e) (PD_IDX virt) in
  if negb (has e PAGE_PRESENT) then None else
  let effective := Z.land effective (Z.land e ACCESS) in
  if has e PAGE_HUGE then Some effective else
  let e := rd m (pa e) (PT_IDX virt) in
  if negb (has e PAGE_PRESENT) then None else
  Some (Z.land effective (Z.land e ACCESS)).

Definition paging_query_access_in m cr3 virt : option Z :=
  if cr3 =? 0 then None else paging_query_access_root m cr3 virt.

(** The page table that serves [virt], if the walk reaches one. *)
Definition walk_pt m cr3 virt : option Z :=
  let e := rd m cr3 (PML4_IDX virt) in
  if negb (has e PAGE_PRESENT) || has e PAGE_HUGE then None else
  let e := rd m (pa e) (PDPT_IDX virt) in
  if negb (has e PAGE_PRESENT) || has e PAGE_HUGE then None else
  let e := rd m (pa e) (PD_IDX virt) in
  if negb (has e PAGE_PRESENT) || has e PAGE_HUGE then None else
  Some (pa e).

(** [reg] is the register CR3. *)
Definition read_cr3_phys (reg : Z) : Z := Z.land reg PAGE_PA_MASK.

Definition paging_virt_to_phys m (reg : Z) virt : Z :=
  let e := rd m (read_cr3_phys reg) (PML4_IDX virt) in
  if negb (has e PAGE_PRESENT) then 0 else
  let e := rd m (pa e) (PDPT_IDX virt) in
  if negb (has e PAGE_PRESENT) then 0 else
  let e := rd m (pa e) (PD_IDX virt) in
  if negb (has e PAGE_PRESENT) then 0 else
  if has e PAGE_HUGE then Z.lor (Z.land e PAGE_PA_MASK_2M) (Z.land virt 0x1FFFFF) else
  let e := rd m (pa e) (PT_IDX virt) in
  if negb (has e PAGE_PRESENT) then 0 else
  Z.lor (pa e) (Z.land virt 0xFFF).

(** The same walk from a given root. *)
Definition paging_virt_to_phys_in m cr3 virt : Z :=
  if cr3 =? 0 then 0 else
  let e := rd m cr3 (PML4_IDX virt) in
  if negb (has e PAGE_PRESENT) then 0 else
  let e := rd m (pa e) (PDPT_IDX virt) in
  if negb (has e PAGE_PRESENT) then 0 else
  let e := rd m (pa e) (PD_IDX virt) in
  if negb (has e PAGE_PRESENT) then 0 else
  if has e PAGE_HUGE then Z.lor (Z.land e PAGE_PA_MASK_2M) (Z.land virt 0x1FFFFF) else
  let e := rd m (pa e) (PT_IDX virt) in
  if negb (has e PAGE_PRESENT) then 0 else
  Z.lor (pa e) (Z.land virt 0xFFF).

(** 3, 2, 1: the table that is missing; 0: none; -1: no table fits. *)
Definition paging_missing_level_in m cr3 virt : Z :=
  if cr3 =? 0 then -1 else
  let e := rd m cr3 (PML4_IDX virt) in
  if negb (has e PAGE_PRESENT) then 3 else
  let e := rd m (pa e) (PDPT_IDX virt) in
  if negb (has e PAGE_PRESENT) then 2 else
  if has e PAGE_HUGE then -1 else
  let e := rd m (pa e) (PD_IDX virt) in
  if negb (has e PAGE_PRESENT) then 1 else
  if has e PAGE_HUGE then -1 else
  0.

(** ** Edits of a walk *)

(** The table and the index at which a level is missing. *)
Definition missing_place m cr3 virt (level : Z) : Z * Z :=
  if level =? 3 then (cr3, PML4_IDX virt) else
  let pdpt := pa (rd m cr3 (PML4_IDX virt)) in
  if level =? 2 then (pdpt, PDPT_IDX virt) else
  (pa (rd m pdpt (PDPT_IDX virt)), PD_IDX virt).

Definition paging_install_table_in cr3 virt (table_phys flags : Z) m : Z * memory :=
  if (cr3 =? 0) || (table_phys =? 0) || negb (Z.land table_phys 0xFFF =? 0) then (-1, m) else
  let level := paging_missing_level_in m cr3 virt in
  if 0 <? level then
    let '(tbl, idx) := missing_place m cr3 virt level in
    (level, wr tbl idx (Z.lor (Z.lor (pa table_phys) flags) PAGE_PRESENT) m)
  else (level, m).

(** The descent of [paging_detach_table_in]: [cur] levels above the one to clear. *)
Fixpoint detach_walk (n : nat) (cur : Z) m virt (tbl idx : Z) : option (Z * Z) :=
  match n with
  | O => Some (tbl, idx)
  | S n =>
      let e := rd m tbl idx in
      if negb (has e PAGE_PRESENT) || has e PAGE_HUGE then None else
      detach_walk n (cur - 1) m virt (pa e) (if cur =? 3 then PDPT_IDX virt else PD_IDX virt)
  end.

Definition paging_detach_table_in cr3 virt (level table_phys : Z) m : Z * memory :=
  if (cr3 =? 0) || (table_phys =? 0) || (level <? 1) || (3 <? level) then (-1, m) else
  match detach_walk (Z.to_nat (3 - level)) 3 m virt cr3 (PML4_IDX virt) with
  | None => (-1, m)
  | Some (tbl, idx) =>
      let e := rd m tbl idx in
      if has e PAGE_PRESENT && negb (has e PAGE_HUGE) && (pa e =? pa table_phys)
      then (0, wr tbl idx 0 m) else (-1, m)
  end.

Definition paging_map_strict_in cr3 virt (phys flags : Z) m : Z * memory :=
  if cr3 =? 0 then (-1, m) else
  let level := paging_missing_level_in m cr3 virt in
  if level =? 0 then
    match walk_pt m cr3 virt with
    | Some pt => (0, wr pt (PT_IDX virt) (Z.lor (Z.lor (pa phys) flags) PAGE_PRESENT) m)
    | None => (-1, m)
    end
  else (level, m).

(** A page becomes a PML4: empty but for what every space shares with the kernel. *)
Definition paging_init_user_pml4 (pml4_phys pml4_page_phys : Z) m : memory :=
  if pml4_page_phys =? 0 then m else
  let m := zero_table pml4_page_phys m in
  let m := wr pml4_page_phys USER_SHARED_PML4_INDEX (rd m pml4_phys USER_SHARED_PML4_INDEX) m in
  for_range 256 ENTRIES (λ i m, wr pml4_page_phys i (rd m pml4_phys i) m) m.

(** ** State with the page allocator and the invalidations made *)

Record pgs := Pgs {
  mem       : memory;
  pml4_phys : Z;                 (* the kernel's own root *)
  pm        : pmm;
  invlpg    : list Z;            (* addresses invalidated on this processor, newest first *)
}.
Implicit Types s : pgs.

Definition with_mem m s : pgs := Pgs m (pml4_phys s) (pm s) (invlpg s).
Definition with_pm p s : pgs := Pgs (mem s) (pml4_phys s) p (invlpg s).
Definition on_mem (f : memory → memory) s : pgs := with_mem (f (mem s)) s.
Definition do_invlpg virt s : pgs := Pgs (mem s) (pml4_phys s) (pm s) (virt :: invlpg s).
Definition put s (p : Z) (i v : Z) : pgs := on_mem (wr p i v) s.

Definition paging_unmap_in cr3 virt s : pgs :=
  match walk_pt (mem s) cr3 virt with
  | None => s
  | Some pt => do_invlpg virt (put s pt (PT_IDX virt) 0)
  end.

Definition paging_flush_table_walk virt s : pgs := do_invlpg virt s.

Definition alloc_table s : res (Z * pgs) :=
  '(page, p) ← pmm_alloc_page (pm s);
  let s := with_pm p s in
  if page =? 0 then Ret (0, s) else Ret (page, on_mem (zero_table page) s).

(** [None] is a null pointer: no memory, or a huge page in the way. *)
Definition get_or_create (table index flags : Z) s : res (option Z * pgs) :=
  let e := rd (mem s) table index in
  '(ok, s) ← (if negb (has e PAGE_PRESENT) then
                '(t, s) ← alloc_table s;
                if t =? 0 then Ret (false, s) else Ret (true, put s table index (Z.lor t flags))
              else Ret (true, put s table index (Z.lor e (Z.land flags (Z.lor PAGE_USER PAGE_WRITABLE)))));
  if ok : bool then
    let e := rd (mem s) table index in
    Ret (if has e PAGE_HUGE then None else Some (pa e), s)
  else Ret (None, s).

Definition tbl_flags (flags : Z) : Z :=
  let f := Z.lor PAGE_PRESENT PAGE_WRITABLE in if has flags PAGE_USER then Z.lor f PAGE_USER else f.

Definition paging_map_root (root_phys virt phys flags : Z) s : res (Z * pgs) :=
  '(o, s) ← get_or_create root_phys (PML4_IDX virt) (tbl_flags flags) s;
  match o with
  | None => Ret (-1, s)
  | Some pdpt =>
      '(o, s) ← get_or_create pdpt (PDPT_IDX virt) (tbl_flags flags) s;
      match o with
      | None => Ret (-1, s)
      | Some pd =>
          '(o, s) ← get_or_create pd (PD_IDX virt) (tbl_flags flags) s;
          match o with
          | None => Ret (-1, s)
          | Some pt => Ret (0, put s pt (PT_IDX virt) (Z.lor (Z.lor (pa phys) flags) PAGE_PRESENT))
          end
      end
  end.

Definition paging_map (virt phys flags : Z) s : res pgs :=
  '(_, s) ← paging_map_root (pml4_phys s) virt phys flags s; Ret s.

Definition paging_map_checked_in cr3 (virt phys flags : Z) s : res (Z * pgs) :=
  if cr3 =? 0 then Ret (-1, s) else paging_map_root cr3 virt phys flags s.

Definition paging_map_huge (virt phys flags : Z) s : res pgs :=
  '(o, s) ← get_or_create (pml4_phys s) (PML4_IDX virt) (tbl_flags flags) s;
  match o with
  | None => Ret s
  | Some pdpt =>
      '(o, s) ← get_or_create pdpt (PDPT_IDX virt) (tbl_flags flags) s;
      match o with
      | None => Ret s
      | Some pd =>
          Ret (put s pd (PD_IDX virt)
                 (Z.lor (Z.lor (Z.lor (Z.land phys PAGE_PA_MASK_2M) flags) PAGE_PRESENT) PAGE_HUGE))
      end
  end.

Definition paging_create_user_space s : res (Z * pgs) :=
  '(p, q) ← pmm_alloc_pages 1 (pm s);
  let s := with_pm q s in
  if p =? 0 then Ret (0, s) else Ret (p, on_mem (paging_init_user_pml4 (pml4_phys s) p) s).

Definition free_page (p : Z) s : res pgs := q ← pmm_free_page p (pm s); Ret (with_pm q s).

Fixpoint destroy_pt_level (level : nat) (table_phys : Z) s : res pgs :=
  match level with
  | O | S O => free_page table_phys s
  | S level =>
      s ← for_up ENTRIES (λ i r,
            s ← r;
            let e := rd (mem s) table_phys i in
            if negb (has e PAGE_PRESENT) then Ret s
            else if has e PAGE_HUGE then Ret s
            else s ← destroy_pt_level level (pa e) s; Ret (put s table_phys i 0)) (Ret s);
      free_page table_phys s
  end.

Definition paging_destroy_user_space_from cr3 (pml4_pooled : bool) s : res pgs :=
  if cr3 =? 0 then Ret s else
  let root := rd (mem s) cr3 USER_PRIVATE_PML4_INDEX in
  s ← (if has root PAGE_PRESENT then
         s ← destroy_pt_level 3 (pa root) s; Ret (put s cr3 USER_PRIVATE_PML4_INDEX 0)
       else Ret s);
  if pml4_pooled then Ret s else free_page cr3 s.

Definition paging_destroy_user_space cr3 s : res pgs := paging_destroy_user_space_from cr3 false s.
