(* ===== verification/PagingInv.v ===== *)
(** * Walks as paths

    [ix d va] is the index of [va] at depth [d] of a walk and [pre d va] the indices
    above it; [tab m c d va] is the table a walk from root [c] reaches at depth [d]
    and [ent m c d va] the entry it reads there.  [paging_wf] says that the tables
    that serve user addresses are not shared: no table is at two places of one walk
    or in the walks of two roots.  Then an entry is on exactly the paths of the
    addresses under it, which is what every edit needs ([edit_other], [edit_same]). *)

From Stdlib Require Import ZArith Lia.
From stdpp Require Import base numbers list.
From S2P Require Import Prelude Pmm Paging.
Local Open Scope Z_scope.

Implicit Types (m : memory) (va c t : Z) (d k : nat).

(** ** Indices and prefixes *)

Definition sh d : Z := 39 - 9 * Z.of_nat d.
Definition ix d va : Z := Z.land (Z.shiftr va (sh d)) 511.
Definition pre d va : Z := (va mod 2 ^ 48) / 2 ^ (48 - 9 * Z.of_nat d).

Lemma ix_arith d va : (d ≤ 3)%nat → ix d va = (va / 2 ^ sh d) mod 512.
Proof.
  intros Hd. unfold ix, sh. change 511 with (Z.ones 9).
  rewrite Z.land_ones, Z.shiftr_div_pow2 by lia. reflexivity.
Qed.

Lemma ix_range d va : (d ≤ 3)%nat → 0 ≤ ix d va < 512.
Proof. intros Hd. rewrite ix_arith by done. apply Z.mod_pos_bound. lia. Qed.

Lemma ix_mod48 d va : (d ≤ 3)%nat → ix d va = (va mod 2 ^ 48 / 2 ^ sh d) mod 512.
Proof.
  intros Hd. rewrite ix_arith by done. unfold sh.
  replace (2 ^ 48) with (2 ^ (39 - 9 * Z.of_nat d) * 2 ^ (9 + 9 * Z.of_nat d))
    by (rewrite <-Z.pow_add_r by lia; f_equal; lia).
  rewrite Z.rem_mul_r by (apply Z.pow_nonzero || apply Z.pow_pos_nonneg; lia).
  rewrite (Z.mul_comm (2 ^ (39 - 9 * Z.of_nat d)) (_ mod _)), Z.div_add by (apply Z.pow_nonzero; lia).
  rewrite (Z.div_small (va mod _)), Z.add_0_l by (apply Z.mod_pos_bound; apply Z.pow_pos_nonneg; lia).
  replace (2 ^ (9 + 9 * Z.of_nat d)) with (512 * 2 ^ (9 * Z.of_nat d))
    by (change 512 with (2 ^ 9); rewrite <-Z.pow_add_r by lia; reflexivity).
  rewrite Z.rem_mul_r by (try apply Z.pow_pos_nonneg; lia).
  rewrite (Z.mul_comm 512), Z.mod_add, Z.mod_mod by lia. reflexivity.
Qed.

Lemma pre_S d va : (d ≤ 3)%nat → pre (S d) va = 512 * pre d va + ix d va.
Proof.
  intros Hd. rewrite ix_mod48 by done. unfold pre, sh.
  replace (48 - 9 * Z.of_nat (S d)) with (39 - 9 * Z.of_nat d) by lia.
  replace (2 ^ (48 - 9 * Z.of_nat d)) with (2 ^ (39 - 9 * Z.of_nat d) * 512)
    by (change 512 with (2 ^ 9); rewrite <-Z.pow_add_r by lia; f_equal; lia).
  rewrite <-Z.div_div by (try apply Z.pow_pos_nonneg; lia).
  apply Z.div_mod. lia.
Qed.

Lemma pre_0 va : pre 0 va = 0.
Proof. unfold pre. apply Z.div_small. apply Z.mod_pos_bound. lia. Qed.

Lemma pre_up d va va' : (d ≤ 3)%nat → pre (S d) va = pre (S d) va' → pre d va = pre d va' ∧ ix d va = ix d va'.
Proof.
  intros Hd. rewrite !pre_S by done. pose proof (ix_range d va Hd). pose proof (ix_range d va' Hd). lia.
Qed.

Lemma pre_le d k va va' : (k ≤ d ≤ 4)%nat → pre d va = pre d va' → pre k va = pre k va'.
Proof.
  intros [H1 H2]. induction d as [|d IH]; [by replace k with 0%nat by lia|].
  intros Hp. destruct (decide (k = S d)) as [->|]; [done|]. apply IH; [lia..|].
  apply pre_up in Hp as [? _]; [done|lia].
Qed.

Lemma pre_ix d k va va' : (k < d ≤ 4)%nat → pre d va = pre d va' → ix k va = ix k va'.
Proof. intros H Hp. apply (pre_le d (S k)) in Hp; [|lia]. apply pre_up in Hp as [_ ?]; [done|lia]. Qed.

(** The window [USER_PRIVATE_BASE .. USER_SPACE_TOP), by its first index. *)
Definition user va : Prop := 1 ≤ ix 0 va < 256.

Lemma user_range va : USER_PRIVATE_BASE ≤ va < USER_SPACE_TOP → user va.
Proof.
  unfold USER_PRIVATE_BASE, USER_SPACE_TOP, user. intros H. rewrite ix_arith by lia. unfold sh.
  change (2 ^ (39 - 9 * Z.of_nat 0)) with 549755813888.
  rewrite Z.mod_small; [split; [apply Z.div_le_lower_bound|apply Z.div_lt_upper_bound]; lia|].
  split; [apply Z.div_pos; lia|apply Z.div_lt_upper_bound; lia].
Qed.

Lemma user_pre d va va' : (1 ≤ d ≤ 4)%nat → pre d va = pre d va' → user va → user va'.
Proof. unfold user. intros Hd Hp. by rewrite (pre_ix d 0 va va') by (lia || done). Qed.

(** ** Paths *)

Definition interior (e : Z) : bool := has e PAGE_PRESENT && negb (has e PAGE_HUGE).

Fixpoint tab m c d va : option Z :=
  match d with
  | O => Some c
  | S d => t ← tab m c d va; let e := rd m t (ix d va) in if interior e then Some (pa e) else None
  end.
Definition ent m c d va : option Z := t ← tab m c d va; Some (rd m t (ix d va)).

Lemma tab_S m c d va :
  tab m c (S d) va = t ← tab m c d va; let e := rd m t (ix d va) in if interior e then Some (pa e) else None.
Proof. reflexivity. Qed.

Lemma tab_ent m c d va : tab m c (S d) va = e ← ent m c d va; if interior e then Some (pa e) else None.
Proof. rewrite tab_S. unfold ent. by destruct (tab m c d va). Qed.

Lemma tab_pre m c d va va' : (d ≤ 4)%nat → pre d va = pre d va' → tab m c d va = tab m c d va'.
Proof.
  induction d as [|d IH]; [done|]. intros Hd Hp. apply pre_up in Hp as [H1 H2]; [|lia].
  rewrite !tab_S, (IH ltac:(lia) H1), H2. done.
Qed.

Lemma ent_pre m c d va va' : (d ≤ 3)%nat → pre (S d) va = pre (S d) va' → ent m c d va = ent m c d va'.
Proof.
  intros Hd Hp. apply pre_up in Hp as [H1 H2]; [|lia]. unfold ent. by rewrite (tab_pre m c d va va'), H2 by (lia || done).
Qed.

Definition aligned t : Prop := t mod 4096 = 0.

Lemma pa_aligned e : aligned (pa e).
Proof.
  unfold aligned, pa, PAGE_PA_MASK. change 4096 with (2 ^ 12). rewrite <-Z.land_ones, <-Z.land_assoc by lia.
  change (Z.land 4503599627366400 (Z.ones 12)) with 0. apply Z.land_0_r.
Qed.

Lemma tab_aligned m c d va t : aligned c → tab m c d va = Some t → aligned t.
Proof.
  destruct d as [|d]; [by intros ? [= <-]|]. intros _. rewrite tab_ent. destruct (ent m c d va) as [e|]; [|done].
  simpl. destruct (interior e); [|done]. intros [= <-]. apply pa_aligned.
Qed.

(** Two entries at one address are one entry. *)
Lemma slot_inj t i t' i' :
  aligned t → aligned t' → 0 ≤ i < 512 → 0 ≤ i' < 512 → t + 8 * i = t' + 8 * i' → t = t' ∧ i = i'.
Proof.
  unfold aligned. intros H1 H2 Hi Hi' He.
  pose proof (Z.div_mod t 4096 ltac:(lia)). pose proof (Z.div_mod t' 4096 ltac:(lia)).
  assert (t / 4096 = t' / 4096) by nia. lia.
Qed.

Lemma rd_wr_same t i v m : rd (wr t i v m) t i = v.
Proof. apply upd_fn_same. Qed.
Lemma rd_wr_other t i v m t' i' : t' + 8 * i' ≠ t + 8 * i → rd (wr t i v m) t' i' = rd m t' i'.
Proof. intros H. unfold rd, wr. by rewrite upd_fn_other. Qed.

(** ** Frame: a write off the path of an address does not change its walk *)

Lemma tab_frame m c d va a v :
  (∀ k t, (k < d)%nat → tab m c k va = Some t → t + 8 * ix k va ≠ a) → tab (upd_fn m a v) c d va = tab m c d va.
Proof.
  induction d as [|d IH]; [done|]. intros H. rewrite !tab_S, IH by (intros k t ?; apply H; lia).
  destruct (tab m c d va) as [t|] eqn:Ht; [|done]. simpl. unfold rd.
  by rewrite upd_fn_other by (apply (H d); [lia|done]).
Qed.

Lemma ent_frame m c d va a v :
  (∀ k t, (k ≤ d)%nat → tab m c k va = Some t → t + 8 * ix k va ≠ a) → ent (upd_fn m a v) c d va = ent m c d va.
Proof.
  intros H. unfold ent. rewrite tab_frame by (intros k t ?; apply H; lia).
  destruct (tab m c d va) as [t|] eqn:Ht; [|done]. simpl. unfold rd. by rewrite upd_fn_other by (by apply (H d)).
Qed.

(** ** Well-formed sets of roots *)

Implicit Types R : Z → Prop.

(** The interior entries of user paths point at tables and leave the permissions to
    the leaf. *)
Definition open_entry (e : Z) : Prop :=
  has e PAGE_HUGE = false ∧ has e PAGE_WRITABLE = true ∧ has e PAGE_USER = true.

Record paging_wf m R : Prop := PagingWf {
  wf_root : ∀ c, R c → aligned c ∧ c ≠ 0;
  wf_sep : ∀ c c' d d' va va' t, R c → R c' → (d ≤ 3)%nat → (d' ≤ 3)%nat → user va →
    tab m c d va = Some t → tab m c' d' va' = Some t → c = c' ∧ d = d' ∧ pre d va = pre d va';
  wf_open : ∀ c d va e, R c → (d ≤ 2)%nat → user va →
    ent m c d va = Some e → has e PAGE_PRESENT = true → open_entry e;
}.

Section edits.
Context {m : memory} {R : Z → Prop} (Hwf : paging_wf m R).

(** The entry at depth [d] of the path of [va] from [c], and no other path. *)
Lemma edit_off c c' d k va va' t t' :
  R c → R c' → (d ≤ 3)%nat → (k ≤ 3)%nat → user va →
  tab m c d va = Some t → tab m c' k va' = Some t' → t' + 8 * ix k va' = t + 8 * ix d va →
  c' = c ∧ k = d ∧ pre (S d) va' = pre (S d) va.
Proof.
  intros Hc Hc' Hd Hk Hu Ht Ht' He.
  assert (aligned t ∧ aligned t') as [Ha Ha'] 
    by (split; [apply (tab_aligned m c d va)|apply (tab_aligned m c' k va')]; try done; by apply (wf_root _ _ Hwf)).
  destruct (slot_inj t' (ix k va') t (ix d va)) as [-> Hi]; [done|done|by apply ix_range|by apply ix_range|done|].
  destruct (wf_sep _ _ Hwf c c' d k va va' t) as (-> & -> & Hp); try done.
  split; [done|]. split; [done|]. rewrite !pre_S by done. lia.
Qed.

Lemma edit_other c c' d va va' t v :
  R c → R c' → (d ≤ 3)%nat → user va → tab m c d va = Some t →
  c' ≠ c ∨ pre (S d) va' ≠ pre (S d) va →
  ∀ k, (k ≤ 3)%nat → ent (wr t (ix d va) v m) c' k va' = ent m c' k va'.
Proof.
  intros Hc Hc' Hd Hu Ht Hx k Hk. apply ent_frame. intros k' t' Hk' Ht' He.
  destruct (edit_off c c' d k' va va' t t') as (? & ? & ?); try done; [lia|]. destruct Hx; congruence.
Qed.

(** Above the entry nothing changes, on any path. *)
Lemma edit_above c c' d va va' t v k :
  R c → R c' → (d ≤ 3)%nat → user va → tab m c d va = Some t → (k ≤ d)%nat →
  tab (wr t (ix d va) v m) c' k va' = tab m c' k va'.
Proof.
  intros Hc Hc' Hd Hu Ht Hk. apply tab_frame. intros k' t' Hk' Ht' He.
  destruct (edit_off c c' d k' va va' t t') as (? & ? & ?); try done; lia.
Qed.

Lemma edit_same c d va va' t v :
  R c → (d ≤ 3)%nat → user va → tab m c d va = Some t → pre (S d) va' = pre (S d) va →
  ent (wr t (ix d va) v m) c d va' = Some v.
Proof.
  intros Hc Hd Hu Ht Hp. unfold ent. rewrite (edit_above c c d va va' t v d) by done.
  destruct (pre_up d va' va) as [Hp' Hi]; [done..|].
  rewrite (tab_pre m c d va' va), Ht, Hi by (lia || done). simpl. by rewrite rd_wr_same.
Qed.

Lemma edit_same_above c d va va' t v k :
  R c → (d ≤ 3)%nat → user va → tab m c d va = Some t → (k < d)%nat →
  ent (wr t (ix d va) v m) c k va' = ent m c k va'.
Proof.
  intros Hc Hd Hu Ht Hk. apply ent_frame. intros k' t' Hk' Ht' He.
  destruct (edit_off c c d k' va va' t t') as (? & ? & ?); try done; lia.
Qed.
End edits.

(** ** Edits keep the tables apart *)

(** A write after which every table was a table before, at the same place. *)
Lemma wf_shrink m R m' :
  paging_wf m R →
  (∀ c d va t, R c → (d ≤ 3)%nat → tab m' c d va = Some t → tab m c d va = Some t) →
  (∀ c d va e, R c → (d ≤ 2)%nat → user va → ent m' c d va = Some e → ent m c d va = Some e ∨ has e PAGE_PRESENT = false) →
  paging_wf m' R.
Proof.
  intros [H1 H2 H3] Ht He. split; [done| |].
  - intros c c' d d' va va' t Hc Hc' Hd Hd' Hu T1 T2. eapply H2; eauto.
  - intros c d va e Hc Hd Hu He' Hp. destruct (He c d va e) as [?|?]; [done..| |congruence]. by eapply H3.
Qed.

Lemma tab_ext m m' c va d : (∀ k, (k < d)%nat → ent m' c k va = ent m c k va) → tab m' c d va = tab m c d va.
Proof. destruct d as [|d]; [done|]. intros H. by rewrite !tab_ent, H by lia. Qed.

(** A leaf entry is on no table's path. *)
Lemma wf_leaf m R c va t v :
  paging_wf m R → R c → user va → tab m c 3 va = Some t → paging_wf (wr t (ix 3 va) v m) R.
Proof.
  intros Hwf Hc Hu Ht. apply (wf_shrink m); [done| |].
  - intros c' d va' t' Hc' Hd. by rewrite (edit_above Hwf c c' 3 va va' t v d) by (lia || done).
  - intros c' d va' e Hc' Hd Hu' He. left. rewrite <-He. symmetry.
    apply ent_frame. intros k' t' Hk' Ht' He'.
    destruct (edit_off Hwf c c' 3 k' va va' t t') as (? & ? & ?); try done; lia.
Qed.

Lemma tab_none_below m c k d va : tab m c k va = None → (k ≤ d)%nat → tab m c d va = None.
Proof. intros Hn Hle. induction Hle as [|d Hle IH]; [done|]. by rewrite tab_S, IH. Qed.

(** Clearing an entry cuts what is below it. *)
Lemma cut_tab m R c c' d va va' t k t' :
  paging_wf m R → R c → R c' → (d ≤ 3)%nat → user va → tab m c d va = Some t → (k ≤ 3)%nat →
  tab (wr t (ix d va) 0 m) c' k va' = Some t' → tab m c' k va' = Some t'.
Proof.
  intros Hwf Hc Hc' Hd Hu Ht Hk.
  destruct (decide (c' = c ∧ pre (S d) va' = pre (S d) va)) as [[-> Hp]|Hn].
  - destruct (decide (k ≤ d)%nat) as [Hkd|Hkd]; [by rewrite (edit_above Hwf c c d)|].
    assert (tab (wr t (ix d va) 0 m) c (S d) va' = None) as Hnone
      by (rewrite tab_ent, (edit_same Hwf c d) by done; reflexivity).
    by rewrite (tab_none_below _ _ (S d) k) by (done || lia).
  - rewrite (tab_ext m); [done|]. intros k' Hk'. apply (edit_other Hwf c); try done; [|lia].
    destruct (decide (c' = c)); [right|left]; tauto.
Qed.

Lemma wf_cut m R c d va t :
  paging_wf m R → R c → (d ≤ 3)%nat → user va → tab m c d va = Some t → paging_wf (wr t (ix d va) 0 m) R.
Proof.
  intros Hwf Hc Hd Hu Ht. apply (wf_shrink m); [done| |].
  - intros c' k va' t' Hc' Hk. by apply (cut_tab m R c c' d va va' t k t').
  - intros c' k va' e Hc' Hk Hu'. unfold ent. destruct (tab (wr _ _ _ _) c' k va') as [t'|] eqn:E; [|done].
    rewrite (cut_tab m R c c' d va va' t k t') by (done || lia). simpl. intros [= <-].
    destruct (decide (t' + 8 * ix k va' = t + 8 * ix d va)) as [He|He]; [|left; by rewrite rd_wr_other].
    right. unfold rd, wr. by rewrite He, upd_fn_same.
Qed.

(** ** Entries *)

Lemma has_lor a b f : has (Z.lor a b) f = has a f || has b f.
Proof.
  unfold has. rewrite Z.land_lor_distr_l.
  destruct (Z.eqb_spec (Z.land a f) 0) as [->|Ha]; [by rewrite Z.lor_0_l|].
  destruct (Z.eqb_spec (Z.lor (Z.land a f) (Z.land b f)) 0) as [H|H]; [|done].
  apply Z.lor_eq_0_iff in H as [? _]. done.
Qed.

Lemma pa_lor a b : pa (Z.lor a b) = Z.lor (pa a) (pa b).
Proof. apply Z.land_lor_distr_l. Qed.

Lemma pa_pa e : pa (pa e) = pa e.
Proof. unfold pa. by rewrite <-Z.land_assoc, Z.land_diag. Qed.

Lemma pa_has e f : Z.land f PAGE_PA_MASK = 0 → has (pa e) f = false.
Proof.
  intros H. unfold has, pa. by rewrite <-Z.land_assoc, (Z.land_comm PAGE_PA_MASK), H, Z.land_0_r.
Qed.

(** What the code stores: an address, flags and the present bit. *)
Definition entry (p flags : Z) : Z := Z.lor (Z.lor (pa p) flags) PAGE_PRESENT.
Definition flags_only (flags : Z) : Prop := Z.land flags PAGE_PA_MASK = 0.

Lemma entry_pa p flags : flags_only flags → pa (entry p flags) = pa p.
Proof.
  intros H. unfold entry. rewrite !pa_lor, pa_pa. unfold pa at 2 3. rewrite H.
  change (Z.land PAGE_PRESENT PAGE_PA_MASK) with 0. by rewrite !Z.lor_0_r.
Qed.

Lemma entry_present p flags : has (entry p flags) PAGE_PRESENT = true.
Proof. unfold entry. rewrite has_lor. by rewrite orb_true_r. Qed.

Lemma entry_has p flags f : Z.land f PAGE_PA_MASK = 0 → Z.land PAGE_PRESENT f = 0 →
  has (entry p flags) f = has flags f.
Proof.
  intros H1 H2. unfold entry. rewrite !has_lor, (pa_has p f) by done.
  unfold has at 2. rewrite H2. by rewrite orb_false_r.
Qed.

(** ** Grafting a fresh, empty table *)

Definition page_addr (p : Z) : Prop := pa p = p ∧ p ≠ 0.
Definition empty_table m (p : Z) : Prop := ∀ i, 0 ≤ i < 512 → rd m p i = 0.
Definition fresh m R (p : Z) : Prop := page_addr p ∧ ∀ c d va, R c → (d ≤ 3)%nat → tab m c d va ≠ Some p.

Lemma page_addr_aligned p : page_addr p → aligned p.
Proof. intros [<- _]. apply pa_aligned. Qed.

Section graft.
Context {m : memory} {R : Z → Prop} (Hwf : paging_wf m R).
Context {c : Z} {d : nat} {va t v p : Z} (Hc : R c) (Hd : (d ≤ 2)%nat) (Hu : user va) (Ht : tab m c d va = Some t).
Context (Hno : interior (rd m t (ix d va)) = false) (Hv : interior v = true) (Hv' : open_entry v) (Hp : pa v = p).
Context (Hf : fresh m R p) (He : empty_table m p).

Lemma graft_root c' : R c' → c' ≠ p.
Proof. intros Hc' ->. destruct Hf as [_ Hf']. exact (Hf' p 0%nat 0 Hc' ltac:(lia) eq_refl). Qed.

Lemma graft_off i : 0 ≤ i < 512 → rd (wr t (ix d va) v m) p i = 0.
Proof.
  intros Hi. rewrite rd_wr_other; [by apply He|]. intros E.
  destruct (slot_inj p i t (ix d va)) as [-> _]; [|by eapply tab_aligned; [apply (wf_root _ _ Hwf)|]|done|apply ix_range; lia|done|].
  - apply page_addr_aligned, Hf.
  - destruct Hf as [_ Hf']. by apply (Hf' c d va Hc ltac:(lia)).
Qed.

Lemma graft_at va' : pre (S d) va' = pre (S d) va → tab (wr t (ix d va) v m) c (S d) va' = Some p.
Proof. intros E. rewrite tab_ent, (edit_same Hwf c d) by (done || lia). simpl. by rewrite Hv, Hp. Qed.

Lemma graft_none va' k : pre (S d) va' = pre (S d) va → (S d < k)%nat → tab (wr t (ix d va) v m) c k va' = None.
Proof.
  intros E Hk. apply (tab_none_below _ _ (S (S d))); [|lia]. rewrite tab_S, (graft_at va' E). simpl.
  rewrite graft_off by (apply ix_range; lia). done.
Qed.

Lemma graft_was va' k : pre (S d) va' = pre (S d) va → (d < k)%nat → tab m c k va' = None.
Proof.
  intros E Hk. apply (tab_none_below _ _ (S d)); [|lia]. rewrite (tab_pre m c (S d) va' va), tab_S, Ht by (lia || done).
  simpl. by rewrite Hno.
Qed.

Lemma graft_tab c' k va' t' :
  R c' → (k ≤ 3)%nat → tab (wr t (ix d va) v m) c' k va' = Some t' →
  tab m c' k va' = Some t' ∨ (t' = p ∧ c' = c ∧ k = S d ∧ pre (S d) va' = pre (S d) va).
Proof.
  intros Hc' Hk. destruct (decide (c' = c ∧ pre (S d) va' = pre (S d) va)) as [[-> E]|Hn].
  - destruct (decide (k ≤ d)%nat) as [Hkd|Hkd]; [rewrite (edit_above Hwf c c d) by (done || lia); by left|].
    destruct (decide (k = S d)) as [->|]; [rewrite graft_at by done; intros [= <-]; by right|].
    by rewrite graft_none by (done || lia).
  - rewrite (tab_ext m); [by left|]. intros k' Hk'. apply (edit_other Hwf c); try done; [lia| |lia].
    destruct (decide (c' = c)); [right|left]; tauto.
Qed.

Lemma wf_graft : paging_wf (wr t (ix d va) v m) R.
Proof.
  pose proof Hwf as [H1 H2 H3]. destruct Hf as [_ Hf']. split; [done| |].
  - intros a b j k x y z Ha Hb Hj Hk Hux T1 T2.
    destruct (graft_tab a j x z Ha Hj T1) as [O1|(-> & -> & -> & E1)];
      destruct (graft_tab b k y _ Hb Hk T2) as [O2|(Ez & -> & -> & E2)]; subst.
    + by eapply H2.
    + by apply Hf' in O1.
    + by apply Hf' in O2.
    + split; [done|]. split; [done|congruence].
  - intros a k x e Ha Hk Hux Hen Hpr. unfold ent in Hen.
    destruct (tab (wr _ _ _ _) a k x) as [z|] eqn:T; [|done]. simpl in Hen. injection Hen as <-.
    destruct (graft_tab a k x z Ha ltac:(lia) T) as [O|(-> & -> & -> & E)].
    + destruct (decide (z + 8 * ix k x = t + 8 * ix d va)) as [Ee|Ee].
      * unfold rd, wr. by rewrite Ee, upd_fn_same.
      * rewrite rd_wr_other in * by done. apply (H3 a k x _ Ha Hk Hux); [|done]. unfold ent. by rewrite O.
    + rewrite graft_off in Hpr by (apply ix_range; lia). done.
Qed.
End graft.

(** ** Writing a page that is no table *)

Definition same_off (p : Z) m m' : Prop := ∀ a, (∀ i, 0 ≤ i < 512 → a ≠ p + 8 * i) → m' a = m a.

Lemma same_off_rd p m m' t i :
  aligned p → same_off p m m' → aligned t → 0 ≤ i < 512 → t ≠ p → rd m' t i = rd m t i.
Proof.
  intros Hp Hs Ht Hi Hn. apply Hs. intros j Hj E. destruct (slot_inj t i p j) as [-> _]; done.
Qed.

Lemma wr_same_off p i v m : 0 ≤ i < 512 → same_off p m (wr p i v m).
Proof. intros Hi a Ha. unfold wr. apply upd_fn_other. by apply Ha. Qed.

Lemma same_off_trans p m m' m'' : same_off p m m' → same_off p m' m'' → same_off p m m''.
Proof. intros H1 H2 a Ha. by rewrite H2, H1. Qed.

Lemma zero_table_spec p m : empty_table (zero_table p m) p ∧ same_off p m (zero_table p m).
Proof.
  assert ((∀ i, 0 ≤ i < ENTRIES → rd (zero_table p m) p i = 0) ∧ same_off p m (zero_table p m)) as [H1 H2]; [|done].
  apply (for_up_ind (λ n m', (∀ i, 0 ≤ i < n → rd m' p i = 0) ∧ same_off p m m')); [done|split; [lia|by intros a _]|].
  intros n m' Hn [H1 H2]. split.
  - intros i Hi. destruct (decide (i = n)) as [->|]; [apply rd_wr_same|]. rewrite rd_wr_other by lia. apply H1. lia.
  - eapply same_off_trans; [exact H2|]. by apply wr_same_off.
Qed.

Lemma ent_off p m m' c va k :
  aligned p → aligned c → same_off p m m' → (∀ d, (d ≤ 3)%nat → tab m c d va ≠ Some p) → (k ≤ 3)%nat →
  tab m' c k va = tab m c k va ∧ ent m' c k va = ent m c k va.
Proof.
  intros Hp Hc Hs Hn. induction k as [|k IH]; intros Hk.
  - split; [done|]. unfold ent. simpl. f_equal. apply (same_off_rd p); try done; [by apply ix_range|].
    intros ->. by apply (Hn 0%nat Hk).
  - destruct IH as [_ IH]; [lia|]. assert (tab m' c (S k) va = tab m c (S k) va) as Hsk by (by rewrite !tab_ent, IH).
    split; [done|]. unfold ent. rewrite Hsk. destruct (tab m c (S k) va) as [t|] eqn:Ht; [|done]. simpl. f_equal.
    apply (same_off_rd p); try done; [by eapply tab_aligned|by apply ix_range|]. intros ->. by apply (Hn (S k) Hk).
Qed.

Lemma wf_off p m m' R : paging_wf m R → fresh m R p → same_off p m m' → paging_wf m' R ∧ fresh m' R p.
Proof.
  intros Hwf [Hp Hf] Hs. pose proof (page_addr_aligned p Hp) as Ha.
  assert (∀ c d va, R c → (d ≤ 3)%nat → tab m' c d va = tab m c d va ∧ ent m' c d va = ent m c d va) as Hsame.
  { intros c d va Hc Hd. apply (ent_off p); try done; [by apply (wf_root _ _ Hwf)|]. intros k Hk. by apply Hf. }
  split; [|split; [done|intros c d va Hc Hd; rewrite (proj1 (Hsame c d va Hc Hd)); by apply Hf]].
  apply (wf_shrink m); [done| |].
  - intros c d va t Hc Hd. by rewrite (proj1 (Hsame c d va Hc Hd)).
  - intros c d va e Hc Hd _. rewrite (proj2 (Hsame c d va Hc ltac:(lia))). by left.
Qed.

(** ** A new root *)

Lemma init_user_pml4_spec kr p m :
  aligned kr → aligned p → p ≠ 0 → kr ≠ p →
  same_off p m (paging_init_user_pml4 kr p m) ∧
  ∀ i, 0 ≤ i < 512 → rd (paging_init_user_pml4 kr p m) p i = if decide (i = 0 ∨ 256 ≤ i) then rd m kr i else 0.
Proof.
  intros Hk Ha Hp Hn. unfold paging_init_user_pml4. rewrite (proj2 (Z.eqb_neq p 0)) by done.
  destruct (zero_table_spec p m) as [Z1 Z2]. set (m1 := zero_table p m) in *.
  assert (∀ m' i, same_off p m m' → 0 ≤ i < 512 → rd m' kr i = rd m kr i) as Hkr
    by (intros m' i Hs Hi; by apply (same_off_rd p)).
  set (m2 := wr p _ _ m1). unfold ENTRIES.
  set (P := λ n m', same_off p m m' ∧ ∀ i, 0 ≤ i < 512 →
    rd m' p i = if decide (i = 0 ∨ 256 ≤ i < n) then rd m kr i else 0).
  enough (P 512 (for_range 256 512 (λ i m, wr p i (rd m kr i) m) m2)) as [H1 H2].
  { split; [done|]. intros i Hi. rewrite H2 by done. repeat case_decide; try done; lia. }
  apply (for_range_ind P); [lia| |]; unfold P.
  - split; [eapply same_off_trans; [exact Z2|apply wr_same_off; unfold USER_SHARED_PML4_INDEX; lia]|].
    intros i Hi. unfold m2, USER_SHARED_PML4_INDEX. destruct (decide (i = 0)) as [->|].
    + rewrite rd_wr_same, decide_True by (by left). by apply Hkr.
    + rewrite rd_wr_other, decide_False by lia. by apply Z1.
  - intros n m' Hi [H1 H2]. split; [eapply same_off_trans; [exact H1|apply wr_same_off; lia]|].
    intros i Hi'. destruct (decide (i = n)) as [->|].
    + rewrite rd_wr_same, decide_True by lia. apply Hkr; [done|lia].
    + rewrite rd_wr_other, H2 by lia. repeat case_decide; try done; lia.
Qed.

Section new_root.
Context {m : memory} {R : Z → Prop} (Hwf : paging_wf m R) {kr p : Z} (Hkr : R kr) (Hf : fresh m R p).
Let m' := paging_init_user_pml4 kr p m.

Lemma new_root_spec : same_off p m m' ∧
  ∀ i, 0 ≤ i < 512 → rd m' p i = if decide (i = 0 ∨ 256 ≤ i) then rd m kr i else 0.
Proof.
  destruct Hf as [Hp Hf']. apply init_user_pml4_spec; [by apply (wf_root _ _ Hwf)|by apply page_addr_aligned|by apply Hp|].
  intros ->. by apply (Hf' p 0%nat 0 Hkr ltac:(lia)).
Qed.

(** The spaces there were walk as before. *)
Lemma new_root_old c d va : R c → (d ≤ 3)%nat → tab m' c d va = tab m c d va ∧ ent m' c d va = ent m c d va.
Proof.
  destruct Hf as [Hp Hf']. intros Hc Hd. apply (ent_off p); try done.
  - by apply page_addr_aligned.
  - by apply (wf_root _ _ Hwf).
  - apply new_root_spec.
  - intros k Hk. by apply Hf'.
Qed.

(** The new one maps nothing at user addresses and what the kernel maps elsewhere. *)
Lemma new_root_user va k : user va → tab m' p (S k) va = None.
Proof.
  intros Hu. apply (tab_none_below _ _ 1); [|lia]. rewrite tab_S. simpl.
  rewrite (proj2 new_root_spec) by (apply ix_range; lia). unfold user in Hu. rewrite decide_False by lia. done.
Qed.

Lemma new_root_kernel va k : ¬ user va → (k ≤ 2)%nat →
  tab m' p (S k) va = tab m kr (S k) va ∧ ent m' p (S k) va = ent m kr (S k) va.
Proof.
  intros Hu Hk.
  assert (∀ k, (k ≤ 2)%nat → tab m' p (S k) va = tab m' kr (S k) va) as Htab.
  { clear k Hk. induction k as [|k IH]; intros Hk.
    - rewrite !tab_S. cbn [tab mbind option_bind].
      rewrite (proj2 new_root_spec) by (apply ix_range; lia).
      pose proof (ix_range 0 va ltac:(lia)). unfold user in Hu. rewrite decide_True by lia.
      pose proof (new_root_old kr 0 va Hkr ltac:(lia)) as [_ He]. unfold ent in He. simpl in He. injection He as ->. done.
    - rewrite (tab_S m' p (S k)), (tab_S m' kr (S k)), IH by lia. done. }
  split; [rewrite Htab by done; by apply new_root_old; [|lia]|].
  unfold ent at 1. rewrite Htab by done. by apply (new_root_old kr (S k) va Hkr ltac:(lia)).
Qed.

Lemma new_root_tab va k t : (k ≤ 3)%nat → tab m' p k va = Some t →
  (k = 0%nat ∧ t = p) ∨ (¬ user va ∧ (1 ≤ k)%nat ∧ tab m kr k va = Some t).
Proof.
  intros Hk. destruct k as [|k]; [intros [= <-]; by left|]. destruct (decide (user va)) as [Hu|Hu].
  - by rewrite new_root_user.
  - rewrite (proj1 (new_root_kernel va k Hu ltac:(lia))). intros Ht. right. split; [done|]. split; [lia|done].
Qed.

Lemma wf_new_root : paging_wf m' (λ c, c = p ∨ R c).
Proof.
  pose proof Hwf as [H1 H2 H3]. destruct Hf as [Hp Hf']. split.
  - intros c [->|Hc]; [split; [by apply page_addr_aligned|by apply Hp]|by apply H1].
  - intros a b j k x y z Ha Hb Hj Hk Hux T1 T2.
    assert (∀ a j x z, a = p ∨ R a → (j ≤ 3)%nat → tab m' a j x = Some z →
      (a = p ∧ j = 0%nat ∧ z = p) ∨ (a = p ∧ ¬ user x ∧ (1 ≤ j)%nat ∧ tab m kr j x = Some z) ∨ (R a ∧ tab m a j x = Some z)) as Hcase.
    { intros a' j' x' z' [->|Ha'] Hj' T; [apply new_root_tab in T as [[-> ->]|(? & ? & ?)]; [by left|by right; left|done]|].
      right; right. split; [done|]. by rewrite <-(proj1 (new_root_old a' j' x' Ha' Hj')). }
    destruct (Hcase a j x z Ha Hj T1) as [(-> & -> & ->)|[(_ & Hn & _)|[Ra O1]]]; [|done|].
    + destruct (Hcase b k y p Hb Hk T2) as [(-> & -> & _)|[(_ & _ & _ & O2)|[Rb O2]]]; [by rewrite !pre_0|..];
        by apply Hf' in O2.
    + destruct (Hcase b k y z Hb Hk T2) as [(-> & -> & ->)|[(-> & Hn & H1k & O2)|[Rb O2]]].
      * by apply Hf' in O1.
      * destruct (H2 a kr j k x y z) as (_ & -> & E); try done. exfalso. apply Hn. apply (user_pre k x y); [lia|done..].
      * by eapply H2.
  - intros a k x e [->|Ha] Hk Hux He Hpr.
    + destruct k as [|k]; [|unfold ent in He; by rewrite new_root_user in He].
      unfold ent in He. simpl in He. injection He as <-.
      rewrite (proj2 new_root_spec) in Hpr by (apply ix_range; lia). unfold user in Hux. by rewrite decide_False in Hpr by lia.
    + rewrite (proj2 (new_root_old a k x Ha ltac:(lia))) in He. by eapply H3.
Qed.
End new_root.
