(* ===== verification/PagingSpec.v ===== *)
(** * What the page-table functions do to translation

    [translate] is the walk of the processor, level by level, with the permissions
    it accumulates; the kernel's unrolled walks agree with it ([paging_walk_correct]).
    Each edit is then stated as what it does to [translate] for every root and every
    address, and a history of edits cannot reach another space or the part every
    space shares with the kernel. *)

From Stdlib Require Import ZArith Lia.
From stdpp Require Import base numbers list.
From S2P Require Import Prelude Pmm Paging PagingInv.
Local Open Scope Z_scope.

Implicit Types (m : memory) (va c t : Z) (d k : nat) (R : Z → Prop).

(** ** The processor's walk *)

(** The physical address of a leaf at depth [d]: a page of 4 KiB, 2 MiB or 1 GiB. *)
Definition leaf_mask d : Z := Z.land PAGE_PA_MASK (2 ^ 52 - 2 ^ sh d).
Definition leaf_addr d (e : Z) va : Z := Z.lor (Z.land e (leaf_mask d)) (Z.land va (Z.ones (sh d))).

(** [w] and [u]: every entry so far allows writing, and access from ring 3.  A
    PML4 entry has no large page: the bit is reserved there and the walk faults. *)
Fixpoint mmu (n : nat) d m t va (w u : bool) : option (Z * bool * bool) :=
  match n with
  | O => None
  | S n =>
      let e := rd m t (ix d va) in
      if negb (has e PAGE_PRESENT) then None else
      let w := w && has e PAGE_WRITABLE in
      let u := u && has e PAGE_USER in
      if bool_decide (d = 3%nat) || has e PAGE_HUGE
      then (if bool_decide (d = 0%nat) then None else Some (leaf_addr d e va, w, u))
      else mmu n (S d) m (pa e) va w u
  end.
Definition translate m c va : option (Z * bool * bool) := mmu 4 0 m c va true true.

#[global] Arguments translate : simpl never.

(** The walk reads the entries of its path and nothing else. *)
Lemma mmu_ext m m' c va n : ∀ d t w u, tab m c d va = Some t → tab m' c d va = Some t →
  (∀ k, (d ≤ k < d + n)%nat → ent m' c k va = ent m c k va) → mmu n d m' t va w u = mmu n d m t va w u.
Proof.
  induction n as [|n IH]; intros d t w u T T' He; [done|]. cbn [mmu].
  assert (rd m' t (ix d va) = rd m t (ix d va)) as Hr.
  { specialize (He d ltac:(lia)). unfold ent in He. rewrite T, T' in He. by injection He. }
  rewrite Hr. destruct (has (rd m t (ix d va)) PAGE_PRESENT) eqn:Hp; [|done]. cbn [negb].
  destruct (_ || _) eqn:Hl; [done|]. apply orb_false_iff in Hl as [_ Hh].
  apply IH; [| |intros k Hk; apply He; lia]; rewrite tab_S, ?T, ?T'; cbn [mbind option_bind];
    rewrite ?Hr; unfold interior; by rewrite Hp, Hh.
Qed.

Lemma translate_ext m m' c va :
  (∀ k, (k ≤ 3)%nat → ent m' c k va = ent m c k va) → translate m' c va = translate m c va.
Proof. intros H. apply (mmu_ext m m' c); [done..|]. intros k Hk. apply H. lia. Qed.

(** The walk for an instruction fetch: the same path, with no entry marked
    no-execute. *)
Fixpoint mmu_x (n : nat) d m t va : bool :=
  match n with
  | O => false
  | S n =>
      let e := rd m t (ix d va) in
      has e PAGE_PRESENT && negb (has e PAGE_NX) &&
      (if bool_decide (d = 3%nat) || has e PAGE_HUGE then negb (bool_decide (d = 0%nat))
       else mmu_x n (S d) m (pa e) va)
  end.
Definition executes m c va : bool := mmu_x 4 0 m c va.

#[global] Arguments executes : simpl never.

Lemma mmu_x_ext m m' c va n : ∀ d t, tab m c d va = Some t → tab m' c d va = Some t →
  (∀ k, (d ≤ k < d + n)%nat → ent m' c k va = ent m c k va) → mmu_x n d m' t va = mmu_x n d m t va.
Proof.
  induction n as [|n IH]; intros d t T T' He; [done|]. cbn [mmu_x].
  assert (rd m' t (ix d va) = rd m t (ix d va)) as Hr.
  { specialize (He d ltac:(lia)). unfold ent in He. rewrite T, T' in He. by injection He. }
  rewrite Hr. destruct (has (rd m t (ix d va)) PAGE_PRESENT) eqn:Hp; [|done].
  destruct (_ || _) eqn:Hl; [done|]. apply orb_false_iff in Hl as [_ Hh]. f_equal.
  apply IH; [| |intros k Hk; apply He; lia]; rewrite tab_S, ?T, ?T'; cbn [mbind option_bind];
    rewrite ?Hr; unfold interior; by rewrite Hp, Hh.
Qed.

Lemma executes_ext m m' c va :
  (∀ k, (k ≤ 3)%nat → ent m' c k va = ent m c k va) → executes m' c va = executes m c va.
Proof. intros H. apply (mmu_x_ext m m' c); [done..|]. intros k Hk. apply H. lia. Qed.

(** ** The kernel's walks *)

Lemma walk_pt_tab m c va : walk_pt m c va = tab m c 3 va.
Proof.
  unfold walk_pt. rewrite !tab_S. cbn [tab mbind option_bind].
  change (ix 0 va) with (PML4_IDX va). change (ix 1 va) with (PDPT_IDX va). change (ix 2 va) with (PD_IDX va).
  unfold interior. set (e0 := rd m c (PML4_IDX va)).
  destruct (has e0 PAGE_PRESENT), (has e0 PAGE_HUGE); try done. cbn [negb orb andb mbind option_bind].
  set (e1 := rd m (pa e0) (PDPT_IDX va)). destruct (has e1 PAGE_PRESENT), (has e1 PAGE_HUGE); try done.
  cbn [negb orb andb mbind option_bind]. set (e2 := rd m (pa e1) (PD_IDX va)).
  by destruct (has e2 PAGE_PRESENT), (has e2 PAGE_HUGE).
Qed.

(** The bits [paging_query_access] reports. *)
Definition access_bits (w u : bool) : Z :=
  Z.lor PAGE_PRESENT (Z.lor (if w then PAGE_WRITABLE else 0) (if u then PAGE_USER else 0)).

Lemma access_step w u e : has e PAGE_PRESENT = true →
  Z.land (access_bits w u) (Z.land e ACCESS) = access_bits (w && has e PAGE_WRITABLE) (u && has e PAGE_USER).
Proof.
  intros Hp. unfold has in *. change ACCESS with 7.
  assert (∀ f, Z.land 7 f = f → Z.land e f = Z.land (Z.land e 7) f) as Hf
    by (intros f E; rewrite <-Z.land_assoc, E; done).
  rewrite (Hf PAGE_PRESENT) in Hp by done. rewrite (Hf PAGE_WRITABLE), (Hf PAGE_USER) by done.
  assert (0 ≤ Z.land e 7 < 8) as Hr by (change 7 with (Z.ones 3); rewrite Z.land_ones by lia; apply Z.mod_pos_bound; lia).
  revert Hp Hr. generalize (Z.land e 7) as r. intros r Hp Hr.
  assert (r = 0 ∨ r = 1 ∨ r = 2 ∨ r = 3 ∨ r = 4 ∨ r = 5 ∨ r = 6 ∨ r = 7) as Hc by lia.
  destruct w, u, Hc as [->|[->|[->|[->|[->|[->|[->| ->]]]]]]]; vm_compute in Hp |- *; done.
Qed.

Lemma leaf_3 e va : leaf_addr 3 e va = Z.lor (pa e) (Z.land va 0xFFF).
Proof. reflexivity. Qed.
Lemma leaf_2 e va : leaf_addr 2 e va = Z.lor (Z.land e PAGE_PA_MASK_2M) (Z.land va 0x1FFFFF).
Proof. reflexivity. Qed.

(** No entry of the two upper levels is a large page. *)
Definition no_large m c va : Prop := ∀ d e, (d ≤ 1)%nat → ent m c d va = Some e →
  has e PAGE_PRESENT = true → has e PAGE_HUGE = false.

Lemma walk_correct m c va :
  c ≠ 0 → no_large m c va →
  paging_virt_to_phys_in m c va = match translate m c va with Some (p, _, _) => p | None => 0 end ∧
  paging_query_access_in m c va = match translate m c va with Some (_, w, u) => Some (access_bits w u) | None => None end.
Proof.
  intros Hc Hn. unfold paging_virt_to_phys_in, paging_query_access_in, paging_query_access_root, translate.
  rewrite (proj2 (Z.eqb_neq c 0)) by done. cbv zeta.
  pose proof (Hn 0%nat _ ltac:(lia) eq_refl) as N0. cbn [mmu]. change (ix 0 va) with (PML4_IDX va) in *.
  set (e0 := rd m c (PML4_IDX va)) in *. destruct (has e0 PAGE_PRESENT) eqn:P0; [|done].
  cbn [negb]. change (Z.land ACCESS (Z.land e0 ACCESS)) with (Z.land (access_bits true true) (Z.land e0 ACCESS)).
  rewrite access_step, (N0 eq_refl) by done. cbn [bool_decide andb orb].
  assert (interior e0 = true) as I0 by (unfold interior; by rewrite P0, (N0 eq_refl)).
  assert (ent m c 1 va = Some (rd m (pa e0) (PDPT_IDX va))) as E1
    by (unfold ent; rewrite tab_S; cbn [tab mbind option_bind]; change (ix 0 va) with (PML4_IDX va); fold e0; by rewrite I0).
  pose proof (Hn 1%nat _ ltac:(lia) E1) as N1. change (ix 1 va) with (PDPT_IDX va).
  set (e1 := rd m (pa e0) (PDPT_IDX va)) in *. destruct (has e1 PAGE_PRESENT) eqn:P1; [|done].
  cbn [negb]. rewrite access_step, (N1 eq_refl) by done. cbn [bool_decide orb].
  change (ix 2 va) with (PD_IDX va). set (e2 := rd m (pa e1) (PD_IDX va)).
  destruct (has e2 PAGE_PRESENT) eqn:P2; [|done]. cbn [negb]. rewrite access_step by done.
  destruct (has e2 PAGE_HUGE) eqn:N2; [split; reflexivity|]. cbn [orb bool_decide].
  change (ix 3 va) with (PT_IDX va). set (e3 := rd m (pa e2) (PT_IDX va)).
  destruct (has e3 PAGE_PRESENT) eqn:P3; [|done]. cbn [negb]. rewrite access_step by done. split; reflexivity.
Qed.

(** C28: the kernel and the processor see the same address space.  For every root and
    address whose upper two levels hold no large page, [paging_virt_to_phys_in] and
    [paging_query_access_in] give the address and the permissions the processor's
    walk gives (0 and failure when it faults), for 4 KiB and 2 MiB pages. *)
Theorem paging_walk_correct m c va :
  c ≠ 0 → no_large m c va →
  paging_virt_to_phys_in m c va = match translate m c va with Some (p, _, _) => p | None => 0 end ∧
  paging_query_access_in m c va = match translate m c va with Some (_, w, u) => Some (access_bits w u) | None => None end.
Proof. apply walk_correct. Qed.

(** ** Where an edit writes *)

(** The level reported missing is the depth at which the walk of a user address
    stops, and [missing_place] the entry it stops at. *)
Lemma missing_spec m R c va :
  paging_wf m R → R c → user va →
  (paging_missing_level_in m c va = 0 ∧ ∃ t, tab m c 3 va = Some t) ∨
  (∃ d t, (d ≤ 2)%nat ∧ paging_missing_level_in m c va = 3 - Z.of_nat d ∧ tab m c d va = Some t ∧
     has (rd m t (ix d va)) PAGE_PRESENT = false ∧ tab m c 3 va = None ∧
     missing_place m c va (3 - Z.of_nat d) = (t, ix d va)).
Proof.
  intros Hwf Hc Hu. unfold paging_missing_level_in.
  destruct (wf_root _ _ Hwf c Hc) as [_ Hc0]. rewrite (proj2 (Z.eqb_neq c 0)) by done.
  assert (∀ d t, (d ≤ 2)%nat → tab m c d va = Some t → has (rd m t (ix d va)) PAGE_PRESENT = true →
    has (rd m t (ix d va)) PAGE_HUGE = false ∧ tab m c (S d) va = Some (pa (rd m t (ix d va)))) as Hstep.
  { intros d t Hd Ht Hp. destruct (wf_open _ _ Hwf c d va (rd m t (ix d va)) Hc Hd Hu) as [Hh _];
      [unfold ent; by rewrite Ht|done|]. split; [done|].
    rewrite tab_S, Ht. cbn [mbind option_bind]. unfold interior. by rewrite Hp, Hh. }
  assert (∀ d t, (d ≤ 2)%nat → tab m c d va = Some t → has (rd m t (ix d va)) PAGE_PRESENT = false → tab m c 3 va = None) as Hstop.
  { intros d t Hd Ht Hp. apply (tab_none_below _ _ (S d)); [|lia]. rewrite tab_S, Ht. cbn [mbind option_bind].
    unfold interior. by rewrite Hp. }
  cbv zeta. change (PML4_IDX va) with (ix 0 va). change (PDPT_IDX va) with (ix 1 va). change (PD_IDX va) with (ix 2 va).
  pose proof (Hstep 0%nat c ltac:(lia) eq_refl) as S0. set (e0 := rd m c (ix 0 va)) in *.
  destruct (has e0 PAGE_PRESENT) eqn:P0; [|right; exists 0%nat, c; by eauto 10 with lia].
  destruct (S0 eq_refl) as [_ T1]. cbn [negb].
  pose proof (Hstep 1%nat _ ltac:(lia) T1) as S1. set (e1 := rd m (pa e0) (ix 1 va)) in *.
  destruct (has e1 PAGE_PRESENT) eqn:P1; [|right; exists 1%nat, (pa e0); by eauto 10 with lia].
  destruct (S1 eq_refl) as [-> T2]. cbn [negb].
  pose proof (Hstep 2%nat _ ltac:(lia) T2) as S2. set (e2 := rd m (pa e1) (ix 2 va)) in *.
  destruct (has e2 PAGE_PRESENT) eqn:P2; [|right; exists 2%nat, (pa e1); by eauto 10 with lia].
  destruct (S2 eq_refl) as [-> T3]. left. eauto.
Qed.

Lemma detach_walk_tab m c va d : (d ≤ 2)%nat →
  detach_walk d 3 m va c (PML4_IDX va) = t ← tab m c d va; Some (t, ix d va).
Proof.
  intros Hd. assert (∀ e, negb (has e PAGE_PRESENT) || has e PAGE_HUGE = negb (interior e)) as Hi
    by (intros e; unfold interior; by destruct (has e PAGE_PRESENT), (has e PAGE_HUGE)).
  destruct d as [|[|[|d]]]; [done| | |lia]; cbn [detach_walk]; rewrite !Hi, !tab_S; cbn [tab mbind option_bind];
    change (PML4_IDX va) with (ix 0 va); destruct (interior (rd m c (ix 0 va))); try done.
  cbn [negb mbind option_bind]. change (if 3 =? 3 then PDPT_IDX va else PD_IDX va) with (ix 1 va).
  by destruct (interior _).
Qed.

(** ** Translation after an edit *)

Lemma edit_translate {m R} (Hwf : paging_wf m R) c c' d va va' t v :
  R c → R c' → (d ≤ 3)%nat → user va → tab m c d va = Some t →
  c' ≠ c ∨ pre (S d) va' ≠ pre (S d) va →
  translate (wr t (ix d va) v m) c' va' = translate m c' va'.
Proof. intros. apply translate_ext. intros k Hk. by apply (edit_other Hwf c). Qed.

Lemma edit_executes {m R} (Hwf : paging_wf m R) c c' d va va' t v :
  R c → R c' → (d ≤ 3)%nat → user va → tab m c d va = Some t →
  c' ≠ c ∨ pre (S d) va' ≠ pre (S d) va →
  executes (wr t (ix d va) v m) c' va' = executes m c' va'.
Proof. intros. apply executes_ext. intros k Hk. by apply (edit_other Hwf c). Qed.

(** A walk that meets no table maps nothing. *)
Lemma mmu_none m c va n : ∀ d t w u, tab m c d va = Some t → (d ≤ 3)%nat →
  (∀ k e, (d ≤ k ≤ 3)%nat → ent m c k va = Some e → has e PAGE_PRESENT = true → has e PAGE_HUGE = false) →
  (∀ e, ent m c 3 va = Some e → has e PAGE_PRESENT = false) → mmu n d m t va w u = None.
Proof.
  induction n as [|n IH]; intros d t w u T Hd Hs H3; [done|]. cbn [mmu].
  assert (ent m c d va = Some (rd m t (ix d va))) as He by (unfold ent; by rewrite T).
  destruct (has _ PAGE_PRESENT) eqn:Hp; [|done]. cbn [negb].
  destruct (decide (d = 3%nat)) as [->|Hd3]; [by rewrite (H3 _ He) in Hp|].
  rewrite bool_decide_false, (Hs d _ ltac:(lia) He Hp) by done. cbn [orb].
  apply IH; [|lia|intros k e Hk; apply Hs; lia|done].
  rewrite tab_S, T. cbn [mbind option_bind]. unfold interior. by rewrite Hp, (Hs d _ ltac:(lia) He Hp).
Qed.

Lemma translate_none m R c va : paging_wf m R → R c → user va →
  (∀ e, ent m c 3 va = Some e → has e PAGE_PRESENT = false) → translate m c va = None.
Proof.
  intros Hwf Hc Hu H3. apply (mmu_none m c); [done|lia| |done]. intros k e Hk He Hp.
  destruct (decide (k = 3%nat)) as [->|]; [by rewrite (H3 e He) in Hp|].
  by destruct (wf_open _ _ Hwf c k va e Hc ltac:(lia) Hu He Hp).
Qed.

(** A present leaf is what the processor uses, permissions included. *)
Lemma translate_leaf m R c va e : paging_wf m R → R c → user va →
  ent m c 3 va = Some e → has e PAGE_PRESENT = true →
  translate m c va = Some (leaf_addr 3 e va, has e PAGE_WRITABLE, has e PAGE_USER).
Proof.
  intros Hwf Hc Hu He Hp.
  assert (∀ n d t, (n + d = 4)%nat → (1 ≤ n)%nat → tab m c d va = Some t →
    mmu n d m t va true true = Some (leaf_addr 3 e va, has e PAGE_WRITABLE, has e PAGE_USER)) as Hm; [|apply (Hm 4%nat 0%nat c); [lia|lia|done]].
  induction n as [|n IH]; intros d t Hd H1 T; [lia|]. cbn [mmu].
  assert (ent m c d va = Some (rd m t (ix d va))) as Hed by (unfold ent; by rewrite T).
  destruct (decide (d = 3%nat)) as [->|Hd3].
  - rewrite Hed in He. injection He as <-. rewrite Hp. reflexivity.
  - assert (∃ t', tab m c (S d) va = Some t') as [t' T'].
    { destruct (tab m c (S d) va) eqn:E; [by eauto|]. unfold ent in He.
      by rewrite (tab_none_below m c (S d) 3) in He by (done || lia). }
    pose proof T' as I. rewrite tab_S, T in I. cbn [mbind option_bind] in I.
    destruct (interior _) eqn:Hi; [|done]. injection I as <-. unfold interior in Hi. apply andb_true_iff in Hi as [Hpr Hh].
    destruct (wf_open _ _ Hwf c d va _ Hc ltac:(lia) Hu Hed Hpr) as (-> & -> & ->).
    rewrite Hpr, bool_decide_false by done. cbn [negb orb andb]. apply IH; [lia|lia|done].
Qed.

(** The tables above the leaf leave execution to it. *)
Definition tables_executable m c va : Prop := ∀ k e, (k ≤ 2)%nat → ent m c k va = Some e → has e PAGE_NX = false.

Lemma executes_leaf m R c va e : paging_wf m R → R c → user va →
  ent m c 3 va = Some e → has e PAGE_PRESENT = true →
  (has e PAGE_NX = true → executes m c va = false) ∧
  (tables_executable m c va → executes m c va = negb (has e PAGE_NX)).
Proof.
  intros Hwf Hc Hu He Hp.
  assert (∀ n d t, (n + d = 4)%nat → (1 ≤ n)%nat → tab m c d va = Some t →
    (has e PAGE_NX = true → mmu_x n d m t va = false) ∧
    (tables_executable m c va → mmu_x n d m t va = negb (has e PAGE_NX))) as Hm;
    [|apply (Hm 4%nat 0%nat c); [lia|lia|done]].
  induction n as [|n IH]; intros d t Hd H1 T; [lia|]. cbn [mmu_x].
  assert (ent m c d va = Some (rd m t (ix d va))) as Hed by (unfold ent; by rewrite T).
  destruct (decide (d = 3%nat)) as [->|Hd3].
  - rewrite Hed in He. injection He as <-. rewrite Hp. cbn [andb].
    split; [by intros ->|]. intros _. by destruct (has _ PAGE_NX).
  - assert (∃ t', tab m c (S d) va = Some t') as [t' T'].
    { destruct (tab m c (S d) va) eqn:E; [by eauto|]. unfold ent in He.
      by rewrite (tab_none_below m c (S d) 3) in He by (done || lia). }
    pose proof T' as I. rewrite tab_S, T in I. cbn [mbind option_bind] in I.
    destruct (interior _) eqn:Hi; [|done]. injection I as <-. unfold interior in Hi. apply andb_true_iff in Hi as [Hpr Hh].
    destruct (wf_open _ _ Hwf c d va _ Hc ltac:(lia) Hu Hed Hpr) as (Eh & _ & _).
    rewrite Hpr, Eh, bool_decide_false by done. cbn [negb orb andb].
    destruct (IH (S d) _ ltac:(lia) ltac:(lia) T') as [I1 I2]. split.
    + intros Hx. rewrite I1 by done. apply andb_false_r.
    + intros Hx. rewrite (Hx d _ ltac:(lia) Hed), I2 by done. done.
Qed.

(** ** Leaves *)

Lemma map_strict_cases m R c va phys flags :
  paging_wf m R → R c → user va →
  (∃ t, tab m c 3 va = Some t ∧ paging_missing_level_in m c va = 0 ∧
     paging_map_strict_in c va phys flags m = (0, wr t (ix 3 va) (entry phys flags) m)) ∨
  (1 ≤ paging_missing_level_in m c va ≤ 3 ∧ tab m c 3 va = None ∧
     paging_map_strict_in c va phys flags m = (paging_missing_level_in m c va, m)).
Proof.
  intros Hwf Hc Hu. unfold paging_map_strict_in.
  destruct (wf_root _ _ Hwf c Hc) as [_ Hc0]. rewrite (proj2 (Z.eqb_neq c 0)), walk_pt_tab by done.
  destruct (missing_spec m R c va) as [[-> [t Ht]]|(d & t & Hd & -> & _ & _ & Hn & _)]; [done..| |].
  - left. exists t. rewrite Ht. done.
  - right. rewrite (proj2 (Z.eqb_neq _ 0)) by lia. split; [lia|done].
Qed.

Lemma map_leaf_translate m R c va t phys flags :
  paging_wf m R → R c → user va → flags_only flags → tab m c 3 va = Some t →
  let m' := wr t (ix 3 va) (entry phys flags) m in
  paging_wf m' R ∧
  (∀ va', pre 4 va' = pre 4 va →
     translate m' c va' = Some (Z.lor (pa phys) (Z.land va' 0xFFF), has flags PAGE_WRITABLE, has flags PAGE_USER) ∧
     (has flags PAGE_NX = true → executes m' c va' = false) ∧
     (tables_executable m c va → executes m' c va' = negb (has flags PAGE_NX))) ∧
  (∀ c' va', R c' → c' ≠ c ∨ pre 4 va' ≠ pre 4 va →
     translate m' c' va' = translate m c' va' ∧ executes m' c' va' = executes m c' va').
Proof.
  intros Hwf Hc Hu Hfl Ht m'.
  assert (paging_wf m' R) as Hwf' by (by apply (wf_leaf m R c)). split; [done|]. split.
  - intros va' Hp. assert (user va') as Hu' by (apply (user_pre 4 va va'); [lia|done..]).
    assert (ent m' c 3 va' = Some (entry phys flags)) as He by (by apply (edit_same Hwf c 3)).
    rewrite (translate_leaf m' R c va' (entry phys flags)); [|done..|apply entry_present].
    rewrite leaf_3, (entry_pa _ _ Hfl), !entry_has by done. split; [done|].
    destruct (executes_leaf m' R c va' _ Hwf' Hc Hu' He (entry_present _ _)) as [E1 E2].
    rewrite entry_has in E1, E2 by done. split; [done|]. intros Hx. apply E2. intros k e Hk Hek.
    apply (Hx k e Hk). rewrite <-Hek. unfold m'. rewrite (edit_same_above Hwf c 3) by (done || lia).
    apply ent_pre; [lia|]. symmetry. by apply (pre_le 4 (S k)); [lia|].
  - intros c' va' Hc' Hx. split; [by apply (edit_translate Hwf c c' 3)|by apply (edit_executes Hwf c c' 3)].
Qed.

Lemma map_exact s R c va phys flags :
  paging_wf (mem s) R → R c → user va → flags_only flags →
  let '(r, m') := paging_map_strict_in c va phys flags (mem s) in
  r = paging_missing_level_in (mem s) c va ∧ 0 ≤ r ≤ 3 ∧ paging_wf m' R ∧
  if decide (r = 0) then
    (∀ va', pre 4 va' = pre 4 va →
       translate m' c va' = Some (Z.lor (pa phys) (Z.land va' 0xFFF), has flags PAGE_WRITABLE, has flags PAGE_USER) ∧
       (has flags PAGE_NX = true → executes m' c va' = false) ∧
       (tables_executable (mem s) c va → executes m' c va' = negb (has flags PAGE_NX))) ∧
    (∀ c' va', R c' → c' ≠ c ∨ pre 4 va' ≠ pre 4 va →
       translate m' c' va' = translate (mem s) c' va' ∧ executes m' c' va' = executes (mem s) c' va')
  else m' = mem s.
Proof.
  intros Hwf Hc Hu Hfl.
  destruct (map_strict_cases (mem s) R c va phys flags) as [(t & Ht & H0 & ->)|(H0 & _ & ->)]; [done..| |].
  + rewrite H0. split; [done|]. split; [lia|]. rewrite decide_True by done. by apply map_leaf_translate.
  + split; [done|]. split; [lia|]. split; [done|]. by rewrite decide_False by lia.
Qed.

Lemma unmap_exact s R c va :
  paging_wf (mem s) R → R c → user va →
  let s' := paging_unmap_in c va s in
  paging_wf (mem s') R ∧ pm s' = pm s ∧
  (∀ va', pre 4 va' = pre 4 va → translate (mem s') c va' = None) ∧
  (∀ c' va', R c' → c' ≠ c ∨ pre 4 va' ≠ pre 4 va →
     translate (mem s') c' va' = translate (mem s) c' va' ∧ executes (mem s') c' va' = executes (mem s) c' va') ∧
  (translate (mem s) c va ≠ None → invlpg s' = va :: invlpg s).
Proof.
  intros Hwf Hc Hu. unfold paging_unmap_in. rewrite walk_pt_tab. destruct (tab (mem s) c 3 va) as [t|] eqn:Ht; cbn [mem pm invlpg do_invlpg put on_mem with_mem].
  change (PT_IDX va) with (ix 3 va).
  + assert (paging_wf (wr t (ix 3 va) 0 (mem s)) R) as Hwf' by (by apply (wf_leaf (mem s) R c)).
    split; [done|]. split; [done|]. split; [|split; [|done]].
    * intros va' Hp. assert (user va') as Hu' by (apply (user_pre 4 va va'); [lia|done..]).
      apply (translate_none _ R); [done..|]. intros e He.
      rewrite (edit_same Hwf c 3) in He by done. injection He as <-. done.
    * intros c' va' Hc' Hx. split; [by apply (edit_translate Hwf c c' 3)|by apply (edit_executes Hwf c c' 3)].
  + assert (∀ va', pre 4 va' = pre 4 va → translate (mem s) c va' = None) as Hnone.
    { intros va' Hp. apply (translate_none _ R); [done..|by apply (user_pre 4 va va'); [lia|..]|].
      unfold ent. rewrite (tab_pre _ c 3 va' va), Ht by (lia || (apply (pre_le 4 3); [lia|done])). done. }
    split; [done|]. split; [done|]. split; [done|]. split; [done|]. intros Hx. by rewrite Hnone in Hx.
Qed.

(** C22: a map is exact and an unmap undoes it.  [paging_map_strict_in] writes nothing
    when a level is missing and names the level; otherwise the page of the address,
    and no other page of any space, translates to the frame with the permissions
    asked for: writing, access from ring 3, and no instruction fetch if the no-execute
    bit was asked for, or fetch exactly if it was not where the tables above allow it.
    [paging_unmap_in] leaves that page unmapped, invalidated, and every
    other translation as it was. *)
Theorem paging_map_unmap_exact s R c va phys flags :
  paging_wf (mem s) R → R c → user va → flags_only flags →
  (let '(r, m') := paging_map_strict_in c va phys flags (mem s) in
   r = paging_missing_level_in (mem s) c va ∧ 0 ≤ r ≤ 3 ∧ paging_wf m' R ∧
   if decide (r = 0) then
     (∀ va', pre 4 va' = pre 4 va →
        translate m' c va' = Some (Z.lor (pa phys) (Z.land va' 0xFFF), has flags PAGE_WRITABLE, has flags PAGE_USER) ∧
        (has flags PAGE_NX = true → executes m' c va' = false) ∧
        (tables_executable (mem s) c va → executes m' c va' = negb (has flags PAGE_NX))) ∧
     (∀ c' va', R c' → c' ≠ c ∨ pre 4 va' ≠ pre 4 va →
        translate m' c' va' = translate (mem s) c' va' ∧ executes m' c' va' = executes (mem s) c' va')
   else m' = mem s) ∧
  (let s' := paging_unmap_in c va s in
   paging_wf (mem s') R ∧ pm s' = pm s ∧
   (∀ va', pre 4 va' = pre 4 va → translate (mem s') c va' = None) ∧
   (∀ c' va', R c' → c' ≠ c ∨ pre 4 va' ≠ pre 4 va →
      translate (mem s') c' va' = translate (mem s) c' va' ∧ executes (mem s') c' va' = executes (mem s) c' va') ∧
   (translate (mem s) c va ≠ None → invlpg s' = va :: invlpg s)).
Proof. intros Hwf Hc Hu Hfl. split; [by apply map_exact|by apply unmap_exact]. Qed.

(** ** Tables *)

(** The flags [kvspace_map_table] and the boot code install a table with. *)
Definition table_flags (flags : Z) : Prop :=
  flags_only flags ∧ has flags PAGE_HUGE = false ∧ has flags PAGE_WRITABLE = true ∧ has flags PAGE_USER = true.

Lemma table_entry p flags : page_addr p → table_flags flags →
  interior (entry p flags) = true ∧ open_entry (entry p flags) ∧ pa (entry p flags) = p.
Proof.
  intros [Hp _] (H1 & H2 & H3 & H4). unfold interior, open_entry.
  by rewrite entry_present, (entry_pa p flags H1), !entry_has, H2, H3, H4 by done.
Qed.

(** Under a grafted table, and so everywhere, translation is as it was. *)
Lemma graft_translate m R c d va t v p :
  paging_wf m R → R c → (d ≤ 2)%nat → user va → tab m c d va = Some t →
  interior (rd m t (ix d va)) = false → interior v = true → open_entry v → pa v = p →
  fresh m R p → empty_table m p →
  ∀ c' va', R c' → translate (wr t (ix d va) v m) c' va' = translate m c' va'.
Proof.
  intros Hwf Hc Hd Hu Ht Hno Hv Hv' Hp Hf He c' va' Hc'.
  destruct (decide (c' = c ∧ pre (S d) va' = pre (S d) va)) as [[-> Hpre]|Hn].
  - assert (user va') as Hu' by (apply (user_pre (S d) va va'); [lia|done..]).
    rewrite (translate_none m R); [|done..|].
    + apply (translate_none _ R); [by apply (wf_graft Hwf Hc Hd Hu Ht Hv Hv' Hp Hf He)|done..|].
      intros e. unfold ent. destruct (decide (d = 2%nat)) as [->|].
      * rewrite (graft_at Hwf Hc Hd Hu Ht Hv Hp va' Hpre). cbn [mbind option_bind].
        rewrite (graft_off Hwf Hc Hd Ht Hp Hf He) by (apply ix_range; lia). intros [= <-]. done.
      * by rewrite (graft_none Hwf Hc Hd Hu Ht Hv Hp Hf He va' 3 Hpre) by lia.
    + intros e. unfold ent. by rewrite (graft_was Hd Ht Hno va' 3 Hpre) by lia.
  - apply (edit_translate Hwf c); try done; [lia|]. destruct (decide (c' = c)); [right|left]; tauto.
Qed.

Lemma install_cases m R c va p flags :
  paging_wf m R → R c → user va → page_addr p →
  (paging_missing_level_in m c va = 0 ∧ paging_install_table_in c va p flags m = (0, m)) ∨
  (∃ d t, (d ≤ 2)%nat ∧ tab m c d va = Some t ∧ has (rd m t (ix d va)) PAGE_PRESENT = false ∧
     paging_missing_level_in m c va = 3 - Z.of_nat d ∧
     paging_install_table_in c va p flags m = (3 - Z.of_nat d, wr t (ix d va) (entry p flags) m)).
Proof.
  intros Hwf Hc Hu Hp. unfold paging_install_table_in. destruct (wf_root _ _ Hwf c Hc) as [_ Hc0].
  pose proof (page_addr_aligned p Hp) as Ha. unfold aligned in Ha.
  assert (Z.land p 0xFFF = 0) as Hl by (change 0xFFF with (Z.ones 12); by rewrite Z.land_ones by lia).
  rewrite (proj2 (Z.eqb_neq c 0)), (proj2 (Z.eqb_neq p 0)), Hl by (done || apply Hp). cbn [orb negb Z.eqb].
  destruct (missing_spec m R c va) as [[-> _]|(d & t & Hd & -> & Ht & Hpr & _ & Hmp)]; [done..|by left|].
  right. exists d, t. rewrite (proj2 (Z.ltb_lt 0 _)), Hmp by lia. done.
Qed.

Lemma detach_cases m c va level p d :
  c ≠ 0 → page_addr p → (d ≤ 2)%nat → level = 3 - Z.of_nat d →
  paging_detach_table_in c va level p m =
    if decide (tab m c (S d) va = Some p)
    then (0, match tab m c d va with Some t => wr t (ix d va) 0 m | None => m end) else (-1, m).
Proof.
  intros Hc0 Hp Hd ->. unfold paging_detach_table_in.
  rewrite (proj2 (Z.eqb_neq c 0)), (proj2 (Z.eqb_neq p 0)), (proj2 (Z.ltb_ge _ 1)), (proj2 (Z.ltb_ge 3 _)) by (done || lia || apply Hp).
  cbn [orb]. replace (Z.to_nat (3 - (3 - Z.of_nat d))) with d by lia. rewrite detach_walk_tab, tab_S by done.
  destruct (tab m c d va) as [t|]; cbn [mbind option_bind]; [|by rewrite decide_False].
  cbv zeta. fold (interior (rd m t (ix d va))). destruct (interior (rd m t (ix d va))); cbn [andb]; [|by rewrite decide_False].
  destruct Hp as [Hp _]. rewrite Hp. destruct (Z.eqb_spec (pa (rd m t (ix d va))) p) as [->|Hne].
  - by rewrite decide_True.
  - by rewrite decide_False by congruence.
Qed.

Lemma install_exact m R c va p flags :
  paging_wf m R → R c → user va → page_addr p → table_flags flags → fresh m R p → empty_table m p →
  let '(r, m') := paging_install_table_in c va p flags m in
  r = paging_missing_level_in m c va ∧ paging_wf m' R ∧
  (∀ c' va', R c' → translate m' c' va' = translate m c' va') ∧
  if decide (r = 0) then m' = m
  else paging_missing_level_in m' c va = r - 1 ∧ tab m' c (4 - Z.to_nat r) va = Some p.
Proof.
  intros Hwf Hc Hu Hp Hfl Hf He. destruct (table_entry p flags Hp Hfl) as (Hi & Ho & Hpa).
  destruct (install_cases m R c va p flags) as [[Hm ->]|(k & t & Hk & Ht & Hpr & Hm & ->)]; [done..| |].
  + rewrite Hm. by rewrite decide_True.
  + assert (interior (rd m t (ix k va)) = false) as Hno by (unfold interior; by rewrite Hpr).
    assert (paging_wf (wr t (ix k va) (entry p flags) m) R) as Hwf'
      by (by apply (wf_graft Hwf Hc Hk Hu Ht Hi Ho Hpa Hf He)).
    split; [done|]. split; [done|]. split; [by apply (graft_translate m R c k va t _ p)|].
    rewrite decide_False by lia. pose proof (graft_at Hwf Hc Hk Hu Ht Hi Hpa va eq_refl) as Hat.
    replace (4 - Z.to_nat (3 - Z.of_nat k))%nat with (S k) by lia. split; [|done].
    destruct (missing_spec (wr t (ix k va) (entry p flags) m) R c va) as [[-> [z Hz]]|(j & z & Hj & -> & Hz & Hzp & Hn3 & _)]; [done..| |].
    * destruct (decide (k = 2%nat)) as [->|]; [lia|]. by rewrite (graft_none Hwf Hc Hk Hu Ht Hi Hpa Hf He va 3) in Hz by (done || lia).
    * destruct (decide (j = S k)) as [->|]; [lia|exfalso]. destruct (decide (j ≤ k)%nat) as [Hjk|Hjk].
      -- assert (tab (wr t (ix k va) (entry p flags) m) c (S j) va = None) as Hnn
           by (rewrite tab_S, Hz; cbn [mbind option_bind]; unfold interior; by rewrite Hzp).
         by rewrite (tab_none_below _ _ (S j) (S k)) in Hat by (done || lia).
      -- by rewrite (graft_none Hwf Hc Hk Hu Ht Hi Hpa Hf He va j) in Hz by (done || lia).
Qed.

Lemma detach_exact m R c va p d :
  paging_wf m R → R c → user va → page_addr p → (d ≤ 2)%nat →
  let '(r, m') := paging_detach_table_in c va (3 - Z.of_nat d) p m in
  if decide (tab m c (S d) va = Some p) then
    r = 0 ∧ paging_wf m' R ∧ fresh m' R p ∧
    (∀ va', pre (S d) va' = pre (S d) va → translate m' c va' = None) ∧
    (∀ c' va', R c' → c' ≠ c ∨ pre (S d) va' ≠ pre (S d) va → translate m' c' va' = translate m c' va')
  else r = -1 ∧ m' = m.
Proof.
  intros Hwf Hc Hu Hp Hd.
  rewrite (detach_cases m c va _ p d) by (done || apply (wf_root _ _ Hwf c Hc)). case_decide as Hat; [|done].
  pose proof Hat as Hat'. rewrite tab_S in Hat'. destruct (tab m c d va) as [t|] eqn:Ht; [|done].
  assert (paging_wf (wr t (ix d va) 0 m) R) as Hwf' by (apply (wf_cut m R c d); (done || lia)).
  split; [done|]. split; [done|]. split; [split; [done|]|split].
  + intros c' k va' Hc' Hk E. pose proof (cut_tab m R c c' d va va' t k p Hwf Hc Hc' ltac:(lia) Hu Ht Hk E) as E'.
    destruct (wf_sep _ _ Hwf c c' (S d) k va va' p Hc Hc' ltac:(lia) Hk Hu Hat E') as (<- & <- & Epre).
    rewrite tab_ent, (edit_same Hwf c d va va') in E by (done || lia). done.
  + intros va' Hpre. assert (user va') as Hu' by (apply (user_pre (S d) va va'); [lia|done..]).
    apply (translate_none _ R); [done..|]. intros e. unfold ent.
    assert (tab (wr t (ix d va) 0 m) c (S d) va' = None) as Hn by (rewrite tab_ent, (edit_same Hwf c d va va') by (done || lia); done).
    by rewrite (tab_none_below _ _ (S d) 3) by (done || lia).
  + intros c' va' Hc' Hx. apply (edit_translate Hwf c); try done. lia.
Qed.

(** C23: a table enters a walk and leaves it without touching a translation.
    Installing a fresh, empty table fills the highest level that is missing, so that
    one level less is missing, and no translation of any space changes.  Detaching
    succeeds exactly when the table is at that place: it unmaps what was below it
    and nothing else, and the table is then in no walk. *)
Theorem paging_tables_exact m R c va p flags d :
  paging_wf m R → R c → user va → page_addr p → table_flags flags → (d ≤ 2)%nat →
  (fresh m R p → empty_table m p →
   let '(r, m') := paging_install_table_in c va p flags m in
   r = paging_missing_level_in m c va ∧ paging_wf m' R ∧
   (∀ c' va', R c' → translate m' c' va' = translate m c' va') ∧
   if decide (r = 0) then m' = m
   else paging_missing_level_in m' c va = r - 1 ∧ tab m' c (4 - Z.to_nat r) va = Some p) ∧
  (let '(r, m') := paging_detach_table_in c va (3 - Z.of_nat d) p m in
   if decide (tab m c (S d) va = Some p) then
     r = 0 ∧ paging_wf m' R ∧ fresh m' R p ∧
     (∀ va', pre (S d) va' = pre (S d) va → translate m' c va' = None) ∧
     (∀ c' va', R c' → c' ≠ c ∨ pre (S d) va' ≠ pre (S d) va → translate m' c' va' = translate m c' va')
   else r = -1 ∧ m' = m).
Proof. intros Hwf Hc Hu Hp Hfl Hd. split; [by apply install_exact|by apply detach_exact]. Qed.

(** Addresses inside and outside the user window share no table. *)
Lemma user_apart va va' : user va → ¬ user va' → ∀ d, (1 ≤ d ≤ 4)%nat → pre d va' ≠ pre d va.
Proof. intros Hu Hn d Hd E. apply Hn. by apply (user_pre d va va'). Qed.

(** ** Destruction of a space

    [paging_destroy_user_space_from] goes through the tables of the private entry of
    the root, clearing entries and freeing pages.  Every entry it clears is on a user
    path of the space; [swept] collects what that leaves alone. *)

Record swept R c d m m' : Prop := Swept {
  sw_wf    : paging_wf m' R;
  sw_rest  : ∀ c' va', R c' → c' ≠ c ∨ ¬ user va' → translate m' c' va' = translate m c' va';
  sw_above : ∀ va' k, (k ≤ d)%nat → tab m' c k va' = tab m c k va';
}.

Lemma swept_refl R c d m : paging_wf m R → swept R c d m m.
Proof. by split. Qed.

Lemma swept_trans R c d k m m1 m2 : (d ≤ k)%nat → swept R c d m m1 → swept R c k m1 m2 → swept R c d m m2.
Proof.
  intros Hk [A1 A2 A3] [B1 B2 B3]. split; [done|..].
  - intros c' va' Hc' Hx. by rewrite B2, A2.
  - intros va' j Hj. by rewrite B3, A3 by lia.
Qed.

Lemma swept_cut R c d m va t :
  paging_wf m R → R c → (d ≤ 2)%nat → user va → tab m c d va = Some t → swept R c d m (wr t (ix d va) 0 m).
Proof.
  intros Hwf Hc Hd Hu Ht. split; [apply (wf_cut m R c); (done || lia)|..].
  - intros c' va' Hc' Hx. apply (edit_translate Hwf c); try done; [lia|].
    destruct Hx; [by left|right; by apply (user_apart va); [..|lia]].
  - intros va' k Hk. apply (edit_above Hwf c c d); (done || lia).
Qed.

(** The address with the indices of [va] above depth [d] and index [i] there. *)
Definition at_index d va (i : Z) : Z := pre d va * 2 ^ (48 - 9 * Z.of_nat d) + i * 2 ^ sh d.

Lemma at_index_spec d va i : (d ≤ 3)%nat → 0 ≤ i < 512 →
  pre d (at_index d va i) = pre d va ∧ ix d (at_index d va i) = i.
Proof.
  intros Hd Hi.
  assert (0 ≤ pre d va < 2 ^ (9 * Z.of_nat d)) as Hp.
  { unfold pre. pose proof (Z.mod_pos_bound va (2 ^ 48) ltac:(lia)).
    split; [apply Z.div_pos; [lia|apply Z.pow_pos_nonneg; lia]|].
    apply Z.div_lt_upper_bound; [apply Z.pow_pos_nonneg; lia|]. rewrite <-Z.pow_add_r by lia.
    replace (48 - 9 * Z.of_nat d + 9 * Z.of_nat d) with 48 by lia. lia. }
  assert (2 ^ (48 - 9 * Z.of_nat d) = 512 * 2 ^ sh d) as E.
  { unfold sh. change 512 with (2 ^ 9). rewrite <-Z.pow_add_r by lia. f_equal. lia. }
  assert (0 < 2 ^ sh d) as H0 by (unfold sh; apply Z.pow_pos_nonneg; lia).
  assert (at_index d va i mod 2 ^ 48 = at_index d va i) as Hm.
  { apply Z.mod_small. unfold at_index. rewrite E.
    assert (2 ^ 48 = 2 ^ (9 * Z.of_nat d) * (512 * 2 ^ sh d)) as ->
      by (rewrite <-E, <-Z.pow_add_r by lia; f_equal; lia). nia. }
  assert (∀ z : Z, z = 39 - 9 * Z.of_nat d → at_index d va i / 2 ^ z = pre d va * 512 + i) as Hdiv.
  { intros z ->. fold (sh d). unfold at_index. rewrite E.
    replace (pre d va * (512 * 2 ^ sh d) + i * 2 ^ sh d) with ((pre d va * 512 + i) * 2 ^ sh d) by lia.
    apply Z.div_mul. lia. }
  assert (pre d (at_index d va i) = pre d va) as Hpre.
  { unfold pre at 1. rewrite Hm, E, Z.mul_comm, <-Z.div_div by lia.
    unfold sh. rewrite Hdiv by done. rewrite Z.add_comm, Z.div_add by lia. rewrite Z.div_small by lia. done. }
  split; [done|]. pose proof (pre_S d (at_index d va i) Hd) as HS. rewrite Hpre in HS.
  unfold pre in HS at 1. rewrite Hm, Hdiv in HS by lia. lia.
Qed.

Section destroy.
Context (R : Z → Prop) (c : Z) (Hc : R c).

(** The table of [va] at depth [d], in state [s]. *)
Lemma destroy_level_swept level : ∀ d t va s s',
  (level + d = 4)%nat → (1 ≤ level ≤ 3)%nat → paging_wf (mem s) R → user va → tab (mem s) c d va = Some t →
  destroy_pt_level level t s = Ret s' → swept R c d (mem s) (mem s').
Proof.
  assert (∀ t s s', free_page t s = Ret s' → mem s' = mem s) as Hfree.
  { intros t s s' H. unfold free_page in H. by apply res_bind_Ret in H as (q & _ & [= <-]). }
  induction level as [|[|level] IH]; intros d t va s s' Hd Hl Hwf Hu Ht H; [lia| |].
  { apply Hfree in H. rewrite H. by apply swept_refl. }
  cbn [destroy_pt_level] in H. apply res_bind_Ret in H as (s1 & Hloop & Hend). rewrite (Hfree _ _ _ Hend). clear Hend Hfree.
  revert s1 Hloop. match goal with |- ∀ s1, for_up _ ?f _ = _ → _ => set (body := f) end.
  apply (for_up_ind (λ _ r, ∀ s1, r = Ret s1 → swept R c d (mem s) (mem s1))); [done| |].
  { intros s1 [= <-]. by apply swept_refl. }
  intros i r Hi Hr s2 H2. unfold body in H2. apply res_bind_Ret in H2 as (s1 & -> & H2). specialize (Hr s1 eq_refl).
  destruct (negb (has _ PAGE_PRESENT)) eqn:Ep; [by injection H2 as <-|].
  destruct (has _ PAGE_HUGE) eqn:Eh; [by injection H2 as <-|].
  apply res_bind_Ret in H2 as (s3 & H3 & [= <-]). apply negb_false_iff in Ep.
  destruct (at_index_spec d va i) as [Hpre Hix]; [lia|done|]. set (vi := at_index d va i) in *.
  assert (user vi) as Hui by (apply (user_pre d va vi); [lia|done..]).
  assert (tab (mem s1) c d vi = Some t) as Hti
    by (rewrite (sw_above _ _ _ _ _ Hr) by lia; rewrite (tab_pre _ c d vi va) by (lia || done); done).
  assert (tab (mem s1) c (S d) vi = Some (pa (rd (mem s1) t i))) as Hc1
    by (rewrite tab_S, Hti; cbn [mbind option_bind]; rewrite Hix; unfold interior; by rewrite Ep, Eh).
  pose proof (IH (S d) _ vi s1 s3 ltac:(lia) ltac:(lia) (sw_wf _ _ _ _ _ Hr) Hui Hc1 H3) as Hsub.
  assert (swept R c d (mem s1) (mem s3)) as Hsub'
    by (apply (swept_trans R c d (S d) _ (mem s1)); [lia|apply swept_refl, Hr|exact Hsub]).
  apply (swept_trans R c d d _ (mem s1)); [lia|exact Hr|]. cbn [mem put on_mem with_mem].
  apply (swept_trans R c d d _ (mem s3)); [lia|exact Hsub'|]. rewrite <-Hix.
  apply swept_cut; [apply Hsub'|done|lia|done|]. rewrite (sw_above _ _ _ _ _ Hsub') by lia. done.
Qed.

Lemma destroy_swept pooled s s' :
  paging_wf (mem s) R → paging_destroy_user_space_from c pooled s = Ret s' → swept R c 0 (mem s) (mem s').
Proof.
  intros Hwf H. unfold paging_destroy_user_space_from in H.
  rewrite (proj2 (Z.eqb_neq c 0)) in H by apply (wf_root _ _ Hwf c Hc).
  apply res_bind_Ret in H as (s1 & H1 & H2).
  assert (mem s' = mem s1) as ->.
  { destruct pooled; [by injection H2 as <-|]. unfold free_page in H2. by apply res_bind_Ret in H2 as (q & _ & [= <-]). }
  destruct (has _ PAGE_PRESENT) eqn:Ep; [|injection H1 as <-; by apply swept_refl].
  apply res_bind_Ret in H1 as (s2 & H1 & [= <-]). cbn [mem put on_mem with_mem].
  assert (user USER_PRIVATE_BASE) as Hu by (apply user_range; done).
  change USER_PRIVATE_PML4_INDEX with (ix 0 USER_PRIVATE_BASE) in *.
  destruct (wf_open _ _ Hwf c 0 USER_PRIVATE_BASE _ Hc ltac:(lia) Hu eq_refl Ep) as [Eh _].
  assert (tab (mem s) c 1 USER_PRIVATE_BASE = Some (pa (rd (mem s) c (ix 0 USER_PRIVATE_BASE)))) as Ht
    by (rewrite tab_S; cbn [tab mbind option_bind]; unfold interior; by rewrite Ep, Eh).
  pose proof (destroy_level_swept 3 1 _ _ s s2 eq_refl ltac:(lia) Hwf Hu Ht H1) as Hs.
  eapply (swept_trans R c 0 0); [lia|eapply (swept_trans R c 0 1); [lia|by apply swept_refl|exact Hs]|].
  apply swept_cut; [apply Hs|done|lia|done|done].
Qed.
End destroy.

(** ** Histories *)

Lemma off_translate m R p m' c va : paging_wf m R → fresh m R p → same_off p m m' → R c →
  translate m' c va = translate m c va.
Proof.
  intros Hwf [Hp Hf] Hs Hc. apply translate_ext. intros k Hk.
  apply (ent_off p); try done; [by apply page_addr_aligned|by apply (wf_root _ _ Hwf)|]. intros d Hd. by apply Hf.
Qed.

(** The edits, with the space each acts on.  A table is zeroed before it is
    installed ([kpagetable_zero]); a root page enters the set of spaces when it is
    initialised and leaves it when the space is destroyed. *)
Inductive pg_op :=
  | OMap (c va phys flags : Z)
  | OUnmap (c va : Z)
  | OInstall (c va p flags : Z)
  | ODetach (c va : Z) (d : nat) (p : Z)
  | ONew (p : Z)
  | ODrop (p : Z) (pooled : bool).

Definition op_space (o : pg_op) : Z :=
  match o with OMap c _ _ _ | OUnmap c _ | OInstall c _ _ _ | ODetach c _ _ _ | ONew c | ODrop c _ => c end.

Definition pg_exec (kr : Z) (o : pg_op) (s : pgs) : res pgs :=
  match o with
  | OMap c va phys flags => Ret (with_mem (paging_map_strict_in c va phys flags (mem s)).2 s)
  | OUnmap c va => Ret (paging_unmap_in c va s)
  | OInstall c va p flags => Ret (with_mem (paging_install_table_in c va p flags (zero_table p (mem s))).2 s)
  | ODetach c va d p => Ret (with_mem (paging_detach_table_in c va (3 - Z.of_nat d) p (mem s)).2 s)
  | ONew p => Ret (with_mem (paging_init_user_pml4 kr p (mem s)) s)
  | ODrop c pooled => paging_destroy_user_space_from c pooled s
  end.

(** What the callers check before each. *)
Definition pg_guard (kr : Z) (o : pg_op) m R : Prop :=
  match o with
  | OMap c va phys flags => R c ∧ user va ∧ flags_only flags
  | OUnmap c va => R c ∧ user va
  | OInstall c va p flags => R c ∧ user va ∧ table_flags flags ∧ fresh m R p
  | ODetach c va d p => R c ∧ user va ∧ (d ≤ 2)%nat ∧ page_addr p
  | ONew p => fresh m R p
  | ODrop c _ => R c ∧ c ≠ kr
  end.
Definition pg_spaces (o : pg_op) R : Z → Prop :=
  match o with ONew p => λ c, c = p ∨ R c | ODrop p _ => λ c, R c ∧ c ≠ p | _ => R end.

Inductive pg_run (kr : Z) : list pg_op → pgs → (Z → Prop) → pgs → (Z → Prop) → Prop :=
  | run_nil s R : pg_run kr [] s R s R
  | run_cons o ops s R s1 s' R' : pg_guard kr o (mem s) R → pg_exec kr o s = Ret s1 →
      pg_run kr ops s1 (pg_spaces o R) s' R' → pg_run kr (o :: ops) s R s' R'.

Lemma new_translate m R kr p va : paging_wf m R → R kr → fresh m R p → ¬ user va →
  translate (paging_init_user_pml4 kr p m) p va = translate m kr va.
Proof.
  intros Hwf Hkr Hf Hu. destruct (new_root_spec Hwf Hkr Hf) as [Hs Hr].
  rewrite <-(off_translate m R p _ kr va Hwf Hf Hs Hkr).
  enough (rd (paging_init_user_pml4 kr p m) p (ix 0 va) = rd (paging_init_user_pml4 kr p m) kr (ix 0 va)) as E
    by (unfold translate; cbn [mmu]; by rewrite E).
  pose proof (ix_range 0 va ltac:(lia)) as Hi. unfold user in Hu. rewrite (Hr _ Hi). rewrite decide_True by lia.
  symmetry. apply (same_off_rd p); [apply page_addr_aligned, Hf|done|by apply (wf_root _ _ Hwf)|done|].
  intros ->. destruct Hf as [_ Hf]. by apply (Hf p 0%nat 0 Hkr ltac:(lia)).
Qed.

(** One edit: the spaces stay apart, every other space and every address outside the
    user window translates as before, and a new space sees what the kernel sees
    there. *)
Lemma pg_step_ok kr o s R s1 :
  paging_wf (mem s) R → R kr → pg_guard kr o (mem s) R → pg_exec kr o s = Ret s1 →
  paging_wf (mem s1) (pg_spaces o R) ∧ pg_spaces o R kr ∧
  (∀ c va, R c → op_space o ≠ c ∨ ¬ user va → translate (mem s1) c va = translate (mem s) c va) ∧
  (∀ c va, pg_spaces o R c → ¬ R c → ¬ user va → translate (mem s1) c va = translate (mem s) kr va).
Proof.
  intros Hwf Hkr Hg Hx. destruct o as [c va phys flags|c va|c va p flags|c va d p|p|p pooled];
    cbn [pg_exec pg_spaces op_space pg_guard] in *; [injection Hx as <-..|].
  - destruct Hg as (Hc & Hu & Hfl). pose proof (map_exact s R c va phys flags Hwf Hc Hu Hfl) as H.
    destruct (paging_map_strict_in c va phys flags (mem s)) as [r m']. destruct H as (_ & _ & Hwf' & H).
    cbn [snd mem with_mem]. split; [done|]. split; [done|]. split; [|done]. intros c' va' Hc' Hx.
    case_decide; [|by subst]. apply (proj2 H); [done|]. destruct Hx; [left; congruence|right; by apply (user_apart va); [..|lia]].
  - destruct Hg as (Hc & Hu). destruct (unmap_exact s R c va Hwf Hc Hu) as (Hwf' & _ & _ & H & _).
    split; [done|]. split; [done|]. split; [|done]. intros c' va' Hc' Hx.
    apply H; [done|]. destruct Hx; [left; congruence|right; by apply (user_apart va); [..|lia]].
  - destruct Hg as (Hc & Hu & Hfl & Hf). destruct (zero_table_spec p (mem s)) as [He Hs].
    destruct (wf_off p (mem s) _ R Hwf Hf Hs) as [Hwf1 Hf1].
    pose proof (install_exact _ R c va p flags Hwf1 Hc Hu (proj1 Hf) Hfl Hf1 He) as H.
    destruct (paging_install_table_in c va p flags _) as [r m']. destruct H as (_ & Hwf' & H & _).
    cbn [snd mem with_mem]. split; [done|]. split; [done|]. split; [|done]. intros c' va' Hc' _.
    rewrite H by done. by apply (off_translate _ R p).
  - destruct Hg as (Hc & Hu & Hd & Hp). pose proof (detach_exact (mem s) R c va p d Hwf Hc Hu Hp Hd) as H.
    destruct (paging_detach_table_in c va _ p (mem s)) as [r m']. cbn [snd mem with_mem].
    case_decide; [|destruct H as [_ ->]; done]. destruct H as (_ & Hwf' & _ & _ & H).
    split; [done|]. split; [done|]. split; [|done]. intros c' va' Hc' Hx.
    apply H; [done|]. destruct Hx; [left; congruence|right; apply (user_apart va); [done..|lia]].
  - cbn [mem with_mem]. split; [by apply wf_new_root|]. split; [by right|]. split.
    + intros c' va' Hc' _. apply (off_translate _ R p); [done..| |done]. by apply (new_root_spec Hwf Hkr Hg).
    + intros c' va' [->|Hc'] Hn Hu; [by apply (new_translate _ R)|done].
  - destruct Hg as [Hp Hne]. destruct (destroy_swept R p Hp pooled s s1 Hwf Hx) as [[H1 H2 H3] Hrest _].
    split; [|split; [by split|split; [|by intros c va [? _]]]].
    + split; [by intros c [? _]; apply H1| |].
      * intros a b j k x y z [Ha _] [Hb _]. by eapply H2.
      * intros a k x e [Ha _]. by eapply H3.
    + intros c va Hc Hd. apply Hrest; [done|]. destruct Hd; [left; congruence|by right].
Qed.

(** C8: address spaces are isolated.  From any set of spaces with separate tables
    that agree with the kernel outside the user window, and after any history of
    maps, unmaps, table installs and detaches, initialisations of root pages and
    destructions of spaces (with the sweep through the tables they still have), the
    tables are still separate; every space still sees, outside the user window,
    exactly what the kernel saw at the start; and a space no edit named translates
    every address as it did. *)
Theorem paging_trace_isolated kr ops s R s' R' :
  paging_wf (mem s) R → R kr →
  (∀ c va, R c → ¬ user va → translate (mem s) c va = translate (mem s) kr va) →
  pg_run kr ops s R s' R' →
  paging_wf (mem s') R' ∧
  (∀ c va, R' c → ¬ user va → translate (mem s') c va = translate (mem s) kr va) ∧
  (∀ c va, R c → (∀ o, o ∈ ops → op_space o ≠ c) → R' c ∧ translate (mem s') c va = translate (mem s) c va).
Proof.
  intros Hwf Hkr Hsh Hrun. induction Hrun as [|o ops s R s1 s' R' Hg Hx Hrun IH]; [done|].
  destruct (pg_step_ok kr o s R s1 Hwf Hkr Hg Hx) as (Hwf1 & Hkr1 & Hold & Hnew).
  assert (∀ va, ¬ user va → translate (mem s1) kr va = translate (mem s) kr va) as Hk
    by (intros va Hu; apply Hold; [done|by right]).
  assert (∀ c, pg_spaces o R c → R c ∨ ¬ R c ∧ ∃ p, o = ONew p) as Hcase.
  { intros c. destruct o as [| | | |p|p pooled]; cbn [pg_spaces]; [by left..| |by intros [? _]; left].
    intros [->|?]; [|by left]. right. split; [|by eauto]. intros HR. destruct Hg as [_ Hf].
    by apply (Hf p 0%nat 0 HR ltac:(lia)). }
  destruct IH as (H1 & H2 & H3); [done..| |].
  - intros c va Hc Hu. rewrite Hk by done. destruct (Hcase c Hc) as [HR|[HnR _]]; [|by apply Hnew].
    rewrite Hold by (done || by right). by apply Hsh.
  - split; [done|]. split; [intros c va Hc Hu; by rewrite H2, Hk|].
    intros c va Hc Hno. assert (op_space o ≠ c) as Hoc by (apply Hno; left).
    assert (pg_spaces o R c) as Hc1 by (destruct o; cbn [pg_spaces op_space] in *; [done..|by right|by split]).
    destruct (H3 c va Hc1) as [HR' ->]; [intros o' Ho'; apply Hno; by right|]. split; [done|]. apply Hold; [done|by left].
Qed.

(** ** A system of two spaces *)

(** A page no edit installs stays out of every walk; spaces that end aside, which the
    witness does not need. *)
Definition op_page (o : pg_op) : option Z :=
  match o with OInstall _ _ p _ | ONew p => Some p | _ => None end.
Definition is_drop (o : pg_op) : bool := match o with ODrop _ _ => true | _ => false end.

Lemma pg_step_fresh kr o s R s1 q :
  paging_wf (mem s) R → R kr → pg_guard kr o (mem s) R → pg_exec kr o s = Ret s1 → is_drop o = false →
  fresh (mem s) R q → op_page o ≠ Some q → fresh (mem s1) (pg_spaces o R) q.
Proof.
  intros Hwf Hkr Hg Hx Hdr [Hq Hfq] Ho. split; [done|]. intros a k x Ha Hk E.
  destruct o as [c va phys flags|c va|c va p flags|c va d p|p|p pooled];
    cbn [pg_exec pg_spaces op_page pg_guard is_drop] in *; [injection Hx as <-..|done]; cbn [mem with_mem] in *.
  - destruct Hg as (Hc & Hu & _). destruct (map_strict_cases (mem s) R c va phys flags Hwf Hc Hu) as [(t & Ht & _ & Em)|(_ & _ & Em)];
      rewrite Em in E; cbn [snd] in E; [rewrite (edit_above Hwf c a 3) in E by (done || lia)|]; by apply Hfq in E.
  - destruct Hg as (Hc & Hu). unfold paging_unmap_in in E. rewrite walk_pt_tab in E.
    destruct (tab (mem s) c 3 va) as [t|] eqn:Ht; cbn [mem do_invlpg put on_mem with_mem] in E; [|by apply Hfq in E].
    change (PT_IDX va) with (ix 3 va) in E. rewrite (edit_above Hwf c a 3) in E by (done || lia). by apply Hfq in E.
  - destruct Hg as (Hc & Hu & Hfl & Hf). destruct (zero_table_spec p (mem s)) as [He Hs].
    destruct (wf_off p (mem s) _ R Hwf Hf Hs) as [Hwf1 Hf1]. destruct (table_entry p flags (proj1 Hf) Hfl) as (Hi & Hop & Hpa).
    assert (tab (zero_table p (mem s)) a k x ≠ Some q) as Hz.
    { rewrite (proj1 (ent_off p (mem s) _ a x k (page_addr_aligned p (proj1 Hf)) (proj1 (wf_root _ _ Hwf a Ha)) Hs
        (λ d Hd, proj2 Hf a d x Ha Hd) Hk)). by apply Hfq. }
    destruct (install_cases _ R c va p flags Hwf1 Hc Hu (proj1 Hf)) as [[_ Em]|(j & t & Hj & Ht & _ & _ & Em)];
      rewrite Em in E; cbn [snd] in E; [done|].
    destruct (graft_tab Hwf1 Hc Hj Hu Ht Hi Hpa Hf1 He a k x q Ha Hk E) as [?|[-> _]]; [done|]. by apply Ho.
  - destruct Hg as (Hc & Hu & Hd & Hp). rewrite (detach_cases (mem s) c va _ p d) in E by (done || apply (wf_root _ _ Hwf c Hc)).
    case_decide; cbn [snd] in E; [|by apply Hfq in E].
    destruct (tab (mem s) c d va) as [t|] eqn:Ht; [|by apply Hfq in E].
    apply (cut_tab (mem s) R c a d va x t k q Hwf Hc Ha ltac:(lia) Hu Ht Hk) in E. by apply Hfq in E.
  - destruct Ha as [->|Ha].
    + destruct (new_root_tab Hwf Hkr Hg x k q Hk E) as [[_ ->]|(_ & _ & E')]; [by apply Ho|by apply Hfq in E'].
    + rewrite (proj1 (new_root_old Hwf Hkr Hg a k x Ha Hk)) in E. by apply Hfq in E.
Qed.

(** Every page is in use as far as the allocator knows. *)
Definition blank : pgs := Pgs (λ _, 0) 0x1000 (Pmm (λ _, 2 ^ 64 - 1) (λ _, 0) (PmmList.Links (λ n, n) (λ n, n)) false 0 0 0) [].
Definition only_kernel : Z → Prop := λ c, c = 0x1000.
Definition demo_va : Z := 0x8000200000.
Definition demo_ops : list pg_op :=
  [ONew 0x2000; OInstall 0x2000 demo_va 0x3000 7; OInstall 0x2000 demo_va 0x4000 7; OInstall 0x2000 demo_va 0x5000 7;
   OMap 0x2000 demo_va 0x9000 (2 ^ 63 + 7)].

Lemma blank_tab d va : tab (mem blank) 0x1000 (S d) va = None.
Proof. apply (tab_none_below _ _ 1); [done|lia]. Qed.

Lemma blank_wf : paging_wf (mem blank) only_kernel.
Proof.
  split.
  - intros c ->. done.
  - intros c c' d d' va va' t -> -> Hd Hd' Hu T T'. destruct d as [|d]; [|by rewrite blank_tab in T].
    destruct d' as [|d']; [by rewrite !pre_0|by rewrite blank_tab in T'].
  - intros c d va e -> Hd Hu He. destruct d as [|d]; [injection He as <-; done|]. unfold ent in He. by rewrite blank_tab in He.
Qed.

Lemma blank_fresh p : page_addr p → p ≠ 0x1000 → fresh (mem blank) only_kernel p.
Proof.
  intros Hp Hn. split; [done|]. intros c d va -> Hd E. destruct d as [|d]; [injection E as E; done|by rewrite blank_tab in E].
Qed.

(** The pages still free after a history whose edits install others. *)
Lemma run_fresh kr ops q : ∀ s R s' R', paging_wf (mem s) R → R kr → fresh (mem s) R q →
  pg_run kr ops s R s' R' → (∀ o, o ∈ ops → op_page o ≠ Some q ∧ is_drop o = false) → fresh (mem s') R' q.
Proof.
  induction ops as [|o ops IH]; intros s R s' R' Hwf Hkr Hf Hrun Ho; inversion Hrun as [|? ? ? ? s1]; subst; [done|].
  destruct (pg_step_ok kr o s R s1) as (Hwf1 & Hkr1 & _); [done..|].
  eapply IH; [exact Hwf1|exact Hkr1| |eassumption|intros o' Ho'; apply Ho; by right].
  destruct (Ho o) as [Ho1 Ho2]; [left|]. by apply (pg_step_fresh kr o s R s1).
Qed.

Lemma run_snoc kr ops o s R s' R' s1 :
  pg_run kr ops s R s' R' → pg_guard kr o (mem s') R' → pg_exec kr o s' = Ret s1 →
  pg_run kr (ops ++ [o]) s R s1 (pg_spaces o R').
Proof.
  induction 1 as [|o' ops s R s2 s' R' Hg' Hx' _ IH]; intros Hg Hx; [econstructor; [done|done|constructor]|].
  simpl. econstructor; [done|exact Hx'|]. by apply IH.
Qed.

Ltac member := apply (bool_decide_unpack _); vm_compute; exact I.
Ltac others := apply Forall_forall; cbn; repeat constructor; try discriminate.

Definition pg_next (s : pgs) (o : pg_op) : pgs := match pg_exec 0x1000 o s with Ret s => s | _ => s end.

Lemma demo_run : ∃ s' R', pg_run 0x1000 demo_ops blank only_kernel s' R' ∧ s' = foldl pg_next blank demo_ops ∧ R' 0x2000.
Proof.
  assert (∀ p, p ∈ [0x2000; 0x3000; 0x4000; 0x5000] → page_addr p ∧ p ≠ 0x1000) as Hp
    by (intros p H; repeat (apply elem_of_cons in H as [->|H]; [by split; [split|]|]); by apply not_elem_of_nil in H).
  assert (∀ p, p ∈ [0x2000; 0x3000; 0x4000; 0x5000] → fresh (mem blank) only_kernel p) as Hb
    by (intros p H; destruct (Hp p H); by apply blank_fresh).
  assert (table_flags 7) as Hfl by done.
  assert (user demo_va) as Hu by (apply user_range; done).
  pose proof (run_nil 0x1000 blank only_kernel) as H0.
  assert (∀ ops s' R', pg_run 0x1000 ops blank only_kernel s' R' → ∀ p, p ∈ [0x2000; 0x3000; 0x4000; 0x5000] →
    (∀ o, o ∈ ops → op_page o ≠ Some p ∧ is_drop o = false) → fresh (mem s') R' p) as Hfr
    by (intros ops s' R' H p Hin; eapply run_fresh; [exact blank_wf|done|by apply Hb|exact H]).
  pose proof (run_snoc _ _ (ONew 0x2000) _ _ _ _ _ H0 (Hfr _ _ _ H0 0x2000 ltac:(member) ltac:(others)) eq_refl) as H1.
  pose proof (run_snoc _ _ (OInstall 0x2000 demo_va 0x3000 7) _ _ _ _ _ H1
    (conj (or_introl eq_refl) (conj Hu (conj Hfl (Hfr _ _ _ H1 0x3000 ltac:(member) ltac:(others))))) eq_refl) as H2.
  pose proof (run_snoc _ _ (OInstall 0x2000 demo_va 0x4000 7) _ _ _ _ _ H2
    (conj (or_introl eq_refl) (conj Hu (conj Hfl (Hfr _ _ _ H2 0x4000 ltac:(member) ltac:(others))))) eq_refl) as H3.
  pose proof (run_snoc _ _ (OInstall 0x2000 demo_va 0x5000 7) _ _ _ _ _ H3
    (conj (or_introl eq_refl) (conj Hu (conj Hfl (Hfr _ _ _ H3 0x5000 ltac:(member) ltac:(others))))) eq_refl) as H4.
  pose proof (run_snoc _ _ (OMap 0x2000 demo_va 0x9000 (2 ^ 63 + 7)) _ _ _ _ _ H4
    (conj (or_introl eq_refl) (conj Hu eq_refl)) eq_refl) as H5.
  eexists _, _. split; [exact H5|]. split; [reflexivity|by left].
Qed.

(** The address space built: one page, writable, for ring 3, and nothing else. *)
Definition demo : pgs := foldl pg_next blank demo_ops.

Lemma demo_translate :
  translate (mem demo) 0x2000 (demo_va + 0x123) = Some (0x9123, true, true) ∧
  translate (mem demo) 0x2000 (demo_va + 0x1000) = None ∧ translate (mem demo) 0x1000 demo_va = None.
Proof. split_and!; vm_compute; reflexivity. Qed.

(** The space then ends: three tables are swept and freed. *)
Lemma demo_drop : ∃ s1, pg_exec 0x1000 (ODrop 0x2000 true) demo = Ret s1.
Proof.
  assert (match pg_exec 0x1000 (ODrop 0x2000 true) demo with Ret _ => true | _ => false end = true) as H
    by (vm_compute; reflexivity).
  destruct (pg_exec 0x1000 (ODrop 0x2000 true) demo) as [s1| |]; [by exists s1|done..].
Qed.

Lemma paging_trace_isolated_witness :
  translate (mem demo) 0x2000 (demo_va + 0x123) = Some (0x9123, true, true) ∧
  ∃ s1, pg_exec 0x1000 (ODrop 0x2000 true) demo = Ret s1 ∧
    (∀ va, translate (mem s1) 0x1000 va = translate (mem blank) 0x1000 va).
Proof.
  split; [exact (proj1 demo_translate)|]. destruct demo_run as (s' & R' & Hrun & Es & HR). destruct demo_drop as [s1 H1].
  exists s1. split; [done|]. intros va. change demo with (foldl pg_next blank demo_ops) in H1. rewrite <-Es in H1.
  assert (0x2000 ≠ 0x1000) as Hne by discriminate.
  pose proof (run_snoc _ _ (ODrop 0x2000 true) _ _ _ _ _ Hrun (conj HR Hne) H1) as Hrun1.
  refine (proj2 (proj2 (proj2 (paging_trace_isolated 0x1000 _ blank only_kernel s1 _ blank_wf eq_refl _ Hrun1)) 0x1000 va eq_refl _)).
  - intros c va' -> _. reflexivity.
  - apply Forall_forall. repeat constructor; discriminate.
Defined.

Lemma demo_wf : paging_wf (mem demo) (λ c, c = 0x2000 ∨ only_kernel c).
Proof.
  destruct demo_run as (s' & R' & Hrun & Es & _).
  assert (paging_wf (mem s') R') as Hwf.
  { clear Es. revert Hrun. generalize demo_ops as ops. intros ops Hrun.
    assert (only_kernel 0x1000) as Hkr by reflexivity. pose proof blank_wf as Hwf. revert Hkr Hwf.
    induction Hrun as [|o ops s R s1 s' R' Hg Hx Hrun IH]; [done|]. intros Hkr Hwf.
    destruct (pg_step_ok 0x1000 o s R s1 Hwf Hkr Hg Hx) as (Hwf1 & Hkr1 & _). by apply IH. }
  rewrite Es in Hwf. assert (R' = λ c, c = 0x2000 ∨ only_kernel c) as <-; [|exact Hwf].
  clear -Hrun. unfold demo_ops in Hrun.
  do 5 (inversion Hrun as [|? ? ? ? ? ? ? _ _ H E1 E2]; subst; clear Hrun; rename H into Hrun; cbn [pg_spaces] in Hrun).
  by inversion Hrun.
Qed.

Lemma paging_map_unmap_exact_witness :
  (let '(r, m') := paging_map_strict_in 0x2000 (demo_va + 0x1000) 0x7000 PAGE_USER (mem demo) in
   r = 0 ∧ translate m' 0x2000 (demo_va + 0x1234) = Some (0x7234, false, true) ∧
   translate m' 0x2000 demo_va = translate (mem demo) 0x2000 demo_va) ∧
  invlpg (paging_unmap_in 0x2000 demo_va demo) = [demo_va] ∧
  (∀ va, pre 4 va ≠ pre 4 demo_va → translate (mem (paging_unmap_in 0x2000 demo_va demo)) 0x2000 va = translate (mem demo) 0x2000 va).
Proof.
  pose proof (paging_map_unmap_exact demo _ 0x2000 (demo_va + 0x1000) 0x7000 PAGE_USER demo_wf (or_introl eq_refl)
    (user_range (demo_va + 0x1000) ltac:(split; reflexivity || discriminate)) eq_refl) as [Hm _].
  destruct (paging_map_strict_in 0x2000 (demo_va + 0x1000) 0x7000 PAGE_USER (mem demo)) as [r m'] eqn:E.
  assert (r = 0) as -> by (change r with (r, m').1; rewrite <-E; vm_compute; reflexivity).
  destruct Hm as (_ & _ & _ & Hin & Hout). split; [split; [reflexivity|split]|].
  - rewrite (proj1 (Hin (demo_va + 0x1234) ltac:(vm_compute; reflexivity))). vm_compute. reflexivity.
  - apply Hout; [by left|right; vm_compute; discriminate].
  - destruct (paging_map_unmap_exact demo _ 0x2000 demo_va 0 0 demo_wf (or_introl eq_refl)
      (user_range demo_va ltac:(split; reflexivity || discriminate)) eq_refl) as (_ & _ & _ & _ & Hu & Hi).
    split; [apply Hi; vm_compute; discriminate|]. intros va Hva. apply Hu; [by left|by right].
Defined.

Lemma paging_tables_exact_witness :
  (let '(r, m') := paging_detach_table_in 0x2000 demo_va 1 0x5000 (mem demo) in
   r = 0 ∧ translate m' 0x2000 (demo_va + 0x123) = None).
Proof.
  assert (user demo_va) as Hu by (apply user_range; done).
  assert (page_addr 0x5000) as Hp by done. assert (table_flags 7) as Hf by done. assert (2 ≤ 2)%nat as Hd by lia.
  destruct (paging_tables_exact (mem demo) _ 0x2000 demo_va 0x5000 7 2 demo_wf (or_introl eq_refl) Hu Hp Hf Hd) as [_ H].
  change (3 - Z.of_nat 2) with 1 in H.
  destruct (paging_detach_table_in 0x2000 demo_va 1 0x5000 (mem demo)) as [r m'].
  rewrite decide_True in H by (vm_compute; reflexivity). destruct H as (-> & _ & _ & Hn & _).
  split; [reflexivity|]. apply Hn. vm_compute. reflexivity.
Defined.

Lemma demo_no_large : no_large (mem demo) 0x2000 (demo_va + 0x123).
Proof.
  assert (ent (mem demo) 0x2000 0 (demo_va + 0x123) = Some 0x3007) as E0 by (vm_compute; reflexivity).
  assert (ent (mem demo) 0x2000 1 (demo_va + 0x123) = Some 0x4007) as E1 by (vm_compute; reflexivity).
  intros d e Hd He _. destruct d as [|[|d]]; [rewrite E0 in He|rewrite E1 in He|lia]; injection He as <-; reflexivity.
Qed.

Lemma paging_walk_correct_witness :
  paging_virt_to_phys_in (mem demo) 0x2000 (demo_va + 0x123) = 0x9123.
Proof.
  assert (0x2000 ≠ 0) as Hc by discriminate.
  destruct (paging_walk_correct (mem demo) 0x2000 (demo_va + 0x123) Hc demo_no_large) as [H _].
  rewrite H, (proj1 demo_translate). reflexivity.
Defined.
