(* ===== verification/Vspace.v ===== *)
(** * Address spaces and frames (kernel/new_core/src: kvspace.c, kframe.c,
      kpagetable.c)

    An address space has a root table, a list of mapping records (one per mapped
    frame), and a list of the page tables its holder installed; a frame has the list
    of its mapping records over all spaces.  What the address spaces need of the
    capability layer and of the Untypeds is the class [VmCaps]: the capability a
    space holds to what it maps, references on objects, storage for mapping records.
    [VspaceCaps] implements it with CNodes and Untypeds.

    A mapping record is an [mnode] and its fields are functions; [fuel] is the
    number of records a list can have.  The cross-processor invalidations are the
    list [shoot]; statistics are left out. *)

From Stdlib Require Import ZArith Lia.
From stdpp Require Import base numbers list.
From S2P Require Import Prelude Rights Slist Pmm Paging.
Local Open Scope Z_scope.

(** ** What the capability layer provides *)

Class VmCaps (C : Type) := {
  map_cap_has : N → N → C → bool;                    (* kvspace_map_cap_has_locked(vs, obj) *)
  map_cap_install : N → option N → N → option (N * N) → C → res (iris_error_t * C);
                                                     (* kvspace_map_cap_install: space, pool, object, source slot *)
  map_cap_delete : N → N → C → res (bool * C);       (* the slot of kvspace_map_cap_slot deleted: was there one *)
  obj_retain : N → C → res C;
  obj_release : N → C → res C;
  rec_alloc : N → C → res (option Z * C);            (* kuntyped_alloc_child_top(pool, sizeof(KFrameMapping)) *)
}.

(** ** State *)

(** A mapping record of the bootstrap arena, or a block of an Untyped. *)
Inductive mnode := Boot (i : N) | Blk (a : Z).
#[global] Instance mnode_eq_dec : EqDecision mnode.
Proof. solve_decision. Defined.

Definition KVSPACE_BOOT_NODES : N := 48.     (* KVSPACE_BOOTSTRAP_FRAME_MAX + 16 *)

Record KFrame := Frame { f_paddr : Z; f_size : Z; mapped_count : Z; f_maps : option mnode }.
Record KPageTable := PageTable { pt_paddr : Z; mapped_vs : option N; mapped_va : Z; level : Z }.
Record KVSpace := VSpace {
  cr3           : Z;
  valid         : bool;
  mapping_count : Z;
  mappings      : option mnode;
  pt_pool       : option N;
  free_nodes    : option mnode;
  tables        : option N;
}.

Record vm (C : Type) := Vm {
  cs         : C;
  pg         : pgs;
  vss        : N → KVSpace;
  frs        : N → KFrame;
  pts        : N → KPageTable;
  pt_next    : N → option N;
  (* struct KFrameMapping *)
  m_frame    : mnode → option N;
  m_va       : mnode → Z;
  m_next     : mnode → option mnode;
  m_vs       : mnode → option N;
  frame_next : mnode → option mnode;
  m_epoch    : mnode → Z;
  m_boot     : mnode → bool;
  (* the bootstrap arena *)
  boot_next  : N;
  boot_free  : option mnode;
  fin_epoch  : Z;                  (* kvspace_finalise_epoch *)
  shoot      : list (N * Z);       (* tlb_shootdown_page(vs, va), newest first *)
  tlim       : nat;                (* page tables there are *)
}.
Arguments Vm {_}. Arguments cs {_}. Arguments pg {_}. Arguments vss {_}. Arguments frs {_}. Arguments pts {_}.
Arguments pt_next {_}. Arguments m_frame {_}. Arguments m_va {_}. Arguments m_next {_}. Arguments m_vs {_}.
Arguments frame_next {_}. Arguments m_epoch {_}. Arguments m_boot {_}. Arguments boot_next {_}.
Arguments boot_free {_}. Arguments fin_epoch {_}. Arguments shoot {_}. Arguments tlim {_}.

Definition kframe_va_valid (va : Z) : bool :=
  if negb (Z.land va 0xFFF =? 0) then false
  else if va <? USER_PRIVATE_BASE then false
  else if USER_SPACE_TOP <=? va then false
  else Z.shiftr va 47 =? 0.

Definition pages_of (f : KFrame) : Z := let p := Z.shiftr (f_size f) 12 in if p =? 0 then 1 else p.
Definition page_va (va i : Z) : Z := u64 (va + Z.shiftl i 12).

Section vspace.
Context {C : Type} `{VmCaps C}.
Implicit Types (s : vm C) (v f pt : N) (m : mnode).

Definition with_cs c s : vm C := Vm c (pg s) (vss s) (frs s) (pts s) (pt_next s) (m_frame s) (m_va s) (m_next s)
  (m_vs s) (frame_next s) (m_epoch s) (m_boot s) (boot_next s) (boot_free s) (fin_epoch s) (shoot s) (tlim s).
Definition with_pg p s : vm C := Vm (cs s) p (vss s) (frs s) (pts s) (pt_next s) (m_frame s) (m_va s) (m_next s)
  (m_vs s) (frame_next s) (m_epoch s) (m_boot s) (boot_next s) (boot_free s) (fin_epoch s) (shoot s) (tlim s).
Definition put_vs v k s : vm C := Vm (cs s) (pg s) (upd_fn (vss s) v k) (frs s) (pts s) (pt_next s) (m_frame s) (m_va s)
  (m_next s) (m_vs s) (frame_next s) (m_epoch s) (m_boot s) (boot_next s) (boot_free s) (fin_epoch s) (shoot s) (tlim s).
Definition put_fr f k s : vm C := Vm (cs s) (pg s) (vss s) (upd_fn (frs s) f k) (pts s) (pt_next s) (m_frame s) (m_va s)
  (m_next s) (m_vs s) (frame_next s) (m_epoch s) (m_boot s) (boot_next s) (boot_free s) (fin_epoch s) (shoot s) (tlim s).
Definition put_pt pt k nx s : vm C := Vm (cs s) (pg s) (vss s) (frs s) (upd_fn (pts s) pt k) nx (m_frame s) (m_va s)
  (m_next s) (m_vs s) (frame_next s) (m_epoch s) (m_boot s) (boot_next s) (boot_free s) (fin_epoch s) (shoot s) (tlim s).
Definition with_next nx s : vm C := Vm (cs s) (pg s) (vss s) (frs s) (pts s) (pt_next s) (m_frame s) (m_va s) nx
  (m_vs s) (frame_next s) (m_epoch s) (m_boot s) (boot_next s) (boot_free s) (fin_epoch s) (shoot s) (tlim s).
(** [m->frame], [m->user_va], [m->boot_authority]. *)
Definition put_map m fr va b s : vm C := Vm (cs s) (pg s) (vss s) (frs s) (pts s) (pt_next s)
  (upd_fn (m_frame s) m fr) (upd_fn (m_va s) m va) (m_next s) (m_vs s) (frame_next s) (m_epoch s)
  (upd_fn (m_boot s) m b) (boot_next s) (boot_free s) (fin_epoch s) (shoot s) (tlim s).
(** [m->vs] and the links of the frames' lists. *)
Definition with_back vs nx s : vm C := Vm (cs s) (pg s) (vss s) (frs s) (pts s) (pt_next s) (m_frame s) (m_va s)
  (m_next s) vs nx (m_epoch s) (m_boot s) (boot_next s) (boot_free s) (fin_epoch s) (shoot s) (tlim s).
Definition with_epochs g e s : vm C := Vm (cs s) (pg s) (vss s) (frs s) (pts s) (pt_next s) (m_frame s) (m_va s)
  (m_next s) (m_vs s) (frame_next s) g (m_boot s) (boot_next s) (boot_free s) e (shoot s) (tlim s).
Definition with_boot n l s : vm C := Vm (cs s) (pg s) (vss s) (frs s) (pts s) (pt_next s) (m_frame s) (m_va s)
  (m_next s) (m_vs s) (frame_next s) (m_epoch s) (m_boot s) n l (fin_epoch s) (shoot s) (tlim s).
Definition with_shoot l s : vm C := Vm (cs s) (pg s) (vss s) (frs s) (pts s) (pt_next s) (m_frame s) (m_va s)
  (m_next s) (m_vs s) (frame_next s) (m_epoch s) (m_boot s) (boot_next s) (boot_free s) (fin_epoch s) l (tlim s).

Definition set_maps h n k : KVSpace := VSpace (cr3 k) (valid k) n h (pt_pool k) (free_nodes k) (tables k).
Definition set_free l k : KVSpace := VSpace (cr3 k) (valid k) (mapping_count k) (mappings k) (pt_pool k) l (tables k).
Definition set_tables l k : KVSpace := VSpace (cr3 k) (valid k) (mapping_count k) (mappings k) (pt_pool k) (free_nodes k) l.
Definition set_invalid k : KVSpace := VSpace (cr3 k) false 0 None (pt_pool k) (free_nodes k) (tables k).
Definition set_fr_maps h n k : KFrame := Frame (f_paddr k) (f_size k) n h.

Definition do_cs (g : C → res C) s : res (vm C) := c ← g (cs s); Ret (with_cs c s).
Definition usable v s : bool := valid (vss s v) && negb (cr3 (vss s v) =? 0).
Definition maplen v s : nat := S (Z.to_nat (mapping_count (vss s v))).
Definition framelen f s : nat := S (Z.to_nat (mapped_count (frs s f))).

(** ** Mapping records *)

Definition reset_node m s : vm C :=
  let s := put_map m None 0 false s in
  let s := with_next (upd_fn (m_next s) m None) s in
  let s := with_back (upd_fn (m_vs s) m None) (upd_fn (frame_next s) m None) s in
  with_epochs (upd_fn (m_epoch s) m 0) (fin_epoch s) s.

Definition kvspace_boot_node_alloc s : option mnode * vm C :=
  match boot_free s with
  | Some m => (Some m, reset_node m (with_boot (boot_next s) (m_next s m) s))
  | None =>
      if (boot_next s <? KVSPACE_BOOT_NODES)%N
      then let m := Boot (boot_next s) in (Some m, reset_node m (with_boot (boot_next s + 1)%N None s))
      else (None, s)
  end.

Definition kvspace_node_is_boot m : bool := match m with Boot i => (i <? KVSPACE_BOOT_NODES)%N | Blk _ => false end.

Definition kvspace_boot_node_free m s : vm C :=
  let s := put_map m None (m_va s m) (m_boot s m) s in
  let s := with_next (upd_fn (m_next s) m (boot_free s)) s in
  with_boot (boot_next s) (Some m) s.

(** A block of an Untyped arrives zeroed. *)
Definition kvspace_node_alloc v s : res (option mnode * vm C) :=
  match pt_pool (vss s v) with
  | None => Ret (kvspace_boot_node_alloc s)
  | Some pool =>
      match free_nodes (vss s v) with
      | Some m => Ret (Some m, reset_node m (put_vs v (set_free (m_next s m) (vss s v)) s))
      | None =>
          '(a, c) ← rec_alloc pool (cs s);
          Ret (match a with Some a => (Some (Blk a), reset_node (Blk a) (with_cs c s)) | None => (None, with_cs c s) end)
      end
  end.

Definition kvspace_frame_unlink m s : res (vm C) :=
  match m_frame s m with
  | None => Ret s
  | Some f =>
      '(h, nx) ← unlink (framelen f s) (frame_next s) (f_maps (frs s f)) m;
      let s := put_fr f (set_fr_maps h (mapped_count (frs s f)) (frs s f)) s in
      Ret (with_back (upd_fn (m_vs s) m None) (upd_fn nx m None) s)
  end.

Definition kvspace_node_free v m s : res (vm C) :=
  s ← kvspace_frame_unlink m s;
  if kvspace_node_is_boot m then Ret (kvspace_boot_node_free m s)
  else
    let s := put_map m None (m_va s m) (m_boot s m) s in
    let s := with_next (upd_fn (m_next s) m (free_nodes (vss s v))) s in
    Ret (put_vs v (set_free (Some m) (vss s v)) s).

(** ** Mapping a frame *)

Definition tlb_shootdown_page (v : option N) (va : Z) s : vm C :=
  match v with None => s | Some v => with_shoot ((v, va) :: shoot s) s end.

Definition kframe_unmap_all (v : option N) (root : Z) f (base_va : Z) s : vm C :=
  if root =? 0 then s else
  for_up (pages_of (frs s f)) (λ i s,
    let va := page_va base_va i in
    tlb_shootdown_page v va (with_pg (paging_unmap_in root va (pg s)) s)) s.

(** Every page is at a valid address and unmapped. *)
Fixpoint pages_clear (n : nat) (i : Z) (root user_va : Z) (m : memory) : bool :=
  match n with
  | O => true
  | S n =>
      let va := page_va user_va i in
      if negb (kframe_va_valid va) || negb (paging_virt_to_phys_in m root va =? 0) then false
      else pages_clear n (i + 1) root user_va m
  end.

(** The result of the last [paging_map_strict_in] and the number of pages mapped. *)
Fixpoint map_pages (n : nat) (i : Z) (root user_va paddr flags : Z) (m : memory) : Z * Z * memory :=
  match n with
  | O => (0, i, m)
  | S n =>
      let '(r, m') := paging_map_strict_in root (page_va user_va i) (u64 (paddr + Z.shiftl i 12)) flags m in
      let r := if 0 <? r then -1 else r in
      if negb (r =? 0) then (r, i, m') else map_pages n (i + 1) root user_va paddr flags m'
  end.

(** [for (i = 0; i < n; i++) paging_unmap_in(cr3, user_va + (i << 12))] *)
Definition unmap_pages (n root user_va : Z) (p : pgs) : pgs :=
  for_up n (λ i p, paging_unmap_in root (page_va user_va i) p) p.

Definition map_page_flags (map_flags : Z) : Z :=
  let writable := Z.land map_flags 1 in
  let executable := Z.land (Z.shiftr map_flags 1) 1 in
  let p := Z.lor PAGE_PRESENT PAGE_USER in
  let p := if executable =? 0 then Z.lor p PAGE_NX else p in
  let p := if writable =? 0 then p else Z.lor p PAGE_WRITABLE in
  if Z.land map_flags 4 =? 0 then p else Z.lor p (Z.lor PAGE_PCD PAGE_PWT).

(** The record enters the space's list and the frame's. *)
Definition link_mapping f v m (user_va : Z) (boot : bool) s : vm C :=
  let s := put_map m (Some f) user_va boot s in
  let s := with_next (upd_fn (m_next s) m (mappings (vss s v))) s in
  let s := put_vs v (set_maps (Some m) (u32 (mapping_count (vss s v) + 1)) (vss s v)) s in
  let s := with_back (upd_fn (m_vs s) m (Some v)) (upd_fn (frame_next s) m (f_maps (frs s f))) s in
  put_fr f (set_fr_maps (Some m) (u32 (mapped_count (frs s f) + 1)) (frs s f)) s.

(** The capability of the space to the frame: boot authority without a pool, else
    installed unless the space has one.  [inl] is an error. *)
Definition map_authority f v (src : option (N * N)) s : res ((iris_error_t + bool) * vm C) :=
  match pt_pool (vss s v) with
  | None => Ret (inr true, s)
  | Some pool =>
      if map_cap_has v f (cs s) then Ret (inr false, s)
      else
        '(e, c) ← map_cap_install v (Some pool) f src (cs s);
        Ret (if bool_decide (e = IRIS_OK) then inr false else inl e, with_cs c s)
  end.

(** From the lock of the space to its release, with the record [m] in hand. *)
Definition map_locked f v m (user_va map_flags : Z) (src : option (N * N)) s : res (iris_error_t * vm C) :=
  let root := cr3 (vss s v) in
  let k := frs s f in
  let pages := pages_of k in
  if negb (usable v s) then s ← kvspace_node_free v m s; Ret (IRIS_ERR_BAD_HANDLE, s)
  else if negb (pages_clear (Z.to_nat pages) 0 root user_va (mem (pg s)))
  then s ← kvspace_node_free v m s; Ret (IRIS_ERR_BUSY, s)
  else
    let '(r, done, mm) := map_pages (Z.to_nat pages) 0 root user_va (f_paddr k) (map_page_flags map_flags) (mem (pg s)) in
    let s := with_pg (with_mem mm (pg s)) s in
    if negb (r =? 0) then
      s ← kvspace_node_free v m (with_pg (unmap_pages done root user_va (pg s)) s);
      Ret (IRIS_ERR_MISSING_TABLE, s)
    else
      '(a, s) ← map_authority f v src s;
      match a with
      | inl e =>
          s ← kvspace_node_free v m (with_pg (unmap_pages pages root user_va (pg s)) s);
          Ret (e, s)
      | inr boot =>
          s ← do_cs (obj_retain f) s;
          Ret (IRIS_OK, link_mapping f v m user_va boot s)
      end.

Definition kframe_map_page_from f v (user_va map_flags : Z) (src : option (N * N)) s : res (iris_error_t * vm C) :=
  if negb (kframe_va_valid user_va) then Ret (IRIS_ERR_INVALID_ARG, s)
  else if negb (Z.shiftr map_flags 3 =? 0) then Ret (IRIS_ERR_INVALID_ARG, s)
  else if negb (Z.land map_flags 1 =? 0) && negb (Z.land (Z.shiftr map_flags 1) 1 =? 0) then Ret (IRIS_ERR_INVALID_ARG, s)
  else
    '(o, s) ← kvspace_node_alloc v s;
    match o with
    | None => Ret (IRIS_ERR_NO_MEMORY, s)
    | Some m => map_locked f v m user_va map_flags src s
    end.

Definition kframe_map_page f v user_va map_flags s := kframe_map_page_from f v user_va map_flags None s.

(** ** Unmapping, and what a lost capability unmaps *)

Definition kvspace_maps_frame v f s : res bool :=
  o ← find_node (maplen v s) (λ m, bool_decide (m_frame s m = Some f)) (m_next s) (mappings (vss s v));
  Ret (bool_decide (is_Some o)).

(** A deleted capability runs [kvspace_finalise_orphans] ([kcnode_slot_drop_old]). *)
Definition kvspace_map_cap_drop_frame (finalise : N → vm C → res (vm C)) v f s : res (vm C) :=
  b ← kvspace_maps_frame v f s;
  if b : bool then Ret s
  else
    '(found, c) ← map_cap_delete v f (cs s);
    if found : bool then finalise f (with_cs c s) else Ret (with_cs c s).

(** The record leaves the space's list. *)
Definition take_mapping v m s : res (vm C) :=
  '(h, nx) ← unlink (maplen v s) (m_next s) (mappings (vss s v)) m;
  Ret (put_vs v (set_maps h (u32 (mapping_count (vss s v) - 1)) (vss s v)) (with_next nx s)).

Definition mapped_dec f s : vm C :=
  put_fr f (set_fr_maps (f_maps (frs s f)) (u32 (mapped_count (frs s f) - 1)) (frs s f)) s.

Definition unmap_body (finalise : N → vm C → res (vm C)) f v (user_va : Z) s : res (iris_error_t * vm C) :=
  if negb (kframe_va_valid user_va) then Ret (IRIS_ERR_INVALID_ARG, s)
  else if negb (usable v s) then Ret (IRIS_ERR_BAD_HANDLE, s)
  else
    o ← find_node (maplen v s) (λ m, m_va s m =? user_va) (m_next s) (mappings (vss s v));
    match o with
    | None => Ret (IRIS_ERR_NOT_FOUND, s)
    | Some m =>
        if negb (bool_decide (m_frame s m = Some f)) then Ret (IRIS_ERR_INVALID_ARG, s)
        else
          s ← take_mapping v m s;
          let s := kframe_unmap_all (Some v) (cr3 (vss s v)) f user_va s in
          s ← kvspace_node_free v m s;
          let s := mapped_dec f s in
          s ← kvspace_map_cap_drop_frame finalise v f s;
          s ← do_cs (obj_release f) s;
          Ret (IRIS_OK, s)
    end.

(** [for (m = f->mappings; m; m = m->frame_next) if (m->vs == vs) m->finalise_epoch = epoch;] *)
Definition stamp f v (epoch : Z) s : vm C :=
  let l := walk (frame_next s) (framelen f s) (f_maps (frs s f)) in
  with_epochs (λ m, if bool_decide (m ∈ l) && bool_decide (m_vs s m = Some v) then epoch else m_epoch s m) (fin_epoch s) s.

Section finalise.
Context (unmap : N → N → Z → vm C → res (iris_error_t * vm C)).

Fixpoint finalise_space (fuel : nat) f v s : res (vm C) :=
  match fuel with
  | O => NoFuel
  | S fuel =>
      o ← find_node (framelen f s) (λ m, bool_decide (m_vs s m = Some v) && negb (m_boot s m)) (frame_next s) (f_maps (frs s f));
      match o with
      | None => Ret s
      | Some m =>
          '(e, s) ← unmap f v (m_va s m) s;
          if bool_decide (e = IRIS_OK) then finalise_space fuel f v s else Ret s
      end
  end.

Fixpoint finalise_loop (fuel : nat) f (epoch : Z) s : res (vm C) :=
  match fuel with
  | O => NoFuel
  | S fuel =>
      o ← find_node (framelen f s) (λ m, bool_decide (is_Some (m_vs s m)) && negb (m_boot s m) && negb (m_epoch s m =? epoch))
            (frame_next s) (f_maps (frs s f));
      match o ≫= m_vs s with
      | None => Ret s
      | Some v =>
          s ← (if map_cap_has v f (cs s) then Ret s else finalise_space (framelen f s) f v s);
          finalise_loop fuel f epoch (stamp f v epoch s)
      end
  end.

Definition finalise_frame f s : res (vm C) :=
  let epoch := u64 (fin_epoch s + 1) in
  finalise_loop (S (framelen f s)) f epoch (with_epochs (m_epoch s) epoch s).
End finalise.

(** An unmap can delete the space's capability, whose finalisation unmaps in spaces
    that hold none, where no deletion follows: two turns. *)
Fixpoint unmap_turns (n : nat) f v (user_va : Z) s : res (iris_error_t * vm C) :=
  match n with
  | O => NoFuel
  | S n => unmap_body (finalise_frame (unmap_turns n)) f v user_va s
  end.

Definition kframe_unmap_page f v user_va s := unmap_turns 2 f v user_va s.
Definition kvspace_finalise_frame f s := finalise_frame kframe_unmap_page f s.

(** Each record of the list taken from the space: [kvspace_invalidate]. *)
Fixpoint sweep (fuel : nat) v (root : Z) (h : option mnode) s : res (vm C) :=
  match fuel with
  | O => NoFuel
  | S fuel =>
      match h with
      | None => Ret s
      | Some m =>
          let nxt := m_next s m in
          match m_frame s m with
          | None => Panic
          | Some f =>
              let s := if root =? 0 then s else kframe_unmap_all None root f (m_va s m) s in
              s ← kvspace_node_free v m s;
              s ← do_cs (obj_release f) (mapped_dec f s);
              sweep fuel v root nxt s
          end
      end
  end.

Definition kvspace_invalidate v s : res (vm C) :=
  let k := vss s v in
  sweep (S (Z.to_nat (mapping_count k))) v (cr3 k) (mappings k) (put_vs v (set_invalid k) s).

Definition kvspace_unmap_page v (user_va : Z) s : res (iris_error_t * vm C) :=
  if negb (usable v s) then Ret (IRIS_ERR_BAD_HANDLE, s)
  else
    o ← find_node (maplen v s) (λ m, m_va s m =? user_va) (m_next s) (mappings (vss s v));
    match o with
    | None => Ret (IRIS_ERR_NOT_FOUND, s)
    | Some m =>
        match m_frame s m with
        | None => Panic
        | Some f =>
            s ← take_mapping v m s;
            let s := kframe_unmap_all None (cr3 (vss s v)) f user_va s in
            s ← kvspace_node_free v m s;
            s ← do_cs (obj_release f) (mapped_dec f s);
            Ret (IRIS_OK, s)
        end
    end.

(** ** Page tables *)

Definition TABLE_FLAGS : Z := Z.lor PAGE_PRESENT (Z.lor PAGE_WRITABLE PAGE_USER).
Definition KPT_LEVEL_UNMAPPED : Z := 0.

Definition kpagetable_zero pt s : vm C := with_pg (on_mem (zero_table (pt_paddr (pts s pt))) (pg s)) s.

Definition kvspace_map_table v pt (src : option (N * N)) (vaddr : Z) s : res (iris_error_t * vm C) :=
  if vaddr <? USER_PRIVATE_BASE then Ret (IRIS_ERR_INVALID_ARG, s)
  else if USER_SPACE_TOP <=? vaddr then Ret (IRIS_ERR_INVALID_ARG, s)
  else if negb (Z.shiftr vaddr 47 =? 0) then Ret (IRIS_ERR_INVALID_ARG, s)
  else if negb (usable v s) then Ret (IRIS_ERR_BAD_HANDLE, s)
  else if bool_decide (is_Some (mapped_vs (pts s pt))) then Ret (IRIS_ERR_BUSY, s)
  else
    let s := kpagetable_zero pt s in
    let p := pt_paddr (pts s pt) in
    let '(lvl, mm) := paging_install_table_in (cr3 (vss s v)) vaddr p TABLE_FLAGS (mem (pg s)) in
    let s := with_pg (with_mem mm (pg s)) s in
    if lvl <? 0 then Ret (IRIS_ERR_INVALID_ARG, s)
    else if lvl =? 0 then Ret (IRIS_ERR_ALREADY_EXISTS, s)
    else
      '(e, c) ← map_cap_install v (pt_pool (vss s v)) pt src (cs s);
      let s := with_cs c s in
      if negb (bool_decide (e = IRIS_OK)) then Ret (e, s)
      else
        let s := put_pt pt (PageTable p (Some v) vaddr lvl) (upd_fn (pt_next s) pt (tables (vss s v))) s in
        Ret (IRIS_OK, put_vs v (set_tables (Some pt) (vss s v)) s).

Definition under (base span va : Z) : bool := (base <=? va) && (va <? u64 (base + span)).

(** The deletion's own [kvspace_finalise_orphans] finds [mapped_vs] cleared. *)
Definition kvspace_unmap_table v pt s : res (iris_error_t * vm C) :=
  let k := pts s pt in
  if negb (bool_decide (mapped_vs k = Some v)) then Ret (IRIS_ERR_NOT_FOUND, s)
  else if negb (usable v s) then Ret (IRIS_ERR_BAD_HANDLE, s)
  else
    let span := u64 (Z.shiftl 4096 (9 * level k)) in
    let base := Z.ldiff (mapped_va k) (span - 1) in
    o ← find_node (maplen v s) (λ m, under base span (m_va s m)) (m_next s) (mappings (vss s v));
    if bool_decide (is_Some o) then Ret (IRIS_ERR_BUSY, s)
    else
      o ← find_node (S (tlim s)) (λ t, negb (bool_decide (t = pt)) && (level (pts s t) <? level k) && under base span (mapped_va (pts s t)))
            (pt_next s) (tables (vss s v));
      if bool_decide (is_Some o) then Ret (IRIS_ERR_BUSY, s)
      else
        let '(r, mm) := paging_detach_table_in (cr3 (vss s v)) (mapped_va k) (level k) (pt_paddr k) (mem (pg s)) in
        if negb (r =? 0) then Ret (IRIS_ERR_NOT_FOUND, s)
        else
          let s := with_pg (paging_flush_table_walk (mapped_va k) (with_mem mm (pg s))) s in
          let s := tlb_shootdown_page (Some v) (mapped_va k) s in
          '(h, nx) ← unlink (S (tlim s)) (pt_next s) (tables (vss s v)) pt;
          let s := put_vs v (set_tables h (vss s v)) s in
          let s := put_pt pt (PageTable (pt_paddr k) None 0 KPT_LEVEL_UNMAPPED) (upd_fn nx pt None) s in
          '(_, c) ← map_cap_delete v pt (cs s);
          Ret (IRIS_OK, with_cs c s).

Definition kvspace_finalise_table pt s : res (vm C) :=
  match mapped_vs (pts s pt) with
  | None => Ret s
  | Some v => if map_cap_has v pt (cs s) then Ret s else '(_, s) ← kvspace_unmap_table v pt s; Ret s
  end.

(** Deepest level first: a parent is cut after its children. *)
Definition kvspace_detach_tables v (root : Z) s : vm C :=
  if root =? 0 then s else
  let l := walk (pt_next s) (tlim s) (tables (vss s v)) in
  for_range 1 4 (λ lvl s,
    foldl (λ s t, if level (pts s t) =? lvl
                  then with_pg (with_mem (paging_detach_table_in root (mapped_va (pts s t)) lvl (pt_paddr (pts s t)) (mem (pg s))).2 (pg s)) s
                  else s) s l) s.

Definition kvspace_set_pt_pool v (pool : option N) s : vm C :=
  match pool, pt_pool (vss s v) with
  | Some p, None => let k := vss s v in
      put_vs v (VSpace (cr3 k) (valid k) (mapping_count k) (mappings k) (Some p) (free_nodes k) (tables k)) s
  | _, _ => s
  end.
End vspace.
