(* ===== verification/VspacePg.v ===== *)
(** * The page loops of map and unmap

    What [map_pages] and [unmap_pages] do to the leaf entries of every space, and
    the arithmetic of the pages of a frame. *)

From Stdlib Require Import ZArith Lia.
From stdpp Require Import base numbers list.
From S2P Require Import Prelude Rights Slist Pmm Paging PagingInv PagingSpec Vspace.
Local Open Scope Z_scope.

Implicit Types (R : Z → Prop) (va c : Z).

(** ** Addresses of user pages *)

Lemma va_valid_spec va : 0 ≤ va → kframe_va_valid va = true → va mod 4096 = 0 ∧ USER_PRIVATE_BASE ≤ va < USER_SPACE_TOP.
Proof.
  intros H0. unfold kframe_va_valid.
  destruct (Z.eqb_spec (Z.land va 0xFFF) 0) as [Ha|]; [|done]. cbn [negb].
  destruct (Z.ltb_spec va USER_PRIVATE_BASE); [done|]. destruct (Z.leb_spec USER_SPACE_TOP va); [done|]. intros _.
  split; [|lia]. change 0xFFF with (Z.ones 12) in Ha. by rewrite Z.land_ones in Ha by lia.
Qed.

Definition uva va : Prop := USER_PRIVATE_BASE ≤ va < USER_SPACE_TOP.

Lemma pre4 va : uva va → pre 4 va = va / 4096.
Proof.
  unfold uva, USER_PRIVATE_BASE, USER_SPACE_TOP. intros Hv. unfold pre. rewrite Z.mod_small by lia. reflexivity.
Qed.

Lemma page_va_small va i : 0 ≤ va < 2 ^ 47 → 0 ≤ i → va + 4096 * i < 2 ^ 64 → page_va va i = va + 4096 * i.
Proof.
  intros Hv Hi Hb. unfold page_va. rewrite Z.shiftl_mul_pow2 by lia. rewrite u64_id by lia. lia.
Qed.

(** The pages checked are consecutive: no sum wraps. *)
Lemma pages_clear_spec root va m n : ∀ i, uva va → va mod 4096 = 0 → 0 ≤ i → va + 4096 * i ≤ 2 ^ 47 →
  pages_clear n i root va m = true →
  va + 4096 * (i + Z.of_nat n) ≤ 2 ^ 47 ∧
  ∀ j, i ≤ j < i + Z.of_nat n → paging_virt_to_phys_in m root (va + 4096 * j) = 0.
Proof.
  induction n as [|n IH]; intros i Hu Ha Hi Hb; cbn [pages_clear]; [intros _; split; [lia|lia]|].
  assert (0 ≤ va < 2 ^ 47) as Hv by (unfold uva, USER_PRIVATE_BASE, USER_SPACE_TOP in Hu; lia).
  rewrite (page_va_small va i) by lia. destruct (kframe_va_valid (va + 4096 * i)) eqn:Hva; [|done].
  destruct (Z.eqb_spec (paging_virt_to_phys_in m root (va + 4096 * i)) 0) as [Hz|]; [|done]. cbn [negb orb]. intros Hc.
  apply va_valid_spec in Hva as [Ham Hr]; [|lia]. unfold USER_SPACE_TOP in Hr.
  destruct (IH (i + 1)) as [H1 H2]; [done|done|lia| |done|].
  { pose proof (Z.div_mod (va + 4096 * i) 4096 ltac:(lia)) as Hd. rewrite Ham in Hd. lia. }
  split; [lia|]. intros j Hj. destruct (decide (j = i)) as [->|]; [done|]. apply H2. lia.
Qed.

(** ** Leaf entries *)

Definition leaf (m : memory) c va : option Z := ent m c 3 va.
Definition leaf_on (o : option Z) : bool := match o with Some e => has e PAGE_PRESENT | None => false end.

(** Two memories with the same tables above the leaves. *)
Definition same_tables R (m m' : memory) : Prop :=
  ∀ c va k, R c → (k ≤ 3)%nat → tab m' c k va = tab m c k va ∧ ((k ≤ 2)%nat → ent m' c k va = ent m c k va).

#[global] Instance same_tables_refl R : Reflexive (same_tables R).
Proof. by intros m c va k. Qed.
#[global] Instance same_tables_trans R : Transitive (same_tables R).
Proof.
  intros m m1 m2 H1 H2 c va k Hc Hk. destruct (H1 c va k Hc Hk) as [A1 A2], (H2 c va k Hc Hk) as [B1 B2].
  split; [congruence|]. intros H. rewrite B2, A2; done.
Qed.

Lemma leaf_same_translate R m m' c va : same_tables R m m' → R c → leaf m' c va = leaf m c va →
  translate m' c va = translate m c va.
Proof.
  intros Hs Hc Hl. apply translate_ext. intros k Hk. destruct (decide (k = 3%nat)) as [->|]; [done|].
  apply (Hs c va k Hc Hk). lia.
Qed.

Lemma leaf_tables m R c va t w :
  paging_wf m R → R c → user va → tab m c 3 va = Some t → same_tables R m (wr t (ix 3 va) w m).
Proof.
  intros Hwf Hc Hu Ht c' va' k Hc' Hk. split; [by apply (edit_above Hwf c c' 3)|]. intros Hk2.
  apply ent_frame. intros k' t' Hk' Ht' He. destruct (edit_off Hwf c c' 3 k' va va' t t') as (_ & ? & _); try done; lia.
Qed.

Lemma leaf_wr m R c c' va va' t w :
  paging_wf m R → R c → R c' → user va → tab m c 3 va = Some t →
  leaf (wr t (ix 3 va) w m) c' va' = if decide (c' = c ∧ pre 4 va' = pre 4 va) then Some w else leaf m c' va'.
Proof.
  intros Hwf Hc Hc' Hu Ht. case_decide as Hd.
  - destruct Hd as [-> Hp]. by apply (edit_same Hwf c 3).
  - apply (edit_other Hwf c); try done. destruct (decide (c' = c)); [right|left]; tauto.
Qed.

(** Unmapped is a leaf that is off. *)
Lemma translate_leaf_off m R c va : paging_wf m R → R c → user va → translate m c va = None ↔ leaf_on (leaf m c va) = false.
Proof.
  intros Hwf Hc Hu. split.
  - intros Hn. destruct (leaf m c va) as [e|] eqn:El; [|done]. simpl. destruct (has e PAGE_PRESENT) eqn:Hp; [|done].
    by rewrite (translate_leaf m R c va e Hwf Hc Hu El Hp) in Hn.
  - intros Ho. apply (translate_none m R); [done..|]. intros e He. unfold leaf in Ho. by rewrite He in Ho.
Qed.

(** ** Mapping a run of pages *)

Section pages.
Context (R : Z → Prop) (c va : Z) (Hc : R c).
Definition in_run (i n va' : Z) : Prop := va / 4096 + i ≤ va' / 4096 < va / 4096 + n.
#[local] Instance in_run_dec i n va' : Decision (in_run i n va').
Proof. unfold in_run. apply _. Defined.

Context (Hva : uva va) (Hal : va mod 4096 = 0).

Lemma run_page j : 0 ≤ j → va + 4096 * j < 2 ^ 47 →
  page_va va j = va + 4096 * j ∧ uva (va + 4096 * j) ∧ user (va + 4096 * j) ∧ pre 4 (va + 4096 * j) = va / 4096 + j.
Proof.
  intros Hj Hb. assert (0 ≤ va < 2 ^ 47) by (unfold uva, USER_PRIVATE_BASE, USER_SPACE_TOP in Hva; lia).
  assert (uva (va + 4096 * j)) as Hu by (unfold uva, USER_PRIVATE_BASE, USER_SPACE_TOP in *; lia).
  split; [apply page_va_small; lia|]. split; [done|]. split; [by apply user_range|].
  rewrite pre4 by done. rewrite (Z.mul_comm 4096), Z.div_add by lia. reflexivity.
Qed.

(** The effect of mapping pages [i .. n): the leaves of the run are the new ones. *)
Definition run_mapped (i n paddr flags : Z) (m m' : memory) : Prop :=
  ∀ c' va', R c' → uva va' ∨ ¬ user va' → leaf m' c' va' =
    if decide (c' = c ∧ uva va' ∧ in_run i n va')
    then Some (entry (u64 (paddr + 4096 * (va' / 4096 - va / 4096))) flags) else leaf m c' va'.

Lemma run_same va' j : 0 ≤ j → va + 4096 * j < 2 ^ 47 → uva va' ∨ ¬ user va' →
  pre 4 va' = pre 4 (va + 4096 * j) ↔ uva va' ∧ va' / 4096 = va / 4096 + j.
Proof.
  intros Hj Hb Hv. destruct (run_page j Hj Hb) as (_ & _ & Hu & ->). split.
  - intros E. assert (uva va') as Hu'.
    { destruct Hv as [|Hv]; [done|]. exfalso. apply Hv.
      apply (user_pre 4 (va + 4096 * j) va'); [lia|by rewrite (proj2 (proj2 (proj2 (run_page j Hj Hb))))|done]. }
    by rewrite <-(pre4 va').
  - intros [Hu' E]. by rewrite pre4.
Qed.

Lemma map_pages_spec paddr flags n : ∀ i m, paging_wf m R → 0 ≤ i → va + 4096 * (i + Z.of_nat n) ≤ 2 ^ 47 →
  let '(r, k, m') := map_pages n i c va paddr flags m in
  paging_wf m' R ∧ same_tables R m m' ∧ i ≤ k ≤ i + Z.of_nat n ∧ (r = 0 → k = i + Z.of_nat n) ∧
  (r ≠ 0 → k < i + Z.of_nat n ∧ tab m c 3 (va + 4096 * k) = None) ∧ run_mapped i k paddr flags m m'.
Proof.
  induction n as [|n IH]; intros i m Hwf Hi Hb; cbn [map_pages].
  - split; [done|]. split; [done|]. split; [lia|]. split; [lia|]. split; [done|].
    intros c' va' _ _. rewrite decide_False; [done|]. unfold in_run. lia.
  - destruct (run_page i Hi ltac:(lia)) as (-> & Hui & Hus & Hpi).
    destruct (map_strict_cases m R c (va + 4096 * i) (u64 (paddr + Z.shiftl i 12)) flags Hwf Hc Hus)
      as [(t & Ht & H0 & ->)|(H0 & Hn & ->)].
    + cbn [Z.ltb Z.compare Z.eqb negb]. specialize (IH (i + 1) (wr t (ix 3 (va + 4096 * i)) (entry (u64 (paddr + Z.shiftl i 12)) flags) m)).
      destruct (map_pages n (i + 1) c va paddr flags _) as [[r k] m'].
      destruct IH as (Hwf' & Hst & Hk & Hr0 & Hr1 & Hrun); [by apply (wf_leaf m R c)|lia|lia|].
      pose proof (leaf_tables m R c _ t (entry (u64 (paddr + Z.shiftl i 12)) flags) Hwf Hc Hus Ht) as Hst1.
      split; [done|]. split; [by etrans|]. split; [lia|]. split; [intros; lia|]. split.
      { intros Hr. destruct (Hr1 Hr) as [H1 H2]. split; [lia|].
        by rewrite <-(proj1 (Hst1 c (va + 4096 * k) 3%nat Hc ltac:(lia))). }
      intros c' va' Hc' Hv. rewrite Hrun by done. rewrite (leaf_wr m R c) by done.
      destruct (decide (c' = c)) as [->|Hcc]; [|rewrite !decide_False by tauto; done].
      pose proof (run_same va' i Hi ltac:(lia) Hv) as Hs. unfold in_run.
      destruct (decide (c = c ∧ pre 4 va' = pre 4 (va + 4096 * i))) as [[_ Ep]|Ep].
      * apply Hs in Ep as [Hu' Ed]. rewrite (decide_False (P := c = c ∧ uva va' ∧ va / 4096 + (i + 1) ≤ _ < _)) by lia.
        rewrite decide_True by (split; [done|split; [done|lia]]). rewrite Z.shiftl_mul_pow2 by lia. do 3 f_equal. lia.
      * destruct (decide (c = c ∧ uva va' ∧ va / 4096 + (i + 1) ≤ va' / 4096 < va / 4096 + k)) as [(_ & Hu' & Hd)|Hd];
          [rewrite decide_True by (split; [done|split; [done|lia]]); done|].
        rewrite decide_False; [done|]. intros (_ & Hu' & Hd'). apply Hd. split; [done|]. split; [done|].
        assert (va' / 4096 ≠ va / 4096 + i) by (intros E; apply Ep; split; [done|]; by apply Hs). lia.
    + rewrite (proj2 (Z.ltb_lt 0 _)) by lia. cbn [Z.eqb negb].
      split; [done|]. split; [done|]. split; [lia|]. split; [done|]. split; [intros _; split; [lia|done]|].
      intros c' va' _ _. rewrite decide_False; [done|]. unfold in_run. lia.
Qed.

(** ** Unmapping a run of pages *)

Definition run_unmapped (n : Z) (m m' : memory) : Prop :=
  (∀ va', uva va' → in_run 0 n va' → leaf_on (leaf m' c va') = false) ∧
  (∀ c' va', R c' → uva va' ∨ ¬ user va' → ¬ (c' = c ∧ uva va' ∧ in_run 0 n va') → leaf m' c' va' = leaf m c' va').

Lemma unmap_step j p : paging_wf (mem p) R → 0 ≤ j → va + 4096 * j < 2 ^ 47 →
  let p' := paging_unmap_in c (page_va va j) p in
  paging_wf (mem p') R ∧ same_tables R (mem p) (mem p') ∧ pm p' = pm p ∧ pml4_phys p' = pml4_phys p ∧
  (∀ va', uva va' → va' / 4096 = va / 4096 + j → leaf_on (leaf (mem p') c va') = false) ∧
  (∀ c' va', R c' → uva va' ∨ ¬ user va' → ¬ (c' = c ∧ uva va' ∧ va' / 4096 = va / 4096 + j) → leaf (mem p') c' va' = leaf (mem p) c' va').
Proof.
  intros Hwf Hj Hb. destruct (run_page j Hj Hb) as (-> & Hui & Hus & Hpj). unfold paging_unmap_in. rewrite walk_pt_tab.
  destruct (tab (mem p) c 3 (va + 4096 * j)) as [t|] eqn:Ht; cbn [mem pm pml4_phys do_invlpg put on_mem with_mem].
  - change (PT_IDX (va + 4096 * j)) with (ix 3 (va + 4096 * j)).
    split; [by apply (wf_leaf (mem p) R c)|]. split; [by apply (leaf_tables (mem p) R c)|]. split; [done|]. split; [done|]. split.
    + intros va' Hu' E. rewrite (leaf_wr (mem p) R c) by done. rewrite decide_True; [done|].
      split; [done|]. apply run_same; [done|lia|by left|by split].
    + intros c' va' Hc' Hv Hn. rewrite (leaf_wr (mem p) R c), decide_False; [done| |done..].
      intros [-> E]. apply Hn. split; [done|]. by apply run_same in E.
  - split; [done|]. split; [done|]. split; [done|]. split; [done|]. split; [|done].
    intros va' Hu' E. assert (pre 4 va' = pre 4 (va + 4096 * j)) as Ep by (apply run_same; [done|lia|by left|by split]).
    unfold leaf, ent. rewrite (tab_pre (mem p) c 3 va' (va + 4096 * j)), Ht by (lia || (apply (pre_le 4 3); [lia|done])). done.
Qed.

Lemma unmap_pages_spec n p : paging_wf (mem p) R → 0 ≤ n → va + 4096 * n ≤ 2 ^ 47 →
  let p' := unmap_pages n c va p in
  paging_wf (mem p') R ∧ same_tables R (mem p) (mem p') ∧ pm p' = pm p ∧ pml4_phys p' = pml4_phys p ∧
  run_unmapped n (mem p) (mem p').
Proof.
  intros Hwf Hn Hb. cbv zeta. unfold unmap_pages.
  apply (for_up_ind (λ n p', paging_wf (mem p') R ∧ same_tables R (mem p) (mem p') ∧ pm p' = pm p ∧
    pml4_phys p' = pml4_phys p ∧ run_unmapped n (mem p) (mem p'))); [done| |].
  - split; [done|]. split; [done|]. split; [done|]. split; [done|]. split; [|done]. intros va' _. unfold in_run. lia.
  - intros j q Hj (Hwf' & Hst & Hpm & Hk & H1 & H2).
    destruct (unmap_step j q Hwf' ltac:(lia) ltac:(lia)) as (Hwf2 & Hst2 & Hpm2 & Hk2 & G1 & G2).
    split; [done|]. split; [by etrans|]. split; [congruence|]. split; [congruence|]. split.
    + intros va' Hu' Hin. destruct (decide (va' / 4096 = va / 4096 + j)) as [E|E]; [by apply G1|].
      rewrite G2; [|done|by left|tauto]. apply H1; [done|]. unfold in_run in *. lia.
    + intros c' va' Hc' Hv Hno. unfold in_run in *. rewrite G2; [|done|done|intros (-> & ? & ?); apply Hno; split; [done|split; [done|lia]]].
      apply H2; [done|done|]. intros (-> & ? & ?). apply Hno. split; [done|split; [done|lia]].
Qed.
End pages.
#[export] Existing Instance in_run_dec.
