(* ===== verification/VspaceInv.v ===== *)
(** * The lists of mapping records

    [VmCapsOk] are the laws of the capability layer; [lists_ok] says that the records
    in use are on the list of their space and on the list of their frame, and the
    others on a free list.  The lemmas give what taking a record from a free list,
    returning it, linking and unlinking do. *)

From Stdlib Require Import ZArith Lia.
From stdpp Require Import base numbers list sets.
From S2P Require Import Prelude Rights Slist Pmm Paging PagingInv PagingSpec Vspace VspacePg.
Local Open Scope Z_scope.

(** ** Laws of the capability layer *)

(** [caps_ok h c]: the counts of every object [o] include the [h o] references the
    mapping records hold.  [obj_room n o c]: [o] is alive and its counts have room for
    [n] more.  [rec_used a c]: the block [a] has been handed out.  [src_names src o c]:
    the slot a capability is to be derived from, if one is named, holds [o].
    [pool_ok p c]: [p] is a live Untyped. *)
Class VmCapsOk (C : Type) `{VmCaps C} := {
  caps_ok : (N → Z) → C → Prop;
  obj_room : Z → N → C → Prop;
  rec_used : Z → C → Prop;
  src_names : option (N * N) → N → C → Prop;
  pool_ok : N → C → Prop;
  caps_ok_ext h h' c : (∀ o, h o = h' o) → caps_ok h c → caps_ok h' c;
  obj_room_le n n' o c : n ≤ n' → obj_room n' o c → obj_room n o c;
  caps_install_ok h c v pool o src :
    caps_ok h c → map_cap_has v o c = false → obj_room 2 o c → src_names src o c → (∀ p, pool = Some p → pool_ok p c) →
    returns (map_cap_install v pool o src c) (λ '(e, c'), caps_ok h c' ∧
      (∀ v' o', map_cap_has v' o' c' = if decide (v' = v ∧ o' = o) then bool_decide (e = IRIS_OK) else map_cap_has v' o' c) ∧
      (∀ n, obj_room (n + 2) o c → obj_room n o c') ∧ (∀ a, rec_used a c → rec_used a c'));
  caps_delete_ok h c v o :
    caps_ok h c →
    returns (map_cap_delete v o c) (λ '(b, c'), caps_ok h c' ∧ b = map_cap_has v o c ∧
      (∀ v' o', map_cap_has v' o' c' = if decide (v' = v ∧ o' = o) then false else map_cap_has v' o' c) ∧
      (∀ a, rec_used a c → rec_used a c'));
  caps_retain_ok h c o :
    caps_ok h c → obj_room 1 o c →
    returns (obj_retain o c) (λ c', caps_ok (λ x, if decide (x = o) then h x + 1 else h x) c' ∧
      (∀ v' o', map_cap_has v' o' c' = map_cap_has v' o' c) ∧ (∀ a, rec_used a c → rec_used a c'));
  caps_release_ok h c o :
    caps_ok h c → 1 ≤ h o →
    returns (obj_release o c) (λ c', caps_ok (λ x, if decide (x = o) then h x - 1 else h x) c' ∧
      (∀ v' o', map_cap_has v' o' c' = map_cap_has v' o' c) ∧ (∀ a, rec_used a c → rec_used a c'));
  caps_rec_ok h c pool :
    caps_ok h c → pool_ok pool c →
    returns (rec_alloc pool c) (λ '(o, c'), caps_ok h c' ∧ (∀ v' o', map_cap_has v' o' c' = map_cap_has v' o' c) ∧
      (∀ n o, obj_room n o c → obj_room n o c') ∧ (∀ src o, src_names src o c → src_names src o c') ∧
      (∀ p, pool_ok p c → pool_ok p c') ∧ (∀ a, rec_used a c → rec_used a c') ∧
      (∀ a, o = Some a → ¬ rec_used a c ∧ rec_used a c'));
}.

(** ** Which record is on which list *)

Record ghost := Gh {
  lv : N → list mnode;        (* mappings of a space *)
  lf : N → list mnode;        (* mappings of a frame *)
  fv : N → list mnode;        (* free records of a space *)
  fb : list mnode;            (* free records of the arena *)
}.

Section lists.
Context {C : Type} `{VmCapsOk C}.
Implicit Types (s : vm C) (v f : N) (m x : mnode) (g : ghost) (hd : N → option mnode).

Definition node_used m s : Prop := match m with Boot i => (i < boot_next s)%N | Blk a => rec_used a (cs s) end.
Definition fcount f s : Z := mapped_count (frs s f).

Record lists_ok hd g s : Prop := ListsOk {
  lo_v    : ∀ v, chain (m_next s) (hd v) (lv g v);
  lo_f    : ∀ f, chain (frame_next s) (f_maps (frs s f)) (lf g f);
  lo_vf   : ∀ v m, m ∈ lv g v → m_vs s m = Some v ∧ ∃ f, m_frame s m = Some f ∧ m ∈ lf g f;
  lo_fv   : ∀ f m, m ∈ lf g f → m_frame s m = Some f ∧ ∃ v, m ∈ lv g v;
  lo_used : ∀ v m, m ∈ lv g v → node_used m s;
  lo_fr   : ∀ v, chain (m_next s) (free_nodes (vss s v)) (fv g v);
  lo_fr_m : ∀ v m, m ∈ fv g v → m_frame s m = None ∧ kvspace_node_is_boot m = false ∧ node_used m s;
  lo_fr_v : ∀ v v' m, m ∈ fv g v → m ∈ fv g v' → v = v';
  lo_b    : chain (m_next s) (boot_free s) (fb g);
  lo_b_m  : ∀ m, m ∈ fb g → m_frame s m = None ∧ kvspace_node_is_boot m = true ∧ node_used m s;
  lo_next : (boot_next s ≤ KVSPACE_BOOT_NODES)%N;
}.

(** A record on no list. *)
Definition loose g m : Prop := (∀ v, m ∉ lv g v) ∧ (∀ f, m ∉ lf g f) ∧ (∀ v, m ∉ fv g v) ∧ m ∉ fb g.

Lemma lists_off hd g s m : lists_ok hd g s → m_frame s m = None → (∀ v, m ∉ lv g v) ∧ (∀ f, m ∉ lf g f).
Proof.
  intros Hl Hm. split.
  - intros v Hin. destruct (lo_vf _ _ _ Hl v m Hin) as (_ & f & ? & _). congruence.
  - intros f Hin. destruct (lo_fv _ _ _ Hl f m Hin) as [? _]. congruence.
Qed.

Lemma lv_unique hd g s v v' m : lists_ok hd g s → m ∈ lv g v → m ∈ lv g v' → v = v'.
Proof.
  intros Hl H1 H2. destruct (lo_vf _ _ _ Hl v m H1) as [? _], (lo_vf _ _ _ Hl v' m H2) as [? _]. congruence.
Qed.

Lemma chain_upd (nx : mnode → option mnode) h l m o : m ∉ l → chain nx h l → chain (upd_fn nx m o) h l.
Proof. intros Hm. apply chain_ext. intros x Hx. symmetry. apply upd_fn_other. set_solver. Qed.

(** What the lists depend on. *)
Definition same_nodes s s' : Prop :=
  (∀ f, f_maps (frs s' f) = f_maps (frs s f)) ∧ m_frame s' = m_frame s ∧ m_next s' = m_next s ∧ m_vs s' = m_vs s ∧
  frame_next s' = frame_next s ∧ (∀ v, free_nodes (vss s' v) = free_nodes (vss s v)) ∧
  boot_next s' = boot_next s ∧ boot_free s' = boot_free s ∧ (∀ a, rec_used a (cs s) → rec_used a (cs s')).

Lemma used_mono s s' m : (boot_next s ≤ boot_next s')%N → (∀ a, rec_used a (cs s) → rec_used a (cs s')) → node_used m s → node_used m s'.
Proof. destruct m; simpl; [lia|auto]. Qed.

Lemma lists_same hd g s s' : same_nodes s s' → lists_ok hd g s → lists_ok hd g s'.
Proof.
  intros (E1 & E2 & E3 & E4 & E5 & E6 & E7 & E8 & E9) [].
  assert (∀ m, node_used m s → node_used m s') as Hu by (intros m; apply used_mono; [lia|done]).
  split; intros *; rewrite ?E1, ?E2, ?E3, ?E4, ?E5, ?E6, ?E7, ?E8; eauto.
  - intros Hin. destruct (lo_fr_m0 _ _ Hin) as (? & ? & ?). auto.
  - intros Hin. destruct (lo_b_m0 _ Hin) as (? & ? & ?). auto.
Qed.

(** ** Taking a record *)

Ltac vsimp := cbn [with_cs with_pg put_vs put_fr put_pt with_next put_map with_back with_epochs with_boot with_shoot
  reset_node set_free set_maps set_fr_maps cs pg vss frs pts pt_next m_frame m_va m_next m_vs frame_next m_epoch m_boot
  boot_next boot_free fin_epoch shoot tlim free_nodes mappings mapping_count f_maps mapped_count cr3 valid pt_pool tables
  f_paddr f_size lv lf fv fb].

(** The fields of a loose record do not matter. *)
Lemma reset_loose hd g s m : lists_ok hd g s → loose g m → lists_ok hd g (reset_node m s).
Proof.
  intros [] (L1 & L2 & L3 & L4).
  assert (∀ v x, x ∈ lv g v → x ≠ m) as N1 by (intros v x Hx ->; by apply (L1 v)).
  assert (∀ f x, x ∈ lf g f → x ≠ m) as N2 by (intros v x Hx ->; by apply (L2 v)).
  assert (∀ v x, x ∈ fv g v → x ≠ m) as N3 by (intros v x Hx ->; by apply (L3 v)).
  assert (∀ x, x ∈ fb g → x ≠ m) as N4 by (intros x Hx ->; by apply L4).
  split; vsimp; try done; try (intros *; by apply chain_upd); try (by apply chain_upd).
  - intros v x Hx. rewrite !upd_fn_other by eauto. by apply lo_vf0.
  - intros f x Hx. rewrite !upd_fn_other by eauto. by apply lo_fv0.
  - intros v x Hx. rewrite !upd_fn_other by eauto. by apply lo_fr_m0 in Hx.
  - intros x Hx. rewrite !upd_fn_other by eauto. by apply lo_b_m0.
Qed.

Definition pop_free v g : ghost := Gh (lv g) (lf g) (upd_fn (fv g) v (tail (fv g v))) (fb g).
Definition pop_boot g : ghost := Gh (lv g) (lf g) (fv g) (tail (fb g)).

Lemma mchain_head (nx : mnode → option mnode) m l : chain nx (Some m) l → ∃ l', l = m :: l' ∧ chain nx (nx m) l' ∧ m ∉ l'.
Proof.
  intros Hc. pose proof (chain_nodup _ _ _ Hc) as Hn. inversion Hc as [|? l' Hc']; subst. apply NoDup_cons in Hn as [? _]. eauto.
Qed.

Lemma pop_free_spec hd g s v m :
  lists_ok hd g s → free_nodes (vss s v) = Some m →
  lists_ok hd (pop_free v g) (put_vs v (set_free (m_next s m) (vss s v)) s) ∧ loose (pop_free v g) m ∧ node_used m s.
Proof.
  intros Hl Hf. pose proof Hl as []. pose proof (lo_fr0 v) as Hc. rewrite Hf in Hc. apply mchain_head in Hc as (l & El & Hc & Hn).
  assert (m ∈ fv g v) as Hm by (rewrite El; left). destruct (lo_fr_m0 v m Hm) as (Hm1 & Hm2 & Hm3).
  assert (∀ v' x, x ∈ fv (pop_free v g) v' → x ∈ fv g v') as Hsub.
  { intros v' x. cbn [pop_free fv]. unfold upd_fn. case_decide as E; [subst|done]. rewrite El. simpl. set_solver. }
  split; [|split; [|done]].
  - split; vsimp; try done; try (by intros *; unfold upd_fn; case_decide; subst; vsimp).
    + intros v'. cbn [pop_free fv]. unfold upd_fn. case_decide; subst; [|done]. vsimp. by rewrite El.
    + intros v' x Hx. apply (lo_fr_m0 v'), Hsub, Hx.
    + intros v1 v2 x H1 H2. apply (lo_fr_v0 v1 v2 x); by apply Hsub.
  - destruct (lists_off hd g s m Hl Hm1) as [L1 L2]. split; [done|]. split; [done|]. split.
    + intros v' Hin. destruct (decide (v' = v)) as [->|Hv].
      * cbn [pop_free fv] in Hin. rewrite upd_fn_same, El in Hin. done.
      * apply Hv. apply (lo_fr_v0 v' v m); [by apply Hsub|done].
    + intros Hin. destruct (lo_b_m0 m Hin) as (_ & ? & _). congruence.
Qed.

Lemma pop_boot_spec hd g s m :
  lists_ok hd g s → boot_free s = Some m →
  lists_ok hd (pop_boot g) (with_boot (boot_next s) (m_next s m) s) ∧ loose (pop_boot g) m ∧ node_used m s.
Proof.
  intros Hl Hf. pose proof Hl as []. pose proof lo_b0 as Hc. rewrite Hf in Hc. apply mchain_head in Hc as (l & El & Hc & Hn).
  assert (m ∈ fb g) as Hm by (rewrite El; left). destruct (lo_b_m0 m Hm) as (Hm1 & Hm2 & Hm3).
  assert (tail (fb g) = l) as Et by (by rewrite El).
  split; [|split; [|done]].
  - split; vsimp; try done; cbn [pop_boot fb]; rewrite Et; [done|]. intros x Hx. apply lo_b_m0. rewrite El. by right.
  - destruct (lists_off hd g s m Hl Hm1) as [L1 L2]. split; [done|]. split; [done|]. split; [|by cbn [pop_boot fb]; rewrite Et].
    intros v' Hin. destruct (lo_fr_m0 v' m Hin) as (_ & ? & _). congruence.
Qed.

Lemma unused_loose hd g s m : lists_ok hd g s → ¬ node_used m s → loose g m.
Proof.
  intros Hl Hn. pose proof Hl as []. split; [intros v Hin; by apply Hn, (lo_used0 v)|].
  split; [|split; [intros v Hin; by apply Hn, (lo_fr_m0 v)|intros Hin; by apply Hn, lo_b_m0]].
  intros f Hin. destruct (lo_fv0 f m Hin) as (_ & v & Hv). by apply Hn, (lo_used0 v).
Qed.

(** What is left as it was: all that is not a free list or a field of [m]. *)
Definition only_node m s s' : Prop :=
  pg s' = pg s ∧ frs s' = frs s ∧ pts s' = pts s ∧ pt_next s' = pt_next s ∧ shoot s' = shoot s ∧ tlim s' = tlim s ∧
  fin_epoch s' = fin_epoch s ∧
  (∀ v, ∃ l, vss s' v = set_free l (vss s v)) ∧
  (∀ x, x ≠ m → m_frame s' x = m_frame s x ∧ m_va s' x = m_va s x ∧ m_vs s' x = m_vs s x ∧ m_boot s' x = m_boot s x ∧ m_epoch s' x = m_epoch s x).

Lemma only_node_intro m s s' :
  pg s' = pg s → frs s' = frs s → pts s' = pts s → pt_next s' = pt_next s → shoot s' = shoot s → tlim s' = tlim s →
  fin_epoch s' = fin_epoch s → vss s' = vss s →
  (∀ x, x ≠ m → m_frame s' x = m_frame s x ∧ m_va s' x = m_va s x ∧ m_vs s' x = m_vs s x ∧ m_boot s' x = m_boot s x ∧ m_epoch s' x = m_epoch s x) →
  only_node m s s'.
Proof.
  intros. do 7 (split; [done|]). split; [|done]. intros v. exists (free_nodes (vss s v)). rewrite H8. by destruct (vss s v).
Qed.

Lemma only_node_trans m s1 s2 s3 : only_node m s1 s2 → only_node m s2 s3 → only_node m s1 s3.
Proof.
  intros (A1 & A2 & A3 & A4 & A5 & A6 & A7 & A8 & A9) (B1 & B2 & B3 & B4 & B5 & B6 & B7 & B8 & B9).
  do 7 (split; [congruence|]). split.
  - intros v. destruct (A8 v) as [l El], (B8 v) as [l' El']. exists l'. by rewrite El', El.
  - intros x Hx. destruct (A9 x Hx) as (? & ? & ? & ? & ?), (B9 x Hx) as (? & ? & ? & ? & ?). split_and!; congruence.
Qed.

Lemma only_node_free m s v l : only_node m s (put_vs v (set_free l (vss s v)) s).
Proof.
  do 7 (split; [done|]). split; [|done]. intros v'. vsimp. unfold upd_fn. case_decide; subst; [by eexists|].
  exists (free_nodes (vss s v')). by destruct (vss s v').
Qed.

Lemma reset_only m s : only_node m s (reset_node m s).
Proof. apply only_node_intro; try done. intros x Hx. vsimp. by rewrite !upd_fn_other. Qed.

(** The capability layer gave nothing away but storage. *)
Definition caps_same h (c c' : C) : Prop := caps_ok h c' ∧ (∀ v' o', map_cap_has v' o' c' = map_cap_has v' o' c) ∧
  (∀ n o', obj_room n o' c → obj_room n o' c') ∧ (∀ src o', src_names src o' c → src_names src o' c') ∧ (∀ p, pool_ok p c → pool_ok p c').

Definition alloc_post hd g h s (r : option mnode * vm C) : Prop :=
  ∃ g', lists_ok hd g' r.2 ∧ lv g' = lv g ∧ lf g' = lf g ∧ caps_same h (cs s) (cs r.2) ∧
  match r.1 with
  | None => ∀ m, only_node m s r.2
  | Some m => loose g' m ∧ node_used m r.2 ∧ m_frame r.2 m = None ∧ m_epoch r.2 m = 0 ∧ only_node m s r.2
  end.

Lemma alloc_reset hd g g' h s s1 m :
  lists_ok hd g' s1 → lv g' = lv g → lf g' = lf g → loose g' m → node_used m s1 → only_node m s s1 →
  caps_same h (cs s) (cs s1) → alloc_post hd g h s (Some m, reset_node m s1).
Proof.
  intros Hl Ev Ef Hlo Hu Ho Hc. exists g'. split; [by apply reset_loose|]. do 3 (split; [done|]).
  split; [done|]. split; [done|]. do 2 (split; [cbn [snd]; vsimp; by rewrite upd_fn_same|]).
  eapply only_node_trans; [done|apply reset_only].
Qed.

Lemma boot_alloc_spec hd g s h :
  lists_ok hd g s → caps_ok h (cs s) → alloc_post hd g h s (kvspace_boot_node_alloc s).
Proof.
  intros Hl Hc. assert (caps_same h (cs s) (cs s)) as Hcs by (by split_and!).
  unfold kvspace_boot_node_alloc. destruct (boot_free s) as [m|] eqn:Hf.
  { destruct (pop_boot_spec hd g s m Hl Hf) as (Hl' & Hlo & Hu).
    apply (alloc_reset hd g (pop_boot g)); try done. by apply only_node_intro. }
  destruct (N.ltb_spec (boot_next s) KVSPACE_BOOT_NODES) as [Hb|Hb].
  - assert (∀ x, node_used x s → node_used x (with_boot (boot_next s + 1) None s)) as Hm
      by (intros x; apply used_mono; [vsimp; lia|done]).
    apply (alloc_reset hd g g); try done; [|apply (unused_loose hd g s); [done|simpl; lia]|simpl; lia|by apply only_node_intro].
    destruct Hl. rewrite Hf in lo_b0. split; vsimp; try done; eauto; [| |lia].
    + intros v' x Hx. destruct (lo_fr_m0 _ _ Hx) as (? & ? & ?). auto.
    + intros x Hx. destruct (lo_b_m0 _ Hx) as (? & ? & ?). auto.
  - exists g. split; [done|]. do 3 (split; [done|]). intros m. by apply only_node_intro.
Qed.

Lemma node_alloc_spec hd g s v h :
  lists_ok hd g s → caps_ok h (cs s) → (∀ p, pt_pool (vss s v) = Some p → pool_ok p (cs s)) →
  returns (kvspace_node_alloc v s) (alloc_post hd g h s).
Proof.
  intros Hl Hc Hp. unfold kvspace_node_alloc. destruct (pt_pool (vss s v)) as [pool|]; [|by apply boot_alloc_spec].
  destruct (free_nodes (vss s v)) as [m|] eqn:Hf.
  - destruct (pop_free_spec hd g s v m Hl Hf) as (Hl' & Hlo & Hu).
    apply (alloc_reset hd g (pop_free v g)); try done. apply only_node_free.
  - apply returns_bind. eapply returns_mono; [by apply caps_rec_ok; auto|]. intros [o c'] (H1 & H2 & H3 & H3' & H3'' & H4 & H5). simpl.
    assert (lists_ok hd g (with_cs c' s)) as Hl' by (apply (lists_same hd g s); [repeat split; try done|done]).
    assert (caps_same h (cs s) c') as Hcs by (by split_and!).
    destruct o as [a|]; [|exists g; do 4 (split; [done|]); intros m; by apply only_node_intro].
    destruct (H5 a eq_refl) as [Hn Hu].
    apply (alloc_reset hd g g); try done; [by apply (unused_loose hd g s)|by apply only_node_intro].
Qed.
(** ** Returning a record *)

Lemma upd_cons_in (F : N → list mnode) v m v' x : x ≠ m → x ∈ upd_fn F v (m :: F v) v' → x ∈ F v'.
Proof. intros Hx. unfold upd_fn. case_decide; subst; [|done]. by intros [?|?]%elem_of_cons. Qed.
Lemma upd_cons_at (F : N → list mnode) v m v' : m ∉ F v' → m ∈ upd_fn F v (m :: F v) v' → v' = v.
Proof. intros Hx. unfold upd_fn. by case_decide. Qed.
Lemma upd_cons_sub (F : N → list mnode) v m v' x : x ∈ F v' → x ∈ upd_fn F v (m :: F v) v'.
Proof. unfold upd_fn. case_decide; subst; [by right|done]. Qed.

Definition push v m g : ghost :=
  if kvspace_node_is_boot m then Gh (lv g) (lf g) (fv g) (m :: fb g)
  else Gh (lv g) (lf g) (upd_fn (fv g) v (m :: fv g v)) (fb g).

Definition push_node v m s : vm C :=
  if kvspace_node_is_boot m then kvspace_boot_node_free m s
  else
    let s := put_map m None (m_va s m) (m_boot s m) s in
    let s := with_next (upd_fn (m_next s) m (free_nodes (vss s v))) s in
    put_vs v (set_free (Some m) (vss s v)) s.

Lemma node_free_unfold v m s : kvspace_node_free v m s = (s ← kvspace_frame_unlink m s; Ret (push_node v m s)).
Proof. unfold kvspace_node_free, push_node. destruct (kvspace_frame_unlink m s); [|done..]. simpl. by destruct (kvspace_node_is_boot m). Qed.

Lemma push_lists v m g : lv (push v m g) = lv g ∧ lf (push v m g) = lf g.
Proof. unfold push. by destruct (kvspace_node_is_boot m). Qed.

Lemma push_spec hd g s v m :
  lists_ok hd g s → loose g m → node_used m s →
  lists_ok hd (push v m g) (push_node v m s) ∧ only_node m s (push_node v m s) ∧ cs (push_node v m s) = cs s.
Proof.
  intros [] (L1 & L2 & L3 & L4) Hu.
  assert (∀ v x, x ∈ lv g v → x ≠ m) as N1 by (intros v' x Hx ->; by apply (L1 v')).
  assert (∀ f x, x ∈ lf g f → x ≠ m) as N2 by (intros v' x Hx ->; by apply (L2 v')).
  assert (∀ v x, x ∈ fv g v → x ≠ m) as N3 by (intros v' x Hx ->; by apply (L3 v')).
  assert (∀ x, x ∈ fb g → x ≠ m) as N4 by (intros x Hx ->; by apply L4).
  assert (∀ x s', boot_next s' = boot_next s → cs s' = cs s → node_used x s → node_used x s') as Hk
    by (intros x s' E1 E2; apply used_mono; [lia|by rewrite E2]).
  unfold push, push_node. destruct (kvspace_node_is_boot m) eqn:Hb.
  - split; [|split; [|done]].
    + unfold kvspace_boot_node_free. split; vsimp; try done; try (intros *; by apply chain_upd); eauto.
      * intros v' x Hx. rewrite upd_fn_other by eauto. by apply lo_vf0.
      * intros f x Hx. rewrite upd_fn_other by eauto. by apply lo_fv0.
      * intros v' x Hx. rewrite upd_fn_other by eauto. destruct (lo_fr_m0 v' x Hx) as (? & ? & ?). auto.
      * constructor. rewrite upd_fn_same. by apply chain_upd.
      * intros x [->|Hx]%elem_of_cons; [rewrite upd_fn_same; auto|]. rewrite upd_fn_other by eauto.
        destruct (lo_b_m0 x Hx) as (? & ? & ?). auto.
    + apply only_node_intro; try done. intros x Hx. unfold kvspace_boot_node_free. vsimp. by rewrite !upd_fn_other.
  - split; [|split; [|done]].
    + split; vsimp; try done; try (intros *; by apply chain_upd); eauto.
      * intros v' x Hx. rewrite upd_fn_other by eauto. by apply lo_vf0.
      * intros f x Hx. rewrite upd_fn_other by eauto. by apply lo_fv0.
      * intros v'. unfold upd_fn at 2 3. case_decide; subst; vsimp; [|by apply chain_upd].
        constructor. rewrite upd_fn_same. by apply chain_upd.
      * intros v' x Hx. destruct (decide (x = m)) as [->|Hxm]; [rewrite upd_fn_same; auto|].
        apply upd_cons_in in Hx; [|done]. rewrite upd_fn_other by done. destruct (lo_fr_m0 v' x Hx) as (? & ? & ?). auto.
      * intros v1 v2 x H1 H2. destruct (decide (x = m)) as [->|Hx].
        -- apply upd_cons_at in H1, H2; [congruence|done..].
        -- apply upd_cons_in in H1, H2; [by apply (lo_fr_v0 v1 v2 x)|done..].
      * intros x Hx. rewrite upd_fn_other by eauto. destruct (lo_b_m0 x Hx) as (? & ? & ?). auto.
    + eapply only_node_trans; [|apply only_node_free]. apply only_node_intro; try done.
      intros x Hx. vsimp. by rewrite !upd_fn_other.
Qed.

(** A record that was taken and never linked. *)
Lemma node_free_loose hd g s v m :
  lists_ok hd g s → loose g m → node_used m s → m_frame s m = None →
  returns (kvspace_node_free v m s) (λ s', lists_ok hd (push v m g) s' ∧ only_node m s s' ∧ cs s' = cs s).
Proof.
  intros Hl Hlo Hu Hm. rewrite node_free_unfold. unfold kvspace_frame_unlink. rewrite Hm. simpl. by apply push_spec.
Qed.

(** ** Linking a record *)

Definition link v f m g : ghost := Gh (upd_fn (lv g) v (m :: lv g v)) (upd_fn (lf g) f (m :: lf g f)) (fv g) (fb g).

Lemma link_lists g s v f m va b :
  lists_ok (λ v, mappings (vss s v)) g s → loose g m → node_used m s →
  let s' := link_mapping f v m va b s in lists_ok (λ v, mappings (vss s' v)) (link v f m g) s'.
Proof.
  intros [] (L1 & L2 & L3 & L4) Hu s'.
  assert (∀ v x, x ∈ lv g v → x ≠ m) as N1 by (intros v' x Hx ->; by apply (L1 v')).
  assert (∀ f x, x ∈ lf g f → x ≠ m) as N2 by (intros v' x Hx ->; by apply (L2 v')).
  assert (∀ v x, x ∈ fv g v → x ≠ m) as N3 by (intros v' x Hx ->; by apply (L3 v')).
  assert (∀ x, x ∈ fb g → x ≠ m) as N4 by (intros x Hx ->; by apply L4).
  subst s'. unfold link_mapping, link. split; vsimp; try done.
  - intros v'. unfold upd_fn at 2 3. case_decide; subst; vsimp; [|by apply chain_upd].
    constructor. rewrite upd_fn_same. by apply chain_upd.
  - intros f'. unfold upd_fn at 2 3. case_decide; subst; vsimp; [|by apply chain_upd].
    constructor. rewrite upd_fn_same. by apply chain_upd.
  - intros v' x Hx. destruct (decide (x = m)) as [->|Hxm].
    + apply upd_cons_at in Hx as ->; [|done]. rewrite !upd_fn_same. split; [done|].
      exists f. rewrite upd_fn_same. split; [done|left].
    + apply upd_cons_in in Hx; [|done]. rewrite !upd_fn_other by done.
      destruct (lo_vf0 v' x Hx) as (? & f' & ? & ?). split; [done|]. exists f'. split; [done|by apply upd_cons_sub].
  - intros f' x Hx. destruct (decide (x = m)) as [->|Hxm].
    + apply upd_cons_at in Hx as ->; [|done]. rewrite !upd_fn_same. split; [done|]. exists v. rewrite upd_fn_same. left.
    + apply upd_cons_in in Hx; [|done]. rewrite !upd_fn_other by done.
      destruct (lo_fv0 f' x Hx) as (? & v' & ?). split; [done|]. exists v'. by apply upd_cons_sub.
  - intros v' x Hx. destruct (decide (x = m)) as [->|Hxm]; [done|]. apply upd_cons_in in Hx; [|done]. by apply (lo_used0 v').
  - intros v'. unfold upd_fn at 2. case_decide; subst; vsimp; by apply chain_upd.
  - intros v' x Hx. rewrite upd_fn_other by eauto. by apply (lo_fr_m0 v').
  - by apply chain_upd.
  - intros x Hx. rewrite upd_fn_other by eauto. by apply lo_b_m0.
Qed.
(** ** Unlinking a record *)

Definition drop v f m g : ghost :=
  Gh (upd_fn (lv g) v (filter (λ x, x ≠ m) (lv g v))) (upd_fn (lf g) f (filter (λ x, x ≠ m) (lf g f))) (fv g) (fb g).

(** What is left as it was when a record leaves its lists. *)
Definition kept m s s' : Prop :=
  pg s' = pg s ∧ pts s' = pts s ∧ pt_next s' = pt_next s ∧ shoot s' = shoot s ∧ tlim s' = tlim s ∧ fin_epoch s' = fin_epoch s ∧
  (∀ v, ∃ l, vss s' v = set_free l (vss s v)) ∧ (∀ f, ∃ h n, frs s' f = set_fr_maps h n (frs s f)) ∧
  (∀ x, x ≠ m → m_frame s' x = m_frame s x ∧ m_va s' x = m_va s x ∧ m_vs s' x = m_vs s x ∧ m_boot s' x = m_boot s x ∧ m_epoch s' x = m_epoch s x).

(** [s1] is [s] but for the links of the spaces' lists. *)
Definition relinked s s1 : Prop :=
  (∀ f, f_maps (frs s1 f) = f_maps (frs s f)) ∧ m_frame s1 = m_frame s ∧ m_vs s1 = m_vs s ∧ frame_next s1 = frame_next s ∧
  (∀ v, free_nodes (vss s1 v) = free_nodes (vss s v)) ∧ boot_next s1 = boot_next s ∧ boot_free s1 = boot_free s ∧ cs s1 = cs s.

Lemma in_drop (F : N → list mnode) v m v' x : x ∈ upd_fn F v (filter (λ y, y ≠ m) (F v)) v' → x ∈ F v'.
Proof. unfold upd_fn. case_decide; subst; [|done]. by intros [_ ?]%list_elem_of_filter. Qed.
Lemma not_in_drop (F : N → list mnode) v m v' x : x ≠ m → x ∈ F v' → x ∈ upd_fn F v (filter (λ y, y ≠ m) (F v)) v'.
Proof. unfold upd_fn. case_decide; subst; [|done]. intros. by apply list_elem_of_filter. Qed.
Lemma drop_out (F : N → list mnode) v m v' : (∀ v', m ∈ F v' → v' = v) → m ∉ upd_fn F v (filter (λ y, y ≠ m) (F v)) v'.
Proof. intros Hu. unfold upd_fn. case_decide; subst; [by intros [? _]%list_elem_of_filter|]. intros Hin. by apply Hu in Hin. Qed.

Lemma drop_loose hd g s v f m : lists_ok hd g s → m ∈ lv g v → m_frame s m = Some f → loose (drop v f m g) m.
Proof.
  intros Hl Hm Hf. pose proof Hl as []. split; [|split; [|split]]; cbn [drop lv lf fv fb].
  - intros v'. apply drop_out. intros v1 H1. by apply (lv_unique hd g s v1 v m).
  - intros f'. apply drop_out. intros f1 H1. destruct (lo_fv0 f1 m H1) as [? _]. congruence.
  - intros v' H1. destruct (lo_fr_m0 v' m H1) as [? _]. congruence.
  - intros H1. destruct (lo_b_m0 m H1) as [? _]. congruence.
Qed.

Lemma detach_spec hd hd' g s s1 v f m :
  lists_ok hd g s → m ∈ lv g v → m_frame s m = Some f → Z.of_nat (length (lf g f)) = mapped_count (frs s1 f) →
  relinked s s1 → (∀ v', v' ≠ v → hd' v' = hd v') →
  chain (m_next s1) (hd' v) (filter (λ x, x ≠ m) (lv g v)) → (∀ y, y ∉ lv g v → m_next s1 y = m_next s y) →
  returns (kvspace_frame_unlink m s1) (λ s2, lists_ok hd' (drop v f m g) s2 ∧ node_used m s2 ∧ cs s2 = cs s1 ∧ kept m s1 s2 ∧
    ∀ f', mapped_count (frs s2 f') = mapped_count (frs s1 f')).
Proof.
  intros Hl Hm Hf Hn (R1 & R2 & R3 & R4 & R5 & R6 & R7 & R8) Hh Hc Hnx. pose proof Hl as [].
  unfold kvspace_frame_unlink. rewrite R2, Hf.
  destruct (unlink_removes (frame_next s1) (f_maps (frs s1 f)) m (lf g f) (framelen f s1)) as (h' & nx' & -> & Hc' & Hoff & _ & _).
  { rewrite R4, R1. done. } { apply (chain_nodup (frame_next s) (f_maps (frs s f))), lo_f0. } { unfold framelen. lia. }
  assert (∀ x, node_used x s → node_used x s1) as Hk by (intros x; apply used_mono; [lia|by rewrite R8]).
  assert (∀ f' x, x ∈ lf g f' → f' ≠ f → x ∉ lf g f) as Hsep.
  { intros f' x H1 H2 H3. destruct (lo_fv0 f' x H1) as [? _], (lo_fv0 f x H3) as [? _]. congruence. }
  simpl. split; [|split; [by apply Hk, (lo_used0 v)|split; [done|split]]].
  - assert (∀ v' x, x ∈ fv g v' → x ∉ lv g v) as F1.
    { intros v' x H1 H2. destruct (lo_fr_m0 v' x H1) as [? _], (lo_vf0 v x H2) as (_ & ? & ? & _). congruence. }
    assert (∀ x, x ∈ fb g → x ∉ lv g v) as F2.
    { intros x H1 H2. destruct (lo_b_m0 x H1) as [? _], (lo_vf0 v x H2) as (_ & ? & ? & _). congruence. }
    unfold drop. split; vsimp; rewrite ?R2, ?R3, ?R6, ?R7.
    + intros v'. unfold upd_fn. case_decide; subst; [done|]. rewrite Hh by done. apply (chain_ext (m_next s)); [|done].
      intros x Hx. symmetry. apply Hnx. intros Hx'. by apply (lv_unique hd g s v' v x) in Hx.
    + intros f'. apply chain_upd; [apply drop_out; intros f1 H1; destruct (lo_fv0 f1 m H1) as [? _]; congruence|].
      unfold upd_fn. case_decide; subst; vsimp; [done|]. rewrite R1. apply (chain_ext (frame_next s)); [|done].
      intros x Hx. rewrite Hoff, R4; [done|]. by apply (Hsep f').
    + intros v' x Hx. apply in_drop in Hx as Hx'. assert (x ≠ m) as Hxm.
      { intros ->. revert Hx. apply drop_out. intros v1 H1. by apply (lv_unique hd g s v1 v m). }
      rewrite upd_fn_other by done. destruct (lo_vf0 v' x Hx') as (? & f' & ? & ?). split; [done|]. exists f'. split; [done|].
      by apply not_in_drop.
    + intros f' x Hx. apply in_drop in Hx as Hx'. assert (x ≠ m) as Hxm.
      { intros ->. revert Hx. apply drop_out. intros f1 H1. destruct (lo_fv0 f1 m H1) as [? _]. congruence. }
      destruct (lo_fv0 f' x Hx') as (? & v' & ?). split; [done|]. exists v'. by apply not_in_drop.
    + intros v' x Hx. apply Hk. apply in_drop in Hx. by apply (lo_used0 v').
    + intros v'. rewrite R5. apply (chain_ext (m_next s)); [|done]. intros x Hx. symmetry. by apply Hnx, (F1 v').
    + intros v' x Hx. destruct (lo_fr_m0 v' x Hx) as (? & ? & ?). split; [done|]. split; [done|by apply Hk].
    + done.
    + apply (chain_ext (m_next s)); [|done]. intros x Hx. symmetry. by apply Hnx, F2.
    + intros x Hx. destruct (lo_b_m0 x Hx) as (? & ? & ?). split; [done|]. split; [done|by apply Hk].
    + done.
  - do 6 (split; [done|]). split; [|split].
    + intros v'. exists (free_nodes (vss s1 v')). vsimp. by destruct (vss s1 v').
    + intros f'. vsimp. unfold upd_fn. case_decide; subst; [by eexists _, _|].
      exists (f_maps (frs s1 f')), (mapped_count (frs s1 f')). by destruct (frs s1 f').
    + intros x Hx. vsimp. by rewrite !upd_fn_other.
  - intros f'. vsimp. unfold upd_fn. case_decide; by subst.
Qed.

Lemma kept_trans m s1 s2 s3 : kept m s1 s2 → kept m s2 s3 → kept m s1 s3.
Proof.
  intros (A1 & A2 & A3 & A4 & A5 & A6 & A7 & A8 & A9) (B1 & B2 & B3 & B4 & B5 & B6 & B7 & B8 & B9).
  do 6 (split; [congruence|]). split; [|split].
  - intros v. destruct (A7 v) as [l El], (B7 v) as [l' El']. exists l'. by rewrite El', El.
  - intros f. destruct (A8 f) as (h & n & E), (B8 f) as (h' & n' & E'). exists h', n'. by rewrite E', E.
  - intros x Hx. destruct (A9 x Hx) as (? & ? & ? & ? & ?), (B9 x Hx) as (? & ? & ? & ? & ?). split_and!; congruence.
Qed.
Lemma only_kept m s s' : only_node m s s' → kept m s s'.
Proof.
  intros (A1 & A2 & A3 & A4 & A5 & A6 & A7 & A8 & A9). do 6 (split; [done|]). split; [done|]. split; [|done].
  intros f. exists (f_maps (frs s f)), (mapped_count (frs s f)). rewrite A2. by destruct (frs s f).
Qed.

Lemma dec_kept m f s : kept m s (mapped_dec f s).
Proof.
  unfold mapped_dec. do 6 (split; [done|]). split; [|split; [|done]].
  - intros v. exists (free_nodes (vss s v)). vsimp. by destruct (vss s v).
  - intros f'. vsimp. unfold upd_fn. case_decide; subst; [by eexists _, _|].
    exists (f_maps (frs s f')), (mapped_count (frs s f')). by destruct (frs s f').
Qed.

Definition counts_ok g s : Prop := ∀ f, mapped_count (frs s f) = Z.of_nat (length (lf g f)) ∧ Z.of_nat (length (lf g f)) < 2 ^ 32.

Lemma filter_out_length (l : list mnode) m : NoDup l → m ∈ l → S (length (filter (λ x, x ≠ m) l)) = length l.
Proof.
  intros Hn Hm. apply list_elem_of_split in Hm as (l1 & l2 & ->). apply NoDup_app in Hn as (N1 & N2 & N3%NoDup_cons).
  rewrite filter_app, filter_cons_False by (by intros ?). rewrite !length_app. simpl.
  rewrite (filter_other m l1), (filter_other m l2); [lia|apply N3|]. intros Hin. apply (N2 m Hin). by left.
Qed.

(** The tail of every unmap: the record leaves the frame's list and is free again. *)
Lemma retire_spec hd hd' g s s1 v f m :
  lists_ok hd g s → m ∈ lv g v → m_frame s m = Some f → counts_ok g s1 →
  relinked s s1 → (∀ v', v' ≠ v → hd' v' = hd v') →
  chain (m_next s1) (hd' v) (filter (λ x, x ≠ m) (lv g v)) → (∀ y, y ∉ lv g v → m_next s1 y = m_next s y) →
  returns (kvspace_node_free v m s1) (λ s2, let s' := mapped_dec f s2 in ∃ g', lv g' = lv (drop v f m g) ∧ lf g' = lf (drop v f m g) ∧
    lists_ok hd' g' s' ∧ counts_ok g' s' ∧ cs s' = cs s1 ∧ kept m s1 s').
Proof.
  intros Hl Hm Hf Hct HR Hh Hc Hnx. rewrite node_free_unfold. apply returns_bind.
  eapply returns_mono; [apply (detach_spec hd hd' g s s1 v f m); try done; destruct (Hct f); lia|].
  intros s2 (Hl2 & Hu2 & Ec2 & K2 & Hmc). cbn [returns].
  destruct (push_spec hd' (drop v f m g) s2 v m Hl2) as (Hl3 & K3 & Ec3); [by apply (drop_loose hd g s)|done|].
  exists (push v m (drop v f m g)). destruct (push_lists v m (drop v f m g)) as [-> Elf]. rewrite Elf. split; [done|]. split; [done|].
  pose proof (dec_kept m f (push_node v m s2)) as K4.
  assert (frs (push_node v m s2) = frs s2) as Ef by apply K3.
  split.
  { apply (lists_same hd' _ (push_node v m s2)); [|done]. unfold mapped_dec. repeat split; vsimp; try done.
    intros f'. unfold upd_fn. case_decide; by subst. }
  split.
  { intros f'. rewrite Elf. cbn [drop lf]. unfold mapped_dec. vsimp. unfold upd_fn.
    case_decide; subst; vsimp; rewrite Ef, Hmc; [|by apply Hct].
    destruct (Hct f) as [-> Hb]. assert (m ∈ lf g f) as Hin by (destruct (lo_vf _ _ _ Hl v m Hm) as (_ & f' & ? & ?); congruence).
    pose proof (filter_out_length (lf g f) m (chain_nodup _ _ _ (lo_f _ _ _ Hl f)) Hin). rewrite u32_id; [lia|split; lia]. }
  split; [rewrite <-Ec2, <-Ec3; done|].
  eapply kept_trans; [done|]. eapply kept_trans; [by apply only_kept|done].
Qed.
End lists.
