(* ===== verification/VspaceMap.v ===== *)
(** * Mapping a frame

    [vm_inv] relates the records to the page tables: a leaf of a space is present
    exactly where a record of the space covers it, and points at the frame of the
    record; each record that is not a boot record has its authority, a capability of
    the space to the frame. *)

From Stdlib Require Import ZArith Lia.
From stdpp Require Import base numbers list sets.
From S2P Require Import Prelude Rights Slist Pmm Paging PagingInv PagingSpec Vspace VspacePg VspaceInv.
Local Open Scope Z_scope.

(** ** Leaves up to absence *)

Definition leaf_eqv (o o' : option Z) : Prop := o = o' ∨ leaf_on o = false ∧ leaf_on o' = false.

#[global] Instance leaf_eqv_equiv : Equivalence leaf_eqv.
Proof.
  split; [by left|intros x y [->|[? ?]]; [by left|by right]|].
  intros x y z [->|[H1 H2]] [->|[H3 H4]]; [by left|by right..].
Qed.
#[global] Instance leaf_on_proper : Proper (leaf_eqv ==> eq) leaf_on.
Proof. intros x y [->|[-> ->]]; done. Qed.

(** Same tables, same leaves outside the user window, and inside up to absence. *)
Definition mem_eqv (R : Z → Prop) (m m' : memory) : Prop := same_tables R m m' ∧
  ∀ c va, R c → (uva va → leaf_eqv (leaf m c va) (leaf m' c va)) ∧ (¬ user va → leaf m' c va = leaf m c va).

Lemma mem_eqv_refl R m : mem_eqv R m m.
Proof. split; [done|]. intros c va _. by split. Qed.

Lemma mem_eqv_translate R m m' c va :
  paging_wf m R → paging_wf m' R → mem_eqv R m m' → R c → uva va ∨ ¬ user va → translate m' c va = translate m c va.
Proof.
  intros Hw Hw' [Ht Hl] Hc Hv. destruct (Hl c va Hc) as [H1 H2].
  destruct Hv as [Hv|Hv]; [|by apply (leaf_same_translate R); auto].
  destruct (H1 Hv) as [E|[O1 O2]]; [by apply (leaf_same_translate R)|]. pose proof (user_range va Hv) as Hu.
  rewrite (proj2 (translate_leaf_off m R c va Hw Hc Hu) O1). by apply (translate_leaf_off m' R).
Qed.

(** ** Frames and flags *)

Definition frame_ok (k : KFrame) : Prop :=
  0 < f_paddr k ∧ f_paddr k mod 4096 = 0 ∧ 0 ≤ f_size k ∧ f_paddr k + 4096 * pages_of k ≤ 2 ^ 52.

Lemma pages_pos k : frame_ok k → 1 ≤ pages_of k.
Proof.
  intros (_ & _ & Hs & _). unfold pages_of. rewrite Z.shiftr_div_pow2 by lia.
  pose proof (Z.div_pos (f_size k) (2 ^ 12) Hs ltac:(lia)). destruct (Z.eqb_spec (f_size k / 2 ^ 12) 0); lia.
Qed.

Lemma pa_id p : 0 ≤ p < 2 ^ 52 → p mod 4096 = 0 → pa p = p.
Proof.
  intros Hp Ha. unfold pa. change PAGE_PA_MASK with (Z.shiftl (Z.ones 40) 12).
  assert (p = Z.shiftl (p / 4096) 12) as -> by (rewrite Z.shiftl_mul_pow2 by lia; pose proof (Z.div_mod p 4096 ltac:(lia)); lia).
  rewrite <-Z.shiftl_land, Z.land_ones by lia. f_equal. apply Z.mod_small.
  split; [apply Z.div_pos; lia|]. apply Z.div_lt_upper_bound; lia.
Qed.

Lemma frame_page k i : frame_ok k → 0 ≤ i < pages_of k → pa (f_paddr k + 4096 * i) = f_paddr k + 4096 * i ∧ f_paddr k + 4096 * i ≠ 0.
Proof.
  intros (H1 & H2 & H3 & H4) Hi. split; [|lia]. apply pa_id; [lia|]. rewrite (Z.mul_comm 4096), Z.mod_add by lia. done.
Qed.

(** The flags a caller can ask for: writable, executable, uncached; not the first two
    together. *)
Definition map_flags_ok (x : Z) : bool :=
  (Z.shiftr x 3 =? 0) && negb (negb (Z.land x 1 =? 0) && negb (Z.land (Z.shiftr x 1) 1 =? 0)).
Definition writes (x : Z) : bool := negb (Z.land x 1 =? 0).
Definition user_flags (fl : Z) : Prop := ∃ x, 0 ≤ x ∧ map_flags_ok x = true ∧ fl = map_page_flags x.

Lemma map_flags_cases x : 0 ≤ x → map_flags_ok x = true → x ∈ [0; 1; 2; 4; 5; 6].
Proof.
  intros H0. unfold map_flags_ok. rewrite Z.shiftr_div_pow2 by lia. intros H.
  assert (x < 8). { destruct (Z.eqb_spec (x / 2 ^ 3) 0) as [E|]; [|done]. apply Z.div_small_iff in E; lia. }
  assert (x = 0 ∨ x = 1 ∨ x = 2 ∨ x = 3 ∨ x = 4 ∨ x = 5 ∨ x = 6 ∨ x = 7) as Hx by lia.
  destruct Hx as [->|[->|[->|[->|[->|[->|[->| ->]]]]]]]; set_solver.
Qed.

(** A user mapping is user-accessible and never both writable and executable. *)
Lemma user_flags_spec x : 0 ≤ x → map_flags_ok x = true →
  flags_only (map_page_flags x) ∧ has (map_page_flags x) PAGE_USER = true ∧ has (map_page_flags x) PAGE_WRITABLE = writes x ∧
  (has (map_page_flags x) PAGE_WRITABLE = true → has (map_page_flags x) PAGE_NX = true).
Proof.
  intros H0 Hx. apply map_flags_cases in Hx; [|done]. rewrite !elem_of_cons, elem_of_nil in Hx.
  destruct Hx as [->|[->|[->|[->|[->|[->|[]]]]]]]; (split; [reflexivity|]); vm_compute; auto.
Qed.

(** ** The invariant *)

Section inv.
Context {C : Type} `{VmCapsOk C} (R : Z → Prop).
Implicit Types (s : vm C) (v f : N) (m : mnode) (g : ghost) (A : N → Prop) (va : Z).

Definition memory_of s : memory := mem (pg s).
Definition npages s f : Z := pages_of (frs s f).
Definition covers s m va : Prop := uva va ∧ ∃ f, m_frame s m = Some f ∧ in_run (m_va s m) 0 (npages s f) va.
Definition root v s : Z := cr3 (vss s v).

Definition run_ok s f va : Prop :=
  frame_ok (frs s f) ∧ uva va ∧ va mod 4096 = 0 ∧ va + 4096 * npages s f ≤ 2 ^ 47.

Record pages_ok g s : Prop := PagesOk {
  po_wf   : paging_wf (memory_of s) R;
  po_root : ∀ v, root v s ≠ 0 → R (root v s);
  po_sep  : ∀ v v', root v s ≠ 0 → root v s = root v' s → v = v';
  po_run  : ∀ v m f, m ∈ lv g v → m_frame s m = Some f → root v s ≠ 0 ∧ run_ok s f (m_va s m);
  po_leaf : ∀ v m f, m ∈ lv g v → m_frame s m = Some f → ∃ fl, user_flags fl ∧ ∀ va, uva va → in_run (m_va s m) 0 (npages s f) va →
    leaf (memory_of s) (root v s) va = Some (entry (f_paddr (frs s f) + 4096 * (va / 4096 - m_va s m / 4096)) fl);
  po_only : ∀ v va, root v s ≠ 0 → uva va → leaf_on (leaf (memory_of s) (root v s) va) = true → ∃ m, m ∈ lv g v ∧ covers s m va;
  po_disj : ∀ v m m' va, m ∈ lv g v → m' ∈ lv g v → covers s m va → covers s m' va → m = m';
}.

(** What [pages_ok] depends on. *)
Definition same_maps g s s' : Prop :=
  (∀ v, root v s' = root v s) ∧ (∀ f, f_paddr (frs s' f) = f_paddr (frs s f) ∧ f_size (frs s' f) = f_size (frs s f)) ∧
  (∀ v m, m ∈ lv g v → m_frame s' m = m_frame s m ∧ m_va s' m = m_va s m).

Lemma same_npages g s s' f : same_maps g s s' → npages s' f = npages s f ∧ (frame_ok (frs s' f) ↔ frame_ok (frs s f)).
Proof.
  intros (_ & E & _). destruct (E f) as [E1 E2]. unfold npages, frame_ok, pages_of. by rewrite E1, E2.
Qed.

Lemma covers_same g s s' v m va : same_maps g s s' → m ∈ lv g v → covers s' m va ↔ covers s m va.
Proof.
  intros Hs Hm. pose proof Hs as (_ & _ & E). destruct (E v m Hm) as [E1 E2]. unfold covers. rewrite E1, E2.
  split; intros [Hu (f & Hf & Hr)]; (split; [done|]); exists f; (split; [done|]);
    [rewrite <-(proj1 (same_npages g s s' f Hs))|rewrite (proj1 (same_npages g s s' f Hs))]; done.
Qed.

Lemma pages_same g g' s s' :
  pages_ok g s → lv g' = lv g → same_maps g s s' → paging_wf (memory_of s') R → mem_eqv R (memory_of s) (memory_of s') →
  pages_ok g' s'.
Proof.
  intros [] Eg Hs Hw [Ht Hle]. pose proof Hs as (E1 & E2 & E3).
  assert (∀ v va, root v s ≠ 0 → uva va → leaf_eqv (leaf (memory_of s) (root v s) va) (leaf (memory_of s') (root v s) va)) as Hl.
  { intros v va Hv Hu. by apply (Hle (root v s) va (po_root0 v Hv)). }
  split; rewrite ?Eg; try done; try (intros v; rewrite ?E1; by auto).
  - intros v v'. rewrite !E1. apply po_sep0.
  - intros v m f Hm. destruct (E3 v m Hm) as [-> ->]. rewrite E1. unfold run_ok. destruct (same_npages g s s' f Hs) as [-> ->]. by apply po_run0.
  - intros v m f Hm. destruct (E3 v m Hm) as [-> ->]. intros Hf. destruct (po_run0 v m f Hm Hf) as [Hr _].
    destruct (po_leaf0 v m f Hm Hf) as (fl & Hfl & Hall). exists fl. split; [done|]. intros va Hu.
    rewrite E1, (proj1 (same_npages g s s' f Hs)), (proj1 (E2 f)). intros Hin.
    destruct (Hl v va Hr Hu) as [<-|[Ho _]]; [by apply Hall|]. rewrite (Hall va Hu Hin) in Ho. simpl in Ho.
    by rewrite entry_present in Ho.
  - intros v va. rewrite E1. intros Hr Hu. rewrite <-(Hl v va Hr Hu). intros Ho.
    destruct (po_only0 v va Hr Hu Ho) as (m & Hm & Hc). exists m. split; [done|]. by apply (covers_same g s s' v).
  - intros v m m' va Hm Hm'. rewrite (covers_same g s s' v m), (covers_same g s s' v m') by done. by apply (po_disj0 v).
Qed.

(** The references on a frame: [x f] held elsewhere in the kernel, and one a record. *)
Definition refs (x : N → Z) g : N → Z := λ f, x f + Z.of_nat (length (lf g f)).

Record vm_inv A (x : N → Z) g s : Prop := VmInv {
  vi_lists  : lists_ok (λ v, mappings (vss s v)) g s;
  vi_fcount : counts_ok g s;
  vi_vcount : ∀ v, mapping_count (vss s v) = Z.of_nat (length (lv g v)) ∧ Z.of_nat (length (lv g v)) < 2 ^ 32;
  vi_caps   : caps_ok (refs x g) (cs s);
  vi_pages  : pages_ok g s;
  vi_usable : ∀ v, lv g v ≠ [] → usable v s = true;
  vi_auth   : ∀ v m f, m ∈ lv g v → m_frame s m = Some f → A f → m_boot s m = true ∨ map_cap_has v f (cs s) = true;
  vi_epoch  : 0 ≤ fin_epoch s ∧ ∀ v m, m ∈ lv g v → m_epoch s m ≤ fin_epoch s;
}.
(** ** A new record on the pages *)

Lemma page_not_covered g s v va : pages_ok g s → root v s ≠ 0 → uva va →
  leaf_on (leaf (memory_of s) (root v s) va) = false → ∀ m, m ∈ lv g v → ¬ covers s m va.
Proof.
  intros [] Hr Hu Ho m Hm [_ (f & Hf & Hin)]. destruct (po_leaf0 v m f Hm Hf) as (fl & _ & Hall).
  rewrite (Hall va Hu Hin) in Ho. simpl in Ho. by rewrite entry_present in Ho.
Qed.

Lemma leaf_page (mm : memory) c va va' : uva va → uva va' → va / 4096 = va' / 4096 → leaf mm c va = leaf mm c va'.
Proof. intros H1 H2 E. unfold leaf. apply ent_pre; [lia|]. by rewrite !pre4 by done. Qed.

Lemma u64_frame k i : frame_ok k → 0 ≤ i < pages_of k → u64 (f_paddr k + 4096 * i) = f_paddr k + 4096 * i.
Proof. intros (H1 & _ & _ & H2) Hi. apply u64_id. lia. Qed.

Lemma pages_link g g' s s' v f m va fl :
  pages_ok g s → (∀ v, m ∉ lv g v) → root v s ≠ 0 → run_ok s f va → user_flags fl →
  (∀ va', uva va' → in_run va 0 (npages s f) va' → leaf_on (leaf (memory_of s) (root v s) va') = false) →
  same_maps g s s' → lv g' = upd_fn (lv g) v (m :: lv g v) → m_frame s' m = Some f → m_va s' m = va →
  paging_wf (memory_of s') R → run_mapped R (root v s) va 0 (npages s f) (f_paddr (frs s f)) fl (memory_of s) (memory_of s') →
  pages_ok g' s'.
Proof.
  intros HP Hm Hr Hrun Hfl Hclear Hs Eg Em Eva Hw Hmap. pose proof HP as []. pose proof Hs as (E1 & E2 & E3).
  assert (∀ f', npages s' f' = npages s f') as En by (intros f'; apply (same_npages g s s' f' Hs)).
  assert (∀ v' va', root v' s ≠ 0 → uva va' → leaf (memory_of s') (root v' s) va' =
    if decide (v' = v ∧ in_run va 0 (npages s f) va')
    then Some (entry (f_paddr (frs s f) + 4096 * (va' / 4096 - va / 4096)) fl) else leaf (memory_of s) (root v' s) va') as Hl.
  { intros v' va' Hr' Hu'. rewrite Hmap by (auto || by left). destruct (decide (v' = v ∧ in_run va 0 (npages s f) va')) as [[-> Hin]|Hn].
    - rewrite decide_True by done. rewrite u64_frame; [done|apply Hrun|]. unfold in_run, npages in *. lia.
    - rewrite decide_False; [done|]. intros (Ec & _ & Hin). apply Hn. split; [|done]. by apply po_sep0. }
  assert (∀ v' x, x ∈ lv g' v' → x ≠ m → x ∈ lv g v') as Hin by (intros v' x Hx Hne; rewrite Eg in Hx; by apply upd_cons_in in Hx).
  assert (∀ v', m ∈ lv g' v' → v' = v) as Hat by (intros v' Hx; rewrite Eg in Hx; by apply upd_cons_at in Hx).
  assert (∀ va', covers s' m va' ↔ uva va' ∧ in_run va 0 (npages s f) va') as Hcm.
  { intros va'. unfold covers. rewrite Em, Eva. split; [intros [? (f' & [= ->] & ?)]; by rewrite En in *|].
    intros [? ?]. split; [done|]. exists f. by rewrite En. }
  split; [done|by intros v'; rewrite E1; auto|by intros v' v''; rewrite !E1; auto| | | |].
  - intros v' x f' Hx. rewrite E1. destruct (decide (x = m)) as [->|Hne].
    + apply Hat in Hx as ->. rewrite Em, Eva. intros [= <-]. split; [done|]. unfold run_ok. rewrite En.
      by rewrite (proj2 (same_npages g s s' f Hs)).
    + apply Hin in Hx; [|done]. destruct (E3 v' x Hx) as [-> ->]. unfold run_ok. rewrite En, (proj2 (same_npages g s s' f' Hs)).
      by apply po_run0.
  - intros v' x f' Hx. rewrite E1, En, (proj1 (E2 f')). destruct (decide (x = m)) as [->|Hne].
    + apply Hat in Hx as ->. rewrite Em, Eva. intros [= <-]. exists fl. split; [done|]. intros va' Hu' Hi'.
      rewrite Hl by done. by rewrite decide_True.
    + apply Hin in Hx; [|done]. destruct (E3 v' x Hx) as [-> ->]. intros Hf. destruct (po_leaf0 v' x f' Hx Hf) as (fl' & Hfl' & Hall).
      exists fl'. split; [done|]. intros va' Hu' Hi'. rewrite Hl; [|by apply (po_run0 v' x f')|done].
      rewrite decide_False; [by apply Hall|]. intros [-> Hi]. specialize (Hclear va' Hu' Hi).
      rewrite (Hall va' Hu' Hi') in Hclear. simpl in Hclear. by rewrite entry_present in Hclear.
  - intros v' va'. rewrite E1. intros Hr' Hu'. rewrite Hl by done. case_decide as Hd.
    + destruct Hd as [-> Hi]. intros _. exists m. split; [rewrite Eg, upd_fn_same; left|]. by apply Hcm.
    + intros Ho. destruct (po_only0 v' va' Hr' Hu' Ho) as (x & Hx & Hc). exists x.
      split; [rewrite Eg; by apply upd_cons_sub|]. by apply (covers_same g s s' v').
  - assert (∀ v' x va', x ∈ lv g' v' → x ≠ m → covers s' x va' → covers s' m va' → v' = v → False) as Hx.
    { intros v' x va' Hx Hne Hc [Hu Hi]%Hcm ->. apply Hin in Hx; [|done]. apply (covers_same g s s' v) in Hc; [|done..].
      by apply (page_not_covered g s v va') in Hc; auto. }
    intros v' x y va' H1 H2 Hc1 Hc2. destruct (decide (x = m)) as [->|Hn1], (decide (y = m)) as [->|Hn2]; [done| | |].
    + exfalso. by apply (Hx v' y va'), Hat.
    + exfalso. by apply (Hx v' x va'), Hat.
    + apply Hin in H1, H2; [|done..]. apply (covers_same g s s' v') in Hc1, Hc2; [|done..]. by apply (po_disj0 v' x y va').
Qed.
(** ** The pages a map finds free *)

Lemma user_no_large (mm : memory) c va : paging_wf mm R → R c → user va → no_large mm c va.
Proof. intros Hw Hc Hu d e Hd He Hp. by destruct (wf_open _ _ Hw c d va e Hc ltac:(lia) Hu He Hp). Qed.

(** In the user window, 0 from the kernel's walk means unmapped. *)
Lemma virt_zero g s v va : pages_ok g s → root v s ≠ 0 → uva va →
  paging_virt_to_phys_in (memory_of s) (root v s) va = 0 ↔ leaf_on (leaf (memory_of s) (root v s) va) = false.
Proof.
  intros [] Hr Hu. pose proof (user_range va Hu) as Hus. pose proof (po_root0 v Hr) as HR.
  destruct (walk_correct (memory_of s) (root v s) va Hr) as [-> _]; [by apply user_no_large|].
  destruct (leaf_on (leaf (memory_of s) (root v s) va)) eqn:Ho.
  - destruct (po_only0 v va Hr Hu Ho) as (m & Hm & _ & f & Hf & Hi). destruct (po_leaf0 v m f Hm Hf) as (fl & (x & Hx0 & Hx & ->) & Hall).
    destruct (po_run0 v m f Hm Hf) as (_ & Hfo & _). unfold leaf in Hall.
    rewrite (translate_leaf _ R _ _ _ po_wf0 HR Hus (Hall va Hu Hi) (entry_present _ _)), leaf_3, entry_pa by (by apply user_flags_spec).
    destruct (frame_page (frs s f) (va / 4096 - m_va s m / 4096) Hfo) as [-> Hne]; [unfold in_run, npages in Hi; lia|].
    split; [|done]. intros [? _]%Z.lor_eq_0_iff. done.
  - rewrite (proj2 (translate_leaf_off _ R _ _ po_wf0 HR Hus) Ho). done.
Qed.

Lemma run_at va n va' : uva va → uva va' → va mod 4096 = 0 → in_run va 0 n va' →
  let j := va' / 4096 - va / 4096 in 0 ≤ j < n ∧ va + 4096 * j ≤ va' ∧ (va + 4096 * j) / 4096 = va' / 4096.
Proof.
  intros Hu Hu' Ha Hi j. unfold in_run in Hi. subst j. pose proof (Z.div_mod va 4096 ltac:(lia)). pose proof (Z.div_mod va' 4096 ltac:(lia)).
  pose proof (Z.mod_pos_bound va' 4096 ltac:(lia)). split; [lia|]. split; [lia|].
  rewrite (Z.mul_comm 4096), Z.div_add by lia. lia.
Qed.

Lemma clear_run g s v f va : pages_ok g s → root v s ≠ 0 → frame_ok (frs s f) → 0 ≤ va → kframe_va_valid va = true →
  pages_clear (Z.to_nat (npages s f)) 0 (root v s) va (memory_of s) = true →
  run_ok s f va ∧ ∀ va', uva va' → in_run va 0 (npages s f) va' → leaf_on (leaf (memory_of s) (root v s) va') = false.
Proof.
  intros HP Hr Hf Hv0 Hva Hc. destruct (va_valid_spec va Hv0 Hva) as [Ha Hu]. pose proof (pages_pos _ Hf) as Hn.
  destruct (pages_clear_spec (root v s) va (memory_of s) (Z.to_nat (npages s f)) 0) as [Hb Hz]; [done|done|lia| |done|].
  { unfold uva, USER_SPACE_TOP in Hu. lia. }
  unfold npages in *. rewrite Z.add_0_l, Z2Nat.id in Hb, Hz by lia. split; [by split|].
  intros va' Hu' Hi. destruct (run_at va _ va' Hu Hu' Ha Hi) as (Hj & Hle & Hd).
  assert (uva (va + 4096 * (va' / 4096 - va / 4096))) as Huj by (unfold uva in *; lia).
  rewrite <-(leaf_page _ _ _ va' Huj Hu' Hd). apply (virt_zero g); [done..|]. by apply Hz.
Qed.

(** A page that is not free. *)
Lemma not_clear_run g s v f va : pages_ok g s → root v s ≠ 0 → frame_ok (frs s f) → run_ok s f va →
  pages_clear (Z.to_nat (npages s f)) 0 (root v s) va (memory_of s) = false →
  ∃ va', uva va' ∧ in_run va 0 (npages s f) va' ∧ leaf_on (leaf (memory_of s) (root v s) va') = true.
Proof.
  intros HP Hr Hf (_ & Hu & Ha & Hb) Hc. pose proof (pages_pos _ Hf) as Hn. unfold npages in *.
  assert (∀ n i, 0 ≤ i → i + Z.of_nat n = pages_of (frs s f) → pages_clear n i (root v s) va (memory_of s) = false →
    ∃ j, 0 ≤ j < pages_of (frs s f) ∧ paging_virt_to_phys_in (memory_of s) (root v s) (va + 4096 * j) ≠ 0) as Hex.
  { induction n as [|n IH]; [done|]. intros i Hi He. cbn [pages_clear].
    destruct (run_page va Hu i Hi) as (-> & Hui & _ & _); [lia|].
    assert (kframe_va_valid (va + 4096 * i) = true) as ->.
    { unfold kframe_va_valid. change 0xFFF with (Z.ones 12). rewrite Z.land_ones by lia. change (2 ^ 12) with 4096.
      rewrite (Z.mul_comm 4096), Z.mod_add, Ha by lia. cbn [Z.eqb negb]. unfold uva, USER_PRIVATE_BASE, USER_SPACE_TOP in *.
      rewrite (proj2 (Z.ltb_ge _ _)), (proj2 (Z.leb_gt _ _)) by lia. apply Z.eqb_eq. rewrite Z.shiftr_div_pow2 by lia. apply Z.div_small. lia. }
    cbn [negb orb]. destruct (Z.eqb_spec (paging_virt_to_phys_in (memory_of s) (root v s) (va + 4096 * i)) 0) as [E|E]; cbn [negb].
    - apply IH; lia.
    - intros _. exists i. split; [lia|done]. }
  destruct (Hex (Z.to_nat (pages_of (frs s f))) 0) as (j & Hj & Hne); [lia|lia|done|].
  destruct (run_page va Hu j) as (_ & Huj & _ & _); [lia|lia|]. exists (va + 4096 * j). split; [done|].
  split; [unfold in_run; rewrite (Z.mul_comm 4096), Z.div_add by lia; lia|].
  destruct (leaf_on _) eqn:E; [done|]. apply (virt_zero g) in E; done.
Qed.
End inv.
