(* ===== verification/VspaceOps.v ===== *)
(** * What map does

    [map_spec]: [kframe_map_page_from] either adds one record and the pages of the
    frame, or leaves every record, every translation and every capability as it
    was. *)

From Stdlib Require Import ZArith Lia.
From stdpp Require Import base numbers list sets.
From S2P Require Import Prelude Rights Slist Pmm Paging PagingInv PagingSpec Vspace VspacePg VspaceInv VspaceMap.
Local Open Scope Z_scope.

Section ops.
Context {C : Type} `{VmCapsOk C} (R : Z → Prop).
Implicit Types (s : vm C) (v f : N) (m : mnode) (g : ghost) (A : N → Prop) (va : Z) (x : N → Z).

(** The spaces, the frames and the records of [g] are as they were. *)
Definition still g s s' : Prop :=
  (∀ v, cr3 (vss s' v) = cr3 (vss s v) ∧ valid (vss s' v) = valid (vss s v) ∧ mapping_count (vss s' v) = mapping_count (vss s v) ∧
        mappings (vss s' v) = mappings (vss s v) ∧ pt_pool (vss s' v) = pt_pool (vss s v) ∧ tables (vss s' v) = tables (vss s v)) ∧
  (∀ f, f_paddr (frs s' f) = f_paddr (frs s f) ∧ f_size (frs s' f) = f_size (frs s f) ∧ mapped_count (frs s' f) = mapped_count (frs s f)) ∧
  (∀ v m, m ∈ lv g v → m_frame s' m = m_frame s m ∧ m_va s' m = m_va s m ∧ m_boot s' m = m_boot s m ∧ m_epoch s' m = m_epoch s m) ∧
  fin_epoch s' = fin_epoch s.

Lemma still_refl g s : still g s s.
Proof. done. Qed.
Lemma still_trans g s1 s2 s3 : still g s1 s2 → still g s2 s3 → still g s1 s3.
Proof.
  intros (A1 & A2 & A3 & A4) (B1 & B2 & B3 & B4). split; [|split; [|split; [|congruence]]].
  - intros v. destruct (A1 v) as (? & ? & ? & ? & ? & ?), (B1 v) as (? & ? & ? & ? & ? & ?). split_and!; congruence.
  - intros f. destruct (A2 f) as (? & ? & ?), (B2 f) as (? & ? & ?). split_and!; congruence.
  - intros v m Hm. destruct (A3 v m Hm) as (? & ? & ? & ?), (B3 v m Hm) as (? & ? & ? & ?). split_and!; congruence.
Qed.

Lemma only_still g s s' m : only_node m s s' → (∀ v, m ∉ lv g v) → still g s s'.
Proof.
  intros (_ & E1 & _ & _ & _ & _ & E4 & E2 & E3) Hm. split; [|split; [|split; [|done]]].
  - intros v. destruct (E2 v) as [l ->]. done.
  - intros f. by rewrite E1.
  - intros v x Hx. assert (x ≠ m) as Hne by (intros ->; by apply (Hm v)). by destruct (E3 x Hne) as (? & ? & ? & ? & ?).
Qed.

Lemma still_maps g s s' : still g s s' → same_maps g s s'.
Proof.
  intros (E1 & E2 & E3 & _). split; [intros v; apply E1|]. split; [intros f; by destruct (E2 f) as (? & ? & ?)|].
  intros v m Hm. by destruct (E3 v m Hm) as (? & ? & ? & ?).
Qed.

Lemma still_usable g s s' v : still g s s' → usable v s' = usable v s.
Proof. intros (E & _). unfold usable. destruct (E v) as (-> & -> & _). done. Qed.

Lemma lists_hd hd hd' g s : (∀ v, hd v = hd' v) → lists_ok hd g s → lists_ok hd' g s.
Proof. intros E []. split; try done. intros v. by rewrite <-E. Qed.

Definition has_same (c c' : C) : Prop := ∀ v o, map_cap_has v o c' = map_cap_has v o c.

Lemma inv_step A x g g' s s' :
  vm_inv R A x g s → lists_ok (λ v, mappings (vss s v)) g' s' → lv g' = lv g → lf g' = lf g → still g s s' →
  caps_ok (refs x g) (cs s') → has_same (cs s) (cs s') → paging_wf (memory_of s') R → mem_eqv R (memory_of s) (memory_of s') →
  vm_inv R A x g' s'.
Proof.
  intros [] Hl Ev Ef Hs Hc Hh Hw Hm. pose proof Hs as (E1 & E2 & E3 & E4). split.
  - eapply lists_hd; [|done]. intros v. by destruct (E1 v) as (_ & _ & _ & -> & _).
  - intros f. rewrite Ef. destruct (E2 f) as (_ & _ & ->). apply vi_fcount.
  - intros v. rewrite Ev. destruct (E1 v) as (_ & _ & -> & _). apply vi_vcount.
  - eapply caps_ok_ext; [|done]. intros o. unfold refs. by rewrite Ef.
  - apply (pages_same R g g' s s'); try done. by apply still_maps.
  - intros v. rewrite Ev, (still_usable g s s') by done. apply vi_usable.
  - intros v m f. rewrite Ev. intros Hm'. destruct (E3 v m Hm') as (-> & _ & -> & _). rewrite Hh. by apply vi_auth.
  - rewrite Ev, E4. split; [apply vi_epoch|]. intros v m Hm'. destruct (E3 v m Hm') as (_ & _ & _ & ->). by apply (proj2 vi_epoch v).
Qed.

(** Nothing happened that a holder can see. *)
Definition unchanged A x g s s' : Prop := ∃ g', vm_inv R A x g' s' ∧ lv g' = lv g ∧ lf g' = lf g ∧ still g s s' ∧
  mem_eqv R (memory_of s) (memory_of s') ∧ has_same (cs s) (cs s').

Lemma free_back A x g g1 s s2 v m :
  vm_inv R A x g s → lists_ok (λ v, mappings (vss s v)) g1 s2 → lv g1 = lv g → lf g1 = lf g → loose g1 m → node_used m s2 →
  m_frame s2 m = None → still g s s2 → caps_ok (refs x g) (cs s2) → has_same (cs s) (cs s2) → paging_wf (memory_of s2) R →
  mem_eqv R (memory_of s) (memory_of s2) → returns (kvspace_node_free v m s2) (unchanged A x g s).
Proof.
  intros Hi Hl Ev Ef Hlo Hu Hm Hs Hc Hh Hw He.
  eapply returns_mono; [by apply (node_free_loose (λ v, mappings (vss s v)) g1)|]. intros s' (Hl' & Ho & Ec).
  destruct (push_lists v m g1) as [P1 P2].
  assert (still g s s') as Hs'.
  { eapply still_trans; [done|]. apply (only_still g s2 s' m Ho). rewrite <-Ev. apply Hlo. }
  assert (pg s' = pg s2) as Ep by apply Ho. unfold memory_of in *. rewrite <-Ep in Hw, He.
  exists (push v m g1). rewrite P1, P2. split; [apply (inv_step A x g _ s s'); try done; rewrite ?P1, ?P2, ?Ec; done|].
  do 4 (split; [done|]). by rewrite Ec.
Qed.

(** ** Unwinding *)

Lemma run_uva va n va' : uva va → va + 4096 * n ≤ 2 ^ 47 → va mod 4096 = 0 → in_run va 0 n va' → 0 ≤ va' < 2 ^ 47 → uva va'.
Proof.
  unfold uva, USER_PRIVATE_BASE, USER_SPACE_TOP, in_run. intros Hu Hb Ha Hi Hv.
  pose proof (Z.div_mod va 4096 ltac:(lia)). pose proof (Z.div_mod va' 4096 ltac:(lia)). pose proof (Z.mod_pos_bound va' 4096 ltac:(lia)). lia.
Qed.

(** Pages mapped where there were none, and unmapped again. *)
Lemma unwind c va n k paddr fl p mm :
  paging_wf (mem p) R → R c → uva va → va mod 4096 = 0 → 0 ≤ k ≤ n → va + 4096 * n ≤ 2 ^ 47 →
  (∀ va', uva va' → in_run va 0 n va' → leaf_on (leaf (mem p) c va') = false) →
  paging_wf mm R → same_tables R (mem p) mm → run_mapped R c va 0 k paddr fl (mem p) mm →
  let p' := unmap_pages k c va (with_mem mm p) in paging_wf (mem p') R ∧ mem_eqv R (mem p) (mem p').
Proof.
  intros Hw Hc Hu Ha Hk Hb Hclear Hwm Hst Hrun.
  destruct (unmap_pages_spec R c va Hc Hu k (with_mem mm p)) as (Hw' & Hst' & _ & _ & Hoff & Hsame); [done|lia|lia|].
  cbv zeta. cbn [mem with_mem] in *. split; [done|]. split; [by etrans|]. intros c' va' Hc'. split.
  - intros Hu'. destruct (decide (c' = c ∧ uva va' ∧ in_run va 0 k va')) as [(-> & _ & Hin)|Hn].
    + right. split; [apply Hclear; [done|unfold in_run in *; lia]|by apply Hoff].
    + left. rewrite Hsame by (done || by left). rewrite Hrun by (done || by left). by rewrite decide_False.
  - intros Hnu. assert (¬ (c' = c ∧ uva va' ∧ in_run va 0 k va')) as Hn by (intros (_ & Hx & _); by apply Hnu, user_range).
    rewrite Hsame by (done || by right). rewrite Hrun by (done || by right). by rewrite decide_False.
Qed.

(** ** The space's capability *)

Lemma map_authority_spec x g s f v src :
  caps_ok (refs x g) (cs s) → obj_room 3 f (cs s) → src_names src f (cs s) → (∀ p, pt_pool (vss s v) = Some p → pool_ok p (cs s)) →
  returns (map_authority f v src s) (λ '(a, s'), ∃ c', s' = with_cs c' s ∧ caps_ok (refs x g) c' ∧
    (∀ a, rec_used a (cs s) → rec_used a c') ∧
    match a with
    | inl e => e ≠ IRIS_OK ∧ has_same (cs s) c' ∧ pt_pool (vss s v) ≠ None ∧ map_cap_has v f (cs s) = false
    | inr b => b = bool_decide (pt_pool (vss s v) = None) ∧ obj_room 1 f c' ∧ (b = true ∨ map_cap_has v f c' = true) ∧
        ∀ v' o', map_cap_has v' o' (cs s) = true → map_cap_has v' o' c' = true
    end).
Proof.
  intros Hc Hr Hsrc Hp. assert (obj_room 1 f (cs s)) as Hr1 by (by apply (obj_room_le 1 3); [lia|]).
  assert (s = with_cs (cs s) s) as Es by (by destruct s).
  unfold map_authority. destruct (pt_pool (vss s v)) as [pool|].
  - destruct (map_cap_has v f (cs s)) eqn:Hh.
    + exists (cs s). split; [done|]. split; [done|]. split; [done|]. split; [done|]. split; [done|]. split; [by right|done].
    + apply returns_bind. eapply returns_mono; [apply (caps_install_ok (refs x g)); [done|done|by apply (obj_room_le 2 3); [lia|]|done|done]|].
      intros [e c'] (H1 & H2 & H3 & H4). simpl. exists c'. split; [done|]. split; [done|]. split; [done|].
      case_bool_decide as He.
      * split; [done|]. split; [by apply H3|]. split; [right; by rewrite H2, decide_True|].
        intros v' o' Ht. rewrite H2. by case_decide.
      * split; [done|]. split; [|by split]. intros v' o'. rewrite H2. case_decide as Hd; [|done]. destruct Hd as [-> ->]. by rewrite Hh.
  - exists (cs s). split; [done|]. split; [done|]. split; [done|]. split; [done|]. split; [done|]. split; [by left|done].
Qed.
(** ** A record linked *)

(** The records of [g] and the frames are as they were. *)
Definition kept_maps g s s' : Prop := same_maps g s s' ∧ (∀ v m, m ∈ lv g v → m_boot s' m = m_boot s m) ∧
  (∀ v, valid (vss s' v) = valid (vss s v) ∧ pt_pool (vss s' v) = pt_pool (vss s v) ∧ tables (vss s' v) = tables (vss s v)).

Lemma still_kept g s s' : still g s s' → kept_maps g s s'.
Proof.
  intros Hs. pose proof Hs as (E1 & E2 & E3 & E4). split; [by apply still_maps|]. split.
  - intros v m Hm. by destruct (E3 v m Hm) as (? & ? & ? & ?).
  - intros v. by destruct (E1 v) as (? & ? & ? & ? & ? & ?).
Qed.

Lemma link_kept g s s2 v f m va b : still g s s2 → (∀ v, m ∉ lv g v) → kept_maps g s (link_mapping f v m va b s2).
Proof.
  intros (E1 & E2 & E3 & _) Hm. unfold link_mapping. split; [split; [|split]|split].
  - intros v'. unfold root. cbn. unfold upd_fn. case_decide; subst; cbn; apply E1.
  - intros f'. cbn. unfold upd_fn. case_decide; subst; cbn; by destruct (E2 f') as (? & ? & ?) || destruct (E2 f) as (? & ? & ?).
  - intros v' x Hx. assert (x ≠ m) by (intros ->; by apply (Hm v')). cbn. rewrite !upd_fn_other by done.
    by destruct (E3 v' x Hx) as (? & ? & ? & ?).
  - intros v' x Hx. assert (x ≠ m) by (intros ->; by apply (Hm v')). cbn. rewrite !upd_fn_other by done.
    by destruct (E3 v' x Hx) as (? & ? & ? & ?).
  - intros v'. cbn. unfold upd_fn. case_decide; subst; cbn; by destruct (E1 v') as (? & ? & ? & ? & ? & ?) || destruct (E1 v) as (? & ? & ? & ? & ? & ?).
Qed.

Definition refs_inc x g f : N → Z := λ o, if decide (o = f) then refs x g o + 1 else refs x g o.

Lemma link_inv A x g g1 s s2 v f m va b fl :
  vm_inv R A x g s → lists_ok (λ v, mappings (vss s v)) g1 s2 → lv g1 = lv g → lf g1 = lf g → loose g1 m → node_used m s2 →
  still g s s2 → m_epoch s2 m = 0 → caps_ok (refs_inc x g f) (cs s2) →
  (∀ v' o', map_cap_has v' o' (cs s) = true → map_cap_has v' o' (cs s2) = true) → b = true ∨ map_cap_has v f (cs s2) = true →
  usable v s = true → Z.of_nat (length (lv g v)) + 1 < 2 ^ 32 → Z.of_nat (length (lf g f)) + 1 < 2 ^ 32 →
  run_ok s f va → user_flags fl →
  (∀ va', uva va' → in_run va 0 (npages s f) va' → leaf_on (leaf (memory_of s) (root v s) va') = false) →
  paging_wf (memory_of s2) R → run_mapped R (root v s) va 0 (npages s f) (f_paddr (frs s f)) fl (memory_of s) (memory_of s2) →
  vm_inv R A x (link v f m g1) (link_mapping f v m va b s2).
Proof.
  intros Hi Hl Ev Ef Hlo Hu Hs Hep Hc Hh Hb Hus Hn1 Hn2 Hrun Hfl Hclear Hw Hmap. pose proof Hi as []. pose proof Hs as (E1 & E2 & E3 & E4).
  assert (∀ v, m ∉ lv g v) as Hm by (rewrite <-Ev; apply Hlo).
  pose proof (link_kept g s s2 v f m va b Hs Hm) as (Hsm & Hbt & Hva).
  assert (lists_ok (λ v, mappings (vss s2 v)) g1 s2) as Hl2 by (eapply lists_hd; [|done]; intros v'; symmetry; apply E1).
  split.
  - by apply link_lists.
  - intros f'. destruct (E2 f') as (_ & _ & E), (vi_fcount f') as [Ec ?]. cbn. unfold upd_fn. case_decide; subst; cbn; rewrite Ef, E, Ec; [|done].
    rewrite u32_id; [lia|split; lia].
  - intros v'. destruct (E1 v') as (_ & _ & E & _), (vi_vcount v') as [Ec ?]. cbn. unfold upd_fn. case_decide; subst; cbn; rewrite Ev, E, Ec; [|done].
    rewrite u32_id; [lia|split; lia].
  - eapply caps_ok_ext; [|done]. intros o. unfold refs_inc, refs. cbn. rewrite Ef. unfold upd_fn. case_decide; subst; cbn; lia.
  - apply (pages_link R g _ s _ v f m va fl); try done.
    + unfold usable in Hus. unfold root. destruct (Z.eqb_spec (cr3 (vss s v)) 0); [by rewrite andb_false_r in Hus|done].
    + cbn. by rewrite Ev.
    + cbn. by rewrite upd_fn_same.
    + cbn. by rewrite upd_fn_same.
  - intros v'. assert (usable v' (link_mapping f v m va b s2) = usable v' s) as ->.
    { unfold usable. destruct Hsm as (Er & _). specialize (Er v'). unfold root in Er. destruct (Hva v') as (-> & _). by rewrite Er. }
    cbn. rewrite Ev. unfold upd_fn. case_decide; subst; [done|]. apply vi_usable.
  - intros v' y f' Hx. destruct (decide (y = m)) as [->|Hne].
    + cbn in Hx. rewrite Ev in Hx. apply upd_cons_at in Hx as ->; [|done]. cbn. rewrite !upd_fn_same. intros [= ->] _. done.
    + cbn in Hx. rewrite Ev in Hx. apply upd_cons_in in Hx; [|done]. destruct Hsm as (_ & _ & E). destruct (E v' y Hx) as [-> _].
      rewrite (Hbt v' y Hx). intros Hf HA. destruct (vi_auth v' y f' Hx Hf HA) as [?|?]; [by left|right; by apply Hh].
  - cbn. rewrite E4, Ev. split; [apply vi_epoch|]. intros v' y Hy. destruct (decide (y = m)) as [->|Hne]; [rewrite Hep; apply vi_epoch|].
    apply upd_cons_in in Hy; [|done]. destruct (E3 v' y Hy) as (_ & _ & _ & ->). by apply (proj2 vi_epoch v').
Qed.
(** ** The operation *)

Definition map_args_ok va fl : Prop := kframe_va_valid va = true ∧ map_flags_ok fl = true.

(** The frame fits at [va] and no page there is mapped. *)
Definition free_run s v f va : Prop := run_ok s f va ∧
  ∀ va', uva va' → in_run va 0 (npages s f) va' → leaf_on (leaf (memory_of s) (root v s) va') = false.

Definition map_done A x g s v f va fl s' : Prop := ∃ g' m,
  vm_inv R A x g' s' ∧ lv g' = upd_fn (lv g) v (m :: lv g v) ∧ lf g' = upd_fn (lf g) f (m :: lf g f) ∧
  m_frame s' m = Some f ∧ m_va s' m = va ∧ m_boot s' m = bool_decide (pt_pool (vss s v) = None) ∧ kept_maps g s s' ∧
  same_tables R (memory_of s) (memory_of s') ∧
  run_mapped R (root v s) va 0 (npages s f) (f_paddr (frs s f)) (map_page_flags fl) (memory_of s) (memory_of s').

(** Why a map fails. *)
Inductive map_fails s v f va fl : iris_error_t → Prop :=
  | MfArgs : ¬ map_args_ok va fl → map_fails s v f va fl IRIS_ERR_INVALID_ARG
  | MfMemory : map_args_ok va fl → map_fails s v f va fl IRIS_ERR_NO_MEMORY
  | MfSpace : map_args_ok va fl → usable v s = false → map_fails s v f va fl IRIS_ERR_BAD_HANDLE
  | MfBusy : map_args_ok va fl → usable v s = true → ¬ free_run s v f va → map_fails s v f va fl IRIS_ERR_BUSY
  | MfTable k : map_args_ok va fl → usable v s = true → free_run s v f va → 0 ≤ k < npages s f →
      tab (memory_of s) (root v s) 3 (va + 4096 * k) = None → map_fails s v f va fl IRIS_ERR_MISSING_TABLE
  | MfCap e : map_args_ok va fl → usable v s = true → free_run s v f va → pt_pool (vss s v) ≠ None →
      map_cap_has v f (cs s) = false → e ≠ IRIS_OK → map_fails s v f va fl e.

Lemma map_fails_error s v f va fl e : map_fails s v f va fl e → e ≠ IRIS_OK.
Proof. by intros []. Qed.

Definition map_post A x g s v f va fl (r : iris_error_t * vm C) : Prop :=
  (r.1 = IRIS_OK ∧ map_args_ok va fl ∧ usable v s = true ∧ free_run s v f va ∧ map_done A x g s v f va fl r.2) ∨
  (map_fails s v f va fl r.1 ∧ unchanged A x g s r.2).

Lemma map_args_split va fl : 
  kframe_va_valid va = true → (Z.shiftr fl 3 =? 0) = true →
  negb (Z.land fl 1 =? 0) && negb (Z.land (Z.shiftr fl 1) 1 =? 0) = false → map_args_ok va fl.
Proof. intros H1 H2 H3. split; [done|]. unfold map_flags_ok. by rewrite H2, H3. Qed.

Lemma usable_root v s : usable v s = true → root v s ≠ 0.
Proof. unfold usable, root. destruct (Z.eqb_spec (cr3 (vss s v)) 0); [by rewrite andb_false_r|done]. Qed.

Lemma unchanged_refl A x g s : vm_inv R A x g s → unchanged A x g s s.
Proof. intros Hi. exists g. split; [done|]. do 2 (split; [done|]). split; [done|]. split; [apply mem_eqv_refl|done]. Qed.

(** What [kvspace_node_alloc] leaves for the locked section. *)
Record alloced x g g1 s s1 m : Prop := Alloced {
  al_lists : lists_ok (λ v, mappings (vss s v)) g1 s1;
  al_lv    : lv g1 = lv g;
  al_lf    : lf g1 = lf g;
  al_loose : loose g1 m;
  al_used  : node_used m s1;
  al_frame : m_frame s1 m = None;
  al_epoch : m_epoch s1 m = 0;
  al_still : still g s s1;
  al_caps  : caps_ok (refs x g) (cs s1);
  al_has   : has_same (cs s) (cs s1);
  al_mem   : pg s1 = pg s;
}.

(** The locked section gives up: the record goes back. *)
Lemma locked_fail A x g g1 s s1 v f m va fl e s2 :
  vm_inv R A x g s → alloced x g g1 s s1 m → map_fails s v f va fl e →
  (∃ c p, s2 = with_cs c (with_pg p s1) ∧ caps_ok (refs x g) c ∧ has_same (cs s) c ∧ (∀ a, rec_used a (cs s1) → rec_used a c) ∧
     paging_wf (mem p) R ∧ mem_eqv R (memory_of s) (mem p)) →
  returns (s' ← kvspace_node_free v m s2; Ret (e, s')) (map_post A x g s v f va fl).
Proof.
  intros Hi [] Hfail (c & p & -> & Hc & Hh & Hu & Hw & Hm). apply returns_bind.
  eapply returns_mono; [apply (free_back A x g g1 s _ v m); try done|].
  - apply (lists_same _ g1 s1); [|done]. by repeat split.
  - apply (used_mono s1); done.
  - intros s' Hs'. right. by split.
Qed.

(** It succeeds: the frame is retained and the record linked. *)
Lemma locked_link A x g g1 s s1 v f m va fl b c p :
  vm_inv R A x g s → alloced x g g1 s s1 m → map_args_ok va fl → 0 ≤ fl → usable v s = true → free_run s v f va →
  Z.of_nat (length (lv g v)) + 1 < 2 ^ 32 → Z.of_nat (length (lf g f)) + 1 < 2 ^ 32 →
  caps_ok (refs x g) c → obj_room 1 f c → (∀ a, rec_used a (cs s1) → rec_used a c) →
  b = bool_decide (pt_pool (vss s v) = None) → b = true ∨ map_cap_has v f c = true →
  (∀ v' o', map_cap_has v' o' (cs s) = true → map_cap_has v' o' c = true) →
  paging_wf (mem p) R → same_tables R (memory_of s) (mem p) →
  run_mapped R (root v s) va 0 (npages s f) (f_paddr (frs s f)) (map_page_flags fl) (memory_of s) (mem p) →
  returns (s' ← do_cs (obj_retain f) (with_cs c (with_pg p s1)); Ret (IRIS_OK, link_mapping f v m va b s')) (map_post A x g s v f va fl).
Proof.
  intros Hi [Xl Xv Xf Xlo Xu Xm Xe Xs Xc Xh Xp] Hargs Hf0 Hus Hfree Hn1 Hn2 Hc Hroom Hrec Hb Hbh Hh Hw Hst Hmap.
  apply returns_bind. unfold do_cs. apply returns_bind.
  eapply returns_mono; [by apply (caps_retain_ok (refs x g))|]. intros c' (Hc' & Hh' & Hrec'). cbn [returns cs with_cs].
  assert (∀ v, m ∉ lv g v) as Hm by (rewrite <-Xv; apply Xlo).
  assert (still g s (with_cs c' (with_pg p s1))) as Hs2 by exact Xs.
  left. split; [done|]. split; [done|]. split; [done|]. split; [done|].
  exists (link v f m g1), m. split.
  - apply (link_inv A x g g1 s _ v f m va b (map_page_flags fl)); try done.
    + apply (lists_same _ g1 s1); [|done]. repeat split; try done. cbn. auto.
    + apply (used_mono s1); cbn; auto.
    + intros v' o' Ht. cbn. rewrite Hh'. by apply Hh.
    + cbn. rewrite Hh'. done.
    + apply Hfree.
    + exists fl. split; [done|]. split; [apply Hargs|done].
    + apply Hfree.
  - cbn [link lv lf]. rewrite Xv, Xf. split; [done|]. split; [done|]. cbn. rewrite !upd_fn_same. split; [done|]. split; [done|].
    split; [done|]. split; [by apply (link_kept g s (with_cs c' (with_pg p s1)))|]. by split.
Qed.

Lemma map_locked_spec A x g g1 s s1 v f m va fl src :
  vm_inv R A x g s → alloced x g g1 s s1 m → frame_ok (frs s f) → 0 ≤ va → 0 ≤ fl → map_args_ok va fl → obj_room 3 f (cs s1) → src_names src f (cs s1) →
  (∀ p, pt_pool (vss s v) = Some p → pool_ok p (cs s1)) →
  Z.of_nat (length (lv g v)) + 1 < 2 ^ 32 → Z.of_nat (length (lf g f)) + 1 < 2 ^ 32 →
  returns (map_locked f v m va fl src s1) (map_post A x g s v f va fl).
Proof.
  intros Hi Hal Hf Hv0 Hf0 Hargs Hroom Hsrc Hpl Hn1 Hn2. pose proof Hal as [Xl Xv Xf Xlo Xu Xm Xe Xs Xc Xh Xp].
  pose proof Xs as (E1 & E2 & _ & _). destruct (E1 v) as (Er & _ & _ & _ & Epool & _), (E2 f) as (Epa & Esz & _).
  assert (pages_of (frs s1 f) = npages s f) as En by (unfold npages, pages_of; by rewrite Esz).
  assert (paging_wf (mem (pg s)) R) as Hw by apply Hi.
  assert (∃ c p, s1 = with_cs c (with_pg p s1) ∧ caps_ok (refs x g) c ∧ has_same (cs s) c ∧ (∀ a, rec_used a (cs s1) → rec_used a c) ∧
     paging_wf (mem p) R ∧ mem_eqv R (memory_of s) (mem p)) as Hself.
  { exists (cs s1), (pg s1). rewrite Xp. split; [rewrite <-Xp; by destruct s1|]. do 4 (split; [done|]). apply mem_eqv_refl. }
  unfold map_locked. cbv zeta. rewrite (still_usable g s s1 v Xs), En, Er, Epa, Xp. fold (root v s).
  destruct (usable v s) eqn:Hus; cbn [negb]; [|by apply (locked_fail A x g g1 s s1 v f m); [..|apply MfSpace|]].
  pose proof (usable_root v s Hus) as Hr. pose proof (po_root _ _ _ (vi_pages _ _ _ _ _ Hi) v Hr) as HR. fold (memory_of s).
  destruct (pages_clear (Z.to_nat (npages s f)) 0 (root v s) va (memory_of s)) eqn:Hcl; cbn [negb].
  2:{ apply (locked_fail A x g g1 s s1 v f m); [done|done|apply MfBusy; [done|done|]|done].
      intros [Hrun Hoff]. destruct (not_clear_run R g s v f va) as (va' & Hu & Hin & Hon); [apply Hi|done..|].
      by rewrite Hoff in Hon. }
  destruct (clear_run R g s v f va (vi_pages _ _ _ _ _ Hi) Hr Hf Hv0 (proj1 Hargs) Hcl) as [Hrun Hoff].
  pose proof Hrun as (_ & Hu & Ha & Hb). pose proof (pages_pos _ Hf) as Hpos. fold (npages s f) in Hpos.
  pose proof (map_pages_spec R (root v s) va HR Hu (f_paddr (frs s f)) (map_page_flags fl) (Z.to_nat (npages s f)) 0 (memory_of s) Hw) as Hmp.
  destruct (map_pages _ 0 (root v s) va (f_paddr (frs s f)) (map_page_flags fl) (memory_of s)) as [[r k] mm].
  destruct Hmp as (Hwm & Hst & Hk & Hr0 & Hr1 & Hrm); [lia|lia|]. rewrite Z.add_0_l, Z2Nat.id in Hk, Hr0, Hr1 by lia.
  destruct (unwind (root v s) va (npages s f) k (f_paddr (frs s f)) (map_page_flags fl) (pg s) mm) as [Hw' He']; [done..|].
  destruct (Z.eqb_spec r 0) as [E0|E0]; cbn [negb].
  2:{ destruct (Hr1 E0) as [Hkn Htab]. apply (locked_fail A x g g1 s s1 v f m); [done|done|by apply (MfTable _ _ _ _ _ k); try lia|].
      exists (cs s1), (unmap_pages k (root v s) va (with_mem mm (pg s))). done. }
  rewrite (Hr0 E0) in *. apply returns_bind.
  eapply returns_mono; [apply (map_authority_spec x g (with_pg (with_mem mm (pg s)) s1)); [done..|]; cbn; by rewrite Epool|].
  intros [a s2] (c' & -> & Hc' & Hrec & Ha'). cbn [cs with_pg vss with_cs] in *. destruct a as [e|b].
  - destruct Ha' as (He & Hh' & Hpool & Hno). rewrite Xh in Hno. rewrite Epool in Hpool.
    apply (locked_fail A x g g1 s s1 v f m); [done|done|by apply MfCap|].
    exists c', (unmap_pages (npages s f) (root v s) va (with_mem mm (pg s))). split; [done|]. split; [done|].
    split; [intros v' o'; by rewrite Hh', Xh|]. done.
  - destruct Ha' as (Hbe & Hr' & Hbh & Hh'). rewrite Epool in Hbe.
    apply (locked_link A x g g1 s s1 v f m va fl b c' (with_mem mm (pg s))); try done.
    intros v' o' Ht. apply Hh'. by rewrite Xh.
Qed.

Lemma map_spec A x g s v f va fl src :
  vm_inv R A x g s → frame_ok (frs s f) → 0 ≤ va → 0 ≤ fl → obj_room 3 f (cs s) → src_names src f (cs s) →
  (∀ p, pt_pool (vss s v) = Some p → pool_ok p (cs s)) →
  Z.of_nat (length (lv g v)) + 1 < 2 ^ 32 → Z.of_nat (length (lf g f)) + 1 < 2 ^ 32 →
  returns (kframe_map_page_from f v va fl src s) (map_post A x g s v f va fl).
Proof.
  intros Hi Hf Hv0 Hf0 Hroom Hsrc Hpl Hn1 Hn2. unfold kframe_map_page_from.
  destruct (kframe_va_valid va) eqn:Hva; cbn [negb].
  2:{ right. split; [|by apply unchanged_refl]. apply MfArgs. intros [? _]. congruence. }
  destruct (Z.shiftr fl 3 =? 0) eqn:Hfl; cbn [negb].
  2:{ right. split; [|by apply unchanged_refl]. apply MfArgs. unfold map_args_ok, map_flags_ok. rewrite Hfl. by intros [_ ?]. }
  destruct (negb (Z.land fl 1 =? 0) && negb (Z.land (Z.shiftr fl 1) 1 =? 0)) eqn:Hwx.
  { right. split; [|by apply unchanged_refl]. apply MfArgs. unfold map_args_ok, map_flags_ok. rewrite Hwx. intros [_ ?]. by rewrite andb_false_r in *. }
  pose proof (map_args_split va fl Hva Hfl Hwx) as Hargs. apply returns_bind.
  eapply returns_mono; [by apply (node_alloc_spec (λ v, mappings (vss s v)) g s v (refs x g)); try apply Hi|].
  intros [o s1] (g1 & Hl1 & Ev1 & Ef1 & (Hc1 & Hh1 & Hr1 & Hs1 & Hp1) & Ho). cbn [fst snd] in *.
  assert (memory_of s1 = memory_of s) as Em by (unfold memory_of; destruct o; [destruct Ho as (_ & _ & _ & _ & Ho)|specialize (Ho (Boot 0))]; by destruct Ho as (-> & _)).
  destruct o as [m|]; [destruct Ho as (Hlo & Hu & Hm & Hep & Ho)|].
  - apply (map_locked_spec A x g g1); try done; [|by apply Hr1|by apply Hs1|by auto]. split; try done; [|apply Ho].
    apply (only_still g s s1 m Ho). rewrite <-Ev1. apply Hlo.
  - right. split; [by apply MfMemory|]. cbn [snd]. specialize (Ho (Boot (boot_next s1))).
    assert (still g s s1) as Hs.
    { apply (only_still g s s1 _ Ho). intros v' Hin. rewrite <-Ev1 in Hin.
      pose proof (lo_used _ _ _ Hl1 v' _ Hin) as Hx. simpl in Hx. lia. }
    assert (mem_eqv R (memory_of s) (memory_of s1)) as He by (rewrite Em; apply mem_eqv_refl).
    exists g1. split; [|done]. apply (inv_step A x g _ s s1); try done. rewrite Em. apply Hi.
Qed.
End ops.
