(* ===== verification/VspaceUnmap.v ===== *)
(** * Unmapping

    [remove_spec]: taking one record out of a space unmaps its pages and nothing
    else.  [shrunk] relates the states before and after any number of removals. *)

From Stdlib Require Import ZArith Lia.
From stdpp Require Import base numbers list sets.
From S2P Require Import Prelude Rights Slist Pmm Paging PagingInv PagingSpec Vspace VspacePg VspaceInv VspaceMap VspaceOps.
Local Open Scope Z_scope.

Lemma for_up_succ {A} n (f : Z → A → A) a : 0 ≤ n → for_up (n + 1) f a = f n (for_up n f a).
Proof.
  intros Hn. unfold for_up. replace (Z.to_nat (n + 1)) with (S (Z.to_nat n)) by lia. rewrite seq_S, foldl_app. cbn. by rewrite Z2Nat.id.
Qed.

Section unmap.
Context {C : Type} `{VmCapsOk C} (R : Z → Prop).
Implicit Types (s : vm C) (v f : N) (m : mnode) (g : ghost) (A : N → Prop) (va : Z) (x : N → Z).

(** ** The pages *)

(** The invalidations sent for [n] pages, the last first. *)
Definition shot (ov : option N) (n va : Z) : list (N * Z) :=
  match ov with None => [] | Some v => (λ j, (v, page_va va (Z.of_nat j))) <$> rev (seq 0 (Z.to_nat n)) end.

Lemma unmap_all_eq ov c f va s : c ≠ 0 → 0 ≤ npages s f →
  kframe_unmap_all ov c f va s = with_shoot (shot ov (npages s f) va ++ shoot s) (with_pg (unmap_pages (npages s f) c va (pg s)) s).
Proof.
  intros Hc Hn. unfold kframe_unmap_all. rewrite (proj2 (Z.eqb_neq c 0)) by done. fold (npages s f).
  apply (for_up_ind (λ n s', s' = with_shoot (shot ov n va ++ shoot s) (with_pg (unmap_pages n c va (pg s)) s))); [done| |].
  - destruct s, ov; done.
  - intros i s' Hi ->. unfold unmap_pages. rewrite for_up_succ by lia. destruct ov as [v|]; [|done].
    cbn [shot]. replace (Z.to_nat (i + 1)) with (S (Z.to_nat i)) by lia. rewrite seq_S, rev_app_distr. cbn. by rewrite Z2Nat.id by lia.
Qed.

Lemma shot_all v n va j : 0 ≤ j < n → (v, page_va va j) ∈ shot (Some v) n va.
Proof.
  intros Hj. cbn [shot]. apply list_elem_of_fmap. exists (Z.to_nat j). rewrite Z2Nat.id by lia. split; [done|].
  apply list_elem_of_In. rewrite <-in_rev. apply in_seq. lia.
Qed.

(** ** One record less *)

Lemma pages_drop g g' s s' v f m :
  pages_ok R g s → lists_ok (λ v, mappings (vss s v)) g s → m ∈ lv g v → m_frame s m = Some f →
  lv g' = lv (drop v f m g) → same_maps g' s s' → paging_wf (memory_of s') R →
  run_unmapped R (root v s) (m_va s m) (npages s f) (memory_of s) (memory_of s') →
  pages_ok R g' s'.
Proof.
  intros HP Hl Hm Hf Eg Hs Hw [Hoff Hsame]. pose proof HP as []. pose proof Hs as (E1 & E2 & E3).
  assert (∀ v' y, y ∈ lv g' v' → y ∈ lv g v' ∧ y ≠ m) as Hin.
  { intros v' y. rewrite Eg. cbn [drop lv]. intros Hy. split; [by apply in_drop in Hy|]. intros ->. revert Hy. apply drop_out.
    intros v1 H1. by eapply lv_unique. }
  assert (∀ va', covers s m va' ↔ uva va' ∧ in_run (m_va s m) 0 (npages s f) va') as Hcm.
  { intros va'. unfold covers. rewrite Hf. split; [by intros [? (f' & [= ->] & ?)]|]. intros [? ?]. eauto. }
  assert (∀ v' va', root v' s ≠ 0 → uva va' → ¬ (v' = v ∧ covers s m va') →
    leaf (memory_of s') (root v' s) va' = leaf (memory_of s) (root v' s) va') as Hkeep.
  { intros v' va' Hr Hu Hn. apply Hsame; [auto|by left|]. intros (Ec & _ & Hi). apply Hn.
    split; [by apply po_sep|]. by apply Hcm. }
  split; [done|intros v'; rewrite E1; auto|intros v' v''; rewrite !E1; auto| | | |].
  - intros v' y f' Hy. apply Hin in Hy as Hy'. destruct (E3 v' y Hy) as [-> ->]. rewrite E1. unfold run_ok.
    destruct (same_npages g' s s' f' Hs) as [-> ->]. apply po_run. apply Hy'.
  - intros v' y f' Hy. destruct (Hin v' y Hy) as [Hy' Hne]. destruct (E3 v' y Hy) as [-> ->]. intros Hf'.
    destruct (po_leaf v' y f' Hy' Hf') as (fl & Hfl & Hall). exists fl. split; [done|]. intros va' Hu.
    rewrite E1, (proj1 (same_npages g' s s' f' Hs)), (proj1 (E2 f')). intros Hi. rewrite Hkeep; [by apply Hall| |done|].
    + by apply (po_run v' y f').
    + intros [-> Hc]. apply Hne. apply (po_disj v y m va'); [done|done| |done]. split; [done|]. eauto.
  - intros v' va'. rewrite E1. intros Hr Hu Ho. destruct (decide (v' = v ∧ in_run (m_va s m) 0 (npages s f) va')) as [[-> Hi]|Hn].
    + by rewrite Hoff in Ho.
    + assert (¬ (v' = v ∧ covers s m va')) as Hn' by (intros [-> Hc]; apply Hn; split; [done|by apply Hcm in Hc as [_ ?]]).
      rewrite Hkeep in Ho by done. destruct (po_only v' va' Hr Hu Ho) as (y & Hy & Hc). exists y.
      assert (y ≠ m) as Hne by (intros ->; apply Hn'; split; [by eapply lv_unique|done]).
      assert (y ∈ lv g' v') as Hy' by (rewrite Eg; cbn [drop lv]; by apply not_in_drop).
      split; [done|]. by apply (covers_same g' s s' v').
  - intros v' y z va' Hy Hz Hc1 Hc2. apply (covers_same g' s s' v') in Hc1, Hc2; [|done..].
    apply (po_disj v' y z va'); [by apply Hin|by apply Hin|done|done].
Qed.
(** All but the record [m] and the counts. *)
Definition dropped m s s' : Prop :=
  (∀ v, root v s' = root v s ∧ pt_pool (vss s' v) = pt_pool (vss s v) ∧ tables (vss s' v) = tables (vss s v)) ∧
  (∀ f, f_paddr (frs s' f) = f_paddr (frs s f) ∧ f_size (frs s' f) = f_size (frs s f)) ∧
  (∀ y, y ≠ m → m_frame s' y = m_frame s y ∧ m_va s' y = m_va s y ∧ m_boot s' y = m_boot s y ∧ m_epoch s' y = m_epoch s y) ∧
  fin_epoch s' = fin_epoch s.

Lemma dropped_trans m s1 s2 s3 : dropped m s1 s2 → dropped m s2 s3 → dropped m s1 s3.
Proof.
  intros (A1 & A2 & A3 & A4) (B1 & B2 & B3 & B4). split; [|split; [|split; [|congruence]]].
  - intros v. destruct (A1 v) as (? & ? & ?), (B1 v) as (? & ? & ?). split_and!; congruence.
  - intros f. destruct (A2 f), (B2 f). split; congruence.
  - intros y Hy. destruct (A3 y Hy) as (? & ? & ? & ?), (B3 y Hy) as (? & ? & ? & ?). split_and!; congruence.
Qed.

Lemma kept_dropped m s s' : kept m s s' → dropped m s s'.
Proof.
  intros (_ & _ & _ & _ & _ & E1 & E2 & E3 & E4). split; [|split; [|split; [|done]]].
  - intros v. unfold root. by destruct (E2 v) as [l ->].
  - intros f. by destruct (E3 f) as (h & n & ->).
  - intros y Hy. by destruct (E4 y Hy) as (? & ? & ? & ? & ?).
Qed.

Definition plus1 x f : N → Z := λ o, if decide (o = f) then x o + 1 else x o.

Lemma drop_in hd g s v f m v' y : lists_ok hd g s → m ∈ lv g v → y ∈ lv (drop v f m g) v' → y ∈ lv g v' ∧ y ≠ m.
Proof.
  intros Hl Hm Hy. cbn [drop lv] in Hy. split; [by apply in_drop in Hy|]. intros ->. revert Hy. apply drop_out.
  intros v1 H1. by eapply lv_unique.
Qed.

Lemma drop_inv A x g g' s s' v f m :
  vm_inv R A x g s → m ∈ lv g v → m_frame s m = Some f → lv g' = lv (drop v f m g) → lf g' = lf (drop v f m g) →
  lists_ok (λ v, mappings (vss s' v)) g' s' → counts_ok g' s' →
  (∀ v, mapping_count (vss s' v) = Z.of_nat (length (lv g' v))) → (∀ v, lv g' v ≠ [] → usable v s' = true) →
  cs s' = cs s → dropped m s s' → paging_wf (memory_of s') R →
  run_unmapped R (root v s) (m_va s m) (npages s f) (memory_of s) (memory_of s') →
  vm_inv R A (plus1 x f) g' s'.
Proof.
  intros Hi Hm Hf Ev Ef Hl Hfc Hvc Hus Ec (D1 & D2 & D3 & D4) Hw Hun. pose proof Hi as [].
  assert (∀ v' y, y ∈ lv g' v' → y ∈ lv g v' ∧ y ≠ m) as Hin by (intros v' y; rewrite Ev; by eapply drop_in).
  assert (m ∈ lf g f) as Hmf by (destruct (lo_vf _ _ _ vi_lists v m Hm) as (_ & f' & ? & ?); congruence).
  split; [done|done| | | |done| |].
  - intros v'. split; [apply Hvc|]. rewrite Ev. cbn [drop lv]. unfold upd_fn. destruct (vi_vcount v') as [_ ?]. case_decide; subst; [|done].
    pose proof (length_filter (λ y, y ≠ m) (lv g v)). lia.
  - rewrite Ec. eapply caps_ok_ext; [|done]. intros o. unfold refs, plus1. rewrite Ef. cbn [drop lf]. unfold upd_fn. case_decide; subst; [|done].
    pose proof (filter_out_length (lf g f) m (chain_nodup _ _ _ (lo_f _ _ _ vi_lists f)) Hmf). lia.
  - apply (pages_drop g g' s s' v f m); try done. split; [apply D1|]. split; [done|].
    intros v' y [_ Hy]%Hin. by destruct (D3 y Hy) as (? & ? & ? & ?).
  - intros v' y f' [Hy Hne]%Hin. rewrite Ec. destruct (D3 y Hne) as (-> & _ & -> & _). by apply vi_auth.
  - rewrite D4. split; [apply vi_epoch|]. intros v' y [Hy Hne]%Hin. destruct (D3 y Hne) as (_ & _ & _ & ->). by apply (proj2 vi_epoch v').
Qed.

(** ** What any number of removals does *)

Record shrunk g g' s s' : Prop := Shrunk {
  sh_sub    : ∀ v, lv g' v `sublist_of` lv g v;
  sh_kept   : kept_maps g' s s';
  sh_tables : same_tables R (memory_of s) (memory_of s');
  sh_leaf   : ∀ c va, R c → uva va ∨ ¬ user va →
    (∀ v m, root v s = c → m ∈ lv g v → m ∉ lv g' v → ¬ covers s m va) → leaf (memory_of s') c va = leaf (memory_of s) c va;
}.

Lemma shrunk_refl g s : shrunk g g s s.
Proof. by split. Qed.

Lemma kept_maps_sub g g' s s' : (∀ v, lv g' v ⊆ lv g v) → kept_maps g s s' → kept_maps g' s s'.
Proof.
  intros Hsub ((E1 & E2 & E3) & E4 & E5). split; [split; [done|split; [done|]]|split; [|done]].
  - intros v m Hm. by apply (E3 v m), Hsub.
  - intros v m Hm. by apply (E4 v m), Hsub.
Qed.

Lemma kept_maps_trans g s1 s2 s3 : kept_maps g s1 s2 → kept_maps g s2 s3 → kept_maps g s1 s3.
Proof.
  intros ((A1 & A2 & A3) & A4 & A5) ((B1 & B2 & B3) & B4 & B5). split; [split; [|split]|split].
  - intros v. by rewrite B1, A1.
  - intros f. destruct (A2 f), (B2 f). split; congruence.
  - intros v m Hm. destruct (A3 v m Hm), (B3 v m Hm). split; congruence.
  - intros v m Hm. by rewrite (B4 v m Hm), (A4 v m Hm).
  - intros v. destruct (A5 v) as (? & ? & ?), (B5 v) as (? & ? & ?). split_and!; congruence.
Qed.

Lemma sublist_in {T} (l k : list T) : l `sublist_of` k → l ⊆ k.
Proof. apply sublist_subseteq. Qed.

Lemma shrunk_trans g g1 g2 s s1 s2 : shrunk g g1 s s1 → shrunk g1 g2 s1 s2 → shrunk g g2 s s2.
Proof.
  intros [A1 A2 A3 A4] [B1 B2 B3 B4]. split.
  - intros v. etrans; [apply B1|apply A1].
  - eapply kept_maps_trans; [|done]. eapply kept_maps_sub; [|done]. intros v. by apply sublist_in.
  - by etrans.
  - intros c va Hc Hv Hn. rewrite B4, A4; [done..| |done|done|].
    + intros v m Er Hm Hm'. apply (Hn v m Er Hm). intros Hm2. apply Hm'. by apply (sublist_in _ _ (B1 v)).
    + intros v m Er Hm Hm' Hc'. destruct A2 as [Hsm _]. rewrite (proj1 Hsm v) in Er.
      apply (Hn v m Er); [by apply (sublist_in _ _ (A1 v))|done|]. by apply (covers_same g1 s s1 v) in Hc'.
Qed.
Lemma take_mapping_spec A x g s v m : vm_inv R A x g s → m ∈ lv g v →
  ∃ h nx, take_mapping v m s = Ret (put_vs v (set_maps h (u32 (mapping_count (vss s v) - 1)) (vss s v)) (with_next nx s)) ∧
    chain nx h (filter (λ y, y ≠ m) (lv g v)) ∧ (∀ y, y ∉ lv g v → nx y = m_next s y).
Proof.
  intros Hi Hm. pose proof Hi as []. unfold take_mapping.
  destruct (unlink_removes (m_next s) (mappings (vss s v)) m (lv g v) (maplen v s)) as (h & nx & -> & Hc & Hoff & _).
  { apply (lo_v _ _ _ vi_lists v). } { eapply chain_nodup, (lo_v _ _ _ vi_lists v). }
  { unfold maplen. destruct (vi_vcount v) as [-> _]. lia. }
  exists h, nx. done.
Qed.

Definition epochs_same g s s' : Prop := fin_epoch s' = fin_epoch s ∧ ∀ v m, m ∈ lv g v → m_epoch s' m = m_epoch s m.

Definition retired A x g s v f m s' : Prop := ∃ g',
  vm_inv R A (plus1 x f) g' s' ∧ lv g' = lv (drop v f m g) ∧ lf g' = lf (drop v f m g) ∧ shrunk g g' s s' ∧ cs s' = cs s ∧
  epochs_same g' s s'.

Lemma run_unmapped_shrunk g g' s s' v f m :
  m ∈ lv g v → m_frame s m = Some f → (∀ v, lv g' v `sublist_of` lv g v) → m ∉ lv g' v → kept_maps g' s s' →
  same_tables R (memory_of s) (memory_of s') →
  run_unmapped R (root v s) (m_va s m) (npages s f) (memory_of s) (memory_of s') → shrunk g g' s s'.
Proof.
  intros Hm Hf Hsub Hm' Hk Ht [Hoff Hsame]. split; [done|done|done|]. intros c va Hc Hv Hn. apply Hsame; [done|done|].
  intros (-> & Hu & Hi). apply (Hn v m); [done..|]. split; [done|]. eauto.
Qed.

Lemma drop_sub g g' v f m : lv g' = lv (drop v f m g) → ∀ v', lv g' v' `sublist_of` lv g v'.
Proof. intros Ev v'. rewrite Ev. cbn [drop lv]. unfold upd_fn. case_decide; subst; [apply sublist_filter|done]. Qed.

Lemma dropped_maps hd g g' s s' v f m :
  lists_ok hd g s → m ∈ lv g v → lv g' = lv (drop v f m g) → dropped m s s' → (∀ v, valid (vss s' v) = valid (vss s v)) →
  kept_maps g' s s'.
Proof.
  intros Hl Hm Ev (D1 & D2 & D3 & _) Hval.
  assert (∀ v' y, y ∈ lv g' v' → y ≠ m) as Hne by (intros v' y Hy; rewrite Ev in Hy; by apply (drop_in hd g s v f m v' y Hl Hm) in Hy as [_ ?]).
  split; [split; [apply D1|split; [done|]]|split].
  - intros v' y Hy. by destruct (D3 y (Hne v' y Hy)) as (? & ? & ? & ?).
  - intros v' y Hy. by destruct (D3 y (Hne v' y Hy)) as (? & ? & ? & ?).
  - intros v'. split; [done|]. by destruct (D1 v') as (? & ? & ?).
Qed.

Lemma retire_drop A x g s v f m ov :
  vm_inv R A x g s → m ∈ lv g v → m_frame s m = Some f →
  returns (s1 ← take_mapping v m s; s2 ← kvspace_node_free v m (kframe_unmap_all ov (cr3 (vss s1 v)) f (m_va s m) s1); Ret (mapped_dec f s2))
    (λ s', retired A x g s v f m s' ∧ shoot s' = shot ov (npages s f) (m_va s m) ++ shoot s).
Proof.
  intros Hi Hm Hf. destruct (take_mapping_spec A x g s v m Hi Hm) as (h & nx & -> & Hc & Hoff). pose proof Hi as [].
  destruct (po_run _ _ _ vi_pages v m f Hm Hf) as (Hr & Hfo & Hu & Ha & Hb). pose proof (pages_pos _ Hfo) as Hn. fold (npages s f) in Hn.
  pose proof (po_root _ _ _ vi_pages v Hr) as HR. cbn [mbind res_bind returns].
  set (s1 := put_vs v (set_maps h (u32 (mapping_count (vss s v) - 1)) (vss s v)) (with_next nx s)).
  assert (cr3 (vss s1 v) = root v s) as -> by (subst s1; cbn; by rewrite upd_fn_same).
  rewrite (unmap_all_eq ov (root v s) f (m_va s m) s1) by (done || (subst s1; cbn; unfold npages in *; cbn; lia)).
  change (npages s1 f) with (npages s f). change (pg s1) with (pg s). change (shoot s1) with (shoot s).
  destruct (unmap_pages_spec R (root v s) (m_va s m) HR Hu (npages s f) (pg s)) as (Hw & Ht & _ & _ & Hun); [apply vi_pages|lia|done|].
  set (s2 := with_shoot _ _). apply returns_bind.
  assert (∀ v', vss s2 v' = if decide (v' = v) then set_maps h (u32 (mapping_count (vss s v) - 1)) (vss s v) else vss s v') as Evs.
  { intros v'. subst s2 s1. cbn. unfold upd_fn. by case_decide. }
  eapply returns_mono; [apply (retire_spec (λ v, mappings (vss s v)) (λ v, mappings (vss s2 v)) g s s2 v f m)|].
  all: try done.
  - repeat split; try done. intros v'. rewrite Evs. case_decide; by subst.
  - intros v' Hv'. rewrite Evs. by rewrite decide_False.
  - rewrite Evs, decide_True by done. done.
  - intros s3 (g' & Ev & Ef & Hl & Hfc & Ec & Hk). cbn [returns]. set (s' := mapped_dec f s3) in *.
    assert (pg s' = pg s2) as Epg by apply Hk. assert (shoot s' = shoot s2) as -> by apply Hk. split; [|done].
    assert (memory_of s' = mem (unmap_pages (npages s f) (root v s) (m_va s m) (pg s))) as Em by (unfold memory_of; by rewrite Epg).
    assert (dropped m s s') as Hd.
    { apply (dropped_trans m s s2 s'); [|by apply kept_dropped]. split; [|done]. intros v'. unfold root. rewrite Evs. case_decide; by subst. }
    assert (∀ v', ∃ l, vss s' v' = set_free l (vss s2 v')) as Hvs by apply Hk.
    assert (∀ v', valid (vss s' v') = valid (vss s v')) as Hval.
    { intros v'. destruct (Hvs v') as [l ->]. cbn [set_free valid]. rewrite Evs. case_decide; by subst. }
    pose proof (drop_sub g g' v f m Ev) as Hsub.
    assert (m ∉ lv g' v) as Hout by (rewrite Ev; intros Hin; by apply (drop_in _ g s v f m v m vi_lists Hm) in Hin as [_ ?]).
    pose proof (dropped_maps _ g g' s s' v f m vi_lists Hm Ev Hd Hval) as Hkm.
    exists g'. split; [|split; [done|split; [done|split; [|split; [done|]]]]].
    + apply (drop_inv A x g g' s s' v f m); try done; rewrite ?Em; try done.
      * eapply lists_hd; [|done]. intros v'. by destruct (Hvs v') as [l ->].
      * intros v'. destruct (Hvs v') as [l ->]. cbn [set_free mapping_count]. rewrite Evs, Ev. cbn [drop lv]. unfold upd_fn.
        destruct (vi_vcount v') as [E ?]. case_decide; subst; [|done]. cbn [set_maps mapping_count]. rewrite E.
        pose proof (filter_out_length (lv g v) m (chain_nodup _ _ _ (lo_v _ _ _ vi_lists v)) Hm). rewrite u32_id; [lia|split; lia].
      * intros v' Hne. unfold usable. rewrite Hval. assert (cr3 (vss s' v') = cr3 (vss s v')) as -> by apply Hd.
        apply vi_usable. intros E. apply Hne. specialize (Hsub v'). rewrite E in Hsub. by apply sublist_nil_r in Hsub.
    + apply (run_unmapped_shrunk g g' s s' v f m); try done; rewrite Em; done.
    + destruct Hd as (_ & _ & D3 & D4). split; [done|]. intros v' y Hy. rewrite Ev in Hy.
      apply (drop_in _ g s v f m v' y vi_lists Hm) in Hy as [_ Hy]. by destruct (D3 y Hy) as (? & ? & ? & ?).
Qed.
(** Every page that lost its mapping was invalidated on the other processors. *)
Definition flushed g g' s s' : Prop := (∃ l, shoot s' = l ++ shoot s) ∧
  ∀ v m f j, m ∈ lv g v → m ∉ lv g' v → m_frame s m = Some f → 0 ≤ j < npages s f → (v, page_va (m_va s m) j) ∈ shoot s'.

Lemma flushed_refl g s : flushed g g s s.
Proof. split; [by exists []|done]. Qed.

Lemma flushed_trans g g1 g2 s s1 s2 :
  (∀ v, lv g2 v `sublist_of` lv g1 v) → same_maps g1 s s1 → flushed g g1 s s1 → flushed g1 g2 s1 s2 → flushed g g2 s s2.
Proof.
  intros Hsub Hsm [[l El] H1] [[k Ek] H2]. split; [exists (k ++ l); by rewrite Ek, El, app_assoc|].
  intros v m f j Hm Hm2 Hf Hj. destruct (decide (m ∈ lv g1 v)) as [Hm1|Hm1].
  - pose proof Hsm as (_ & _ & E). destruct (E v m Hm1) as [E1 E2]. rewrite <-E2. apply (H2 v m f); [done|done|by rewrite E1|].
    by rewrite (proj1 (same_npages g1 s s1 f Hsm)).
  - rewrite Ek. apply elem_of_app. right. by apply (H1 v m f).
Qed.

Lemma with_cs_inv A x g s c : vm_inv R A x g s → caps_ok (refs x g) c → (∀ a, rec_used a (cs s) → rec_used a c) →
  (∀ v m f, m ∈ lv g v → m_frame s m = Some f → A f → map_cap_has v f (cs s) = true → map_cap_has v f c = true) →
  vm_inv R A x g (with_cs c s).
Proof.
  intros [] Hc Hu Hh. split; try done.
  - apply (lists_same _ g s); [|done]. by repeat split.
  - destruct vi_pages. by split.
  - intros v m f Hm Hf HA. destruct (vi_auth v m f Hm Hf HA) as [?|?]; [by left|right]. by apply (Hh v m).
Qed.

Lemma with_cs_shrunk g s c : shrunk g g s (with_cs c s).
Proof. by split. Qed.

(** The records are as they were. *)
Definition settled A x g s s' : Prop := ∃ g', vm_inv R A x g' s' ∧ (∀ v, lv g' v = lv g v) ∧ shrunk g g' s s' ∧ flushed g g' s s' ∧
  has_same (cs s) (cs s').

Lemma maps_frame_spec A x g s v f : vm_inv R A x g s →
  ∃ b, kvspace_maps_frame v f s = Ret b ∧ (b = true ↔ ∃ m, m ∈ lv g v ∧ m_frame s m = Some f).
Proof.
  intros []. unfold kvspace_maps_frame.
  rewrite (find_node_spec _ _ _ (lv g v)); [|apply (lo_v _ _ _ vi_lists v)|unfold maplen; destruct (vi_vcount v) as [-> _]; lia].
  simpl. eexists. split; [done|]. destruct (head _) as [m|] eqn:E.
  - apply filter_head_in in E as [Hm Hf%bool_decide_eq_true]. split; [eauto|done].
  - split; [done|]. intros (m & Hm & Hf). pose proof (filter_head_none E m Hm) as Hx. cbv beta in Hx. by rewrite bool_decide_true in Hx.
Qed.

(** The capability goes with the last mapping. *)
Lemma drop_frame_spec A x g s v f finalise :
  vm_inv R A x g s →
  (∀ c, map_cap_has v f (cs s) = true → (∀ m, m ∈ lv g v → m_frame s m ≠ Some f) → vm_inv R A x g (with_cs c s) →
     returns (finalise f (with_cs c s)) (settled A x g (with_cs c s))) →
  returns (kvspace_map_cap_drop_frame finalise v f s) (λ s', ∃ g', vm_inv R A x g' s' ∧ (∀ v, lv g' v = lv g v) ∧
    shrunk g g' s s' ∧ flushed g g' s s' ∧
    (∀ v' o', v' ≠ v ∨ o' ≠ f → map_cap_has v' o' (cs s') = map_cap_has v' o' (cs s)) ∧
    (map_cap_has v f (cs s') = true ↔ map_cap_has v f (cs s) = true ∧ ∃ m, m ∈ lv g v ∧ m_frame s m = Some f) ∧
    (map_cap_has v f (cs s) = false → epochs_same g s s')).
Proof.
  intros Hi Hfin. unfold kvspace_map_cap_drop_frame. destruct (maps_frame_spec A x g s v f Hi) as (b & -> & Hb). cbn [mbind res_bind].
  destruct b.
  { exists g. split; [done|]. split; [done|]. split; [apply shrunk_refl|]. split; [apply flushed_refl|]. split; [done|].
    split; [|done]. split; [intros ?; split; [done|by apply Hb]|by intros [? _]]. }
  assert (∀ m, m ∈ lv g v → m_frame s m ≠ Some f) as Hno by (intros m Hm Hf; enough (false = true) by done; apply Hb; eauto).
  apply returns_bind. eapply returns_mono; [apply (caps_delete_ok (refs x g)); apply Hi|].
  intros [found c] (Hc & -> & Hh & Hu).
  assert (vm_inv R A x g (with_cs c s)) as Hi'.
  { apply with_cs_inv; [done..|]. intros v' m o Hm Hf _ Ht. rewrite Hh. case_decide as Hd; [|done]. destruct Hd as [-> ->]. by apply Hno in Hf. }
  assert (∀ v' o', v' ≠ v ∨ o' ≠ f → map_cap_has v' o' c = map_cap_has v' o' (cs s)) as Hh1 by (intros; rewrite Hh, decide_False; [done|tauto]).
  assert (map_cap_has v f c = false) as Hh2 by (by rewrite Hh, decide_True).
  destruct (map_cap_has v f (cs s)) eqn:Hvf.
  - eapply returns_mono; [by apply Hfin|]. intros s' (g' & Hi2 & Ev & Hs & Hfl & Hsame). exists g'.
    split; [done|]. split; [done|]. split; [eapply shrunk_trans; [apply (with_cs_shrunk g s c)|done]|]. split; [done|].
    split; [intros; rewrite Hsame; by apply Hh1|]. rewrite Hsame. cbn. rewrite Hh2.
    split; [|done]. split; [done|]. intros [_ (m & Hm & Hf)]. by apply Hno in Hf.
  - exists g. split; [done|]. split; [done|]. split; [apply with_cs_shrunk|]. split; [exact (flushed_refl g s)|]. split; [done|].
    cbn. rewrite Hh2. split; [|done]. split; [done|]. by intros [? _].
Qed.
Lemma vm_release_spec A x g s f : vm_inv R A (plus1 x f) g s → 0 ≤ x f →
  returns (do_cs (obj_release f) s) (λ s', ∃ c, s' = with_cs c s ∧ vm_inv R A x g s' ∧ has_same (cs s) c).
Proof.
  intros Hi Hx. unfold do_cs. apply returns_bind.
  eapply returns_mono; [apply (caps_release_ok (refs (plus1 x f) g)); [apply Hi|]|].
  { unfold refs, plus1. rewrite decide_True by done. lia. }
  intros c (Hc & Hh & Hu). exists c. split; [done|]. split; [|done].
  destruct Hi. split; try done.
  - apply (lists_same _ g s); [|done]. by repeat split.
  - eapply caps_ok_ext; [|done]. intros o. unfold refs, plus1. cbv beta. case_decide; lia.
  - destruct vi_pages. by split.
  - intros v m o Hm Hf HA. cbn. rewrite Hh. by apply vi_auth.
Qed.

(** ** One unmap *)

Definition unmap_done A x g s v f m s' : Prop := ∃ g', vm_inv R A x g' s' ∧ (∀ v', lv g' v' = lv (drop v f m g) v') ∧
  shrunk g g' s s' ∧ flushed g g' s s' ∧
  (∀ v' o', v' ≠ v ∨ o' ≠ f → map_cap_has v' o' (cs s') = map_cap_has v' o' (cs s)) ∧
  (map_cap_has v f (cs s') = true ↔ map_cap_has v f (cs s) = true ∧ ∃ y, y ∈ lv g v ∧ y ≠ m ∧ m_frame s y = Some f) ∧
  (map_cap_has v f (cs s) = false → epochs_same g' s s').

Inductive unmap_fails g s v f va : iris_error_t → Prop :=
  | UfArg : kframe_va_valid va = false → unmap_fails g s v f va IRIS_ERR_INVALID_ARG
  | UfSpace : usable v s = false → unmap_fails g s v f va IRIS_ERR_BAD_HANDLE
  | UfNone : (∀ m, m ∈ lv g v → m_va s m ≠ va) → unmap_fails g s v f va IRIS_ERR_NOT_FOUND
  | UfOther m : m ∈ lv g v → m_va s m = va → m_frame s m ≠ Some f → unmap_fails g s v f va IRIS_ERR_INVALID_ARG.

Definition unmap_post A x g s v f va (r : iris_error_t * vm C) : Prop :=
  (r.1 = IRIS_OK ∧ ∃ m, m ∈ lv g v ∧ m_va s m = va ∧ m_frame s m = Some f ∧ unmap_done A x g s v f m r.2) ∨
  (unmap_fails g s v f va r.1 ∧ r.2 = s).

Lemma flushed_drop g g' s s' v f m :
  lv g' = lv (drop v f m g) → m_frame s m = Some f → (∀ v', m ∈ lv g v' → v' = v) →
  shoot s' = shot (Some v) (npages s f) (m_va s m) ++ shoot s → flushed g g' s s'.
Proof.
  intros Ev Hf Hone Es. split; [by eexists|]. intros v' y f' j Hy Hy' Hfy Hj. rewrite Es. apply elem_of_app. left.
  destruct (decide (y = m)) as [->|Hne].
  - apply Hone in Hy as ->. assert (f' = f) as -> by congruence. by apply shot_all.
  - exfalso. apply Hy'. rewrite Ev. cbn [drop lv]. by apply not_in_drop.
Qed.

Lemma unmap_body_spec A x g s v f va finalise :
  vm_inv R A x g s → 0 ≤ x f →
  (map_cap_has v f (cs s) = true → ∀ g1 s1, vm_inv R A (plus1 x f) g1 s1 → fin_epoch s1 = fin_epoch s →
     returns (finalise f s1) (settled A (plus1 x f) g1 s1)) →
  returns (unmap_body finalise f v va s) (unmap_post A x g s v f va).
Proof.
  intros Hi Hx Hfin. pose proof Hi as []. unfold unmap_body.
  destruct (kframe_va_valid va) eqn:Hva; cbn [negb]; [|by right; split; [apply UfArg|]].
  destruct (usable v s) eqn:Hus; cbn [negb]; [|by right; split; [apply UfSpace|]].
  rewrite (find_node_spec _ _ _ (lv g v)); [|apply (lo_v _ _ _ vi_lists v)|unfold maplen; destruct (vi_vcount v) as [-> _]; lia].
  cbn [mbind res_bind]. destruct (head _) as [m|] eqn:Em.
  2:{ right. split; [|done]. apply UfNone. intros m Hm E. pose proof (filter_head_none Em m Hm) as Hn. cbv beta in Hn.
      by rewrite E, Z.eqb_refl in Hn. }
  apply filter_head_in in Em as [Hm Hmv%Z.eqb_eq]. case_bool_decide as Hf; cbn [negb].
  2:{ right. split; [|done]. by apply (UfOther _ _ _ _ _ m). }
  pose proof (retire_drop A x g s v f m (Some v) Hi Hm Hf) as Hret. rewrite Hmv in Hret.
  destruct (take_mapping v m s) as [s1| |]; [|done..]. cbn [mbind res_bind] in *. 
  destruct (kvspace_node_free v m _) as [s2| |]; [|done..]. cbn [mbind res_bind returns] in *.
  destruct Hret as [(g1 & Hi1 & Ev & Ef & Hsh & Ec & Hep) Hshoot]. set (s3 := mapped_dec f s2) in *.
  assert (flushed g g1 s s3) as Hfl.
  { apply (flushed_drop g g1 s s3 v f m); try done; [|by rewrite Hmv]. intros v' Hv'. by eapply lv_unique. }
  apply returns_bind. eapply returns_mono; [apply (drop_frame_spec A (plus1 x f) g1 s3 v f finalise Hi1)|].
  { intros c Hh _ Hic. apply Hfin; [by rewrite <-Ec|done|apply Hep]. }
  intros s4 (g2 & Hi2 & Ev2 & Hsh2 & Hfl2 & Hh1 & Hh2 & Hep2). apply returns_bind.
  eapply returns_mono; [by apply (vm_release_spec A x g2 s4 f)|]. intros s5 (c & -> & Hi3 & Hsame). cbn [returns].
  left. split; [done|]. exists m. split; [done|]. split; [done|]. split; [done|]. exists g2. split; [done|].
  split; [intros v'; by rewrite Ev2, Ev|].
  assert (shrunk g g2 s (with_cs c s4)) as Hshr.
  { eapply shrunk_trans; [|apply (with_cs_shrunk g2 s4 c)]. by eapply shrunk_trans. }
  split; [done|]. split.
  { apply (flushed_trans g g1 g2 s s3); [apply Hsh2|apply Hsh|done|done]. }
  cbn [cs with_cs snd]. split; [intros v' o' Hd; by rewrite Hsame, Hh1, Ec|]. rewrite Hsame, Hh2, Ec.
  destruct (sh_kept _ _ _ _ Hsh) as ((_ & _ & E3) & _).
  assert (∀ y, y ∈ lv g1 v ↔ y ∈ lv g v ∧ y ≠ m) as Hin.
  { intros y. rewrite Ev. cbn [drop lv]. rewrite upd_fn_same, list_elem_of_filter. tauto. }
  split; [split; (intros [Ht (y & Hy & Hr)]; split; [done|]; exists y)|].
  - destruct (E3 v y Hy) as [E _]. apply Hin in Hy as [Hy1 Hy2]. split; [done|]. split; [done|]. congruence.
  - destruct Hr as [Hne Hfy]. assert (y ∈ lv g1 v) as Hy1 by (by apply Hin). destruct (E3 v y Hy1) as [E _]. split; [done|]. congruence.
  - intros Hnf. rewrite Ec in Hep2. destruct (Hep2 Hnf) as [F1 F2], Hep as [G1 G2]. split; [cbn; congruence|].
    intros v' y Hy. rewrite Ev2 in Hy. cbn. rewrite (F2 v' y Hy). by apply (G2 v').
Qed.
End unmap.
