(* ===== verification/VspaceFinal.v ===== *)
(** * What a lost capability unmaps

    [finalise_spec]: [kvspace_finalise_frame] unmaps exactly the mappings of the frame
    whose space holds no capability to it, whatever the order of the lists, and
    stops.  With it an unmap in a state where every mapping has its authority is
    exact ([unmap_page_spec]). *)

From Stdlib Require Import ZArith Lia.
From stdpp Require Import base numbers list sets.
From S2P Require Import Prelude Rights Slist Pmm Paging PagingInv PagingSpec Vspace VspacePg VspaceInv VspaceMap VspaceOps VspaceUnmap.
Local Open Scope Z_scope.

Lemma nodup_sub_lt {T} (l k : list T) y : NoDup l → l ⊆ k → y ∈ k → y ∉ l → (length l < length k)%nat.
Proof.
  intros Hn Hs Hk Hl. assert (y :: l ⊆+ k) as Hsub.
  { apply NoDup_submseteq; [by constructor|]. intros z [->|Hz]%elem_of_cons; [done|by apply Hs]. }
  apply submseteq_length in Hsub. simpl in Hsub. lia.
Qed.

Lemma sublist_full {T} (l k : list T) : l `sublist_of` k → NoDup k → k ⊆ l → l = k.
Proof.
  intros Hs Hn Hk. assert (length k ≤ length l)%nat as Hl by (apply submseteq_length, NoDup_submseteq; done).
  clear Hn Hk. induction Hs as [|z l k Hs IH|z l k Hs IH]; [done| |].
  - f_equal. apply IH. simpl in Hl. lia.
  - apply sublist_length in Hs. simpl in Hl. lia.
Qed.

Section final.
Context {C : Type} `{VmCapsOk C} (R : Z → Prop).
Implicit Types (s : vm C) (v f : N) (m : mnode) (g : ghost) (A : N → Prop) (va : Z) (x : N → Z).

(** ** A record is found by its address *)

Lemma run_va_valid s f va : run_ok s f va → kframe_va_valid va = true.
Proof.
  intros (_ & Hu & Ha & _). unfold kframe_va_valid. change 0xFFF with (Z.ones 12). rewrite Z.land_ones by lia. change (2 ^ 12) with 4096.
  rewrite Ha. cbn [Z.eqb negb]. unfold uva, USER_PRIVATE_BASE, USER_SPACE_TOP in *.
  rewrite (proj2 (Z.ltb_ge _ _)), (proj2 (Z.leb_gt _ _)) by lia. apply Z.eqb_eq. rewrite Z.shiftr_div_pow2 by lia. apply Z.div_small. lia.
Qed.

Lemma record_frame A x g s v m : vm_inv R A x g s → m ∈ lv g v → ∃ f, m_frame s m = Some f ∧ m ∈ lf g f.
Proof. intros [] Hm. by destruct (lo_vf _ _ _ vi_lists v m Hm) as (_ & f & ? & ?); eauto. Qed.

Lemma covers_self A x g s v m : vm_inv R A x g s → m ∈ lv g v → covers s m (m_va s m).
Proof.
  intros Hi Hm. destruct (record_frame A x g s v m Hi Hm) as (f & Hf & _). pose proof Hi as [].
  destruct (po_run _ _ _ vi_pages v m f Hm Hf) as (_ & Hfo & Hu & _). split; [done|]. exists f. split; [done|].
  pose proof (pages_pos _ Hfo). unfold in_run, npages. lia.
Qed.

Lemma record_at A x g s v m m' : vm_inv R A x g s → m ∈ lv g v → m' ∈ lv g v → m_va s m' = m_va s m → m' = m.
Proof.
  intros Hi Hm Hm' E. pose proof (covers_self A x g s v m Hi Hm) as H1. pose proof (covers_self A x g s v m' Hi Hm') as H2.
  rewrite E in H2. apply (po_disj _ _ _ (vi_pages _ _ _ _ _ Hi) v m' m (m_va s m)); done.
Qed.

(** An unmap of a record that is there succeeds, and takes that record. *)
Lemma unmap_hits A x g s v f m r : vm_inv R A x g s → m ∈ lv g v → m_frame s m = Some f →
  unmap_post R A x g s v f (m_va s m) r → r.1 = IRIS_OK ∧ unmap_done R A x g s v f m r.2.
Proof.
  intros Hi Hm Hf [(He & m' & Hm' & Eva & Hf' & Hd)|[Hfail _]].
  - split; [done|]. by rewrite <-(record_at A x g s v m m' Hi Hm Hm' Eva).
  - exfalso. destruct (po_run _ _ _ (vi_pages _ _ _ _ _ Hi) v m f Hm Hf) as (_ & Hrun). inversion Hfail as [E|E|E|m' Hm' E Hn]; subst.
    + by rewrite (run_va_valid s f _ Hrun) in E.
    + rewrite (vi_usable _ _ _ _ _ Hi) in E; [done|]. intros Hnil. rewrite Hnil in Hm. by apply not_elem_of_nil in Hm.
    + by apply (E m Hm).
    + apply Hn. by rewrite (record_at A x g s v m m' Hi Hm Hm' E).
Qed.

(** ** Frames' lists shrink with the spaces' *)

Lemma lf_iff A x g s f m : vm_inv R A x g s → m ∈ lf g f ↔ m_frame s m = Some f ∧ ∃ v, m ∈ lv g v.
Proof.
  intros Hi. pose proof Hi as []. split; [apply (lo_fv _ _ _ vi_lists)|]. intros [Hf (v & Hv)].
  destruct (record_frame A x g s v m Hi Hv) as (f' & Hf' & Hin). congruence.
Qed.

Lemma lf_nodup A x g s f : vm_inv R A x g s → NoDup (lf g f).
Proof. intros []. eapply chain_nodup, (lo_f _ _ _ vi_lists f). Qed.

Lemma lf_sub A A' x x' g g' s s' f : vm_inv R A x g s → vm_inv R A' x' g' s' → shrunk R g g' s s' → lf g' f ⊆ lf g f.
Proof.
  intros Hi Hi' [Hsub ((_ & _ & E) & _) _ _] m Hm. apply (lf_iff A' x' g' s') in Hm as [Hf (v & Hv)]; [|done].
  apply (lf_iff A x g s); [done|]. destruct (E v m Hv) as [E1 _]. split; [congruence|]. exists v. by apply (sublist_in _ _ (Hsub v)).
Qed.

(** ** The mappings of one space *)

Definition gone (P : N → mnode → Prop) g g' : Prop := ∀ v m, m ∈ lv g v → (m ∈ lv g' v ↔ ¬ P v m).

Section loops.
Context (f : N) (unmap : N → N → Z → vm C → res (iris_error_t * vm C)).
Context (Hunmap : ∀ A x g s v va, vm_inv R A x g s → 0 ≤ x f → map_cap_has v f (cs s) = false →
  returns (unmap f v va s) (unmap_post R A x g s v f va)).

Definition in_space v s m : bool := bool_decide (m_vs s m = Some v) && negb (m_boot s m).

Lemma find_in_frame A x g s (P : mnode → bool) : vm_inv R A x g s →
  find_node (framelen f s) P (frame_next s) (f_maps (frs s f)) = Ret (head (filter (λ m, P m = true) (lf g f))).
Proof.
  intros []. apply find_node_spec; [apply (lo_f _ _ _ vi_lists f)|]. unfold framelen. destruct (vi_fcount f) as [-> _]. lia.
Qed.

Lemma m_vs_iff A x g s v m : vm_inv R A x g s → m ∈ lf g f → m_vs s m = Some v ↔ m ∈ lv g v.
Proof.
  intros Hi Hm. apply (lf_iff A x g s) in Hm as [_ (v' & Hv')]; [|done]. destruct (lo_vf _ _ _ (vi_lists _ _ _ _ _ Hi) v' m Hv') as [E _].
  split; [intros; congruence|]. intros Hv. by destruct (lo_vf _ _ _ (vi_lists _ _ _ _ _ Hi) v m Hv) as [? _].
Qed.

Definition space_gone A x g s v s' : Prop := ∃ g', vm_inv R A x g' s' ∧ shrunk R g g' s s' ∧ flushed g g' s s' ∧
  has_same (cs s) (cs s') ∧ epochs_same g' s s' ∧ gone (λ v' m, v' = v ∧ m_frame s m = Some f ∧ m_boot s m = false) g g'.

Lemma epochs_trans g1 g2 s s1 s2 : (∀ v, lv g2 v ⊆ lv g1 v) → epochs_same g1 s s1 → epochs_same g2 s1 s2 → epochs_same g2 s s2.
Proof.
  intros Hsub [A1 A2] [B1 B2]. split; [congruence|]. intros v m Hm. rewrite (B2 v m Hm). by apply (A2 v), Hsub.
Qed.

Lemma finalise_space_spec A x v fuel : ∀ g s, vm_inv R A x g s → 0 ≤ x f → map_cap_has v f (cs s) = false →
  (length (lf g f) < fuel)%nat → returns (finalise_space unmap fuel f v s) (space_gone A x g s v).
Proof.
  induction fuel as [|fuel IH]; intros g s Hi Hx Hno Hlen; [lia|]. cbn [finalise_space].
  rewrite (find_in_frame A x g s) by done. cbn [mbind res_bind]. fold (in_space v s).
  destruct (head _) as [m|] eqn:Em.
  - apply filter_head_in in Em as [Hm [Hvs%bool_decide_eq_true Hb%negb_true_iff]%andb_true_iff].
    pose proof (proj1 (m_vs_iff A x g s v m Hi Hm) Hvs) as Hmv. pose proof (proj1 (proj1 (lf_iff A x g s f m Hi) Hm)) as Hf.
    apply returns_bind. eapply returns_mono; [by apply (Hunmap A x g s)|]. intros [e s1] Hpost.
    destruct (unmap_hits A x g s v f m _ Hi Hmv Hf Hpost) as [He (g1 & Hi1 & Ev & Hsh & Hfl & Hh1 & Hh2 & Hep)]. cbn [fst snd] in *.
    rewrite bool_decide_true by done.
    assert (has_same (cs s) (cs s1)) as Hsame.
    { intros v' o'. destruct (decide (v' = v)) as [->|]; [|by apply Hh1; left]. destruct (decide (o' = f)) as [->|]; [|by apply Hh1; right].
      rewrite Hno in Hh2. rewrite Hno. destruct (map_cap_has v f (cs s1)); [|done]. by destruct (proj1 Hh2 eq_refl). }
    assert (m ∉ lf g1 f) as Hout.
    { intros Hin. apply (lf_iff A x g1 s1) in Hin as [_ (v' & Hv')]; [|done]. rewrite Ev in Hv'.
      by apply (drop_in _ g s v f m v' m (vi_lists _ _ _ _ _ Hi) Hmv) in Hv' as [_ ?]. }
    eapply returns_mono; [apply (IH g1 s1 Hi1 Hx)|].
    { by rewrite Hsame. }
    { pose proof (nodup_sub_lt (lf g1 f) (lf g f) m (lf_nodup A x g1 s1 f Hi1) (lf_sub A A x x g g1 s s1 f Hi Hi1 Hsh) Hm Hout). lia. }
    intros s' (g' & Hi' & Hsh' & Hfl' & Hsame' & Hep' & Hgone). exists g'. split; [done|].
    split; [by eapply shrunk_trans|]. split; [apply (flushed_trans g g1 g' s s1); [apply Hsh'|apply Hsh|done|done]|].
    split; [intros v' o'; by rewrite Hsame', Hsame|].
    split; [apply (epochs_trans g1 g' s s1); [intros v'; apply sublist_in, Hsh'|by apply Hep|done]|].
    intros v' y Hy. destruct (decide (y = m)) as [->|Hne].
    + assert (v' = v) as -> by (eapply lv_unique; [apply Hi|done|done]). split; [|tauto]. intros Hin.
      apply (sublist_in _ _ (sh_sub _ _ _ _ _ Hsh' v)) in Hin. exfalso. apply Hout, (lf_iff A x g1 s1); [done|].
      destruct (sh_kept _ _ _ _ _ Hsh) as ((_ & _ & E) & _). destruct (E v m Hin) as [E1 _]. split; [congruence|eauto].
    + assert (y ∈ lv g1 v') as Hy1 by (rewrite Ev; cbn [drop lv]; by apply not_in_drop). rewrite (Hgone v' y Hy1).
      destruct (sh_kept _ _ _ _ _ Hsh) as ((_ & _ & E) & E' & _). destruct (E v' y Hy1) as [-> _]. by rewrite (E' v' y Hy1).
  - exists g. split; [done|]. split; [apply shrunk_refl|]. split; [apply flushed_refl|]. split; [done|]. split; [done|].
    intros v' y Hy. split; [|done]. intros _ (-> & Hf & Hb). assert (y ∈ lf g f) as Hyf by (apply (lf_iff A x g s); eauto).
    pose proof (filter_head_none Em y Hyf) as Hn. unfold in_space in Hn. rewrite bool_decide_true, Hb in Hn; [done|].
    by apply (m_vs_iff A x g s v y Hi Hyf).
Qed.
(** ** Stamps *)

Lemma with_epochs_inv A x g s ep n : vm_inv R A x g s → 0 ≤ n → (∀ v m, m ∈ lv g v → ep m ≤ n) → vm_inv R A x g (with_epochs ep n s).
Proof.
  intros [] Hn He. split; try done.
  - apply (lists_same _ g s); [|done]. by repeat split.
  - destruct vi_pages. by split.
Qed.

Lemma with_epochs_shrunk g s ep n : shrunk R g g s (with_epochs ep n s) ∧ flushed g g s (with_epochs ep n s).
Proof. split; [by split|exact (flushed_refl g s)]. Qed.

Lemma stamp_eq A x g s v epoch : vm_inv R A x g s →
  stamp f v epoch s = with_epochs (λ m, if bool_decide (m ∈ lf g f) && bool_decide (m_vs s m = Some v) then epoch else m_epoch s m) (fin_epoch s) s.
Proof.
  intros []. unfold stamp. by rewrite (chain_walk _ _ (lf g f)); [|apply (lo_f _ _ _ vi_lists f)|unfold framelen; destruct (vi_fcount f) as [-> _]; lia].
Qed.

Lemma stamp_inv A x g s v : vm_inv R A x g s → vm_inv R A x g (stamp f v (fin_epoch s) s).
Proof.
  intros Hi. rewrite (stamp_eq A x g) by done. apply with_epochs_inv; [done|apply Hi|]. intros v' m Hm.
  destruct (_ && _); [done|]. by apply (proj2 (vi_epoch _ _ _ _ _ Hi) v').
Qed.

(** ** The mappings of the frame *)

Definition orphan s v m : Prop := m_frame s m = Some f ∧ m_boot s m = false ∧ map_cap_has v f (cs s) = false.

#[local] Instance orphan_dec s v m : Decision (orphan s v m).
Proof. unfold orphan. apply _. Defined.

Definition frame_done A x g s s' : Prop := ∃ g', vm_inv R (λ o, A o ∨ o = f) x g' s' ∧ shrunk R g g' s s' ∧ flushed g g' s s' ∧
  has_same (cs s) (cs s') ∧ fin_epoch s' = fin_epoch s ∧ gone (orphan s) g g'.

(** What a stamp means. *)
Definition stamped_ok g s : Prop := ∀ v m, m ∈ lv g v → m_frame s m = Some f → m_boot s m = false → m_epoch s m = fin_epoch s →
  map_cap_has v f (cs s) = true.

Definition todo g s : list mnode := filter (λ m, m_boot s m = false ∧ m_epoch s m ≠ fin_epoch s) (lf g f).

Lemma all_authorised A x g s : vm_inv R A x g s → (∀ v m, m ∈ lv g v → m_frame s m = Some f → m_boot s m = true ∨ map_cap_has v f (cs s) = true) →
  vm_inv R (λ o, A o ∨ o = f) x g s.
Proof. intros [] Hall. split; try done. intros v m o Hm Hf [HA| ->]; [by apply vi_auth|by apply Hall]. Qed.

Lemma orphan_same g s s' v m : kept_maps g s s' → has_same (cs s) (cs s') → m ∈ lv g v → orphan s' v m ↔ orphan s v m.
Proof. intros ((_ & _ & E) & Eb & _) Hh Hm. unfold orphan. destruct (E v m Hm) as [-> _]. by rewrite (Eb v m Hm), Hh. Qed.

Lemma todo_lt A x g g1 s s1 v m :
  vm_inv R A x g s → vm_inv R A x g1 s1 → shrunk R g g1 s s1 → epochs_same g1 s s1 →
  m ∈ lv g v → m_frame s m = Some f → m_boot s m = false → m_epoch s m ≠ fin_epoch s →
  (length (todo g1 (stamp f v (fin_epoch s1) s1)) < length (todo g s))%nat.
Proof.
  intros Hi Hi1 Hsh [E1 E2] Hm Hf Hb He. assert (m ∈ lf g f) as Hmf by (apply (lf_iff A x g s); eauto).
  rewrite (stamp_eq A x g1 s1 v _ Hi1). unfold todo. cbn [fin_epoch with_epochs m_epoch m_boot]. rewrite E1.
  destruct (sh_kept _ _ _ _ _ Hsh) as (_ & Eb & _).
  apply (nodup_sub_lt _ _ m).
  - apply NoDup_filter. by apply (lf_nodup A x g1 s1).
  - intros y [[Hyb Hye] Hy]%list_elem_of_filter. apply list_elem_of_filter. split; [|by apply (lf_sub A A x x g g1 s s1 f)].
    apply (lf_iff A x g1 s1) in Hy as Hy'; [|done]. destruct Hy' as [_ (v' & Hv')]. rewrite (Eb v' y Hv') in Hyb. split; [done|].
    destruct (_ && _); [done|]. by rewrite (E2 v' y Hv') in Hye.
  - by apply list_elem_of_filter.
  - intros [[_ Hx] Hy]%list_elem_of_filter. apply Hx. apply (lf_iff A x g1 s1) in Hy as Hy'; [|done]. destruct Hy' as [_ (v' & Hv')].
    assert (v' = v) as -> by (eapply lv_unique; [apply Hi|by apply (sublist_in _ _ (sh_sub _ _ _ _ _ Hsh v'))|done]).
    rewrite !bool_decide_true; [done| |done]. by apply (m_vs_iff A x g1 s1 v m Hi1 Hy).
Qed.

Lemma finalise_loop_spec A x fuel : ∀ g s, vm_inv R A x g s → 0 ≤ x f → stamped_ok g s → (length (todo g s) < fuel)%nat →
  returns (finalise_loop unmap fuel f (fin_epoch s) s) (frame_done A x g s).
Proof.
  induction fuel as [|fuel IH]; intros g s Hi Hx Hst Hlen; [lia|]. cbn [finalise_loop].
  rewrite (find_in_frame A x g s) by done. cbn [mbind res_bind].
  destruct (head _) as [m|] eqn:Em.
  - apply filter_head_in in Em as [Hm [[[v Hv]%bool_decide_eq_true Hb%negb_true_iff]%andb_true_iff He%negb_true_iff%Z.eqb_neq]%andb_true_iff].
    change (Some m ≫= m_vs s) with (m_vs s m). rewrite Hv. pose proof (proj1 (m_vs_iff A x g s v m Hi Hm) Hv) as Hmv.
    pose proof (proj1 (proj1 (lf_iff A x g s f m Hi) Hm)) as Hf.
    assert (returns (if map_cap_has v f (cs s) then Ret s else finalise_space unmap (framelen f s) f v s) (λ s1, ∃ g1, vm_inv R A x g1 s1 ∧
      shrunk R g g1 s s1 ∧ flushed g g1 s s1 ∧ has_same (cs s) (cs s1) ∧ epochs_same g1 s s1 ∧
      gone (λ v' y, v' = v ∧ orphan s v y) g g1)) as Hspace.
    { destruct (map_cap_has v f (cs s)) eqn:Hh.
      - exists g. split; [done|]. split; [apply shrunk_refl|]. split; [apply flushed_refl|]. split; [done|]. split; [done|].
        intros v' y Hy. split; [|done]. intros _ (_ & _ & _ & Hn). congruence.
      - eapply returns_mono; [apply (finalise_space_spec A x v (framelen f s) g s); try done; unfold framelen; destruct (vi_fcount _ _ _ _ _ Hi f) as [-> _]; lia|].
        intros s1 (g1 & ? & ? & ? & ? & ? & Hg). exists g1. do 5 (split; [done|]). intros v' y Hy. rewrite (Hg v' y Hy). unfold orphan.
        split; intros Hn Hc; apply Hn; tauto. }
    apply returns_bind. eapply returns_mono; [done|]. intros s1 (g1 & Hi1 & Hsh & Hfl & Hh & Hep & Hg). pose proof Hep as [E1 E2].
    rewrite <-E1. destruct (with_epochs_shrunk g1 s1 (m_epoch (stamp f v (fin_epoch s1) s1)) (fin_epoch s1)) as [Hsh2 Hfl2].
    change (with_epochs (m_epoch (stamp f v (fin_epoch s1) s1)) (fin_epoch s1) s1) with (stamp f v (fin_epoch s1) s1) in *.
    change (fin_epoch s1) with (fin_epoch (stamp f v (fin_epoch s1) s1)) at 1.
    assert (∀ v' y, y ∈ lv g1 v' → m_epoch (stamp f v (fin_epoch s1) s1) y = fin_epoch s1 → m_epoch s1 y = fin_epoch s1 ∨ v' = v) as Hold.
    { intros v' y Hy. rewrite (stamp_eq A x g1) by done. cbn. destruct (_ && _) eqn:E; [|by left]. intros _. right.
      apply andb_true_iff in E as [Hy'%bool_decide_eq_true Hvy%bool_decide_eq_true]. apply (m_vs_iff A x g1 s1 v y Hi1 Hy') in Hvy.
      eapply lv_unique; [apply Hi1|done|done]. }
    eapply returns_mono; [apply (IH g1 (stamp f v (fin_epoch s1) s1)); [by apply stamp_inv|done| |]|].
    + intros v' y Hy Hfy Hby Hey. apply (Hold v' y Hy) in Hey. cbn. rewrite Hh.
      destruct (sh_kept _ _ _ _ _ Hsh) as ((_ & _ & K1) & K2 & _). destruct (K1 v' y Hy) as [K3 _].
      apply (sublist_in _ _ (sh_sub _ _ _ _ _ Hsh v')) in Hy as Hy0. cbn in Hfy, Hby. rewrite K3 in Hfy. rewrite (K2 v' y Hy) in Hby.
      destruct Hey as [Hey| ->]; [apply (Hst v' y); try done; by rewrite <-(E2 v' y Hy), <-E1|].
      apply (Hg v y Hy0) in Hy. destruct (map_cap_has v f (cs s)) eqn:E; [done|]. exfalso. apply Hy. by repeat split.
    + pose proof (todo_lt A x g g1 s s1 v m Hi Hi1 Hsh Hep Hmv Hf Hb He). lia.
    + intros s' (g' & Hi' & Hsh' & Hfl' & Hh' & Hep' & Hg'). exists g'. split; [done|].
      assert (shrunk R g g1 s (stamp f v (fin_epoch s1) s1)) as Hsh3 by (by eapply shrunk_trans).
      split; [by eapply shrunk_trans|].
      split; [apply (flushed_trans g g1 g' s (stamp f v (fin_epoch s1) s1)); [apply Hsh'|apply Hsh3|done|done]|].
      split; [intros v' o'; rewrite Hh'; apply Hh|]. split; [by rewrite Hep'|].
      intros v' y Hy. destruct (decide (v' = v ∧ orphan s v y)) as [Ho|Ho].
      * destruct Ho as [-> Ho]. split; [|done]. intros Hin. apply (sublist_in _ _ (sh_sub _ _ _ _ _ Hsh' v)) in Hin.
        apply (Hg v y Hy) in Hin. exfalso. by apply Hin.
      * apply (Hg v' y Hy) in Ho as Hy1. rewrite (Hg' v' y Hy1).
        by rewrite (orphan_same g1 s (stamp f v (fin_epoch s1) s1) v' y (sh_kept _ _ _ _ _ Hsh3) Hh Hy1).
  - assert (∀ v m, m ∈ lv g v → m_frame s m = Some f → m_boot s m = false → map_cap_has v f (cs s) = true) as Hall.
    { intros v m Hm Hf Hb. apply (Hst v m); try done. assert (m ∈ lf g f) as Hmf by (apply (lf_iff A x g s); eauto).
      pose proof (filter_head_none Em m Hmf) as Hn. cbv beta in Hn. apply (m_vs_iff A x g s v m Hi Hmf) in Hm as Hvs.
      rewrite Hb, (bool_decide_true (is_Some (m_vs s m))) in Hn by eauto. cbn in Hn. by apply negb_false_iff, Z.eqb_eq in Hn. }
    exists g. split; [apply all_authorised; [done|]|].
    { intros v m Hm Hf. destruct (m_boot s m) eqn:Hb; [by left|right; by apply (Hall v m)]. }
    split; [apply shrunk_refl|]. split; [apply flushed_refl|]. split; [done|]. split; [done|].
    intros v m Hm. split; [|done]. intros _ (Hf & Hb & Hn). by rewrite (Hall v m Hm Hf Hb) in Hn.
Qed.

Lemma finalise_frame_spec A x g s : vm_inv R A x g s → 0 ≤ x f → fin_epoch s + 1 < 2 ^ 64 →
  returns (finalise_frame unmap f s) (λ s', ∃ g', vm_inv R (λ o, A o ∨ o = f) x g' s' ∧ shrunk R g g' s s' ∧ flushed g g' s s' ∧
    has_same (cs s) (cs s') ∧ fin_epoch s' = fin_epoch s + 1 ∧ gone (orphan s) g g').
Proof.
  intros Hi Hx He. destruct (vi_epoch _ _ _ _ _ Hi) as [He0 Hel]. unfold finalise_frame. rewrite u64_id by lia.
  set (s1 := with_epochs (m_epoch s) (fin_epoch s + 1) s).
  assert (vm_inv R A x g s1) as Hi1 by (apply with_epochs_inv; [done|lia|]; intros v m Hm; specialize (Hel v m Hm); lia).
  destruct (with_epochs_shrunk g s (m_epoch s) (fin_epoch s + 1)) as [Hs Hf]. fold s1 in Hs, Hf.
  change (fin_epoch s + 1) with (fin_epoch s1) at 1.
  eapply returns_mono; [apply (finalise_loop_spec A x _ g s1); try done|].
  - intros v m Hm _ _ E. specialize (Hel v m Hm). cbn in E. lia.
  - unfold todo, framelen. destruct (vi_fcount _ _ _ _ _ Hi f) as [-> _].
    pose proof (length_filter (λ m, m_boot s1 m = false ∧ m_epoch s1 m ≠ fin_epoch s1) (lf g f)). lia.
  - intros s' (g' & Hi' & Hsh' & Hfl' & Hh' & Hep' & Hg'). exists g'. split; [done|]. split; [by eapply shrunk_trans|].
    split; [apply (flushed_trans g g g' s s1); [apply Hsh'|apply Hs|done|done]|]. done.
Qed.
End loops.

(** ** The two operations *)

(** A capability that is not there is not deleted, so nothing is finalised. *)
Lemma unmap_turns_orphan n A x g s v f va : vm_inv R A x g s → 0 ≤ x f → map_cap_has v f (cs s) = false →
  returns (unmap_turns (S n) f v va s) (unmap_post R A x g s v f va).
Proof. intros Hi Hx Hno. cbn [unmap_turns]. apply unmap_body_spec; [done|done|]. intros Ht. congruence. Qed.

(** In a state where every mapping has its authority nothing is an orphan. *)
Lemma finalise_settled A x g s f n : vm_inv R A x g s → A f → 0 ≤ x f → fin_epoch s + 1 < 2 ^ 64 →
  returns (finalise_frame (unmap_turns (S n)) f s) (settled R A x g s).
Proof.
  intros Hi HA Hx He. eapply returns_mono; [apply (finalise_frame_spec f (unmap_turns (S n)) (λ A x g s v va, unmap_turns_orphan n A x g s v f va) A x g s); done|].
  intros s' (g' & Hi' & Hsh & Hfl & Hh & _ & Hg). exists g'. split; [|split; [|done]].
  - destruct Hi'. split; try done. intros v m o Hm Hf Ho. apply (vi_auth v m o); auto.
  - intros v. apply sublist_full; [apply Hsh|eapply chain_nodup, (lo_v _ _ _ (vi_lists _ _ _ _ _ Hi) v)|].
    intros m Hm. apply (Hg v m Hm). intros (Hf & Hb & Hn). destruct (vi_auth _ _ _ _ _ Hi v m f Hm Hf HA); congruence.
Qed.

Lemma unmap_page_spec A x g s v f va : vm_inv R A x g s → A f → 0 ≤ x f → fin_epoch s + 1 < 2 ^ 64 →
  returns (kframe_unmap_page f v va s) (unmap_post R A x g s v f va).
Proof.
  intros Hi HA Hx He. unfold kframe_unmap_page. cbn [unmap_turns]. apply unmap_body_spec; [done|done|]. intros _ g1 s1 Hi1 Ee.
  apply (finalise_settled A (plus1 x f) g1 s1 f 0); [done|done| |by rewrite Ee]. unfold plus1. rewrite decide_True by done. lia.
Qed.

Lemma finalise_spec A x g s f : vm_inv R A x g s → 0 ≤ x f → fin_epoch s + 1 < 2 ^ 64 →
  returns (kvspace_finalise_frame f s) (λ s', ∃ g', vm_inv R (λ o, A o ∨ o = f) x g' s' ∧ shrunk R g g' s s' ∧ flushed g g' s s' ∧
    has_same (cs s) (cs s') ∧ fin_epoch s' = fin_epoch s + 1 ∧ gone (orphan f s) g g').
Proof.
  intros Hi Hx He. unfold kvspace_finalise_frame, kframe_unmap_page.
  apply (finalise_frame_spec f (unmap_turns 2) (λ A x g s v va, unmap_turns_orphan 1 A x g s v f va)); done.
Qed.
End final.
