(* ===== verification/VspaceInval.v ===== *)
(** * Invalidating a space

    [invalidate_spec]: [kvspace_invalidate] unmaps everything the space maps and
    nothing else.  The loop runs over a list the space no longer points at; [attach]
    is the state as if it still did. *)

From Stdlib Require Import ZArith Lia.
From stdpp Require Import base numbers list sets.
From S2P Require Import Prelude Rights Slist Pmm Paging PagingInv PagingSpec Vspace VspacePg VspaceInv VspaceMap VspaceOps VspaceUnmap VspaceFinal.
Local Open Scope Z_scope.

Section inval.
Context {C : Type} `{VmCapsOk C} (R : Z → Prop).
Implicit Types (s : vm C) (v f : N) (m : mnode) (g : ghost) (A : N → Prop) (va : Z) (x : N → Z).

Definition attach v h n s : vm C := let k := vss s v in
  put_vs v (VSpace (cr3 k) true n h (pt_pool k) (free_nodes k) (tables k)) s.

Lemma attach_at v h n s v' : vss (attach v h n s) v' =
  if decide (v' = v) then VSpace (cr3 (vss s v)) true n h (pt_pool (vss s v)) (free_nodes (vss s v)) (tables (vss s v)) else vss s v'.
Proof. unfold attach. cbn. unfold upd_fn. by case_decide. Qed.

Lemma attach_inv A x g s v : vm_inv R A x g s →
  vm_inv R A x g (attach v (mappings (vss s v)) (mapping_count (vss s v)) (put_vs v (set_invalid (vss s v)) s)).
Proof.
  intros Hi. pose proof Hi as []. set (s1 := attach _ _ _ _).
  assert (∀ v', cr3 (vss s1 v') = cr3 (vss s v') ∧ mapping_count (vss s1 v') = mapping_count (vss s v') ∧ mappings (vss s1 v') = mappings (vss s v') ∧
    free_nodes (vss s1 v') = free_nodes (vss s v') ∧ (valid (vss s v') = true → valid (vss s1 v') = true)) as E.
  { intros v'. subst s1. rewrite attach_at. cbn [vss put_vs]. rewrite !upd_fn_same.
    destruct (decide (v' = v)) as [->|Hv]; [done|]. by rewrite !upd_fn_other. }
  split; try done.
  - apply (lists_hd (λ v, mappings (vss s v))); [intros v'; symmetry; apply E|]. apply (lists_same _ g s); [|done].
    repeat split; try done. intros v'. apply E.
  - intros v'. destruct (E v') as (_ & -> & _). apply vi_vcount.
  - apply (pages_same R g g s s1); [done|done| |apply vi_pages|apply mem_eqv_refl]. split; [intros v'; apply E|]. done.
  - intros v' Hne. specialize (vi_usable v' Hne). unfold usable in *. destruct (E v') as (-> & _ & _ & _ & Hv).
    apply andb_true_iff in vi_usable as [? ?]. by rewrite Hv.
Qed.

Lemma detach_inv A x g s v : vm_inv R A x g (attach v None 0 s) → mappings (vss s v) = None → mapping_count (vss s v) = 0 →
  vm_inv R A x g s ∧ lv g v = [].
Proof.
  intros [] Em Ec. assert (lv g v = []) as Hnil.
  { pose proof (lo_v _ _ _ vi_lists v) as Hc. cbv beta in Hc. rewrite attach_at, decide_True in Hc by done. by inversion Hc. }
  assert (∀ v', cr3 (vss (attach v None 0 s) v') = cr3 (vss s v') ∧ mapping_count (vss (attach v None 0 s) v') = mapping_count (vss s v') ∧
    mappings (vss (attach v None 0 s) v') = mappings (vss s v') ∧ free_nodes (vss (attach v None 0 s) v') = free_nodes (vss s v') ∧
    (v' ≠ v → vss (attach v None 0 s) v' = vss s v')) as E.
  { intros v'. rewrite attach_at. case_decide; subst; [|done]. by rewrite Em, Ec. }
  split; [|done]. split; try done.
  - apply (lists_hd (λ v', mappings (vss (attach v None 0 s) v'))); [intros v'; apply E|]. apply (lists_same _ g (attach v None 0 s)); [|done].
    repeat split; try done. intros v'. symmetry. apply E.
  - intros v'. destruct (E v') as (_ & <- & _). apply vi_vcount.
  - apply (pages_same R g g (attach v None 0 s) s); [done|done| |apply vi_pages|apply mem_eqv_refl].
    split; [intros v'; symmetry; apply E|]. done.
  - intros v' Hne. destruct (decide (v' = v)) as [->|Hv]; [done|]. specialize (vi_usable v' Hne). unfold usable in *.
    destruct (E v') as (_ & _ & _ & _ & Ev). by rewrite (Ev Hv) in vi_usable.
Qed.
Lemma attach_shape v h n h' n' m s s' : kept m s s' → dropped m (attach v h n s) (attach v h' n' s') ∧
  (∀ v', valid (vss (attach v h' n' s') v') = valid (vss (attach v h n s) v')) ∧
  (∀ v', v' ≠ v → mappings (vss (attach v h' n' s') v') = mappings (vss (attach v h n s) v') ∧
     mapping_count (vss (attach v h' n' s') v') = mapping_count (vss (attach v h n s) v')).
Proof.
  intros Hk. pose proof (kept_dropped m s s' Hk) as (D1 & D2 & D3 & D4). destruct Hk as (_ & _ & _ & _ & _ & _ & Hvs & _).
  split; [|split].
  - split; [|split; [done|split; [done|done]]]. intros v'. destruct (D1 v') as (E1 & E2 & E3). unfold root in *. rewrite !attach_at.
    case_decide; subst; [|done]. cbn. done.
  - intros v'. rewrite !attach_at. case_decide; [done|]. by destruct (Hvs v') as [l ->].
  - intros v' Hv. rewrite !attach_at, !decide_False by done. by destruct (Hvs v') as [l ->].
Qed.

(** The state after one record of the list. *)
Definition swept A x g s v f m nxt n s' : Prop := ∃ g',
  vm_inv R A x g' (attach v nxt n s') ∧ lv g' = lv (drop v f m g) ∧
  shrunk R g g' (attach v (Some m) (n + 1) s) (attach v nxt n s') ∧ has_same (cs s) (cs s') ∧ ∃ l, vss s' v = set_free l (vss s v).

Lemma sweep_retire A x g s v m l f :
  let n := Z.of_nat (length l) in
  vm_inv R A x g (attach v (Some m) (n + 1) s) → lv g v = m :: l → m_frame s m = Some f →
  returns (s1 ← kvspace_node_free v m (kframe_unmap_all None (cr3 (vss s v)) f (m_va s m) s); Ret (mapped_dec f s1))
    (swept A (plus1 x f) g s v f m (m_next s m) n).
Proof.
  intros n Hi El Hf. set (t := attach v (Some m) (n + 1) s) in *. pose proof Hi as [].
  assert (m ∈ lv g v) as Hm by (rewrite El; left). assert (root v t = cr3 (vss s v)) as Er by (subst t; unfold root; by rewrite attach_at, decide_True).
  destruct (po_run _ _ _ vi_pages v m f Hm Hf) as (Hr & Hfo & Hu & Ha & Hb). rewrite Er in Hr. assert (1 ≤ npages s f) as Hn by exact (pages_pos _ Hfo).
  assert (R (cr3 (vss s v))) as HR by (rewrite <-Er; apply (po_root _ _ _ vi_pages); by rewrite Er).
  rewrite unmap_all_eq by (done || lia). cbn [shot app].
  destruct (unmap_pages_spec R (cr3 (vss s v)) (m_va s m) HR Hu (npages s f) (pg s)) as (Hw & Ht & _ & _ & Hun); [apply vi_pages|lia|done|].
  set (s1 := with_shoot (shoot s) (with_pg (unmap_pages (npages s f) (cr3 (vss s v)) (m_va s m) (pg s)) s)).
  assert (chain (m_next s) (m_next s m) l ∧ m ∉ l) as [Hcl Hml].
  { pose proof (lo_v _ _ _ vi_lists v) as Hc. cbv beta in Hc. subst t. rewrite attach_at, decide_True, El in Hc by done.
    apply mchain_head in Hc as (l' & [= <-] & ? & ?). done. }
  assert (filter (λ y, y ≠ m) (lv g v) = l) as Efl by (rewrite El, filter_cons_False by (by intros ?); by apply filter_other).
  apply returns_bind.
  eapply returns_mono; [apply (retire_spec (λ v, mappings (vss t v)) (λ v', mappings (vss (attach v (m_next s m) n s1) v')) g t s1 v f m)|].
  all: try done.
  - repeat split; try done. intros v'. subst t. rewrite attach_at. case_decide; by subst.
  - intros v' Hv'. subst t. rewrite !attach_at, !decide_False by done. done.
  - rewrite attach_at, decide_True by done. by rewrite Efl.
  - intros s2 (g' & Ev & Ef & Hl & Hfc & Ec & Hk). cbn [returns]. set (s3 := mapped_dec f s2) in *.
    destruct (attach_shape v (Some m) (n + 1) (m_next s m) n m s1 s3 Hk) as (Hd & Hval & Hoth).
    change (attach v (Some m) (n + 1) s1) with (with_pg (pg s1) t) in Hd, Hval, Hoth.
    assert (dropped m t (attach v (m_next s m) n s3)) as Hd' by exact Hd.
    assert (memory_of s3 = mem (unmap_pages (npages s f) (cr3 (vss s v)) (m_va s m) (pg s))) as Em by (unfold memory_of; by destruct Hk as (-> & _)).
    pose proof (drop_sub g g' v f m Ev) as Hsub.
    assert (m ∉ lv g' v) as Hout by (rewrite Ev; intros Hin; by apply (drop_in _ g t v f m v m vi_lists Hm) in Hin as [_ ?]).
    exists g'. split; [|split; [done|split; [|split; [intros v' o'; by rewrite Ec|by destruct Hk as (_ & _ & _ & _ & _ & _ & ? & _)]]]].
    + apply (drop_inv R A x g g' t _ v f m); try done.
      * apply (lists_hd (λ v', mappings (vss (attach v (m_next s m) n s1) v'))).
        -- intros v'. rewrite !attach_at. case_decide; [done|]. by destruct Hk as (_ & _ & _ & _ & _ & _ & E & _); destruct (E v') as [k ->].
        -- apply (lists_same _ g' s3); [|done]. repeat split; try done. intros v'. rewrite attach_at. case_decide; by subst.
      * intros v'. rewrite Ev. cbn [drop lv]. unfold upd_fn. destruct (decide (v' = v)) as [->|Hv'].
        -- rewrite attach_at, decide_True, Efl by done. done.
        -- destruct (Hoth v' Hv') as [_ ->]. apply vi_vcount.
      * intros v' Hne. unfold usable. rewrite Hval. assert (cr3 (vss (attach v (m_next s m) n s3) v') = cr3 (vss t v')) as -> by apply Hd'.
        apply vi_usable. intros E. apply Hne. specialize (Hsub v'). rewrite E in Hsub. by apply sublist_nil_r in Hsub.
      * change (memory_of (attach v (m_next s m) n s3)) with (memory_of s3). by rewrite Em.
      * change (memory_of (attach v (m_next s m) n s3)) with (memory_of s3). by rewrite Er, Em.
    + apply (run_unmapped_shrunk R g g' t _ v f m); try done.
      * apply (dropped_maps _ g g' t _ v f m vi_lists Hm Ev Hd'). exact Hval.
      * change (memory_of (attach v (m_next s m) n s3)) with (memory_of s3). by rewrite Em.
      * change (memory_of (attach v (m_next s m) n s3)) with (memory_of s3). by rewrite Er, Em.
Qed.
(** The record's reference goes. *)
Lemma swept_release A x g s v f m nxt n s1 :
  swept A (plus1 x f) g s v f m nxt n s1 → 0 ≤ x f → returns (do_cs (obj_release f) s1) (swept A x g s v f m nxt n).
Proof.
  intros (g' & Hi & Ev & Hsh & Hh & Hvs) Hx. pose proof (vm_release_spec R A x g' _ f Hi Hx) as Hr. unfold do_cs in *. cbn [cs attach put_vs] in Hr.
  destruct (obj_release f (cs s1)) as [c| |]; [|done..]. cbn [mbind res_bind returns] in *. destruct Hr as (c' & E & Hi' & Hsame).
  assert (c' = c) as -> by (by apply (f_equal cs) in E). exists g'.
  split; [exact Hi'|]. split; [done|]. split; [eapply shrunk_trans; [exact Hsh|exact (with_cs_shrunk R g' (attach v nxt n s1) c)]|].
  split; [intros v' o'; cbn; by rewrite Hsame, Hh|exact Hvs].
Qed.

Definition emptied A x g s v t s' : Prop := ∃ g', vm_inv R A x g' s' ∧ lv g' v = [] ∧ (∀ v', v' ≠ v → lv g' v' = lv g v') ∧
  shrunk R g g' t (attach v None 0 s') ∧ has_same (cs s) (cs s') ∧ valid (vss s' v) = valid (vss s v) ∧ cr3 (vss s' v) = cr3 (vss s v).

Lemma sweep_spec A x v fuel : (∀ o, 0 ≤ x o) → ∀ g s h,
  vm_inv R A x g (attach v h (Z.of_nat (length (lv g v))) s) → mappings (vss s v) = None → mapping_count (vss s v) = 0 →
  (length (lv g v) < fuel)%nat →
  returns (sweep fuel v (cr3 (vss s v)) h s) (emptied A x g s v (attach v h (Z.of_nat (length (lv g v))) s)).
Proof.
  intros Hx. induction fuel as [|fuel IH]; intros g s h Hi Em Ec Hlen; [lia|]. cbn [sweep].
  pose proof (lo_v _ _ _ (vi_lists _ _ _ _ _ Hi) v) as Hc. cbv beta in Hc. rewrite attach_at, decide_True in Hc by done. cbn in Hc.
  destruct h as [m|].
  - apply mchain_head in Hc as (l & El & Hc & Hml). assert (m ∈ lv g v) as Hm by (rewrite El; left).
    destruct (record_frame R A x g _ v m Hi Hm) as (f & Hf & _). change (m_frame s m = Some f) in Hf. rewrite Hf.
    destruct (po_run _ _ _ (vi_pages _ _ _ _ _ Hi) v m f Hm Hf) as (Hr & _). unfold root in Hr. rewrite attach_at, decide_True in Hr by done. cbn in Hr.
    rewrite (proj2 (Z.eqb_neq _ 0)) by done.
    assert (Z.of_nat (length (lv g v)) = Z.of_nat (length l) + 1) as En by (rewrite El; simpl; lia). rewrite En in Hi |- *.
    pose proof (sweep_retire A x g s v m l f Hi El Hf) as Hret. cbv zeta in Hret.
    destruct (kvspace_node_free v m _) as [s1| |]; [|done..]. cbn [mbind res_bind returns] in *.
    apply returns_bind. eapply returns_mono; [apply (swept_release A x g s v f m _ _ _ Hret (Hx f))|].
    intros s2 (g2 & Hi2 & Ev2 & Hsh2 & Hh2 & k & Ek).
    assert (lv g2 v = l) as El2.
    { rewrite Ev2. cbn [drop lv]. rewrite upd_fn_same, El, filter_cons_False by (by intros ?). by apply filter_other. }
    assert (cr3 (vss s v) = cr3 (vss s2 v)) as -> by (by rewrite Ek).
    rewrite <-El2 in Hi2. eapply returns_mono; [apply (IH g2 s2 (m_next s m) Hi2)|].
    { by rewrite Ek. } { by rewrite Ek. } { rewrite El2. rewrite El in Hlen. simpl in Hlen. lia. }
    intros s' (g' & Hi' & Hnil & Hoth & Hsh' & Hh' & Hv' & Hc'). exists g'. split; [done|]. split; [done|].
    split; [intros v' Hne; rewrite Hoth, Ev2 by done; cbn [drop lv]; by rewrite upd_fn_other|]. rewrite El2 in Hsh'.
    split; [by eapply shrunk_trans|]. split; [intros v' o'; by rewrite Hh', Hh2|]. rewrite Hv', Hc', Ek. done.
  - assert (lv g v = []) as Hnil by (by inversion Hc). rewrite Hnil in Hi |- *. cbn [length] in *. destruct (detach_inv A x g s v Hi Em Ec) as [Hi' Hn].
    exists g. split; [done|]. split; [done|]. split; [done|]. split; [apply shrunk_refl|]. done.
Qed.

Lemma invalidate_spec A x g s v : (∀ o, 0 ≤ x o) → vm_inv R A x g s →
  returns (kvspace_invalidate v s) (λ s', ∃ g', vm_inv R A x g' s' ∧ lv g' v = [] ∧ (∀ v', v' ≠ v → lv g' v' = lv g v') ∧
    valid (vss s' v) = false ∧ root v s' = root v s ∧ has_same (cs s) (cs s') ∧ same_tables R (memory_of s) (memory_of s') ∧
    (∀ v' m, m ∈ lv g' v' → m_frame s' m = m_frame s m ∧ m_va s' m = m_va s m ∧ m_boot s' m = m_boot s m) ∧
    (∀ c va, R c → uva va ∨ ¬ user va → (∀ m, root v s = c → m ∈ lv g v → ¬ covers s m va) →
       leaf (memory_of s') c va = leaf (memory_of s) c va)).
Proof.
  intros Hx Hi. unfold kvspace_invalidate. cbv zeta. set (s1 := put_vs v (set_invalid (vss s v)) s).
  pose proof (attach_inv A x g s v Hi) as Hia. fold s1 in Hia. destruct (vi_vcount _ _ _ _ _ Hi v) as [En _]. rewrite En in Hia |- *. rewrite Nat2Z.id.
  assert (vss s1 v = set_invalid (vss s v)) as Ev by (subst s1; cbn; by rewrite upd_fn_same).
  assert (cr3 (vss s v) = cr3 (vss s1 v)) as -> by (by rewrite Ev).
  eapply returns_mono; [apply (sweep_spec A x v); [done|done|by rewrite Ev|by rewrite Ev|lia]|].
  intros s' (g' & Hi' & Hnil & Hoth & Hsh & Hh & Hv & Hc). exists g'. split; [done|]. split; [done|]. split; [done|].
  split; [by rewrite Hv, Ev|]. split; [unfold root; by rewrite Hc, Ev|]. split; [done|]. split; [apply Hsh|].
  split. { destruct (sh_kept _ _ _ _ _ Hsh) as ((_ & _ & E) & Eb & _). intros v' m Hm. destruct (E v' m Hm) as [E1 E2].
           split_and!; [exact E1|exact E2|exact (Eb v' m Hm)]. }
  intros c va HR Hva Hn. apply (sh_leaf _ _ _ _ _ Hsh); [done|done|]. intros v' m Er Hm Hm' Hcov.
  destruct (decide (v' = v)) as [->|Hne]; [|by rewrite Hoth in Hm'].
  apply (Hn m); [|done|exact Hcov]. rewrite <-Er. unfold root. rewrite attach_at, decide_True by done. by rewrite Ev.
Qed.

(** [kvspace_unmap_page]: the record at an address, with its frame. *)
Lemma unmap_at_spec A x g s v va : (∀ o, 0 ≤ x o) → vm_inv R A x g s →
  returns (kvspace_unmap_page v va s) (λ '(e, s'),
    (e = IRIS_OK ∧ ∃ m f g', m ∈ lv g v ∧ m_va s m = va ∧ m_frame s m = Some f ∧ vm_inv R A x g' s' ∧ lv g' = lv (drop v f m g) ∧
       shrunk R g g' s s' ∧ has_same (cs s) (cs s') ∧ shoot s' = shoot s) ∨
    (s' = s ∧ (e = IRIS_ERR_BAD_HANDLE ∧ usable v s = false ∨ e = IRIS_ERR_NOT_FOUND ∧ ∀ m, m ∈ lv g v → m_va s m ≠ va))).
Proof.
  intros Hx Hi. pose proof Hi as []. unfold kvspace_unmap_page. destruct (usable v s) eqn:Hus; cbn [negb]; [|right; split; [done|by left]].
  rewrite (find_node_spec _ _ _ (lv g v)); [|apply (lo_v _ _ _ vi_lists v)|unfold maplen; destruct (vi_vcount v) as [-> _]; lia].
  cbn [mbind res_bind]. destruct (head _) as [m|] eqn:Em.
  2:{ right. split; [done|]. right. split; [done|]. intros m Hm E. pose proof (filter_head_none Em m Hm) as Hn. cbv beta in Hn.
      by rewrite E, Z.eqb_refl in Hn. }
  apply filter_head_in in Em as [Hm Hmv%Z.eqb_eq]. destruct (record_frame R A x g s v m Hi Hm) as (f & Hf & _). rewrite Hf.
  pose proof (retire_drop R A x g s v f m None Hi Hm Hf) as Hret. rewrite Hmv in Hret.
  destruct (take_mapping v m s) as [s1| |]; [|done..]. cbn [mbind res_bind] in *.
  destruct (kvspace_node_free v m _) as [s2| |]; [|done..]. cbn [mbind res_bind returns] in *.
  destruct Hret as [(g1 & Hi1 & Ev & Ef & Hsh & Ec & Hep) Hshoot].
  apply returns_bind. eapply returns_mono; [by apply (vm_release_spec R A x g1 _ f)|]. intros s4 (c & -> & Hi2 & Hsame). left.
  split; [done|]. exists m, f, g1. do 4 (split; [done|]). split; [done|]. split; [eapply shrunk_trans; [done|apply with_cs_shrunk]|].
  split; [intros v' o'; cbn; by rewrite Hsame, Ec|exact Hshoot].
Qed.
End inval.
