(* ===== verification/VspaceCaps.v ===== *)
(** * The capabilities of an address space (kernel/new_core/src/kvspace.c)

    A space keeps one capability per object it maps, in CNodes of 32 slots
    ([map_caps], at most 8) carved from its pool when the one before is full.  This is
    the implementation of [VmCaps] with the CNodes of [Kcnode.v] and the Untypeds of
    [Kuntyped.v].  An object is its address: the CNode at address [a] is [Z.to_N a]. *)

From Stdlib Require Import ZArith Lia.
From stdpp Require Import base numbers list.
From S2P Require Import Prelude Rights Kuntyped Mdb Kobject Kcnode Vspace.
Local Open Scope Z_scope.

Definition VSPACE_MAP_CAP_SLOTS : N := 32.
Definition VSPACE_MAP_CAP_CHUNKS : N := 8.
Definition VSPACE_MAP_CAP_TOTAL : N := VSPACE_MAP_CAP_SLOTS * VSPACE_MAP_CAP_CHUNKS.

(** [sizeof(struct KCNode)] is 48 and [sizeof(struct KCSlot)] is 88. *)
Definition KCNODE_ALLOC_SIZE (n : N) : Z := 48 + Z.of_N n * 88.
Definition SIZEOF_KFRAMEMAPPING : Z := 56.

Record vcaps := VCaps {
  kst      : kstate;
  uts      : ust;
  map_caps : N → N → option N;    (* vs->map_caps[ci] *)
}.
Implicit Types (c : vcaps) (v o ci i : N) (pool : option N).

Definition with_kst κ c : vcaps := VCaps κ (uts c) (map_caps c).
Definition with_uts u c : vcaps := VCaps (kst c) u (map_caps c).
Definition slot_object c cn i : option N := object (mdb (kst c)) (InNode cn i).

Definition set_chunk v ci cn (m : N → N → option N) : N → N → option N := upd_fn m v (upd_fn (m v) ci (Some cn)).

Definition kvspace_map_caps_chunk v pool ci c : res (iris_error_t * vcaps) :=
  if (VSPACE_MAP_CAP_CHUNKS <=? ci)%N then Ret (IRIS_ERR_NO_MEMORY, c)
  else match map_caps c v ci with
  | Some _ => Ret (IRIS_OK, c)
  | None =>
    match pool with
    | None => Ret (IRIS_ERR_NO_MEMORY, c)
    | Some p =>
      '(mem, u) ← kuntyped_alloc_child (Some p) (KCNODE_ALLOC_SIZE VSPACE_MAP_CAP_SLOTS) (uts c);
      match mem with
      | None => Ret (IRIS_ERR_NO_MEMORY, with_uts u c)
      | Some a =>
        match kcnode_alloc_at (Some (Z.to_N a)) VSPACE_MAP_CAP_SLOTS (kst c) with
        | None =>
            u ← kuntyped_release_child (Some a) (KCNODE_ALLOC_SIZE VSPACE_MAP_CAP_SLOTS) u;
            Ret (IRIS_ERR_NO_MEMORY, with_uts u c)
        | Some κ =>
            κ ← kobject_active_retain (Z.to_N a) κ;
            Ret (IRIS_OK, VCaps κ u (set_chunk v ci (Z.to_N a) (map_caps c)))
        end
      end
    end
  end.

(** CNode and slot of a global index. *)
Definition kvspace_map_cap_at v (g : N) c : option (N * N) :=
  if (VSPACE_MAP_CAP_TOTAL <=? g)%N then None
  else (λ cn, (cn, (g `mod` VSPACE_MAP_CAP_SLOTS)%N)) <$> map_caps c v (g / VSPACE_MAP_CAP_SLOTS)%N.

(** Slot 0 of the first chunk is the null slot. *)
Definition chunk_slots ci : list N :=
  if (ci =? 0)%N then tail (slot_indices VSPACE_MAP_CAP_SLOTS) else slot_indices VSPACE_MAP_CAP_SLOTS.
Definition chunk_index ci i : N := (ci * VSPACE_MAP_CAP_SLOTS + i)%N.

Fixpoint map_cap_search (cis : list N) v o c : option N :=
  match cis with
  | [] => None
  | ci :: cis =>
    match map_caps c v ci with
    | None => None
    | Some cn =>
      match List.find (λ i, bool_decide (slot_object c cn i = Some o)) (chunk_slots ci) with
      | Some i => Some (chunk_index ci i)
      | None => map_cap_search cis v o c
      end
    end
  end.

(** The global index, [None] for [VSPACE_MAP_CAP_TOTAL]. *)
Definition kvspace_map_cap_slot v o c : option N := map_cap_search (slot_indices VSPACE_MAP_CAP_CHUNKS) v o c.

(** The first free slot, in a chunk carved for it if the others are full. *)
Fixpoint free_slot_search (cis : list N) v pool c : res (iris_error_t * option N * vcaps) :=
  match cis with
  | [] => Ret (IRIS_OK, None, c)
  | ci :: cis =>
    '(e, c) ← kvspace_map_caps_chunk v pool ci c;
    if negb (bool_decide (e = IRIS_OK)) then Ret (e, None, c)
    else match map_caps c v ci with
    | None => Panic
    | Some cn =>
      match List.find (λ i, bool_decide (slot_object c cn i = None)) (chunk_slots ci) with
      | Some i => Ret (IRIS_OK, Some (chunk_index ci i), c)
      | None => free_slot_search cis v pool c
      end
    end
  end.

Definition MAP_CAP_RIGHTS : Z := Z.lor RIGHT_READ (Z.lor RIGHT_WRITE RIGHT_DUPLICATE).

Definition kvspace_map_cap_install v pool o (src : option (N * N)) c : res (iris_error_t * vcaps) :=
  '(e, g, c) ← free_slot_search (slot_indices VSPACE_MAP_CAP_CHUNKS) v pool c;
  if negb (bool_decide (e = IRIS_OK)) then Ret (e, c)
  else match g with
  | None => Ret (IRIS_ERR_NO_MEMORY, c)
  | Some g =>
    let at_g := kvspace_map_cap_at v g c in
    let cn := fst <$> at_g in
    let local := from_option snd 0%N at_g in
    '(e, κ) ← match src with
              | Some (scn, sidx) => kcnode_slot_install_sibling (Some scn) sidx cn local (kst c)
              | None => kcnode_mint cn local (Some o) MAP_CAP_RIGHTS (kst c)
              end;
    Ret (e, with_kst κ c)
  end.

Definition kvspace_map_cap_has_locked v o c : bool := bool_decide (is_Some (kvspace_map_cap_slot v o c)).

(** Whether there was a capability. *)
Definition kvspace_map_cap_drop_locked v o c : res (bool * vcaps) :=
  match kvspace_map_cap_slot v o c ≫= λ g, kvspace_map_cap_at v g c with
  | Some (cn, local) => '(_, κ) ← kcnode_slot_delete (Some cn) local (kst c); Ret (true, with_kst κ c)
  | None => Ret (false, c)
  end.

Definition lift_kst (f : kstate → res kstate) c : res vcaps := κ ← f (kst c); Ret (with_kst κ c).

#[global] Instance vspace_caps : VmCaps vcaps := {
  map_cap_has := kvspace_map_cap_has_locked;
  map_cap_install := kvspace_map_cap_install;
  map_cap_delete := kvspace_map_cap_drop_locked;
  obj_retain o := lift_kst (kobject_retain o);
  obj_release o := lift_kst (release o);
  rec_alloc p c := '(a, u) ← kuntyped_alloc_child_top (Some p) SIZEOF_KFRAMEMAPPING (uts c); Ret (a, with_uts u c);
}.
