(* ===== verification/VspaceCapsOk.v ===== *)
(** * The capabilities of an address space keep their laws

    [vspace_caps_ok]: the capability store of [VspaceCaps.v] satisfies [VmCapsOk].  The
    invariant [vc_inv] holds the one of the capability nodes ([kinv]), that a space's
    CNodes are its own and hold only frames and page tables, each at most once, and
    that the free memory of the Untypeds holds no object. *)

From Stdlib Require Import ZArith Lia Sorted.
From stdpp Require Import base numbers gmap list sets.
From S2P Require Import Prelude Rights Forest Kuntyped Mdb Cdt Kobject Kcnode KcnodeInv KcnodeRevoke KcnodeInstall KcnodeBoot.
From S2P Require Import Vspace VspaceInv VspaceCaps.
Local Open Scope Z_scope.

(** ** Free memory of the Untypeds *)

Definition free u (a : Z) : Prop := phys_base u + used u ≤ a < phys_base u + total_size u - used_top u.
Definition is_free s (a : Z) : Prop := ∃ i u, tbl s i = Some u ∧ free u a.
Definition room_left u : Z := total_size u - used u - used_top u.

(** The counts cannot wrap before the memory is used up: a child takes 64 bytes. *)
Definition ut_room u : Prop := 1 ≤ ut_refcount u ∧ 0 ≤ child_count u ∧
  64 * (ut_refcount u + 1) + room_left u < 2 ^ 38 ∧ 64 * (child_count u + 1) + room_left u < 2 ^ 38.

Record ut_inv s : Prop := UtInv {
  ui_ok  : ∀ i u, tbl s i = Some u → ut_ok u ∧ ut_room u;
  ui_sep : ∀ i j u w a, tbl s i = Some u → tbl s j = Some w → free u a → free w a → i = j;
}.

Definition carve_post s (r : option Z * ust) : Prop :=
  ut_inv r.2 ∧ (∀ a, is_free r.2 a → is_free s a) ∧ (∀ j, is_Some (tbl s j) → is_Some (tbl r.2 j)) ∧
  ∀ q, r.1 = Some q → is_free s q ∧ ¬ is_free r.2 q ∧ 0 < q.

Lemma carve_none s : ut_inv s → carve_post s (None, s).
Proof. intros Hs. unfold carve_post. split_and!; cbn; [done|done|done|by intros]. Qed.

Lemma room_child u : ut_ok u → ut_room u → child_room u 1.
Proof. intros [] (H1 & H2 & H3 & H4). unfold child_room, room_left in *. lia. Qed.

Lemma carved_post i q n u s u' s' :
  ut_inv s → tbl s i = Some u → 64 < n → carved i (q - 64) n u s u' s' →
  ut_refcount u' = ut_refcount u + 1 → child_count u' = child_count u + 1 → carve_post s (Some q, s').
Proof.
  intros [Hok Hsep] Hu Hn [Ht Hok' (Eb & Es & _) _ Htook _ _ Hoth] Hr Hc.
  destruct (Hok i u Hu) as [Hok0 (R1 & R2 & R3 & R4)]. pose proof Hok0 as [A1 A2 A3 A4 A5]. pose proof Hok' as [B1 B2 B3 B4 B5].
  assert (free u q ∧ ¬ free u' q ∧ (∀ a, free u' a → free u a) ∧ room_left u' + 64 ≤ room_left u) as (Fq & Fq' & Fsub & Froom).
  { unfold free, room_left, took_bottom, took_top in *. rewrite Eb, Es in *.
    destruct Htook as [(T1 & T2 & T3)|(T1 & T2 & T3 & T4)]; split_and!; try lia; intros a; lia. }
  assert (∀ j w', tbl s' j = Some w' → ∃ w, tbl s j = Some w ∧ ∀ a, free w' a → free w a) as Hback.
  { intros j w' Hw. destruct (decide (j = i)) as [->|Hne]; [|rewrite Hoth in Hw by done; eauto].
    assert (w' = u') as -> by congruence. eauto. }
  split; [|split; [|split]]; cbn.
  - split.
    + intros j w Hw. destruct (decide (j = i)) as [->|Hne]; [|rewrite Hoth in Hw by done; by apply (Hok j)].
      assert (w = u') as -> by congruence. split; [done|]. unfold ut_room. lia.
    + intros j k w w' a Hj Hk Fj Fk. destruct (Hback j w Hj) as (w1 & Hj1 & F1), (Hback k w' Hk) as (w2 & Hk1 & F2).
      by apply (Hsep j k w1 w2 a); auto.
  - intros a (j & w' & Hw & Hf). destruct (Hback j w' Hw) as (w & Hw1 & F). exists j, w. auto.
  - intros j [w Hw]. destruct (decide (j = i)) as [->|Hne]; [by exists u'|]. rewrite Hoth by done. by exists w.
  - intros q' [= <-]. split; [by exists i, u|]. split; [|unfold free in Fq; lia].
    intros (j & w' & Hw & Hf). destruct (decide (j = i)) as [->|Hne]; [by assert (w' = u') as -> by congruence|].
    rewrite Hoth in Hw by done. apply Hne. by apply (Hsep j i w' u q).
Qed.

Lemma alloc_child_post i bytes s : ut_inv s → is_Some (tbl s i) → 0 < bytes < 2 ^ 64 - 64 →
  returns (kuntyped_alloc_child (Some i) bytes s) (carve_post s).
Proof.
  intros Hs [u Hu] Hb. destruct (ui_ok _ Hs i u Hu) as [Hok Hroom].
  eapply returns_mono; [apply (alloc_child_spec i u); [done|done|by apply room_child|lia]|].
  intros [[q|] s']; [|intros ->; by apply carve_none]. intros (n & u' & _ & Hn & _ & Hcv & _ & Hr & Hc).
  apply (carved_post i q n u s u' s'); [done|done|lia|done|done|done].
Qed.

Lemma alloc_top_post i bytes s : ut_inv s → is_Some (tbl s i) → 0 < bytes < 2 ^ 64 →
  returns (kuntyped_alloc_child_top (Some i) bytes s) (carve_post s).
Proof.
  intros Hs [u Hu] Hb. destruct (ui_ok _ Hs i u Hu) as [Hok Hroom].
  eapply returns_mono; [apply (alloc_child_top_spec i u); [done|done|by apply room_child|lia]|].
  intros [[q|] s']; [|intros ->; by apply carve_none]. intros (n & u' & Hn & _ & _ & Hcv & _ & Hr & Hc).
  apply (carved_post i q n u s u' s'); [done|done|lia|done|done|done].
Qed.

(** ** Operations on objects that are not CNodes

    Frames and page tables have no slots, so what happens to their references leaves
    the slots alone. *)

Implicit Types (κ : kstate) (o cn i : N) (c : vcaps) (h hl ha : N → Z).

Definition mappable κ o : Prop := ∃ k, objs κ o = Some k ∧ (otype k = KOBJ_FRAME ∨ otype k = KOBJ_PAGE_TABLE).

(** Only [o] changed, and not its type. *)
Definition only_obj o κ κ' : Prop := (∀ x, x ≠ o → objs κ' x = objs κ x) ∧
  ∀ k', objs κ' o = Some k' → ∃ k, objs κ o = Some k ∧ otype k' = otype k ∧ slot_count k' = slot_count k.

Lemma only_obj_trans o κ1 κ2 κ3 : only_obj o κ1 κ2 → only_obj o κ2 κ3 → only_obj o κ1 κ3.
Proof.
  intros [A1 A2] [B1 B2]. split; [intros x Hx; by rewrite B1, A1|].
  intros k3 (k2 & Hk2 & ? & ?)%B2. destruct (A2 k2 Hk2) as (k1 & ? & ? & ?). exists k1. split_and!; congruence.
Qed.

Lemma only_obj_same o κ κ' : objs κ' = objs κ → only_obj o κ κ'.
Proof. intros E. split; [by rewrite E|]. rewrite E. eauto. Qed.

Lemma only_obj_upd o k k' κ : objs κ o = Some k → otype k' = otype k → slot_count k' = slot_count k →
  only_obj o κ (with_objs (upd_fn (objs κ) o (Some k')) κ).
Proof.
  intros Hk Ht Hs. split; cbn; [intros x Hx; by rewrite upd_fn_other|]. rewrite upd_fn_same. intros ? [= <-]. eauto.
Qed.

Lemma only_mappable o κ κ' x : only_obj o κ κ' → mappable κ x → x ≠ o ∨ is_Some (objs κ' o) → mappable κ' x.
Proof.
  intros [E1 E2] (k & Hk & Ht) Hx. destruct (decide (x = o)) as [->|Hne]; [|exists k; by rewrite E1].
  destruct Hx as [?|[k' Hk']]; [done|]. destruct (E2 k' Hk') as (k0 & Hk0 & Ht0 & _). exists k'. split; [done|].
  assert (k0 = k) as -> by congruence. by rewrite Ht0.
Qed.

Lemma returns_with {A} (m : res A) (P Q : A → Prop) : returns m P → (∀ a, m = Ret a → Q a) → returns m (λ a, P a ∧ Q a).
Proof. destruct m; simpl; auto. Qed.

Lemma bind_ret {A B} (m : res A) (f : A → res B) b : m ≫= f = Ret b → ∃ a, m = Ret a ∧ f a = Ret b.
Proof. destruct m as [a| |]; simpl; [eauto|done..]. Qed.

Lemma get_obj_ret o κ k : get_obj o κ = Ret k → objs κ o = Some k.
Proof. unfold get_obj. destruct (objs κ o); cbn; congruence. Qed.

Lemma assert_ret b u : iris_assert b = Ret u → b = true.
Proof. by destruct b. Qed.

Lemma active_release_exact rec o κ κ' : kobject_active_release (dispatch_close rec) o κ = Ret κ' → mappable κ o →
  mdb κ' = mdb κ ∧ only_obj o κ κ' ∧ is_Some (objs κ' o).
Proof.
  unfold kobject_active_release. intros (k & Hk%get_obj_ret & (u & _ & E)%bind_ret)%bind_ret (k0 & Hk0 & Ht).
  assert (k0 = k) as -> by congruence. rewrite (upd_obj_Some _ _ _ _ Hk) in E. set (κ1 := with_objs _ κ) in E.
  assert (only_obj o κ κ1 ∧ objs κ1 o = Some (set_active_refs (u32 (active_refs k - 1)) k)) as [Ho1 Hk1].
  { split; [by apply (only_obj_upd o k)|]. subst κ1. cbn. by rewrite upd_fn_same. }
  destruct (active_refs k =? 1); [|injection E as <-; by rewrite Hk1].
  unfold dispatch_close, kobject_dispatch_close, get_obj in E. rewrite Hk1 in E. cbn in E.
  destruct Ht as [Ht|Ht]; rewrite Ht in E; cbn in E; injection E as <-; cbn; by rewrite upd_fn_same.
Qed.

Lemma release_exact rec o κ κ' : kobject_release (dispatch_destroy rec) o κ = Ret κ' → mappable κ o →
  mdb κ' = mdb κ ∧ only_obj o κ κ'.
Proof.
  unfold kobject_release. intros (k & Hk%get_obj_ret & (u & _ & E)%bind_ret)%bind_ret (k0 & Hk0 & Ht).
  assert (k0 = k) as -> by congruence. rewrite (upd_obj_Some _ _ _ _ Hk) in E. set (κ1 := with_objs _ κ) in E.
  assert (only_obj o κ κ1 ∧ objs κ1 o = Some (set_refcount (u32 (refcount k - 1)) k)) as [Ho1 Hk1].
  { split; [by apply (only_obj_upd o k)|]. subst κ1. cbn. by rewrite upd_fn_same. }
  destruct (refcount k =? 1); [|by injection E as <-].
  unfold dispatch_destroy, kobject_dispatch_destroy, get_obj in E. rewrite Hk1 in E. cbn in E.
  destruct Ht as [Ht|Ht]; rewrite Ht in E; cbn in E; injection E as <-; (split; [done|]);
    (split; cbn; [intros x Hx; by rewrite !upd_fn_other|]); by rewrite upd_fn_same.
Qed.

Lemma drop_old_exact rec cn o κ κ' : kcnode_slot_drop_old rec cn (Some o) κ = Ret κ' → mappable κ o → o ≠ cn →
  mdb κ' = mdb κ ∧ only_obj o κ κ'.
Proof.
  unfold kcnode_slot_drop_old.
  intros (κ1 & E1 & (k & Hk%get_obj_ret & E2)%bind_ret)%bind_ret Hm Hne. rewrite (proj2 (N.eqb_neq o cn)) in E1 by done.
  destruct (active_release_exact rec o κ κ1 E1 Hm) as (Em & Ho & Hs).
  set (κ2 := match otype k with KOBJ_FRAME | KOBJ_PAGE_TABLE => _ | _ => κ1 end) in E2.
  assert (mdb κ2 = mdb κ1 ∧ objs κ2 = objs κ1) as [Em2 Eo2] by (subst κ2; by destruct (otype k)).
  assert (only_obj o κ κ2) as Ho2 by (eapply only_obj_trans; [done|by apply only_obj_same]).
  destruct (release_exact rec o κ2 κ' E2) as [Em3 Ho3]; [apply (only_mappable o κ); [done|done|right; by rewrite Eo2]|].
  split; [congruence|by eapply only_obj_trans].
Qed.

(** Deleting a slot that names a frame or a page table empties that slot only. *)
Lemma delete_exact hl ha κ cn i o : kinv hl ha κ → object (mdb κ) (InNode cn i) = Some o → mappable κ o → o ≠ cn →
  returns (kcnode_slot_delete (Some cn) i κ) (λ '(_, κ'), kinv hl ha κ' ∧
    (∀ s, object (mdb κ') s = upd_fn (object (mdb κ)) (InNode cn i) None s) ∧ only_obj o κ κ').
Proof.
  intros Hκ Ho Hm Hne. cbn [kcnode_slot_delete].
  eapply returns_mono; [apply returns_with; [apply (slot_delete_spec _ hl ha); [done|apply slot_fuel_enough]|exact (λ a E, E)]|].
  intros [e κ'] [[[Hi _ _] _] E]. split; [done|]. unfold slot_fuel in E. cbn [slot_delete] in E. unfold slot_delete_body in E.
  pose proof (kcnode_slot_delete_locked_spec hl ha cn i κ Hκ) as Hl. apply bind_ret in E as ([[r κ1] old] & E1 & E).
  rewrite E1 in Hl. destruct Hl as (_ & _ & Hn & -> & _ & Hold). rewrite Ho in Hold, E. destruct Hold as (_ & _ & _ & Hcdt).
  apply bind_ret in E as (κ2 & E2 & E). injection E as _ ->. pose proof (delete_locked_objs _ _ _ _ _ _ E1) as Eo.
  destruct (drop_old_exact _ _ _ _ _ E2) as [Em Hob]; [destruct Hm as (k & ? & ?); exists k; by rewrite Eo|done|].
  split; [|eapply only_obj_trans; [by apply only_obj_same|done]].
  intros s. rewrite Em. unfold upd_fn. case_decide as Hd; [by subst|]. apply cdt_caps_object. destruct Hcdt as [Hc _]. rewrite Hc. cbn.
  by rewrite upd_fn_other.
Qed.

Lemma install_fail_code cn old b o e κ e' κ' : install_fail cn old b o e κ = Ret (e', κ') → e' = e.
Proof. unfold install_fail. intros (? & _ & (? & _ & (? & _ & [= <- _])%bind_ret)%bind_ret)%bind_ret. done. Qed.

Definition took_refs k : KObject := set_active_refs (u32 (active_refs k + 1)) (set_refcount (u32 (refcount k + 1)) k).

Lemma retain_ret o κ κ' : kobject_retain o κ = Ret κ' →
  ∃ k, objs κ o = Some k ∧ κ' = with_objs (upd_fn (objs κ) o (Some (set_refcount (u32 (refcount k + 1)) k))) κ.
Proof.
  unfold kobject_retain. intros (k & Hk%get_obj_ret & (u & _ & E)%bind_ret)%bind_ret. exists k. split; [done|].
  injection E as <-. by rewrite (upd_obj_Some _ _ _ _ Hk).
Qed.
Lemma active_retain_ret o κ κ' : kobject_active_retain o κ = Ret κ' →
  ∃ k, objs κ o = Some k ∧ κ' = with_objs (upd_fn (objs κ) o (Some (set_active_refs (u32 (active_refs k + 1)) k))) κ.
Proof.
  unfold kobject_active_retain. intros (k & Hk%get_obj_ret & E)%bind_ret. exists k. split; [done|].
  injection E as <-. by rewrite (upd_obj_Some _ _ _ _ Hk).
Qed.

(** An install into an empty slot takes the two references of its object. *)
Lemma install_fresh_refs cn i o r b parent pe excl unp κ κ' :
  kcnode_slot_install_linked (Some cn) i (Some o) r b parent pe excl unp κ = Ret (IRIS_OK, κ') →
  object (mdb κ) (InNode cn i) = None → o ≠ cn →
  ∃ k, objs κ o = Some k ∧ ∀ x, objs κ' x = upd_fn (objs κ) o (Some (took_refs k)) x.
Proof.
  intros E Hn Hne. unfold kcnode_slot_install_linked in E.
  destruct (r =? RIGHT_NONE); [done|]. destruct (match parent with Some _ => _ | None => _ end); [done|]. destruct (_ && _); [done|].
  rewrite (proj2 (N.eqb_neq o cn)) in E by done.
  apply bind_ret in E as (κ0 & (k & Hk & ->)%retain_ret & (κ1 & (k1 & Hk1 & ->)%active_retain_ret & ([[de κ2] old] & E2 & E)%bind_ret)%bind_ret).
  cbn in Hk1. rewrite upd_fn_same in Hk1. injection Hk1 as <-. exists k. split; [done|].
  assert (objs κ2 = upd_fn (upd_fn (objs κ) o (Some (set_refcount (u32 (refcount k + 1)) k))) o (Some (took_refs k)) ∧ old = None) as [Eo ->].
  { destruct excl; [by injection E2 as _ <- <-|]. split; [by apply delete_locked_objs in E2|].
    unfold kcnode_slot_delete_locked in E2. destruct (negb _); [by injection E2|]. cbn [mdb with_objs] in E2. rewrite Hn in E2. by injection E2. }
  destruct (negb _) eqn:Hde in E; [apply install_fail_code in E as <-; by rewrite bool_decide_true in Hde|].
  destruct (negb _) in E; [by apply install_fail_code in E|]. destruct (parent_rejected _ _ _ _) in E; [by apply install_fail_code in E|].
  destruct (object _ _) in E; [by apply install_fail_code in E|]. cbn in E. injection E as <-. cbn. rewrite Eo.
  intros x. unfold upd_fn. by repeat case_decide.
Qed.

(** The slot is filled, and nothing else moves. *)
Lemma install_slot hl ha cn i o k r b parent pe excl unp κ :
  kinv hl ha κ → objs κ o = Some k → 1 ≤ refcount k → refcount k + active_refs k + 2 < 2 ^ 32 → o ≠ cn →
  object (mdb κ) (InNode cn i) = None → install_code κ cn i r parent pe excl = IRIS_OK →
  returns (kcnode_slot_install_linked (Some cn) i (Some o) r b parent pe excl unp κ) (λ '(e, κ'), e = IRIS_OK ∧ kinv hl ha κ' ∧
    (∀ s, object (mdb κ') s = upd_fn (object (mdb κ)) (InNode cn i) (Some o) s) ∧
    ∀ x, objs κ' x = upd_fn (objs κ) o (Some (took_refs k)) x).
Proof.
  intros Hκ Hk H1 Hb Hne Hn Hcode.
  eapply returns_mono; [apply returns_with; [by apply (install_linked_spec hl ha cn i o k)|exact (λ a E, E)]|].
  intros [e κ'] [[-> [Hi _ Hf _ _]] E]. rewrite Hcode in *. split; [done|]. split; [done|].
  destruct (install_fresh_refs _ _ _ _ _ _ _ _ _ _ _ E Hn Hne) as (k' & Hk' & Ho). assert (k' = k) as -> by congruence. split; [|done].
  intros s. destruct (Hf eq_refl Hn) as [Hc _]. specialize (Hc s). cbn in Hc. revert Hc. unfold upd_fn. case_decide as Hd.
  - destruct (object (mdb κ') s); cbn; congruence.
  - destruct (object (mdb κ') s), (object (mdb κ) s); cbn; congruence.
Qed.

Lemma parent_occupied σ s p : mdb_inv σ → mdb_parent σ s = Some p → object σ p ≠ None.
Proof.
  intros Hσ Hp Ho. destruct (mi_empty _ Hσ p Ho) as [Hiso _].
  by destruct (isolated_not_target _ _ (to_forest _ (mi_tree _ Hσ)) Hiso s).
Qed.

Definition cap_installed hl ha cn i o κ κ' : Prop := kinv hl ha κ' ∧
  (∀ s, object (mdb κ') s = upd_fn (object (mdb κ)) (InNode cn i) (Some o) s) ∧
  ∃ k, objs κ o = Some k ∧ ∀ x, objs κ' x = upd_fn (objs κ) o (Some (took_refs k)) x.

Definition room n o κ : Prop := ∃ k, objs κ o = Some k ∧ 1 ≤ refcount k ∧ refcount k + active_refs k + n < 2 ^ 32.

Lemma install_done hl ha cn i o r b parent pe excl unp κ :
  kinv hl ha κ → room 2 o κ → o ≠ cn → object (mdb κ) (InNode cn i) = None → install_code κ cn i r parent pe excl = IRIS_OK →
  returns (kcnode_slot_install_linked (Some cn) i (Some o) r b parent pe excl unp κ)
    (λ '(e, κ'), if decide (e = IRIS_OK) then cap_installed hl ha cn i o κ κ' else κ' = κ).
Proof.
  intros Hκ (k & Hk & H1 & Hb) Hne Hn Hcode. eapply returns_mono; [by apply (install_slot hl ha cn i o k)|].
  intros [e κ'] (-> & Hi & Hob & Hx). rewrite decide_True by done. split; [done|]. split; [done|]. by exists k.
Qed.

Lemma mint_done hl ha cn i o κ :
  kinv hl ha κ → room 2 o κ → o ≠ cn → object (mdb κ) (InNode cn i) = None → slot_in_range κ cn i = true →
  returns (kcnode_mint (Some cn) i (Some o) MAP_CAP_RIGHTS κ)
    (λ '(e, κ'), if decide (e = IRIS_OK) then cap_installed hl ha cn i o κ κ' else κ' = κ).
Proof.
  intros Hκ Hr Hne Hn Hin. apply install_done; try done. unfold install_code. cbn [parent_in_range parent_rejected].
  by rewrite Hin.
Qed.

(** The new capability's parent is the source's, or the source. *)
Lemma sibling_done hl ha scn sidx cn i o κ :
  kinv hl ha κ → room 2 o κ → o ≠ cn → object (mdb κ) (InNode cn i) = None → slot_in_range κ cn i = true →
  object (mdb κ) (InNode scn sidx) = Some o →
  returns (kcnode_slot_install_sibling (Some scn) sidx (Some cn) i κ)
    (λ '(e, κ'), if decide (e = IRIS_OK) then cap_installed hl ha cn i o κ κ' else κ' = κ).
Proof.
  intros Hκ Hr Hne Hn Hin Hsrc. unfold kcnode_slot_install_sibling. rewrite Hin, Hsrc. pose proof (ki_mdb _ _ _ Hκ) as Hσ.
  assert (∀ (d j : N), object (mdb κ) (InNode d j) ≠ None → slot_in_range κ d j = true) as Hocc.
  { intros d j Hj. apply (slot_in_range_mem hl ha); [done|]. destruct (decide (InNode d j ∈ mem (mdb κ))) as [|Hx]; [done|].
    by apply (mi_dom _ Hσ) in Hx. }
  rewrite Hocc by congruence. cbn [negb orb].
  destruct (rights (mdb κ) (InNode scn sidx) =? RIGHT_NONE) eqn:Hrt.
  { assert (∀ p e b, returns (kcnode_slot_install_linked (Some cn) i (Some o) (rights (mdb κ) (InNode scn sidx)) b p e true false κ)
      (λ '(e, κ'), if decide (e = IRIS_OK) then cap_installed hl ha cn i o κ κ' else κ' = κ)) as Hz.
    { intros p e b. unfold kcnode_slot_install_linked. by rewrite Hrt. }
    repeat case_match; apply Hz. }
  assert (∀ (d j : N) e b, object (mdb κ) (InNode d j) = Some e →
    returns (kcnode_slot_install_linked (Some cn) i (Some o) (rights (mdb κ) (InNode scn sidx)) b (Some (d, j)) (Some e) true false κ)
      (λ '(e, κ'), if decide (e = IRIS_OK) then cap_installed hl ha cn i o κ κ' else κ' = κ)) as Hgo.
  { intros d j e b Hj. apply install_done; try done. unfold install_code. cbn [parent_in_range parent_rejected].
    rewrite Hrt, Hin, Hocc, Hj, N.eqb_refl, Hn by congruence. rewrite bool_decide_false by congruence. done. }
  destruct (mdb_parent (mdb κ) (InNode scn sidx)) as [p|] eqn:Hp; [|by apply Hgo].
  pose proof (parent_occupied _ _ _ Hσ Hp) as Hpo. destruct p as [d j|]; [|by destruct (mdb_cnode _ _); apply Hgo].
  rewrite (mi_owner _ Hσ d j Hpo). destruct (object (mdb κ) (InNode d j)) as [e|] eqn:He; [|done]. by apply Hgo.
Qed.

(** ** The invariant *)

Definition is_chunk κ cn : Prop := ∃ k, objs κ cn = Some k ∧ otype k = KOBJ_CNODE ∧ slot_count k = VSPACE_MAP_CAP_SLOTS.

Record vc_inv h hl ha c : Prop := VcInv {
  vc_kinv  : kinv hl ha (kst c);
  vc_held  : ∀ o, h o ≤ hl o;
  vc_objs  : ∀ o, 1 ≤ h o → mappable (kst c) o;
  vc_chunk : ∀ v ci cn, map_caps c v ci = Some cn → (ci < VSPACE_MAP_CAP_CHUNKS)%N ∧ 1 ≤ hl cn ∧ is_chunk (kst c) cn ∧
    ∀ i o, slot_object c cn i = Some o → mappable (kst c) o;
  vc_dense : ∀ v ci ci' cn, map_caps c v ci = Some cn → (ci' < ci)%N → is_Some (map_caps c v ci');
  vc_inj   : ∀ v v' ci ci' cn, map_caps c v ci = Some cn → map_caps c v' ci' = Some cn → v = v' ∧ ci = ci';
  vc_once  : ∀ v ci ci' cn cn' i i' o, map_caps c v ci = Some cn → map_caps c v ci' = Some cn' →
    i ∈ chunk_slots ci → i' ∈ chunk_slots ci' → slot_object c cn i = Some o → slot_object c cn' i' = Some o → ci = ci' ∧ i = i';
  vc_ut    : ut_inv (uts c);
  vc_fresh : ∀ a, is_free (uts c) a → objs (kst c) (Z.to_N a) = None;
}.

(** ** Finding a slot *)

(** A slot of [v] that names [o]. *)
Definition holds c v o ci cn i : Prop := map_caps c v ci = Some cn ∧ i ∈ chunk_slots ci ∧ slot_object c cn i = Some o.

Lemma chunk_slots_lt ci i : i ∈ chunk_slots ci → (i < VSPACE_MAP_CAP_SLOTS)%N.
Proof.
  unfold chunk_slots. intros Hi. apply slot_indices_elem. destruct (ci =? 0)%N; [|done]. revert Hi.
  destruct (slot_indices VSPACE_MAP_CAP_SLOTS); [done|]. by right.
Qed.

Lemma cap_at_index v ci i c : (ci < VSPACE_MAP_CAP_CHUNKS)%N → i ∈ chunk_slots ci →
  kvspace_map_cap_at v (chunk_index ci i) c = (λ cn, (cn, i)) <$> map_caps c v ci.
Proof.
  intros Hc Hi%chunk_slots_lt. unfold kvspace_map_cap_at, chunk_index, VSPACE_MAP_CAP_TOTAL, VSPACE_MAP_CAP_SLOTS, VSPACE_MAP_CAP_CHUNKS in *.
  rewrite (proj2 (N.leb_gt _ _)) by lia.
  rewrite <-(N.div_unique (ci * 32 + i) 32 ci i), <-(N.mod_unique (ci * 32 + i) 32 ci i) by lia. done.
Qed.

Lemma find_none {A} (f : A → bool) l x : List.find f l = None → x ∈ l → f x = false.
Proof. intros Hf Hx. apply (List.find_none f l Hf). by apply list_elem_of_In. Qed.

Lemma search_some cis v o c g : map_cap_search cis v o c = Some g → ∃ ci cn i, ci ∈ cis ∧ g = chunk_index ci i ∧ holds c v o ci cn i.
Proof.
  induction cis as [|ci cis IH]; cbn; [done|]. destruct (map_caps c v ci) as [cn|] eqn:Hc; [|done].
  destruct (List.find _ _) as [i|] eqn:Hf.
  - intros [= <-]. apply List.find_some in Hf as [Hi Hb%bool_decide_eq_true]. exists ci, cn, i. apply list_elem_of_In in Hi.
    split; [left|]. done.
  - intros (ci' & cn' & i & Hin & Hg & Hh)%IH. exists ci', cn', i. split; [by right|done].
Qed.

Lemma search_none cis v o c : StronglySorted N.lt cis → (∀ ci ci' cn, map_caps c v ci = Some cn → (ci' < ci)%N → is_Some (map_caps c v ci')) →
  map_cap_search cis v o c = None → ∀ ci cn i, ci ∈ cis → ¬ holds c v o ci cn i.
Proof.
  intros Hs Hd. induction Hs as [|ci cis Hs IH Hlt]; cbn; intros Hn ci' cn' i Hin (Hm & Hi & Ho); [by apply elem_of_nil in Hin|].
  destruct (map_caps c v ci) as [cn|] eqn:Hc.
  - destruct (List.find _ _) eqn:Hf; [done|]. apply elem_of_cons in Hin as [->|Hin]; [|by apply (IH Hn ci' cn' i)].
    assert (cn' = cn) as -> by congruence. pose proof (find_none _ _ _ Hf Hi) as Hb. cbv beta in Hb. by rewrite bool_decide_true in Hb.
  - apply elem_of_cons in Hin as [->|Hin]; [congruence|]. rewrite Forall_forall in Hlt.
    destruct (Hd ci' ci cn' Hm (Hlt ci' Hin)) as [? ?]. congruence.
Qed.

Lemma chunks_sorted : StronglySorted N.lt (slot_indices VSPACE_MAP_CAP_CHUNKS).
Proof. vm_compute. repeat constructor. Qed.

Lemma cap_slot_some h hl ha c v o g : vc_inv h hl ha c → kvspace_map_cap_slot v o c = Some g →
  ∃ ci cn i, kvspace_map_cap_at v g c = Some (cn, i) ∧ holds c v o ci cn i.
Proof.
  intros Hc (ci & cn & i & Hci%slot_indices_elem & -> & Hh)%search_some. exists ci, cn, i. split; [|done].
  destruct Hh as (Hm & Hi & _). by rewrite cap_at_index, Hm.
Qed.

Lemma has_iff h hl ha c v o : vc_inv h hl ha c → kvspace_map_cap_has_locked v o c = true ↔ ∃ ci cn i, holds c v o ci cn i.
Proof.
  intros Hc. unfold kvspace_map_cap_has_locked. rewrite bool_decide_eq_true. split.
  - intros [g Hg]. destruct (cap_slot_some _ _ _ _ _ _ _ Hc Hg) as (ci & cn & i & _ & Hh). eauto.
  - intros (ci & cn & i & Hh). destruct (kvspace_map_cap_slot v o c) eqn:Hn; [done|]. exfalso.
    apply (search_none _ _ _ _ chunks_sorted (λ ci ci' cn, vc_dense _ _ _ _ Hc v ci ci' cn) Hn ci cn i); [|done].
    apply slot_indices_elem. by apply (vc_chunk _ _ _ _ Hc v ci cn), Hh.
Qed.

Lemma has_same_iff h hl ha h' hl' ha' c c' v o : vc_inv h hl ha c → vc_inv h' hl' ha' c' →
  ((∃ ci cn i, holds c' v o ci cn i) ↔ ∃ ci cn i, holds c v o ci cn i) →
  kvspace_map_cap_has_locked v o c' = kvspace_map_cap_has_locked v o c.
Proof.
  intros Hc Hc' Hb. apply eq_true_iff_eq. by rewrite (has_iff h' hl' ha' c'), (has_iff h hl ha c), Hb by done.
Qed.

(** ** Steps of the capability nodes *)

Lemma chunk_not_mappable κ cn : is_chunk κ cn → ¬ mappable κ cn.
Proof. intros (k & Hk & Ht & _) (k' & Hk' & Ht'). assert (k' = k) as -> by congruence. rewrite Ht in Ht'. by destruct Ht'. Qed.

(** One object's references changed, and slots that name it. *)
Lemma vc_step h h' hl ha hl' ha' c κ' o :
  vc_inv h hl ha c → kinv hl' ha' κ' → only_obj o (kst c) κ' → mappable (kst c) o →
  (∀ x, h' x ≤ hl' x) → (∀ x, x ≠ o → h' x = h x ∧ hl' x = hl x) →
  (∀ s x, object (mdb κ') s = Some x → object (mdb (kst c)) s = Some x ∨ x = o) →
  (∀ v ci ci' cn cn' i i', holds (with_kst κ' c) v o ci cn i → holds (with_kst κ' c) v o ci' cn' i' → ci = ci' ∧ i = i') →
  vc_inv h' hl' ha' (with_kst κ' c).
Proof.
  intros [] Hκ' Hob Hm Hh Hx Hslot Honce.
  assert (∀ s x, object (mdb κ') s = Some x → mappable (kst c) x → mappable κ' x) as Hlive.
  { intros s x Hs Hmx. destruct (slot_object_live _ _ _ _ _ Hκ' Hs) as (k & Hk & _).
    apply (only_mappable o (kst c)); [done|done|]. destruct (decide (x = o)) as [->|]; [right; by exists k|by left]. }
  split; cbn [with_kst kst uts map_caps]; try done.
  - intros x H1. destruct (decide (x = o)) as [->|Hne].
    + apply (only_mappable o (kst c)); [done|done|right]. destruct (kinv_live _ _ _ o Hκ') as [k Hk]; [specialize (Hh o); lia|by exists k].
    + destruct (Hx x Hne) as [E _]. rewrite E in H1. apply (only_mappable o (kst c)); [done|by apply vc_objs0|by left].
  - intros v ci cn Hc. destruct (vc_chunk0 v ci cn Hc) as (H1 & H2 & H3 & H4).
    assert (cn ≠ o) as Hne by (intros ->; by apply (chunk_not_mappable _ _ H3)). destruct (Hx cn Hne) as [_ ->].
    split; [done|]. split; [done|]. split; [destruct H3 as (k & ? & ? & ?); exists k; by rewrite (proj1 Hob)|].
    intros i x Hs. apply (Hlive _ _ Hs). destruct (Hslot _ _ Hs) as [Hs'| ->]; [by apply (H4 i)|done].
  - intros v ci ci' cn cn' i i' x Hc Hc' Hi Hi' Hs Hs'. unfold slot_object in *. cbn in Hs, Hs'.
    destruct (decide (x = o)) as [->|Hne]; [by apply (Honce v ci ci' cn cn' i i')|].
    destruct (Hslot _ _ Hs) as [Hs1| ->]; [|done]. destruct (Hslot _ _ Hs') as [Hs2| ->]; [|done].
    by apply (vc_once0 v ci ci' cn cn' i i' x).
  - intros a Ha. specialize (vc_fresh0 a Ha). rewrite (proj1 Hob); [done|]. intros E. rewrite E in vc_fresh0. destruct Hm as (k & ? & _). congruence.
Qed.

Definition vc_ok h c : Prop := ∃ hl ha, vc_inv h hl ha c.
Definition vc_room (n : Z) o c : Prop := mappable (kst c) o ∧ room n o (kst c).

Lemma once_same h hl ha c κ' v o ci ci' cn cn' i i' : vc_inv h hl ha c → (∀ s x, object (mdb κ') s = Some x → object (mdb (kst c)) s = Some x) →
  holds (with_kst κ' c) v o ci cn i → holds (with_kst κ' c) v o ci' cn' i' → ci = ci' ∧ i = i'.
Proof.
  intros Hc Hs (M1 & I1 & O1) (M2 & I2 & O2). apply (vc_once _ _ _ _ Hc v ci ci' cn cn' i i' o); try done; by apply Hs.
Qed.

Lemma retain_law h c o : vc_ok h c → vc_room 1 o c →
  returns (lift_kst (kobject_retain o) c) (λ c', vc_ok (hold h o 1) c' ∧
    (∀ v' o', kvspace_map_cap_has_locked v' o' c' = kvspace_map_cap_has_locked v' o' c) ∧ uts c' = uts c).
Proof.
  intros (hl & ha & Hc) [Hm (k & Hk & H1 & Hb)]. unfold lift_kst.
  destruct (kobject_retain_spec hl ha (kst c) o k (vc_kinv _ _ _ _ Hc) Hk H1) as [-> Hκ]; [lia|]. cbn [mbind res_bind returns].
  set (κ' := with_objs _ _) in *. assert (vc_inv (hold h o 1) (hold hl o 1) ha (with_kst κ' c)) as Hc'.
  { apply (vc_step h _ hl ha _ _ c κ' o); try done.
    - by apply (only_obj_upd o k).
    - intros x. unfold hold. pose proof (vc_held _ _ _ _ Hc x). case_decide; lia.
    - intros x Hx. by rewrite !hold_ne.
    - intros s x Hs. by left.
    - intros v ci ci' cn cn' i i'. by apply (once_same h hl ha). }
  split; [by exists (hold hl o 1), ha|]. split; [|done]. intros v' o'. by apply (has_same_iff h hl ha (hold h o 1) (hold hl o 1) ha).
Qed.

Lemma release_law h c o : vc_ok h c → 1 ≤ h o →
  returns (lift_kst (release o) c) (λ c', vc_ok (hold h o (-1)) c' ∧
    (∀ v' o', kvspace_map_cap_has_locked v' o' c' = kvspace_map_cap_has_locked v' o' c) ∧ uts c' = uts c).
Proof.
  intros (hl & ha & Hc) H1. unfold lift_kst. pose proof (vc_objs _ _ _ _ Hc o H1) as Hm. pose proof (vc_held _ _ _ _ Hc o) as Hh.
  apply returns_bind. eapply returns_mono; [apply returns_with; [apply (release_spec (hold hl o (-1)) ha (λ _, False))|exact (λ κ E, release_exact _ _ _ _ E Hm)]|].
  { apply (kinv_ext hl ha); [|done|apply Hc]. intros x. unfold hold. case_decide; lia. }
  { rewrite hold_same. lia. }
  intros κ' [[Hκ _ _] [Em Hob]]. cbn [returns]. assert (vc_inv (hold h o (-1)) (hold hl o (-1)) ha (with_kst κ' c)) as Hc'.
  { apply (vc_step h _ hl ha _ _ c κ' o); try done.
    - intros x. unfold hold. pose proof (vc_held _ _ _ _ Hc x). case_decide; lia.
    - intros x Hx. by rewrite !hold_ne.
    - intros s x. rewrite Em. by left.
    - intros v ci ci' cn cn' i i'. apply (once_same h hl ha); [done|]. by rewrite Em. }
  split; [by exists (hold hl o (-1)), ha|]. split; [|done]. intros v' o'. apply (has_same_iff h hl ha (hold h o (-1)) (hold hl o (-1)) ha); [done|done|].
  unfold holds, slot_object. cbn. by rewrite Em.
Qed.

Lemma delete_law h c v o : vc_ok h c →
  returns (kvspace_map_cap_drop_locked v o c) (λ '(b, c'), vc_ok h c' ∧ b = kvspace_map_cap_has_locked v o c ∧
    (∀ v' o', kvspace_map_cap_has_locked v' o' c' = if decide (v' = v ∧ o' = o) then false else kvspace_map_cap_has_locked v' o' c) ∧ uts c' = uts c).
Proof.
  intros (hl & ha & Hc). unfold kvspace_map_cap_drop_locked. destruct (kvspace_map_cap_slot v o c) as [g|] eqn:Hg; cbn [mbind option_bind].
  2:{ split; [by exists hl, ha|]. assert (kvspace_map_cap_has_locked v o c = false) as Hn by (unfold kvspace_map_cap_has_locked; by rewrite Hg).
      split; [done|]. split; [|done]. intros v' o'. case_decide as Hd; [by destruct Hd as [-> ->]|done]. }
  destruct (cap_slot_some _ _ _ _ _ _ _ Hc Hg) as (ci & cn & i & -> & Hm & Hi & Ho).
  destruct (vc_chunk _ _ _ _ Hc v ci cn Hm) as (_ & _ & Hch & Hmap). pose proof (Hmap i o Ho) as Hmo.
  apply returns_bind. eapply returns_mono; [apply (delete_exact hl ha); [apply Hc|done|done|intros ->; by apply (chunk_not_mappable _ _ Hch)]|].
  intros [e κ'] (Hκ & Hob & Hon). cbn [returns].
  assert (∀ s x, object (mdb κ') s = Some x → object (mdb (kst c)) s = Some x ∧ s ≠ InNode cn i) as Hsub.
  { intros s x. rewrite Hob. unfold upd_fn. by case_decide. }
  assert (vc_inv h hl ha (with_kst κ' c)) as Hc'.
  { apply (vc_step h _ hl ha _ _ c κ' o); try done; [apply Hc|by intros s x [? _]%Hsub; left|].
    intros v0 ci0 ci' cn0 cn' i0 i'. apply (once_same h hl ha); [done|]. by intros s x [? _]%Hsub. }
  split; [by exists hl, ha|]. split; [symmetry; apply (has_iff h hl ha); [done|]; by exists ci, cn, i|]. split; [|done].
  intros v' o'. case_decide as Hd.
  - destruct Hd as [-> ->]. apply not_true_iff_false. rewrite (has_iff h hl ha) by done. intros (ci' & cn' & i' & M & I' & O).
    destruct (Hsub _ _ O) as [O' Hne]. destruct (vc_once _ _ _ _ Hc v ci' ci cn' cn i' i o) as [-> ->]; try done.
    cbn in M. assert (cn' = cn) as -> by congruence. done.
  - apply (has_same_iff h hl ha h hl ha); [done|done|]. unfold holds, slot_object. cbn.
    split; intros (ci' & cn' & i' & M & I' & O); exists ci', cn', i'; (split; [done|split; [done|]]); [by apply Hsub|].
    rewrite Hob, upd_fn_other; [done|]. intros [= -> ->]. apply Hd. destruct (vc_inj _ _ _ _ Hc v' v ci' ci cn M Hm) as [-> _].
    unfold slot_object in Ho. split; congruence.
Qed.

Lemma rec_law h c pool : vc_ok h c → is_Some (tbl (uts c) pool) →
  returns (rec_alloc pool c) (λ '(a, c'), vc_ok h c' ∧ kst c' = kst c ∧ map_caps c' = map_caps c ∧ carve_post (uts c) (a, uts c')).
Proof.
  intros (hl & ha & Hc) Hp. cbn [rec_alloc vspace_caps]. apply returns_bind.
  eapply returns_mono; [apply (alloc_top_post pool SIZEOF_KFRAMEMAPPING); [apply Hc|done|unfold SIZEOF_KFRAMEMAPPING; lia]|].
  intros [a u] Hpost. pose proof Hpost as (Hu & Hsub & _). cbn [returns fst snd] in *. split; [|done]. exists hl, ha. destruct Hc. split; try done.
  cbn. intros x Hx. apply vc_fresh0. by apply Hsub.
Qed.

(** ** A new CNode for the capabilities *)

(** The capabilities are as they were; memory may have been carved. *)
Definition grown c c' : Prop :=
  object (mdb (kst c')) = object (mdb (kst c)) ∧ (∀ o k, objs (kst c) o = Some k → objs (kst c') o = Some k) ∧
  (∀ v ci cn, map_caps c v ci = Some cn → map_caps c' v ci = Some cn) ∧
  (∀ v ci cn, map_caps c' v ci = Some cn → map_caps c v ci = Some cn ∨ ∀ i, slot_object c' cn i = None) ∧
  (∀ a, is_free (uts c') a → is_free (uts c) a) ∧ (∀ j, is_Some (tbl (uts c) j) → is_Some (tbl (uts c') j)).

Lemma grown_refl c : grown c c.
Proof. unfold grown. split_and!; auto. Qed.

Lemma grown_trans c1 c2 c3 : grown c1 c2 → grown c2 c3 → grown c1 c3.
Proof.
  intros (A1 & A2 & A3 & A4 & A5 & A6) (B1 & B2 & B3 & B4 & B5 & B6). split_and!; try (by eauto); [congruence|].
  intros v ci cn [H1|H1]%B4; [|by right]. apply A4 in H1 as [H1|H1]; [by left|right]. intros i. rewrite <-(H1 i). unfold slot_object. by rewrite B1.
Qed.

Lemma grown_has h hl ha h' hl' ha' c c' v o : vc_inv h hl ha c → vc_inv h' hl' ha' c' → grown c c' →
  kvspace_map_cap_has_locked v o c' = kvspace_map_cap_has_locked v o c.
Proof.
  intros Hc Hc' (A1 & A2 & A3 & A4 & _). apply (has_same_iff h hl ha h' hl' ha'); [done|done|]. unfold holds, slot_object in *.
  split; intros (ci & cn & i & M & I' & O); exists ci, cn, i.
  - apply A4 in M as [M|M]; [by rewrite <-A1|]. rewrite M in O. done.
  - rewrite A1. auto.
Qed.

(** The reference counts of a dead object do not matter. *)
Lemma kinv_dead_active hl ha κ o : kinv hl ha κ → objs κ o = None → kinv hl (upd_fn ha o 0) κ.
Proof.
  intros [H1 H2 H3 H4 H5 H6 H7 H8 H9] Ho. constructor; try assumption.
  - intros x. destruct (H7 x). unfold upd_fn. case_decide; lia.
  - intros x k Hk. rewrite upd_fn_other; [by apply H8|]. congruence.
Qed.

Lemma mappable_ext κ κ' o : (∀ k, objs κ o = Some k → objs κ' o = Some k) → mappable κ o → mappable κ' o.
Proof. intros E (k & Hk & Ht). exists k. auto. Qed.

Lemma set_chunk_at v ci cn m v' ci' : set_chunk v ci cn m v' ci' = if decide (v' = v ∧ ci' = ci) then Some cn else m v' ci'.
Proof. unfold set_chunk, upd_fn. repeat case_decide; naive_solver. Qed.

(** A fresh CNode [cn], owned by the space, becomes its chunk [ci]. *)
Lemma new_chunk h hl ha c κ' u v ci cn :
  vc_inv h hl ha c → (ci < VSPACE_MAP_CAP_CHUNKS)%N → map_caps c v ci = None → (∀ ci', (ci' < ci)%N → is_Some (map_caps c v ci')) →
  objs (kst c) cn = None → kinv (hold hl cn 1) (hold (upd_fn ha cn 0) cn 1) κ' → object (mdb κ') = object (mdb (kst c)) →
  (∀ x, x ≠ cn → objs κ' x = objs (kst c) x) → is_chunk κ' cn → (∀ i, object (mdb κ') (InNode cn i) = None) →
  ut_inv u → (∀ a, is_free u a → is_free (uts c) a ∧ Z.to_N a ≠ cn) →
  vc_inv h (hold hl cn 1) (hold (upd_fn ha cn 0) cn 1) (VCaps κ' u (set_chunk v ci cn (map_caps c))).
Proof.
  intros [] Hci Hnone Hdense Hdead Hκ' Eo Ex Hch Hempty Hu Hfr.
  assert (∀ o k, objs (kst c) o = Some k → objs κ' o = Some k) as Hext by (intros o k Hk; rewrite Ex by congruence; done).
  split; cbn [kst uts map_caps]; try done.
  - intros o. pose proof (hold_le hl cn 1 o ltac:(lia)). specialize (vc_held0 o). lia.
  - intros o Ho. apply (mappable_ext (kst c)); [apply Hext|by apply vc_objs0].
  - intros v' ci' cn'. rewrite set_chunk_at. case_decide as Hd.
    + intros [= <-]. destruct Hd as [-> ->]. split; [done|]. pose proof (proj1 (ki_hl _ _ _ vc_kinv0 cn)).
      split; [rewrite hold_same; lia|]. split; [done|]. intros i o Ho. unfold slot_object in Ho. cbn in Ho. congruence.
    + intros (H1 & H2 & (k & Hk & Hk') & H4)%vc_chunk0. split; [done|].
      split; [pose proof (hold_le hl cn 1 cn' ltac:(lia)); lia|]. split; [exists k; split; [by apply Hext|done]|].
      intros i o Ho. apply (mappable_ext (kst c)); [apply Hext|]. apply (H4 i). unfold slot_object in *. cbn in Ho. by rewrite <-Eo.
  - intros v' c1 c2 cn'. rewrite !set_chunk_at. case_decide as Hd; case_decide as Hd2; try (by eauto).
    destruct Hd as [-> ->]. intros _. apply Hdense.
  - intros v1 v2 c1 c2 cn'. rewrite !set_chunk_at. assert (∀ v0 j : N, map_caps c v0 j ≠ Some cn) as Hno.
    { intros v0 j (_ & _ & (k & Hk & _) & _)%vc_chunk0. congruence. }
    case_decide as Hd; case_decide as Hd2; [|intros [= <-] E|intros E [= <-]|by apply vc_inj0]; [|by apply Hno in E..].
    intros _ _. destruct Hd as [-> ->], Hd2 as [-> ->]. done.
  - unfold slot_object. cbn. intros v' c1 c2 cn1 cn2 i1 i2 o. rewrite !set_chunk_at.
    case_decide as Hd; [intros [= <-]; rewrite Hempty; done|]. case_decide as Hd2; [intros _ [= <-]; rewrite Hempty; done|].
    rewrite Eo. apply vc_once0.
  - intros a [Ha Hne]%Hfr. rewrite Ex by done. by apply vc_fresh0.
Qed.

(** The chunk as [kcnode_alloc_at] builds it, with the space's active reference. *)
Lemma alloc_chunk hl ha κ cn : kinv hl ha κ → objs κ cn = None →
  ∃ κ1 κ', kcnode_alloc_at (Some cn) VSPACE_MAP_CAP_SLOTS κ = Some κ1 ∧ kobject_active_retain cn κ1 = Ret κ' ∧
    kinv (hold hl cn 1) (hold (upd_fn ha cn 0) cn 1) κ' ∧ object (mdb κ') = object (mdb κ) ∧
    (∀ x, x ≠ cn → objs κ' x = objs κ x) ∧ is_chunk κ' cn ∧ (∀ i, object (mdb κ') (InNode cn i) = None).
Proof.
  intros Hκ Ho. set (κ1 := Kobject.with_live (u32 (kcnode_live κ + 1)) (with_mdb (add_slots cn VSPACE_MAP_CAP_SLOTS (mdb κ)) (kobject_init cn KOBJ_CNODE VSPACE_MAP_CAP_SLOTS κ))).
  assert (kinv (hold hl cn 1) (upd_fn ha cn 0) κ1) as Hκ1.
  { apply kinv_live_count, (kinv_new hl (upd_fn ha cn 0) κ cn); [by apply kinv_dead_active|done|by rewrite upd_fn_same|exact I|done]. }
  assert (objs κ1 cn = Some (MkKObject KOBJ_CNODE 1 0 VSPACE_MAP_CAP_SLOTS)) as Hk by (subst κ1; cbn; by rewrite upd_fn_same).
  destruct (kobject_active_retain_spec _ _ κ1 cn _ Hκ1 Hk) as [Hr Hκ2]; [cbn; lia|cbn; lia|].
  exists κ1. eexists. split; [done|]. split; [exact Hr|]. split; [exact Hκ2|]. split; [done|]. split; [|split].
  - intros x Hx. subst κ1. cbn. by rewrite !upd_fn_other.
  - eexists. split; [cbn; by rewrite upd_fn_same|]. done.
  - intros i. cbn. apply (mi_dom _ (ki_mdb _ _ _ Hκ)). rewrite (ki_mem _ _ _ Hκ). unfold cn_slots. rewrite Ho. simpl. lia.
Qed.

Definition pool_live pool c : Prop := ∀ p, pool = Some p → is_Some (tbl (uts c) p).

Lemma chunk_law h c v pool ci : vc_ok h c → pool_live pool c → (ci < VSPACE_MAP_CAP_CHUNKS)%N → (∀ ci', (ci' < ci)%N → is_Some (map_caps c v ci')) →
  returns (kvspace_map_caps_chunk v pool ci c) (λ '(e, c'), vc_ok h c' ∧ grown c c' ∧ (e = IRIS_OK → is_Some (map_caps c' v ci))).
Proof.
  intros (hl & ha & Hc) Hp Hci Hd. unfold kvspace_map_caps_chunk. rewrite (proj2 (N.leb_gt _ _)) by done.
  assert (vc_ok h c) as Hok by (by exists hl, ha).
  destruct (map_caps c v ci) as [cn|] eqn:Hm; [split; [done|]; split; [apply grown_refl|]; intros _; by exists cn|].
  destruct pool as [p|]; [|split; [done|]; by split; [apply grown_refl|]].
  apply returns_bind. eapply returns_mono; [apply (alloc_child_post p); [apply Hc|by apply Hp|vm_compute; done]|].
  intros [[q|] u] (Hu & Hsub & Hlive & Hq); cbn [fst snd] in *.
  2:{ split; [|split; [|done]].
      - exists hl, ha. destruct Hc. split; try done. cbn. intros a Ha. by apply vc_fresh0, Hsub.
      - unfold grown. split_and!; auto. }
  destruct (Hq q eq_refl) as (Fq & Fq' & Hpos). pose proof (vc_fresh _ _ _ _ Hc q Fq) as Hdead.
  destruct (alloc_chunk hl ha (kst c) (Z.to_N q) (vc_kinv _ _ _ _ Hc) Hdead) as (κ1 & κ' & -> & -> & Hκ' & Eo & Ex & Hch & He). cbn [mbind res_bind returns].
  split; [|split].
  - eexists _, _. apply (new_chunk h hl ha c κ' u v ci (Z.to_N q)); try done. intros a Ha. split; [by apply Hsub|].
    intros E. apply Fq'. assert (0 < a). { destruct Ha as (i & w & Hw & Hf). destruct (ui_ok _ Hu i w Hw) as [[] _]. unfold free in Hf. lia. }
    by assert (a = q) as -> by lia.
  - split; [done|]. split; [intros o k Hk; cbn; rewrite Ex by congruence; done|]. cbn. split_and!; [..|done|done].
    + intros v' ci' cn. rewrite set_chunk_at. case_decide as Hx; [|done]. destruct Hx as [-> ->]. congruence.
    + intros v' ci' cn. rewrite set_chunk_at. case_decide; [|by left]. intros [= <-]. by right.
  - intros _. cbn. rewrite set_chunk_at, decide_True by done. done.
Qed.

Lemma free_slot_law h v pool m : ∀ n c, vc_ok h c → pool_live pool c → (n + m = 8)%nat →
  (∀ ci', (ci' < N.of_nat n)%N → is_Some (map_caps c v ci')) →
  returns (free_slot_search (N.of_nat <$> seq n m) v pool c) (λ '(e, g, c'), vc_ok h c' ∧ grown c c' ∧
    ∀ g', e = IRIS_OK → g = Some g' → ∃ ci cn i, map_caps c' v ci = Some cn ∧ (ci < VSPACE_MAP_CAP_CHUNKS)%N ∧ i ∈ chunk_slots ci ∧
      g' = chunk_index ci i ∧ slot_object c' cn i = None).
Proof.
  induction m as [|m IH]; intros n c Hc Hp Hnm Hd; cbn [seq fmap list_fmap free_slot_search].
  { split; [done|]. split; [apply grown_refl|done]. }
  apply returns_bind. eapply returns_mono; [apply (chunk_law h c v pool (N.of_nat n)); [done|done|unfold VSPACE_MAP_CAP_CHUNKS; lia|done]|].
  intros [e c1] (Hc1 & Hg1 & Hs). case_bool_decide as He; cbn [negb]; [|by split_and!; [..|intros]].
  destruct (Hs He) as [cn Hcn]. rewrite Hcn. destruct (List.find _ _) as [i|] eqn:Hf.
  - apply List.find_some in Hf as [Hi%list_elem_of_In Hb%bool_decide_eq_true]. split; [done|]. split; [done|]. intros g' _ [= <-].
    exists (N.of_nat n), cn, i. split_and!; try done. unfold VSPACE_MAP_CAP_CHUNKS. lia.
  - pose proof Hg1 as (_ & _ & Hmono & _ & _ & Hlive). eapply returns_mono; [apply (IH (S n) c1); [done| |lia|]|].
    + intros p Hp'. by apply Hlive, Hp.
    + intros ci' Hlt. destruct (decide (ci' = N.of_nat n)) as [->|Hne]; [by exists cn|].
      destruct (Hd ci') as [cn' Hcn']; [lia|]. exists cn'. by apply Hmono.
    + intros [[e' g] c2] (Hc2 & Hg2 & Hres). split; [done|]. split; [by eapply grown_trans|done].
Qed.

(** ** Installing *)

Section installed.
Context (h hl ha : N → Z) (c : vcaps) (v o ci cn i : N) (κ' : kstate).
Context (Hc : vc_inv h hl ha c) (Hm : map_caps c v ci = Some cn) (Hi : i ∈ chunk_slots ci) (Hn : slot_object c cn i = None).
Context (Hno : kvspace_map_cap_has_locked v o c = false) (Hmo : mappable (kst c) o) (Hinst : cap_installed hl ha cn i o (kst c) κ').

Lemma holds_old v' o' ci' cn' i' : holds (with_kst κ' c) v' o' ci' cn' i' →
  (v' = v ∧ o' = o ∧ ci' = ci ∧ i' = i) ∨ (holds c v' o' ci' cn' i' ∧ (v' = v → o' ≠ o)).
Proof.
  intros (M & I' & O). destruct Hinst as (_ & Hs & _). unfold slot_object in O. cbn in O, M. rewrite Hs in O. unfold upd_fn in O. case_decide as Hd.
  - injection Hd as -> ->. injection O as <-. left. destruct (vc_inj _ _ _ _ Hc v' v ci' ci cn M Hm) as [-> ->]. done.
  - right. split; [done|]. intros -> ->. apply not_true_iff_false in Hno. apply Hno, (has_iff h hl ha); [done|]. by exists ci', cn', i'.
Qed.

Lemma installed_only : only_obj o (kst c) κ'.
Proof.
  destruct Hinst as (_ & _ & (k & Hk & Hx)). split; [intros x Hne; by rewrite Hx, upd_fn_other|].
  intros k'. rewrite Hx, upd_fn_same. intros [= <-]. by exists k.
Qed.

Lemma installed_inv : vc_inv h hl ha (with_kst κ' c).
Proof.
  apply (vc_step h h hl ha hl ha c κ' o); [exact Hc|apply Hinst|apply installed_only|exact Hmo|apply Hc|by intros|..].
  - intros s x. destruct Hinst as (_ & Hs & _). rewrite Hs. unfold upd_fn. case_decide; [intros [= <-]; by right|by left].
  - intros v0 c1 c2 cn1 cn2 i1 i2 H1 H2. pose proof H1 as H1'. pose proof H2 as H2'.
    apply holds_old in H1 as [(-> & _ & -> & ->)|[H1 N1]], H2 as [(E & _ & -> & ->)|[H2 N2]]; try done; [by destruct N2|subst; by destruct N1|].
    destruct H1 as (? & ? & ?), H2 as (? & ? & ?). by apply (vc_once _ _ _ _ Hc v0 c1 c2 cn1 cn2 i1 i2 o).
Qed.

Lemma installed_has v' o' : kvspace_map_cap_has_locked v' o' (with_kst κ' c) =
  if decide (v' = v ∧ o' = o) then true else kvspace_map_cap_has_locked v' o' c.
Proof.
  pose proof installed_inv as Hc'. pose proof Hinst as (_ & Hs & _). case_decide as Hd.
  - destruct Hd as [-> ->]. apply (has_iff h hl ha); [done|]. exists ci, cn, i. split; [done|]. split; [done|].
    unfold slot_object. cbn. by rewrite Hs, upd_fn_same.
  - apply (has_same_iff h hl ha h hl ha); [done|done|]. split; intros (c1 & cn1 & i1 & H1); exists c1, cn1, i1.
    + apply holds_old in H1 as [(-> & -> & _)|[H1 _]]; [by destruct Hd|done].
    + destruct H1 as (M & I' & O). split; [done|]. split; [done|]. unfold slot_object in *. cbn. rewrite Hs, upd_fn_other; [done|].
      intros [= -> ->]. congruence.
Qed.

Lemma installed_room n : vc_room 2 o c → vc_room (n + 2) o c → vc_room n o (with_kst κ' c).
Proof.
  intros [_ (k0 & Hk0 & _ & Hb0)] [_ (k & Hk & H1 & Hb)]. assert (k0 = k) as -> by congruence.
  pose proof Hinst as (_ & _ & (k' & Hk' & Hx)). assert (k' = k) as -> by congruence.
  assert (objs κ' o = Some (took_refs k)) as Ho by (by rewrite Hx, upd_fn_same).
  pose proof (ki_refs _ _ _ (vc_kinv _ _ _ _ Hc) o k Hk) as (E1 & E2 & E3). pose proof (ki_hl _ _ _ (vc_kinv _ _ _ _ Hc) o) as [Hl Ha].
  split; [apply (only_mappable o (kst c)); [apply installed_only|done|right; by exists (took_refs k)]|].
  exists (took_refs k). split; [done|]. cbn [took_refs set_active_refs set_refcount refcount active_refs]. rewrite !u32_id by lia. lia.
Qed.
End installed.

Definition vc_src (src : option (N * N)) o c : Prop := match src with None => True | Some (scn, sidx) => slot_object c scn sidx = Some o end.

Definition install_law_post h c v o (r : iris_error_t * vcaps) : Prop := vc_ok h r.2 ∧
  (∀ v' o', kvspace_map_cap_has_locked v' o' r.2 =
     if decide (v' = v ∧ o' = o) then bool_decide (r.1 = IRIS_OK) else kvspace_map_cap_has_locked v' o' c) ∧
  (∀ n, vc_room (n + 2) o c → vc_room n o r.2) ∧ (∀ a, is_free (uts r.2) a → is_free (uts c) a).

Lemma vc_room_le n n' o c : n ≤ n' → vc_room n' o c → vc_room n o c.
Proof. intros Hn [Hm (k & Hk & H1 & Hb)]. split; [done|]. exists k. split_and!; [done|done|lia]. Qed.

Lemma grown_room n o c c' : grown c c' → vc_room n o c → vc_room n o c'.
Proof.
  intros (_ & Hx & _) [Hm (k & Hk & Hb)]. split; [apply (mappable_ext (kst c)); auto|]. exists k. auto.
Qed.

(** Nothing installed. *)
Lemma install_none h c c' v o e : vc_ok h c → vc_ok h c' → grown c c' → kvspace_map_cap_has_locked v o c = false → e ≠ IRIS_OK →
  install_law_post h c v o (e, c').
Proof.
  intros (hl & ha & Hc) (hl' & ha' & Hc') Hg Hno He. split; [by exists hl', ha'|]. split; [|split; [|apply Hg]]; cbn [fst snd].
  - intros v' o'. rewrite (grown_has _ _ _ _ _ _ _ _ v' o' Hc Hc' Hg). case_decide as Hd; [|done].
    destruct Hd as [-> ->]. by rewrite bool_decide_false.
  - intros n Hr. apply (grown_room _ _ c); [done|]. apply (vc_room_le n (n + 2)); [lia|done].
Qed.

Lemma install_law h c v pool o src : vc_ok h c → kvspace_map_cap_has_locked v o c = false → vc_room 2 o c → vc_src src o c → pool_live pool c →
  returns (kvspace_map_cap_install v pool o src c) (install_law_post h c v o).
Proof.
  intros Hc Hno Hroom Hsrc Hp. unfold kvspace_map_cap_install. apply returns_bind.
  eapply returns_mono; [apply (free_slot_law h v pool 8 0 c); [done|done|done|intros; lia]|].
  intros [[e g] c1] (Hc1 & Hg & Hres). case_bool_decide as He; cbn [negb]; [subst e|by apply install_none].
  destruct g as [g|]; [|by apply install_none]. destruct (Hres g eq_refl eq_refl) as (ci & cn & i & Hm & Hci & Hi & -> & Hn).
  rewrite cap_at_index, Hm by done. cbn [fmap option_fmap option_map fst snd from_option].
  pose proof Hc as (hl0 & ha0 & Hc0). destruct Hc1 as (hl & ha & Hc1). assert (vc_ok h c1) as Hok1 by (by exists hl, ha).
  assert (kvspace_map_cap_has_locked v o c1 = false) as Hno1 by (by rewrite (grown_has h hl0 ha0 h hl ha c c1)).
  pose proof (grown_room _ _ _ _ Hg Hroom) as Hroom1. pose proof Hroom1 as [Hmo Hr].
  destruct (vc_chunk _ _ _ _ Hc1 v ci cn Hm) as (_ & _ & Hch & _). assert (o ≠ cn) as Hne by (intros ->; by apply (chunk_not_mappable _ _ Hch)).
  assert (slot_in_range (kst c1) cn i = true) as Hin.
  { unfold slot_in_range, cn_slots. destruct Hch as (k & -> & _ & Hk). cbn. rewrite Hk. apply N.ltb_lt. by apply (chunk_slots_lt ci). }
  apply returns_bind. eapply (returns_mono _ (λ '(e, κ'), if decide (e = IRIS_OK) then cap_installed hl ha cn i o (kst c1) κ' else κ' = kst c1)).
  - destruct src as [[scn sidx]|]; [|by apply mint_done; [apply Hc1|..]].
    apply sibling_done; [apply Hc1|done..|]. destruct Hg as (E & _). cbn in Hsrc. unfold slot_object in Hsrc. by rewrite E.
  - intros [e κ']. case_decide as He; cbn [returns].
    + subst e. intros Hinst. split; [exists hl, ha; by apply (installed_inv h hl ha c1 v o ci cn i)|]. split; [|split; [|apply Hg]]; cbn [fst snd].
      * intros v' o'. rewrite (installed_has h hl ha c1 v o ci cn i) by done. case_decide; [done|]. by rewrite (grown_has h hl0 ha0 h hl ha c c1).
      * intros n Hn'. apply (installed_room h hl ha c1 o cn i κ'); [done..|]. by apply (grown_room _ _ c).
    + intros ->. apply install_none; try done; by destruct c1.
Qed.

(** ** The laws *)

#[global, refine] Instance vspace_caps_ok : VmCapsOk vcaps := {
  caps_ok := vc_ok;
  obj_room := vc_room;
  rec_used a c := ¬ is_free (uts c) a;
  src_names := vc_src;
  pool_ok p c := is_Some (tbl (uts c) p);
  caps_ok_ext := _; obj_room_le := _; caps_install_ok := _; caps_delete_ok := _; caps_retain_ok := _; caps_release_ok := _; caps_rec_ok := _;
}.
Proof.
  - intros h h' c E (hl & ha & []). exists hl, ha. split; try done; intros o; rewrite <-E; auto.
  - intros n n' o c. apply vc_room_le.
  - intros h c v pool o src Hc Hno Hr Hs Hp. eapply returns_mono; [by apply (install_law h)|].
    intros [e c'] (H1 & H2 & H3 & H4). split; [done|]. split; [done|]. split; [done|]. intros a Ha Hf. by apply Ha, H4.
  - intros h c v o Hc. eapply returns_mono; [by apply (delete_law h)|]. intros [b c'] (H1 & H2 & H3 & E). cbn. by rewrite E.
  - intros h c o Hc Hr. eapply returns_mono; [by apply (retain_law h)|]. intros c' (H1 & H2 & E). cbn. by rewrite E.
  - intros h c o Hc Hr. eapply returns_mono; [by apply (release_law h)|]. intros c' (H1 & H2 & E). cbn. by rewrite E.
  - intros h c pool Hc Hp. eapply returns_mono; [by apply (rec_law h)|]. intros [a c'] (H1 & Ek & Em & (_ & Hsub & Hlive & Hq)). cbn [fst snd] in *.
    split; [done|]. unfold vc_room, vc_src, slot_object. cbn. unfold kvspace_map_cap_has_locked, kvspace_map_cap_slot.
    rewrite Ek. split_and!; try done; [|by intros a0 Hf Hx; apply Hf, Hsub|by intros a0 ->; destruct (Hq a0 eq_refl) as (? & ? & _); split; [intros Hf; by apply Hf|]].
    intros v' o'. by destruct c', c; cbn in *; subst.
Defined.
