(* ===== verification/VspaceDemo.v ===== *)
(** * Two address spaces

    A concrete system: a frame of two pages (object 1), an Untyped (5), a space (1) with
    that Untyped as its pool and one (2) without, each with the tables for one window.
    [demo_inv]: it satisfies the invariant. *)

From Stdlib Require Import ZArith Lia.
From stdpp Require Import base numbers list sets.
From S2P Require Import Prelude Rights Kuntyped Mdb Kobject Kcnode KcnodeInv KcnodeBoot Slist Pmm Paging PagingInv.
From S2P Require Import PagingSpec Vspace VspacePg VspaceInv VspaceMap VspaceCaps VspaceCapsOk.
Local Open Scope Z_scope.

(** ** Capabilities *)

Definition demo_kst : kstate := kobject_init 1 KOBJ_FRAME 0 kernel0.
Definition demo_ust : ust := UState (λ i, if decide (i = 5%N) then Some (new_untyped 0x100000 0x10000 false 0 0) else None)
  (λ _, 0) (PMem (λ _, 0) (λ _, None)) [] 1.
Definition demo_caps : vcaps := VCaps demo_kst demo_ust (λ _ _, None).

Lemma demo_ut i u : tbl demo_ust i = Some u → i = 5%N ∧ u = new_untyped 0x100000 0x10000 false 0 0.
Proof. cbn. case_decide; [by intros [= <-]|done]. Qed.

Lemma demo_caps_ok : vc_ok none_held demo_caps.
Proof.
  exists (hold none_held 1 1), none_held. split; try done.
  - apply kobject_init_kinv; [apply kernel0_kinv|done..].
  - intros o. apply hold_le. lia.
  - split.
    + intros i u [_ ->]%demo_ut. split; [by split|]. unfold ut_room, room_left. cbn. lia.
    + intros i j u w a [-> _]%demo_ut [-> _]%demo_ut. done.
  - intros a (i & u & [_ ->]%demo_ut & Hf). unfold free in Hf. cbn in Hf. cbn. unfold upd_fn. rewrite decide_False; [done|lia].
Qed.

(** ** Page tables *)

(** The tables of root [c] are the next three pages, entered at the indices 1, 0, 1. *)
Definition demo_mem : memory := λ a,
  if a =? 0x2008 then 0x3007 else if a =? 0x3000 then 0x4007 else if a =? 0x4008 then 0x5007
  else if a =? 0x6008 then 0x7007 else if a =? 0x7000 then 0x8007 else if a =? 0x8008 then 0x9007 else 0.
Definition demo_root (c : Z) : Prop := c = 0x2000 ∨ c = 0x6000.

Definition demo_ix (d : nat) : Z := match d with 1%nat => 0 | _ => 1 end.

Lemma demo_rd c (d : nat) va : demo_root c → (d ≤ 3)%nat →
  rd demo_mem (c + 4096 * Z.of_nat d) (ix d va) = if decide ((d ≤ 2)%nat ∧ ix d va = demo_ix d) then c + 4096 * Z.of_nat d + 0x1007 else 0.
Proof.
  intros Hc Hd. pose proof (ix_range d va Hd) as Hi. generalize dependent (ix d va). intros i Hi.
  assert (d = 0 ∨ d = 1 ∨ d = 2 ∨ d = 3)%nat as Hd4 by lia. unfold rd, demo_mem.
  destruct Hc as [-> | ->], Hd4 as [->|[->|[->| ->]]]; cbn [demo_ix];
    repeat match goal with |- context [?a =? ?b] => destruct (Z.eqb_spec a b) end; case_decide; lia.
Qed.

Lemma demo_table_entry c (d : nat) : demo_root c → (d ≤ 2)%nat → let e := c + 4096 * Z.of_nat d + 0x1007 in
  interior e = true ∧ pa e = c + 4096 * Z.of_nat (S d) ∧ open_entry e.
Proof.
  intros Hc Hd. assert (d = 0 ∨ d = 1 ∨ d = 2)%nat as Hd3 by lia.
  destruct Hc as [-> | ->], Hd3 as [->|[->| ->]]; vm_compute; auto.
Qed.

Lemma demo_tab c (d : nat) va t : demo_root c → (d ≤ 3)%nat → tab demo_mem c d va = Some t →
  t = c + 4096 * Z.of_nat d ∧ pre d va = pre d 0x8000200000.
Proof.
  intros Hc. revert t. induction d as [|d IH]; intros t Hd; [intros [= <-]; split; [lia|by rewrite !pre_0]|].
  rewrite tab_S. destruct (tab demo_mem c d va) as [t0|]; [|done]. destruct (IH t0 ltac:(lia) eq_refl) as [-> Hp]. cbn [mbind option_bind].
  rewrite demo_rd by (done || lia). case_decide as Hx; [|done]. destruct (demo_table_entry c d Hc (proj1 Hx)) as (-> & -> & _).
  intros [= <-]. split; [done|]. rewrite !pre_S, Hp by lia. f_equal. rewrite (proj2 Hx).
  assert (d = 0 ∨ d = 1 ∨ d = 2)%nat as Hd3 by lia. by destruct Hd3 as [->|[->| ->]].
Qed.

Lemma demo_mem_wf : paging_wf demo_mem demo_root.
Proof.
  split.
  - intros c [-> | ->]; done.
  - intros c c' d d' va va' t Hc Hc' Hd Hd' _ T T'. apply demo_tab in T as [E1 P1]; [|done..]. apply demo_tab in T' as [E2 P2]; [|done..].
    assert (c = c' ∧ d = d') as [-> ->] by (destruct Hc as [-> | ->], Hc' as [-> | ->]; lia). split; [done|]. split; [done|]. congruence.
  - intros c d va e Hc Hd _. unfold ent. destruct (tab demo_mem c d va) as [t|] eqn:Ht; [|done].
    apply demo_tab in Ht as [-> _]; [|done|lia]. cbn [mbind option_bind]. rewrite demo_rd by (done || lia).
    case_decide as Hx; intros [= <-]; [|done]. intros _. by apply demo_table_entry.
Qed.

Lemma demo_off c va : demo_root c → leaf_on (leaf demo_mem c va) = false.
Proof.
  intros Hc. unfold leaf, ent. destruct (tab demo_mem c 3 va) as [t|] eqn:Ht; [|done].
  apply demo_tab in Ht as [-> _]; [|done|lia]. cbn [mbind option_bind leaf_on]. rewrite demo_rd by (done || lia).
  rewrite decide_False by lia. done.
Qed.

(** ** The system *)

Definition demo_space (c : Z) (pool : option N) : KVSpace := VSpace c true 0 None pool None None.
Definition demo_vm : vm vcaps :=
  Vm demo_caps (Pgs demo_mem 0x1000 (Pmm (λ _, 0) (λ _, 0) (PmmList.Links (λ n, n) (λ n, n)) false 0 0 0) [])
    (λ v, if decide (v = 1%N) then demo_space 0x2000 (Some 5%N) else if decide (v = 2%N) then demo_space 0x6000 None
          else VSpace 0 false 0 None None None None)
    (λ f, if decide (f = 1%N) then Frame 0xA000 0x2000 0 None else Frame 0 0 0 None)
    (λ _, PageTable 0 None 0 0) (λ _, None) (λ _, None) (λ _, 0) (λ _, None) (λ _, None) (λ _, None) (λ _, 0) (λ _, false)
    0 None 0 [] 0.

Lemma demo_root_of v : root v demo_vm ≠ 0 → (v = 1%N ∧ root v demo_vm = 0x2000) ∨ (v = 2%N ∧ root v demo_vm = 0x6000).
Proof. unfold root. cbn. do 2 (case_decide; [subst; cbn; auto|]). done. Qed.

Lemma demo_inv A : vm_inv demo_root A none_held (Gh (λ _, []) (λ _, []) (λ _, []) []) demo_vm.
Proof.
  assert (∀ v, mappings (vss demo_vm v) = None ∧ free_nodes (vss demo_vm v) = None ∧ mapping_count (vss demo_vm v) = 0) as Hv
    by (intros v; cbn; by repeat case_decide).
  assert (∀ f, f_maps (frs demo_vm f) = None ∧ mapped_count (frs demo_vm f) = 0) as Hf by (intros f; cbn; by case_decide).
  split; try done.
  - split; try (intros *; by rewrite elem_of_nil); try done.
    + intros v. destruct (Hv v) as (-> & _). constructor.
    + intros f. destruct (Hf f) as (-> & _). constructor.
    + intros v. destruct (Hv v) as (_ & -> & _). constructor.
    + constructor.
  - intros f. destruct (Hf f) as (_ & ->). done.
  - intros v. destruct (Hv v) as (_ & _ & ->). done.
  - cbn. apply demo_caps_ok.
  - split; try (intros *; by rewrite elem_of_nil).
    + apply demo_mem_wf.
    + intros v [[_ ->]|[_ ->]]%demo_root_of; [by left|by right].
    + intros v v' [[-> E]|[-> E]]%demo_root_of; rewrite E; intros E'; assert (root v' demo_vm ≠ 0) as Hr by (rewrite <-E'; done);
        destruct (demo_root_of v' Hr) as [[-> ?]|[-> ?]]; congruence.
    + intros v va Hr _. rewrite demo_off; [done|]. destruct (demo_root_of v Hr) as [[_ ->]|[_ ->]]; [by left|by right].
Qed.
