(* ===== verification/VspaceSpec.v ===== *)
(** * Address spaces: what a holder can rely on

    The theorems about address spaces over any capability layer that keeps its laws
    ([VmCapsOk]). *)

From Stdlib Require Import ZArith Lia.
From stdpp Require Import base numbers list sets relations.
From S2P Require Import Prelude Rights KcnodeBoot Slist Pmm Paging PagingInv PagingSpec Vspace VspacePg VspaceInv VspaceMap.
From S2P Require Import VspaceOps VspaceUnmap VspaceFinal VspaceInval VspaceCaps VspaceCapsOk VspaceDemo.
Local Open Scope Z_scope.

(** ** Translations of a mapped page *)

Lemma page_sum p va : p mod 4096 = 0 → Z.lor p (Z.land va 0xFFF) = p + va mod 4096.
Proof.
  intros Ha. change 0xFFF with (Z.ones 12). rewrite Z.land_ones by lia. pose proof (Z.div_mod p 4096 ltac:(lia)) as Hd.
  replace p with (p / 4096 * 2 ^ 12) by lia. apply lor_disjoint; [lia|]. apply Z.mod_pos_bound. lia.
Qed.

Lemma leaf_translate (mm : memory) (R : Z → Prop) c va p x :
  paging_wf mm R → R c → uva va → pa p = p → p mod 4096 = 0 → 0 ≤ x → map_flags_ok x = true →
  leaf mm c va = Some (entry p (map_page_flags x)) → translate mm c va = Some (p + va mod 4096, writes x, true).
Proof.
  intros Hw Hc Hu Hp Ha Hx Hok Hl. destruct (user_flags_spec x Hx Hok) as (H1 & H2 & H3 & _).
  rewrite (translate_leaf mm R c va _ Hw Hc (user_range va Hu) Hl (entry_present _ _)), leaf_3, entry_pa, !entry_has, H2, H3, Hp, page_sum by done.
  done.
Qed.

(** ** Sublists *)

Lemma sublist_filter_eq {B} (P : B → Prop) `{∀ y, Decision (P y)} l' l :
  l' `sublist_of` l → NoDup l → (∀ y, y ∈ l → y ∈ l' ↔ P y) → l' = filter P l.
Proof.
  induction 1 as [|y l1 l2 Hs IH|y l1 l2 Hs IH]; intros [Hy Hn]%NoDup_cons || intros Hn; intros Hp; [done| |].
  - rewrite filter_cons_True by (apply Hp; left). f_equal. apply IH; [done|]. intros z Hz. rewrite <-Hp by (by right).
    rewrite elem_of_cons. split; [by right|]. intros [->|?]; [done|done].
  - rewrite filter_cons_False; [apply IH; [done|]; intros z Hz; apply Hp; by right|].
    rewrite <-Hp by left. intros Hin. by apply Hy, (sublist_in _ _ Hs).
Qed.

Lemma filter_out {B} `{EqDecision B} (m : B) l l' : NoDup (l ++ m :: l') → filter (λ y, y ≠ m) (l ++ m :: l') = l ++ l'.
Proof.
  intros Hn. symmetry. apply sublist_filter_eq; [apply sublist_app; [done|by constructor]|done|].
  apply NoDup_app in Hn as (_ & Hd & [Hm _]%NoDup_cons). intros y Hy0. split; [|set_solver]. clear Hy0.
  intros [Hy|Hy]%elem_of_app ->; [apply (Hd m Hy); left|done].
Qed.

(** ** The spaces as a holder sees them *)

Section spec.
Context {C : Type} `{VmCapsOk C} (R : Z → Prop).
Implicit Types (s : vm C) (v f : N) (m : mnode) (g : ghost) (A : N → Prop) (va : Z) (x : N → Z).

Definition record_view s m : option N * Z * bool := (m_frame s m, m_va s m, m_boot s m).

(** Frame, address and boot authority of each mapping, the newest first. *)
Definition space_maps v s : list (option N * Z * bool) :=
  record_view s <$> walk (m_next s) (Z.to_nat (mapping_count (vss s v))) (mappings (vss s v)).

(** The invariant, with authority for the mappings of the frames in [A]. *)
Definition vm_ok A x s : Prop := ∃ g, vm_inv R A x g s.
Definition everything : N → Prop := λ _, True.

Lemma space_maps_eq A x g s v : vm_inv R A x g s → space_maps v s = record_view s <$> lv g v.
Proof.
  intros []. unfold space_maps. f_equal. apply chain_walk; [apply (lo_v _ _ _ vi_lists v)|]. destruct (vi_vcount v) as [-> _]. lia.
Qed.

Lemma kept_view g s s' v : kept_maps g s s' → record_view s' <$> lv g v = record_view s <$> lv g v.
Proof.
  intros ((_ & _ & E) & Eb & _). apply list_fmap_ext. intros i m Hm%list_elem_of_lookup_2. unfold record_view.
  destruct (E v m Hm) as [-> ->]. by rewrite (Eb v m Hm).
Qed.

(** A user address translates exactly where a mapping covers it, to the frame of that
    mapping, with the authority of that mapping. *)
Definition authorised s : Prop := ∀ v va p w u, root v s ≠ 0 → uva va → translate (memory_of s) (root v s) va = Some (p, w, u) →
  ∃ f mva b, (Some f, mva, b) ∈ space_maps v s ∧ 0 ≤ va - mva < 4096 * npages s f ∧ p = f_paddr (frs s f) + (va - mva) ∧ u = true ∧
    (b = true ∨ map_cap_has v f (cs s) = true) ∧
    (w = true → ∃ e, leaf (memory_of s) (root v s) va = Some e ∧ has e PAGE_NX = true).

Lemma page_offset va mva j : mva mod 4096 = 0 → j = va / 4096 - mva / 4096 → 4096 * j + va mod 4096 = va - mva.
Proof.
  intros Ha ->. pose proof (Z.div_mod va 4096 ltac:(lia)). pose proof (Z.div_mod mva 4096 ltac:(lia)). lia.
Qed.

Lemma run_translate A x g s v m f va : vm_inv R A x g s → m ∈ lv g v → m_frame s m = Some f → covers s m va →
  ∃ fl, 0 ≤ fl ∧ map_flags_ok fl = true ∧ leaf (memory_of s) (root v s) va = Some (entry (f_paddr (frs s f) + 4096 * (va / 4096 - m_va s m / 4096)) (map_page_flags fl)) ∧
    translate (memory_of s) (root v s) va = Some (f_paddr (frs s f) + (va - m_va s m), writes fl, true).
Proof.
  intros Hi Hm Hf [Hu (f' & Hf' & Hin)]. assert (f' = f) as -> by congruence. pose proof (vi_pages _ _ _ _ _ Hi) as [].
  destruct (po_run v m f Hm Hf) as (Hr & Hfo & Hum & Ha & Hb). destruct (po_leaf v m f Hm Hf) as (fl0 & (fl & H1 & H2 & ->) & Hall).
  exists fl. split; [done|]. split; [done|]. specialize (Hall va Hu Hin). split; [done|].
  destruct (frame_page (frs s f) (va / 4096 - m_va s m / 4096) Hfo) as [Hp _]; [unfold in_run, npages in Hin; lia|].
  rewrite (leaf_translate _ R _ _ _ fl po_wf (po_root v Hr) Hu Hp) by (done || (destruct Hfo as (_ & E & _); rewrite (Z.mul_comm 4096), Z.mod_add by lia; done)).
  rewrite <-Z.add_assoc, (page_offset va (m_va s m) _ Ha eq_refl). done.
Qed.

Lemma inv_authorised x g s : vm_inv R everything x g s → authorised s.
Proof.
  intros Hi v va p w u Hr Hu Ht. pose proof (vi_pages _ _ _ _ _ Hi) as [].
  destruct (leaf_on (leaf (memory_of s) (root v s) va)) eqn:Ho.
  2:{ by rewrite (proj2 (translate_leaf_off _ R _ va po_wf (po_root v Hr) (user_range va Hu)) Ho) in Ht. }
  destruct (po_only v va Hr Hu Ho) as (m & Hm & Hc). pose proof Hc as [_ (f & Hf & Hin)].
  destruct (run_translate _ x g s v m f va Hi Hm Hf Hc) as (fl & H1 & H2 & Hl & Ht'). rewrite Ht in Ht'. injection Ht' as -> -> ->.
  exists f, (m_va s m), (m_boot s m). destruct (po_run v m f Hm Hf) as (_ & _ & Hum & Ha & _).
  split; [rewrite (space_maps_eq _ x g) by done; apply list_elem_of_fmap; exists m; unfold record_view; by rewrite Hf|].
  split. { unfold in_run in Hin. pose proof (Z.div_mod va 4096 ltac:(lia)). pose proof (Z.div_mod (m_va s m) 4096 ltac:(lia)).
           pose proof (Z.mod_pos_bound va 4096 ltac:(lia)). lia. }
  split; [done|]. split; [done|]. split; [by apply (vi_auth _ _ _ _ _ Hi v m f)|].
  intros Hw. eexists. split; [done|]. destruct (user_flags_spec fl H1 H2) as (_ & _ & E3 & E4).
  rewrite entry_has by done. apply E4. by rewrite E3.
Qed.
(** ** Views of the operations *)

(** An address of the user window or of the kernel's half. *)
Definition seen va : Prop := uva va ∨ ¬ user va.

Lemma unchanged_view A x g s s' : vm_inv R A x g s → unchanged R A x g s s' →
  vm_ok A x s' ∧ (∀ v, space_maps v s' = space_maps v s) ∧ has_same (cs s) (cs s') ∧
  (∀ c va, R c → seen va → translate (memory_of s') c va = translate (memory_of s) c va).
Proof.
  intros Hi (g' & Hi' & Ev & _ & Hs & He & Hh). split; [by exists g'|]. split; [|split; [done|]].
  - intros v. rewrite (space_maps_eq A x g' s'), (space_maps_eq A x g s), Ev by done. apply kept_view. by apply still_kept.
  - intros c va Hc Hv. apply (mem_eqv_translate R); [apply Hi|apply Hi'|done|done|done].
Qed.

Lemma outside_run va n va' : uva va → va mod 4096 = 0 → va' < va ∨ va + 4096 * n ≤ va' → ¬ in_run va 0 n va'.
Proof.
  intros Hu Ha Hv Hi. unfold in_run in Hi. pose proof (Z.div_mod va 4096 ltac:(lia)). pose proof (Z.div_mod va' 4096 ltac:(lia)).
  pose proof (Z.mod_pos_bound va' 4096 ltac:(lia)). lia.
Qed.

Lemma inside_run va n i : uva va → va mod 4096 = 0 → va + 4096 * n ≤ 2 ^ 47 → 0 ≤ i < 4096 * n → uva (va + i) ∧ in_run va 0 n (va + i).
Proof.
  intros Hu Ha Hb Hi. unfold uva, USER_PRIVATE_BASE, USER_SPACE_TOP, in_run in *. split; [lia|].
  pose proof (Z.div_mod va 4096 ltac:(lia)). pose proof (Z.div_mod (va + i) 4096 ltac:(lia)).
  pose proof (Z.mod_pos_bound (va + i) 4096 ltac:(lia)). lia.
Qed.

(** The pages of the new mapping and no others. *)
Lemma mapped_view A x g s v f va fl s' : vm_inv R A x g s → usable v s = true → free_run s v f va → map_done R A x g s v f va fl s' →
  vm_ok A x s' ∧
  space_maps v s' = (Some f, va, bool_decide (pt_pool (vss s v) = None)) :: space_maps v s ∧
  (∀ v', v' ≠ v → space_maps v' s' = space_maps v' s) ∧
  (0 ≤ fl → map_flags_ok fl = true → ∀ i, 0 ≤ i < 4096 * npages s f → translate (memory_of s) (root v s) (va + i) = None ∧
     translate (memory_of s') (root v s) (va + i) = Some (f_paddr (frs s f) + i, writes fl, true)) ∧
  (∀ c va', R c → seen va' → c ≠ root v s ∨ va' < va ∨ va + 4096 * npages s f ≤ va' →
     translate (memory_of s') c va' = translate (memory_of s) c va').
Proof.
  intros Hi Hus [Hrun Hoff] (g' & m & Hi' & Ev & _ & Hf & Hva & Hb & Hk & Ht & Hmap).
  pose proof Hrun as (Hfo & Hu & Ha & Hbd). pose proof (usable_root v s Hus) as Hr.
  pose proof (po_root _ _ _ (vi_pages _ _ _ _ _ Hi) v Hr) as HR. split; [by exists g'|].
  split; [|split; [|split]].
  - rewrite (space_maps_eq A x g' s'), (space_maps_eq A x g s), Ev, upd_fn_same by done. cbn [fmap list_fmap].
    f_equal; [unfold record_view; by rewrite Hf, Hva, Hb|by apply kept_view].
  - intros v' Hne. rewrite (space_maps_eq A x g' s'), (space_maps_eq A x g s), Ev, upd_fn_other by done. by apply kept_view.
  - intros Hfl0 Hfl i Hi0. destruct (inside_run va (npages s f) i Hu Ha Hbd Hi0) as [Hui Hin]. split.
    + apply (translate_leaf_off _ R); [apply Hi|done|by apply user_range|by apply Hoff].
    + pose proof (Hmap (root v s) (va + i) HR (or_introl Hui)) as Hl. rewrite decide_True in Hl by done.
      assert (0 ≤ (va + i) / 4096 - va / 4096 < pages_of (frs s f)) as Hj by (unfold in_run, npages in Hin; lia).
      rewrite u64_frame in Hl by done. destruct (frame_page _ _ Hfo Hj) as [Hp _].
      rewrite (leaf_translate _ R _ _ _ fl (po_wf _ _ _ (vi_pages _ _ _ _ _ Hi')) HR Hui Hp) by
        (done || (destruct Hfo as (_ & E & _); rewrite (Z.mul_comm 4096), Z.mod_add by lia; done)).
      rewrite <-Z.add_assoc, (page_offset (va + i) va _ Ha eq_refl). do 3 f_equal. lia.
  - intros c va' Hc Hv Hout. apply (leaf_same_translate R); [done|done|]. rewrite Hmap by done. rewrite decide_False; [done|].
    intros (-> & _ & Hin). destruct Hout as [?|Hout]; [done|]. by apply (outside_run va _ va' Hu Ha Hout).
Qed.

(** Removals: what is not under a removed record translates as it did. *)
Lemma shrunk_view A A' x x' g g' s s' : vm_inv R A x g s → vm_inv R A' x' g' s' → shrunk R g g' s s' →
  (∀ v, lv g' v = lv g v → space_maps v s' = space_maps v s) ∧
  (∀ v m va, m ∈ lv g v → m ∉ lv g' v → covers s m va → translate (memory_of s') (root v s) va = None) ∧
  (∀ c va, R c → seen va → (∀ v m, root v s = c → m ∈ lv g v → m ∉ lv g' v → ¬ covers s m va) →
     translate (memory_of s') c va = translate (memory_of s) c va).
Proof.
  intros Hi Hi' [Hsub Hk Ht Hl]. pose proof Hk as ((Er & _) & _). split; [|split].
  - intros v E. rewrite (space_maps_eq A' x' g' s'), (space_maps_eq A x g s), <-E by done. by apply kept_view.
  - intros v m va Hm Hm' Hc. destruct (record_frame R A x g s v m Hi Hm) as (f & Hf & _). pose proof Hc as [Hu _].
    destruct (po_run _ _ _ (vi_pages _ _ _ _ _ Hi) v m f Hm Hf) as (Hr & _). pose proof (vi_pages _ _ _ _ _ Hi') as [].
    rewrite <-Er in Hr |- *. apply (translate_leaf_off _ R); [done|by apply po_root|by apply user_range|].
    destruct (leaf_on _) eqn:Ho; [|done]. destruct (po_only v va Hr Hu Ho) as (y & Hy & Hc').
    exfalso. apply Hm'. apply (covers_same g' s s' v) in Hc'; [|apply Hk|done].
    rewrite (VspaceMap.po_disj _ _ _ (vi_pages _ _ _ _ _ Hi) v m y va Hm); [done|by apply (sublist_in _ _ (Hsub v))|done|done].
  - intros c va Hc Hv Hn. apply (leaf_same_translate R); [done|done|by apply Hl].
Qed.

(** ** Mapping *)

(** The operation has added the mapping, or failed for a stated reason and changed
    nothing a holder can see. *)
Definition map_result s v f va fl e s' : Prop :=
  if decide (e = IRIS_OK)
  then map_args_ok va fl ∧ usable v s = true ∧
    space_maps v s' = (Some f, va, bool_decide (pt_pool (vss s v) = None)) :: space_maps v s ∧
    (∀ v', v' ≠ v → space_maps v' s' = space_maps v' s) ∧
    (pt_pool (vss s v) ≠ None → map_cap_has v f (cs s') = true) ∧
    (∀ i, 0 ≤ i < 4096 * npages s f → translate (memory_of s) (root v s) (va + i) = None ∧
       translate (memory_of s') (root v s) (va + i) = Some (f_paddr (frs s f) + i, writes fl, true)) ∧
    (∀ c va', R c → seen va' → c ≠ root v s ∨ va' < va ∨ va + 4096 * npages s f ≤ va' →
       translate (memory_of s') c va' = translate (memory_of s) c va')
  else map_fails s v f va fl e ∧ (∀ v', space_maps v' s' = space_maps v' s) ∧ has_same (cs s) (cs s') ∧
    (∀ c va', R c → seen va' → translate (memory_of s') c va' = translate (memory_of s) c va').

Lemma map_post_view x g s v f va fl r : 0 ≤ fl → vm_inv R everything x g s → map_post R everything x g s v f va fl r →
  vm_ok everything x r.2 ∧ map_result s v f va fl r.1 r.2.
Proof.
  intros Hfl Hi [(He & Ha & Hus & Hfr & Hd)|[Hf Hu]]; unfold map_result.
  - rewrite decide_True by done. destruct (mapped_view _ x g s v f va fl _ Hi Hus Hfr Hd) as (H1 & H2 & H3 & H4 & H5).
    split; [done|]. do 4 (split; [done|]). split; [|split; [|done]]; [|by apply H4; destruct Ha].
    intros Hp. destruct Hd as (g' & m & Hi' & Ev & _ & Ef & _ & Eb & _).
    destruct (vi_auth _ _ _ _ _ Hi' v m f) as [E|E]; [rewrite Ev, upd_fn_same; left|done|done| |done].
    rewrite Eb in E. by apply bool_decide_eq_true in E.
  - destruct (unchanged_view _ x g s _ Hi Hu) as (H1 & H2 & H3 & H4). split; [done|].
    by rewrite decide_False by (by eapply map_fails_error).
Qed.

Lemma map_view x s v f va fl src :
  vm_ok everything x s → frame_ok (frs s f) → 0 ≤ va → 0 ≤ fl → obj_room 3 f (cs s) → src_names src f (cs s) → (∀ p, pt_pool (vss s v) = Some p → pool_ok p (cs s)) →
  mapping_count (vss s v) + 1 < 2 ^ 32 → mapped_count (frs s f) + 1 < 2 ^ 32 →
  returns (kframe_map_page_from f v va fl src s) (λ r, vm_ok everything x r.2 ∧ map_result s v f va fl r.1 r.2).
Proof.
  intros [g Hi] Hf Hva Hfl Hr Hs Hp Hn1 Hn2. eapply returns_mono; [apply (map_spec R everything x g); try done|].
  - by destruct (vi_vcount _ _ _ _ _ Hi v) as [<- _].
  - by destruct (vi_fcount _ _ _ _ _ Hi f) as [<- _].
  - intros r. by apply map_post_view.
Qed.

(** C6: Mapping a frame (kframe_map_page, kframe_map_page_from) either adds exactly one
    mapping or changes nothing.  On success the space gets the one new mapping, its
    pages translate to the frame byte by byte with the requested write permission and
    with the user bit, and were free before; no other translation in any space
    changes, and a space with a pool holds a capability to the frame.  On every error
    path (bad arguments, no record, dead space, pages taken, a missing table, a
    capability that cannot be installed) mappings, capabilities and translations are as
    they were. *)
Theorem kframe_map_page_exact x s v f va fl src :
  vm_ok everything x s → frame_ok (frs s f) → 0 ≤ va → 0 ≤ fl → obj_room 3 f (cs s) → src_names src f (cs s) → (∀ p, pt_pool (vss s v) = Some p → pool_ok p (cs s)) →
  mapping_count (vss s v) + 1 < 2 ^ 32 → mapped_count (frs s f) + 1 < 2 ^ 32 →
  returns (kframe_map_page_from f v va fl src s) (λ r, vm_ok everything x r.2 ∧ map_result s v f va fl r.1 r.2).
Proof. apply map_view. Qed.

(** ** Unmapping *)

Inductive unmap_refused s v f va : iris_error_t → Prop :=
  | UrArg : kframe_va_valid va = false → unmap_refused s v f va IRIS_ERR_INVALID_ARG
  | UrSpace : usable v s = false → unmap_refused s v f va IRIS_ERR_BAD_HANDLE
  | UrNone : (∀ o b, (o, va, b) ∉ space_maps v s) → unmap_refused s v f va IRIS_ERR_NOT_FOUND
  | UrOther o b : (o, va, b) ∈ space_maps v s → o ≠ Some f → unmap_refused s v f va IRIS_ERR_INVALID_ARG.

Definition unmap_result s v f va e s' : Prop :=
  if decide (e = IRIS_OK)
  then (∃ l b l', space_maps v s = l ++ (Some f, va, b) :: l' ∧ space_maps v s' = l ++ l') ∧
    (∀ v', v' ≠ v → space_maps v' s' = space_maps v' s) ∧
    (∀ i, 0 ≤ i < 4096 * npages s f → translate (memory_of s') (root v s) (va + i) = None) ∧
    (∀ j, 0 ≤ j < npages s f → (v, page_va va j) ∈ shoot s') ∧
    (∀ c va', R c → seen va' → c ≠ root v s ∨ va' < va ∨ va + 4096 * npages s f ≤ va' →
       translate (memory_of s') c va' = translate (memory_of s) c va') ∧
    (∀ v' o', v' ≠ v ∨ o' ≠ f → map_cap_has v' o' (cs s') = map_cap_has v' o' (cs s)) ∧
    (map_cap_has v f (cs s') = true ↔ map_cap_has v f (cs s) = true ∧ ∃ va' b, (Some f, va', b) ∈ space_maps v s')
  else unmap_refused s v f va e ∧ s' = s.

Lemma in_maps A x g s v o va b : vm_inv R A x g s → (o, va, b) ∈ space_maps v s ↔ ∃ m, m ∈ lv g v ∧ m_frame s m = o ∧ m_va s m = va ∧ m_boot s m = b.
Proof.
  intros Hi. rewrite (space_maps_eq A x g) by done. rewrite list_elem_of_fmap. unfold record_view.
  split; [intros (m & [= -> -> ->] & Hm)|intros (m & Hm & <- & <- & <-)]; eauto 10.
Qed.

Lemma unmap_refused_view A x g s v f va e : vm_inv R A x g s → unmap_fails g s v f va e → unmap_refused s v f va e.
Proof.
  intros Hi [?|?|Hn|m Hm E Hf]; [by apply UrArg|by apply UrSpace|apply UrNone|].
  - intros o b (m & Hm & _ & E & _)%(in_maps A x g); [|done]. by apply (Hn m).
  - apply (UrOther _ _ _ _ (m_frame s m) (m_boot s m)); [|done]. apply (in_maps A x g); [done|]. by exists m.
Qed.

Lemma unmap_refused_error s v f va e : unmap_refused s v f va e → e ≠ IRIS_OK.
Proof. by intros []. Qed.

Lemma lv_nodup A x g s v : vm_inv R A x g s → NoDup (lv g v).
Proof. intros Hi. eapply chain_nodup, (lo_v _ _ _ (vi_lists _ _ _ _ _ Hi) v). Qed.

Section one_removed.
Context (A A' : N → Prop) (x x' : N → Z) (g g' : ghost) (s s' : vm C) (v f : N) (m : mnode).
Context (Hi : vm_inv R A x g s) (Hi' : vm_inv R A' x' g' s').
Context (Hm : m ∈ lv g v) (Hf : m_frame s m = Some f).
Context (Ev : ∀ v', lv g' v' = lv (drop v f m g) v') (Hsh : shrunk R g g' s s').

Lemma removed_out v' y : y ∈ lv g v' → y ∉ lv g' v' → v' = v ∧ y = m.
Proof.
  intros Hy Hn. rewrite Ev in Hn. destruct (decide (y = m)) as [->|Hne].
  - split; [|done]. eapply lv_unique; [apply Hi|done|done].
  - exfalso. apply Hn. cbn [drop lv]. by apply not_in_drop.
Qed.

Lemma removed_not : m ∉ lv g' v.
Proof. rewrite Ev. cbn [drop lv]. apply drop_out. intros v' Hv'. eapply lv_unique; [apply Hi|done|done]. Qed.

Lemma removed_split : ∃ l b l', space_maps v s = l ++ (Some f, m_va s m, b) :: l' ∧ space_maps v s' = l ++ l'.
Proof.
  pose proof (lv_nodup _ _ _ _ v Hi) as Hn. pose proof Hm as Hm0. apply list_elem_of_split in Hm0 as (l & l' & E).
  exists (record_view s <$> l), (m_boot s m), (record_view s <$> l'). split.
  - rewrite (space_maps_eq A x g), E, fmap_app, fmap_cons by done. do 2 f_equal. unfold record_view. by rewrite Hf.
  - rewrite (space_maps_eq A' x' g'), (kept_view g' s s' v (sh_kept _ _ _ _ _ Hsh)), Ev by done. cbn [drop lv]. rewrite upd_fn_same.
    rewrite E in Hn |- *. by rewrite filter_out, fmap_app.
Qed.

Lemma removed_others v' : v' ≠ v → space_maps v' s' = space_maps v' s.
Proof.
  intros Hne. rewrite (space_maps_eq A' x' g'), (kept_view g' s s' v' (sh_kept _ _ _ _ _ Hsh)), (space_maps_eq A x g s), Ev by done.
  cbn [drop lv]. by rewrite upd_fn_other.
Qed.

Lemma removed_pages i : 0 ≤ i < 4096 * npages s f → translate (memory_of s') (root v s) (m_va s m + i) = None.
Proof.
  intros Hi0. destruct (shrunk_view A A' x x' g g' s s' Hi Hi' Hsh) as (_ & Hoff & _).
  destruct (po_run _ _ _ (vi_pages _ _ _ _ _ Hi) v m f Hm Hf) as (_ & _ & Hu & Ha & Hb).
  destruct (inside_run _ _ i Hu Ha Hb Hi0) as [Hui Hin]. apply (Hoff v m); [done|apply removed_not|]. split; [done|]. eauto.
Qed.

Lemma removed_elsewhere c va : R c → seen va → c ≠ root v s ∨ va < m_va s m ∨ m_va s m + 4096 * npages s f ≤ va →
  translate (memory_of s') c va = translate (memory_of s) c va.
Proof.
  intros Hc Hv Hout. destruct (shrunk_view A A' x x' g g' s s' Hi Hi' Hsh) as (_ & _ & Hsame). apply Hsame; [done|done|].
  intros v' y Hr Hy Hy' [_ (f' & Hf' & Hin)]. destruct (removed_out v' y Hy Hy') as [-> ->]. destruct Hout as [?|Hout]; [by subst|].
  destruct (po_run _ _ _ (vi_pages _ _ _ _ _ Hi) v m f Hm Hf) as (_ & _ & Hu & Ha & Hb). assert (f' = f) as -> by congruence.
  by apply (outside_run _ _ va Hu Ha Hout).
Qed.

Lemma removed_left : (∃ y, y ∈ lv g v ∧ y ≠ m ∧ m_frame s y = Some f) ↔ ∃ va b, (Some f, va, b) ∈ space_maps v s'.
Proof.
  destruct (sh_kept _ _ _ _ _ Hsh) as ((_ & _ & E) & _). split.
  - intros (y & Hy & Hne & Hfy). assert (y ∈ lv g' v) as Hy' by (rewrite Ev; cbn [drop lv]; by apply not_in_drop).
    exists (m_va s' y), (m_boot s' y). apply (in_maps A' x' g'); [done|]. exists y. destruct (E v y Hy') as [-> _]. done.
  - intros (va & b & (y & Hy & Hfy & _ & _)%(in_maps A' x' g')); [|done]. exists y. destruct (E v y Hy) as [E1 _]. rewrite <-E1. split; [|split; [|done]].
    + by apply (sublist_in _ _ (sh_sub _ _ _ _ _ Hsh v)).
    + intros ->. by apply removed_not.
Qed.
End one_removed.

Lemma unmap_post_view x g s v f va r : vm_inv R everything x g s → unmap_post R everything x g s v f va r →
  vm_ok everything x r.2 ∧ unmap_result s v f va r.1 r.2.
Proof.
  intros Hi [(He & m & Hm & <- & Hf & (g' & Hi' & Ev & Hsh & [_ Hfl] & Hoth & Hcap & _))|[Hf ->]]; unfold unmap_result.
  - rewrite decide_True by done. split; [by exists g'|]. split; [by eapply (removed_split _ _ _ _ g g')|].
    split; [intros v'; by eapply (removed_others _ _ _ _ g g')|]. split; [intros i; by eapply (removed_pages _ _ _ _ g g')|].
    split; [intros j; apply (Hfl v m f); try done; by eapply (removed_not _ _ g g')|].
    split; [intros c va; by eapply (removed_elsewhere _ _ _ _ g g')|]. split; [done|]. rewrite Hcap.
    by rewrite (removed_left _ _ _ _ g g' s r.2 v f m Hi Hi' Hm Ev Hsh).
  - split; [by exists g|]. apply (unmap_refused_view everything x) in Hf; [|done].
    by rewrite decide_False by (by eapply unmap_refused_error).
Qed.

Lemma unmap_view x s v f va : vm_ok everything x s → 0 ≤ x f → fin_epoch s + 1 < 2 ^ 64 →
  returns (kframe_unmap_page f v va s) (λ r, vm_ok everything x r.2 ∧ unmap_result s v f va r.1 r.2).
Proof.
  intros [g Hi] Hx He. eapply returns_mono; [by apply (unmap_page_spec R everything x g)|]. intros r. by apply unmap_post_view.
Qed.

(** C18: Unmapping (kframe_unmap_page) removes exactly the named mapping.  The record at
    the address leaves the list of the space, every byte of its pages stops
    translating, each page is invalidated on the other processors, and nothing else
    translates differently in any space.  The capability of the space to the frame
    goes exactly when this was the last mapping of the frame there.  A refused call
    returns the stated error and leaves the whole state as it was.  The call always
    returns: the capability it deletes runs the finaliser, which never needs a third
    nested unmap. *)
Theorem kframe_unmap_page_exact x s v f va : vm_ok everything x s → 0 ≤ x f → fin_epoch s + 1 < 2 ^ 64 →
  returns (kframe_unmap_page f v va s) (λ r, vm_ok everything x r.2 ∧ unmap_result s v f va r.1 r.2).
Proof. apply unmap_view. Qed.

(** ** Losing a capability *)

(** The mappings of [f] that have neither boot authority nor a capability. *)
Definition stray f v s (w : option N * Z * bool) : Prop := w.1.1 = Some f ∧ w.2 = false ∧ map_cap_has v f (cs s) = false.
#[local] Instance stray_dec f v s w : Decision (stray f v s w).
Proof. unfold stray. apply _. Defined.

Definition finalise_result s f s' : Prop :=
  has_same (cs s) (cs s') ∧
  (∀ v, space_maps v s' = filter (λ w, ¬ stray f v s w) (space_maps v s)) ∧
  (∀ v w, w ∈ space_maps v s → stray f v s w → root v s ≠ 0 ∧
     (∀ i, 0 ≤ i < 4096 * npages s f → translate (memory_of s') (root v s) (w.1.2 + i) = None) ∧
     (∀ j, 0 ≤ j < npages s f → (v, page_va w.1.2 j) ∈ shoot s')) ∧
  (∀ c va, R c → seen va →
     (∀ v w, c = root v s → w ∈ space_maps v s → stray f v s w → va < w.1.2 ∨ w.1.2 + 4096 * npages s f ≤ va) →
     translate (memory_of s') c va = translate (memory_of s) c va).

Lemma orphan_stray s v f m : orphan f s v m ↔ stray f v s (record_view s m).
Proof. done. Qed.

Lemma filter_fmap_view (P : mnode → Prop) (Q : option N * Z * bool → Prop) `{∀ y, Decision (P y), ∀ y, Decision (Q y)} s (l : list mnode) :
  (∀ m, P m ↔ Q (record_view s m)) → record_view s <$> filter P l = filter Q (record_view s <$> l).
Proof.
  intros E. induction l as [|m l IH]; [done|]. rewrite fmap_cons, !filter_cons. pose proof (E m).
  do 2 case_decide; try tauto. rewrite fmap_cons. by f_equal.
Qed.

Section finalised.
Context (A A' : N → Prop) (x : N → Z) (g g' : ghost) (s s' : vm C) (f : N).
Context (Hi : vm_inv R A x g s) (Hi' : vm_inv R A' x g' s') (Hsh : shrunk R g g' s s') (Hgone : gone (orphan f s) g g').

Lemma finalised_maps v : space_maps v s' = filter (λ w, ¬ stray f v s w) (space_maps v s).
Proof.
  rewrite (space_maps_eq A' x g'), (kept_view g' s s' v (sh_kept _ _ _ _ _ Hsh)), (space_maps_eq A x g s) by done.
  rewrite <-(filter_fmap_view (λ m, ¬ stray f v s (record_view s m)) (λ w, ¬ stray f v s w) s (lv g v)) by done. f_equal.
  apply sublist_filter_eq; [apply Hsh|by eapply lv_nodup|]. intros m Hm. by rewrite (Hgone v m Hm), orphan_stray.
Qed.

Lemma stray_record v w : w ∈ space_maps v s → stray f v s w →
  ∃ m, m ∈ lv g v ∧ m ∉ lv g' v ∧ m_frame s m = Some f ∧ m_va s m = w.1.2 ∧ root v s ≠ 0 ∧ run_ok s f (m_va s m).
Proof.
  intros Hw Hst. rewrite (space_maps_eq A x g) in Hw by done. apply list_elem_of_fmap in Hw as (m & -> & Hm). exists m.
  pose proof Hst as [Hf _]. cbn in Hf. destruct (po_run _ _ _ (vi_pages _ _ _ _ _ Hi) v m f Hm Hf) as [Hr Hrun].
  split; [done|]. split; [|done]. rewrite (Hgone v m Hm), orphan_stray. tauto.
Qed.

Lemma finalised_pages v w i : w ∈ space_maps v s → stray f v s w → 0 ≤ i < 4096 * npages s f →
  translate (memory_of s') (root v s) (w.1.2 + i) = None.
Proof.
  intros Hw Hst Hi0. destruct (stray_record v w Hw Hst) as (m & Hm & Hm' & Hf & <- & _ & (_ & Hu & Ha & Hb)).
  destruct (inside_run _ _ i Hu Ha Hb Hi0) as [Hui Hin]. destruct (shrunk_view A A' x x g g' s s' Hi Hi' Hsh) as (_ & Hoff & _).
  apply (Hoff v m); [done..|]. split; [done|]. eauto.
Qed.

Lemma finalised_elsewhere c va : R c → seen va →
  (∀ v w, c = root v s → w ∈ space_maps v s → stray f v s w → va < w.1.2 ∨ w.1.2 + 4096 * npages s f ≤ va) →
  translate (memory_of s') c va = translate (memory_of s) c va.
Proof.
  intros Hc Hv Hout. destruct (shrunk_view A A' x x g g' s s' Hi Hi' Hsh) as (_ & _ & Hsame). apply Hsame; [done|done|].
  intros v m Hr Hm Hm' [_ (f' & Hf & Hin)]. rewrite (Hgone v m Hm), orphan_stray in Hm'. apply dec_stable in Hm'.
  pose proof Hm' as [Hf1 _]. cbn in Hf1. assert (f' = f) as -> by congruence.
  destruct (po_run _ _ _ (vi_pages _ _ _ _ _ Hi) v m f Hm Hf) as (_ & _ & Hu & Ha & _).
  apply (outside_run (m_va s m) (npages s f) va Hu Ha); [|done]. apply (Hout v (record_view s m)); [done| |done].
  rewrite (space_maps_eq A x g) by done. apply list_elem_of_fmap. eauto.
Qed.
End finalised.

Lemma finalise_view x s f : vm_ok (λ o, o ≠ f) x s → 0 ≤ x f → fin_epoch s + 1 < 2 ^ 64 →
  returns (kvspace_finalise_frame f s) (λ s', vm_ok everything x s' ∧ finalise_result s f s').
Proof.
  intros [g Hi] Hx He. eapply returns_mono; [by apply (finalise_spec R (λ o, o ≠ f) x g)|].
  intros s' (g' & Hi' & Hsh & [_ Hfl] & Hh & _ & Hgone). split.
  { exists g'. destruct Hi'. split; try done. intros v m o Hm Ho _. apply (vi_auth v m o Hm Ho). destruct (decide (o = f)); auto. }
  split; [done|]. split; [by eapply finalised_maps|]. split; [|by eapply finalised_elsewhere].
  intros v w Hw Hst. destruct (stray_record _ _ g g' s f Hi Hgone v w Hw Hst) as (m & Hm & Hm' & Hf & E & Hr & _).
  split; [done|]. split; [intros i; by eapply finalised_pages|]. intros j Hj. rewrite <-E. by apply (Hfl v m f).
Qed.

(** C7: A frame whose capabilities changed is finalised (kvspace_finalise_frame, run by
    every deletion of a capability): starting from a state in which only the mappings
    of that frame may lack authority, it removes exactly the mappings of the frame,
    in every space, that are neither boot mappings nor covered by a capability of
    the space.  Their pages stop translating and are invalidated on the other
    processors, all other translations stay, and afterwards every mapping has its
    authority again.  It always returns. *)
Theorem kvspace_finalise_frame_exact x s f : vm_ok (λ o, o ≠ f) x s → 0 ≤ x f → fin_epoch s + 1 < 2 ^ 64 →
  returns (kvspace_finalise_frame f s) (λ s', vm_ok everything x s' ∧ finalise_result s f s').
Proof. apply finalise_view. Qed.

(** ** Invalidation *)

Definition invalidate_result s v s' : Prop :=
  usable v s' = false ∧ space_maps v s' = [] ∧ (∀ v', v' ≠ v → space_maps v' s' = space_maps v' s) ∧ has_same (cs s) (cs s') ∧
  (root v s ≠ 0 → ∀ va, uva va → translate (memory_of s') (root v s) va = None) ∧
  (∀ c va, R c → seen va → c ≠ root v s ∨ ¬ user va → translate (memory_of s') c va = translate (memory_of s) c va).

Lemma invalidate_view x s v : vm_ok everything x s → (∀ o, 0 ≤ x o) →
  returns (kvspace_invalidate v s) (λ s', vm_ok everything x s' ∧ invalidate_result s v s').
Proof.
  intros [g Hi] Hx. eapply returns_mono; [by apply (invalidate_spec R everything x g)|].
  intros s' (g' & Hi' & Hnil & Hoth & Hval & Hr & Hh & Ht & Hk & Hl). split; [by exists g'|]. split; [unfold usable; by rewrite Hval|].
  split; [by rewrite (space_maps_eq everything x g'), Hnil by done|]. split; [|split; [done|split]].
  - intros v' Hne. rewrite (space_maps_eq everything x g' s'), (space_maps_eq everything x g s), <-(Hoth v' Hne) by done.
    apply list_fmap_ext. intros i m Hm%list_elem_of_lookup_2. unfold record_view. by destruct (Hk v' m Hm) as (-> & -> & ->).
  - intros Hrv va Hu. pose proof (vi_pages _ _ _ _ _ Hi') as []. rewrite <-Hr in Hrv |- *.
    apply (translate_leaf_off _ R); [done|by apply po_root|by apply user_range|].
    destruct (leaf_on _) eqn:Ho; [|done]. destruct (po_only v va Hrv Hu Ho) as (m & Hm & _). rewrite Hnil in Hm. by apply elem_of_nil in Hm.
  - intros c va Hc Hv Hout. apply (leaf_same_translate R); [done|done|]. apply Hl; [done|done|]. intros m Er _ [Hu _].
    destruct Hout as [?|Hn]; [by subst|]. by apply Hn, user_range.
Qed.

(** C19: Invalidating a space (kvspace_invalidate, when its last capability goes) leaves
    nothing of it: the space is no longer usable, has no mapping, and no user address
    translates under its root any more, whatever was mapped.  The other spaces keep
    their mappings and translations, the kernel's half stays in place, and every
    frame reference the mappings held has been returned. *)
Theorem kvspace_invalidate_clears x s v : vm_ok everything x s → (∀ o, 0 ≤ x o) →
  returns (kvspace_invalidate v s) (λ s', vm_ok everything x s' ∧ invalidate_result s v s').
Proof. apply invalidate_view. Qed.

(** ** Histories *)

Inductive vm_op :=
  | OpMap (f v : N) (va fl : Z) (src : option (N * N))
  | OpUnmap (f v : N) (va : Z)
  | OpUnmapAt (v : N) (va : Z)
  | OpInvalidate (v : N)
  | OpLose (v f : N).

(** The space's capability to the frame is deleted, and with it what it authorised
    ([kcnode_slot_drop_old], [kvspace_finalise_orphans]). *)
Definition lose_cap v f s : res (vm C) := '(_, c) ← map_cap_delete v f (cs s); kvspace_finalise_frame f (with_cs c s).

Definition run_op (op : vm_op) s : res (vm C) :=
  match op with
  | OpMap f v va fl src => '(_, s) ← kframe_map_page_from f v va fl src s; Ret s
  | OpUnmap f v va => '(_, s) ← kframe_unmap_page f v va s; Ret s
  | OpUnmapAt v va => '(_, s) ← kvspace_unmap_page v va s; Ret s
  | OpInvalidate v => kvspace_invalidate v s
  | OpLose v f => lose_cap v f s
  end.

(** The counters have room, and a frame is where the physical memory is. *)
Definition allowed s (op : vm_op) : Prop :=
  match op with
  | OpMap f v va fl src => frame_ok (frs s f) ∧ 0 ≤ va ∧ 0 ≤ fl ∧ obj_room 3 f (cs s) ∧ src_names src f (cs s) ∧
      (∀ p, pt_pool (vss s v) = Some p → pool_ok p (cs s)) ∧
      mapping_count (vss s v) + 1 < 2 ^ 32 ∧ mapped_count (frs s f) + 1 < 2 ^ 32
  | OpUnmap _ _ _ | OpLose _ _ => fin_epoch s + 1 < 2 ^ 64
  | _ => True
  end.

Definition vm_step s s' : Prop := ∃ op, allowed s op ∧ run_op op s = Ret s'.

Lemma cap_gone_view x s v f : vm_ok everything x s →
  returns (map_cap_delete v f (cs s)) (λ '(_, c), vm_ok (λ o, o ≠ f) x (with_cs c s)).
Proof.
  intros [g Hi]. eapply returns_mono; [apply (caps_delete_ok (refs x g)); apply Hi|]. intros [b c] (Hc & _ & Hh & Hu).
  exists g. apply with_cs_inv; [|done|done|].
  - destruct Hi. split; try done. intros v' m o Hm Ho _. by apply (vi_auth v' m o).
  - intros v' m o Hm Ho Hne Ht. rewrite Hh, decide_False; [done|]. by intros [_ ?].
Qed.

Lemma lose_view x s v f : vm_ok everything x s → 0 ≤ x f → fin_epoch s + 1 < 2 ^ 64 →
  returns (lose_cap v f s) (vm_ok everything x).
Proof.
  intros Hi Hx He. unfold lose_cap. apply returns_bind. eapply returns_mono; [by apply (cap_gone_view x s v f)|]. intros [b c] Hc.
  eapply returns_mono; [apply (finalise_view x (with_cs c s) f); done|by intros s' [? _]].
Qed.

Lemma unmap_at_view x s v va : vm_ok everything x s → (∀ o, 0 ≤ x o) → returns (kvspace_unmap_page v va s) (λ r, vm_ok everything x r.2).
Proof.
  intros [g Hi] Hx. eapply returns_mono; [by apply (unmap_at_spec R everything x g)|].
  intros [e s'] [(_ & m & f & g' & _ & _ & _ & Hi' & _)|[-> _]]; by eexists.
Qed.

Lemma op_ok x s op : (∀ o, 0 ≤ x o) → vm_ok everything x s → allowed s op → returns (run_op op s) (vm_ok everything x).
Proof.
  intros Hx Hi. destruct op as [f v va fl src|f v va|v va|v|v f]; cbn [allowed run_op].
  - intros (? & ? & ? & ? & ? & ? & ? & ?). apply returns_bind. eapply returns_mono; [by apply (map_view x)|]. by intros [e s'] [? _].
  - intros He. apply returns_bind. eapply returns_mono; [by apply (unmap_view x)|]. by intros [e s'] [? _].
  - intros _. apply returns_bind. eapply returns_mono; [by apply (unmap_at_view x)|]. by intros [e s'] ?.
  - intros _. eapply returns_mono; [by apply (invalidate_view x)|]. by intros s' [? _].
  - intros He. by apply lose_view.
Qed.

(** C5: Isolation over histories.  After any sequence of maps, unmaps, invalidations
    and capability losses, in any order and over any spaces and frames, a user
    address translates only through a mapping of its own space, to the byte of that
    mapping's frame, under the authority of that space (boot mapping or capability),
    and never both writable and executable; and every further call returns. *)
Theorem vspace_history_authorised x s s' : (∀ o, 0 ≤ x o) → vm_ok everything x s → rtc vm_step s s' →
  vm_ok everything x s' ∧ authorised s' ∧ ∀ op, allowed s' op → ∃ s'', run_op op s' = Ret s'' ∧ vm_ok everything x s''.
Proof.
  intros Hx Hi Hs. assert (vm_ok everything x s') as Hi'.
  { induction Hs as [|s s1 s2 (op & Ha & E) _ IH]; [done|]. apply IH. pose proof (op_ok x s op Hx Hi Ha) as Hr. by rewrite E in Hr. }
  split; [done|]. split; [destruct Hi' as [g Hg]; by eapply inv_authorised|].
  intros op Ha. pose proof (op_ok x s' op Hx Hi' Ha) as Hr. destruct (run_op op s') as [s''| |]; [by exists s''|done..].
Qed.
End spec.

(** ** The theorems on a concrete system *)

Definition state_of {E} (r : res (E * vm vcaps)) : vm vcaps := match r with Ret (_, s) => s | _ => demo_vm end.
Definition code_of (r : res (iris_error_t * vm vcaps)) : option iris_error_t := match r with Ret (e, _) => Some e | _ => None end.

Lemma returns_at (r : res (iris_error_t * vm vcaps)) (P : iris_error_t → vm vcaps → Prop) e :
  returns r (λ r, P r.1 r.2) → code_of r = Some e → P e (state_of r).
Proof. destruct r as [[e' s]| |]; cbn; [|done..]. by intros ? [= <-]. Qed.
#[local] Opaque state_of kframe_map_page_from kframe_unmap_page kvspace_finalise_frame kvspace_invalidate.

(** The frame mapped, writable, in space 1. *)
#[local] Notation demo_map := (kframe_map_page_from (C:=vcaps) 1%N 1%N demo_va 1 None demo_vm).
#[local] Notation demo_mapped := (state_of demo_map).

Lemma demo_ok : vm_ok demo_root everything none_held demo_vm.
Proof. eexists. apply demo_inv. Qed.

Lemma demo_frame_ok : frame_ok (frs demo_vm 1).
Proof. done. Qed.

Lemma demo_room : obj_room 3 1 (cs demo_vm).
Proof. split; (eexists; split; [reflexivity|]); [by left|done]. Qed.

Lemma demo_pool p : pt_pool (vss demo_vm 1) = Some p → pool_ok p (cs demo_vm).
Proof. intros [= <-]. by eexists. Qed.

Lemma demo_root_1 : root 1 demo_vm = 0x2000.
Proof. reflexivity. Qed.

Lemma demo_uva : uva demo_va.
Proof. done. Qed.

Lemma demo_in_frame i : 0 ≤ i < 8192 → 0 ≤ i < 4096 * npages demo_vm 1.
Proof. done. Qed.

Lemma demo_mapped_in_frame i : 0 ≤ i < 8192 → 0 ≤ i < 4096 * npages demo_mapped 1.
Proof. assert (4096 * npages demo_mapped 1 = 8192) as -> by (vm_compute; reflexivity). done. Qed.

Lemma demo_page_1 : 0 ≤ 1 < npages demo_mapped 1.
Proof. vm_compute. split; [discriminate|reflexivity]. Qed.

Lemma demo_mapped_root : root 1 demo_mapped = 0x2000.
Proof. vm_compute. reflexivity. Qed.

Lemma demo_map_code : code_of demo_map = Some IRIS_OK.
Proof. vm_compute. reflexivity. Qed.

Lemma demo_mapped_ok : vm_ok demo_root everything none_held demo_mapped.
Proof.
  apply (returns_at demo_map (λ _ s, vm_ok demo_root everything none_held s) IRIS_OK); [|exact demo_map_code].
  eapply returns_mono; [apply (map_view demo_root none_held demo_vm 1 1 demo_va 1 None demo_ok demo_frame_ok); done || exact demo_room || exact I || exact demo_pool|].
  intros r [Hr _]. exact Hr.
Qed.

Lemma kframe_map_page_exact_witness :
  code_of demo_map = Some IRIS_OK ∧ space_maps 1 demo_mapped = [(Some 1%N, demo_va, false)] ∧ map_cap_has 1 1 (cs demo_mapped) = true ∧
  translate (memory_of demo_mapped) 0x2000 (demo_va + 0x1234) = Some (0xB234, true, true).
Proof.
  pose proof (returns_at demo_map (λ e s, vm_ok demo_root everything none_held s ∧ map_result demo_root demo_vm 1 1 demo_va 1 e s) _ (kframe_map_page_exact demo_root none_held demo_vm 1 1 demo_va 1 None
    demo_ok demo_frame_ok ltac:(done) ltac:(done) demo_room I demo_pool ltac:(done) ltac:(done)) demo_map_code) as [_ H].
  unfold map_result in H. rewrite decide_True in H by done. destruct H as (_ & _ & H1 & _ & H2 & H3 & _).
  split; [exact demo_map_code|]. split; [exact H1|]. split; [apply H2; discriminate|].
  destruct (H3 0x1234 (demo_in_frame 0x1234 ltac:(lia))) as [_ Ht]. rewrite demo_root_1 in Ht. rewrite Ht. reflexivity.
Defined.

#[local] Notation demo_unmap := (kframe_unmap_page 1%N 1%N demo_va demo_mapped).

Lemma kframe_unmap_page_exact_witness :
  code_of demo_unmap = Some IRIS_OK ∧ translate (memory_of (state_of demo_unmap)) 0x2000 (demo_va + 0x1234) = None ∧
  (1%N, demo_va + 0x1000) ∈ shoot (state_of demo_unmap) ∧ space_maps 1 (state_of demo_unmap) = [].
Proof.
  assert (code_of demo_unmap = Some IRIS_OK) as Hc by (vm_compute; reflexivity).
  pose proof (returns_at demo_unmap (λ e s, vm_ok demo_root everything none_held s ∧ unmap_result demo_root demo_mapped 1 1 demo_va e s) _ (kframe_unmap_page_exact demo_root none_held demo_mapped 1 1 demo_va
    demo_mapped_ok ltac:(done) ltac:(vm_compute; reflexivity)) Hc) as [_ H].
  unfold unmap_result in H. rewrite decide_True in H by done. destruct H as (_ & _ & H1 & H2 & _).
  split; [exact Hc|]. split; [|split; [|vm_compute; reflexivity]].
  - rewrite <-demo_mapped_root. exact (H1 0x1234 (demo_mapped_in_frame 0x1234 ltac:(lia))).
  - exact (H2 1 demo_page_1).
Defined.

(** The space's capability deleted, before the finalisation. *)
Definition demo_deleted : vm vcaps :=
  match map_cap_delete 1 1 (cs demo_mapped) with Ret (_, c) => with_cs c demo_mapped | _ => demo_mapped end.

Lemma demo_deleted_ok : vm_ok demo_root (λ o, o ≠ 1%N) none_held demo_deleted.
Proof.
  pose proof (cap_gone_view demo_root none_held demo_mapped 1 1 demo_mapped_ok) as H. unfold demo_deleted.
  destruct (map_cap_delete 1 1 (cs demo_mapped)) as [[b c]| |]; [exact H|done..].
Qed.

#[local] Opaque demo_deleted.

Lemma demo_deleted_root : root 1 demo_deleted = 0x2000.
Proof. vm_compute. reflexivity. Qed.

Lemma demo_deleted_in_frame : 0 ≤ 0 < 4096 * npages demo_deleted 1.
Proof. vm_compute. split; [discriminate|reflexivity]. Qed.

Lemma kvspace_finalise_frame_exact_witness :
  translate (memory_of demo_deleted) 0x2000 demo_va = Some (0xA000, true, true) ∧
  ∃ s', kvspace_finalise_frame 1 demo_deleted = Ret s' ∧ space_maps 1 s' = [] ∧ translate (memory_of s') 0x2000 demo_va = None.
Proof.
  split; [vm_compute; reflexivity|].
  pose proof (kvspace_finalise_frame_exact demo_root none_held demo_deleted 1 demo_deleted_ok ltac:(done) ltac:(vm_compute; reflexivity)) as H.
  destruct (kvspace_finalise_frame 1 demo_deleted) as [s'| |]; [|destruct H..]. destruct H as (_ & _ & H1 & H2 & _).
  exists s'. split; [reflexivity|]. split; [rewrite H1; vm_compute; reflexivity|].
  assert ((Some 1%N, demo_va, false) ∈ space_maps 1 demo_deleted) as Hin by (vm_compute; left).
  destruct (H2 1%N _ Hin ltac:(split; [reflexivity|split; vm_compute; reflexivity])) as (_ & H3 & _).
  specialize (H3 0 demo_deleted_in_frame). rewrite demo_deleted_root in H3. exact H3.
Defined.

Lemma kvspace_invalidate_clears_witness :
  ∃ s', kvspace_invalidate 1 demo_mapped = Ret s' ∧ space_maps 1 s' = [] ∧ translate (memory_of s') 0x2000 demo_va = None.
Proof.
  pose proof (kvspace_invalidate_clears demo_root none_held demo_mapped 1 demo_mapped_ok ltac:(done)) as H.
  destruct (kvspace_invalidate 1 demo_mapped) as [s'| |]; [|destruct H..]. destruct H as (_ & _ & H1 & _ & _ & H2 & _).
  exists s'. split; [reflexivity|]. split; [exact H1|].
  rewrite demo_mapped_root in H2. exact (H2 (λ E, ltac:(discriminate E)) demo_va demo_uva).
Defined.

Lemma demo_step : vm_step demo_vm demo_mapped.
Proof.
  exists (OpMap 1 1 demo_va 1 None). split.
  - split_and!; [exact demo_frame_ok|done|done|exact demo_room|exact I|exact demo_pool|done|done].
  - cbn [run_op]. pose proof demo_map_code as Hc. destruct demo_map as [[e s]| |]; [|done..]. reflexivity.
Qed.

(** The frame mapped, and the capability of the space lost again. *)
Lemma vspace_history_authorised_witness :
  ∃ s', rtc vm_step demo_vm s' ∧ authorised s' ∧ space_maps 1 s' = [].
Proof.
  assert (∃ s', lose_cap 1 1 demo_mapped = Ret s' ∧ space_maps 1 s' = []) as (s' & E & Hm).
  { pose proof (lose_view demo_root none_held demo_mapped 1 1 demo_mapped_ok ltac:(done) ltac:(vm_compute; reflexivity)) as H.
    assert (match lose_cap 1 1 demo_mapped with Ret s' => space_maps 1 s' | _ => [] end = []) as Hs by (vm_compute; reflexivity).
    destruct (lose_cap 1 1 demo_mapped) as [s'| |]; [|destruct H..]. by exists s'. }
  assert (rtc vm_step demo_vm s') as Hs.
  { eapply rtc_l; [|eapply rtc_l; [|apply rtc_refl]].
    - exact demo_step.
    - exists (OpLose 1 1). split; [vm_compute; reflexivity|]. exact E. }
  exists s'. split; [exact Hs|].
  destruct (vspace_history_authorised demo_root none_held demo_vm s' ltac:(done) demo_ok Hs) as (_ & Ha & _). split; [exact Ha|exact Hm].
Defined.
