(* ===== verification/SysCspace.v ===== *)
(** * Capability system calls

    The handlers a thread works on its own CSpace with: kernel/core/syscall,
    syscall_cspace.c (move, rotate, mint, revoke, identify, same object, set guard)
    and syscall_cnode_ops.c (delete, swap), with the restart of an unfinished call
    by syscall_dispatch.c.  Each resolves its arguments through the walks of
    [Cspace], which pin what they find, calls one primitive of [Kcnode], and drops
    its pins, last taken first dropped.

    [SysPins] has the reference accounting of the handlers, [SysCalls] the contract
    of each of them. *)

From Stdlib Require Import ZArith Lia.
From stdpp Require Import base numbers gmap list.
From S2P Require Import Prelude Rights Mdb Kobject Kcnode.
From S2P Require Import Cspace IpcCap.
Local Open Scope Z_scope.
Implicit Types (κ : kstate) (o cn idx : N) (l : list N).

(** ** The handlers *)

(** What the handlers read and write of the running thread. *)
Record sc_thread := ScThread {
  sct_root    : task_root;
  sct_reentry : bool;      (* sc_reentry *)
  sct_restart : bool;      (* sc_restart *)
  sct_acc     : Z;         (* sc_acc *)
}.
Implicit Types t : sc_thread.

(** What the caller reads in its return register: an error code or a value. *)
Definition sysval : Type := iris_error_t + Z.

(** [(err == IRIS_OK) ? syscall_ok_u64(0) : syscall_err(err)] *)
Definition sys_result (e : iris_error_t) : sysval :=
  if bool_decide (e = IRIS_OK) then inr 0 else inl e.

(** The releases at the end of a handler, in order. *)
Fixpoint put_all l κ : res kstate :=
  match l with [] => Ret κ | o :: l => κ ← put_refs o κ; put_all l κ end.

Definition cspace_own_root (root : option N) κ : res ((iris_error_t + N) * kstate) :=
  match root with
  | None => Ret (inl IRIS_ERR_NOT_FOUND, κ)
  | Some r => κ ← kobject_retain r κ; κ ← kobject_active_retain r κ; Ret (inr r, κ)
  end.

Definition cspace_resolve_cnode_for_publish (self : option task_root) (root : option N) (cptr : Z) κ
    : res ((iris_error_t + N) * kstate) :=
  '(r, κ) ← cspace_resolve_cap self root cptr RIGHT_WRITE κ;
  match r with
  | inl e => Ret (inl e, κ)
  | inr (obj, _, _) =>
      k ← get_obj obj κ;
      if negb (bool_decide (otype k = KOBJ_CNODE))
      then κ ← put_refs obj κ; Ret (inl IRIS_ERR_WRONG_TYPE, κ)
      else Ret (inr obj, κ)
  end.

(** A destination argument: CNode CPtr in the low half (0: the caller's own root),
    slot index in the high half. *)
Definition dest_cnode (arg : Z) : Z := Z.land arg 0xFFFFFFFF.
Definition dest_slot (arg : Z) : Z := u32 (Z.shiftr arg 32).

Definition resolve_dest t (dest : Z) κ : res ((iris_error_t + N) * kstate) :=
  if dest =? 0 then cspace_own_root (cspace_root (sct_root t)) κ
  else cspace_resolve_cnode_for_publish (Some (sct_root t)) (cspace_root (sct_root t)) dest κ.

Definition sys_cspace_move t (arg0 arg1 : Z) κ : res (sysval * kstate) :=
  match cspace_root (sct_root t) with
  | None => Ret (inl IRIS_ERR_INVALID_ARG, κ)
  | Some root =>
    if dest_slot arg1 =? 0 then Ret (inl IRIS_ERR_INVALID_ARG, κ)
    else
      '(r, κ) ← cspace_resolve_slot (Some root) arg0 κ;
      match r with
      | inl e => Ret (inl e, κ)
      | inr (src_cn, src_idx) =>
        '(d, κ) ← resolve_dest t (dest_cnode arg1) κ;
        match d with
        | inl e => κ ← put_all [src_cn] κ; Ret (inl e, κ)
        | inr dst_cn =>
          '(e, κ) ← kcnode_slot_move (Some src_cn) src_idx (Some dst_cn) (Z.to_N (dest_slot arg1)) κ;
          κ ← put_all [dst_cn; src_cn] κ;
          Ret (sys_result e, κ)
        end
      end
  end.

Definition sys_cspace_rotate t (arg0 arg1 arg2 : Z) κ : res (sysval * kstate) :=
  match cspace_root (sct_root t) with
  | None => Ret (inl IRIS_ERR_INVALID_ARG, κ)
  | Some root =>
    if dest_slot arg2 =? 0 then Ret (inl IRIS_ERR_INVALID_ARG, κ)
    else
      '(r, κ) ← cspace_resolve_slot (Some root) arg0 κ;
      match r with
      | inl e => Ret (inl e, κ)
      | inr (src_cn, src_idx) =>
        '(p, κ) ← cspace_resolve_slot (Some root) arg1 κ;
        match p with
        | inl e => κ ← put_all [src_cn] κ; Ret (inl e, κ)
        | inr (pivot_cn, pivot_idx) =>
          '(d, κ) ← resolve_dest t (dest_cnode arg2) κ;
          match d with
          | inl e => κ ← put_all [pivot_cn; src_cn] κ; Ret (inl e, κ)
          | inr dst_cn =>
            '(e, κ) ← kcnode_slot_rotate (Some dst_cn) (Z.to_N (dest_slot arg2))
                        (Some pivot_cn) pivot_idx (Some src_cn) src_idx κ;
            κ ← put_all [dst_cn; pivot_cn; src_cn] κ;
            Ret (sys_result e, κ)
          end
        end
      end
  end.

(** [arg2]: rights in the low half, badge in the high half. *)
Definition sys_cspace_mint t (arg0 arg1 arg2 : Z) κ : res (sysval * kstate) :=
  match cspace_root (sct_root t) with
  | None => Ret (inl IRIS_ERR_INVALID_ARG, κ)
  | Some root =>
    if negb (cspace_only_cptr arg0) then Ret (inl IRIS_ERR_INVALID_ARG, κ)
    else if negb (dest_cnode arg1 =? 0) && negb (cspace_only_cptr (dest_cnode arg1))
    then Ret (inl IRIS_ERR_INVALID_ARG, κ)
    else if dest_slot arg1 =? 0 then Ret (inl IRIS_ERR_INVALID_ARG, κ)
    else
      '(r, κ) ← cspace_resolve_slot (Some root) arg0 κ;
      match r with
      | inl e => Ret (inl e, κ)
      | inr (src_cn, src_idx) =>
        '(d, κ) ← (if dest_cnode arg1 =? 0 then cspace_own_root (Some root) κ
                   else '(d, κ) ← cspace_resolve_cnode (Some (sct_root t)) (Some root)
                                    (dest_cnode arg1) RIGHT_WRITE κ;
                        Ret (match d with inl e => inl e | inr (cn, _) => inr cn end, κ));
        match d with
        | inl e => κ ← put_all [src_cn] κ; Ret (inl e, κ)
        | inr dst_cn =>
          '(e, κ) ← kcnode_slot_derive (Some src_cn) src_idx (Some dst_cn)
                      (Z.to_N (dest_slot arg1)) (Z.land arg2 0xFFFFFFFF) (Z.shiftr arg2 32) κ;
          κ ← put_all [dst_cn; src_cn] κ;
          Ret (sys_result e, κ)
        end
      end
  end.

Definition IRIS_REVOKE_SLICE : Z := 16.

Definition syscall_request_restart t : sc_thread :=
  ScThread (sct_root t) (sct_reentry t) true (sct_acc t).
Definition set_acc (v : Z) t : sc_thread :=
  ScThread (sct_root t) (sct_reentry t) (sct_restart t) v.

Definition sys_cspace_revoke t (arg0 : Z) κ : res (sysval * sc_thread * kstate) :=
  match cspace_root (sct_root t) with
  | None => Ret (inl IRIS_ERR_INVALID_ARG, t, κ)
  | Some root =>
    if negb (cspace_only_cptr arg0) then Ret (inl IRIS_ERR_INVALID_ARG, t, κ)
    else
      '(r, κ) ← cspace_resolve_slot (Some root) arg0 κ;
      match r with
      | inl e => Ret (inl e, t, κ)
      | inr (cn, idx) =>
        let t := if sct_reentry t then t else set_acc 0 t in
        '(e, κ, revoked, more) ← kcnode_slot_revoke_bounded (Some cn) idx IRIS_REVOKE_SLICE κ;
        κ ← put_all [cn] κ;
        if negb (bool_decide (e = IRIS_OK)) then Ret (inl e, t, κ)
        else
          let t := set_acc (u64 (sct_acc t + revoked)) t in
          if (more : bool) then Ret (inr 0, syscall_request_restart t, κ)
          else Ret (inr (sct_acc t), t, κ)
      end
  end.

(** The enumerator's value, which is the wire type. *)
Definition type_code (ty : kobject_type_t) : Z :=
  match ty with
  | KOBJ_PROCESS => 0 | KOBJ_CHANNEL => 1 | KOBJ_NOTIFICATION => 2 | KOBJ_BOOTSTRAP_CAP => 3
  | KOBJ_VMO => 4 | KOBJ_IRQ_CAP => 5 | KOBJ_IOPORT => 6 | KOBJ_INITRD_ENTRY => 7
  | KOBJ_ENDPOINT => 8 | KOBJ_CNODE => 9 | KOBJ_SCHED_CONTEXT => 10 | KOBJ_UNTYPED => 11
  | KOBJ_REPLY => 12 | KOBJ_TCB => 13 | KOBJ_VSPACE => 14 | KOBJ_FRAME => 15
  | KOBJ_PAGE_TABLE => 16 | KOBJ_ASID_POOL => 17 | KOBJ_IOSPACE => 18 | KOBJ_IO_PAGE_TABLE => 19
  end.

Definition sys_cap_identify t (arg0 : Z) κ : res (sysval * kstate) :=
  match cspace_root (sct_root t) with
  | None => Ret (inl IRIS_ERR_INVALID_ARG, κ)
  | Some root =>
    if negb (cspace_only_cptr arg0) then Ret (inl IRIS_ERR_INVALID_ARG, κ)
    else
      '(r, κ) ← cspace_resolve_cap (Some (sct_root t)) (Some root) arg0 RIGHT_NONE κ;
      match r with
      | inl e => Ret (inl e, κ)
      | inr (obj, _, _) =>
          k ← get_obj obj κ;
          κ ← put_all [obj] κ;
          Ret (inr (type_code (otype k)), κ)
      end
  end.

Definition sys_cap_same_object t (arg0 arg1 : Z) κ : res (sysval * kstate) :=
  match cspace_root (sct_root t) with
  | None => Ret (inl IRIS_ERR_INVALID_ARG, κ)
  | Some root =>
    if negb (cspace_only_cptr arg0) || negb (cspace_only_cptr arg1)
    then Ret (inl IRIS_ERR_INVALID_ARG, κ)
    else
      '(a, κ) ← cspace_resolve_cap (Some (sct_root t)) (Some root) arg0 RIGHT_NONE κ;
      match a with
      | inl e => Ret (inl e, κ)
      | inr (obj_a, _, _) =>
        '(b, κ) ← cspace_resolve_cap (Some (sct_root t)) (Some root) arg1 RIGHT_NONE κ;
        match b with
        | inl e => κ ← put_all [obj_a] κ; Ret (inl e, κ)
        | inr (obj_b, _, _) =>
            κ ← put_all [obj_b; obj_a] κ;
            Ret (inr (if (obj_a =? obj_b)%N then 1 else 0), κ)
        end
      end
  end.

Definition sys_cspace_set_guard t (arg0 arg1 arg2 : Z) κ : res (sysval * kstate) :=
  match cspace_root (sct_root t) with
  | None => Ret (inl IRIS_ERR_INVALID_ARG, κ)
  | Some root =>
    if negb (cspace_only_cptr arg0) then Ret (inl IRIS_ERR_INVALID_ARG, κ)
    else if KCNODE_GUARD_BITS_MAX <? arg2 then Ret (inl IRIS_ERR_INVALID_ARG, κ)
    else
      '(r, κ) ← cspace_resolve_slot (Some root) arg0 κ;
      match r with
      | inl e => Ret (inl e, κ)
      | inr (cn, idx) =>
          '(e, κ) ← kcnode_slot_set_guard (Some cn) idx arg1 (u8 arg2) κ;
          κ ← put_all [cn] κ;
          Ret (sys_result e, κ)
      end
  end.

(** The CNode a slot operation is on; 0 is the caller's own root. *)
Definition resolve_target t (cptr : Z) κ : res ((iris_error_t + N) * kstate) :=
  '(r, κ) ← cspace_resolve_only_cnode (Some (sct_root t)) (cspace_root (sct_root t)) cptr RIGHT_WRITE κ;
  Ret (match r with inl e => inl e | inr (cn, _, _) => inr cn end, κ).

Definition sys_cnode_delete t (arg0 arg1 : Z) κ : res (sysval * kstate) :=
  match cspace_root (sct_root t) with
  | None => Ret (inl IRIS_ERR_INVALID_ARG, κ)
  | Some root =>
    '(r, κ) ← (if arg0 =? 0 then cspace_own_root (Some root) κ else resolve_target t arg0 κ);
    match r with
    | inl e => Ret (inl e, κ)
    | inr cn =>
        '(e, κ) ← kcnode_delete (Some cn) (Z.to_N (u32 arg1)) κ;
        κ ← put_all [cn] κ;
        Ret (sys_result e, κ)
    end
  end.

Definition sys_cnode_swap t (arg0 arg1 arg2 : Z) κ : res (sysval * kstate) :=
  if (arg0 =? 0) || (u32 arg1 =? u32 arg2) then Ret (inl IRIS_ERR_INVALID_ARG, κ)
  else match cspace_root (sct_root t) with
  | None => Ret (inl IRIS_ERR_INVALID_ARG, κ)
  | Some _ =>
    '(r, κ) ← resolve_target t arg0 κ;
    match r with
    | inl e => Ret (inl e, κ)
    | inr cn =>
        '(e, κ) ← kcnode_swap (Some cn) (Z.to_N (u32 arg1)) (Z.to_N (u32 arg2)) κ;
        κ ← put_all [cn] κ;
        Ret (sys_result e, κ)
    end
  end.

(** ** Choosing the handler, and running it

    The labels of syscall_invoke.c that name these handlers. *)

Inductive cap_call :=
  | CSPACE_MOVE (cptr a1 : Z)
  | CSPACE_ROTATE (cptr a1 a2 : Z)
  | CSPACE_MINT (cptr a1 a2 : Z)
  | CSPACE_REVOKE (cptr : Z)
  | CAP_IDENTIFY (cptr : Z)
  | CAP_SAME_OBJECT (cptr a1 : Z)
  | CSPACE_SET_GUARD (cptr a1 a2 : Z)
  | CNODE_DELETE (cptr a1 : Z)
  | CNODE_SWAP (cptr a1 a2 : Z).
Implicit Types c : cap_call.

(** A handler that does not touch the thread. *)
Definition plain t (m : res (sysval * kstate)) : res (sysval * sc_thread * kstate) :=
  '(r, κ) ← m; Ret (r, t, κ).

Definition syscall_invoke t c κ : res (sysval * sc_thread * kstate) :=
  match c with
  | CSPACE_MOVE p a => plain t (sys_cspace_move t p a κ)
  | CSPACE_ROTATE p a b => plain t (sys_cspace_rotate t p a b κ)
  | CSPACE_MINT p a b => plain t (sys_cspace_mint t p a b κ)
  | CSPACE_REVOKE p => sys_cspace_revoke t p κ
  | CAP_IDENTIFY p => plain t (sys_cap_identify t p κ)
  | CAP_SAME_OBJECT p a => plain t (sys_cap_same_object t p a κ)
  | CSPACE_SET_GUARD p a b => plain t (sys_cspace_set_guard t p a b κ)
  | CNODE_DELETE p a => plain t (sys_cnode_delete t p a κ)
  | CNODE_SWAP p a b => plain t (sys_cnode_swap t p a b κ)
  end.

(** [None]: the thread parked, and will come back through the trampoline. *)
Definition syscall_run t c κ : res (option sysval * sc_thread * kstate) :=
  '(r, t, κ) ← syscall_invoke t c κ;
  if negb (sct_restart t)
  then Ret (Some r, ScThread (sct_root t) false (sct_restart t) (sct_acc t), κ)
  else Ret (None, ScThread (sct_root t) true false (sct_acc t), κ).

Definition syscall_dispatch t c κ : res (option sysval * sc_thread * kstate) :=
  syscall_run (ScThread (sct_root t) false false (sct_acc t)) c κ.

Definition syscall_restart_trampoline t c κ : res (option sysval * sc_thread * kstate) :=
  syscall_run (ScThread (sct_root t) true (sct_restart t) (sct_acc t)) c κ.
