(* ===== verification/SysPins.v ===== *)
(** * The references a capability system call takes

    A handler pins what its walks find before it acts.  [pinned l κ] says that
    [κ] is the state the handler was entered in plus one pair of references for
    each member of [l]; so what the walks find, and what the handler decides, is
    a function of the entry state ([slot_verdict] is [cspace_lookup_slot],
    [dest_verdict] the destination).  After the action the pins are dropped, and
    where the pinned CNodes are still anchored nothing else moves. *)

From Stdlib Require Import ZArith Lia.
From stdpp Require Import base numbers gmap list.
From S2P Require Import Prelude Rights Forest Mdb Cdt Kobject Kcnode KcnodeInv.
From S2P Require Import KcnodeInstall Cspace IpcCap SysCspace.
Local Open Scope Z_scope.
Implicit Types (κ : kstate) (o cn idx : N) (hl ha : N → Z) (l : list N) (t : sc_thread).

Definition pins l : N → Z := foldr (λ o h, hold h o 1) nil_refs l.

Lemma pins_bound l o : 0 ≤ pins l o ≤ Z.of_nat (length l).
Proof. induction l as [|x l IH]; simpl; [unfold nil_refs; lia|]. unfold hold. case_decide; lia. Qed.

Lemma pins_elem l o : o ∈ l → 1 ≤ pins l o.
Proof.
  induction l as [|x l IH]; [by intros ?%elem_of_nil|]. rewrite elem_of_cons. pose proof (pins_bound l o).
  simpl. unfold hold. case_decide; [lia|]. intros [?|?]; [done|auto].
Qed.

Lemma pins_out l o : o ∉ l → pins l o = 0.
Proof.
  induction l as [|x l IH]; [done|]. intros [? ?]%not_elem_of_cons. simpl. rewrite hold_ne by done. auto.
Qed.

Abbreviation held h l := (λ o, h o + pins l o).

(** ** Composing and forgetting *)

Lemma shifted_trans κ0 dl da κ1 dl' da' κ2 :
  shifted κ0 dl da κ1 → shifted κ1 dl' da' κ2 →
  shifted κ0 (λ o, dl o + dl' o) (λ o, da o + da' o) κ2.
Proof.
  intros [M1 O1 (Q1 & R1 & L1 & E1)] [M2 O2 (Q2 & R2 & L2 & E2)]. split; [congruence| |split_and!; congruence].
  intros o. rewrite O2, O1. destruct (objs κ0 o) as [k|]; [|done]. simpl. f_equal.
  unfold shift_refs. simpl. f_equal; lia.
Qed.

Section shifted_lookups.
Context κ dl da κ' (W : shifted κ dl da κ').

Lemma shifted_type o : otype <$> objs κ' o = otype <$> objs κ o.
Proof. rewrite (sh_objs _ _ _ _ W). by destruct (objs κ o). Qed.

Lemma shifted_lookup_loop b depth : ∀ cur cptr g gb,
  lookup_loop b depth cur cptr g gb κ' = lookup_loop b depth cur cptr g gb κ.
Proof.
  induction depth as [|depth IH]; intros cur cptr g gb; [done|]. cbn [lookup_loop]. unfold level_index.
  rewrite !(shifted_slots _ _ _ _ _ W), (shifted_range _ _ _ _ W), (sh_mdb _ _ _ _ W).
  destruct (_ && _); [done|]. destruct (negb _); [done|]. destruct (object _ _) as [o|]; [|done].
  rewrite shifted_type. destruct (_ =? 0); [done|]. case_bool_decide; [apply IH|done].
Qed.

Lemma shifted_lookup self root cptr : cspace_lookup self root cptr κ' = cspace_lookup self root cptr κ.
Proof. unfold cspace_lookup. destruct (_ =? _), root; [done..|apply shifted_lookup_loop|done]. Qed.

Lemma shifted_lookup_slot root cptr : cspace_lookup_slot root cptr κ' = cspace_lookup_slot root cptr κ.
Proof. unfold cspace_lookup_slot. destruct (_ =? _), root; [done..|apply shifted_lookup_loop|done]. Qed.
End shifted_lookups.

(** Where a guarded walk ends is anchored too. *)
Lemma lookup_cap_anchored κ hl ha self (root : option N) cptr cn i :
  live_root κ hl ha root → cspace_lookup self root cptr κ = inr (cn, i) → anchored κ hl ha cn.
Proof.
  unfold cspace_lookup. destruct (_ =? _); [done|]. destruct root as [r|]; [|done].
  intros Hr Hl. by apply (lookup_anchored κ hl ha _ _ _ _ _ _ _ _ Hr) in Hl as (? & _).
Qed.

(** ** Verdicts of the destination walks *)

(** The object a capability argument names, with a right demanded of it. *)
Definition cap_verdict κ t (cptr required : Z) : iris_error_t + N :=
  match cspace_lookup (Some (sct_root t)) (cspace_root (sct_root t)) cptr κ with
  | inl e => inl e
  | inr (cn, i) =>
      match object (mdb κ) (InNode cn i) with
      | None => inl IRIS_ERR_NOT_FOUND
      | Some o =>
          if negb (required =? RIGHT_NONE) && negb (rights_check (rights (mdb κ) (InNode cn i)) required)
          then inl IRIS_ERR_ACCESS_DENIED else inr o
      end
  end.

Definition cnode_verdict κ t (cptr : Z) : iris_error_t + N :=
  match cap_verdict κ t cptr RIGHT_WRITE with
  | inl e => inl e
  | inr o => if bool_decide (otype <$> objs κ o = Some KOBJ_CNODE) then inr o else inl IRIS_ERR_WRONG_TYPE
  end.

Definition dest_verdict κ t (dest : Z) : iris_error_t + N :=
  if dest =? 0
  then match cspace_root (sct_root t) with Some r => inr r | None => inl IRIS_ERR_NOT_FOUND end
  else cnode_verdict κ t dest.

(** Namespace, type, rights: the order of [cspace_resolve_only_cnode]. *)
Definition target_verdict κ t (cptr : Z) : iris_error_t + N :=
  if negb (cspace_value_is_cptr cptr) then inl IRIS_ERR_INVALID_ARG
  else match cspace_lookup (Some (sct_root t)) (cspace_root (sct_root t)) cptr κ with
  | inl e => inl e
  | inr (cn, i) =>
      match object (mdb κ) (InNode cn i) with
      | None => inl IRIS_ERR_NOT_FOUND
      | Some o =>
          if bool_decide (otype <$> objs κ o = Some KOBJ_CNODE) then
            if rights_check (rights (mdb κ) (InNode cn i)) RIGHT_WRITE then inr o
            else inl IRIS_ERR_ACCESS_DENIED
          else inl IRIS_ERR_WRONG_TYPE
      end
  end.

(** ** Pinning *)

Section pinning.
Context (hl ha : N → Z) (κ0 : kstate).
Context (Hinv : kinv hl ha κ0) (Hroom : xfer_headroom κ0).

Record pinned l κ : Prop := Pinned {
  pn_shift : shifted κ0 (pins l) (pins l) κ;
  pn_anch  : Forall (anchored κ0 hl ha) l;
}.

Lemma pinned_nil : pinned [] κ0.
Proof. split; [apply shifted_refl|constructor]. Qed.

Lemma anchored_pub o : anchored κ0 hl ha o → published κ0 o.
Proof. destruct (kinv_le _ _ _ Hinv) as [Hl Ha]. by apply (anchored_published hl ha hl ha). Qed.

Lemma pins_live l : Forall (anchored κ0 hl ha) l → ∀ o, objs κ0 o = None → pins l o = 0.
Proof.
  intros Hl o Ho. apply pins_out. intros Hin. rewrite Forall_forall in Hl.
  destruct (anchored_pub o (Hl o Hin)) as (k & Hk & _). congruence.
Qed.

Lemma pinned_kinv l κ : pinned l κ → (length l ≤ 3)%nat → kinv (held hl l) (held ha l) κ.
Proof.
  intros [W Hl] Hlen.
  eapply (shifted_kinv_ext hl ha κ0); [exact Hinv|exact Hroom|exact W|..|done|done];
    [intros o; pose proof (pins_bound l o); lia..|by apply pins_live].
Qed.

Lemma pinned_room l κ : pinned l κ → (length l ≤ 2)%nat → walk_headroom κ.
Proof.
  intros [W _] Hlen o k Hk. rewrite (sh_objs _ _ _ _ W) in Hk.
  destruct (objs κ0 o) as [k0|] eqn:Hk0; [|done]. injection Hk as <-. simpl.
  pose proof (kinv_counts _ _ _ _ _ Hinv Hk0). pose proof (Hroom o k0 Hk0). pose proof (pins_bound l o). lia.
Qed.

Lemma pinned_pub l κ o : pinned l κ → published κ0 o → published κ o.
Proof.
  intros [W _] (k & Hk & H1 & H2). exists (shift_refs (pins l o) (pins l o) k).
  split; [by apply (shifted_obj _ _ _ _ _ _ W)|]. pose proof (pins_bound l o). simpl. lia.
Qed.

Lemma pinned_mdb l κ : pinned l κ → mdb κ = mdb κ0.
Proof. intros [W _]. apply W. Qed.

(** One more pair. *)
Lemma pinned_more l κ o κ' :
  pinned l κ → anchored κ0 hl ha o → shifted κ (hold nil_refs o 1) (hold nil_refs o 1) κ' →
  pinned (o :: l) κ'.
Proof.
  intros [W Hl] Ho W'. split; [|by constructor].
  eapply shifted_ext; [..|exact (shifted_trans _ _ _ _ _ _ _ W W')]; intros x; simpl; hold_lia.
Qed.

Lemma pinned_same l κ κ' : pinned l κ → shifted κ nil_refs nil_refs κ' → pinned l κ'.
Proof.
  intros [W Hl] W'. split; [|done].
  eapply shifted_ext; [..|exact (shifted_trans _ _ _ _ _ _ _ W W')]; intros x; unfold nil_refs; lia.
Qed.

(** Dropping the last pin. *)
Lemma pinned_put o l κ :
  pinned (o :: l) κ → (length l ≤ 2)%nat → ∃ κ', put_refs o κ = Ret κ' ∧ pinned l κ'.
Proof.
  intros [W Hl] Hlen. apply Forall_cons in Hl as [Ho Hl].
  destruct (anchored_pub o Ho) as (k & Hk & H1 & H2). pose proof (Hroom o k Hk).
  pose proof (pins_bound l o). unfold put_refs.
  destruct (active_release_shifted _ _ _ _ _ _ W Hk) as (κ1 & R1 & W1); [simpl; rewrite hold_same; lia|].
  destruct (release_shifted _ _ _ _ _ _ W1 Hk) as (κ2 & R2 & W2); [rewrite hold_0; simpl; rewrite hold_same; lia|].
  rewrite R1. exists κ2. split; [exact R2|]. split; [|done].
  eapply shifted_ext; [..|exact W2]; intros x; simpl; hold_lia.
Qed.

(** Backing out: every count is what it was. *)
Lemma pinned_put_all l κ :
  pinned l κ → (length l ≤ 3)%nat →
  ∃ κ', put_all l κ = Ret κ' ∧ shifted κ0 nil_refs nil_refs κ'.
Proof.
  revert κ. induction l as [|o l IH]; intros κ Hp Hlen; cbn [put_all].
  { exists κ. split; [done|apply Hp]. }
  destruct (pinned_put o l κ Hp) as (κ1 & R1 & Hp1); [simpl in Hlen; lia|]. rewrite R1.
  apply IH; [done|simpl in Hlen; lia].
Qed.

(** *** The walks *)

Lemma pin_slot (root : option N) cptr l κ :
  pinned l κ → (length l ≤ 2)%nat → live_root κ0 hl ha root →
  returns (cspace_resolve_slot root cptr κ) (λ '(r, κ'), r = cspace_lookup_slot root cptr κ0 ∧
    match r with inl _ => pinned l κ' | inr (cn, _) => pinned (cn :: l) κ' end).
Proof.
  intros Hp Hlen Hr. pose proof (pinned_kinv _ _ Hp ltac:(lia)) as Hk.
  eapply returns_mono; [eapply (slot_walk_spec _ _ κ root cptr Hk); [by eapply pinned_room|]|].
  { destruct root as [r|]; [|done]. by eapply pinned_pub, anchored_pub. }
  intros [r κ'] [-> W]. rewrite (shifted_lookup_slot _ _ _ _ (pn_shift _ _ Hp)) in *. split; [done|].
  destruct (cspace_lookup_slot root cptr κ0) as [e|[cn i]] eqn:Hl; [by eapply pinned_same|].
  eapply pinned_more; [exact Hp| |exact W]. by apply (lookup_slot_anchored _ hl ha) in Hl as (? & _).
Qed.

Lemma pin_own_root root l κ :
  pinned l κ → (length l ≤ 2)%nat → anchored κ0 hl ha root →
  ∃ κ', cspace_own_root (Some root) κ = Ret (inr root, κ') ∧ pinned (root :: l) κ'.
Proof.
  intros Hp Hlen Hr. pose proof Hp as [W Hl]. destruct (anchored_pub _ Hr) as (k & Hk & H1 & H2).
  pose proof (Hroom _ _ Hk). pose proof (pins_bound l root). unfold cspace_own_root.
  destruct (retain_shifted _ _ _ _ _ _ W Hk) as (κ1 & R1 & W1); [lia..|].
  destruct (active_retain_shifted _ _ _ _ _ _ W1 Hk) as (κ2 & R2 & W2); [rewrite hold_0; lia..|].
  rewrite R1. cbn [mbind res_bind]. rewrite R2. exists κ2. split; [done|]. split; [|by constructor].
  eapply shifted_ext; [..|exact W2]; intros x; simpl; hold_lia.
Qed.

Lemma pin_cap t cptr required l κ :
  pinned l κ → (length l ≤ 2)%nat → is_Some (cspace_root (sct_root t)) →
  live_root κ0 hl ha (cspace_root (sct_root t)) →
  returns (cspace_resolve_cap (Some (sct_root t)) (cspace_root (sct_root t)) cptr required κ) (λ '(r, κ'),
    match r with
    | inl e => cap_verdict κ0 t cptr required = inl e ∧ pinned l κ'
    | inr (o, _, _) => cap_verdict κ0 t cptr required = inr o ∧ pinned (o :: l) κ' ∧
        ∃ k, objs κ' o = Some k ∧ otype <$> objs κ0 o = Some (otype k)
    end).
Proof.
  intros Hp Hlen [root Hroot] Hr. pose proof (pinned_kinv _ _ Hp ltac:(lia)) as Hk.
  rewrite Hroot in *. simpl in Hr. destruct (pinned_pub _ _ _ Hp (anchored_pub _ Hr)) as (kr & Hkr & R1 & R2).
  eapply returns_mono; [eapply (resolve_cap_spec κ _ _ Hk (pinned_room _ _ Hp Hlen)); eassumption|].
  intros [r κ'] Hw. unfold walk_post in Hw. unfold cap_verdict. rewrite Hroot.
  rewrite (shifted_lookup _ _ _ _ (pn_shift _ _ Hp)) in Hw.
  destruct (cspace_lookup _ (Some root) cptr κ0) as [e|[cn i]] eqn:Hl.
  { destruct Hw as [-> W]. split; [done|]. by eapply pinned_same. }
  destruct Hw as (o & k & Ho & Hko & _ & _ & Hw). rewrite (pinned_mdb _ _ Hp) in *. rewrite Ho.
  destruct (negb _ && negb _); destruct Hw as [-> W]; [split; [done|]; by eapply pinned_same|].
  split; [done|]. split.
  - eapply pinned_more; [exact Hp| |exact W]. eapply named_anchored; [|exact Ho].
    by apply (lookup_cap_anchored κ0 hl ha _ (Some root)) in Hl.
  - eexists. split; [exact (shifted_obj _ _ _ _ _ _ W Hko)|]. simpl.
    rewrite <-(shifted_type _ _ _ _ (pn_shift _ _ Hp)), Hko. done.
Qed.

Lemma pin_publish t cptr l κ :
  pinned l κ → (length l ≤ 2)%nat → is_Some (cspace_root (sct_root t)) →
  live_root κ0 hl ha (cspace_root (sct_root t)) →
  returns (cspace_resolve_cnode_for_publish (Some (sct_root t)) (cspace_root (sct_root t)) cptr κ)
    (λ '(r, κ'), r = cnode_verdict κ0 t cptr ∧
       match r with inl _ => pinned l κ' | inr o => pinned (o :: l) κ' end).
Proof.
  intros Hp Hlen Hs Hr. unfold cspace_resolve_cnode_for_publish, cnode_verdict. apply returns_bind.
  eapply returns_mono; [by eapply pin_cap|]. intros [[e|[[o ?] ?]] κ1]; [by intros [-> ?]|].
  intros (-> & Hp1 & k & Hk & Ht). unfold get_obj. rewrite Hk, Ht. cbn [of_assert mbind res_bind].
  destruct (decide (otype k = KOBJ_CNODE)) as [E|E].
  - rewrite !bool_decide_true by congruence. by split.
  - rewrite !bool_decide_false by congruence. cbn [negb].
    destruct (pinned_put _ _ _ Hp1 Hlen) as (κ2 & R2 & Hp2). rewrite R2. by split.
Qed.

Lemma pin_dest t dest l κ :
  pinned l κ → (length l ≤ 2)%nat → is_Some (cspace_root (sct_root t)) →
  live_root κ0 hl ha (cspace_root (sct_root t)) →
  returns (resolve_dest t dest κ) (λ '(r, κ'), r = dest_verdict κ0 t dest ∧
    match r with inl _ => pinned l κ' | inr o => pinned (o :: l) κ' end).
Proof.
  intros Hp Hlen Hs Hr. unfold resolve_dest, dest_verdict. destruct (dest =? 0); [|by apply pin_publish].
  destruct Hs as [root Hroot]. rewrite Hroot in *.
  destruct (pin_own_root _ _ _ Hp Hlen Hr) as (κ' & -> & ?). by split.
Qed.

Lemma pin_target t cptr l κ :
  pinned l κ → (length l ≤ 2)%nat → is_Some (cspace_root (sct_root t)) →
  live_root κ0 hl ha (cspace_root (sct_root t)) →
  returns (resolve_target t cptr κ) (λ '(r, κ'), r = target_verdict κ0 t cptr ∧
    match r with inl _ => pinned l κ' | inr o => pinned (o :: l) κ' end).
Proof.
  intros Hp Hlen [root Hroot] Hr. pose proof (pinned_kinv _ _ Hp ltac:(lia)) as Hk.
  unfold resolve_target, target_verdict. rewrite Hroot in *. simpl in Hr.
  destruct (pinned_pub _ _ _ Hp (anchored_pub _ Hr)) as (kr & Hkr & R1 & R2). apply returns_bind.
  eapply returns_mono;
    [eapply (resolve_only_spec _ _ true KOBJ_CNODE _ _ _ _ _ _ Hk (pinned_room _ _ Hp Hlen)); eassumption|].
  intros [r κ'] Hw. destruct (cspace_value_is_cptr cptr); cbn [negb].
  2: { destruct Hw as [-> ->]. by split. }
  rewrite (shifted_lookup _ _ _ _ (pn_shift _ _ Hp)) in Hw.
  destruct (cspace_lookup _ (Some root) cptr κ0) as [e|[cn i]] eqn:Hl.
  { destruct Hw as [-> W]. split; [done|]. by eapply pinned_same. }
  destruct Hw as (o & k & Ho & Hko & Hw). rewrite (pinned_mdb _ _ Hp) in *. rewrite Ho.
  rewrite <-(shifted_type _ _ _ _ (pn_shift _ _ Hp)), Hko. cbn [fmap option_fmap option_map].
  destruct (decide (otype k = KOBJ_CNODE)) as [E|E].
  - rewrite bool_decide_true by congruence. change (RIGHT_WRITE =? RIGHT_NONE) with false in Hw.
    cbn [negb andb] in Hw. destruct (rights_check _ RIGHT_WRITE); destruct Hw as [-> W];
      (split; [done|]); [|by eapply pinned_same].
    eapply pinned_more; [exact Hp| |exact W]. eapply named_anchored; [|exact Ho].
    by apply (lookup_cap_anchored κ0 hl ha _ (Some root)) in Hl.
  - rewrite bool_decide_false by congruence. destruct Hw as [-> W]. split; [done|]. by eapply pinned_same.
Qed.
End pinning.

(** ** Dropping the pins after the action *)

Section dropping.
Context (hl ha : N → Z) (Hpos : ∀ x, 0 ≤ hl x ∧ 0 ≤ ha x).

Lemma held_cons h o l x : h x + pins (o :: l) x = hold (held h l) o 1 x.
Proof. simpl. hold_lia. Qed.

Lemma held_pos l x : 0 ≤ hl x + pins l x ∧ 0 ≤ ha x + pins l x.
Proof. pose proof (Hpos x). pose proof (pins_bound l x). lia. Qed.

Lemma drop_pins l κ :
  kinv (held hl l) (held ha l) κ → returns (put_all l κ) (λ κ', kinv hl ha κ' ∧ kshrinks κ κ').
Proof.
  revert κ. induction l as [|o l IH]; intros κ Hκ; cbn [put_all].
  { split; [|reflexivity]. eapply kinv_ext; [..|exact Hκ]; intros x; simpl; unfold nil_refs; lia. }
  apply returns_bind. eapply returns_mono; [eapply (put_refs_spec (held hl l) (held ha l) o κ)|].
  - eapply kinv_ext; [..|exact Hκ]; intros x; symmetry; apply held_cons.
  - apply held_pos.
  - apply held_pos.
  - intros κ1 [Hκ1 Hs1]. eapply returns_mono; [by apply IH|].
    intros κ2 [Hκ2 Hs2]. split; [done|by etransitivity].
Qed.

Lemma anchored_held κ l o : anchored κ hl ha o → anchored κ (held hl l) (held ha l) o.
Proof. intros [?|?]; [left|by right]. pose proof (pins_bound l o). lia. Qed.

Lemma drop_pins_quiet l κ :
  kinv (held hl l) (held ha l) κ → Forall (anchored κ hl ha) l →
  ∃ κ', put_all l κ = Ret κ' ∧ kinv hl ha κ' ∧ mdb κ' = mdb κ.
Proof.
  revert κ. induction l as [|o l IH]; intros κ Hκ Hl; cbn [put_all].
  { exists κ. split; [done|]. split; [|done]. eapply kinv_ext; [..|exact Hκ]; intros x; simpl; unfold nil_refs; lia. }
  apply Forall_cons in Hl as [Ho Hl].
  destruct (put_refs_quiet (held hl l) (held ha l) (held_pos l) o κ) as (κ1 & R1 & Hκ1 & M1).
  - eapply kinv_ext; [..|exact Hκ]; intros x; symmetry; apply held_cons.
  - by apply anchored_held.
  - rewrite R1. destruct (IH κ1 Hκ1) as (κ2 & R2 & Hκ2 & M2).
    + eapply Forall_impl; [exact Hl|]. intros x [?|(s & Hs & Hh)]; [by left|right].
      exists s. by rewrite M1.
    + exists κ2. split; [exact R2|]. split; [done|congruence].
Qed.
End dropping.
