(* ===== verification/SysCalls.v ===== *)
(** * The contract of each capability system call

    What a handler of [SysCspace] decides is written as a verdict on the state it
    is entered in; what it does is an operation of the abstract derivation tree.
    [attenuated] is the guarantee of the whole interface: every capability
    afterwards is one from before, with no more rights and the same badge. *)

From Stdlib Require Import ZArith Lia.
From stdpp Require Import base numbers gmap list.
From S2P Require Import Prelude Rights Forest Mdb Cdt Kobject Kcnode KcnodeInv.
From S2P Require Import KcnodeRevoke KcnodeInstall KcnodeMove Cspace IpcCap SysCspace SysPins.
Local Open Scope Z_scope.
Implicit Types (κ : kstate) (o cn idx : N) (s : slotptr) (hl ha : N → Z) (l : list N) (t : sc_thread).

(** ** Authority *)

(** [c] is a capability to the same object with no more authority than [c0]. *)
Definition cap_le (c c0 : cap) : Prop :=
  c.1.1 = c0.1.1 ∧ rights_le c.1.2 c0.1.2 ∧ (c0.2 ≠ 0 → c.2 = c0.2).

#[global] Instance cap_le_preorder : PreOrder cap_le.
Proof.
  split.
  - intros c. by repeat split.
  - intros c1 c2 c3 (A1 & A2 & A3) (B1 & B2 & B3). split; [congruence|]. split; [by etransitivity|].
    intros H. rewrite A3 by (rewrite B3; done). by apply B3.
Qed.

Definition attenuated κ κ' : Prop := ∀ s c, caps (abs (mdb κ')) s = Some c →
  ∃ s0 c0, caps (abs (mdb κ)) s0 = Some c0 ∧ cap_le c c0.

#[global] Instance attenuated_preorder : PreOrder attenuated.
Proof.
  split.
  - intros κ s c Hc. by exists s, c.
  - intros κ1 κ2 κ3 H12 H23 s c Hc. destruct (H23 s c Hc) as (s1 & c1 & H1 & L1).
    destruct (H12 s1 c1 H1) as (s0 & c0 & H0 & L0). exists s0, c0. split; [done|by etransitivity].
Qed.

Lemma shrinks_attenuated κ κ' : cdt_shrinks (abs (mdb κ)) (abs (mdb κ')) → attenuated κ κ'.
Proof. intros [Hc _] s c Hs. exists s, c. split; [by apply Hc|done]. Qed.

Lemma same_tree_attenuated κ κ' : mdb κ' = mdb κ → attenuated κ κ'.
Proof. intros E s c. rewrite E. intros Hs. by exists s, c. Qed.

Lemma moved_attenuated κ κ' a b : cdt_eq (abs (mdb κ')) (cdt_move a b (abs (mdb κ))) → attenuated κ κ'.
Proof. intros [Hc _] s c. rewrite Hc. intros Hs. by exists (swap a b s), c. Qed.

Lemma installed_attenuated κ κ' s p c src c0 :
  cdt_eq (abs (mdb κ')) (cdt_install s c p (abs (mdb κ))) →
  caps (abs (mdb κ)) src = Some c0 → cap_le c c0 → attenuated κ κ'.
Proof.
  intros [Hc _] Hs Hle x cx. rewrite Hc. cbn [cdt_install caps]. unfold upd_fn. case_decide.
  - intros [= <-]. by exists src, c0.
  - intros Hx. by exists x, cx.
Qed.

(** ** Room in the counters

    Every reference count is below [2^32] as long as there are not [2^31] slots in
    use; the condition is kept by whatever only removes capabilities. *)
Definition room hl ha κ : Prop :=
  ∀ o, 2 * Z.of_nat (occupied (mdb κ)) + hl o + ha o < 2 ^ 32 - 16.

Lemma names_le_occupied σ o : (names σ o ≤ occupied σ)%nat.
Proof. apply count_mono. intros x Hx Ho. split; [done|]. by exists o. Qed.

Lemma room_xfer hl ha κ : kinv hl ha κ → room hl ha κ → xfer_headroom κ.
Proof.
  intros Hκ Hr o k Hk. destruct (ki_refs _ _ _ Hκ o k Hk) as (E1 & E2 & _). specialize (Hr o).
  pose proof (names_le_occupied (mdb κ) o). pose proof (anames_le_names (mdb κ) o).
  assert (queued κ o ≤ 1) by (unfold queued; case_decide; lia). lia.
Qed.

Lemma room_shrinks hl ha κ κ' : kshrinks κ κ' → room hl ha κ → room hl ha κ'.
Proof. intros Hs Hr o. pose proof (shrinks_occupied _ _ Hs). specialize (Hr o). lia. Qed.

Lemma shifted_nil_kinv hl ha κ κ' :
  kinv hl ha κ → xfer_headroom κ → shifted κ nil_refs nil_refs κ' → kinv hl ha κ'.
Proof.
  intros Hκ Hr W. eapply (shifted_kinv_ext hl ha κ); [exact Hκ|exact Hr|exact W|..]; hold_lia.
Qed.

(** ** Derivation, exactly *)

(** A refused exclusive install gives back what it took. *)
Lemma install_refused hl ha cn idx obj k r b parent pe unp κ :
  kinv hl ha κ → objs κ obj = Some k → 1 ≤ refcount k → 1 ≤ active_refs k →
  refcount k + active_refs k + 2 < 2 ^ 32 →
  install_code κ cn idx r parent pe true ≠ IRIS_OK →
  ∃ κ', kcnode_slot_install_linked (Some cn) idx (Some obj) r b parent pe true unp κ =
    Ret (install_code κ cn idx r parent pe true, κ') ∧ shifted κ nil_refs nil_refs κ'.
Proof.
  intros Hκ Hk H1 H2 Hb Hne.
  pose proof (install_linked_spec hl ha cn idx obj k r b parent pe true unp κ Hκ Hk H1 Hb) as Hs.
  apply returns_Ret in Hs as ([e κ'] & Hrun & -> & _). exists κ'. split; [exact Hrun|].
  set (e := install_code κ cn idx r parent pe true) in *. unfold kcnode_slot_install_linked in Hrun.
  destruct (_ =? RIGHT_NONE); [injection Hrun as _ <-; apply shifted_refl|].
  destruct (match parent with Some _ => _ | None => _ end); [injection Hrun as _ <-; apply shifted_refl|].
  cbn [negb andb] in Hrun.
  destruct (retain_shifted _ _ _ _ _ _ (shifted_refl κ) Hk) as (κ1 & R1 & W1); [unfold nil_refs; lia..|].
  rewrite R1 in Hrun. cbn [mbind res_bind] in Hrun.
  assert (∃ κ2, (if (obj =? cn)%N then Ret κ1 else kobject_active_retain obj κ1) = Ret κ2 ∧
    shifted κ (hold nil_refs obj 1) (hold nil_refs obj (if (obj =? cn)%N then 0 else 1)) κ2) as (κ2 & R2 & W2).
  { destruct (obj =? cn)%N; [by exists κ1|].
    destruct (active_retain_shifted _ _ _ _ _ _ W1 Hk) as (κ2 & R2 & W2); [hold_lia..|].
    exists κ2. split; [exact R2|]. eapply shifted_ext; [..|exact W2]; hold_lia. }
  rewrite R2 in Hrun. cbn [mbind res_bind] in Hrun. rewrite bool_decide_true in Hrun by done.
  assert (∀ e', install_fail cn None (obj =? cn)%N obj e' κ2 = Ret (e, κ') → shifted κ nil_refs nil_refs κ') as Hfail.
  { intros e'. unfold install_fail, drop_old, kcnode_slot_drop_old. cbn [mbind res_bind].
    assert (∃ κ3, (if (obj =? cn)%N then Ret κ2 else active_release obj κ2) = Ret κ3 ∧
      shifted κ (hold nil_refs obj 1) nil_refs κ3) as (κ3 & -> & W3).
    { destruct (obj =? cn)%N.
      - exists κ2. split; [done|]. eapply shifted_ext; [..|exact W2]; hold_lia.
      - destruct (active_release_shifted _ _ _ _ _ _ W2 Hk) as (κ3 & R3 & W3); [hold_lia|].
        exists κ3. split; [exact R3|]. eapply shifted_ext; [..|exact W3]; hold_lia. }
    cbn [mbind res_bind].
    destruct (release_shifted _ _ _ _ _ _ W3 Hk) as (κ4 & R4 & W4); [hold_lia|].
    rewrite R4. intros [= _ <-]. eapply shifted_ext; [..|exact W4]; hold_lia. }
  cbn [negb] in Hrun. destruct (negb (slot_in_range κ2 cn idx)); [by eapply Hfail|].
  destruct (parent_rejected _ _ _ _); [by eapply Hfail|].
  destruct (object (mdb κ2) (InNode cn idx)); [by eapply Hfail|].
  apply res_bind_Ret in Hrun as (? & _ & [= He _]). by rewrite <-He in Hne.
Qed.

(** The new capability, or the error, decided on the state a derivation finds. *)
Definition derive_verdict κ scn sidx dcn didx (requested req_badge : Z) : iris_error_t + cap :=
  let src := InNode scn sidx in
  if negb (slot_in_range κ scn sidx) || negb (slot_in_range κ dcn didx)
     || bool_decide (src = InNode dcn didx) then inl IRIS_ERR_INVALID_ARG
  else match object (mdb κ) src with
  | None => inl IRIS_ERR_NOT_FOUND
  | Some obj =>
      if negb (rights_check (rights (mdb κ) src) RIGHT_DUPLICATE) then inl IRIS_ERR_ACCESS_DENIED
      else if rights_reduce (rights (mdb κ) src) requested =? RIGHT_NONE then inl IRIS_ERR_INVALID_ARG
      else match objs κ obj with
      | None => inl IRIS_ERR_NOT_FOUND
      | Some k =>
          match mdb_badge_derive (badge (mdb κ) src) req_badge (otype k) with
          | inl e => inl e
          | inr b =>
              if bool_decide (is_Some (object (mdb κ) (InNode dcn didx))) then inl IRIS_ERR_ALREADY_EXISTS
              else inr (obj, rights_reduce (rights (mdb κ) src) requested, b)
          end
      end
  end.

Lemma slot_derive_spec hl ha scn sidx dcn didx requested req_badge κ
    (src := InNode scn sidx) (dst := InNode dcn didx) :
  kinv hl ha κ → refs_headroom κ src → (∀ o, object (mdb κ) src = Some o → published κ o) →
  returns (kcnode_slot_derive (Some scn) sidx (Some dcn) didx requested req_badge κ) (λ '(e, κ'),
    match derive_verdict κ scn sidx dcn didx requested req_badge with
    | inl e0 => e = e0 ∧ e0 ≠ IRIS_OK ∧ shifted κ nil_refs nil_refs κ'
    | inr c => e = IRIS_OK ∧ kinv hl ha κ' ∧ object (mdb κ) dst = None ∧
        cdt_eq (abs (mdb κ')) (cdt_install dst c (Some src) (abs (mdb κ))) ∧
        ∃ c0, caps (abs (mdb κ)) src = Some c0 ∧ cap_le c c0
    end).
Proof.
  intros Hκ Hroom Hpub. unfold kcnode_slot_derive, derive_verdict. fold src dst.
  assert (∀ e, e ≠ IRIS_OK → e = e ∧ e ≠ IRIS_OK ∧ shifted κ nil_refs nil_refs κ) as Hearly.
  { intros e He. split_and!; [done..|apply shifted_refl]. }
  destruct (slot_in_range κ scn sidx) eqn:Hr1; cbn [negb orb]; [|by apply Hearly].
  destruct (slot_in_range κ dcn didx) eqn:Hr2; cbn [negb orb]; [|by apply Hearly].
  rewrite slot_eqb. fold src dst. case_bool_decide as Hsd; [by apply Hearly|].
  destruct (object (mdb κ) src) as [obj|] eqn:Ho; [|by apply Hearly].
  destruct (rights_check _ RIGHT_DUPLICATE); cbn [negb]; [|by apply Hearly].
  destruct (Z.eqb_spec (rights_reduce (rights (mdb κ) src) requested) RIGHT_NONE) as [|Heff]; [by apply Hearly|].
  destruct (Hpub obj eq_refl) as (k & Hk & H1 & H2). unfold get_obj. rewrite Hk. cbn [of_assert mbind res_bind].
  destruct (mdb_badge_derive _ _ _) as [e|eb] eqn:Hbd.
  { apply Hearly. intros ->. by apply mdb_badge_derive_err in Hbd. }
  apply mdb_badge_derive_ok in Hbd as [Hb _].
  set (c := rights_reduce _ _) in *.
  assert (install_code κ dcn didx c (Some (scn, sidx)) (Some obj) true =
    if bool_decide (is_Some (object (mdb κ) dst)) then IRIS_ERR_ALREADY_EXISTS else IRIS_OK) as Hcode.
  { unfold install_code, parent_in_range, parent_rejected. fold src dst.
    rewrite Hr1, Hr2, Ho, bool_decide_false by congruence.
    rewrite (proj2 (Z.eqb_neq _ _) Heff), N.eqb_refl. cbn [negb orb andb].
    destruct (object (mdb κ) dst); [rewrite bool_decide_true by eauto; done|].
    rewrite bool_decide_false; [done|]. by intros [? ?]. }
  case_bool_decide as Hocc.
  - destruct (install_refused hl ha dcn didx obj k c eb (Some (scn, sidx)) (Some obj) false κ) as (κ' & -> & W);
      [done..|exact (Hroom obj k Ho Hk)|by rewrite Hcode|]. rewrite Hcode. by split_and!.
  - eapply returns_mono; [apply (install_linked_spec hl ha _ _ obj k); [done..|exact (Hroom obj k Ho Hk)]|].
    intros [e κ'] [He [P1 _ P3 _ _]]. rewrite Hcode in He.
    assert (object (mdb κ) dst = None) as Hd by (destruct (object (mdb κ) dst); [destruct Hocc; eauto|done]).
    split_and!; [done..|by apply P3|]. eexists. simpl. rewrite Ho. split; [reflexivity|].
    repeat split; simpl; [apply rights_reduce_le|done].
Qed.

(** ** The exact calls: mint and move *)

(** Source slot, destination slot and the new capability. *)
Definition mint_verdict κ t (arg0 arg1 arg2 : Z) : iris_error_t + (slotptr * slotptr * cap) :=
  match cspace_root (sct_root t) with
  | None => inl IRIS_ERR_INVALID_ARG
  | Some root =>
    if negb (cspace_only_cptr arg0)
       || negb (dest_cnode arg1 =? 0) && negb (cspace_only_cptr (dest_cnode arg1))
       || (dest_slot arg1 =? 0) then inl IRIS_ERR_INVALID_ARG
    else match cspace_lookup_slot (Some root) arg0 κ with
    | inl e => inl e
    | inr (scn, sidx) =>
      match dest_verdict κ t (dest_cnode arg1) with
      | inl e => inl e
      | inr dcn =>
          match derive_verdict κ scn sidx dcn (Z.to_N (dest_slot arg1))
                  (Z.land arg2 0xFFFFFFFF) (Z.shiftr arg2 32) with
          | inl e => inl e
          | inr c => inr (InNode scn sidx, InNode dcn (Z.to_N (dest_slot arg1)), c)
          end
      end
    end
  end.

Definition move_verdict κ t (arg0 arg1 : Z) : iris_error_t + (slotptr * slotptr) :=
  match cspace_root (sct_root t) with
  | None => inl IRIS_ERR_INVALID_ARG
  | Some root =>
    if dest_slot arg1 =? 0 then inl IRIS_ERR_INVALID_ARG
    else match cspace_lookup_slot (Some root) arg0 κ with
    | inl e => inl e
    | inr (scn, sidx) =>
      match dest_verdict κ t (dest_cnode arg1) with
      | inl e => inl e
      | inr dcn =>
          let e := move_code κ scn sidx dcn (Z.to_N (dest_slot arg1)) in
          if bool_decide (e = IRIS_OK) then inr (InNode scn sidx, InNode dcn (Z.to_N (dest_slot arg1)))
          else inl e
      end
    end
  end.

(** The slots a rotation works on. *)
Definition rotate_slots κ t (arg0 arg1 arg2 : Z) : option (slotptr * slotptr * slotptr) :=
  match cspace_lookup_slot (cspace_root (sct_root t)) arg0 κ,
        cspace_lookup_slot (cspace_root (sct_root t)) arg1 κ,
        dest_verdict κ t (dest_cnode arg2) with
  | inr (scn, si), inr (pcn, pi), inr dcn =>
      Some (InNode scn si, InNode pcn pi, InNode dcn (Z.to_N (dest_slot arg2)))
  | _, _, _ => None
  end.

(** A move or rotation does not carry a capability to a CNode over the border of
    that CNode: a slot inside it holds no active reference on it, a slot outside
    does, and neither primitive adjusts the count. *)
Definition border_ok κ t (c : cap_call) : Prop :=
  match c with
  | CSPACE_MOVE p a => ∀ src dst o, move_verdict κ t p a = inr (src, dst) →
      object (mdb κ) src = Some o → same_home o src dst
  | CSPACE_ROTATE p a b => ∀ src pivot dest, rotate_slots κ t p a b = Some (src, pivot, dest) →
      homes_agree (mdb κ) src pivot ∧ homes_agree (mdb κ) pivot dest
  | _ => True
  end.

(** The verdicts depend on the tree and the types only. *)
Section shifted_calls.
Context κ dl da κ' (W : shifted κ dl da κ').

Lemma shifted_move_code scn si dcn di : move_code κ' scn si dcn di = move_code κ scn si dcn di.
Proof. unfold move_code. by rewrite !(shifted_range _ _ _ _ W), (sh_mdb _ _ _ _ W). Qed.

Lemma shifted_derive_verdict scn si dcn di r b :
  derive_verdict κ' scn si dcn di r b = derive_verdict κ scn si dcn di r b.
Proof.
  unfold derive_verdict. rewrite !(shifted_range _ _ _ _ W), (sh_mdb _ _ _ _ W).
  destruct (_ || _); [done|]. destruct (object _ _) as [o|]; [|done].
  pose proof (shifted_type _ _ _ _ W o) as Ht. destruct (negb _); [done|]. destruct (_ =? _); [done|].
  destruct (objs κ' o) as [k'|], (objs κ o) as [k|]; try done. by injection Ht as ->.
Qed.
End shifted_calls.

(** An anchor moves with its capability. *)
Lemma anchored_moved κ κ' hl ha a b o :
  cdt_eq (abs (mdb κ')) (cdt_move a b (abs (mdb κ))) → object (mdb κ) b = None →
  (∀ x, object (mdb κ) a = Some x → same_home x a b) → anchored κ hl ha o → anchored κ' hl ha o.
Proof.
  intros Hc Hb Hh [?|(s & Hs & Hn)]; [by left|right]. exists (swap a b s).
  split; [by rewrite (cdt_move_object _ _ _ _ _ Hc), swap_invol|].
  unfold swap. destruct (decide (s = a)) as [->|]; [intros E; by apply Hn, (Hh o Hs)|].
  destruct (decide (s = b)) as [->|]; [congruence|done].
Qed.

Section calls.
Context (hl ha : N → Z) (κ : kstate) (t : sc_thread).
Context (Hκ : kinv hl ha κ) (Hroom : room hl ha κ) (Hroot : live_root κ hl ha (cspace_root (sct_root t))).

Let Hx : xfer_headroom κ := room_xfer _ _ _ Hκ Hroom.
Let Hpos : ∀ x, 0 ≤ hl x ∧ 0 ≤ ha x := ki_hl _ _ _ Hκ.

(** What every call promises of the state it leaves. *)
Definition safe κ' : Prop := kinv hl ha κ' ∧ attenuated κ κ'.

Lemma safe_refl : safe κ.
Proof. by split. Qed.

Lemma safe_same κ' : shifted κ nil_refs nil_refs κ' → safe κ'.
Proof.
  intros W. split; [exact (shifted_nil_kinv _ _ _ _ Hκ Hx W)|]. apply same_tree_attenuated, W.
Qed.

(** Backing out of a walk. *)
Lemma pins_back_out l κ1 (e : iris_error_t) (Q : sysval * kstate → Prop) :
  pinned hl ha κ l κ1 → (length l ≤ 3)%nat → (∀ κ', shifted κ nil_refs nil_refs κ' → Q (inl e, κ')) →
  returns (κ' ← put_all l κ1; Ret (inl e, κ')) Q.
Proof.
  intros Hp Hl HQ. destruct (pinned_put_all _ _ _ Hκ Hx _ _ Hp Hl) as (κ' & -> & W). by apply HQ.
Qed.

(** Dropping the pins after an action that attenuates. *)
Lemma finish l κ1 (v : sysval) :
  kinv (held hl l) (held ha l) κ1 → attenuated κ κ1 →
  returns (κ' ← put_all l κ1; Ret (v, κ')) (λ '(_, κ'), safe κ').
Proof.
  intros H1 Ha. apply returns_bind. eapply returns_mono; [by apply (drop_pins hl ha Hpos)|].
  intros κ' [Hκ' Hs]. split; [done|]. etransitivity; [exact Ha|]. by apply shrinks_attenuated, Hs.
Qed.

(** Room, and life, for what a slot that was walked to names. *)
Lemma pinned_headroom l κ1 s : pinned hl ha κ l κ1 → (length l ≤ 3)%nat → refs_headroom κ1 s.
Proof.
  intros Hp Hl o k1 _ Hk1. rewrite (sh_objs _ _ _ _ (pn_shift _ _ _ _ _ Hp)) in Hk1.
  destruct (objs κ o) as [k|] eqn:Hk; [|done]. injection Hk1 as <-. simpl.
  pose proof (Hroom o). destruct (ki_refs _ _ _ Hκ o k Hk) as (E1 & E2 & _).
  pose proof (names_le_occupied (mdb κ) o). pose proof (anames_le_names (mdb κ) o).
  assert (queued κ o ≤ 1) by (unfold queued; case_decide; lia). pose proof (pins_bound l o). lia.
Qed.

Lemma pinned_named l κ1 (root : option N) cptr cn i :
  pinned hl ha κ l κ1 → live_root κ hl ha root → cspace_lookup_slot root cptr κ = inr (cn, i) →
  ∀ o, object (mdb κ1) (InNode cn i) = Some o → published κ1 o.
Proof.
  intros Hp Hr Hl o. rewrite (pinned_mdb _ _ _ _ _ Hp). intros Ho.
  eapply pinned_pub; [exact Hp|]. apply (anchored_pub hl ha κ Hκ).
  eapply named_anchored; [|exact Ho]. by apply (lookup_slot_anchored κ hl ha) in Hl as (? & _).
Qed.

(** The destination walk of a mint is that of a move. *)
Lemma mint_dest (root : N) dest κ1 :
  cspace_root (sct_root t) = Some root →
  (if dest =? 0 then cspace_own_root (Some root) κ1
   else '(d, κ) ← cspace_resolve_cnode (Some (sct_root t)) (Some root) dest RIGHT_WRITE κ1;
        Ret (match d with inl e => inl e | inr (cn, _) => inr cn end, κ)) = resolve_dest t dest κ1.
Proof.
  intros E. unfold resolve_dest, cspace_resolve_cnode_for_publish, cspace_resolve_cnode, typed_resolve. rewrite E.
  destruct (dest =? 0); [done|]. destruct (cspace_resolve_cap _ _ _ _ _) as [[[e|[[o r] b]] κ2]| |]; try done.
  cbn [mbind res_bind]. destruct (get_obj o κ2) as [k| |]; try done. cbn [mbind res_bind].
  destruct (negb _); [|done]. by destruct (put_refs o κ2).
Qed.

Lemma mint_spec arg0 arg1 arg2 :
  returns (sys_cspace_mint t arg0 arg1 arg2 κ) (λ '(r, κ'), safe κ' ∧
    match mint_verdict κ t arg0 arg1 arg2 with
    | inl e => r = inl e ∧ shifted κ nil_refs nil_refs κ'
    | inr (src, dst, c) => r = inr 0 ∧ object (mdb κ) dst = None ∧
        cdt_eq (abs (mdb κ')) (cdt_install dst c (Some src) (abs (mdb κ))) ∧
        ∃ c0, caps (abs (mdb κ)) src = Some c0 ∧ cap_le c c0
    end).
Proof.
  unfold sys_cspace_mint, mint_verdict.
  assert (∀ e : iris_error_t, safe κ ∧ (inl e : sysval) = inl e ∧ shifted κ nil_refs nil_refs κ) as Hearly.
  { intros e. split; [apply safe_refl|]. split; [done|apply shifted_refl]. }
  assert (∀ e κ', shifted κ nil_refs nil_refs κ' →
    safe κ' ∧ (inl e : sysval) = inl e ∧ shifted κ nil_refs nil_refs κ') as Hlate.
  { intros e κ' W. split; [by apply safe_same|done]. }
  destruct (cspace_root (sct_root t)) as [root|] eqn:Er; [|apply Hearly].
  destruct (negb (cspace_only_cptr arg0)); cbn [orb]; [apply Hearly|].
  destruct (negb _ && negb _); cbn [orb]; [apply Hearly|].
  destruct (dest_slot arg1 =? 0) eqn:Eds; [apply Hearly|].
  apply returns_bind. eapply returns_mono; [apply (pin_slot hl ha κ Hκ Hx (Some root) arg0 [] κ (pinned_nil _ _ _)); [simpl; lia|done]|].
  intros [r κ1] [-> Hp1]. destruct (cspace_lookup_slot (Some root) arg0 κ) as [e|[scn si]] eqn:Hl.
  { apply Hlate. apply Hp1. }
  rewrite (mint_dest root) by done. apply returns_bind.
  eapply returns_mono; [apply (pin_dest hl ha κ Hκ Hx t (dest_cnode arg1) [scn] κ1 Hp1); [simpl; lia|by rewrite Er|by rewrite Er]|].
  intros [d κ2] [-> Hp2]. destruct (dest_verdict κ t (dest_cnode arg1)) as [e|dcn].
  { apply (pins_back_out [scn]); [done|simpl; lia|apply Hlate]. }
  pose proof (pinned_kinv hl ha κ Hκ Hx _ _ Hp2 ltac:(simpl; lia)) as Hκ2.
  apply returns_bind. eapply returns_mono;
    [apply (slot_derive_spec _ _ scn si dcn (Z.to_N (dest_slot arg1)) (Z.land arg2 0xFFFFFFFF) (Z.shiftr arg2 32) κ2 Hκ2);
       [eapply pinned_headroom; [exact Hp2|simpl; lia]|by eapply pinned_named; [exact Hp2| |exact Hl]]|].
  intros [e κ3]. rewrite (shifted_derive_verdict _ _ _ _ (pn_shift _ _ _ _ _ Hp2)), (pinned_mdb _ _ _ _ _ Hp2).
  destruct (derive_verdict _ _ _ _ _ _ _) as [e0|c].
  - intros (-> & Hne & W). unfold sys_result. rewrite bool_decide_false by done.
    apply (pins_back_out [dcn; scn]); [by eapply pinned_same|simpl; lia|apply Hlate].
  - intros (-> & Hκ3 & Hd & Hcdt & c0 & Hc0 & Hle).
    destruct (drop_pins_quiet hl ha Hpos [dcn; scn] κ3 Hκ3) as (κ4 & -> & Hκ4 & Hm4).
    { eapply Forall_impl; [apply Hp2|]. intros o. by eapply anchored_install. }
    cbn [mbind res_bind returns]. rewrite <-Hm4 in Hcdt. split; [|split_and!; eauto].
    split; [done|]. by eapply installed_attenuated.
Qed.

Lemma move_spec arg0 arg1 :
  border_ok κ t (CSPACE_MOVE arg0 arg1) →
  returns (sys_cspace_move t arg0 arg1 κ) (λ '(r, κ'), safe κ' ∧
    match move_verdict κ t arg0 arg1 with
    | inl e => r = inl e ∧ shifted κ nil_refs nil_refs κ'
    | inr (src, dst) => r = inr 0 ∧ cdt_eq (abs (mdb κ')) (cdt_move src dst (abs (mdb κ)))
    end).
Proof.
  unfold sys_cspace_move, border_ok, move_verdict.
  assert (∀ e κ', shifted κ nil_refs nil_refs κ' →
    safe κ' ∧ (inl e : sysval) = inl e ∧ shifted κ nil_refs nil_refs κ') as Hlate.
  { intros e κ' W. split; [by apply safe_same|done]. }
  destruct (cspace_root (sct_root t)) as [root|] eqn:Er; [|intros _; apply Hlate, shifted_refl].
  destruct (dest_slot arg1 =? 0) eqn:Eds; [intros _; apply Hlate, shifted_refl|].
  intros Hb. apply returns_bind.
  eapply returns_mono; [apply (pin_slot hl ha κ Hκ Hx (Some root) arg0 [] κ (pinned_nil _ _ _)); [simpl; lia|done]|].
  intros [r κ1] [-> Hp1]. destruct (cspace_lookup_slot (Some root) arg0 κ) as [e|[scn si]] eqn:Hl.
  { apply Hlate. apply Hp1. }
  apply returns_bind.
  eapply returns_mono; [apply (pin_dest hl ha κ Hκ Hx t (dest_cnode arg1) [scn] κ1 Hp1); [simpl; lia|by rewrite Er|by rewrite Er]|].
  intros [d κ2] [-> Hp2]. destruct (dest_verdict κ t (dest_cnode arg1)) as [e|dcn].
  { apply (pins_back_out [scn]); [done|simpl; lia|apply Hlate]. }
  pose proof (pinned_kinv hl ha κ Hκ Hx _ _ Hp2 ltac:(simpl; lia)) as Hκ2. cbv zeta in Hb |- *.
  set (di := Z.to_N (dest_slot arg1)) in *.
  pose proof (shifted_move_code _ _ _ _ (pn_shift _ _ _ _ _ Hp2) scn si dcn di) as Hcode.
  destruct (decide (move_code κ scn si dcn di = IRIS_OK)) as [Hok|Hne].
  - rewrite bool_decide_true in Hb |- * by done. specialize (λ o, Hb _ _ o eq_refl) as Hh.
    apply returns_bind. eapply returns_mono; [apply (slot_move_spec _ _ scn si dcn di κ2 Hκ2)|].
    { rewrite (pinned_mdb _ _ _ _ _ Hp2). exact Hh. }
    intros [e κ3] (-> & Hκ3 & Hcdt). rewrite Hcode, Hok in Hcdt |- *. rewrite decide_True in Hcdt by done.
    rewrite (pinned_mdb _ _ _ _ _ Hp2) in Hcdt.
    destruct (drop_pins_quiet hl ha Hpos [dcn; scn] κ3 Hκ3) as (κ4 & -> & Hκ4 & Hm4).
    { eapply Forall_impl; [apply Hp2|]. intros o. eapply anchored_moved; [exact Hcdt| |exact Hh].
      unfold move_code in Hok. destruct (_ || _); [done|]. by destruct (object _ (InNode scn si)), (object _ _). }
    rewrite <-Hm4 in Hcdt. split; [|by split]. split; [done|]. by eapply moved_attenuated.
  - rewrite bool_decide_false in Hb |- * by done.
    assert (kcnode_slot_move (Some scn) si (Some dcn) di κ2 = Ret (move_code κ scn si dcn di, κ2)) as Hm.
    { rewrite <-Hcode in Hne |- *. unfold kcnode_slot_move, move_code in *. rewrite slot_eqb.
      destruct (slot_in_range κ2 scn si), (slot_in_range κ2 dcn di); try done. cbn [negb orb] in *.
      destruct (bool_decide _); [done|]. cbn [negb orb] in *.
      by destruct (object (mdb κ2) (InNode scn si)), (object (mdb κ2) (InNode dcn di)). }
    rewrite Hm. cbn [mbind res_bind]. unfold sys_result. rewrite bool_decide_false by done.
    apply (pins_back_out [dcn; scn]); [done|simpl; lia|apply Hlate].
Qed.

(** ** The calls that remove capabilities *)

Lemma shrunk_attenuated l κ1 κ2 : pinned hl ha κ l κ1 → kshrinks κ1 κ2 → attenuated κ κ2.
Proof.
  intros Hp Hs. apply shrinks_attenuated. rewrite <-(pinned_mdb _ _ _ _ _ Hp). apply Hs.
Qed.

Lemma delete_safe arg0 arg1 : returns (sys_cnode_delete t arg0 arg1 κ) (λ '(_, κ'), safe κ').
Proof.
  unfold sys_cnode_delete. destruct (cspace_root (sct_root t)) as [root|] eqn:Er; [|apply safe_refl].
  apply returns_bind.
  assert (returns (if arg0 =? 0 then cspace_own_root (Some root) κ else resolve_target t arg0 κ) (λ '(r, κ1),
    match r with inl _ => pinned hl ha κ [] κ1 | inr cn => pinned hl ha κ [cn] κ1 end)) as Hpin.
  { destruct (arg0 =? 0).
    - destruct (pin_own_root hl ha κ Hκ Hx root [] κ (pinned_nil _ _ _)) as (κ1 & -> & Hp);
        [simpl; lia|exact Hroot|done].
    - eapply returns_mono; [apply (pin_target hl ha κ Hκ Hx t arg0 [] κ (pinned_nil _ _ _)); [simpl; lia|by rewrite Er|by rewrite Er]|].
      intros [r κ1] [_ Hp]. done. }
  eapply returns_mono; [exact Hpin|]. intros [[e|cn] κ1] Hp; [apply safe_same, Hp|].
  pose proof (pinned_kinv hl ha κ Hκ Hx _ _ Hp ltac:(simpl; lia)) as Hκ1.
  apply returns_bind. eapply returns_mono; [by apply (kcnode_slot_delete_spec (held hl [cn]) (held ha [cn]))|].
  intros [e κ2] [[Htd _] _]. apply finish; [apply Htd|]. eapply shrunk_attenuated; [exact Hp|apply Htd].
Qed.

(** *** Revoke: one slice *)

(** The slot a revoke works on. *)
Definition revoke_slot (arg0 : Z) : iris_error_t + N * N :=
  match cspace_root (sct_root t) with
  | None => inl IRIS_ERR_INVALID_ARG
  | Some root => if negb (cspace_only_cptr arg0) then inl IRIS_ERR_INVALID_ARG
                 else cspace_lookup_slot (Some root) arg0 κ
  end.

(** Nothing derived from [s] survives, if [s] does. *)
Definition revoked_below s κ' : Prop :=
  object (mdb κ') s ≠ None → ∀ x, descends (abs (mdb κ)) x s → object (mdb κ') x = None.

Record slice_post (arg0 : Z) (r : sysval) t' κ' : Prop := SlicePost {
  sl_inv  : kinv hl ha κ';
  sl_shr  : kshrinks κ κ';
  sl_root : sct_root t' = sct_root t ∧ sct_reentry t' = sct_reentry t;
  sl_res  : match revoke_slot arg0 with
            | inl e => r = inl e ∧ t' = t ∧ shifted κ nil_refs nil_refs κ'
            | inr (cn, i) => ∃ n, 0 ≤ n ≤ IRIS_REVOKE_SLICE ∧
                Z.of_nat (occupied (mdb κ')) + n ≤ Z.of_nat (occupied (mdb κ)) ∧
                (kept_below hl ha κ (InNode cn i) → exact_revoke (InNode cn i) κ κ' n) ∧
                sct_acc t' = u64 ((if sct_reentry t then sct_acc t else 0) + n) ∧
                if decide (sct_restart t' = sct_restart t)
                then r = inr (sct_acc t') ∧ revoked_below (InNode cn i) κ'
                else sct_restart t' = true ∧ n = IRIS_REVOKE_SLICE
            end;
}.

Lemma no_child_revoked cn i κ1 κ' :
  kinv (held hl [cn]) (held ha [cn]) κ1 → kshrinks κ κ1 → kshrinks κ1 κ' →
  mdb_first_child (mdb κ1) (InNode cn i) = None → revoked_below (InNode cn i) κ'.
Proof.
  intros Hκ1 Hs1 Hs' Hc Hroot' x Hd. destruct (object (mdb κ') x) as [y|] eqn:Hy; [exfalso|done].
  assert (object (mdb κ1) x = Some y) as Hy1 by (by eapply shrinks_object).
  assert (object (mdb κ1) (InNode cn i) ≠ None) as Hr1.
  { destruct (object (mdb κ') (InNode cn i)) eqn:E; [|done]. rewrite (shrinks_object _ _ _ _ Hs' E). done. }
  apply (no_children_no_descendants (mdb κ1) (InNode cn i) x); [apply Hκ1|done|].
  apply (cs_desc _ _ (ks_cdt _ _ Hs1)); [simpl; by rewrite Hy1| |done].
  simpl. destruct (object (mdb κ1) (InNode cn i)) eqn:E; [done|by destruct Hr1].
Qed.

(** What a pin rested on is still there after an exact revocation. *)
Lemma kept_anchored root κ1 n o :
  kept_below hl ha κ root → exact_revoke root κ κ1 n → anchored κ hl ha o → anchored κ1 hl ha o.
Proof.
  intros Hk X [?|(s & Hs & Hh)]; [by left|].
  destruct (exact_revoke_object _ _ _ _ _ _ X Hs) as [?|Hd]; [right; by exists s|].
  destruct (Hk s o Hd Hs) as [?|(x & Hnx & Hxo & Hxh)]; [by left|right].
  exists x. by destruct (exact_revoke_object _ _ _ _ _ _ X Hxo).
Qed.

Lemma kept_pinned l root κ1 :
  pinned hl ha κ l κ1 → kept_below hl ha κ root → kept_below (held hl l) (held ha l) κ1 root.
Proof.
  intros Hp Hk s o. rewrite (pinned_mdb _ _ _ _ _ Hp). intros Hd Ho.
  destruct (Hk s o Hd Ho) as [?|(x & Hk')]; [left|right; exists x; by rewrite (pinned_mdb _ _ _ _ _ Hp)].
  pose proof (pins_bound l o). lia.
Qed.

Lemma revoke_slice_spec arg0 :
  sct_restart t = false →
  returns (sys_cspace_revoke t arg0 κ) (λ '(r, t', κ'), slice_post arg0 r t' κ').
Proof.
  intros Hrs. unfold sys_cspace_revoke.
  assert (∀ e κ', revoke_slot arg0 = inl e → shifted κ nil_refs nil_refs κ' → slice_post arg0 (inl e) t κ') as Herr.
  { intros e κ' E W. split; [exact (shifted_nil_kinv _ _ _ _ Hκ Hx W)|by eapply shifted_shrinks|done|by rewrite E]. }
  destruct (cspace_root (sct_root t)) as [root|] eqn:Er;
    [|apply Herr; [unfold revoke_slot; by rewrite Er|apply shifted_refl]].
  destruct (negb (cspace_only_cptr arg0)) eqn:Ec;
    [apply Herr; [unfold revoke_slot; by rewrite Er, Ec|apply shifted_refl]|].
  apply returns_bind.
  eapply returns_mono; [apply (pin_slot hl ha κ Hκ Hx (Some root) arg0 [] κ (pinned_nil _ _ _)); [simpl; lia|done]|].
  intros [r κ1] [-> Hp1]. destruct (cspace_lookup_slot (Some root) arg0 κ) as [e|[cn i]] eqn:Hl.
  { apply Herr; [unfold revoke_slot; by rewrite Er, Ec|apply Hp1]. }
  destruct (lookup_slot_anchored κ hl ha _ _ _ _ Hroot Hl) as (Hanc & [o Ho] & Hin).
  pose proof (pinned_kinv hl ha κ Hκ Hx _ _ Hp1 ltac:(simpl; lia)) as Hκ1.
  pose proof (pinned_mdb _ _ _ _ _ Hp1) as Hm1. cbv zeta. apply returns_bind.
  eapply returns_mono; [apply (revoke_bounded_spec _ _ cn i IRIS_REVOKE_SLICE κ1 Hκ1)|].
  { by rewrite (shifted_range _ _ _ _ (pn_shift _ _ _ _ _ Hp1)). }
  { unfold IRIS_REVOKE_SLICE. lia. }
  { rewrite Hm1. pose proof (Hroom 0%N). pose proof (Hpos 0%N). lia. }
  intros [[[e κ2] n] more] [P1 P2 P3 P4 P5 P6 P7]. rewrite Hm1 in P3, P6.
  rewrite Ho, decide_False in P6 by (by intros [? _]). subst e.
  pose proof (drop_pins hl ha Hpos [cn] _ P1) as Hput. apply returns_Ret in Hput as (κ3 & Hput & Hκ3 & Hs3).
  assert (kept_below hl ha κ (InNode cn i) → exact_revoke (InNode cn i) κ κ3 n) as Hex.
  { intros Hk. destruct (P7 (kept_pinned _ _ _ Hp1 Hk)) as [X _]. rewrite Z.sub_0_r in X.
    assert (exact_revoke (InNode cn i) κ κ2 n) as X' by (eapply exact_revoke_tree; [..|exact X]; by rewrite ?Hm1).
    destruct (drop_pins_quiet hl ha Hpos [cn] κ2 P1) as (κ4 & Hput' & _ & M4);
      [constructor; [by eapply kept_anchored|constructor]|].
    rewrite Hput in Hput'. injection Hput' as <-. by eapply exact_revoke_tree. }
  rewrite Hput. cbn [mbind res_bind]. rewrite bool_decide_true by done. cbn [negb].
  assert (kshrinks κ κ2) as Hs2 by (etransitivity; [by eapply shifted_shrinks, Hp1|exact P2]).
  pose proof (shrinks_occupied _ _ Hs3).
  assert (∀ t', t' = (if sct_reentry t then t else set_acc 0 t) → sct_root t' = sct_root t ∧
    sct_reentry t' = sct_reentry t ∧ sct_restart t' = sct_restart t) as Ht.
  { intros t' ->. by destruct (sct_reentry t) eqn:E; split_and!. }
  specialize (Ht _ eq_refl) as (T1 & T2 & T3).
  set (acc := u64 (_ + n)).
  assert (acc = u64 ((if sct_reentry t then sct_acc t else 0) + n)) as Hacc
    by (unfold acc; by destruct (sct_reentry t)).
  destruct more.
  - split; [done|by etransitivity|by split|]. unfold revoke_slot. rewrite Er, Ec, Hl.
    exists n. destruct P5 as (_ & -> & _). split; [unfold IRIS_REVOKE_SLICE; lia|]. split; [lia|]. split; [done|]. split; [done|].
    rewrite decide_False; [done|]. by rewrite Hrs.
  - split; [done|by etransitivity|by split|]. unfold revoke_slot. rewrite Er, Ec, Hl.
    exists n. split; [unfold IRIS_REVOKE_SLICE in *; lia|]. split; [lia|]. split; [done|]. split; [done|].
    rewrite decide_True by done. split; [done|].
    by apply (no_child_revoked cn i κ2).
Qed.

(** ** Rotation, swap, guards and questions *)

Lemma rotate_safe arg0 arg1 arg2 :
  border_ok κ t (CSPACE_ROTATE arg0 arg1 arg2) →
  returns (sys_cspace_rotate t arg0 arg1 arg2 κ) (λ '(_, κ'), safe κ').
Proof.
  unfold sys_cspace_rotate, border_ok, rotate_slots. intros Hb.
  destruct (cspace_root (sct_root t)) as [root|] eqn:Er; [|apply safe_refl].
  destruct (dest_slot arg2 =? 0); [apply safe_refl|]. apply returns_bind.
  eapply returns_mono; [apply (pin_slot hl ha κ Hκ Hx (Some root) arg0 [] κ (pinned_nil _ _ _)); [simpl; lia|done]|].
  intros [r κ1] [-> Hp1]. destruct (cspace_lookup_slot (Some root) arg0 κ) as [e|[scn si]]; [apply safe_same, Hp1|].
  apply returns_bind. eapply returns_mono; [apply (pin_slot hl ha κ Hκ Hx (Some root) arg1 [scn] κ1 Hp1); [simpl; lia|done]|].
  intros [r κ2] [-> Hp2]. destruct (cspace_lookup_slot (Some root) arg1 κ) as [e|[pcn pi]].
  { apply (pins_back_out [scn]); [done|simpl; lia|intros; by apply safe_same]. }
  apply returns_bind.
  eapply returns_mono; [apply (pin_dest hl ha κ Hκ Hx t (dest_cnode arg2) [pcn; scn] κ2 Hp2); [simpl; lia|by rewrite Er|by rewrite Er]|].
  intros [d κ3] [-> Hp3]. destruct (dest_verdict κ t (dest_cnode arg2)) as [e|dcn].
  { apply (pins_back_out [pcn; scn]); [done|simpl; lia|intros; by apply safe_same]. }
  destruct (Hb _ _ _ eq_refl) as [H1 H2]. rewrite <-(pinned_mdb _ _ _ _ _ Hp3) in H1, H2.
  pose proof (pinned_kinv hl ha κ Hκ Hx _ _ Hp3 ltac:(simpl; lia)) as Hκ3. apply returns_bind.
  eapply returns_mono; [by apply (kcnode_slot_rotate_refines _ _ dcn _ pcn pi scn si κ3 Hκ3)|].
  intros [e κ4] (_ & Hκ4 & Hcdt). apply finish; [exact Hκ4|].
  transitivity κ3; [apply same_tree_attenuated, Hp3|]. case_decide; [|by subst κ4].
  case_decide; [by eapply moved_attenuated|]. intros s c. destruct Hcdt as [Hc _]. rewrite Hc. cbn [cdt_move caps].
  intros Hs. by eexists _, c.
Qed.

Lemma swap_safe arg0 arg1 arg2 : returns (sys_cnode_swap t arg0 arg1 arg2 κ) (λ '(_, κ'), safe κ').
Proof.
  unfold sys_cnode_swap. destruct (_ || _); [apply safe_refl|].
  destruct (cspace_root (sct_root t)) as [root|] eqn:Er; [|apply safe_refl]. apply returns_bind.
  eapply returns_mono; [apply (pin_target hl ha κ Hκ Hx t arg0 [] κ (pinned_nil _ _ _)); [simpl; lia|by rewrite Er|by rewrite Er]|].
  intros [r κ1] [-> Hp]. destruct (target_verdict κ t arg0) as [e|cn]; [apply safe_same, Hp|].
  pose proof (pinned_kinv hl ha κ Hκ Hx _ _ Hp ltac:(simpl; lia)) as Hκ1. apply returns_bind.
  eapply returns_mono; [by apply (kcnode_swap_refines _ _ cn _ _ κ1 Hκ1)|].
  intros [e κ2] (_ & Hκ2 & Hcdt). apply finish; [exact Hκ2|].
  transitivity κ1; [apply same_tree_attenuated, Hp|]. case_decide; [by eapply moved_attenuated|by subst κ2].
Qed.

(** A guard is not part of the tree. *)
Lemma set_guard_spec h1 h2 cn i g gb κ1 :
  kinv h1 h2 κ1 →
  returns (kcnode_slot_set_guard (Some cn) i g gb κ1) (λ '(_, κ2),
    kinv h1 h2 κ2 ∧ abs (mdb κ2) = abs (mdb κ1)).
Proof.
  intros H1. unfold kcnode_slot_set_guard. destruct (negb _); [done|]. destruct (_ <? _); [done|].
  destruct (_ && _); [done|]. destruct (object (mdb κ1) (InNode cn i)) as [o|] eqn:Ho; [|done].
  destruct (slot_object_live _ _ _ _ _ H1 Ho) as (k & Hk & _ & _). unfold get_obj. rewrite Hk.
  cbn [of_assert mbind res_bind]. destruct (negb _); [done|]. destruct (_ <? _); [done|].
  split; [|done]. destruct H1 as [[[F1 F2] F3 F4 F5] A2 A3 A4 A5 A6 A7 A8 A9].
  constructor; try assumption. constructor; try assumption; [by constructor|].
  intros s Hs. destruct (F3 s Hs) as (E1 & E2 & E3 & E4 & E5 & E6 & E7).
  assert (s ≠ InNode cn i) by (intros ->; simpl in Hs; congruence).
  simpl. unfold upd_fn. rewrite !decide_False by done. by split_and!.
Qed.

Lemma set_guard_safe arg0 arg1 arg2 : returns (sys_cspace_set_guard t arg0 arg1 arg2 κ) (λ '(_, κ'), safe κ').
Proof.
  unfold sys_cspace_set_guard. destruct (cspace_root (sct_root t)) as [root|] eqn:Er; [|apply safe_refl].
  destruct (negb _); [apply safe_refl|]. destruct (_ <? _); [apply safe_refl|]. apply returns_bind.
  eapply returns_mono; [apply (pin_slot hl ha κ Hκ Hx (Some root) arg0 [] κ (pinned_nil _ _ _)); [simpl; lia|done]|].
  intros [r κ1] [-> Hp]. destruct (cspace_lookup_slot (Some root) arg0 κ) as [e|[cn i]]; [apply safe_same, Hp|].
  pose proof (pinned_kinv hl ha κ Hκ Hx _ _ Hp ltac:(simpl; lia)) as Hκ1. apply returns_bind.
  eapply returns_mono; [by apply set_guard_spec|]. intros [e κ2] [Hκ2 Habs]. apply finish; [exact Hκ2|].
  intros s c. rewrite Habs, (pinned_mdb _ _ _ _ _ Hp). intros Hs. by exists s, c.
Qed.

(** The two questions change nothing. *)
Lemma identify_spec arg0 :
  is_Some (cspace_root (sct_root t)) → cspace_only_cptr arg0 = true →
  returns (sys_cap_identify t arg0 κ) (λ '(r, κ'), shifted κ nil_refs nil_refs κ' ∧
    match cap_verdict κ t arg0 RIGHT_NONE with
    | inl e => r = inl e
    | inr o => ∃ k, objs κ o = Some k ∧ r = inr (type_code (otype k))
    end).
Proof.
  intros Hs Hc. unfold sys_cap_identify. pose proof Hs as [root Er]. rewrite Er, Hc. cbn [negb].
  rewrite <-Er. apply returns_bind.
  eapply returns_mono; [apply (pin_cap hl ha κ Hκ Hx t arg0 RIGHT_NONE [] κ (pinned_nil _ _ _)); [simpl; lia|done|done]|].
  intros [[e|[[o ?] ?]] κ1]; [intros [-> Hp]; split; [apply Hp|done]|].
  intros (-> & Hp & k & Hk & Ht). unfold get_obj. rewrite Hk. cbn [of_assert mbind res_bind].
  destruct (pinned_put_all hl ha κ Hκ Hx _ _ Hp) as (κ2 & -> & W); [simpl; lia|].
  cbn [mbind res_bind returns]. split; [exact W|]. destruct (objs κ o) as [k0|]; [|done]. injection Ht as Ht. exists k0. by rewrite Ht.
Qed.

Lemma same_object_spec arg0 arg1 :
  is_Some (cspace_root (sct_root t)) → cspace_only_cptr arg0 = true → cspace_only_cptr arg1 = true →
  returns (sys_cap_same_object t arg0 arg1 κ) (λ '(r, κ'), shifted κ nil_refs nil_refs κ' ∧
    r = match cap_verdict κ t arg0 RIGHT_NONE, cap_verdict κ t arg1 RIGHT_NONE with
        | inl e, _ => inl e
        | _, inl e => inl e
        | inr a, inr b => inr (if (a =? b)%N then 1 else 0)
        end).
Proof.
  intros Hs Hc0 Hc1. unfold sys_cap_same_object. pose proof Hs as [root Er]. rewrite Er, Hc0, Hc1. cbn [negb orb].
  rewrite <-Er. apply returns_bind.
  eapply returns_mono; [apply (pin_cap hl ha κ Hκ Hx t arg0 RIGHT_NONE [] κ (pinned_nil _ _ _)); [simpl; lia|done|done]|].
  intros [[e|[[a ?] ?]] κ1]; [intros [-> Hp]; split; [apply Hp|done]|].
  intros (-> & Hp & _). apply returns_bind.
  eapply returns_mono; [apply (pin_cap hl ha κ Hκ Hx t arg1 RIGHT_NONE [a] κ1 Hp); [simpl; lia|done|done]|].
  intros [[e|[[b ?] ?]] κ2].
  - intros [-> Hp2]. apply (pins_back_out [a]); [done|simpl; lia|by intros].
  - intros (-> & Hp2 & _). destruct (pinned_put_all hl ha κ Hκ Hx _ _ Hp2) as (κ3 & -> & W); [simpl; lia|].
    by split.
Qed.

Lemma identify_safe arg0 : returns (sys_cap_identify t arg0 κ) (λ '(_, κ'), safe κ').
Proof.
  destruct (decide (is_Some (cspace_root (sct_root t)))) as [Hs|Er%eq_None_not_Some];
    [|unfold sys_cap_identify; rewrite Er; apply safe_refl].
  destruct (cspace_only_cptr arg0) eqn:Ec;
    [|unfold sys_cap_identify; destruct Hs as [root Er]; rewrite Er, Ec; apply safe_refl].
  eapply returns_mono; [by apply identify_spec|]. intros [r κ'] [W _]. by apply safe_same.
Qed.

Lemma same_object_safe arg0 arg1 : returns (sys_cap_same_object t arg0 arg1 κ) (λ '(_, κ'), safe κ').
Proof.
  destruct (decide (is_Some (cspace_root (sct_root t)))) as [Hs|Er%eq_None_not_Some];
    [|unfold sys_cap_same_object; rewrite Er; apply safe_refl].
  destruct (cspace_only_cptr arg0 && cspace_only_cptr arg1) eqn:Ec.
  - apply andb_true_iff in Ec as [E0 E1]. eapply returns_mono; [by apply same_object_spec|].
    intros [r κ'] [W _]. by apply safe_same.
  - unfold sys_cap_same_object. destruct Hs as [root Er]. rewrite Er. apply andb_false_iff in Ec as [E|E]; rewrite E; cbn [negb orb];
      rewrite ?orb_true_r; apply safe_refl.
Qed.
End calls.
