(* ===== verification/SysCspaceSpec.v ===== *)
(** * Theorems on the capability system calls

    Threads work on their CSpaces with the calls of [SysCspace], in any order and
    interleaving; a revocation is restarted until nothing is left below the
    capability.  The witnesses run on the concrete CSpace of [KcnodeBoot]. *)

From Stdlib Require Import ZArith Lia.
From stdpp Require Import base numbers gmap list relations.
From S2P Require Import Prelude Rights Forest Mdb Cdt Kobject Kcnode KcnodeInv.
From S2P Require Import KcnodeRevoke KcnodeInstall KcnodeMove Cspace IpcCap KcnodeBoot.
From S2P Require Import SysCspace SysPins SysCalls.
Local Open Scope Z_scope.
Implicit Types (κ : kstate) (hl ha : N → Z) (t : sc_thread) (c : cap_call).

(** ** Any history of calls *)

(** When a thread may make a call: its root is alive, the reference counts have
    room, and no move crosses the border of the CNode it moves. *)
Record callable hl ha κ t c : Prop := Callable {
  ca_root   : live_root κ hl ha (cspace_root (sct_root t));
  ca_room   : room hl ha κ;
  ca_border : border_ok κ t c;
}.

Lemma plain_safe hl ha κ t (m : res (sysval * kstate)) :
  returns m (λ '(_, κ'), safe hl ha κ κ') →
  returns (plain t m) (λ '(_, t', κ'), sct_restart t' = sct_restart t ∧ safe hl ha κ κ').
Proof.
  intros Hm. unfold plain. apply returns_bind. eapply returns_mono; [exact Hm|]. intros [r κ'] H. by split.
Qed.

Lemma invoke_safe hl ha κ t c :
  kinv hl ha κ → callable hl ha κ t c → sct_restart t = false →
  returns (syscall_invoke t c κ) (λ '(_, _, κ'), safe hl ha κ κ').
Proof.
  intros Hκ [Hr Hm Hb] Hs.
  assert (∀ m, returns m (λ '(_, κ'), safe hl ha κ κ') →
    returns (plain t m) (λ '(_, _, κ'), safe hl ha κ κ')) as Hpl.
  { intros m Hm'. eapply returns_mono; [by apply plain_safe|]. by intros [[? ?] ?] [_ ?]. }
  destruct c; cbn [syscall_invoke].
  - apply Hpl. eapply returns_mono; [by apply move_spec|]. by intros [? ?] [? _].
  - apply Hpl. by apply rotate_safe.
  - apply Hpl. eapply returns_mono; [by apply mint_spec|]. by intros [? ?] [? _].
  - eapply returns_mono; [by apply revoke_slice_spec|]. intros [[r t'] κ'] [P1 P2 _ _].
    split; [done|]. by apply shrinks_attenuated, P2.
  - apply Hpl. by apply identify_safe.
  - apply Hpl. by apply same_object_safe.
  - apply Hpl. by apply set_guard_safe.
  - apply Hpl. by apply delete_safe.
  - apply Hpl. by apply swap_safe.
Qed.

(** A run of a handler leaves the thread ready for the next. *)
Lemma run_safe hl ha κ t c :
  kinv hl ha κ → callable hl ha κ t c → sct_restart t = false →
  returns (syscall_run t c κ) (λ '(_, t', κ'), sct_restart t' = false ∧ safe hl ha κ κ').
Proof.
  intros Hκ Hc Hs. unfold syscall_run. apply returns_bind. eapply returns_mono; [by apply invoke_safe|].
  intros [[r t'] κ'] H. destruct (sct_restart t') eqn:E; by split.
Qed.

(** The kernel state, the threads, and the call each parked thread will re-enter. *)
Record sys := Sys {
  kst    : kstate;
  thr    : N → sc_thread;
  parked : N → option cap_call;
}.

Definition sys_next (s : sys) (n : N) c (r : option sysval) t κ : sys :=
  Sys κ (upd_fn (thr s) n t) (upd_fn (parked s) n (match r with None => Some c | Some _ => None end)).

Inductive sys_step hl ha (s : sys) : sys → Prop :=
  | step_call n c r t κ :
      parked s n = None → callable hl ha (kst s) (thr s n) c →
      syscall_dispatch (thr s n) c (kst s) = Ret (r, t, κ) → sys_step hl ha s (sys_next s n c r t κ)
  | step_resume n c r t κ :
      parked s n = Some c → callable hl ha (kst s) (thr s n) c →
      syscall_restart_trampoline (thr s n) c (kst s) = Ret (r, t, κ) →
      sys_step hl ha s (sys_next s n c r t κ).

Definition sys_ok hl ha (s : sys) : Prop :=
  kinv hl ha (kst s) ∧ ∀ n, sct_restart (thr s n) = false.

Lemma callable_flags hl ha κ t b f a c :
  callable hl ha κ t c → callable hl ha κ (ScThread (sct_root t) b f a) c.
Proof. intros [H1 H2 H3]. split; [done|done|]. by destruct c. Qed.

Lemma sys_step_safe hl ha s s' :
  sys_step hl ha s s' → sys_ok hl ha s → sys_ok hl ha s' ∧ attenuated (kst s) (kst s').
Proof.
  assert (∀ t' n c r t κ, kinv hl ha (kst s) → callable hl ha (kst s) t' c → sct_restart t' = false →
    (∀ n, sct_restart (thr s n) = false) → syscall_run t' c (kst s) = Ret (r, t, κ) →
    sys_ok hl ha (sys_next s n c r t κ) ∧ attenuated (kst s) κ) as Hgen.
  { intros t' n c r t κ Hκ Hc Hf Hfs Hrun. pose proof (run_safe _ _ _ _ _ Hκ Hc Hf) as H.
    rewrite Hrun in H. destruct H as (E & Hk & Ha). split; [|done]. split; [done|].
    intros m. simpl. unfold upd_fn. by case_decide. }
  intros [n c r t κ _ Hc Hrun|n c r t κ _ Hc Hrun] [Hκ Hfs];
    (eapply Hgen; [done|by apply callable_flags, Hc| |done|exact Hrun]); [done|apply Hfs].
Qed.

Lemma sys_run_safe hl ha s s' :
  rtc (sys_step hl ha) s s' → sys_ok hl ha s → sys_ok hl ha s' ∧ attenuated (kst s) (kst s').
Proof.
  induction 1 as [s|s s1 s2 Hs _ IH]; [by split|]. intros Hok.
  destruct (sys_step_safe _ _ _ _ Hs Hok) as [Hok1 Ha1]. destruct (IH Hok1) as [Hok2 Ha2].
  split; [done|by etransitivity].
Qed.


(** ** A revocation, restarted until it is done *)

(** Re-entered until it answers; [fuel] is the number of re-entries allowed. *)
Fixpoint resume_until (fuel : nat) t c κ : res (sysval * sc_thread * kstate) :=
  '(r, t, κ) ← syscall_restart_trampoline t c κ;
  match r, fuel with
  | Some v, _ => Ret (v, t, κ)
  | None, S fuel => resume_until fuel t c κ
  | None, O => NoFuel
  end.

Definition call_alone (fuel : nat) t c κ : res (sysval * sc_thread * kstate) :=
  '(r, t, κ) ← syscall_dispatch t c κ;
  match r with
  | Some v => Ret (v, t, κ)
  | None => resume_until fuel t c κ
  end.

(** A teardown keeps or breaks a path, but never leads it elsewhere. *)
Lemma lookup_shrinks hl ha κ κ' depth : ∀ cur cptr g g' x,
  kinv hl ha κ' → kshrinks κ κ' → is_Some (objs κ' cur) →
  lookup_loop false depth cur cptr g 0 κ' = inr x → lookup_loop false depth cur cptr g' 0 κ = inr x.
Proof.
  induction depth as [|depth IH]; intros cur cptr g g' x Hκ Hs [k' Hk']; [done|]. cbn [lookup_loop].
  destruct (ks_objs _ _ Hs _ _ Hk') as (k & Hk & _ & Esc).
  assert (cn_slots κ' cur = cn_slots κ cur) as En by (unfold cn_slots; rewrite Hk', Hk; simpl; congruence).
  unfold slot_in_range, level_index. rewrite En. cbn [Z.eqb negb andb].
  destruct (negb _); [done|].
  destruct (object (mdb κ') (InNode cur _)) as [o|] eqn:Ho; [|done].
  rewrite (shrinks_object _ _ _ _ Hs Ho). destruct (_ =? 0); [done|].
  destruct (slot_object_live _ _ _ _ _ Hκ Ho) as (ko & Hko & _ & _).
  destruct (ks_objs _ _ Hs _ _ Hko) as (ko0 & Hko0 & Et & _).
  rewrite Hko, Hko0. cbn [fmap option_fmap option_map]. rewrite Et. case_bool_decide; [|done].
  apply IH; [done|done|by exists ko].
Qed.

Section revocation.
Context (hl ha : N → Z) (root : N) (p : Z).
Context (Hheld : 1 ≤ hl root ∧ 1 ≤ ha root) (Hp : cspace_only_cptr p = true).

Abbreviation slot_of κ := (cspace_lookup_slot (Some root) p κ).

Lemma slot_of_shrinks κ κ' x : kinv hl ha κ' → kshrinks κ κ' → slot_of κ' = inr x → slot_of κ = inr x.
Proof.
  intros Hκ Hs. unfold cspace_lookup_slot. destruct (_ =? _); [done|].
  eapply lookup_shrinks; [exact Hκ|done|]. destruct (kinv_live _ _ _ root Hκ) as [k Hk]; [lia|by exists k].
Qed.

(** One slice, through the dispatcher. *)
Record run_post (acc : Z) κ (r : option sysval) t κ' : Prop := RunPost {
  rn_inv  : kinv hl ha κ';
  rn_shr  : kshrinks κ κ';
  rn_thr  : cspace_root (sct_root t) = Some root ∧ sct_restart t = false;
  rn_res  : match slot_of κ with
            | inl e => r = Some (inl e) ∧ slot_of κ' = inl e
            | inr (cn, i) => ∃ n, 0 ≤ n ∧ sct_acc t = acc + n ∧
                Z.of_nat (occupied (mdb κ')) + n ≤ Z.of_nat (occupied (mdb κ)) ∧
                (kept_below hl ha κ (InNode cn i) → exact_revoke (InNode cn i) κ κ' n) ∧
                match r with
                | Some v => v = inr (acc + n) ∧ revoked_below κ (InNode cn i) κ'
                | None => n = IRIS_REVOKE_SLICE
                end
            end;
}.

Lemma run_slice t κ (acc := if sct_reentry t then sct_acc t else 0) :
  kinv hl ha κ → room hl ha κ → cspace_root (sct_root t) = Some root → sct_restart t = false →
  0 ≤ acc < 2 ^ 32 →
  returns (syscall_run t (CSPACE_REVOKE p) κ) (λ '(r, t', κ'), run_post acc κ r t' κ').
Proof.
  intros Hκ Hr Et Hf Hacc. unfold syscall_run. cbn [syscall_invoke]. apply returns_bind.
  eapply returns_mono; [apply (revoke_slice_spec hl ha κ t Hκ Hr); [rewrite Et; by left|done]|].
  intros [[r t'] κ'] [P1 P2 [P3 P3'] P4]. unfold revoke_slot in P4. rewrite Et, Hp in P4. cbn [negb] in P4.
  destruct (slot_of κ) as [e|[cn i]] eqn:El.
  { destruct P4 as (-> & -> & W). rewrite Hf. split; [done|done|done|]. rewrite El. split; [done|].
    by rewrite (shifted_lookup_slot _ _ _ _ W). }
  destruct P4 as (n & Hn & Hocc & Hex & Ha & Hres). fold acc in Ha.
  assert (sct_acc t' = acc + n) as Ha'.
  { rewrite Ha. apply u64_id. unfold IRIS_REVOKE_SLICE in Hn. lia. }
  rewrite Hf in Hres. destruct (sct_restart t') eqn:Ef; cbn [negb].
  - destruct Hres as [_ ->]. split; [done|done|by rewrite <-Et, <-P3|]. rewrite El.
    exists IRIS_REVOKE_SLICE. split_and!; [lia|done..].
  - destruct Hres as [-> Hb]. split; [done|done|by rewrite <-Et, <-P3|]. rewrite El.
    exists n. split_and!; [lia|done|done|done|by rewrite Ha'|done].
Qed.

(** What the whole call leaves. *)
Definition revoke_done_post (acc : Z) κ (v : sysval) κ' : Prop :=
  match v with
  | inr n => acc ≤ n ∧ Z.of_nat (occupied (mdb κ')) + (n - acc) ≤ Z.of_nat (occupied (mdb κ)) ∧
      ∃ cn i, slot_of κ = inr (cn, i) ∧ revoked_below κ (InNode cn i) κ' ∧
        (kept_below hl ha κ (InNode cn i) → exact_revoke (InNode cn i) κ κ' (n - acc))
  | inl e => slot_of κ' = inl e
  end.

Lemma revoked_below_before κ κ1 κ' cn i :
  kshrinks κ κ1 → kshrinks κ1 κ' → revoked_below κ1 (InNode cn i) κ' → revoked_below κ (InNode cn i) κ'.
Proof.
  intros Hs1 Hs' Hb Hr x Hd. destruct (object (mdb κ') x) as [o|] eqn:Ho; [exfalso|done].
  assert (object (mdb κ') x ≠ None) as Hne by (by rewrite Ho). apply Hne, Hb; [done|].
  apply (cs_desc _ _ (ks_cdt _ _ Hs1)); simpl.
  - by rewrite (shrinks_object _ _ _ _ Hs' Ho).
  - destruct (object (mdb κ') (InNode cn i)) as [y|] eqn:Hy; [|done]. by rewrite (shrinks_object _ _ _ _ Hs' Hy).
  - done.
Qed.

(** A slice that parked, then the rest. *)
Lemma revoke_done_step acc κ κ1 κ' cn i n v :
  slot_of κ = inr (cn, i) → kinv hl ha κ1 → kshrinks κ κ1 → kshrinks κ1 κ' → 0 ≤ n →
  Z.of_nat (occupied (mdb κ1)) + n ≤ Z.of_nat (occupied (mdb κ)) →
  (kept_below hl ha κ (InNode cn i) → exact_revoke (InNode cn i) κ κ1 n) →
  revoke_done_post (acc + n) κ1 v κ' → revoke_done_post acc κ v κ'.
Proof.
  intros El Hκ1 Hs1 Hs' Hn Hocc Hex. destruct v as [e|m]; [done|]. intros (H1 & H2 & cn' & i' & El1 & Hb & Hx).
  split; [lia|]. split; [lia|]. exists cn', i'. pose proof (slot_of_shrinks _ _ _ Hκ1 Hs1 El1) as El'.
  split; [done|]. split; [by eapply revoked_below_before|]. intros Hk. rewrite El in El'. injection El' as <- <-.
  specialize (Hex Hk). replace (m - acc) with (n + (m - (acc + n))) by lia.
  eapply exact_revoke_trans; [exact Hex|]. apply Hx. by eapply exact_kept.
Qed.

Lemma resume_until_spec fuel : ∀ t κ,
  kinv hl ha κ → room hl ha κ → cspace_root (sct_root t) = Some root → sct_restart t = false →
  0 ≤ sct_acc t → sct_acc t + Z.of_nat (occupied (mdb κ)) < 2 ^ 32 →
  Z.of_nat (occupied (mdb κ)) < IRIS_REVOKE_SLICE * (Z.of_nat fuel + 1) →
  returns (resume_until fuel t (CSPACE_REVOKE p) κ) (λ '(v, t', κ'),
    kinv hl ha κ' ∧ kshrinks κ κ' ∧ revoke_done_post (sct_acc t) κ v κ').
Proof.
  induction fuel as [|fuel IH]; intros t κ Hκ Hr Et Hf Ha Hb Hfuel; cbn [resume_until];
    unfold syscall_restart_trampoline; rewrite Hf; apply returns_bind;
    (eapply returns_mono; [apply (run_slice _ κ Hκ Hr); [done|done|cbn [sct_reentry sct_acc]; lia]|]);
    cbn [sct_reentry sct_acc]; intros [[r t1] κ1] [P1 P2 [P3 P4] P5];
    destruct (slot_of κ) as [e|[cn i]] eqn:El.
  1,3: destruct P5 as [-> E1]; by split_and!.
  all: destruct P5 as (n & Hn & Ea & Hocc & Hex & Hres).
  all: destruct r as [v|].
  1,3: destruct Hres as [-> Hrb]; split; [done|]; split; [done|]; unfold revoke_done_post; split; [lia|];
    split; [lia|]; exists cn, i; replace (sct_acc t + n - sct_acc t) with n by lia; by split.
  - subst n. unfold IRIS_REVOKE_SLICE in *. lia.
  - subst n. eapply returns_mono; [apply (IH t1 κ1 P1); [by eapply room_shrinks|done|done|lia|lia|]|].
    + unfold IRIS_REVOKE_SLICE in *. lia.
    + intros [[v t'] κ'] (Q1 & Q2 & Q3). split; [done|]. split; [by etransitivity|].
      rewrite Ea in Q3. exact (revoke_done_step _ κ κ1 κ' cn i _ v El P1 P2 Q2 Hn Hocc Hex Q3).
Qed.
End revocation.

(** C14: a preemptible revocation completes. Called by a thread whose root the
    kernel holds a lifecycle and an active reference on, with room in the counters,
    on a slot of the caller's CSpace, and re-entered whenever it parks, it answers
    after at most one re-entry per sixteen capabilities in the system. If it answers
    with a number, nothing that was derived from the slot when the call was made is
    left, if the slot itself survives; at least that many capabilities are gone; and
    when every object named below the slot is also referred to from elsewhere, so
    that nothing is destroyed with the capabilities, the number is exactly how many
    went and all of them were derived from the slot. It answers with an error when
    the path to the slot was itself destroyed on the way. *)
Theorem sys_cspace_revoke_completes hl ha root p t κ s :
  kinv hl ha κ → room hl ha κ → cspace_root (sct_root t) = Some root → 1 ≤ hl root ∧ 1 ≤ ha root →
  cspace_only_cptr p = true → cspace_lookup_slot (Some root) p κ = inr s →
  returns (call_alone (occupied (mdb κ) / 16) t (CSPACE_REVOKE p) κ) (λ '(v, _, κ'),
    kinv hl ha κ' ∧ cdt_shrinks (abs (mdb κ)) (abs (mdb κ')) ∧
    match v with
    | inr n => 0 ≤ n ∧ Z.of_nat (occupied (mdb κ')) + n ≤ Z.of_nat (occupied (mdb κ)) ∧
        (object (mdb κ') (InNode s.1 s.2) ≠ None →
         ∀ x, descends (abs (mdb κ)) x (InNode s.1 s.2) → object (mdb κ') x = None) ∧
        (kept_below hl ha κ (InNode s.1 s.2) →
         Z.of_nat (occupied (mdb κ')) + n = Z.of_nat (occupied (mdb κ)) ∧
         ∀ x, caps (abs (mdb κ')) x = caps (abs (mdb κ)) x ∨ descends (abs (mdb κ)) x (InNode s.1 s.2))
    | inl e => cspace_lookup_slot (Some root) p κ' = inl e
    end).
Proof.
  intros Hκ Hr Et Hh Hp El. destruct s as [cn i]. pose proof (Hr 0%N) as H0. pose proof (ki_hl _ _ _ Hκ 0%N).
  pose proof (Nat.div_mod_eq (occupied (mdb κ)) 16) as Hdiv.
  pose proof (Nat.mod_upper_bound (occupied (mdb κ)) 16 ltac:(lia)) as Hmod.
  unfold call_alone, syscall_dispatch. apply returns_bind.
  eapply returns_mono; [apply (run_slice hl ha root p Hh Hp _ κ Hκ Hr); [done|done|simpl; lia]|].
  cbn [sct_reentry]. intros [[r t1] κ1] [P1 P2 [P3 P4] P5]. rewrite El in P5.
  destruct P5 as (n & Hn & Ea & Hocc & Hex & Hres). destruct r as [v|].
  - destruct Hres as [-> Hb]. split; [done|]. split; [apply P2|]. split; [lia|]. split; [lia|]. split; [done|].
    intros Hk. destruct (Hex Hk) as [X1 _ X3]. by split.
  - subst n. eapply returns_mono; [apply (resume_until_spec hl ha root p Hh Hp _ t1 κ1 P1)|].
    + by eapply room_shrinks.
    + done.
    + done.
    + lia.
    + lia.
    + unfold IRIS_REVOKE_SLICE in *. lia.
    + intros [[v t'] κ'] (Q1 & Q2 & Q3). split; [done|]. split; [etransitivity; [apply P2|apply Q2]|].
      rewrite Ea in Q3.
      pose proof (revoke_done_step hl ha root p Hh 0 κ κ1 κ' cn i _ v El P1 P2 Q2 Hn Hocc Hex Q3) as Hd.
      destruct v as [e|m]; [exact Hd|]. destruct Hd as (D1 & D2 & cn' & i' & El' & Hb & Hx).
      rewrite El in El'. injection El' as <- <-. rewrite Z.sub_0_r in Hx. split; [lia|]. split; [lia|].
      split; [done|]. intros Hk. destruct (Hx Hk) as [X1 _ X3]. by split.
Qed.

(** ** Mint and move, as the caller sees them *)

(** C15: minting is exact.  The call returns what the checks decide on the state it
    finds, in their order (namespace, destination slot, source, destination CNode
    with its write right, then the derivation's own); a refusal changes neither a
    capability nor a reference count; a success adds exactly one capability, a
    child of the source slot, to the source's object, with no more rights than the
    source and the source's badge if it has one. *)
Theorem sys_cspace_mint_refines hl ha t arg0 arg1 arg2 κ :
  kinv hl ha κ → room hl ha κ → live_root κ hl ha (cspace_root (sct_root t)) →
  returns (sys_cspace_mint t arg0 arg1 arg2 κ) (λ '(r, κ'), kinv hl ha κ' ∧
    match mint_verdict κ t arg0 arg1 arg2 with
    | inl e => r = inl e ∧ shifted κ nil_refs nil_refs κ'
    | inr (src, dst, c) => r = inr 0 ∧ object (mdb κ) dst = None ∧
        cdt_eq (abs (mdb κ')) (cdt_install dst c (Some src) (abs (mdb κ))) ∧
        ∃ a : cap, caps (abs (mdb κ)) src = Some a ∧ cap_le c a
    end).
Proof.
  intros Hκ Hr Hroot. eapply returns_mono; [by apply (mint_spec hl ha)|].
  intros [r κ'] [[Hk _] H]. by split.
Qed.

(** C30: moving is exact, for a caller whose CSpace root is still referred to,
    counters with room and a move that does not carry a capability to a CNode into
    or out of that same CNode (where the code leaves the active count wrong:
    [kcnode_move_self_cap_panics]). As for a mint, the verdict is that of the checks
    and a refusal changes nothing; a success exchanges the two slots in the
    derivation tree: rights, badge, parent and children travel with the capability;
    and the reference counts are exact again. *)
Theorem sys_cspace_move_refines hl ha t arg0 arg1 κ :
  kinv hl ha κ → room hl ha κ → live_root κ hl ha (cspace_root (sct_root t)) →
  border_ok κ t (CSPACE_MOVE arg0 arg1) →
  returns (sys_cspace_move t arg0 arg1 κ) (λ '(r, κ'), kinv hl ha κ' ∧
    match move_verdict κ t arg0 arg1 with
    | inl e => r = inl e ∧ shifted κ nil_refs nil_refs κ'
    | inr (src, dst) => r = inr 0 ∧ cdt_eq (abs (mdb κ')) (cdt_move src dst (abs (mdb κ)))
    end).
Proof.
  intros Hκ Hr Hroot Hb. eapply returns_mono; [by apply (move_spec hl ha)|].
  intros [r κ'] [[Hk _] H]. by split.
Qed.

(** ** The theorems at a concrete state

    The thread whose root is CNode 1 of [cspace] holds a pair of references on it. *)

Definition live_cspace : kstate := activated 1 cspace.
Definition live_ha : N → Z := hold none_held 1 1.

Lemma live_cspace_kinv : kinv boot_hl live_ha live_cspace.
Proof. apply activated_kinv; [exact cspace_kinv|vm_compute; reflexivity]. Qed.

Lemma small_room κ : (occupied (mdb κ) ≤ 1000)%nat → room boot_hl live_ha κ.
Proof. intros H o. unfold boot_hl, live_ha, hold, none_held. repeat case_decide; lia. Qed.

Definition thread1 : sc_thread := ScThread (TaskRoot (Some 1%N) 0 0) false false 0.

Lemma live_root1 κ : live_root κ boot_hl live_ha (cspace_root (sct_root thread1)).
Proof. left. unfold boot_hl, live_ha, hold, none_held. simpl. lia. Qed.

(** Slot 4 of the caller's own root; slot 5. *)
Notation to_slot4 := 17179869184 (only parsing).
Notation to_slot5 := 21474836480 (only parsing).

Lemma sys_cspace_mint_refines_witness :
  returns (sys_cspace_mint thread1 1 to_slot4 5 live_cspace) (λ '(r, κ'),
    r = inr 0 ∧ caps (abs (mdb κ')) (InNode 1 4) = Some (7%N, 5, 42) ∧
    up (abs (mdb κ')) (InNode 1 4) = Some (InNode 1 1)).
Proof.
  eapply returns_mono; [apply (sys_cspace_mint_refines boot_hl live_ha thread1);
    [exact live_cspace_kinv|apply small_room; vm_compute; lia|apply live_root1]|].
  intros [r κ'] [_ H].
  assert (E : mint_verdict live_cspace thread1 1 to_slot4 5 = inr (InNode 1 1, InNode 1 4, (7%N, 5, 42)))
    by (vm_compute; reflexivity).
  rewrite E in H. destruct H as (-> & _ & [Hc Hu] & _). split; [reflexivity|].
  split; [rewrite Hc|rewrite Hu]; cbn [cdt_install caps up]; unfold upd_fn; by rewrite decide_True.
Defined.

Lemma sys_cspace_move_refines_witness :
  returns (sys_cspace_move thread1 1 to_slot5 live_cspace) (λ '(r, κ'),
    r = inr 0 ∧ up (abs (mdb κ')) (InNode 1 2) = Some (InNode 1 5)).
Proof.
  eapply returns_mono; [apply (sys_cspace_move_refines boot_hl live_ha thread1);
    [exact live_cspace_kinv|apply small_room; vm_compute; lia|apply live_root1|]|].
  - intros src dst o E. vm_compute in E. injection E as <- <-. intros _. done.
  - intros [r κ'] [_ H].
    assert (E : move_verdict live_cspace thread1 1 to_slot5 = inr (InNode 1 1, InNode 1 5))
      by (vm_compute; reflexivity).
    rewrite E in H. destruct H as (-> & [_ Hu]). split; [reflexivity|]. rewrite Hu. vm_compute. reflexivity.
Defined.

Lemma sys_cspace_revoke_completes_witness :
  descends (abs (mdb live_cspace)) (InNode 1 2) (InNode 1 1) ∧
  returns (call_alone (occupied (mdb live_cspace) / 16) thread1 (CSPACE_REVOKE 1) live_cspace) (λ '(v, _, κ'),
    kinv boot_hl live_ha κ').
Proof.
  split; [apply tc_once; vm_compute; reflexivity|].
  eapply returns_mono; [apply (sys_cspace_revoke_completes boot_hl live_ha 1 1 thread1 live_cspace (1%N, 1%N));
    [exact live_cspace_kinv|apply small_room; vm_compute; lia|reflexivity|vm_compute; split; discriminate
    |reflexivity|vm_compute; reflexivity]|].
  intros [[v t] κ'] [H _]. exact H.
Defined.

(** *** A history of two threads' calls: a mint, then a revocation above it *)

Definition result_of (m : res (option sysval * sc_thread * kstate)) : option sysval * sc_thread * kstate :=
  match m with Ret a => a | Panic | NoFuel => (None, thread1, kernel0) end.
Definition is_ret {A} (m : res A) : bool := match m with Ret _ => true | _ => false end.

Lemma is_ret_result m : is_ret m = true → m = Ret ((result_of m).1.1, (result_of m).1.2, (result_of m).2).
Proof. by destruct m as [[[? ?] ?]| |]. Qed.

Definition sys0 : sys := Sys live_cspace (λ _, thread1) (λ _, None).
Definition sys_do (n : N) c (s : sys) : sys :=
  let m := result_of (syscall_dispatch (thr s n) c (kst s)) in sys_next s n c m.1.1 m.1.2 m.2.

Lemma sys_do_step n c s :
  parked s n = None → callable boot_hl live_ha (kst s) (thr s n) c →
  is_ret (syscall_dispatch (thr s n) c (kst s)) = true → sys_step boot_hl live_ha s (sys_do n c s).
Proof. intros Hp Hc Hr. eapply step_call; [exact Hp|exact Hc|by apply is_ret_result]. Qed.

Notation sys1 := (sys_do 3 (CSPACE_MINT 1 to_slot4 5) sys0).
Notation sys2 := (sys_do 8 (CSPACE_REVOKE 1) sys1).

Lemma sys_history : rtc (sys_step boot_hl live_ha) sys0 sys2.
Proof.
  eapply rtc_l; [apply sys_do_step|eapply rtc_l; [apply sys_do_step|apply rtc_refl]].
  1,4: reflexivity.
  2,4: vm_compute; reflexivity.
  - split; [apply live_root1|apply small_room; vm_compute; lia|exact I].
  - split; [apply live_root1|apply small_room; vm_compute; lia|exact I].
Qed.

Lemma sys0_ok : sys_ok boot_hl live_ha sys0.
Proof. split; [exact live_cspace_kinv|done]. Qed.


(** ** Where the code falls short

    A thread reaches its CSpace through [t->cspace_root], a pointer; what keeps the
    CNode alive is the capability in the thread's own slot (TCB_CAP_CSPACE, slot 4
    of its seven), which [kcnode_slot_install_for_thread] derives from the slot
    its creator named.  Below, CNode 1 is the supervisor's root, with a capability
    to CNode 2 in slot 1; CNode 3 is the thread's slots. *)

Definition tcb_cspace : kstate :=
  activated 1 (run id (release 2 (put 3 4 2 RW 0 (Some 1%N) (put 2 1 7 RW 0 None (put 1 1 2 RW 0 None
    (with_mdb (add_slots 3 7 (mdb two_cnodes)) (kobject_init 3 KOBJ_CNODE 7 two_cnodes))))))).

Definition tcb_hl : N → Z := hold boot_hl 3 1.

Lemma tcb_cspace_kinv : kinv tcb_hl live_ha tcb_cspace.
Proof.
  pose proof (kinv_new _ _ two_cnodes 3 KOBJ_CNODE 7 two_cnodes_kinv eq_refl eq_refl I ltac:(done)) as H0.
  apply (put_kinv _ _ 1 1 2 RW 0 None) in H0; [|vm_compute; reflexivity].
  apply (put_kinv _ _ 2 1 7 RW 0 None) in H0; [|vm_compute; reflexivity].
  apply (put_kinv _ _ 3 4 2 RW 0 (Some 1%N)) in H0; [|vm_compute; reflexivity].
  pose proof (release_spec tcb_hl none_held (λ _, False) _ _ (kinv_ext _ _ _ _ _ (hold_comm boot_hl 3 2 1 1) (λ _, eq_refl) H0)) as Hr.
  assert (0 ≤ tcb_hl 2) as Hp by (vm_compute; discriminate). specialize (Hr Hp).
  apply returns_Ret in Hr as (κ' & Hr & [Hκ _ _]).
  apply activated_kinv; [rewrite Hr; exact Hκ|vm_compute; reflexivity].
Qed.

Definition supervisor : sc_thread := thread1.
Definition child : sc_thread := ScThread (TaskRoot (Some 2%N) 0 0) false false 0.

Definition after (m : res (sysval * kstate)) : kstate := run snd m.
Definition after_revoke (m : res (sysval * sc_thread * kstate)) : kstate := run snd m.

(** The supervisor revokes its capability to the CSpace and deletes it, both calls
    succeed, and the thread's next call retains a CNode that is gone: the revocation
    emptied the thread's slot and nothing cleared the pointer. *)
Theorem revoked_root_dangles :
  kinv tcb_hl live_ha tcb_cspace ∧
  ('(r, _) ← sys_cap_identify child 1 tcb_cspace; Ret r) = Ret (inr 8) ∧
  let revoked := sys_cspace_revoke supervisor 1 tcb_cspace in
  let deleted := sys_cnode_delete supervisor 0 1 (after_revoke revoked) in
  ('(r, _, _) ← revoked; Ret r) = Ret (inr 1) ∧
  object (mdb (after_revoke revoked)) (InNode 3 4) = None ∧
  ('(r, _) ← deleted; Ret r) = Ret (inr 0) ∧ objs (after deleted) 2 = None ∧
  sys_cap_identify child 1 (after deleted) = Panic.
Proof. split; [exact tcb_cspace_kinv|]. vm_compute. split_and!; reflexivity. Qed.
