(* ===== verification/Asidpool.v ===== *)
(** * Address-space identifiers (kernel/new_core/src/kasidpool.c; kvspace.c, the
      identifier of a space; syscall_vm.c, [sys_asid_pool_assign])

    An address space runs under a hardware tag.  The tags are carved forward, once,
    into pools of 128; a pool hands out one of its tags to a space and takes it back
    when the space ends.  The first part has the functions; the second the machine
    in which they run: the two halves of a carve and the two halves of giving a tag
    back are separate steps, because other processors may come between them.

    [AsidSpec] proves that no history of that machine gives one tag to two spaces,
    and that the system call is a run of it. *)

From Stdlib Require Import ZArith Lia.
From stdpp Require Import base numbers gmap list.
From S2P Require Import Prelude Rights Kobject Kcnode Cspace SysCspace.
Local Open Scope Z_scope.

Definition KASID_BOOTSTRAP : Z := 1.
Definition KASID_FIRST : Z := 2.
Definition KASID_LAST : Z := 4094.
Definition KASID_POOL_SIZE : Z := 128.
Definition KASID_POOL_WORDS : nat := 2.

(** ** Pools *)

Record KAsidPool := AsidPool {
  first : Z;          (* uint16_t *)
  count : Z;          (* uint16_t *)
  used  : list Z;     (* uint64_t[KASID_POOL_WORDS] *)
}.
Implicit Types P : KAsidPool.

(** [used[i / 64] & (1ULL << (i % 64))] *)
Definition used_bit P (i : Z) : bool :=
  negb (Z.land (default 0 (used P !! Z.to_nat (i / 64))) (Z.shiftl 1 (i mod 64)) =? 0).

Definition set_word (f : Z → Z) (i : Z) P : KAsidPool :=
  AsidPool (first P) (count P) (alter f (Z.to_nat (i / 64)) (used P)).

(** The two halves of [kasidpool_carve_range]: [atomic_fetch_add] with the check of
    what it returned, and the [atomic_fetch_sub] of a call that went too far. *)
Definition carve_take (kasid_next : Z) : option (Z * Z) * Z :=
  let first := kasid_next in
  let kasid_next := u32 (kasid_next + KASID_POOL_SIZE) in
  if KASID_LAST <? u32 (first + KASID_POOL_SIZE - 1) then (None, kasid_next)
  else (Some (u16 first, u16 KASID_POOL_SIZE), kasid_next).

Definition carve_rewind (kasid_next : Z) : Z := u32 (kasid_next - KASID_POOL_SIZE).

Definition kasidpool_carve_range (kasid_next : Z) : (iris_error_t + Z * Z) * Z :=
  match carve_take kasid_next with
  | (None, next) => (inl IRIS_ERR_NO_MEMORY, carve_rewind next)
  | (Some r, next) => (inr r, next)
  end.

Definition kasidpool_alloc_at (first count : Z) : option KAsidPool :=
  if count =? 0 then None else Some (AsidPool first count (replicate KASID_POOL_WORDS 0)).

(** [n] iterations are left, the next of them at [i]. *)
Fixpoint take_loop (n : nat) (i : Z) P : Z * KAsidPool :=
  match n with
  | O => (0, P)
  | S n =>
      if used_bit P i then take_loop n (i + 1) P
      else
        let P := set_word (λ w, Z.lor w (Z.shiftl 1 (i mod 64))) i P in
        let id := u16 (first P + i) in
        if id =? 0 then take_loop n (i + 1) P else (id, P)
  end.

Definition kasidpool_take P : Z * KAsidPool := take_loop (Z.to_nat (count P)) 0 P.

Definition kasidpool_put P (id : Z) : KAsidPool :=
  if (id =? 0) || (id <? first P) || (first P + count P <=? id) then P
  else
    let i := id - first P in
    set_word (λ w, Z.land w (Z.lxor (2 ^ 64 - 1) (Z.shiftl 1 (i mod 64)))) i P.

(** ** Address spaces: the fields that name one *)

Record space := Space {
  cr3       : Z;
  pcid      : Z;             (* uint16_t *)
  asid_pool : option N;
  user_cr3  : Z;
}.
Implicit Types s : space.

Record asids := Asids {
  pcid_enabled : bool;       (* iris_pcid_enabled *)
  kasid_next   : Z;          (* uint32_t *)
  pools        : gmap N KAsidPool;
  spaces       : gmap N space;
}.
Implicit Types σ : asids.

Definition set_next (n : Z) σ : asids := Asids (pcid_enabled σ) n (pools σ) (spaces σ).
Definition set_pools (f : gmap N KAsidPool) σ : asids := Asids (pcid_enabled σ) (kasid_next σ) f (spaces σ).
Definition set_spaces (f : gmap N space) σ : asids := Asids (pcid_enabled σ) (kasid_next σ) (pools σ) f.

Definition get_pool (p : N) σ : res KAsidPool := of_assert (pools σ !! p).
Definition get_space (v : N) σ : res space := of_assert (spaces σ !! v).

Definition paging_make_user_cr3 (pcid_enabled : bool) (cr3 pcid : Z) : Z :=
  if pcid_enabled then Z.lor (Z.lor (Z.land cr3 (2 ^ 64 - 2 ^ 12)) pcid) (Z.shiftl 1 63) else cr3.

Definition kvspace_tag_bootstrap (on : bool) s : space :=
  Space (cr3 s) KASID_BOOTSTRAP (asid_pool s) (paging_make_user_cr3 on (cr3 s) KASID_BOOTSTRAP).

(** The block arrives zeroed: no pool. *)
Definition kvspace_tag (on : bool) (cr3 : Z) : space :=
  Space cr3 0 None (paging_make_user_cr3 on cr3 0).

Definition kvspace_has_asid s : bool := negb (pcid s =? 0).

Definition kvspace_assign_asid (vs pool : option N) σ : res (iris_error_t * asids) :=
  match vs, pool with
  | Some v, Some p =>
      s ← get_space v σ;
      if cr3 s =? 0 then Ret (IRIS_ERR_BAD_HANDLE, σ)
      else if negb (pcid s =? 0) then Ret (IRIS_ERR_ALREADY_EXISTS, σ)
      else
        P ← get_pool p σ;
        let '(id, P) := kasidpool_take P in
        let σ := set_pools (<[p := P]> (pools σ)) σ in
        if id =? 0 then Ret (IRIS_ERR_NO_MEMORY, σ)
        else
          let s := Space (cr3 s) id (Some p) (paging_make_user_cr3 (pcid_enabled σ) (cr3 s) id) in
          Ret (IRIS_OK, set_spaces (<[v := s]> (spaces σ)) σ)
  | _, _ => Ret (IRIS_ERR_INVALID_ARG, σ)
  end.

(** The two halves of [kvspace_unassign_asid]: what is done under the lock of the
    space, and the identifier going back. *)
Definition unassign_clear (v : N) σ : res (option N * Z * asids) :=
  s ← get_space v σ;
  Ret (asid_pool s, pcid s, set_spaces (<[v := Space (cr3 s) 0 None 0]> (spaces σ)) σ).

Definition put_back (issuer : option N) (id : Z) σ : res asids :=
  match issuer with
  | None => Ret σ
  | Some p => if id =? 0 then Ret σ else
      P ← get_pool p σ; Ret (set_pools (<[p := kasidpool_put P id]> (pools σ)) σ)
  end.

Definition kvspace_unassign_asid (vs : option N) σ : res asids :=
  match vs with
  | None => Ret σ
  | Some v => '(issuer, id, σ) ← unassign_clear v σ; put_back issuer id σ
  end.

(** What [kvspace_settle] does with the identifier of a space that ends; the space's
    capability to the pool goes after it ([kvspace_settle_asid] below). *)
Definition settle_asid (v : N) σ : res asids :=
  s ← get_space v σ;
  σ ← (match asid_pool s with
       | None => Ret σ
       | Some p => P ← get_pool p σ; Ret (set_pools (<[p := kasidpool_put P (pcid s)]> (pools σ)) σ)
       end);
  Ret (set_spaces (<[v := Space (cr3 s) 0 None 0]> (spaces σ)) σ).

(** ** With the capability layer

    [caps_hdr v] is the CNode of the space's own slots. *)

Definition VSPACE_CAP_ASID_POOL : N := 1.

Definition kvspace_settle_asid (caps_hdr : N → N) (v : N) (κ : kstate) σ : res (kstate * asids) :=
  s ← get_space v σ;
  '(κ, σ) ← (match asid_pool s with
    | None => Ret (κ, σ)
    | Some p =>
        P ← get_pool p σ;
        let σ := set_pools (<[p := kasidpool_put P (pcid s)]> (pools σ)) σ in
        '(_, κ) ← kcnode_slot_delete (Some (caps_hdr v)) VSPACE_CAP_ASID_POOL κ;
        Ret (κ, σ)
    end);
  Ret (κ, set_spaces (<[v := Space (cr3 s) 0 None 0]> (spaces σ)) σ).

Definition sys_asid_pool_assign (caps_hdr : N → N) (t : sc_thread) (arg0 arg1 : Z) (κ : kstate) σ
    : res (sysval * kstate * asids) :=
  let root := cspace_root (sct_root t) in
  match root with
  | None => Ret (inl IRIS_ERR_INVALID_ARG, κ, σ)
  | Some _ =>
    '(a, κ) ← cspace_resolve_only_obj KOBJ_ASID_POOL (Some (sct_root t)) root arg0 RIGHT_WRITE κ;
    match a with
    | inl e => Ret (inl e, κ, σ)
    | inr (pool_obj, _, _) =>
      '(b, κ) ← cspace_resolve_only_vspace (Some (sct_root t)) root arg1 RIGHT_WRITE κ;
      match b with
      | inl e => κ ← release pool_obj κ; Ret (inl e, κ, σ)
      | inr (vs, _, _) =>
        '(c, κ) ← cspace_resolve_slot root arg0 κ;
        match c with
        | inl e => κ ← put_refs vs κ; κ ← release pool_obj κ; Ret (inl e, κ, σ)
        | inr (p_cn, p_idx) =>
          '(e, σ) ← kvspace_assign_asid (Some vs) (Some pool_obj) σ;
          '(e, κ, σ) ← (if bool_decide (e = IRIS_OK) then
              '(e, κ) ← kcnode_slot_install_for_thread (Some p_cn) p_idx (Some (caps_hdr vs))
                          VSPACE_CAP_ASID_POOL κ;
              if bool_decide (e = IRIS_OK) then Ret (e, κ, σ)
              else σ ← kvspace_unassign_asid (Some vs) σ; Ret (e, κ, σ)
            else Ret (e, κ, σ));
          κ ← put_refs p_cn κ;
          κ ← put_refs vs κ;
          κ ← release pool_obj κ;
          Ret (sys_result e, κ, σ)
        end
      end
    end
  end.
