(* ===== verification/AsidInv.v ===== *)
(** * Address-space identifiers: pools as sets of identifiers

    The bitmap of a pool read as the set of identifiers it has handed out, the
    machine in which the functions of [Asidpool] run, and its invariant. *)

From Stdlib Require Import ZArith Lia.
From stdpp Require Import base numbers gmap list.
From S2P Require Import Prelude Rights Kobject Kcnode Cspace SysCspace Asidpool.
Local Open Scope Z_scope.
Implicit Types (P : KAsidPool) (s : space) (σ : asids) (v p h : N).

(** ** Bits of the map *)

Lemma land_bit w k : 0 ≤ k → negb (Z.land w (Z.shiftl 1 k) =? 0) = Z.testbit w k.
Proof.
  intros Hk. rewrite Z.shiftl_1_l. destruct (Z.testbit w k) eqn:E.
  - apply negb_true_iff, Z.eqb_neq. intros H0. apply (f_equal (λ x, Z.testbit x k)) in H0.
    rewrite Z.land_spec, E, Z.pow2_bits_true, Z.bits_0 in H0 by done. done.
  - apply negb_false_iff, Z.eqb_eq, Z.bits_inj'. intros n Hn. rewrite Z.land_spec, Z.bits_0.
    destruct (decide (n = k)) as [->|]; [by rewrite E|]. by rewrite Z.pow2_bits_false, andb_false_r.
Qed.

Lemma used_bit_spec P i : 
  used_bit P i = Z.testbit (default 0 (used P !! Z.to_nat (i / 64))) (i mod 64).
Proof. apply land_bit. apply Z.mod_pos_bound. lia. Qed.

(** One word changed in the bit [i mod 64] only. *)
Lemma used_bit_set_word f i (b : bool) P j :
  0 ≤ i → (Z.to_nat (i / 64) < length (used P))%nat → 0 ≤ j →
  (∀ w n, 0 ≤ n < 64 → Z.testbit (f w) n = if decide (n = i mod 64) then b else Z.testbit w n) →
  used_bit (set_word f i P) j = if decide (j = i) then b else used_bit P j.
Proof.
  intros Hi Hlen Hj Hf. rewrite !used_bit_spec. cbn [set_word used].
  pose proof (Z.mod_pos_bound j 64 ltac:(lia)). pose proof (Z.div_mod i 64). pose proof (Z.div_mod j 64).
  assert (0 ≤ i / 64) by (apply Z.div_pos; lia). assert (0 ≤ j / 64) by (apply Z.div_pos; lia).
  destruct (decide (Z.to_nat (j / 64) = Z.to_nat (i / 64))) as [E|E].
  - rewrite E, list_lookup_alter_eq. destruct (lookup_lt_is_Some_2 _ _ Hlen) as [w ->].
    simpl. rewrite Hf by done. destruct (decide (j mod 64 = i mod 64)), (decide (j = i)); try done; lia.
  - rewrite list_lookup_alter_ne by done. rewrite decide_False; [done|]. intros ->. done.
Qed.

Definition mark (i : Z) P := set_word (λ w, Z.lor w (Z.shiftl 1 (i mod 64))) i P.
Definition unmark (i : Z) P :=
  set_word (λ w, Z.land w (Z.lxor (2 ^ 64 - 1) (Z.shiftl 1 (i mod 64)))) i P.

(** A pool as [kasidpool_carve_range] and [kasidpool_alloc_at] make it. *)
Record pool_ok P : Prop := PoolOk {
  po_words : length (used P) = KASID_POOL_WORDS;
  po_count : count P = KASID_POOL_SIZE;
  po_first : KASID_FIRST ≤ first P;
  po_last  : first P + KASID_POOL_SIZE - 1 ≤ KASID_LAST;
}.

Section bits.
Context P (HP : pool_ok P) (i : Z) (Hi : 0 ≤ i < KASID_POOL_SIZE).

Lemma pool_index : (Z.to_nat (i / 64) < length (used P))%nat.
Proof.
  rewrite (po_words _ HP). unfold KASID_POOL_WORDS, KASID_POOL_SIZE in *.
  assert (i / 64 < 2) by (apply Z.div_lt_upper_bound; lia). lia.
Qed.

Lemma mark_bit j : 0 ≤ j → used_bit (mark i P) j = if decide (j = i) then true else used_bit P j.
Proof.
  intros Hj. apply used_bit_set_word; [lia|apply pool_index|done|]. intros w n Hn.
  pose proof (Z.mod_pos_bound i 64 ltac:(lia)). rewrite Z.lor_spec, Z.shiftl_1_l.
  case_decide as E; [subst n; by rewrite Z.pow2_bits_true, orb_true_r by lia|].
  by rewrite Z.pow2_bits_false, orb_false_r.
Qed.

Lemma unmark_bit j : 0 ≤ j → used_bit (unmark i P) j = if decide (j = i) then false else used_bit P j.
Proof.
  intros Hj. apply used_bit_set_word; [lia|apply pool_index|done|]. intros w n Hn.
  pose proof (Z.mod_pos_bound i 64 ltac:(lia)). rewrite Z.land_spec, Z.lxor_spec, Z.shiftl_1_l.
  change (2 ^ 64 - 1) with (Z.ones 64). rewrite Z.ones_spec_low by lia.
  case_decide as E; [subst n; by rewrite Z.pow2_bits_true, andb_false_r by lia|].
  by rewrite Z.pow2_bits_false, andb_true_r.
Qed.

Lemma set_word_ok f : pool_ok (set_word f i P).
Proof. destruct HP. split; cbn [set_word used count first]; [by rewrite length_alter|done..]. Qed.
End bits.

(** ** Taking and giving back *)

Lemma take_loop_spec P n i :
  pool_ok P → 0 ≤ i → i + Z.of_nat n = KASID_POOL_SIZE →
  (∃ j, i ≤ j < KASID_POOL_SIZE ∧ used_bit P j = false ∧ take_loop n i P = (first P + j, mark j P))
  ∨ (∀ j, i ≤ j < KASID_POOL_SIZE → used_bit P j = true) ∧ take_loop n i P = (0, P).
Proof.
  intros HP. revert i. induction n as [|n IH]; intros i Hi Hn; cbn [take_loop].
  { right. split; [intros; lia|done]. }
  destruct (used_bit P i) eqn:Hb.
  - destruct (IH (i + 1)) as [(j & Hj & Hf & ->)|[Hall ->]]; [lia..| |].
    + left. exists j. split_and!; [lia..|done|done].
    + right. split; [|done]. intros j Hj. destruct (decide (j = i)) as [->|]; [done|apply Hall; lia].
  - left. exists i. fold (mark i P). cbn [mark set_word first]. destruct HP as [_ _ HP1 HP2].
    unfold KASID_FIRST, KASID_LAST, KASID_POOL_SIZE in *.
    rewrite (wrap_id 16) by (unfold in_width; lia). rewrite (proj2 (Z.eqb_neq _ _)) by lia.
    split_and!; [lia..|done|done].
Qed.

Lemma take_spec P :
  pool_ok P →
  (∃ i, 0 ≤ i < KASID_POOL_SIZE ∧ used_bit P i = false ∧ kasidpool_take P = (first P + i, mark i P))
  ∨ (∀ i, 0 ≤ i < KASID_POOL_SIZE → used_bit P i = true) ∧ kasidpool_take P = (0, P).
Proof.
  intros HP. unfold kasidpool_take. rewrite (po_count _ HP). by apply take_loop_spec.
Qed.

Lemma put_spec P i :
  pool_ok P → 0 ≤ i < KASID_POOL_SIZE → kasidpool_put P (first P + i) = unmark i P.
Proof.
  intros [_ Hc H1 _] Hi. unfold kasidpool_put. rewrite Hc. unfold KASID_FIRST in *.
  rewrite (proj2 (Z.eqb_neq _ _)), (proj2 (Z.ltb_ge _ _)), (proj2 (Z.leb_gt _ _)) by lia. cbn [orb].
  unfold unmark. by replace (first P + i - first P) with i by lia.
Qed.

(** [kasidpool_put] undoes [kasidpool_take]: the bits are as they were. *)
Lemma put_take P id P' :
  pool_ok P → kasidpool_take P = (id, P') → id ≠ 0 →
  pool_ok (kasidpool_put P' id) ∧ ∀ j, 0 ≤ j → used_bit (kasidpool_put P' id) j = used_bit P j.
Proof.
  intros HP Ht Hid. destruct (take_spec P HP) as [(i & Hi & Hf & E)|[_ E]]; rewrite Ht in E; injection E as -> ->; [|done].
  assert (pool_ok (mark i P)) as HP' by (by apply set_word_ok).
  change (first P) with (first (mark i P)) in *. rewrite put_spec by done. split; [by apply set_word_ok|].
  intros j Hj. rewrite unmark_bit, mark_bit by done. case_decide; [by subst j|done].
Qed.

(** ** The tag in CR3 *)

(** The low twelve bits of what the processor is given are the identifier, the rest
    is the root table with its no-flush bit. *)
Lemma user_cr3_tag c id : 0 ≤ id < 2 ^ 12 → Z.land (paging_make_user_cr3 true c id) (2 ^ 12 - 1) = id.
Proof.
  intros Hid. apply Z.bits_inj'. intros n Hn. unfold paging_make_user_cr3.
  change (2 ^ 12 - 1) with (Z.ones 12). rewrite Z.land_spec, !Z.lor_spec, Z.land_spec, high_mask, Z.ldiff_spec by lia.
  rewrite Z.shiftl_1_l. destruct (Z.lt_ge_cases n 12).
  - rewrite (Z.ones_spec_low 12 n), (Z.pow2_bits_false 63 n) by lia.
    by rewrite !andb_false_r, andb_true_r, orb_false_r.
  - rewrite (Z.ones_spec_high 12 n), andb_false_r by lia. symmetry.
    destruct (decide (id = 0)) as [->|]; [apply Z.bits_0|]. apply Z.bits_above_log2; [lia|].
    assert (Z.log2 id < 12) by (apply Z.log2_lt_pow2; lia). lia.
Qed.

(** ** Who holds which identifier

    An identifier that is out of its pool is held by a space, or by a call that is
    about to give it back. *)

Abbreviation owner := (N + N)%type.
Implicit Types (o : owner) (H : owner → option (N * Z)) (pl : gmap N KAsidPool).

Record held_ok pl H : Prop := HeldOk {
  ho_pool  : ∀ p P, pl !! p = Some P → pool_ok P;
  ho_held  : ∀ o p id, H o = Some (p, id) → ∃ P i, pl !! p = Some P ∧ 0 ≤ i < KASID_POOL_SIZE ∧
                id = first P + i ∧ used_bit P i = true;
  ho_uniq  : ∀ o1 o2 x, H o1 = Some x → H o2 = Some x → o1 = o2;
  ho_exact : ∀ p P i, pl !! p = Some P → 0 ≤ i < KASID_POOL_SIZE → used_bit P i = true →
                ∃ o, H o = Some (p, first P + i);
}.

Lemma held_ok_ext pl H H' : (∀ o, H' o = H o) → held_ok pl H → held_ok pl H'.
Proof.
  intros E [H1 H2 H3 H4]. split; [done|..].
  - intros o p id. rewrite E. apply H2.
  - intros o1 o2 x. rewrite !E. apply H3.
  - intros p P i Hp Hi Hb. destruct (H4 p P i Hp Hi Hb) as [o Ho]. exists o. by rewrite E.
Qed.

Lemma held_ok_mark pl H p P i o :
  held_ok pl H → pl !! p = Some P → 0 ≤ i < KASID_POOL_SIZE → used_bit P i = false → H o = None →
  held_ok (<[p := mark i P]> pl) (upd_fn H o (Some (p, first P + i))).
Proof.
  intros [H1 H2 H3 H4] Hp Hi Hb Ho. pose proof (H1 p P Hp) as HP.
  assert (∀ o', H o' ≠ Some (p, first P + i)) as Hfree.
  { intros o' Ho'. destruct (H2 _ _ _ Ho') as (P' & i' & Hp' & _ & E & Hb').
    simplify_eq. replace i' with i in Hb' by lia. congruence. }
  split.
  - intros q Q. destruct (decide (q = p)) as [->|]; simplify_map_eq; [intros [= <-]; by apply set_word_ok|by apply H1].
  - intros o' q id. unfold upd_fn. case_decide as E.
    + intros [= <- <-]. exists (mark i P), i. rewrite lookup_insert_eq. split_and!; [done|lia..|done|].
      rewrite mark_bit by (done || lia). by rewrite decide_True.
    + intros Hq. destruct (H2 _ _ _ Hq) as (Q & j & HQ & Hj & -> & Hbj).
      destruct (decide (q = p)) as [->|Hne]; [|exists Q, j; by simplify_map_eq].
      simplify_eq. exists (mark i P), j. rewrite lookup_insert_eq. split_and!; [done|lia..|done|].
      rewrite mark_bit by (done || lia). by case_decide.
  - intros o1 o2 x. unfold upd_fn. repeat case_decide; simplify_eq; [done|..].
    + intros [= <-] E. by destruct (Hfree o2).
    + intros E [= <-]. by destruct (Hfree o1).
    + by apply H3.
  - intros q Q j. destruct (decide (q = p)) as [->|Hne].
    + rewrite lookup_insert_eq. intros [= <-] Hj. rewrite mark_bit by (done || lia). unfold upd_fn.
      case_decide as E; [subst j; exists o; by rewrite decide_True|]. intros Hbj.
      destruct (H4 _ _ _ Hp Hj Hbj) as [o' Ho']. exists o'. rewrite decide_False; [done|congruence].
    + rewrite lookup_insert_ne by done. intros HQ Hj Hbj. destruct (H4 _ _ _ HQ Hj Hbj) as [o' Ho'].
      exists o'. unfold upd_fn. rewrite decide_False; [done|congruence].
Qed.

Lemma held_ok_unmark pl H p P i o :
  held_ok pl H → pl !! p = Some P → 0 ≤ i < KASID_POOL_SIZE → H o = Some (p, first P + i) →
  held_ok (<[p := unmark i P]> pl) (upd_fn H o None).
Proof.
  intros [H1 H2 H3 H4] Hp Hi Ho. pose proof (H1 p P Hp) as HP. split.
  - intros q Q. destruct (decide (q = p)) as [->|]; simplify_map_eq; [intros [= <-]; by apply set_word_ok|by apply H1].
  - intros o' q id. unfold upd_fn. case_decide as E; [done|].
    intros Hq. destruct (H2 _ _ _ Hq) as (Q & j & HQ & Hj & -> & Hbj).
    destruct (decide (q = p)) as [->|Hne]; [|exists Q, j; by simplify_map_eq].
    simplify_eq. exists (unmark i P), j. rewrite lookup_insert_eq. split_and!; [done|lia..|done|].
    rewrite unmark_bit by (done || lia). rewrite decide_False; [done|]. intros ->. by apply E, (H3 _ _ _ Hq).
  - intros o1 o2 x. unfold upd_fn. repeat case_decide; [done..|by apply H3].
  - intros q Q j. destruct (decide (q = p)) as [->|Hne].
    + rewrite lookup_insert_eq. intros [= <-] Hj. rewrite unmark_bit by (done || lia). unfold upd_fn.
      case_decide as E; [done|]. intros Hbj. destruct (H4 _ _ _ Hp Hj Hbj) as [o' Ho'].
      exists o'. rewrite decide_False; [done|]. intros ->. rewrite Ho in Ho'. injection Ho' as ?. lia.
    + rewrite lookup_insert_ne by done. intros HQ Hj Hbj. destruct (H4 _ _ _ HQ Hj Hbj) as [o' Ho'].
      exists o'. unfold upd_fn. rewrite decide_False; [done|congruence].
Qed.

(** An identifier changes hands. *)
Lemma held_ok_pass pl H o o' :
  held_ok pl H → H o' = None → held_ok pl (upd_fn (upd_fn H o None) o' (H o)).
Proof.
  intros [H1 H2 H3 H4] Ho'. split; [done|..].
  - intros o1 p id. unfold upd_fn. repeat case_decide; [apply H2|done|apply H2].
  - intros o1 o2 x. unfold upd_fn. repeat case_decide; subst; try done; try apply H3.
    + intros E1 E2. by destruct (H3 _ _ _ E1 E2).
    + intros E1 E2. by destruct (H3 _ _ _ E2 E1).
  - intros p P i Hp Hi Hb. destruct (H4 _ _ _ Hp Hi Hb) as [o1 E]. unfold upd_fn.
    destruct (decide (o1 = o)) as [->|]; [exists o'; by rewrite decide_True|].
    exists o1. rewrite !decide_False; [done..|congruence].
Qed.

Lemma held_ok_new_pool pl H p P :
  held_ok pl H → pl !! p = None → pool_ok P → (∀ i, used_bit P i = false) → held_ok (<[p := P]> pl) H.
Proof.
  intros [H1 H2 H3 H4] Hp HP Hb. split; [|..|done|].
  - intros q Q. destruct (decide (q = p)) as [->|]; simplify_map_eq; [by intros [= <-]|by apply H1].
  - intros o q id Hq. destruct (H2 _ _ _ Hq) as (Q & j & HQ & ?). exists Q, j.
    rewrite lookup_insert_ne; [done|congruence].
  - intros q Q i. destruct (decide (q = p)) as [->|]; simplify_map_eq; [intros [= <-] _; by rewrite Hb|by apply H4].
Qed.

Lemma held_ok_delete_pool pl H p :
  held_ok pl H → (∀ o id, H o ≠ Some (p, id)) → held_ok (delete p pl) H.
Proof.
  intros [H1 H2 H3 H4] Hp. split; [|..|done|].
  - intros q Q [_ ?]%lookup_delete_Some. by apply (H1 q).
  - intros o q id Hq. destruct (H2 _ _ _ Hq) as (Q & j & HQ & ?). exists Q, j.
    rewrite lookup_delete_ne; [done|]. intros ->. by apply (Hp _ _ Hq).
  - intros q Q i [_ ?]%lookup_delete_Some. by apply H4.
Qed.
