(* ===== verification/AsidSpec.v ===== *)
(** * Address-space identifiers: no tag is ever shared

    The machine in which carving, assigning and giving back interleave; its
    invariant; and the two results: over any history no two spaces carry the same
    identifier and none is lost, and the system call is a run of the machine. *)

From Stdlib Require Import ZArith Lia.
From stdpp Require Import base numbers gmap list relations.
From S2P Require Import Prelude Rights Mdb Kobject Kcnode KcnodeInv KcnodeBoot.
From S2P Require Import KcnodeInstall Cspace IpcCap SysCspace Sched Asidpool AsidInv.
Local Open Scope Z_scope.
Implicit Types (P : KAsidPool) (s : space) (σ : asids) (v p h : N).

(** ** The machine *)

Record asid_machine := Mach {
  asd       : asids;
  rewinding : nat;                      (* carves that went too far and have not rewound *)
  carved    : gmap N (Z * Z);           (* ranges that are not pools yet, by retype *)
  assigning : gset N;                   (* spaces between kvspace_assign_asid and the install *)
  returning : gmap N (option N * Z);    (* calls between clearing a space and kasidpool_put *)
}.
Implicit Types m : asid_machine.

(** A pool is destroyed when its last reference goes: no space holds the capability
    to it in its slot and no call is about to give an identifier back. *)
Definition unnamed p m : Prop :=
  (∀ v s, spaces (asd m) !! v = Some s → asid_pool s ≠ Some p) ∧
  (∀ h i id, returning m !! h = Some (i, id) → i ≠ Some p).

Inductive astep : asid_machine → asid_machine → Prop :=
  | st_carve m h r n : carved m !! h = None → carve_take (kasid_next (asd m)) = (Some r, n) →
      astep m (Mach (set_next n (asd m)) (rewinding m) (<[h := r]> (carved m)) (assigning m) (returning m))
  | st_carve_fail m n : carve_take (kasid_next (asd m)) = (None, n) → (rewinding m < MAX_CPUS)%nat →
      astep m (Mach (set_next n (asd m)) (S (rewinding m)) (carved m) (assigning m) (returning m))
  | st_rewind m k : rewinding m = S k →
      astep m (Mach (set_next (carve_rewind (kasid_next (asd m))) (asd m)) k (carved m) (assigning m) (returning m))
  | st_pool m h p f n P : carved m !! h = Some (f, n) → pools (asd m) !! p = None →
      kasidpool_alloc_at f n = Some P →
      astep m (Mach (set_pools (<[p := P]> (pools (asd m))) (asd m)) (rewinding m) (delete h (carved m))
        (assigning m) (returning m))
  | st_range_lost m h : astep m (Mach (asd m) (rewinding m) (delete h (carved m)) (assigning m) (returning m))
  | st_pool_destroy m p : unnamed p m →
      astep m (Mach (set_pools (delete p (pools (asd m))) (asd m)) (rewinding m) (carved m) (assigning m) (returning m))
  | st_space m v c : spaces (asd m) !! v = None →
      astep m (Mach (set_spaces (<[v := kvspace_tag (pcid_enabled (asd m)) c]> (spaces (asd m))) (asd m))
        (rewinding m) (carved m) (assigning m) (returning m))
  | st_assign m v p e σ : kvspace_assign_asid (Some v) (Some p) (asd m) = Ret (e, σ) →
      astep m (Mach σ (rewinding m) (carved m)
        (if bool_decide (e = IRIS_OK) then {[ v ]} ∪ assigning m else assigning m) (returning m))
  | st_installed m v : v ∈ assigning m →
      astep m (Mach (asd m) (rewinding m) (carved m) (assigning m ∖ {[ v ]}) (returning m))
  | st_unassign m v h i id σ : v ∈ assigning m → returning m !! h = None →
      unassign_clear v (asd m) = Ret (i, id, σ) →
      astep m (Mach σ (rewinding m) (carved m) (assigning m ∖ {[ v ]}) (<[h := (i, id)]> (returning m)))
  | st_put m h i id σ : returning m !! h = Some (i, id) → put_back i id (asd m) = Ret σ →
      astep m (Mach σ (rewinding m) (carved m) (assigning m) (delete h (returning m)))
  | st_settle m v σ : v ∉ assigning m → settle_asid v (asd m) = Ret σ →
      astep m (Mach (set_spaces (delete v (spaces σ)) σ) (rewinding m) (carved m) (assigning m) (returning m)).

(** Boot: the space of the root task, [b], is stamped; nothing has been carved. *)
Definition boot_machine (on : bool) b (c : Z) : asid_machine :=
  Mach (Asids on KASID_FIRST ∅ {[ b := kvspace_tag_bootstrap on (kvspace_tag on c) ]}) 0 ∅ ∅ ∅.

(** ** The invariant *)

Definition holder m (o : owner) : option (N * Z) :=
  match o with
  | inl v => s ← spaces (asd m) !! v; p ← asid_pool s; Some (p, pcid s)
  | inr h => '(i, id) ← returning m !! h; p ← i; Some (p, id)
  end.

(** One owner's entry of [holder] against an update of the state. *)
Ltac holder_upd :=
  intros [?w|?k]; unfold upd_fn; repeat case_decide; simplify_eq;
  repeat match goal with
  | Hn : inl ?a ≠ inl ?b |- _ => assert (a ≠ b) by congruence; clear Hn
  | Hn : inr ?a ≠ inr ?b |- _ => assert (a ≠ b) by congruence; clear Hn
  end; simpl; simplify_map_eq; try done.

(** 31 pools fit. *)
Definition KASID_POOLS : Z := 31.

(** The range number [j]. *)
Definition range (j : Z) : Z := KASID_FIRST + KASID_POOL_SIZE * j.

(** [c] ranges have been carved; each belongs to one pool, or to one retype that has
    not built its pool yet, or to nobody any more. *)
Record ranges_ok (c : Z) (pl : gmap N KAsidPool) (cv : gmap N (Z * Z)) : Prop := RangesOk {
  rg_pool   : ∀ p P, pl !! p = Some P → ∃ j, 0 ≤ j < c ∧ first P = range j;
  rg_carved : ∀ h f n, cv !! h = Some (f, n) → n = KASID_POOL_SIZE ∧ ∃ j, 0 ≤ j < c ∧ f = range j;
  rg_pools  : ∀ p q P Q, pl !! p = Some P → pl !! q = Some Q → first P = first Q → p = q;
  rg_carves : ∀ h k f n n', cv !! h = Some (f, n) → cv !! k = Some (f, n') → h = k;
  rg_apart  : ∀ p P h f n, pl !! p = Some P → cv !! h = Some (f, n) → first P ≠ f;
}.

Record space_ok b (on : bool) v s : Prop := SpaceOk {
  so_none : asid_pool s = None → pcid s = 0 ∨ v = b ∧ pcid s = KASID_BOOTSTRAP;
  so_cr3  : pcid s ≠ 0 → user_cr3 s = paging_make_user_cr3 on (cr3 s) (pcid s);
}.

Record ainv b c m : Prop := AInv {
  ai_next   : kasid_next (asd m) = range (c + Z.of_nat (rewinding m));
  ai_count  : 0 ≤ c ≤ KASID_POOLS;
  ai_rewind : (rewinding m ≤ MAX_CPUS)%nat ∧ (rewinding m ≠ O → c = KASID_POOLS);
  ai_ranges : ranges_ok c (pools (asd m)) (carved m);
  ai_held   : held_ok (pools (asd m)) (holder m);
  ai_space  : ∀ v s, spaces (asd m) !! v = Some s → space_ok b (pcid_enabled (asd m)) v s;
  ai_assign : ∀ v, v ∈ assigning m → ∃ s p, spaces (asd m) !! v = Some s ∧ asid_pool s = Some p;
}.

Lemma boot_ainv on b c : ainv b 0 (boot_machine on b c).
Proof.
  split; simpl; [done|unfold KASID_POOLS; lia|split; [lia|done]|..].
  - by split.
  - assert (∀ o, holder (boot_machine on b c) o = None) as Hn.
    { intros [v|h]; [|done]. simpl. destruct (decide (v = b)) as [->|]; simplify_map_eq; done. }
    split; [done|..].
    + intros o p id. by rewrite Hn.
    + intros o1 o2 x. by rewrite Hn.
    + done.
  - intros v s [<- <-]%lookup_singleton_Some. split; simpl; [by right|done].
  - intros v. set_solver.
Qed.

(** ** Carving *)

Lemma carve_take_spec x : 0 ≤ x ≤ KASID_POOLS + Z.of_nat MAX_CPUS →
  carve_take (range x) =
    (if x <? KASID_POOLS then Some (range x, KASID_POOL_SIZE) else None, range (x + 1)).
Proof.
  unfold carve_take, range, KASID_POOLS, KASID_POOL_SIZE, KASID_FIRST, KASID_LAST, MAX_CPUS. intros Hx.
  rewrite (u32_id (2 + 128 * x + 128)), (u32_id (2 + 128 * x + 128 - 1)) by lia.
  replace (2 + 128 * x + 128) with (2 + 128 * (x + 1)) by lia.
  destruct (Z.ltb_spec x 31), (Z.ltb_spec 4094 (2 + 128 * (x + 1) - 1)); try lia; [|done].
  rewrite (wrap_id 16) by (unfold in_width; lia). done.
Qed.

Lemma carve_rewind_spec x : 0 ≤ x ≤ KASID_POOLS + Z.of_nat MAX_CPUS → carve_rewind (range (x + 1)) = range x.
Proof.
  unfold carve_rewind, range, KASID_POOLS, KASID_POOL_SIZE, KASID_FIRST, MAX_CPUS. intros Hx.
  rewrite u32_id by lia. lia.
Qed.

Lemma range_inj i j : range i = range j → i = j.
Proof. unfold range, KASID_POOL_SIZE. lia. Qed.

Section ranges.
Context (c : Z) (pl : gmap N KAsidPool) (cv : gmap N (Z * Z)) (HR : ranges_ok c pl cv).

Lemma ranges_carve h : 0 ≤ c → cv !! h = None → ranges_ok (c + 1) pl (<[h := (range c, KASID_POOL_SIZE)]> cv).
Proof.
  intros Hc Hh. destruct HR as [R1 R2 R3 R4 R5].
  assert (∀ k f n, cv !! k = Some (f, n) → f ≠ range c) as Hnew.
  { intros k f n Hk ->. destruct (R2 _ _ _ Hk) as (_ & j & Hj & E%range_inj). lia. }
  split; [..|done| |].
  - intros p P Hp. destruct (R1 _ _ Hp) as (j & Hj & E). exists j. split; [lia|done].
  - intros k f n [[<- [= <- <-]]|[_ Hk]]%lookup_insert_Some.
    + split; [done|]. exists c. split; [lia|done].
    + destruct (R2 _ _ _ Hk) as (E & j & Hj & ->). split; [done|]. exists j. split; [lia|done].
  - intros k k' f n n' [[<- [= <- <-]]|[Hne Hk]]%lookup_insert_Some [[<- Ek]|[Hne' Hk']]%lookup_insert_Some; [done|..].
    + by destruct (Hnew _ _ _ Hk').
    + injection Ek as <- _. by destruct (Hnew _ _ _ Hk).
    + by eapply R4.
  - intros p P k f n Hp [[<- [= <- <-]]|[_ Hk]]%lookup_insert_Some; [|by eapply R5].
    destruct (R1 _ _ Hp) as (j & Hj & ->). intros E%range_inj. lia.
Qed.

Lemma ranges_drop h : ranges_ok c pl (delete h cv).
Proof.
  destruct HR as [R1 R2 R3 R4 R5]. split; [done|..|done| |].
  - intros k f n [_ Hk]%lookup_delete_Some. by eapply R2.
  - intros k k' f n n' [_ Hk]%lookup_delete_Some [_ Hk']%lookup_delete_Some. by eapply R4.
  - intros p P k f n Hp [_ Hk]%lookup_delete_Some. by eapply R5.
Qed.

Lemma ranges_pool h f n p P :
  cv !! h = Some (f, n) → first P = f → ranges_ok c (<[p := P]> pl) (delete h cv).
Proof.
  intros Hh <-. destruct HR as [R1 R2 R3 R4 R5]. split.
  - intros q Q [[<- <-]|[_ Hq]]%lookup_insert_Some; [by destruct (R2 _ _ _ Hh) as (_ & j & ? & ?); exists j|by apply (R1 q)].
  - intros k f' n' [_ Hk]%lookup_delete_Some. by eapply R2.
  - intros q q' Q Q' [[<- <-]|[Hne Hq]]%lookup_insert_Some [[<- <-]|[Hne' Hq']]%lookup_insert_Some E; [done|..].
    + by destruct (R5 _ _ _ _ _ Hq' Hh).
    + by destruct (R5 _ _ _ _ _ Hq Hh).
    + by eapply R3.
  - intros k k' f' n1 n2 [_ Hk]%lookup_delete_Some [_ Hk']%lookup_delete_Some. by eapply R4.
  - intros q Q k f' n' [[<- <-]|[_ Hq]]%lookup_insert_Some [Hne Hk]%lookup_delete_Some; [|by eapply R5].
    intros <-. by apply Hne, (R4 _ _ _ _ _ Hh Hk).
Qed.

Lemma ranges_destroy p : ranges_ok c (delete p pl) cv.
Proof.
  destruct HR as [R1 R2 R3 R4 R5]. split; [|done| |done|].
  - intros q Q [_ Hq]%lookup_delete_Some. by apply (R1 q).
  - intros q q' Q Q' [_ Hq]%lookup_delete_Some [_ Hq']%lookup_delete_Some. by apply (R3 q q').
  - intros q Q k f n [_ Hq]%lookup_delete_Some. by apply (R5 q).
Qed.

(** A pool keeps its range whatever happens to its bits. *)
Lemma ranges_bits p P P' : pl !! p = Some P → first P' = first P → ranges_ok c (<[p := P']> pl) cv.
Proof.
  intros Hp Hf. destruct HR as [R1 R2 R3 R4 R5].
  assert (∀ q Q, <[p := P']> pl !! q = Some Q → ∃ Q', pl !! q = Some Q' ∧ first Q' = first Q) as Hq.
  { intros q Q [[<- <-]|[_ Hq]]%lookup_insert_Some; [by exists P|by exists Q]. }
  split; [|done| |done|].
  - intros q Q (Q' & H1 & <-)%Hq. by apply (R1 q).
  - intros q q' Q Q' (A & A1 & <-)%Hq (B & B1 & <-)%Hq. by apply R3.
  - intros q Q k f n (Q' & H1 & <-)%Hq. by eapply R5.
Qed.
End ranges.

(** ** Every step keeps the invariant *)

(** Assigning, with the pool as the set of its free identifiers. *)
Lemma assign_spec b c m v p s P :
  ainv b c m → spaces (asd m) !! v = Some s → pools (asd m) !! p = Some P →
  let on := pcid_enabled (asd m) in
  kvspace_assign_asid (Some v) (Some p) (asd m) =
    (if cr3 s =? 0 then Ret (IRIS_ERR_BAD_HANDLE, asd m)
     else if negb (pcid s =? 0) then Ret (IRIS_ERR_ALREADY_EXISTS, asd m)
     else if fst (kasidpool_take P) =? 0 then Ret (IRIS_ERR_NO_MEMORY, asd m)
     else let id := fst (kasidpool_take P) in
       Ret (IRIS_OK, Asids on (kasid_next (asd m)) (<[p := mark (id - first P) P]> (pools (asd m)))
              (<[v := Space (cr3 s) id (Some p) (paging_make_user_cr3 on (cr3 s) id)]> (spaces (asd m))))).
Proof.
  intros Hm Hv Hp on. unfold kvspace_assign_asid, get_space, get_pool. rewrite Hv. cbn [of_assert mbind res_bind].
  destruct (cr3 s =? 0); [done|]. destruct (negb _); [done|]. rewrite Hp. cbn [of_assert mbind res_bind].
  pose proof (ho_pool _ _ (ai_held _ _ _ Hm) _ _ Hp) as HP.
  destruct (take_spec P HP) as [(i & Hi & Hb & ->)|[_ ->]]; cbn [fst].
  - rewrite (proj2 (Z.eqb_neq _ _)) by (pose proof (po_first _ HP); unfold KASID_FIRST in *; lia).
    by replace (first P + i - first P) with i by lia.
  - rewrite Z.eqb_refl, insert_id by done. by destruct (asd m).
Qed.

Lemma assign_ainv b c m v p e σ :
  ainv b c m → kvspace_assign_asid (Some v) (Some p) (asd m) = Ret (e, σ) →
  ainv b c (Mach σ (rewinding m) (carved m)
    (if bool_decide (e = IRIS_OK) then {[ v ]} ∪ assigning m else assigning m) (returning m)).
Proof.
  intros Hm Ha. destruct (spaces (asd m) !! v) as [s|] eqn:Hv;
    [|unfold kvspace_assign_asid, get_space in Ha; by rewrite Hv in Ha].
  destruct (pools (asd m) !! p) as [P|] eqn:Hp.
  2: { unfold kvspace_assign_asid, get_space, get_pool in Ha. rewrite Hv, Hp in Ha. cbn in Ha.
       destruct (cr3 s =? 0); [by injection Ha as <- <-; destruct m|].
       destruct (negb _); [by injection Ha as <- <-; destruct m|done]. }
  rewrite (assign_spec b c m v p s P) in Ha by done. cbv zeta in Ha.
  destruct (cr3 s =? 0); [by injection Ha as <- <-; destruct m|].
  destruct (Z.eqb_spec (pcid s) 0) as [Hz|]; cbn [negb] in Ha; [|by injection Ha as <- <-; destruct m].
  destruct Hm as [A1 A2 A3 A4 A5 A6 A7]. pose proof (ho_pool _ _ A5 _ _ Hp) as HP.
  assert (holder m (inl v) = None) as Hno.
  { simpl. rewrite Hv. simpl. destruct (asid_pool s) as [q|] eqn:Eq; [exfalso|done].
    destruct (ho_held _ _ A5 (inl v) q 0) as (Q & i & HQ & Hi & E & _); [simpl; by rewrite Hv; simpl; rewrite Eq, Hz|].
    pose proof (po_first _ (ho_pool _ _ A5 _ _ HQ)). unfold KASID_FIRST in *. lia. }
  destruct (take_spec P HP) as [(i & Hi & Hb & Et)|[_ Et]]; rewrite Et in Ha; cbn [fst] in Ha;
    [|by injection Ha as <- <-; destruct m].
  pose proof (po_first _ HP) as Hf. rewrite (proj2 (Z.eqb_neq _ _)) in Ha by (unfold KASID_FIRST in *; lia).
  replace (first P + i - first P) with i in Ha by lia. injection Ha as <- <-. rewrite bool_decide_true by done.
  split; cbn [asd kasid_next rewinding carved pools spaces pcid_enabled assigning]; [done..| | | |].
  - by eapply ranges_bits.
  - apply (held_ok_ext _ (upd_fn (holder m) (inl v) (Some (p, first P + i)))); [|by apply held_ok_mark].
    holder_upd.
  - intros w sw [[<- <-]|[_ Hw]]%lookup_insert_Some; [|by apply A6]. by split; simpl.
  - intros w [->%elem_of_singleton|Hw]%elem_of_union.
    + eexists _, p. by rewrite lookup_insert_eq.
    + destruct (decide (w = v)) as [->|]; [eexists _, p; by rewrite lookup_insert_eq|].
      rewrite lookup_insert_ne by done. by apply A7.
Qed.

(** The identifier of a space goes to the call that will give it back. *)
Lemma unassign_ainv b c m v h i id σ :
  ainv b c m → v ∈ assigning m → returning m !! h = None → unassign_clear v (asd m) = Ret (i, id, σ) →
  ainv b c (Mach σ (rewinding m) (carved m) (assigning m ∖ {[ v ]}) (<[h := (i, id)]> (returning m))).
Proof.
  intros [A1 A2 A3 A4 A5 A6 A7] Hv Hh Hu. destruct (A7 v Hv) as (s & p & Hs & Hp).
  unfold unassign_clear, get_space in Hu. rewrite Hs in Hu. cbn [of_assert mbind res_bind] in Hu.
  injection Hu as <- <- <-.
  split; cbn [asd kasid_next rewinding carved pools spaces pcid_enabled assigning set_spaces]; [done..| | |].
  - apply (held_ok_ext _ (upd_fn (upd_fn (holder m) (inl v) None) (inr h) (holder m (inl v))));
      [|apply held_ok_pass; [done|simpl; by rewrite Hh]].
    holder_upd.
  - intros w sw [[<- <-]|[_ Hw]]%lookup_insert_Some; [|by apply A6]. split; simpl; [by left|done].
  - intros w [Hw Hne]%elem_of_difference. rewrite lookup_insert_ne by set_solver. by apply A7.
Qed.

(** A held identifier goes back into its pool, and the pool is still there. *)
Lemma put_back_held m o p id :
  held_ok (pools (asd m)) (holder m) → holder m o = Some (p, id) →
  ∃ P i, pools (asd m) !! p = Some P ∧ id ≠ 0 ∧ kasidpool_put P id = unmark i P ∧
    held_ok (<[p := unmark i P]> (pools (asd m))) (upd_fn (holder m) o None).
Proof.
  intros Hh Ho. destruct (ho_held _ _ Hh _ _ _ Ho) as (P & i & HP & Hi & -> & _).
  pose proof (ho_pool _ _ Hh _ _ HP) as Hok. exists P, i. split; [done|].
  split; [pose proof (po_first _ Hok); unfold KASID_FIRST in *; lia|].
  split; [by apply put_spec|]. by apply held_ok_unmark.
Qed.

Lemma put_ainv b c m h i id σ :
  ainv b c m → returning m !! h = Some (i, id) → put_back i id (asd m) = Ret σ →
  ainv b c (Mach σ (rewinding m) (carved m) (assigning m) (delete h (returning m))).
Proof.
  intros [A1 A2 A3 A4 A5 A6 A7] Hh Hp.
  assert (∀ o, match o with inr k => '(i, id) ← delete h (returning m) !! k; p ← i; Some (p, id) | inl _ => holder m o end
    = upd_fn (holder m) (inr h) None o) as Hupd.
  { holder_upd. }
  destruct i as [p|]; simpl in Hp.
  - destruct (put_back_held m (inr h) p id A5) as (P & i & HP & Hid & Ep & Hok); [simpl; by rewrite Hh|].
    rewrite (proj2 (Z.eqb_neq _ _)) in Hp by done. unfold get_pool in Hp. rewrite HP in Hp.
    cbn [of_assert mbind res_bind] in Hp. injection Hp as <-. rewrite Ep.
    split; cbn [asd kasid_next rewinding carved pools spaces pcid_enabled assigning set_pools]; [done..| | |done|done].
    + by eapply ranges_bits.
    + apply (held_ok_ext _ (upd_fn (holder m) (inr h) None)); [|done]. intros o. rewrite <-Hupd. by destruct o.
  - injection Hp as <-. split; try done. apply (held_ok_ext _ (holder m)); [|done].
    intros o. trans (upd_fn (holder m) (inr h) None o); [rewrite <-Hupd; by destruct o|].
    unfold upd_fn. case_decide; [|done]. subst o. simpl. by rewrite Hh.
Qed.

Lemma settle_ainv b c m v σ :
  ainv b c m → v ∉ assigning m → settle_asid v (asd m) = Ret σ →
  ainv b c (Mach (set_spaces (delete v (spaces σ)) σ) (rewinding m) (carved m) (assigning m) (returning m)).
Proof.
  intros [A1 A2 A3 A4 A5 A6 A7] Hv Hs. unfold settle_asid, get_space in Hs.
  destruct (spaces (asd m) !! v) as [s|] eqn:Es; [|done]. cbn [of_assert mbind res_bind] in Hs.
  assert (∀ f, (∀ o, holder (Mach (Asids (pcid_enabled (asd m)) (kasid_next (asd m)) f (delete v (spaces (asd m))))
    (rewinding m) (carved m) (assigning m) (returning m)) o = upd_fn (holder m) (inl v) None o)) as Hupd.
  { intros f. holder_upd. }
  assert (∀ w s', delete v (spaces (asd m)) !! w = Some s' → space_ok b (pcid_enabled (asd m)) w s') as B6.
  { intros w sw [_ Hw]%lookup_delete_Some. by apply A6. }
  assert (∀ w, w ∈ assigning m → ∃ s p, delete v (spaces (asd m)) !! w = Some s ∧ asid_pool s = Some p) as B7.
  { intros w Hw. rewrite lookup_delete_ne by congruence. by apply A7. }
  destruct (asid_pool s) as [p|] eqn:Ep.
  - destruct (put_back_held m (inl v) p (pcid s) A5) as (P & i & HP & Hid & Eput & Hok);
      [simpl; rewrite Es; simpl; by rewrite Ep|].
    unfold get_pool in Hs. rewrite HP in Hs. cbn in Hs. injection Hs as <-. rewrite Eput.
    unfold set_spaces, set_pools; cbn [pcid_enabled kasid_next pools spaces]. rewrite delete_insert_eq.
    split; cbn [asd kasid_next rewinding carved pools spaces pcid_enabled assigning]; try done.
    + by eapply ranges_bits.
    + eapply held_ok_ext; [apply Hupd|done].
  - injection Hs as <-. unfold set_spaces; cbn [pcid_enabled kasid_next pools spaces]. rewrite delete_insert_eq.
    split; cbn [asd kasid_next rewinding carved pools spaces pcid_enabled assigning]; try done.
    apply (held_ok_ext _ (holder m)); [|done]. intros o. rewrite Hupd. unfold upd_fn. case_decide; [|done].
    subst o. simpl. rewrite Es. simpl. by rewrite Ep.
Qed.

Lemma fresh_pool j P :
  kasidpool_alloc_at (range j) KASID_POOL_SIZE = Some P → 0 ≤ j < KASID_POOLS →
  first P = range j ∧ pool_ok P ∧ ∀ i, used_bit P i = false.
Proof.
  intros [= <-] Hj. unfold KASID_POOLS in *. split; [done|]. split.
  - split; [done|done|..]; cbn [first]; unfold range, KASID_FIRST, KASID_LAST, KASID_POOL_SIZE in *; lia.
  - intros i. rewrite used_bit_spec. by destruct (Z.to_nat (i / 64)) as [|[|n]]; apply Z.bits_0.
Qed.

Lemma astep_ainv b c m m' : ainv b c m → astep m m' → ∃ c', ainv b c' m'.
Proof.
  intros Hm Hst. pose proof Hm as [A1 A2 A3 A4 A5 A6 A7]. destruct Hst as
    [m h r n Hh Hc|m n Hc Hk|m k Hk|m h p f n P Hh Hp Ha|m h|m p Hun|m v cr Hv|m v p e σ Ha|m v Hv
    |m v h i id σ Hv Hh Hu|m h i id σ Hh Hp|m v σ Hv Hs].
  - rewrite A1, carve_take_spec in Hc by lia. destruct (Z.ltb_spec (c + Z.of_nat (rewinding m)) KASID_POOLS); [|done].
    injection Hc as <- <-. assert (rewinding m = O) as E.
    { destruct (decide (rewinding m = O)) as [|Hn]; [done|]. apply A3 in Hn. lia. }
    exists (c + 1). split; cbn [asd set_next kasid_next rewinding carved pools]; try done;
      [f_equal; lia|lia|split; [lia|congruence]|]. rewrite E, Z.add_0_r. apply ranges_carve; [done|lia|done].
  - rewrite A1, carve_take_spec in Hc by lia. destruct (Z.ltb_spec (c + Z.of_nat (rewinding m)) KASID_POOLS); [done|].
    injection Hc as <-. exists c. split; cbn [asd set_next kasid_next rewinding carved pools]; try done; [f_equal; lia|].
    split; [lia|]. intros _. destruct (decide (rewinding m = O)); [lia|by apply A3].
  - exists c. assert (c = KASID_POOLS) by (apply A3; lia).
    split; cbn [asd set_next kasid_next rewinding carved pools]; try done; [|split; [lia|done]].
    rewrite A1, Hk. replace (c + Z.of_nat (S k)) with (c + Z.of_nat k + 1) by lia. apply carve_rewind_spec. lia.
  - exists c. destruct (rg_carved _ _ _ A4 _ _ _ Hh) as (-> & j & Hj & ->).
    destruct (fresh_pool j P Ha) as (Hf & HP & Hb); [lia|].
    split; cbn [asd set_pools kasid_next rewinding carved pools]; try done; [by eapply ranges_pool|].
    apply held_ok_new_pool; done.
  - exists c. split; try done. by apply ranges_drop.
  - exists c. destruct Hun as [U1 U2]. split; cbn [asd set_pools kasid_next rewinding carved pools]; try done;
      [by apply ranges_destroy|]. apply held_ok_delete_pool; [done|]. intros [w|k] id; simpl.
    + destruct (spaces (asd m) !! w) as [s|] eqn:E; [|done]. simpl. specialize (U1 _ _ E).
      destruct (asid_pool s); [|done]. simpl. congruence.
    + destruct (returning m !! k) as [[i id']|] eqn:E; [|done]. simpl. specialize (U2 _ _ _ E).
      destruct i; [|done]. simpl. congruence.
  - exists c. split; cbn [asd set_spaces kasid_next rewinding carved pools spaces pcid_enabled]; try done.
    + apply (held_ok_ext _ (holder m)); [|done]. intros [w|k]; [|done]. simpl.
      destruct (decide (w = v)) as [->|]; simplify_map_eq; done.
    + intros w sw [[<- <-]|[_ Hw]]%lookup_insert_Some; [|by apply A6]. split; simpl; [by left|done].
    + intros w Hw. rewrite lookup_insert_ne; [by apply A7|]. intros ->. destruct (A7 _ Hw) as (? & ? & ? & _). congruence.
  - exists c. by eapply assign_ainv.
  - exists c. split; try done. intros w Hw. apply A7. set_solver.
  - exists c. by apply unassign_ainv with (i := i).
  - exists c. by eapply put_ainv.
  - exists c. by eapply settle_ainv.
Qed.

Lemma asteps_ainv b c m m' : rtc astep m m' → ainv b c m → ∃ c', ainv b c' m'.
Proof.
  intros Hs. revert c. induction Hs as [m|m m1 m' H1 _ IH]; intros c Hm; [by exists c|].
  destruct (astep_ainv b c m m1 Hm H1) as [c1 Hm1]. by apply (IH c1).
Qed.

(** ** What the invariant says *)

Section reachable.
Context b c m (Hm : ainv b c m).

(** The pool a named space names, and its place in it. *)
Lemma space_held v s p :
  spaces (asd m) !! v = Some s → asid_pool s = Some p →
  holder m (inl v) = Some (p, pcid s) ∧
  ∃ P i, pools (asd m) !! p = Some P ∧ pool_ok P ∧ 0 ≤ i < KASID_POOL_SIZE ∧ pcid s = first P + i.
Proof.
  intros Hv Hp. assert (holder m (inl v) = Some (p, pcid s)) as Hh by (simpl; rewrite Hv; simpl; by rewrite Hp).
  split; [done|]. pose proof (ai_held _ _ _ Hm) as Hok.
  destruct (ho_held _ _ Hok _ _ _ Hh) as (P & i & HP & Hi & E & _). exists P, i.
  split_and!; [done|by eapply ho_pool|lia..|done].
Qed.

Lemma pcid_range v s : spaces (asd m) !! v = Some s →
  pcid s = 0 ∨ v = b ∧ pcid s = KASID_BOOTSTRAP ∨ KASID_FIRST ≤ pcid s ≤ KASID_LAST.
Proof.
  intros Hv. destruct (asid_pool s) as [p|] eqn:Ep.
  - destruct (space_held v s p Hv Ep) as (_ & P & i & _ & [_ _ H1 H2] & Hi & ->). right. right.
    unfold KASID_POOL_SIZE in *. lia.
  - destruct (so_none _ _ _ _ (ai_space _ _ _ Hm _ _ Hv) Ep); auto.
Qed.

Lemma pools_apart p q P Q i j :
  pools (asd m) !! p = Some P → pools (asd m) !! q = Some Q → 0 ≤ i < KASID_POOL_SIZE → 0 ≤ j < KASID_POOL_SIZE →
  first P + i = first Q + j → p = q.
Proof.
  intros Hp Hq Hi Hj E. pose proof (ai_ranges _ _ _ Hm) as HR.
  destruct (rg_pool _ _ _ HR _ _ Hp) as (a & Ha & Ea), (rg_pool _ _ _ HR _ _ Hq) as (a' & Ha' & Ea').
  apply (rg_pools _ _ _ HR _ _ _ _ Hp Hq). unfold range, KASID_POOL_SIZE in *. lia.
Qed.

Lemma pcid_unique v w sv sw :
  spaces (asd m) !! v = Some sv → spaces (asd m) !! w = Some sw → pcid sv = pcid sw → pcid sv ≠ 0 → v = w.
Proof.
  intros Hv Hw E Hz. destruct (asid_pool sv) as [p|] eqn:Ep, (asid_pool sw) as [q|] eqn:Eq.
  - destruct (space_held v sv p Hv Ep) as (Hhv & P & i & HP & _ & Hi & E1).
    destruct (space_held w sw q Hw Eq) as (Hhw & Q & j & HQ & _ & Hj & E2).
    assert (p = q) as <- by (apply (pools_apart p q P Q i j); [done..|lia]). rewrite <-E in Hhw.
    by injection (ho_uniq _ _ (ai_held _ _ _ Hm) _ _ _ Hhv Hhw).
  - destruct (space_held v sv p Hv Ep) as (_ & P & i & _ & HP & Hi & E1). pose proof (po_first _ HP).
    destruct (so_none _ _ _ _ (ai_space _ _ _ Hm _ _ Hw) Eq) as [?|[_ ?]]; unfold KASID_FIRST, KASID_BOOTSTRAP in *; lia.
  - destruct (space_held w sw q Hw Eq) as (_ & P & i & _ & HP & Hi & E1). pose proof (po_first _ HP).
    destruct (so_none _ _ _ _ (ai_space _ _ _ Hm _ _ Hv) Ep) as [?|[_ ?]]; unfold KASID_FIRST, KASID_BOOTSTRAP in *; lia.
  - destruct (so_none _ _ _ _ (ai_space _ _ _ Hm _ _ Hv) Ep) as [?|[-> _]]; [lia|].
    destruct (so_none _ _ _ _ (ai_space _ _ _ Hm _ _ Hw) Eq) as [?|[-> _]]; [lia|done].
Qed.

(** An identifier is out of its pool exactly when a space, or a call that is giving
    it back, holds it. *)
Lemma used_exact p P i :
  pools (asd m) !! p = Some P → 0 ≤ i < KASID_POOL_SIZE →
  used_bit P i = true ↔
    (∃ v s, spaces (asd m) !! v = Some s ∧ asid_pool s = Some p ∧ pcid s = first P + i) ∨
    (∃ h, returning m !! h = Some (Some p, first P + i)).
Proof.
  intros Hp Hi. pose proof (ai_held _ _ _ Hm) as Hok. split.
  - intros Hb. destruct (ho_exact _ _ Hok _ _ _ Hp Hi Hb) as [[v|h] Ho]; simpl in Ho.
    + left. exists v. destruct (spaces (asd m) !! v) as [s|]; [|done]. simpl in Ho.
      destruct (asid_pool s) as [q|] eqn:Eq; [|done]. injection Ho as -> Ho. by exists s.
    + right. exists h. destruct (returning m !! h) as [[q id]|]; [|done]. simpl in Ho.
      destruct q as [q|]; [|done]. by injection Ho as -> ->.
  - intros Hw. assert (∃ o, holder m o = Some (p, first P + i)) as [o Ho].
    { destruct Hw as [(v & s & Hv & Hq & <-)|[h Hh]].
      - exists (inl v). by apply space_held.
      - exists (inr h). simpl. by rewrite Hh. }
    destruct (ho_held _ _ Hok _ _ _ Ho) as (Q & j & HQ & Hj & E & Hb). simplify_eq.
    by replace i with j by lia.
Qed.

Lemma put_back_returns h i id : returning m !! h = Some (i, id) → ∃ σ, put_back i id (asd m) = Ret σ.
Proof.
  intros Hh. destruct i as [p|]; [|by eexists]. simpl.
  destruct (put_back_held m (inr h) p id (ai_held _ _ _ Hm)) as (P & j & HP & Hz & _); [simpl; by rewrite Hh|].
  rewrite (proj2 (Z.eqb_neq _ _)) by done. unfold get_pool. rewrite HP. by eexists.
Qed.
End reachable.

(** ** The results *)

(** C20: Over any history of carving ranges, building and destroying pools, creating
    and ending address spaces, assigning and giving back identifiers, with the calls
    interleaved between their atomic steps: no two address spaces carry the same
    identifier; an identifier is the boot space's 1 or lies in 2..4094, and is what the
    low twelve bits of the space's CR3 hold; an identifier is marked in its pool exactly
    when a space or a call in flight has it, so none is lost; giving one back never
    reaches a pool that is gone; and an assignment to a space without a name succeeds
    unless every identifier of the pool is out.  A pool is destroyed in such a history
    only when no space and no call in flight names it. *)
Theorem asid_history_unique on b c m :
  rtc astep (boot_machine on b c) m →
  (∀ v w sv sw, spaces (asd m) !! v = Some sv → spaces (asd m) !! w = Some sw →
     pcid sv = pcid sw → kvspace_has_asid sv = true → v = w) ∧
  (∀ v s, spaces (asd m) !! v = Some s → kvspace_has_asid s = true →
     (v = b ∧ pcid s = KASID_BOOTSTRAP ∨ KASID_FIRST ≤ pcid s ≤ KASID_LAST) ∧
     (pcid_enabled (asd m) = true → Z.land (user_cr3 s) (2 ^ 12 - 1) = pcid s)) ∧
  (∀ p P i, pools (asd m) !! p = Some P → 0 ≤ i < KASID_POOL_SIZE →
     used_bit P i = true ↔
       (∃ v s, spaces (asd m) !! v = Some s ∧ asid_pool s = Some p ∧ pcid s = first P + i) ∨
       (∃ h, returning m !! h = Some (Some p, first P + i))) ∧
  (∀ h i id, returning m !! h = Some (i, id) → ∃ σ, put_back i id (asd m) = Ret σ) ∧
  (∀ v s p P, spaces (asd m) !! v = Some s → pools (asd m) !! p = Some P →
     cr3 s ≠ 0 → kvspace_has_asid s = false →
     ∃ e σ, kvspace_assign_asid (Some v) (Some p) (asd m) = Ret (e, σ) ∧
       (e = IRIS_OK ∨ e = IRIS_ERR_NO_MEMORY ∧ ∀ i, 0 ≤ i < KASID_POOL_SIZE → used_bit P i = true)).
Proof.
  intros Hr. destruct (asteps_ainv b 0 _ _ Hr (boot_ainv on b c)) as [k Hm]. unfold kvspace_has_asid.
  split_and!.
  - intros v w sv sw Hv Hw E Hz. apply negb_true_iff, Z.eqb_neq in Hz. by eapply (pcid_unique b k m Hm).
  - intros v s Hv Hz. apply negb_true_iff, Z.eqb_neq in Hz.
    destruct (pcid_range b k m Hm v s Hv) as [?|Hp]; [done|]. split; [done|]. intros Hon.
    rewrite (so_cr3 _ _ _ _ (ai_space _ _ _ Hm _ _ Hv) Hz), Hon. apply user_cr3_tag.
    unfold KASID_FIRST, KASID_LAST, KASID_BOOTSTRAP in *. lia.
  - intros p P i. apply (used_exact b k m Hm).
  - intros h i id. apply (put_back_returns b k m Hm).
  - intros v s p P Hv Hp Hc Hz. rewrite (assign_spec b k m v p s P Hm Hv Hp). cbv zeta.
    rewrite (proj2 (Z.eqb_neq _ _) Hc), Hz.
    destruct (take_spec P (ho_pool _ _ (ai_held _ _ _ Hm) _ _ Hp)) as [(i & Hi & _ & ->)|[Hall ->]]; cbn [fst].
    + pose proof (po_first _ (ho_pool _ _ (ai_held _ _ _ Hm) _ _ Hp)).
      rewrite (proj2 (Z.eqb_neq (first P + i) 0)) by (unfold KASID_FIRST in *; lia). eauto.
    + eauto 10.
Qed.

(** Runs one step of a concrete machine: [k] is a constructor with what it decides. *)
Ltac run_step k :=
  lazymatch goal with |- rtc astep ?m _ =>
    eapply rtc_l;
      [eapply (k m);
       first [vm_compute; reflexivity | apply (bool_decide_eq_true_1 _); vm_compute; reflexivity]|];
    lazymatch goal with |- rtc astep ?m' _ =>
      let n := eval vm_compute in m' in
      let E := fresh in
      assert (m' = n) as E by (vm_compute; reflexivity); rewrite E; clear E
    end
  end.
Ltac run_assign v p :=
  lazymatch goal with |- rtc astep ?M _ =>
    let r := eval vm_compute in (kvspace_assign_asid (Some v) (Some p) (asd M)) in
    lazymatch r with Ret (?e, ?σ) => run_step (λ m, st_assign m v p e σ) end
  end.

(** A pool and two spaces: one takes the first identifier and gives it back on a
    refused install; the other takes it, and the first the next. *)
Lemma asid_history_unique_witness :
  ∃ m, rtc astep (boot_machine true 5 4096) m ∧
    (pcid <$> spaces (asd m) !! 7%N) = Some 2 ∧ (pcid <$> spaces (asd m) !! 6%N) = Some 3 ∧
    ∀ v s, spaces (asd m) !! v = Some s → pcid s = 2 → v = 7%N.
Proof.
  assert (∃ m, rtc astep (boot_machine true 5 4096) m ∧
    (pcid <$> spaces (asd m) !! 7%N) = Some 2 ∧ (pcid <$> spaces (asd m) !! 6%N) = Some 3) as (m & Hr & H7 & H6).
  { eexists. split.
    - run_step (λ m, st_carve m 0 (2, 128) 130).
      run_step (λ m, st_pool m 0 9 2 128 (AsidPool 2 128 [0; 0])).
      run_step (λ m, st_space m 6 8192). run_step (λ m, st_space m 7 12288).
      run_assign 6%N 9%N.
      lazymatch goal with |- rtc astep ?M _ =>
        let r := eval vm_compute in (unassign_clear 6 (asd M)) in
        lazymatch r with Ret (?i, ?id, ?σ) => run_step (λ m, st_unassign m 6 1 i id σ) end end.
      lazymatch goal with |- rtc astep ?M _ =>
        let r := eval vm_compute in (put_back (Some 9%N) 2 (asd M)) in
        lazymatch r with Ret ?σ => run_step (λ m, st_put m 1 (Some 9%N) 2 σ) end end.
      run_assign 7%N 9%N. run_assign 6%N 9%N.
      run_step (λ m, st_installed m 7). apply rtc_refl.
    - split; vm_compute; reflexivity. }
  exists m. split_and!; [done..|]. intros v s Hv Hp. destruct (spaces (asd m) !! 7%N) as [s7|] eqn:E7; [|done].
  injection H7 as H7. destruct (asid_history_unique true 5 4096 m Hr) as (Hu & _).
  apply (Hu v 7%N s s7 Hv E7); [by rewrite Hp, H7|]. unfold kvspace_has_asid. by rewrite Hp.
Defined.

(** ** The system call is a run of the machine *)

Definition at_rest σ m : asid_machine := Mach σ (rewinding m) (carved m) (assigning m) (returning m).

(** What the spaces are called is as it was. *)
Definition names_kept σ m : Prop := ∀ v, pcid <$> spaces σ !! v = pcid <$> spaces (asd m) !! v.

(** The assignment in [sys_asid_pool_assign], and what the call does after it. *)
Section assigned.
Context b c m (Hm : ainv b c m) v p e σ (Ha : kvspace_assign_asid (Some v) (Some p) (asd m) = Ret (e, σ)).

Lemma assign_refused : e ≠ IRIS_OK → rtc astep m (at_rest σ m) ∧ names_kept σ m.
Proof.
  intros He. split.
  - apply rtc_once. apply (st_assign m) in Ha. by rewrite bool_decide_false in Ha.
  - unfold kvspace_assign_asid, get_space, get_pool in Ha. destruct (spaces (asd m) !! v) as [s|]; [|done].
    cbn in Ha. destruct (cr3 s =? 0); [by injection Ha as <- <-|]. destruct (negb _); [by injection Ha as <- <-|].
    destruct (pools (asd m) !! p) as [P|]; [|done]. cbn in Ha. destruct (kasidpool_take P) as [id P'].
    destruct (id =? 0); [|by injection Ha as <- _]. by injection Ha as <- <-.
Qed.

Lemma assign_named : e = IRIS_OK → ∃ s s', spaces (asd m) !! v = Some s ∧ pcid s = 0 ∧ v ∉ assigning m ∧
  asid_pool s' = Some p ∧ pcid s' ≠ 0 ∧ spaces σ = <[v := s']> (spaces (asd m)) ∧
  astep m (Mach σ (rewinding m) (carved m) ({[ v ]} ∪ assigning m) (returning m)).
Proof.
  intros He. pose proof (st_assign m v p e σ Ha) as Hst. rewrite bool_decide_true in Hst by done.
  unfold kvspace_assign_asid, get_space, get_pool in Ha. destruct (spaces (asd m) !! v) as [s|] eqn:Hv; [|done].
  cbn in Ha. destruct (cr3 s =? 0); [by injection Ha as <- _|].
  destruct (Z.eqb_spec (pcid s) 0) as [Hz|]; cbn in Ha; [|by injection Ha as <- _].
  destruct (pools (asd m) !! p) as [P|]; [|done]. cbn in Ha. destruct (kasidpool_take P) as [id P'].
  destruct (Z.eqb_spec id 0); [by injection Ha as <- _|]. injection Ha as _ <-.
  exists s. eexists. split_and!; [done|done| | | |reflexivity|exact Hst]; [|done|done].
  intros Hin. destruct (ai_assign _ _ _ Hm _ Hin) as (s' & q & Hs' & Hq). simplify_eq.
  destruct (space_held b c m Hm v s q Hv Hq) as (_ & Q & i & _ & HQ & Hi & E).
  pose proof (po_first _ HQ). unfold KASID_FIRST in *. lia.
Qed.

Lemma assign_installed : e = IRIS_OK → rtc astep m (at_rest σ m).
Proof.
  intros He. destruct (assign_named He) as (s & s' & _ & _ & Hin & _ & _ & _ & Hst).
  eapply rtc_l; [exact Hst|]. apply rtc_once.
  replace (at_rest σ m) with (Mach σ (rewinding m) (carved m) (({[ v ]} ∪ assigning m) ∖ {[ v ]}) (returning m));
    [apply (st_installed (Mach _ _ _ _ _)); set_solver|]. unfold at_rest. f_equal. set_solver.
Qed.

Lemma assign_undone σ' : e = IRIS_OK → kvspace_unassign_asid (Some v) σ = Ret σ' →
  rtc astep m (at_rest σ' m) ∧ names_kept σ' m.
Proof.
  intros He Hu. destruct (assign_named He) as (s & s' & Hv & Hz & Hin & Hp & _ & Hs & Hst).
  apply res_bind_Ret in Hu as ([[i id] σ1] & Hc & Hb). split.
  - set (h := fresh (dom (returning m))). assert (returning m !! h = None) as Hh by (apply not_elem_of_dom, is_fresh).
    eapply rtc_l; [exact Hst|]. eapply rtc_l; [apply (st_unassign (Mach _ _ _ _ _) v h i id σ1); [set_solver|done|exact Hc]|].
    apply rtc_once.
    replace (at_rest σ' m) with (Mach σ' (rewinding m) (carved m) (({[ v ]} ∪ assigning m) ∖ {[ v ]})
      (delete h (<[h := (i, id)]> (returning m)))).
    + apply (st_put (Mach _ _ _ _ _) h i id); [apply lookup_insert_eq|exact Hb].
    + unfold at_rest. f_equal; [set_solver|]. by rewrite delete_insert_id.
  - unfold names_kept. assert (spaces σ' = spaces σ1) as ->.
    { destruct i as [q|]; simpl in Hb; [|by injection Hb as <-]. destruct (id =? 0); [by injection Hb as <-|].
      apply res_bind_Ret in Hb as (Q & _ & [= <-]). done. }
    unfold unassign_clear, get_space in Hc. rewrite Hs, lookup_insert_eq in Hc. injection Hc as _ _ <-.
    intros w. cbn [spaces set_spaces]. destruct (decide (w = v)) as [->|]; simplify_map_eq; [by rewrite Hz|done].
Qed.
End assigned.

(** Whatever the capability layer answers: a call that returns has taken the steps of
    an assignment, with its undoing when the install is refused; it names one space
    that had no name, and a refused call leaves every space with the name it had. *)
Theorem sys_asid_pool_assign_runs caps_hdr t arg0 arg1 κ b c m r κ' σ' :
  ainv b c m → sys_asid_pool_assign caps_hdr t arg0 arg1 κ (asd m) = Ret (r, κ', σ') →
  rtc astep m (at_rest σ' m) ∧
  match r with
  | inr _ => ∃ v s s', spaces (asd m) !! v = Some s ∧ kvspace_has_asid s = false ∧
               kvspace_has_asid s' = true ∧ spaces σ' = <[v := s']> (spaces (asd m))
  | inl _ => names_kept σ' m
  end.
Proof.
  intros Hm. unfold sys_asid_pool_assign.
  assert (rtc astep m (at_rest (asd m) m) ∧ names_kept (asd m) m) as Hstay by (split; [by destruct m|done]).
  destruct (cspace_root (sct_root t)) as [root|]; [|by intros [= <- <- <-]].
  intros ([a κ1] & _ & H)%res_bind_Ret. destruct a as [e|[[p ?] ?]]; [by injection H as <- <- <-|].
  apply res_bind_Ret in H as ([d κ2] & _ & H). destruct d as [e|[[v ?] ?]]; [by res_inv; subst|].
  apply res_bind_Ret in H as ([d κ3] & _ & H). destruct d as [e|[pcn pidx]]; [by res_inv; subst|].
  apply res_bind_Ret in H as ([e σ] & Ha & H).
  apply res_bind_Ret in H as ([[e2 κ4] σ2] & He & H). res_inv. subst r σ'.
  case_bool_decide as Eok.
  - apply res_bind_Ret in He as ([e3 κ8] & _ & He). case_bool_decide as E3.
    + injection He as <- <- <-. subst e3. split; [by eapply assign_installed|]. cbn.
      destruct (assign_named b c m Hm v p e σ Ha Eok) as (s & s' & Hv & Hz & _ & _ & Hn & Hs & _).
      exists v, s, s'. unfold kvspace_has_asid. rewrite Hz. by rewrite (proj2 (Z.eqb_neq _ _) Hn).
    + res_inv. subst. unfold sys_result. rewrite bool_decide_false by done. by eapply assign_undone.
  - injection He as <- <- <-. unfold sys_result. rewrite bool_decide_false by done. by eapply assign_refused.
Qed.

(** So is the end of a space. *)
Theorem kvspace_settle_asid_runs caps_hdr v κ m κ' σ' :
  v ∉ assigning m → kvspace_settle_asid caps_hdr v κ (asd m) = Ret (κ', σ') →
  astep m (at_rest (set_spaces (delete v (spaces σ')) σ') m).
Proof.
  intros Hv Hs. apply st_settle; [done|]. unfold kvspace_settle_asid, settle_asid in *.
  apply res_bind_Ret in Hs as (s & -> & Hs). cbn [mbind res_bind] in *.
  destruct (asid_pool s) as [p|]; cbn [mbind res_bind] in *; [|by injection Hs as _ <-].
  destruct (get_pool p (asd m)) as [P| |]; cbn [mbind res_bind] in *; [|done..].
  apply res_bind_Ret in Hs as ([κ1 σ1] & H1 & [= _ <-]).
  by apply res_bind_Ret in H1 as ([e κ2] & _ & [= _ <-]).
Qed.

(** ** Where the code falls short

    [unnamed] is what [st_pool_destroy] asks of the moment a pool is destroyed.  The
    code means to provide it with a capability: the space has one to its pool in a
    slot of its own, derived from the slot the caller of [sys_asid_pool_assign] named.
    A revocation of that slot empties the space's too, and nothing clears the pointer
    [asid_pool].  Below, CNode 1 is the caller's root with the pool (object 9) in slot 1
    and the space (object 8) in slot 2; CNode 3 is the space's own slots. *)

Definition pool_cspace : kstate :=
  let new o t n κ := with_mdb (add_slots o n (mdb κ)) (kobject_init o t n κ) in
  activated 1 (run id (release 9 (put 1 2 8 RW 0 None (put 1 1 9 RW 0 None
    (new 3%N KOBJ_CNODE 3%N (new 8%N KOBJ_VSPACE 0%N (new 9%N KOBJ_ASID_POOL 0%N boot))))))).

Definition pool_hl : N → Z := hold (hold boot_hl 8 1) 3 1.

Lemma pool_cspace_kinv : kinv pool_hl (hold none_held 1 1) pool_cspace.
Proof.
  pose proof (kinv_new _ _ boot 9 KOBJ_ASID_POOL 0 boot_kinv eq_refl eq_refl I ltac:(done)) as H0.
  apply (kinv_new _ _ _ 8 KOBJ_VSPACE 0) in H0; [|reflexivity|reflexivity|exact I|done].
  apply (kinv_new _ _ _ 3 KOBJ_CNODE 3) in H0; [|reflexivity|reflexivity|exact I|done].
  apply (put_kinv _ _ 1 1 9 RW 0 None) in H0; [|vm_compute; reflexivity].
  apply (put_kinv _ _ 1 2 8 RW 0 None) in H0; [|vm_compute; reflexivity].
  assert (∀ o, hold pool_hl 9 1 o = hold (hold (hold boot_hl 9 1) 8 1) 3 1 o) as E
    by (intros o; unfold pool_hl, hold; repeat case_decide; lia).
  pose proof (release_spec pool_hl none_held (λ _, False) _ _ (kinv_ext _ _ _ _ _ E (λ _, eq_refl) H0)) as Hr.
  assert (0 ≤ pool_hl 9) as Hp by (vm_compute; discriminate). specialize (Hr Hp).
  apply returns_Ret in Hr as (κ' & Hr & [Hκ _ _]).
  apply activated_kinv; [rewrite Hr; exact Hκ|vm_compute; reflexivity].
Qed.

Definition pool_asids : asids :=
  Asids true 130 {[ 9%N := AsidPool 2 128 [0; 0] ]} {[ 8%N := kvspace_tag true 8192 ]}.

Definition owner_thread : sc_thread := ScThread (TaskRoot (Some 1%N) 0 0) false false 0.

(** The owner of a pool assigns an identifier to a space, revokes its capability to the
    pool and deletes it.  All three calls succeed; the pool is destroyed, with the space
    still pointing at it; when the space ends its identifier is given back to a pool
    that is gone. *)
Theorem revoked_pool_dangles :
  kinv pool_hl (hold none_held 1 1) pool_cspace ∧
  let assigned := sys_asid_pool_assign (λ _, 3%N) owner_thread 1 2 pool_cspace pool_asids in
  ('(r, _, _) ← assigned; Ret r) = Ret (inr 0) ∧
  let κ1 := run (λ '(_, κ, _), κ) assigned in
  object (mdb κ1) (InNode 3 VSPACE_CAP_ASID_POOL) = Some 9%N ∧
  let revoked := sys_cspace_revoke owner_thread 1 κ1 in
  ('(r, _, _) ← revoked; Ret r) = Ret (inr 1) ∧
  let deleted := sys_cnode_delete owner_thread 0 1 (run snd revoked) in
  ('(r, _) ← deleted; Ret r) = Ret (inr 0) ∧
  EvDestroy 9 ∈ events (run snd deleted) ∧
  ('(_, _, σ) ← assigned;
   s ← get_space 8 σ; Ret (pcid s, asid_pool s)) = Ret (2, Some 9%N) ∧
  ('(_, _, σ) ← assigned;
   kvspace_settle_asid (λ _, 3%N) 8 (run snd deleted) (set_pools (delete 9%N (pools σ)) σ)) = Panic.
Proof.
  split; [exact pool_cspace_kinv|]. vm_compute. split_and!; try reflexivity.
  repeat (apply list_elem_of_here || apply list_elem_of_further).
Qed.
